(* ===== verification/_CoqProject ===== *)
-Q . S2P
Prelude.v
Rlp.v
RlpLaws.v
U256.v
Opcodes.v
Memory.v
Exponential.v
Vm.v
VmEffects.v
VmFuel.v
VmLaws.v
VmArith.v
VmOps.v
VmTypes.v
Codec.v
Effects.v
Nibble.v
NibbleLaws.v
TrieNode.v
TrieCodec.v
Trie.v
TrieSpec.v
TrieEncoding.v
TrieRoot.v
TrieLaws.v
TrieRefine.v
TrieLeaves.v
TrieCommit.v
TrieRemove.v
TrieDelete.v
TrieRooted.v
NetTypes.v
Discv4.v
Discv4Laws.v
Kademlia.v
KademliaLaws.v
Discovery.v
DiscoveryRun.v
DiscoverySafety.v
DiscoveryLocks.v
DiscoveryLaws.v
DiscoveryLiveness.v
CoreTypes.v
CoreLaws.v
Consensus.v
Genesis.v
Store.v
StoreLaws.v
StateTries.v
StateLaws.v
GenesisState.v
Blockchain.v
PayloadLaws.v
ImportLaws.v
EvmDb.v
ImportState.v
SerdeUtils.v
RpcTypes.v
RpcEth.v
RpcTx.v
RpcEngine.v
Rpc.v
RpcLaws.v
EngineLaws.v
ChainLaws.v
EnginePayloads.v
GasLaws.v
Libmdbx.v
LibmdbxLaws.v
Rlpx.v
RlpxLaws.v
MlirProgram.v
MlirProgramLaws.v
MlirState.v
MlirStateLaws.v
MlirPrecompiles.v
MlirPrecompilesLaws.v
MlirSyscall.v
MlirSyscallLaws.v
