(* ===== verification/Prelude.v ===== *)
(** * Verification of the ethereum_rust execution client

    The repository is an Ethereum execution client in Rust.  Blocks arrive as RLP, are
    validated against their parent and executed, and are written to a store; state is
    committed to by Merkle Patricia tries; transactions wait in a pool; payloads are
    built for the consensus client; peers are found by UDP; two JSON-RPC servers take
    requests of users and of the consensus client; [levm] is the client's own virtual
    machine, [evm_mlir] another one that compiles contracts to machine code.  This library
    translates those parts into Rocq functions, proves what makes them correct, and records
    where they are not.

    ** Conventions

    A [Result] is [res]: [Ok], [Err], and two more outcomes, [Panic] for an unwinding
    panic and [OutOfFuel] for a loop that outlives the fuel of its model.  No theorem
    takes [OutOfFuel] for an answer: where a function has fuel, a theorem says that the
    fuel given is enough.  Integers are [Z] with their width written out: [checked],
    [uadd], [usub] and the like fail or wrap as the profile says ([dev_profile] panics
    on overflow and evaluates debug assertions, [release_profile] wraps and does not);
    theorems hold in both unless they name one.  Bytes, hashes and addresses are lists
    of integers with [is_byte] and [is_array N]; [HashMap] is [gmap]; a mutable or
    shared structure is threaded through the state monad of Effects, in which what was
    written before an error stays written.  Code of other crates is a parameter:
    Keccak-256 (of which only the length of digests and the absence of collisions among
    finitely many named strings are ever assumed), CRC-32, secp256k1 (signing and the
    recovery of signers), the bloom filter, revm, libmdbx, AES, Snappy, pairing curves and
    the machine code that MLIR generates; so are the clock and the network.

    ** Parts, files and sources

    - Prelude, U256, Effects: outcomes, slices, big-endian numbers, the operations of
      [ethereum_types::U256], the state monad; generic lemmas and tactics.
    - Rlp, RlpLaws ([crates/rlp]): every encoder and decoder, the struct builders; the
      class [RlpLaws] of types whose decoding inverts encoding.  Codec: the interface
      [Codec] that the types of the other crates are proved against, and the tactics
      that run encoder and decoder chains.
    - Opcodes, Memory, Exponential, Vm ([crates/levm/src]): the opcode table and the
      assembler, memory, the fake exponential, and the interpreter with one definition
      per arm of the [match] in [VM::execute].  VmEffects: weakest preconditions and a
      summary of every instruction; VmFuel, VmLaws, VmArith, VmOps, VmTypes: the
      theorems.
    - Nibble, NibbleLaws ([crates/trie/nibble.rs]): half-byte paths at every alignment,
      and the lists of half-bytes they stand for.
    - TrieNode, TrieCodec ([node_hash.rs], [node.rs], [rlp.rs]), Trie ([state.rs],
      [db.rs], [node/], [trie.rs]): nodes, their two encodings, and the operations of
      the trie over any node database (class [TrieDB]).  TrieSpec and TrieRoot: finite
      maps from paths and the root that the yellow paper defines for them;
      TrieEncoding: the hand-written encodings are that RLP; TrieLaws: a trie stands for
      a map and keeps doing so; TrieRefine, TrieLeaves, TrieCommit, TrieRemove,
      TrieDelete, TrieRooted: the theorems.
    - CoreTypes, CoreLaws ([crates/core/types]): transactions, receipts, accounts,
      headers, blocks, with codecs, hashes and signed messages.  Consensus: header
      validation and the fee market.  Genesis: chain configuration, genesis block, fork
      ids.
    - Store, StoreLaws ([crates/storage]): the trait of engines as a class with laws,
      the in-memory engine, the facade.  StateTries: the tries an engine keeps and the
      operations of the facade on accounts; StateLaws: they refine a map of accounts;
      GenesisState: the state of the genesis block.  EvmDb ([crates/evm/db.rs]): the
      database that the executor reads; ImportState: the state of an imported block.
    - Blockchain, PayloadLaws, ImportLaws ([crates/blockchain], [crates/evm/evm.rs]):
      block import over any lawful engine and any executor, the transaction pool,
      payload building.

    - NetTypes, Discv4, Discv4Laws ([crates/net/types.rs], [discv4.rs]): endpoints, nodes,
      node records, the six messages and the packets around them.  Kademlia,
      KademliaLaws ([kademlia.rs]): the table of peers.  Discovery ([net.rs]): the UDP
      server, the startup, the revalidation and the lookups, as trees of the effects they
      perform.  DiscoveryRun: one task alone, and tasks interleaved; DiscoverySafety,
      DiscoveryLocks, DiscoveryLaws, DiscoveryLiveness: the theorems.
    - SerdeUtils ([crates/core/serde_utils.rs]): JSON values and the hand-written
      conversions of numbers, booleans and bytes.  RpcTypes, RpcEth, RpcTx, RpcEngine, Rpc
      ([crates/rpc]): errors, block identifiers and replies; the handlers of the eth and
      debug namespaces; transactions, calls and the estimate of gas; the engine API;
      authentication, dispatch and the two servers.  A handler is a state transformer of
      the store.  RpcLaws, EngineLaws, ChainLaws, EnginePayloads, GasLaws: the theorems.
    - Libmdbx, LibmdbxLaws ([crates/storage/engines/libmdbx.rs], [rlp.rs],
      [crates/trie/db]): the tables, their encodings and the engine over any database
      (class [Mdbx]), and the agreement of the two engines.
    - Rlpx, RlpxLaws ([crates/net/rlpx]): the handshake of the initiator, encrypted
      frames, messages and connections, over any ciphers (class [Ciphers]).
    - MlirProgram, MlirProgramLaws ([crates/evm_mlir/src/program.rs]): opcodes, the parser
      and the printer of programs.  MlirState, MlirStateLaws ([state.rs], [db.rs],
      [journal.rs]): the database, the journal of a transaction over it, and the world of
      accounts, slots and code that both stand for.  MlirPrecompiles, MlirPrecompilesLaws
      ([precompiles.rs]): the precompiled contracts, over any curves and hashes (class
      [Crypto]).  MlirSyscall, MlirSyscallLaws ([env.rs], [result.rs], [syscall.rs],
      [lib.rs]): the environment, the syscalls of the generated code, calls, creations and
      transactions, over any generated code (class [Machine]; [LawfulMachine] says that it
      acts by memory writes and syscalls only).

    ** What the theorems show

    - RLP: round trips of every type; where the item decoder cuts its input; exactly
      when it panics; over-long integers panic.
    - Virtual machine: with overflow checks every execution ends (without them a loop
      of MCOPYs runs forever); the gas limit holds but for MCOPY; a callee's RETURN
      resumes the caller as it was, while its STOP ends the whole execution; static
      calls change nothing; machines stay well typed; the arithmetic instructions compute
      the EVM's functions with the exceptions stated; memory refines a byte array.
    - Trie: for keys of one length and without hash collisions, insertion and lookup
      refine a finite map, the root is that of the yellow paper in whatever order entries
      come, and a committed trie whose root node has at least 32 bytes can be opened and
      extended; node encodings are RLP and survive the database.
      Removal refines the map too, for keys none of which ends like the leaf of another;
      examples show how it goes wrong for other keys.
    - Chain data: round trips of transactions and blocks (typed transactions below 56
      bytes do not decode), what a signature commits to, the base fee and blob fee formulas
      where they do not overflow, chains of valid headers, genesis, fork ids.
    - Storage, import, pool, payloads: stored blocks are found; tables stay consistent;
      account updates and the genesis file give the state and the root they describe, and
      states of earlier blocks remain readable;
      an accepted block extends the canonical parent and adds exactly itself and its
      receipts, a rejected one changes no table but the codes; admission to the pool; the
      header of a payload is valid under stated conditions.
    - Peer discovery: packets round-trip and later versions of messages are accepted; the
      table keeps its invariant; under every interleaving of the tasks the lock of the
      table is never stuck and the revalidation never misses a peer it pinged; pings lead
      to proven endpoints; requests are answered to proven peers only, in packets that
      fit; silent peers leave; lookups keep the nearest nodes.
    - JSON-RPC: conversions to JSON strings round-trip (a [u128] only below 16); requests
      to the public server change nothing but the pool, requests without a fresh token
      change nothing and get an error (or, with a time of issue 2^63 seconds away, panic);
      a payload is called valid only when its block is stored; whatever requests arrive,
      the store holds one chain, all of it canonical; an announced payload can be fetched
      and is the block that was built; the search for a gas limit ends, and the answer of
      the estimate was seen to succeed.
    - libmdbx: from a new database on, the engine answers as the in-memory engine does,
      as long as values fit the size limits of their tables; larger values are refused.
    - RLPx: the handshake leaves both ends in step, and over connections in step messages
      arrive in order, whatever the interleaving, two of them changed by their encodings.
    - MLIR machine: jump destinations are those of the yellow paper and programs print
      back; whatever the generated code does, the journal stays in step with the database
      and the commit of a transaction without an access list gives the accounts, slots and
      codes that were returned; failed calls without a value leave no trace; the net gas of
      storage is that of the EIPs; modular exponentiation gives the power, for at least the
      gas of EIP-2565 and exactly that gas for exponents of up to 32 bytes.

    ** Fuel and bounds

    The interpreter gets a fuel that depends on the gas limit and the code, proved
    sufficient with overflow checks on; the list decoder gets the length of its input; the
    fake exponential a bound on the terms of its series; a trie operation one unit per half-byte of the key
    and two more; a commit one per cached node and one more; the root of a map one more
    than its longest key; the search for a gas limit [SEARCH_FUEL] rounds, where 129 are
    enough.  Lengths are bounded by [isize_max] where Rust's allocator
    does, and by [2^60] for the keys and values of a trie.

    ** Not modelled

    Parsing the text of a request, the derived (serde) conversions between JSON and
    records, HTTP, sockets and timers, the command line, the libmdbx library, ciphers and
    compression, the example connection of [net.rs], the L2 stack,
    the code generator of [evm_mlir] with its tables of symbols (its meaning is that of
    MLIR, which is not in the repository), the calls into revm, and test helpers.  Of the trie, keys of different
    lengths are modelled but proved only by examples; Merkle proofs are modelled without
    theorems. *)

From stdpp Require Export prelude list gmap strings.
From Stdlib Require Export ZArith Lia.

#[export] Set Default Proof Using "Type".
Global Open Scope Z_scope.

(** ** Outcomes of Rust code

    [Ok]/[Err] are the two constructors of [Result]; [Panic] is an unwinding
    panic (failed [unwrap], out-of-range slice, arithmetic overflow with checks
    on); [OutOfFuel] says that a loop did not finish within the fuel given to
    its model, and is never produced by the code. *)
Inductive res (E A : Type) : Type :=
  | Ok (a : A)
  | Err (e : E)
  | Panic
  | OutOfFuel.
Arguments Ok {E A} _.
Arguments Err {E A} _.
Arguments Panic {E A}.
Arguments OutOfFuel {E A}.

#[export] Instance res_mret (E : Type) : MRet (res E) := λ A a, Ok a.
#[export] Instance res_mbind (E : Type) : MBind (res E) := λ A B f m,
  match m with
  | Ok a => f a
  | Err e => Err e
  | Panic => Panic
  | OutOfFuel => OutOfFuel
  end.
#[export] Instance res_fmap (E : Type) : FMap (res E) := λ A B f m,
  match m with
  | Ok a => Ok (f a)
  | Err e => Err e
  | Panic => Panic
  | OutOfFuel => OutOfFuel
  end.

(** [map_err] of [Result]. *)
Definition map_err {E F A} (f : E → F) (m : res E A) : res F A :=
  match m with
  | Ok a => Ok a
  | Err e => Err (f e)
  | Panic => Panic
  | OutOfFuel => OutOfFuel
  end.

(** [Option::unwrap] and [Option::ok_or]. *)
Definition unwrap {E A} (o : option A) : res E A :=
  match o with Some a => Ok a | None => Panic end.
Definition ok_or {E A} (e : E) (o : option A) : res E A :=
  match o with Some a => Ok a | None => Err e end.

Lemma bind_Ok {E A B} (m : res E A) (f : A → res E B) b :
  m ≫= f = Ok b ↔ ∃ a, m = Ok a ∧ f a = Ok b.
Proof.
  destruct m; cbn; split; intros Hm.
  all: try (by destruct Hm as (? & [=] & ?)); try done.
  - eauto.
  - by destruct Hm as (? & [= ->] & ?).
Qed.

Lemma Ok_inj {E A} (a b : A) : (Ok a : res E A) = Ok b → a = b.
Proof. by intros [=]. Qed.

Lemma bind_Ok_l {E A B} (a : A) (f : A → res E B) : (Ok a : res E A) ≫= f = f a.
Proof. done. Qed.

(** Method chains of builders, [x.f()]. *)
Declare Scope rust_scope.
Delimit Scope rust_scope with rust.
Notation "x |> f" := (f x) (at level 62, left associativity, only parsing) : rust_scope.
Global Open Scope rust_scope.

(** ** Machine integers

    [usize] and [u64] are 64 bits wide.  Plain [+], [-] and [*] on them panic on
    overflow in the debug profile and wrap in the release profile, so the model
    is parametrised by the build profile. *)
Class Profile := overflow_checks : bool.

Definition in_width (w x : Z) : bool := (0 <=? x) && (x <? 2 ^ w).

Definition checked {E} `{Profile} (w x : Z) : res E Z :=
  if in_width w x then Ok x
  else if overflow_checks then Panic
  else Ok (x mod 2 ^ w).

Definition uadd {E} `{Profile} (a b : Z) : res E Z := checked 64 (a + b).
Definition usub {E} `{Profile} (a b : Z) : res E Z := checked 64 (a - b).
Definition umul {E} `{Profile} (a b : Z) : res E Z := checked 64 (a * b).

(** [/] panics on a zero divisor. *)
Definition udiv {E} (a b : Z) : res E Z := if b =? 0 then Panic else Ok (a / b).

Lemma checked_in {E} `{Profile} w x : 0 <= x < 2 ^ w → checked (E:=E) w x = Ok x.
Proof.
  intros. unfold checked, in_width.
  rewrite (proj2 (Z.leb_le _ _)), (proj2 (Z.ltb_lt _ _)) by lia. done.
Qed.

Lemma uadd_ok {E} `{Profile} a b : 0 <= a → 0 <= b → a + b < 2 ^ 64 → uadd (E:=E) a b = Ok (a + b).
Proof. intros. apply checked_in. lia. Qed.
Lemma usub_ok {E} `{Profile} a b : 0 <= b <= a → a < 2 ^ 64 → usub (E:=E) a b = Ok (a - b).
Proof. intros. apply checked_in. lia. Qed.
Lemma umul_ok {E} `{Profile} a b : 0 <= a → 0 <= b → a * b < 2 ^ 64 → umul (E:=E) a b = Ok (a * b).
Proof. intros. apply checked_in. nia. Qed.

Lemma checked_range {E} `{Profile} w x y :
  0 <= w → checked (E:=E) w x = Ok y → 0 <= y < 2 ^ w.
Proof.
  unfold checked, in_width. intros Hw Hc.
  assert (0 < 2 ^ w) by (apply Z.pow_pos_nonneg; lia).
  destruct (_ && _) eqn:Hr; [|destruct overflow_checks; [done|]]; simplify_eq.
  - lia.
  - apply Z.mod_pos_bound. lia.
Qed.

(** In both profiles a result is right modulo the width. *)
Lemma checked_mod {E} `{Profile} w x y : 0 <= w → checked (E:=E) w x = Ok y → y = x mod 2 ^ w.
Proof.
  unfold checked, in_width. intros Hw Hc. destruct (_ && _) eqn:Hr; [|destruct overflow_checks; [done|]];
    simplify_eq; [|done].
  apply andb_true_iff in Hr as [?%Z.leb_le ?%Z.ltb_lt]. by rewrite Z.mod_small.
Qed.

(** With overflow checks on, an arithmetic result is the mathematical one. *)
Lemma checked_exact {E} `{Profile} w x y :
  overflow_checks = true → checked (E:=E) w x = Ok y → y = x ∧ 0 <= x < 2 ^ w.
Proof.
  unfold checked, in_width. intros -> Hc.
  destruct (_ && _) eqn:Hr; simplify_eq. split; [done|lia].
Qed.

(** ** Sequences indexed by [usize] *)

(** A Rust slice or [Vec] is at most [isize::MAX] bytes long. *)
Definition isize_max : Z := 2 ^ 63 - 1.

Definition zlen {A} (l : list A) : Z := Z.of_nat (length l).
Definition ztake {A} (n : Z) (l : list A) : list A := take (Z.to_nat n) l.
Definition zdrop {A} (n : Z) (l : list A) : list A := drop (Z.to_nat n) l.

(** [&l[a..b]]: panics unless [a <= b <= l.len()]. *)
Definition slice {E A} (l : list A) (a b : Z) : res E (list A) :=
  if (0 <=? a) && (a <=? b) && (b <=? zlen l) then Ok (ztake (b - a) (zdrop a l))
  else Panic.
(** [&l[a..]] and [&l[..b]]. *)
Definition slice_from {E A} (l : list A) (a : Z) : res E (list A) := slice l a (zlen l).
Definition slice_to {E A} (l : list A) (b : Z) : res E (list A) := slice l 0 b.
(** [l[i]]. *)
Definition index {E A} (l : list A) (i : Z) : res E A :=
  if 0 <=? i then unwrap (l !! Z.to_nat i) else Panic.

Lemma zlen_nonneg {A} (l : list A) : 0 <= zlen l.
Proof. unfold zlen. lia. Qed.
Lemma zlen_nil {A} : zlen (@nil A) = 0.
Proof. done. Qed.
Lemma zlen_cons {A} (x : A) l : zlen (x :: l) = 1 + zlen l.
Proof. unfold zlen. simpl. lia. Qed.
Lemma zlen_app {A} (l k : list A) : zlen (l ++ k) = zlen l + zlen k.
Proof. unfold zlen. rewrite length_app. lia. Qed.
Lemma zlen_replicate {A} n (x : A) : zlen (replicate n x) = Z.of_nat n.
Proof. unfold zlen. by rewrite length_replicate. Qed.
Lemma zlen_zdrop {A} n (l : list A) : 0 <= n <= zlen l → zlen (zdrop n l) = zlen l - n.
Proof. unfold zlen, zdrop. rewrite length_drop. lia. Qed.
Lemma zlen_ztake {A} n (l : list A) : 0 <= n <= zlen l → zlen (ztake n l) = n.
Proof. unfold zlen, ztake. rewrite length_take. lia. Qed.
Lemma zlen_0_nil {A} (l : list A) : zlen l = 0 → l = [].
Proof. destruct l; [done|]. rewrite zlen_cons. pose proof (zlen_nonneg l). lia. Qed.

Lemma ztake_app_exact {A} (l k : list A) n : n = zlen l → ztake n (l ++ k) = l.
Proof. intros ->. unfold ztake, zlen. rewrite Nat2Z.id. apply take_app_length. Qed.
Lemma zdrop_app_exact {A} (l k : list A) n : n = zlen l → zdrop n (l ++ k) = k.
Proof. intros ->. unfold zdrop, zlen. rewrite Nat2Z.id. apply drop_app_length. Qed.
Lemma ztake_zdrop {A} n (l : list A) : ztake n l ++ zdrop n l = l.
Proof. apply take_drop. Qed.
Lemma zdrop_0 {A} (l : list A) : zdrop 0 l = l.
Proof. done. Qed.
Lemma zdrop_zdrop {A} a b (l : list A) : 0 <= a → 0 <= b → zdrop a (zdrop b l) = zdrop (b + a) l.
Proof. intros. unfold zdrop. rewrite drop_drop. f_equal. lia. Qed.
Lemma ztake_all {A} n (l : list A) : zlen l <= n → ztake n l = l.
Proof. unfold ztake, zlen. intros. apply take_ge. lia. Qed.

Lemma lookup_ztake {A} n (l : list A) i : (i < Z.to_nat n)%nat → ztake n l !! i = l !! i.
Proof. intros. by apply lookup_take_lt. Qed.
Lemma lookup_zdrop {A} n (l : list A) i : zdrop n l !! i = l !! (Z.to_nat n + i)%nat.
Proof. apply lookup_drop. Qed.

Lemma slice_ok {E A} (l : list A) a b :
  0 <= a <= b → b <= zlen l → slice (E:=E) l a b = Ok (ztake (b - a) (zdrop a l)).
Proof.
  intros. unfold slice.
  rewrite !(proj2 (Z.leb_le _ _)) by lia. done.
Qed.
Lemma slice_from_ok {E A} (l : list A) a :
  0 <= a <= zlen l → slice_from (E:=E) l a = Ok (zdrop a l).
Proof.
  intros. unfold slice_from. rewrite slice_ok by lia.
  rewrite ztake_all; [done|]. rewrite zlen_zdrop; lia.
Qed.
Lemma slice_to_ok {E A} (l : list A) b :
  0 <= b <= zlen l → slice_to (E:=E) l b = Ok (ztake b l).
Proof. intros. unfold slice_to. rewrite slice_ok by lia. by rewrite Z.sub_0_r. Qed.
Lemma slice_inv {E A} (l : list A) a b k :
  slice (E:=E) l a b = Ok k →
  0 <= a <= b ∧ b <= zlen l ∧ k = ztake (b - a) (zdrop a l) ∧ zlen k = b - a.
Proof.
  unfold slice. destruct (_ && _) eqn:Hr; intros; simplify_eq.
  assert (0 <= a <= b ∧ b <= zlen l) as (?&?) by lia.
  split_and!; try lia; try done. rewrite zlen_ztake; rewrite ?zlen_zdrop; lia.
Qed.
Lemma slice_Err {E A} (l : list A) a b e : slice (E:=E) l a b ≠ Err e.
Proof. unfold slice. by destruct (_ && _). Qed.
Lemma slice_from_suffix {E A} (l : list A) a k :
  slice_from (E:=E) l a = Ok k → ∃ p, l = p ++ k ∧ zlen p = a.
Proof.
  intros (Ha & Hb & -> & Hk)%slice_inv. rewrite ztake_all by (rewrite zlen_zdrop; lia).
  exists (ztake a l). rewrite ztake_zdrop, zlen_ztake by lia. done.
Qed.
Lemma slice_from_cons {E A} (x : A) l : slice_from (E:=E) (x :: l) 1 = Ok l.
Proof.
  pose proof (zlen_nonneg l). rewrite slice_from_ok by (rewrite zlen_cons; lia). done.
Qed.

(** ** Bytes and big-endian words *)
Definition is_byte (b : Z) : Prop := 0 <= b < 256.
#[export] Instance is_byte_dec b : Decision (is_byte b).
Proof. unfold is_byte. apply _. Defined.
Abbreviation bytes_ok l := (Forall is_byte l).

(** [from_be_bytes] and [to_be_bytes]. *)
Fixpoint of_be_acc (acc : Z) (l : list Z) : Z :=
  match l with
  | [] => acc
  | b :: l => of_be_acc (acc * 256 + b) l
  end.
Definition of_be (l : list Z) : Z := of_be_acc 0 l.
Fixpoint to_be (n : nat) (x : Z) : list Z :=
  match n with
  | O => []
  | S n => (x / 256 ^ Z.of_nat n) mod 256 :: to_be n x
  end.

Lemma pow256_pos n : 0 <= n → 0 < 256 ^ n.
Proof. intros. apply Z.pow_pos_nonneg; lia. Qed.

Lemma of_be_acc_spec acc l : of_be_acc acc l = acc * 256 ^ zlen l + of_be l.
Proof.
  unfold of_be. revert acc. induction l as [|b l IH]; intros acc; cbn [of_be_acc].
  - rewrite zlen_nil. lia.
  - rewrite IH, (IH (0 * 256 + b)), zlen_cons, Z.pow_add_r by (pose proof (zlen_nonneg l); lia).
    ring.
Qed.
Lemma of_be_nil : of_be [] = 0.
Proof. done. Qed.
Lemma of_be_cons b l : of_be (b :: l) = b * 256 ^ zlen l + of_be l.
Proof. unfold of_be at 1. cbn [of_be_acc]. apply of_be_acc_spec. Qed.
Lemma of_be_app l k : of_be (l ++ k) = of_be l * 256 ^ zlen k + of_be k.
Proof.
  induction l as [|b l IH]; simpl.
  - rewrite of_be_nil. lia.
  - rewrite !of_be_cons, IH, zlen_app, Z.pow_add_r by apply zlen_nonneg. ring.
Qed.
Lemma of_be_range l : bytes_ok l → 0 <= of_be l < 256 ^ zlen l.
Proof.
  induction 1 as [|b l Hb Hl IH]; [done|].
  rewrite of_be_cons, zlen_cons, Z.pow_add_r by (pose proof (zlen_nonneg l); lia).
  unfold is_byte in Hb. pose proof (pow256_pos _ (zlen_nonneg l)). nia.
Qed.
Lemma of_be_zeros n l : of_be (replicate n 0 ++ l) = of_be l.
Proof. induction n; simpl; [done|]. rewrite of_be_cons. lia. Qed.

Lemma to_be_length n x : length (to_be n x) = n.
Proof. induction n; simpl; congruence. Qed.
Lemma to_be_zlen n x : zlen (to_be n x) = Z.of_nat n.
Proof. unfold zlen. by rewrite to_be_length. Qed.
Lemma to_be_bytes n x : bytes_ok (to_be n x).
Proof.
  induction n; simpl; constructor; auto. unfold is_byte. apply Z.mod_pos_bound. lia.
Qed.
Lemma of_be_to_be n x : of_be (to_be n x) = x mod 256 ^ Z.of_nat n.
Proof.
  induction n as [|n IH]; [by rewrite Z.mod_1_r|].
  cbn [to_be]. rewrite of_be_cons, IH, to_be_zlen.
  set (p := 256 ^ Z.of_nat n). assert (0 < p) by (apply pow256_pos; lia).
  replace (256 ^ Z.of_nat (S n)) with (p * 256)
    by (unfold p; rewrite Nat2Z.inj_succ, Z.pow_succ_r; lia).
  rewrite Z.rem_mul_r by lia. lia.
Qed.
Lemma of_be_to_be_small n x : 0 <= x < 256 ^ Z.of_nat n → of_be (to_be n x) = x.
Proof. intros. rewrite of_be_to_be. by apply Z.mod_small. Qed.

Lemma of_be_inj l k : bytes_ok l → bytes_ok k → length l = length k → of_be l = of_be k → l = k.
Proof.
  intros Hl. revert k. induction Hl as [|b l Hb Hl IH]; intros [|c k] Hk Hlen Heq; try done.
  inversion Hk as [|? ? Hc Hk']; subst. simpl in Hlen.
  rewrite !of_be_cons in Heq.
  assert (zlen l = zlen k) as Hz by (unfold zlen; lia). rewrite Hz in Heq.
  pose proof (of_be_range _ Hl) as Hrl. pose proof (of_be_range _ Hk') as Hrk.
  rewrite Hz in Hrl. unfold is_byte in *.
  assert (b = c) as ->.
  { apply Z.le_antisymm; apply Z.le_ngt; intros Hlt; nia. }
  f_equal. apply IH; auto; lia.
Qed.
Lemma to_be_of_be l : bytes_ok l → to_be (length l) (of_be l) = l.
Proof.
  intros Hl. apply of_be_inj; auto using to_be_bytes, to_be_length.
  rewrite of_be_to_be_small; [done|]. apply (of_be_range _ Hl).
Qed.

(** ** Automation *)

(** Inverts hypotheses that say that a computation returned [Ok]. *)
Ltac res_step :=
  match goal with
  | H : (?m ≫= ?f) = Ok _ |- _ => apply bind_Ok in H; destruct H as (?&?&?)
  | H : mret _ = Ok _ |- _ => injection H as H; subst
  | H : Ok _ = Ok _ |- _ => injection H as H; subst
  | H : Err _ = Ok _ |- _ => discriminate H
  | H : Panic = Ok _ |- _ => discriminate H
  | H : OutOfFuel = Ok _ |- _ => discriminate H
  | H : (if ?b then _ else _) = Ok _ |- _ => destruct b eqn:?
  | H : match ?x with _ => _ end = Ok _ |- _ => destruct x eqn:?
  end.
Ltac res_inv := repeat (res_step; simplify_eq); cbv beta in *.

(** Turns boolean comparisons into propositions. *)
Ltac bool_prop :=
  repeat match goal with
  | H : negb _ = true |- _ => apply negb_true_iff in H
  | H : negb _ = false |- _ => apply negb_false_iff in H
  | H : (_ && _) = true |- _ => apply andb_true_iff in H; destruct H
  | H : (_ || _) = false |- _ => apply orb_false_iff in H; destruct H
  | H : (_ <=? _) = true |- _ => apply Z.leb_le in H
  | H : (_ <=? _) = false |- _ => apply Z.leb_gt in H
  | H : (_ <? _) = true |- _ => apply Z.ltb_lt in H
  | H : (_ <? _) = false |- _ => apply Z.ltb_ge in H
  | H : (_ =? _) = true |- _ => apply Z.eqb_eq in H
  | H : (_ =? _) = false |- _ => apply Z.eqb_neq in H
  end.

(** Decides a boolean comparison in the goal by [lia]. *)
Ltac decide_bool :=
  match goal with
  | |- context [?a <=? ?b] =>
    first [ rewrite (proj2 (Z.leb_le a b)) by lia | rewrite (proj2 (Z.leb_gt a b)) by lia ]
  | |- context [?a <? ?b] =>
    first [ rewrite (proj2 (Z.ltb_lt a b)) by lia | rewrite (proj2 (Z.ltb_ge a b)) by lia ]
  | |- context [?a =? ?b] =>
    first [ rewrite (proj2 (Z.eqb_eq a b)) by lia | rewrite (proj2 (Z.eqb_neq a b)) by lia ]
  end.
Ltac decide_bools := repeat (decide_bool; cbn [andb orb negb]).

(** Linear arithmetic with [/] and [mod]. *)
Ltac divlia := Z.to_euclidean_division_equations; lia.

Create Rewrite HintDb zlen.
#[export] Hint Rewrite @zlen_nil @zlen_cons @zlen_app @zlen_replicate to_be_zlen : zlen.
Ltac zlen_simpl := autorewrite with zlen in *.

Lemma to_be_app a b x : to_be (a + b) x = to_be a (x / 256 ^ Z.of_nat b) ++ to_be b x.
Proof.
  induction a as [|a IH]; [done|]. cbn [Nat.add to_be app]. rewrite IH. f_equal.
  rewrite Z.div_div by (pose proof (pow256_pos (Z.of_nat b)); pose proof (pow256_pos (Z.of_nat a)); lia).
  rewrite <-Z.pow_add_r, (Z.add_comm (Z.of_nat b)), <-Nat2Z.inj_add by lia. done.
Qed.
Lemma to_be_zero n : to_be n 0 = replicate n 0.
Proof.
  induction n as [|n IH]; [done|]. cbn [to_be replicate]. by rewrite IH.
Qed.
Lemma pow256 n : 0 <= n → 256 ^ n = 2 ^ (8 * n).
Proof. intros. change 256 with (2 ^ 8). rewrite <-Z.pow_mul_r by lia. done. Qed.

(** The two build profiles of cargo. *)
Definition dev_profile : Profile := true.
Definition release_profile : Profile := false.

Lemma bind_OutOfFuel {E A B} (m : res E A) (f : A → res E B) :
  m ≠ OutOfFuel → (∀ a, m = Ok a → f a ≠ OutOfFuel) → m ≫= f ≠ OutOfFuel.
Proof. intros Hm Hf. destruct m; cbn; try done. by apply Hf. Qed.
Lemma bind_Panic {E A B} (m : res E A) (f : A → res E B) :
  m ≠ Panic → (∀ a, m = Ok a → f a ≠ Panic) → m ≫= f ≠ Panic.
Proof. intros Hm Hf. destruct m; cbn; try done. by apply Hf. Qed.
Lemma checked_wraps {E} `{Profile} w x : overflow_checks = false → checked (E:=E) w x ≠ Panic.
Proof. unfold checked. intros ->. by case_match. Qed.
Lemma checked_fuel {E} `{Profile} w x : checked (E:=E) w x ≠ OutOfFuel.
Proof. unfold checked. by repeat case_match. Qed.
Lemma slice_fuel {E A} (l : list A) a b : slice (E:=E) l a b ≠ OutOfFuel.
Proof. unfold slice. by case_match. Qed.

Create HintDb fuel.
#[export] Hint Resolve checked_fuel slice_fuel : fuel.
(** Proves that straight-line code does not run out of fuel. *)
Ltac fuel_step :=
  first
    [ apply bind_OutOfFuel; [|intros ? ?]
    | case_match
    | done
    | solve [eauto with fuel] ].
