(* ===== verification/Rlp.v ===== *)
(** * RLP: recursive length prefix encoding

    Model of [crates/rlp]: the encoders ([encode.rs]), the decoders ([decode.rs])
    and the struct helpers ([structs.rs]).  A buffer is the list of its bytes;
    [encode x] is what [RLPEncode::encode] appends to the buffer.  A decoder
    returns the value and the rest of its input, an [RLPDecodeError], or panics. *)

From S2P Require Import Prelude.

(** ** constants.rs, error.rs *)
Definition RLP_NULL : Z := 0x80.
Definition RLP_EMPTY_LIST : Z := 0xC0.

(** The string inside [Custom] is kept as the data it is formatted from: the
    field name and the inner error for [field_decode_error], the text otherwise. *)
Inductive RLPDecodeError :=
  | InvalidLength
  | MalformedData
  | MalformedBoolean
  | UnexpectedList
  | UnexpectedString
  | CustomField (field_name : string) (err : RLPDecodeError)
  | Custom (msg : string).

Abbreviation dres A := (res RLPDecodeError A).

(** ** encode.rs *)

(** [iter().position(|&x| x != 0)]. *)
Fixpoint position_nonzero (l : list Z) : option nat :=
  match l with
  | [] => None
  | x :: l => if negb (x =? 0) then Some 0%nat else S <$> position_nonzero l
  end.

(** [&bytes[start..]] with [start] the position of the first nonzero byte; the
    code unwraps the position, [be_trim_position] shows that it exists. *)
Definition be_trim (bytes : list Z) : list Z :=
  match position_nonzero bytes with
  | Some start => drop start bytes
  | None => []
  end.

Definition bool_encode (b : bool) : list Z := if b then [0x01] else [RLP_NULL].

(** The body shared by the impls for [u8], [u16], [u32], [u64] and [usize];
    [w] is the width in bytes. *)
Definition uint_encode (w : nat) (n : Z) : list Z :=
  if n =? 0 then [RLP_NULL]
  else if n <=? 0x7f then [n]
  else
    let bytes := to_be w n in
    let tail := be_trim bytes in
    (RLP_NULL + zlen tail) :: tail.
Definition u8_encode : Z → list Z := uint_encode 1.
Definition u16_encode : Z → list Z := uint_encode 2.
Definition u32_encode : Z → list Z := uint_encode 4.
Definition u64_encode : Z → list Z := uint_encode 8.
Definition usize_encode : Z → list Z := uint_encode 8.

Definition unit_encode (_ : unit) : list Z := [RLP_NULL].

Definition bytes_encode (self : list Z) : list Z :=
  let len := zlen self in
  let self_0 := default 0 (self !! 0%nat) in
  if (len =? 1) && (self_0 <? RLP_NULL) then [self_0]
  else
    (if len <? 56 then [RLP_NULL + len]
     else
       let tail := be_trim (to_be 8 len) in
       (0xb7 + zlen tail) :: tail) ++ self.

Definition array_encode (self : list Z) : list Z := bytes_encode self.
Definition str_encode (self : list Z) : list Z := bytes_encode self.
Definition Bytes_encode (self : list Z) : list Z := bytes_encode self.
Definition H32_encode (self : list Z) : list Z := bytes_encode self.
Definition H64_encode (self : list Z) : list Z := bytes_encode self.
Definition H128_encode (self : list Z) : list Z := bytes_encode self.
Definition Address_encode (self : list Z) : list Z := bytes_encode self.
Definition H256_encode (self : list Z) : list Z := bytes_encode self.
Definition H264_encode (self : list Z) : list Z := bytes_encode self.
Definition H512_encode (self : list Z) : list Z := bytes_encode self.
Definition Signature_encode (self : list Z) : list Z := bytes_encode self.
Definition Bloom_encode (self : list Z) : list Z := bytes_encode self.

(** [U256::leading_zeros]. *)
Definition bits (x : Z) : Z := if x =? 0 then 0 else Z.log2 x + 1.
Definition leading_zeros256 (x : Z) : Z := 256 - bits x.

Definition U256_encode (self : Z) : list Z :=
  let leading_zeros_in_bytes := leading_zeros256 self / 8 in
  let bytes := to_be 32 self in
  bytes_encode (zdrop leading_zeros_in_bytes bytes).

Definition encode_length (total_len : Z) : list Z :=
  if total_len <? 56 then [0xc0 + total_len]
  else
    let tail := be_trim (to_be 8 total_len) in
    (0xf7 + zlen tail) :: tail.

Definition vec_encode {A} (encode : A → list Z) (self : list A) : list Z :=
  match self with
  | [] => [0xc0]
  | _ =>
    let total_len := fold_left (λ acc item, acc + zlen (encode item)) self 0 in
    encode_length total_len ++ concat (map encode self)
  end.

Definition pair_encode {S T} (es : S → list Z) (et : T → list Z) (x : S * T) : list Z :=
  let total_len := zlen (es x.1) + zlen (et x.2) in
  encode_length total_len ++ es x.1 ++ et x.2.
Definition triple_encode {S T U} (es : S → list Z) (et : T → list Z) (eu : U → list Z)
    (x : S * T * U) : list Z :=
  let '(a, b, c) := x in
  let total_len := zlen (es a) + zlen (et b) + zlen (eu c) in
  encode_length total_len ++ es a ++ et b ++ eu c.
Definition quad_encode {S T U V} (es : S → list Z) (et : T → list Z) (eu : U → list Z)
    (ev : V → list Z) (x : S * T * U * V) : list Z :=
  let '(a, b, c, d) := x in
  let total_len := zlen (es a) + zlen (et b) + zlen (eu c) + zlen (ev d) in
  encode_length total_len ++ es a ++ et b ++ eu c ++ ev d.
Definition quint_encode {S T U V W} (es : S → list Z) (et : T → list Z) (eu : U → list Z)
    (ev : V → list Z) (ew : W → list Z) (x : S * T * U * V * W) : list Z :=
  let '(a, b, c, d, e) := x in
  let total_len := zlen (es a) + zlen (et b) + zlen (eu c) + zlen (ev d) + zlen (ew e) in
  encode_length total_len ++ es a ++ et b ++ eu c ++ ev d ++ ew e.

(** An address is the sequence of its octets. *)
Inductive IpAddr := V4 (octets : list Z) | V6 (octets : list Z).
Definition Ipv4Addr_encode (octets : list Z) : list Z := array_encode octets.
Definition Ipv6Addr_encode (octets : list Z) : list Z := array_encode octets.
Definition IpAddr_encode (self : IpAddr) : list Z :=
  match self with
  | V4 ip => Ipv4Addr_encode ip
  | V6 ip => Ipv6Addr_encode ip
  end.

(** ** decode.rs *)
Section Decode.
Context `{Profile}.

Definition decode {A} (decode_unfinished : list Z → dres (A * list Z)) (rlp : list Z) : dres A :=
  '(decoded, remaining) ← decode_unfinished rlp;
  match remaining with
  | [] => Ok decoded
  | _ => Err InvalidLength
  end.

Definition bool_decode (buf : list Z) : dres (bool * list Z) :=
  match buf with
  | [] => Err InvalidLength
  | b :: rest =>
    if b =? RLP_NULL then Ok (false, rest)
    else if b =? 0x01 then Ok (true, rest)
    else Err MalformedBoolean
  end.

Definition u8_decode (rlp : list Z) : dres (Z * list Z) :=
  match rlp with
  | [] => Err InvalidLength
  | x :: rest =>
    if x <=? 0x7f then Ok (x, rest)
    else if x =? RLP_NULL then Ok (0, rest)
    else if (2 <=? zlen rlp) && (x =? RLP_NULL + 1) then
      v ← index rlp 1; rest' ← slice_from rlp 2; Ok (v, rest')
    else Err MalformedData
  end.

(** [static_left_pad::<N>]: [get_mut(data_start_index..)] always succeeds, and
    [copy_from_slice] panics when the lengths differ. *)
Definition static_left_pad (N : Z) (data : list Z) : dres (list Z) :=
  match data with
  | [] => Ok (replicate (Z.to_nat N) 0)
  | d :: _ =>
    if d =? 0 then Err MalformedData
    else
      let data_start_index := Z.max 0 (N - zlen data) in
      if N - data_start_index =? zlen data
      then Ok (replicate (Z.to_nat data_start_index) 0 ++ data)
      else Panic
  end.

Definition decode_rlp_item (data : list Z) : dres (bool * list Z * list Z) :=
  match data with
  | [] => Err InvalidLength
  | first_byte :: _ =>
    if first_byte <=? 0x7F then
      p ← slice_to data 1; r ← slice_from data 1; Ok (false, p, r)
    else if first_byte <=? 0xB7 then
      let length := first_byte - 0x80 in
      e ← uadd length 1;
      if zlen data <? e then Err InvalidLength
      else p ← slice data 1 e; r ← slice_from data e; Ok (false, p, r)
    else if first_byte <=? 0xBF then
      let length_of_length := first_byte - 0xB7 in
      s ← uadd length_of_length 1;
      if zlen data <? s then Err InvalidLength
      else
        length_bytes ← slice data 1 s;
        padded ← static_left_pad 8 length_bytes;
        let length := of_be padded in
        e0 ← uadd length_of_length length; e ← uadd e0 1;
        if zlen data <? e then Err InvalidLength
        else p ← slice data s e; r ← slice_from data e; Ok (false, p, r)
    else if first_byte <=? 0xF7 then
      let length := first_byte - RLP_EMPTY_LIST in
      e ← uadd length 1;
      if zlen data <? e then Err InvalidLength
      else p ← slice data 1 e; r ← slice_from data e; Ok (true, p, r)
    else
      let list_length := first_byte - 0xF7 in
      s ← uadd list_length 1;
      if zlen data <? s then Err InvalidLength
      else
        length_bytes ← slice data 1 s;
        padded ← static_left_pad 8 length_bytes;
        let payload_length := of_be padded in
        e0 ← uadd list_length payload_length; e ← uadd e0 1;
        if zlen data <? e then Err InvalidLength
        else p ← slice data s e; r ← slice_from data e; Ok (true, p, r)
  end.

Definition get_item_with_prefix (data : list Z) : dres (list Z * list Z) :=
  match data with
  | [] => Err InvalidLength
  | first_byte :: _ =>
    if first_byte <=? 0x7F then
      p ← slice_to data 1; r ← slice_from data 1; Ok (p, r)
    else if first_byte <=? 0xB7 then
      let length := first_byte - 0x80 in
      e ← uadd length 1;
      if zlen data <? e then Err InvalidLength
      else p ← slice_to data e; r ← slice_from data e; Ok (p, r)
    else if first_byte <=? 0xBF then
      let length_of_length := first_byte - 0xB7 in
      s ← uadd length_of_length 1;
      if zlen data <? s then Err InvalidLength
      else
        length_bytes ← slice data 1 s;
        padded ← static_left_pad 8 length_bytes;
        let length := of_be padded in
        e0 ← uadd length_of_length length; e ← uadd e0 1;
        if zlen data <? e then Err InvalidLength
        else p ← slice_to data e; r ← slice_from data e; Ok (p, r)
    else if first_byte <=? 0xF7 then
      let length := first_byte - RLP_EMPTY_LIST in
      e ← uadd length 1;
      if zlen data <? e then Err InvalidLength
      else p ← slice_to data e; r ← slice_from data e; Ok (p, r)
    else
      let list_length := first_byte - 0xF7 in
      s ← uadd list_length 1;
      if zlen data <? s then Err InvalidLength
      else
        length_bytes ← slice data 1 s;
        padded ← static_left_pad 8 length_bytes;
        let payload_length := of_be padded in
        e0 ← uadd list_length payload_length; e ← uadd e0 1;
        if zlen data <? e then Err InvalidLength
        else p ← slice_to data e; r ← slice_from data e; Ok (p, r)
  end.

Definition is_encoded_as_bytes (rlp : list Z) : dres bool :=
  prefix ← unwrap (head rlp);
  Ok ((0xb8 <=? prefix) && (prefix <=? 0xbf)).

(** [prefix - 0xb8 + 1] is computed on [u8]. *)
Definition get_rlp_bytes_item_payload (rlp : list Z) : dres (list Z) :=
  prefix ← unwrap (head rlp);
  d ← checked 8 (prefix - 0xb8);
  offset ← checked 8 (d + 1);
  s ← uadd offset 1;
  slice_from rlp s.

Definition decode_bytes (data : list Z) : dres (list Z * list Z) :=
  '(is_list, payload, rest) ← decode_rlp_item data;
  if is_list : bool then Err UnexpectedList else Ok (payload, rest).

(** The body shared by the impls for [u16], [u32], [u64], [usize] and [u128]. *)
Definition uint_decode (N : Z) (rlp : list Z) : dres (Z * list Z) :=
  '(bytes, rest) ← decode_bytes rlp;
  padded_bytes ← static_left_pad N bytes;
  Ok (of_be padded_bytes, rest).
Definition u16_decode : list Z → dres (Z * list Z) := uint_decode 2.
Definition u32_decode : list Z → dres (Z * list Z) := uint_decode 4.
Definition u64_decode : list Z → dres (Z * list Z) := uint_decode 8.
Definition usize_decode : list Z → dres (Z * list Z) := uint_decode 8.
Definition u128_decode : list Z → dres (Z * list Z) := uint_decode 16.

Definition array_decode (N : Z) (rlp : list Z) : dres (list Z * list Z) :=
  '(decoded_bytes, rest) ← decode_bytes rlp;
  if zlen decoded_bytes =? N then Ok (decoded_bytes, rest) else Err InvalidLength.

Definition Bytes_decode (rlp : list Z) : dres (list Z * list Z) :=
  '(decoded, rest) ← decode_bytes rlp; Ok (decoded, rest).
Definition BytesMut_decode (rlp : list Z) : dres (list Z * list Z) :=
  '(decoded, rest) ← decode_bytes rlp; Ok (decoded, rest).

Definition H32_decode : list Z → dres (list Z * list Z) := array_decode 4.
Definition H64_decode : list Z → dres (list Z * list Z) := array_decode 8.
Definition H128_decode : list Z → dres (list Z * list Z) := array_decode 16.
Definition H256_decode : list Z → dres (list Z * list Z) := array_decode 32.
Definition H264_decode : list Z → dres (list Z * list Z) := array_decode 33.
Definition Address_decode : list Z → dres (list Z * list Z) := array_decode 20.
Definition H512_decode : list Z → dres (list Z * list Z) := array_decode 64.
Definition Signature_decode : list Z → dres (list Z * list Z) := array_decode 65.
Definition Bloom_decode : list Z → dres (list Z * list Z) := array_decode 256.

Definition U256_decode (rlp : list Z) : dres (Z * list Z) :=
  '(bytes, rest) ← decode_bytes rlp;
  padded_bytes ← static_left_pad 32 bytes;
  Ok (of_be padded_bytes, rest).

(** Well-formed UTF-8, the test of [String::from_utf8] (Unicode table 3-7). *)
Definition cont_byte (b : Z) : bool := (0x80 <=? b) && (b <=? 0xBF).
Fixpoint utf8_valid (l : list Z) : bool :=
  match l with
  | [] => true
  | a :: l1 =>
    if a <=? 0x7F then utf8_valid l1
    else match l1 with
    | [] => false
    | b :: l2 =>
      if (0xC2 <=? a) && (a <=? 0xDF) then cont_byte b && utf8_valid l2
      else match l2 with
      | [] => false
      | c :: l3 =>
        if (0xE0 <=? a) && (a <=? 0xEF) then
          (if a =? 0xE0 then (0xA0 <=? b) && (b <=? 0xBF)
           else if a =? 0xED then (0x80 <=? b) && (b <=? 0x9F)
           else cont_byte b) && cont_byte c && utf8_valid l3
        else match l3 with
        | [] => false
        | d :: l4 =>
          (if a =? 0xF0 then (0x90 <=? b) && (b <=? 0xBF)
           else if a =? 0xF4 then (0x80 <=? b) && (b <=? 0x8F)
           else (0xF1 <=? a) && (a <=? 0xF3) && cont_byte b)
          && cont_byte c && cont_byte d && utf8_valid l4
        end
      end
    end
  end.

Definition String_decode (rlp : list Z) : dres (list Z * list Z) :=
  '(str_bytes, rest) ← decode_bytes rlp;
  if utf8_valid str_bytes then Ok (str_bytes, rest) else Err MalformedData.

Definition Ipv4Addr_decode (rlp : list Z) : dres (list Z * list Z) :=
  '(ip_bytes, rest) ← decode_bytes rlp;
  if zlen ip_bytes =? 4 then Ok (ip_bytes, rest) else Err InvalidLength.
Definition Ipv6Addr_decode (rlp : list Z) : dres (list Z * list Z) :=
  '(ip_bytes, rest) ← decode_bytes rlp;
  if zlen ip_bytes =? 16 then Ok (ip_bytes, rest) else Err InvalidLength.
Definition IpAddr_decode (rlp : list Z) : dres (IpAddr * list Z) :=
  '(ip_bytes, rest) ← decode_bytes rlp;
  if zlen ip_bytes =? 4 then Ok (V4 ip_bytes, rest)
  else if zlen ip_bytes =? 16 then Ok (V6 ip_bytes, rest)
  else Err InvalidLength.

(** The [while !current_slice.is_empty()] loop of the [Vec<T>] decoder; every
    round consumes input, so [S (length current_slice)] rounds are enough
    ([vec_decode_fuel]). *)
Fixpoint vec_decode_loop {A} (dec : list Z → dres (A * list Z)) (fuel : nat)
    (result : list A) (current_slice : list Z) : dres (list A) :=
  match fuel with
  | O => OutOfFuel
  | S fuel =>
    match current_slice with
    | [] => Ok result
    | _ =>
      '(item, rest_current_list) ← dec current_slice;
      vec_decode_loop dec fuel (result ++ [item]) rest_current_list
    end
  end.

Definition vec_decode {A} (dec : list Z → dres (A * list Z)) (rlp : list Z)
    : dres (list A * list Z) :=
  match rlp with
  | [] => Err InvalidLength
  | b :: rest =>
    if b =? RLP_EMPTY_LIST then Ok ([], rest)
    else
      '(is_list, payload, input_rest) ← decode_rlp_item rlp;
      if negb is_list then Err MalformedData
      else
        result ← vec_decode_loop dec (S (length payload)) [] payload;
        Ok (result, input_rest)
  end.

Definition pair_decode {T1 T2} (d1 : list Z → dres (T1 * list Z)) (d2 : list Z → dres (T2 * list Z))
    (rlp : list Z) : dres (T1 * T2 * list Z) :=
  match rlp with
  | [] => Err InvalidLength
  | _ =>
    '(is_list, payload, input_rest) ← decode_rlp_item rlp;
    if negb is_list then Err MalformedData
    else
      '(first, first_rest) ← d1 payload;
      '(second, second_rest) ← d2 first_rest;
      match second_rest with
      | [] => Ok (first, second, input_rest)
      | _ => Err MalformedData
      end
  end.

Definition triple_decode {T1 T2 T3} (d1 : list Z → dres (T1 * list Z))
    (d2 : list Z → dres (T2 * list Z)) (d3 : list Z → dres (T3 * list Z))
    (rlp : list Z) : dres (T1 * T2 * T3 * list Z) :=
  match rlp with
  | [] => Err InvalidLength
  | _ =>
    '(is_list, payload, input_rest) ← decode_rlp_item rlp;
    if negb is_list then Err MalformedData
    else
      '(first, first_rest) ← d1 payload;
      '(second, second_rest) ← d2 first_rest;
      '(third, third_rest) ← d3 second_rest;
      match third_rest with
      | [] => Ok (first, second, third, input_rest)
      | _ => Err MalformedData
      end
  end.
End Decode.

(** ** structs.rs: decoding a struct field by field *)
Record Decoder := mkDecoder { payload : list Z; remaining : list Z }.

Module Decoder.
Section Ops.
Context `{Profile}.

Definition new (buf : list Z) : dres Decoder :=
  '(is_list, payload, remaining) ← decode_rlp_item buf;
  if is_list : bool then Ok (mkDecoder payload remaining) else Err UnexpectedString.

Definition decode_field {T} (dec : list Z → dres (T * list Z)) (name : string) (self : Decoder)
    : dres (T * Decoder) :=
  '(field, rest) ← map_err (CustomField name) (dec (payload self));
  Ok (field, mkDecoder rest (remaining self)).

Definition get_encoded_item (self : Decoder) : dres (list Z * Decoder) :=
  '(field, rest) ← get_item_with_prefix (payload self);
  Ok (field, mkDecoder rest (remaining self)).

(** [Err(_)] is turned into [None] and the position is left unchanged. *)
Definition decode_optional_field {T} (dec : list Z → dres (T * list Z)) (self : Decoder)
    : dres (option T * Decoder) :=
  match dec (payload self) with
  | Ok (field, rest) => Ok (Some field, mkDecoder rest (remaining self))
  | Err _ => Ok (None, self)
  | Panic => Panic
  | OutOfFuel => OutOfFuel
  end.

Definition finish (self : Decoder) : dres (list Z) :=
  match payload self with
  | [] => Ok (remaining self)
  | _ => Err MalformedData
  end.

Definition finish_unchecked (self : Decoder) : list Z := remaining self.
End Ops.
End Decoder.

(** ** structs.rs: encoding a struct field by field *)
Record Encoder := mkEncoder { buf : list Z; temp_buf : list Z }.

Module Encoder.
Definition new (buf : list Z) : Encoder := mkEncoder buf [].
Definition encode_field {T} (encode : T → list Z) (value : T) (self : Encoder) : Encoder :=
  mkEncoder (buf self) (temp_buf self ++ encode value).
Definition encode_optional_field {T} (encode : T → list Z) (opt_value : option T)
    (self : Encoder) : Encoder :=
  match opt_value with
  | Some value => mkEncoder (buf self) (temp_buf self ++ encode value)
  | None => self
  end.
Definition encode_key_value_list (l : list (list Z * list Z)) (self : Encoder) : Encoder :=
  fold_left (λ self '(key, value),
    mkEncoder (buf self) (temp_buf self ++ Bytes_encode key ++ value)) l self.
(** The buffer after [finish]. *)
Definition finish (self : Encoder) : list Z :=
  buf self ++ encode_length (zlen (temp_buf self)) ++ temp_buf self.
End Encoder.

(** A type with both an [RLPEncode] and an [RLPDecode] impl. *)
Record Rlp (A : Type) := mkRlp {
  rlp_encode : A → list Z;
  rlp_decode : list Z → dres (A * list Z)
}.
Arguments mkRlp {A}.
Arguments rlp_encode {A}.
Arguments rlp_decode {A}.
