(* ===== verification/RlpLaws.v ===== *)
(** * Laws of the RLP codec

    The prefix-decoding lemmas, the interface [RlpLaws] that a type with both
    traits fulfils (decoding inverts encoding, decoding consumes input), an
    instance per type of [crates/rlp], and the properties of the decoders. *)

From S2P Require Import Prelude Rlp.

(** ** Trimmed big-endian lengths *)
Lemma position_nonzero_spec l i :
  position_nonzero l = Some i →
  ∃ d t, drop i l = d :: t ∧ d ≠ 0 ∧ l = replicate i 0 ++ d :: t.
Proof.
  revert i. induction l as [|x l IH]; intros i Hp; [done|]. simpl in Hp.
  destruct (x =? 0) eqn:Hx; simpl in Hp.
  - apply fmap_Some in Hp as (j & Hj & ->). apply Z.eqb_eq in Hx as ->.
    destruct (IH _ Hj) as (d & t & Hd & Hne & Hl). exists d, t.
    simpl. split_and!; [done..|]. by rewrite <-Hl.
  - simplify_eq. apply Z.eqb_neq in Hx. exists x, l. done.
Qed.
Lemma position_nonzero_None l : position_nonzero l = None → of_be l = 0.
Proof.
  induction l as [|x l IH]; intros Hp; [done|]. simpl in Hp.
  destruct (x =? 0) eqn:Hx; simpl in Hp; [|done].
  apply fmap_None in Hp. rewrite of_be_cons, IH by done. lia.
Qed.

(** The [unwrap] of the position of the first nonzero byte never panics. *)
Lemma be_trim_position n x :
  0 < x < 256 ^ Z.of_nat n → is_Some (position_nonzero (to_be n x)).
Proof.
  intros Hx. destruct (position_nonzero (to_be n x)) eqn:Hp; [done|].
  apply position_nonzero_None in Hp. rewrite of_be_to_be_small in Hp; lia.
Qed.

Lemma be_trim_spec n x :
  0 < x < 256 ^ Z.of_nat n →
  ∃ d t, be_trim (to_be n x) = d :: t ∧ d ≠ 0 ∧ bytes_ok (d :: t) ∧
         of_be (d :: t) = x ∧ 0 < zlen (d :: t) <= Z.of_nat n.
Proof.
  intros Hx. destruct (be_trim_position n x Hx) as [i Hi].
  destruct (position_nonzero_spec _ _ Hi) as (d & t & Hd & Hne & Hl).
  exists d, t. unfold be_trim. rewrite Hi.
  pose proof (to_be_bytes n x) as Hb. pose proof (to_be_zlen n x) as Hlen.
  pose proof (of_be_to_be_small n x ltac:(lia)) as Hv.
  rewrite Hl in Hb, Hlen, Hv. apply Forall_app in Hb as [_ Hb].
  rewrite of_be_zeros in Hv. zlen_simpl.
  pose proof (zlen_nonneg t). split_and!; auto; lia.
Qed.

Lemma static_left_pad_ok N d t :
  d ≠ 0 → zlen (d :: t) <= N →
  static_left_pad N (d :: t) = Ok (replicate (Z.to_nat (N - zlen (d :: t))) 0 ++ d :: t).
Proof.
  intros Hd Hlen. unfold static_left_pad. rewrite (proj2 (Z.eqb_neq d 0)) by done.
  cbv zeta. rewrite Z.max_r by lia.
  rewrite (proj2 (Z.eqb_eq _ _)) by lia. done.
Qed.

(** ** Item prefixes *)
Section Laws.
Context `{Profile}.

(** The prefix written by [bytes_encode] and by [encode_length]. *)
Definition item_prefix (short long len : Z) : list Z :=
  if len <? 56 then [short + len]
  else let tail := be_trim (to_be 8 len) in (long + zlen tail) :: tail.

Lemma zlen_item_prefix short long len :
  0 <= len <= isize_max → 0 < zlen (item_prefix short long len) <= 9.
Proof.
  unfold item_prefix, isize_max. intros Hlen. case_match; bool_prop.
  - zlen_simpl. lia.
  - destruct (be_trim_spec 8 len) as (d & t & -> & _ & _ & _ & ?); [lia|].
    zlen_simpl. lia.
Qed.

Lemma decode_long_prefix (n : Z) (d : Z) (t p rest : list Z) :
  d ≠ 0 → n = zlen (d :: t) → n <= 8 → of_be (d :: t) = zlen p →
  static_left_pad 8 (d :: t) = Ok (replicate (Z.to_nat (8 - n)) 0 ++ d :: t) ∧
  of_be (replicate (Z.to_nat (8 - n)) 0 ++ d :: t) = zlen p ∧
  (∀ b, slice (E:=RLPDecodeError) (b :: (d :: t) ++ p ++ rest) 1 (n + 1) = Ok (d :: t)) ∧
  (∀ b, slice (E:=RLPDecodeError) (b :: (d :: t) ++ p ++ rest) (n + 1) (n + zlen p + 1) = Ok p) ∧
  (∀ b, slice_from (E:=RLPDecodeError) (b :: (d :: t) ++ p ++ rest) (n + zlen p + 1) = Ok rest) ∧
  (∀ b, n + zlen p + 1 <= zlen (b :: (d :: t) ++ p ++ rest)).
Proof.
  intros Hd Hn Hn8 Hv.
  pose proof (zlen_nonneg t). pose proof (zlen_nonneg p). pose proof (zlen_nonneg rest).
  assert (∀ b, b :: (d :: t) ++ p ++ rest = (b :: d :: t) ++ p ++ rest) as Happ by done.
  assert (∀ b, b :: (d :: t) ++ p ++ rest = ((b :: d :: t) ++ p) ++ rest) as Happ2
    by (intros; by rewrite <-app_assoc).
  split; [rewrite Hn; apply static_left_pad_ok; [done|lia]|].
  split; [by rewrite of_be_zeros|].
  rewrite zlen_cons in Hn.
  split_and!; intros b.
  - rewrite slice_ok by (zlen_simpl; lia). f_equal.
    change (b :: (d :: t) ++ p ++ rest) with ([b] ++ (d :: t) ++ p ++ rest).
    rewrite zdrop_app_exact by done. apply ztake_app_exact. zlen_simpl. lia.
  - rewrite slice_ok by (zlen_simpl; lia). f_equal.
    rewrite Happ, zdrop_app_exact by (zlen_simpl; lia). apply ztake_app_exact. lia.
  - rewrite slice_from_ok by (zlen_simpl; lia). f_equal.
    rewrite Happ2. apply zdrop_app_exact. zlen_simpl. lia.
  - zlen_simpl. lia.
Qed.

Lemma slice_short b (p rest : list Z) :
  slice (E:=RLPDecodeError) (b :: p ++ rest) 1 (zlen p + 1) = Ok p ∧
  slice_from (E:=RLPDecodeError) (b :: p ++ rest) (zlen p + 1) = Ok rest.
Proof.
  pose proof (zlen_nonneg p). pose proof (zlen_nonneg rest). split.
  - rewrite slice_ok by (zlen_simpl; lia). f_equal.
    change (b :: p ++ rest) with ([b] ++ p ++ rest).
    rewrite zdrop_app_exact by done. apply ztake_app_exact. lia.
  - rewrite slice_from_ok by (zlen_simpl; lia). f_equal.
    change (b :: p ++ rest) with ((b :: p) ++ rest). apply zdrop_app_exact. zlen_simpl. lia.
Qed.

(** Reads back an item whose prefix was produced by the encoder. *)
Lemma decode_prefixed_item (is_list : bool) p rest :
  zlen p <= isize_max →
  decode_rlp_item
    ((if is_list then item_prefix 0xc0 0xf7 (zlen p) else item_prefix 0x80 0xb7 (zlen p))
      ++ p ++ rest) = Ok (is_list, p, rest).
Proof.
  intros Hmax. unfold isize_max in Hmax. pose proof (zlen_nonneg p) as Hp0.
  pose proof (zlen_nonneg rest) as Hr0.
  destruct (decide (zlen p < 56)) as [Hs|Hs].
  - destruct (slice_short ((if is_list then 0xc0 else 0x80) + zlen p) p rest) as [Hs1 Hs2].
    destruct is_list; unfold item_prefix; decide_bools;
      cbn [app]; unfold decode_rlp_item, RLP_EMPTY_LIST; decide_bools; cbv zeta.
    + replace (0xc0 + zlen p - 0xc0) with (zlen p) by lia.
      rewrite uadd_ok, bind_Ok_l by lia. zlen_simpl. decide_bools.
      by rewrite Hs1, bind_Ok_l, Hs2.
    + replace (0x80 + zlen p - 0x80) with (zlen p) by lia.
      rewrite uadd_ok, bind_Ok_l by lia. zlen_simpl. decide_bools.
      by rewrite Hs1, bind_Ok_l, Hs2.
  - destruct (be_trim_spec 8 (zlen p)) as (d & t & Ht & Hd & _ & Hv & Hlen); [lia|].
    destruct (decode_long_prefix (zlen (d :: t)) d t p rest Hd eq_refl ltac:(lia) Hv)
      as (Hpad & Hval & Hs1 & Hs2 & Hs3 & Hs4).
    destruct is_list; unfold item_prefix; decide_bools; cbv zeta; rewrite Ht; cbn [app];
      change (d :: t ++ p ++ rest) with ((d :: t) ++ p ++ rest);
      unfold decode_rlp_item, RLP_EMPTY_LIST; decide_bools; cbv zeta.
    + replace (0xf7 + zlen (d :: t) - 0xf7) with (zlen (d :: t)) by lia.
      specialize (Hs4 (0xf7 + zlen (d :: t))).
      rewrite uadd_ok, bind_Ok_l by lia. decide_bools.
      rewrite Hs1, bind_Ok_l, Hpad, bind_Ok_l, Hval.
      rewrite uadd_ok, bind_Ok_l by lia. rewrite uadd_ok, bind_Ok_l by lia.
      decide_bools. by rewrite Hs2, bind_Ok_l, Hs3.
    + replace (0xb7 + zlen (d :: t) - 0xb7) with (zlen (d :: t)) by lia.
      specialize (Hs4 (0xb7 + zlen (d :: t))).
      rewrite uadd_ok, bind_Ok_l by lia. decide_bools.
      rewrite Hs1, bind_Ok_l, Hpad, bind_Ok_l, Hval.
      rewrite uadd_ok, bind_Ok_l by lia. rewrite uadd_ok, bind_Ok_l by lia.
      decide_bools. by rewrite Hs2, bind_Ok_l, Hs3.
Qed.

Lemma decode_single b rest :
  0 <= b <= 0x7f → decode_rlp_item (b :: rest) = Ok (false, [b], rest).
Proof.
  intros Hb. unfold decode_rlp_item. decide_bools.
  pose proof (zlen_nonneg rest).
  rewrite slice_to_ok, bind_Ok_l, slice_from_ok by (zlen_simpl; lia). done.
Qed.

(** ** What the decoders accept *)

Lemma slice_split {E A} (d p r : list A) s e :
  slice (E:=E) d s e = Ok p → slice_from (E:=E) d e = Ok r →
  d = ztake s d ++ p ++ r ∧ zlen (ztake s d) = s ∧ e = s + zlen p.
Proof.
  intros Hp Hr. apply slice_inv in Hp as (Hs & He & -> & Hlen).
  apply slice_inv in Hr as (_ & _ & -> & _).
  rewrite (ztake_all _ (zdrop e d)) by (rewrite zlen_zdrop; lia).
  split_and!; [|rewrite zlen_ztake; lia|lia].
  rewrite <-(ztake_zdrop s d) at 1. f_equal.
  rewrite <-(ztake_zdrop (e - s) (zdrop s d)) at 1. f_equal.
  rewrite zdrop_zdrop by lia. f_equal. lia.
Qed.

Lemma slice_to_split {E A} (d p r : list A) s e :
  1 <= s → slice (E:=E) d s e = Ok p → slice_from (E:=E) d e = Ok r →
  ∃ h, d = h ++ p ++ r ∧ h ≠ [] ∧ slice_to (E:=E) d e = Ok (h ++ p).
Proof.
  intros Hs Hp Hr. destruct (slice_split _ _ _ _ _ Hp Hr) as (Heq & Hlen & He).
  pose proof (zlen_nonneg p). apply slice_inv in Hp as (? & ? & _).
  exists (ztake s d). split_and!; [done|intros Hn; rewrite Hn in Hlen; zlen_simpl; lia|].
  rewrite slice_to_ok by lia. f_equal.
  assert (d = (ztake s d ++ p) ++ r) as Heq' by by rewrite <-app_assoc.
  rewrite Heq' at 1. apply ztake_app_exact. zlen_simpl. lia.
Qed.

(** The decoder of an item and [get_item_with_prefix] cut their input at the
    same place, whatever the build profile. *)
Lemma decode_rlp_item_split d l p r :
  decode_rlp_item d = Ok (l, p, r) →
  ∃ h, d = h ++ p ++ r ∧ h ++ p ≠ [] ∧ get_item_with_prefix d = Ok (h ++ p, r).
Proof.
  unfold decode_rlp_item, get_item_with_prefix. intros Hd.
  destruct d as [|b d]; [done|]. set (data := b :: d) in *.
  destruct (b <=? 0x7F) eqn:Hb.
  { res_inv. match goal with Hp : slice_to _ _ = Ok ?p, Hr : slice_from _ _ = Ok ?r |- _ =>
      destruct (slice_split _ _ _ _ _ Hp Hr) as (Heq & Hlen & He); rewrite Hp, bind_Ok_l, Hr end.
    exists []. cbn in Heq. split_and!; [done| |done]. simpl. intros ->. zlen_simpl. lia. }
  cbv zeta in *.
  destruct (b <=? 0xB7); [|destruct (b <=? 0xBF); [|destruct (b <=? 0xF7)]]; res_inv;
    repeat match goal with Hx : ?m = Ok _ |- context [?m ≫= _] => rewrite Hx, bind_Ok_l end;
    repeat match goal with Hx : (zlen data <? ?e) = false |- _ => rewrite !Hx end;
    repeat match goal with Hx : ?m = Ok _ |- context [?m ≫= _] => rewrite Hx, bind_Ok_l end;
    repeat match goal with Hx : (zlen data <? ?e) = false |- _ => rewrite !Hx end;
    match goal with Hp : slice data ?s ?e = Ok ?p, Hr : slice_from data ?e = Ok ?r |- _ =>
      destruct (slice_to_split (E:=RLPDecodeError) data p r s e) as (h & Heq & Hh & Hto);
      [try lia; match goal with Hx : slice data 1 _ = Ok _ |- _ => apply slice_inv in Hx; lia end
      |done..|exists h; rewrite Hto, bind_Ok_l, Hr]
    end; (split_and!; [done|by intros [-> _]%app_eq_nil|done]).
Qed.

(** ** The interface of a type with an RLP encoding *)
Class RlpLaws {A} (c : Rlp A) (wf : A → Prop) : Prop := {
  rlp_roundtrip x rest :
    wf x → zlen (rlp_encode c x) <= isize_max →
    rlp_decode c (rlp_encode c x ++ rest) = Ok (x, rest);
  rlp_consumes d x r :
    rlp_decode c d = Ok (x, r) → ∃ p, d = p ++ r ∧ p ≠ []
}.

Lemma rlp_encode_pos {A} (c : Rlp A) wf `{!RlpLaws c wf} x :
  wf x → 0 < zlen (rlp_encode c x).
Proof.
  intros Hwf. destruct (rlp_encode c x) eqn:He; [|zlen_simpl; pose proof (zlen_nonneg l); lia].
  pose proof (rlp_roundtrip x [] Hwf) as Hr. rewrite He in Hr.
  destruct (rlp_consumes _ _ _ (Hr ltac:(done))) as (p & Hp & Hne).
  by destruct p.
Qed.

Lemma decode_bytes_consumes d p r : decode_bytes d = Ok (p, r) → ∃ q, d = q ++ r ∧ q ≠ [].
Proof.
  unfold decode_bytes. intros Hd. res_inv.
  match goal with Hi : decode_rlp_item d = _ |- _ =>
    destruct (decode_rlp_item_split _ _ _ _ Hi) as (h & -> & Hne & _) end.
  eexists. rewrite app_assoc. done.
Qed.

Lemma decode_bytes_encode p rest :
  bytes_ok p → zlen p <= isize_max → decode_bytes (bytes_encode p ++ rest) = Ok (p, rest).
Proof.
  intros Hb Hmax. unfold decode_bytes, bytes_encode. cbv zeta.
  destruct ((zlen p =? 1) && _) eqn:Hone.
  - apply andb_true_iff in Hone as [H1%Z.eqb_eq H2%Z.ltb_lt].
    destruct p as [|b [|c p]]; try (zlen_simpl; pose proof (zlen_nonneg p); lia); [done|].
    apply Forall_inv in Hb. unfold is_byte, RLP_NULL in *.
    change (default 0 ([b] !! 0%nat)) with b in *. cbn [app].
    rewrite decode_single by lia. done.
  - rewrite <-app_assoc.
    pose proof (decode_prefixed_item false p rest Hmax) as Hd. unfold item_prefix in Hd.
    unfold RLP_NULL. by rewrite Hd.
Qed.

Lemma static_left_pad_zeros N : static_left_pad N [] = Ok (replicate (Z.to_nat N) 0).
Proof. done. Qed.
Lemma of_be_replicate n : of_be (replicate n 0) = 0.
Proof. rewrite <-(app_nil_r (replicate n 0)), of_be_zeros. done. Qed.

(** An unsigned integer without leading zero bytes is read back from its payload. *)
Definition minimal_be (x : Z) (t : list Z) : Prop :=
  bytes_ok t ∧ of_be t = x ∧ ∀ d t', t = d :: t' → d ≠ 0.
Lemma static_left_pad_minimal N x t :
  minimal_be x t → zlen t <= N → ∃ l, static_left_pad N t = Ok l ∧ of_be l = x.
Proof.
  intros (Hb & <- & Hd) Hlen. destruct t as [|d t].
  - eexists. split; [done|]. apply of_be_replicate.
  - eexists. split; [apply static_left_pad_ok; eauto|]. apply of_be_zeros.
Qed.

Lemma uint_decode_minimal N x t rest :
  minimal_be x t → zlen t <= N → N < 56 →
  uint_decode N (bytes_encode t ++ rest) = Ok (x, rest).
Proof.
  intros Hm Hlen HN. unfold uint_decode.
  rewrite decode_bytes_encode; [|apply Hm|unfold isize_max; lia]. rewrite bind_Ok_l.
  destruct (static_left_pad_minimal N x t Hm Hlen) as (l & -> & <-). done.
Qed.

Lemma uint_encode_bytes w n :
  (w <= 8)%nat → 0 <= n < 256 ^ Z.of_nat w →
  ∃ t, uint_encode w n = bytes_encode t ∧ minimal_be n t ∧ zlen t <= Z.of_nat w.
Proof.
  intros Hw Hn. unfold uint_encode, minimal_be.
  destruct (n =? 0) eqn:H0; [|destruct (n <=? 0x7f) eqn:H7]; bool_prop.
  - exists []. subst. split_and!; try done. rewrite zlen_nil. lia.
  - exists [n]. unfold bytes_encode, RLP_NULL. cbv zeta.
    change (default 0 ([n] !! 0%nat)) with n. rewrite zlen_cons, zlen_nil. decide_bools.
    assert (0 < Z.of_nat w) by (destruct w; [simpl in Hn; lia|lia]).
    split_and!; [done| |done|by intros ? ? [= <- <-]|lia]. repeat constructor; lia.
  - destruct (be_trim_spec w n) as (d & t & -> & Hd & Hb & Hv & Hlen); [lia|].
    exists (d :: t). split_and!; [|done..|by intros ? ? [= <- <-]|lia].
    unfold bytes_encode. cbv zeta. unfold RLP_NULL.
    destruct (decide (zlen (d :: t) = 1)) as [H1|H1].
    + rewrite zlen_cons in H1. assert (t = []) as -> by (apply zlen_0_nil; lia).
      rewrite of_be_cons, of_be_nil, zlen_nil in Hv.
      change (default 0 ([d] !! 0%nat)) with d. decide_bools. done.
    + decide_bools. done.
Qed.

Lemma uint_encode_short w n :
  (w <= 8)%nat → 0 <= n < 256 ^ Z.of_nat w → zlen (uint_encode w n) <= isize_max.
Proof.
  intros Hw Hn. unfold uint_encode, isize_max.
  destruct (n =? 0) eqn:H0; [|destruct (n <=? 0x7f) eqn:H7]; bool_prop; try (zlen_simpl; lia).
  destruct (be_trim_spec w n) as (d & t & -> & _ & _ & _ & Hlen); [lia|]. zlen_simpl. lia.
Qed.

Lemma uint_roundtrip w n rest :
  (w <= 8)%nat → 0 <= n < 256 ^ Z.of_nat w →
  uint_decode (Z.of_nat w) (uint_encode w n ++ rest) = Ok (n, rest).
Proof.
  intros Hw Hn. destruct (uint_encode_bytes w n Hw Hn) as (t & -> & Hm & Hlen).
  apply uint_decode_minimal; auto. lia.
Qed.
Lemma uint_consumes N d x r : uint_decode N d = Ok (x, r) → ∃ p, d = p ++ r ∧ p ≠ [].
Proof. unfold uint_decode. intros Hd. res_inv. by eapply decode_bytes_consumes. Qed.

Lemma U256_encode_minimal x :
  0 <= x < 2 ^ 256 →
  ∃ t, U256_encode x = bytes_encode t ∧ minimal_be x t ∧ zlen t <= 32.
Proof.
  intros Hx. unfold U256_encode, minimal_be, leading_zeros256, bits. cbv zeta.
  eexists. split; [done|].
  destruct (x =? 0) eqn:H0; bool_prop.
  { subst. by vm_compute (zdrop _ _). }
  assert (0 <= Z.log2 x < 256) as Hl.
  { split; [apply Z.log2_nonneg|]. apply Z.log2_lt_pow2; lia. }
  pose proof (Z.log2_spec x ltac:(lia)) as [Hlo Hhi].
  remember ((256 - (Z.log2 x + 1)) / 8) as z eqn:Ez.
  assert (0 <= z <= 31) as Hz by divlia.
  remember (Z.to_nat (32 - z)) as m eqn:Em.
  assert (8 * (Z.of_nat m - 1) <= Z.log2 x < 8 * Z.of_nat m) as Hm by divlia.
  assert (x < 256 ^ Z.of_nat m) as Hxm.
  { rewrite pow256 by lia. eapply Z.lt_le_trans; [apply Hhi|]. apply Z.pow_le_mono_r; lia. }
  assert (256 ^ (Z.of_nat m - 1) <= x) as Hxm1.
  { rewrite pow256 by lia. etrans; [|apply Hlo]. apply Z.pow_le_mono_r; lia. }
  assert (zdrop z (to_be 32 x) = to_be m x) as ->.
  { replace 32%nat with (Z.to_nat z + m)%nat by lia.
    rewrite to_be_app. apply zdrop_app_exact. rewrite to_be_zlen. lia. }
  rewrite to_be_zlen.
  split_and!; [apply to_be_bytes|apply of_be_to_be_small; lia| |lia].
  intros d t' Ht. destruct m as [|m]; [done|]. cbn [to_be] in Ht. injection Ht as <- _.
  replace (Z.of_nat (S m) - 1) with (Z.of_nat m) in Hxm1 by lia.
  rewrite Nat2Z.inj_succ, Z.pow_succ_r in Hxm by lia.
  pose proof (pow256_pos (Z.of_nat m) ltac:(lia)).
  rewrite Z.mod_small.
  - assert (1 <= x / 256 ^ Z.of_nat m); [|lia]. apply Z.div_le_lower_bound; lia.
  - split; [apply Z.div_pos; lia|]. apply Z.div_lt_upper_bound; lia.
Qed.

(** ** Instances *)
Definition bool_rlp : Rlp bool := mkRlp bool_encode bool_decode.
Definition u8_rlp : Rlp Z := mkRlp u8_encode u8_decode.
Definition u16_rlp : Rlp Z := mkRlp u16_encode u16_decode.
Definition u32_rlp : Rlp Z := mkRlp u32_encode u32_decode.
Definition u64_rlp : Rlp Z := mkRlp u64_encode u64_decode.
Definition usize_rlp : Rlp Z := mkRlp usize_encode usize_decode.
Definition U256_rlp : Rlp Z := mkRlp U256_encode U256_decode.
Definition Bytes_rlp : Rlp (list Z) := mkRlp Bytes_encode Bytes_decode.
Definition array_rlp (N : Z) : Rlp (list Z) := mkRlp array_encode (array_decode N).
Definition String_rlp : Rlp (list Z) := mkRlp str_encode String_decode.
Definition IpAddr_rlp : Rlp IpAddr := mkRlp IpAddr_encode IpAddr_decode.
Definition vec_rlp {A} (c : Rlp A) : Rlp (list A) :=
  mkRlp (vec_encode (rlp_encode c)) (vec_decode (rlp_decode c)).
Definition pair_rlp {A B} (c1 : Rlp A) (c2 : Rlp B) : Rlp (A * B) :=
  mkRlp (pair_encode (rlp_encode c1) (rlp_encode c2)) (pair_decode (rlp_decode c1) (rlp_decode c2)).
Definition triple_rlp {A B C} (c1 : Rlp A) (c2 : Rlp B) (c3 : Rlp C) : Rlp (A * B * C) :=
  mkRlp (triple_encode (rlp_encode c1) (rlp_encode c2) (rlp_encode c3))
        (triple_decode (rlp_decode c1) (rlp_decode c2) (rlp_decode c3)).

Definition is_uint (w x : Z) : Prop := 0 <= x < 2 ^ w.
Definition is_array (N : Z) (l : list Z) : Prop := bytes_ok l ∧ zlen l = N.
Definition is_ip (ip : IpAddr) : Prop :=
  match ip with V4 o => is_array 4 o | V6 o => is_array 16 o end.

#[export] Instance bool_laws : RlpLaws bool_rlp (λ _, True).
Proof.
  split.
  - intros [] rest _ _; done.
  - intros d x r Hd. unfold rlp_decode, bool_rlp, bool_decode in Hd. res_inv; by eexists [_].
Qed.
#[export] Instance u8_laws : RlpLaws u8_rlp (is_uint 8).
Proof.
  split; unfold rlp_decode, rlp_encode, u8_rlp.
  - intros n rest Hn _. unfold is_uint in Hn. unfold u8_encode, uint_encode, u8_decode, RLP_NULL.
    destruct (n =? 0) eqn:H0; [|destruct (n <=? 0x7f) eqn:H7]; bool_prop.
    + by subst.
    + cbn [app]. decide_bools. done.
    + assert (to_be 1 n = [n]) as ->.
      { cbn [to_be Z.of_nat]. rewrite Z.pow_0_r, Z.div_1_r, Z.mod_small by lia. done. }
      assert (be_trim [n] = [n]) as ->.
      { unfold be_trim. cbn [position_nonzero]. by rewrite (proj2 (Z.eqb_neq n 0)). }
      change (0x80 + zlen [n]) with 0x81. cbn [app].
      pose proof (zlen_nonneg rest). rewrite slice_from_ok by (zlen_simpl; lia).
      zlen_simpl. by decide_bools.
  - intros d x r Hd. unfold u8_decode in Hd. res_inv; [by eexists [_]..|].
    match goal with Hs : slice_from _ 2 = Ok _ |- _ => apply slice_inv in Hs as (?&?&->&?) end.
    destruct l as [|b l]; [zlen_simpl; lia|]. exists [z; b]. split; [|done].
    cbn. rewrite ztake_all; [done|]. change (zdrop 2 (z :: b :: l)) with l. zlen_simpl. lia.
Qed.

Lemma uint_laws w : (w <= 8)%nat →
  RlpLaws (mkRlp (uint_encode w) (uint_decode (Z.of_nat w))) (is_uint (8 * Z.of_nat w)).
Proof.
  intros Hw. split; simpl.
  - intros n rest Hn _. unfold is_uint in Hn. rewrite <-pow256 in Hn by lia.
    by apply uint_roundtrip.
  - apply uint_consumes.
Qed.
#[export] Instance u16_laws : RlpLaws u16_rlp (is_uint 16) := uint_laws 2 ltac:(lia).
#[export] Instance u32_laws : RlpLaws u32_rlp (is_uint 32) := uint_laws 4 ltac:(lia).
#[export] Instance u64_laws : RlpLaws u64_rlp (is_uint 64) := uint_laws 8 ltac:(lia).
#[export] Instance usize_laws : RlpLaws usize_rlp (is_uint 64) := uint_laws 8 ltac:(lia).
#[export] Instance U256_laws : RlpLaws U256_rlp (is_uint 256).
Proof.
  split; simpl.
  - intros x rest Hx _. destruct (U256_encode_minimal x Hx) as (t & -> & Hm & Hlen).
    apply (uint_decode_minimal 32); auto; lia.
  - apply (uint_consumes 32).
Qed.

Lemma zlen_bytes_encode p : zlen p <= zlen (bytes_encode p).
Proof.
  unfold bytes_encode. cbv zeta. destruct (_ && _) eqn:Hone; bool_prop; zlen_simpl; [lia|].
  pose proof (zlen_nonneg (if zlen p <? 56 then [RLP_NULL + zlen p]
    else (183 + zlen (be_trim (to_be 8 (zlen p)))) :: be_trim (to_be 8 (zlen p)))). lia.
Qed.
#[export] Instance Bytes_laws : RlpLaws Bytes_rlp (Forall is_byte).
Proof.
  split; simpl.
  - intros p rest Hp Hlen. unfold Bytes_decode, Bytes_encode in *.
    rewrite decode_bytes_encode; [done..|]. pose proof (zlen_bytes_encode p). lia.
  - intros d x r Hd. unfold Bytes_decode in Hd. res_inv. by eapply decode_bytes_consumes.
Qed.
#[export] Instance array_laws N : RlpLaws (array_rlp N) (is_array N).
Proof.
  split; simpl.
  - intros p rest [Hp Hz] Hlen. unfold array_decode, array_encode in *.
    rewrite decode_bytes_encode, bind_Ok_l; [|done|pose proof (zlen_bytes_encode p); lia].
    by rewrite (proj2 (Z.eqb_eq _ _)).
  - intros d x r Hd. unfold array_decode in Hd. res_inv. by eapply decode_bytes_consumes.
Qed.
#[export] Instance String_laws :
  RlpLaws String_rlp (λ l, bytes_ok l ∧ utf8_valid l = true).
Proof.
  split; simpl.
  - intros p rest [Hp Hu] Hlen. unfold String_decode, str_encode in *.
    rewrite decode_bytes_encode, bind_Ok_l; [|done|pose proof (zlen_bytes_encode p); lia].
    by rewrite Hu.
  - intros d x r Hd. unfold String_decode in Hd. res_inv. by eapply decode_bytes_consumes.
Qed.
#[export] Instance IpAddr_laws : RlpLaws IpAddr_rlp is_ip.
Proof.
  split; simpl.
  - intros [p|p] rest [Hp Hz] _; unfold IpAddr_decode, IpAddr_encode, Ipv4Addr_encode,
      Ipv6Addr_encode, array_encode;
      (rewrite decode_bytes_encode, bind_Ok_l; [|done|unfold isize_max; lia]); by decide_bools.
  - intros d x r Hd. unfold IpAddr_decode in Hd. res_inv; by eapply decode_bytes_consumes.
Qed.

(** *** Lists and tuples *)
Lemma fold_left_zlen {A} (enc : A → list Z) l acc :
  fold_left (λ acc item, acc + zlen (enc item)) l acc = acc + zlen (concat (map enc l)).
Proof.
  revert acc. induction l as [|x l IH]; intros acc; simpl.
  - rewrite zlen_nil. lia.
  - rewrite IH. zlen_simpl. lia.
Qed.

Lemma encode_length_prefix len : encode_length len = item_prefix 0xc0 0xf7 len.
Proof. done. Qed.
Lemma decode_list_item p rest :
  zlen p <= isize_max → decode_rlp_item (encode_length (zlen p) ++ p ++ rest) = Ok (true, p, rest).
Proof. apply (decode_prefixed_item true). Qed.

Lemma vec_decode_loop_concat {A} (c : Rlp A) wf `{!RlpLaws c wf} l acc fuel :
  Forall wf l → zlen (concat (map (rlp_encode c) l)) <= isize_max → (length l < fuel)%nat →
  vec_decode_loop (rlp_decode c) fuel acc (concat (map (rlp_encode c) l)) = Ok (acc ++ l).
Proof.
  intros Hwf. revert acc fuel. induction Hwf as [|x l Hx Hl IH]; intros acc fuel Hmax Hf;
    (destruct fuel as [|fuel]; [simpl in Hf; lia|]); simpl in *.
  - by rewrite app_nil_r.
  - zlen_simpl. pose proof (rlp_encode_pos c wf x Hx) as Hpos.
    pose proof (zlen_nonneg (concat (map (rlp_encode c) l))).
    rewrite rlp_roundtrip by (auto; lia).
    destruct (rlp_encode c x) as [|b k]; [zlen_simpl; lia|]. cbn [app].
    rewrite bind_Ok_l, IH by lia. by rewrite <-app_assoc.
Qed.

Lemma length_concat_encode {A} (c : Rlp A) wf `{!RlpLaws c wf} l :
  Forall wf l → (length l <= length (concat (map (rlp_encode c) l)))%nat.
Proof.
  induction 1 as [|x l Hx Hl IH]; simpl; [lia|]. rewrite length_app.
  pose proof (rlp_encode_pos c wf x Hx). unfold zlen in *. lia.
Qed.

#[export] Instance vec_laws {A} (c : Rlp A) wf `{!RlpLaws c wf} : RlpLaws (vec_rlp c) (Forall wf).
Proof.
  split; unfold vec_rlp; cbn [rlp_encode rlp_decode].
  - intros l rest Hwf Hmax.
    destruct l as [|x l]; [done|]. unfold vec_encode in *. rewrite fold_left_zlen in *.
    rewrite Z.add_0_l in *.
    set (p := concat (map (rlp_encode c) (x :: l))) in *. rewrite <-app_assoc.
    assert (0 < zlen p) as Hp.
    { unfold p. simpl. zlen_simpl. inversion Hwf; subst.
      pose proof (rlp_encode_pos c wf x ltac:(done)).
      pose proof (zlen_nonneg (concat (map (rlp_encode c) l))). lia. }
    assert (zlen p <= isize_max) as Hpmax.
    { rewrite zlen_app in Hmax. pose proof (zlen_nonneg (encode_length (zlen p))). lia. }
    pose proof (decode_list_item p rest Hpmax) as Hd. unfold vec_decode.
    destruct (encode_length (zlen p) ++ p ++ rest) as [|b k] eqn:He; [done|].
    assert (b ≠ RLP_EMPTY_LIST) as Hb.
    { unfold encode_length in He. cbv zeta in He. unfold RLP_EMPTY_LIST.
      remember (be_trim (to_be 8 (zlen p))) as tl. pose proof (zlen_nonneg tl).
      destruct (zlen p <? 56); cbn [app] in He; injection He as <- _; lia. }
    rewrite (proj2 (Z.eqb_neq _ _)) by done.
    rewrite Hd, bind_Ok_l. cbn [negb]. unfold p at 2.
    rewrite (vec_decode_loop_concat c wf) by
      (auto; unfold p; pose proof (length_concat_encode c wf _ Hwf); lia).
    by rewrite bind_Ok_l.
  - intros d x r Hd. unfold vec_decode in Hd. res_inv; [by eexists [_]|].
    match goal with Hi : decode_rlp_item _ = _ |- _ =>
      destruct (decode_rlp_item_split _ _ _ _ Hi) as (h & Heq & Hne & _) end.
    eexists. rewrite Heq, app_assoc. done.
Qed.

#[export] Instance pair_laws {A B} (c1 : Rlp A) (c2 : Rlp B) wf1 wf2
  `{!RlpLaws c1 wf1, !RlpLaws c2 wf2} : RlpLaws (pair_rlp c1 c2) (λ x, wf1 x.1 ∧ wf2 x.2).
Proof.
  split; unfold pair_rlp; cbn [rlp_encode rlp_decode].
  - intros [a b] rest [Ha Hb] Hmax. unfold pair_encode, pair_decode in *. cbn [fst snd] in *.
    zlen_simpl.
    set (p := rlp_encode c1 a ++ rlp_encode c2 b) in *.
    assert (zlen (rlp_encode c1 a) + zlen (rlp_encode c2 b) = zlen p) as Hz
      by (unfold p; zlen_simpl; lia).
    rewrite Hz in *.
    pose proof (zlen_nonneg (encode_length (zlen p))). pose proof (zlen_nonneg (rlp_encode c1 a)).
    pose proof (zlen_nonneg (rlp_encode c2 b)).
    pose proof (decode_list_item p rest ltac:(lia)) as Hd.
    rewrite <-app_assoc, Hd, bind_Ok_l. cbn [negb].
    destruct (encode_length (zlen p) ++ _); [done|].
    unfold p. rewrite rlp_roundtrip, bind_Ok_l by (auto; lia).
    rewrite <-(app_nil_r (rlp_encode c2 b)), rlp_roundtrip, bind_Ok_l by (auto; lia). done.
  - intros d x r Hd. unfold pair_decode in Hd. res_inv.
    match goal with Hi : decode_rlp_item _ = _ |- _ =>
      destruct (decode_rlp_item_split _ _ _ _ Hi) as (h & Heq & Hne & _) end.
    eexists. rewrite Heq, app_assoc. done.
Qed.

#[export] Instance triple_laws {A B C} (c1 : Rlp A) (c2 : Rlp B) (c3 : Rlp C) wf1 wf2 wf3
  `{!RlpLaws c1 wf1, !RlpLaws c2 wf2, !RlpLaws c3 wf3} :
  RlpLaws (triple_rlp c1 c2 c3) (λ x, wf1 x.1.1 ∧ wf2 x.1.2 ∧ wf3 x.2).
Proof.
  split; unfold triple_rlp; cbn [rlp_encode rlp_decode].
  - intros [[a b] c] rest (Ha & Hb & Hc) Hmax. unfold triple_encode, triple_decode in *.
    cbn [fst snd] in *. zlen_simpl.
    set (p := rlp_encode c1 a ++ rlp_encode c2 b ++ rlp_encode c3 c) in *.
    assert (zlen (rlp_encode c1 a) + zlen (rlp_encode c2 b) + zlen (rlp_encode c3 c) = zlen p) as Hz
      by (unfold p; zlen_simpl; lia).
    rewrite Hz in *.
    pose proof (zlen_nonneg (encode_length (zlen p))). pose proof (zlen_nonneg (rlp_encode c1 a)).
    pose proof (zlen_nonneg (rlp_encode c2 b)). pose proof (zlen_nonneg (rlp_encode c3 c)).
    pose proof (decode_list_item p rest ltac:(lia)) as Hd.
    rewrite <-app_assoc, Hd, bind_Ok_l. cbn [negb].
    destruct (encode_length (zlen p) ++ _); [done|].
    unfold p. rewrite rlp_roundtrip, bind_Ok_l by (auto; lia).
    rewrite rlp_roundtrip, bind_Ok_l by (auto; lia).
    rewrite <-(app_nil_r (rlp_encode c3 c)), rlp_roundtrip, bind_Ok_l by (auto; lia). done.
  - intros d x r Hd. unfold triple_decode in Hd. res_inv.
    match goal with Hi : decode_rlp_item _ = _ |- _ =>
      destruct (decode_rlp_item_split _ _ _ _ Hi) as (h & Heq & Hne & _) end.
    eexists. rewrite Heq, app_assoc. done.
Qed.

(** ** Failure behaviour *)

(** Where a long-form item claims to end: prefix, length field and payload. *)
Definition declared_end (d : list Z) : option Z :=
  match d with
  | [] => None
  | b :: t =>
    let n := if b <=? 0xBF then b - 0xB7 else b - 0xF7 in
    if ((0xB8 <=? b) && (b <=? 0xBF) || (0xF8 <=? b)) && (n <=? zlen t)
       && negb (default 0 (head t) =? 0)
    then Some (n + of_be (ztake n t) + 1)
    else None
  end.

Lemma long_item_panic {T} (f : list Z → list Z → T) b t n :
  bytes_ok t → zlen (b :: t) <= isize_max → 1 <= n <= 8 →
  (s ← uadd n 1;
   if zlen (b :: t) <? s then Err InvalidLength
   else
     length_bytes ← slice (b :: t) 1 s;
     padded ← static_left_pad 8 length_bytes;
     e0 ← uadd n (of_be padded); e ← uadd e0 1;
     if zlen (b :: t) <? e then Err InvalidLength
     else p ← slice (b :: t) s e; r ← slice_from (b :: t) e; Ok (f p r)) = Panic
  ↔ n <= zlen t ∧ default 0 (head t) ≠ 0 ∧ 2 ^ 64 <= n + of_be (ztake n t) + 1.
Proof.
  intros Hb Hmax Hn. unfold isize_max in Hmax. pose proof (zlen_nonneg t).
  rewrite uadd_ok, bind_Ok_l by lia. rewrite zlen_cons in Hmax.
  destruct (decide (n <= zlen t)) as [Hnt|Hnt];
    [|rewrite zlen_cons; decide_bools; split; [done|lia]].
  rewrite slice_ok by (rewrite ?zlen_cons; lia).
  change (zdrop 1 (b :: t)) with t. replace (n + 1 - 1) with n by lia.
  rewrite zlen_cons. decide_bools. rewrite bind_Ok_l.
  pose proof (zlen_ztake n t ltac:(lia)) as Hlen.
  assert (bytes_ok (ztake n t)) as Hbt by by apply Forall_take.
  destruct t as [|d t]; [zlen_simpl; lia|].
  destruct (ztake n (d :: t)) as [|d' t'] eqn:Et; [zlen_simpl; lia|].
  assert (d' = d) as ->.
  { unfold ztake in Et. destruct (Z.to_nat n); simpl in Et; [done|]. by injection Et. }
  change (default 0 (head (d :: t))) with d.
  destruct (decide (d = 0)) as [->|Hd]; [split; [done|by intros (?&?&?)]|].
  rewrite static_left_pad_ok, bind_Ok_l by lia. rewrite of_be_zeros.
  pose proof (of_be_range _ Hbt) as Hr. rewrite Hlen in Hr.
  assert (256 ^ n <= 2 ^ 64) by (rewrite pow256 by lia; apply Z.pow_le_mono_r; lia).
  set (len := of_be (d :: t')) in *. clearbody len.
  destruct (decide (2 ^ 64 <= n + len + 1)) as [Ho|Ho].
  - split; [done|]. intros _. unfold uadd, checked, in_width.
    destruct (overflow_checks) eqn:Hoc.
    + destruct (decide (2 ^ 64 <= n + len)); decide_bools; [done|].
      rewrite bind_Ok_l. by decide_bools.
    + assert (∃ e, (if (0 <=? n + len) && (n + len <? 2 ^ 64) then Ok (n + len)
                    else Ok ((n + len) mod 2 ^ 64) : dres Z) = Ok e ∧
        (if (0 <=? e + 1) && (e + 1 <? 2 ^ 64) then Ok (e + 1) else Ok ((e + 1) mod 2 ^ 64) : dres Z)
        = Ok (n + len + 1 - 2 ^ 64)) as (e & -> & Hw).
      { destruct (decide (2 ^ 64 <= n + len)).
        - exists (n + len - 2 ^ 64). decide_bools. split; [f_equal|f_equal; lia].
          rewrite <-(Z.mod_unique (n + len) (2 ^ 64) 1 (n + len - 2 ^ 64)); lia.
        - exists (n + len). decide_bools. split; [done|f_equal].
          rewrite <-(Z.mod_unique (n + len + 1) (2 ^ 64) 1 (n + len + 1 - 2 ^ 64)); lia. }
      rewrite bind_Ok_l, Hw, bind_Ok_l. decide_bools.
      unfold slice. by decide_bools.
  - assert (n + len + 1 < 2 ^ 64) by lia. split; [|lia].
    rewrite uadd_ok, bind_Ok_l by lia. rewrite uadd_ok, bind_Ok_l by lia.
    destruct (_ <? _) eqn:He; [done|]. apply Z.ltb_ge in He.
    rewrite slice_ok by (rewrite ?zlen_cons in *; lia).
    by rewrite bind_Ok_l, slice_from_ok by (rewrite ?zlen_cons in *; lia).
Qed.

Lemma short_item_no_panic {T} (f : list Z → list Z → T) b t n :
  0 <= n <= 55 →
  (e ← uadd n 1;
   if zlen (b :: t) <? e then Err InvalidLength
   else p ← slice (b :: t) 1 e; r ← slice_from (b :: t) e; Ok (f p r)) ≠ Panic.
Proof.
  intros Hn. rewrite uadd_ok, bind_Ok_l by lia.
  destruct (_ <? _) eqn:He; [done|]. apply Z.ltb_ge in He.
  rewrite slice_ok, bind_Ok_l by lia. by rewrite slice_from_ok by lia.
Qed.

(** ** Termination of the list decoder *)
Lemma decode_rlp_item_fuel d : decode_rlp_item d ≠ OutOfFuel.
Proof.
  unfold decode_rlp_item, slice_to, slice_from, uadd, static_left_pad. cbv zeta.
  repeat fuel_step.
Qed.

Lemma vec_decode_loop_fuel {A} (dec : list Z → dres (A * list Z)) fuel acc d :
  (∀ d x r, dec d = Ok (x, r) → ∃ p, d = p ++ r ∧ p ≠ []) →
  (∀ d, dec d ≠ OutOfFuel) →
  (length d < fuel)%nat → vec_decode_loop dec fuel acc d ≠ OutOfFuel.
Proof.
  intros Hc Ht. revert acc d. induction fuel as [|fuel IH]; intros acc d Hf; [lia|]. cbn.
  destruct d as [|b d]; [done|]. apply bind_OutOfFuel; [done|].
  intros [x r] Hx. apply IH. destruct (Hc _ _ _ Hx) as (p & Hp & Hne).
  rewrite Hp, length_app in Hf. destruct p; [done|]. simpl in Hf. lia.
Qed.
End Laws.

(** ** Properties *)

(** Every scalar type of the crate decodes back from its encoding, with any
    bytes that follow left untouched: [bool], the unsigned integers, [U256], byte
    strings, fixed-size arrays (and so every hash type), UTF-8 strings and IP
    addresses, in both build profiles. *)
Theorem scalar_roundtrip (P : Profile) (rest : list Z) :
  (∀ b, bool_decode (bool_encode b ++ rest) = Ok (b, rest)) ∧
  (∀ n, is_uint 8 n → u8_decode (u8_encode n ++ rest) = Ok (n, rest)) ∧
  (∀ n, is_uint 16 n → u16_decode (u16_encode n ++ rest) = Ok (n, rest)) ∧
  (∀ n, is_uint 32 n → u32_decode (u32_encode n ++ rest) = Ok (n, rest)) ∧
  (∀ n, is_uint 64 n → u64_decode (u64_encode n ++ rest) = Ok (n, rest)) ∧
  (∀ n, is_uint 256 n → U256_decode (U256_encode n ++ rest) = Ok (n, rest)) ∧
  (∀ l, bytes_ok l → zlen (Bytes_encode l) <= isize_max →
     Bytes_decode (Bytes_encode l ++ rest) = Ok (l, rest)) ∧
  (∀ N l, is_array N l → zlen (array_encode l) <= isize_max →
     array_decode N (array_encode l ++ rest) = Ok (l, rest)) ∧
  (∀ l, bytes_ok l → utf8_valid l = true → zlen (str_encode l) <= isize_max →
     String_decode (str_encode l ++ rest) = Ok (l, rest)) ∧
  (∀ ip, is_ip ip → IpAddr_decode (IpAddr_encode ip ++ rest) = Ok (ip, rest)).
Proof.
  split_and!.
  - intros b. by apply (rlp_roundtrip (c:=bool_rlp) (wf:=λ _, True)); [done|destruct b].
  - intros n Hn. apply (rlp_roundtrip (c:=u8_rlp) n rest Hn), (uint_encode_short 1); [lia|done].
  - intros n Hn. apply (uint_roundtrip 2); [lia|done].
  - intros n Hn. apply (uint_roundtrip 4); [lia|done].
  - intros n Hn. apply (uint_roundtrip 8); [lia|done].
  - intros n Hn. destruct (U256_encode_minimal n Hn) as (t & -> & Hm & Hlen).
    apply (uint_decode_minimal 32); auto; lia.
  - intros l. apply (rlp_roundtrip (c:=Bytes_rlp)).
  - intros N l. apply (rlp_roundtrip (c:=array_rlp N)).
  - intros l Hl Hu. by apply (rlp_roundtrip (c:=String_rlp)).
  - intros [o|o] [Ho Hlen]; unfold IpAddr_decode, IpAddr_encode, Ipv4Addr_encode, Ipv6Addr_encode,
      array_encode; (rewrite decode_bytes_encode; [|done|unfold isize_max; lia]);
      rewrite bind_Ok_l, Hlen; done.
Qed.

(** The encoding of a list of pairs whose second parts are lists (the shape
    of an access list) decodes back to the list, for any element types that
    fulfil the RLP interface. *)
Theorem compound_roundtrip (P : Profile) (A B : Type) (ca : Rlp A) (cb : Rlp B)
    (wfa : A → Prop) (wfb : B → Prop) (La : RlpLaws ca wfa) (Lb : RlpLaws cb wfb)
    (l : list (A * list B)) :
  let c := vec_rlp (pair_rlp ca (vec_rlp cb)) in
  Forall (λ x, wfa x.1 ∧ Forall wfb x.2) l →
  zlen (rlp_encode c l) <= isize_max →
  decode (rlp_decode c) (rlp_encode c l) = Ok l.
Proof.
  intros c Hl Hmax. unfold decode.
  assert (rlp_decode c (rlp_encode c l) = Ok (l, [])) as ->; [|done].
  rewrite <-(app_nil_r (rlp_encode c l)). by apply rlp_roundtrip.
Qed.

Definition sample_access_list : list (list Z * list (list Z)) :=
  [(replicate 20 0xAA, [replicate 32 1; replicate 32 2]); (replicate 20 0xBB, [])].
Lemma compound_roundtrip_witness :
  let P : Profile := dev_profile in
  let c := vec_rlp (pair_rlp (array_rlp 20) (vec_rlp (array_rlp 32))) in
  decode (rlp_decode c) (rlp_encode c sample_access_list) = Ok sample_access_list.
Proof.
  intros P. apply (compound_roundtrip P _ _ (array_rlp 20) (array_rlp 32) (is_array 20) (is_array 32)
    (array_laws 20) (array_laws 32)).
  - repeat constructor; by vm_compute.
  - by vm_compute.
Defined.

(** An item accepted by [decode_rlp_item] is a prefix of the input: header,
    payload and rest concatenate to the input, something is consumed, and
    [get_item_with_prefix] cuts at the same place. *)
Theorem decode_rlp_item_partition (P : Profile) (d payload rest : list Z) (is_list : bool) :
  decode_rlp_item d = Ok (is_list, payload, rest) →
  ∃ header, d = header ++ payload ++ rest ∧ 0 < zlen (header ++ payload) ∧
            get_item_with_prefix d = Ok (header ++ payload, rest).
Proof.
  intros (h & Hd & Hne & Hg)%decode_rlp_item_split. exists h. split_and!; [done| |done].
  destruct (h ++ payload); [done|]. zlen_simpl. pose proof (zlen_nonneg l). lia.
Qed.

Lemma decode_rlp_item_partition_witness :
  ∃ header, [0xc2; 61; 75; 9] = header ++ [61; 75] ++ [9] ∧ 0 < zlen (header ++ [61; 75]) ∧
            get_item_with_prefix (H:=dev_profile) [0xc2; 61; 75; 9] = Ok (header ++ [61; 75], [9]).
Proof. apply (decode_rlp_item_partition dev_profile _ _ _ true). by vm_compute. Defined.

Lemma some_if_iff (b : bool) (x m : Z) :
  (∃ e, (if b then Some x else None) = Some e ∧ m <= e) ↔ b = true ∧ m <= x.
Proof.
  destruct b; split; intros Hx.
  - by destruct Hx as (e & [= ->] & He).
  - destruct Hx as [_ Hx]. eauto.
  - by destruct Hx as (e & [=] & He).
  - by destruct Hx.
Qed.

(** C8: on any byte string of a possible length, [decode_rlp_item] panics exactly
    when the item has a long-form length field without leading zero whose claimed
    end does not fit in [usize]; this holds in both build profiles (overflow check
    in one, empty slice range in the other), and every other malformed input is an
    error value. *)
Theorem decode_rlp_item_panics_iff (P : Profile) (d : list Z) :
  bytes_ok d → zlen d <= isize_max →
  decode_rlp_item d = Panic ↔ ∃ e, declared_end d = Some e ∧ 2 ^ 64 <= e.
Proof.
  intros Hd Hmax. destruct d as [|b t]; [by split; [|intros (?&?&?)]|].
  inversion Hd as [|? ? Hb Ht]; subst. unfold is_byte in Hb.
  unfold decode_rlp_item, declared_end, RLP_EMPTY_LIST. cbv zeta.
  destruct (decide (b <= 0x7F)); [|destruct (decide (b <= 0xB7)); [|destruct (decide (b <= 0xBF));
    [|destruct (decide (b <= 0xF7))]]]; decide_bools.
  - pose proof (zlen_nonneg t). rewrite slice_to_ok, bind_Ok_l, slice_from_ok by (zlen_simpl; lia).
    split; [done|by intros (?&?&?)].
  - split; [|by intros (?&?&?)]. intros Hp. by apply short_item_no_panic in Hp; [|lia].
  - rewrite (long_item_panic (λ p r, (false, p, r))) by (done || lia).
    rewrite some_if_iff, !andb_true_iff, negb_true_iff, Z.leb_le, Z.eqb_neq. tauto.
  - split; [|by intros (?&?&?)]. intros Hp. by apply short_item_no_panic in Hp; [|lia].
  - rewrite (long_item_panic (λ p r, (true, p, r))) by (done || lia).
    rewrite some_if_iff, !andb_true_iff, negb_true_iff, Z.leb_le, Z.eqb_neq. tauto.
Qed.

(** A nine byte message that brings the decoder down, in either profile. *)
Lemma decode_rlp_item_panics_witness :
  (decode_rlp_item (H:=release_profile) (0xbf :: replicate 8 0xff) = Panic
   ↔ ∃ e, declared_end (0xbf :: replicate 8 0xff) = Some e ∧ 2 ^ 64 <= e) ∧
  decode_rlp_item (H:=dev_profile) (0xbf :: replicate 8 0xff) = Panic.
Proof.
  split.
  - apply (decode_rlp_item_panics_iff release_profile); [repeat constructor|]; by vm_compute.
  - by vm_compute.
Defined.

(** The integer decoders do not reject a byte string that is too long for the
    type: [copy_from_slice] panics on every such string without leading zero. *)
Theorem uint_decode_overlong_panics (P : Profile) (N : Z) (d : Z) (t rest : list Z) :
  bytes_ok (d :: t) → d ≠ 0 → 1 <= N < zlen (d :: t) → zlen (d :: t) <= isize_max →
  uint_decode N (bytes_encode (d :: t) ++ rest) = Panic.
Proof.
  intros Hb Hd HN Hmax. unfold uint_decode.
  rewrite decode_bytes_encode, bind_Ok_l by done.
  unfold static_left_pad. cbv zeta. rewrite Z.max_l by lia. by decide_bools.
Qed.

(** Decoding [[0x83, 1, 2, 3]] as a [u16] panics. *)
Lemma uint_decode_overlong_witness : u16_decode (H:=dev_profile) [0x83; 1; 2; 3] = Panic.
Proof.
  apply (uint_decode_overlong_panics dev_profile 2 1 [2; 3] []);
    [repeat constructor; lia|lia|by vm_compute|by vm_compute].
Defined.

(** The decoding loop of [Vec<T>] finishes on every input, whatever the
    element decoder, provided that decoder consumes input when it succeeds. *)
Theorem vec_decode_terminates (P : Profile) (A : Type) (dec : list Z → dres (A * list Z)) :
  (∀ d x r, dec d = Ok (x, r) → ∃ p, d = p ++ r ∧ p ≠ []) →
  (∀ d, dec d ≠ OutOfFuel) →
  ∀ d, vec_decode dec d ≠ OutOfFuel.
Proof.
  intros Hc Ht d. unfold vec_decode. destruct d as [|b d]; [done|]. case_match; [done|].
  apply bind_OutOfFuel; [apply decode_rlp_item_fuel|]. intros [[[] p] r] _; [|done]. cbn [negb].
  apply bind_OutOfFuel; [|done]. apply vec_decode_loop_fuel; auto.
Qed.

Lemma vec_decode_terminates_witness :
  vec_decode (H:=dev_profile) (u64_decode (H:=dev_profile)) [0xc4; 5; 6; 0x81; 0x90] ≠ OutOfFuel.
Proof.
  apply (vec_decode_terminates dev_profile).
  - exact (uint_consumes (H:=dev_profile) 8).
  - intros e. unfold u64_decode, uint_decode, decode_bytes, static_left_pad.
    repeat first [apply (decode_rlp_item_fuel (H:=dev_profile))|fuel_step].
Defined.
