(* ===== verification/U256.v ===== *)
(** * 256-bit machine words

    The operations of [ethereum_types::U256] that the virtual machine uses, on
    integers in [[0, 2^256)], with the panics their documentation states.  The
    second half gives the two's complement reading of a word and the arithmetic
    the EVM specification asks for. *)

From S2P Require Import Prelude.

(** Code that cannot return [Err]. *)
Inductive never : Set :=.
Abbreviation pres A := (res never A).

Definition U256_MOD : Z := 2 ^ 256.
Definition U256_MAX : Z := 2 ^ 256 - 1.
Definition U512_MOD : Z := 2 ^ 512.

Definition is_u256 (x : Z) : Prop := 0 <= x < U256_MOD.
#[export] Instance is_u256_dec x : Decision (is_u256 x).
Proof. unfold is_u256. apply _. Defined.

Module U256.
(** [overflowing_add], [overflowing_sub] and [overflowing_mul]. *)
Definition overflowing_add (a b : Z) : Z * bool := ((a + b) mod U256_MOD, U256_MOD <=? a + b).
Definition overflowing_sub (a b : Z) : Z * bool := ((a - b) mod U256_MOD, a <? b).
Definition overflowing_mul (a b : Z) : Z * bool := ((a * b) mod U256_MOD, U256_MOD <=? a * b).

(** The operators [+], [-] and [*] panic on overflow in every build profile. *)
Definition exact (x : Z) : pres Z := if (0 <=? x) && (x <? U256_MOD) then Ok x else Panic.
Definition add (a b : Z) : pres Z := exact (a + b).
Definition sub (a b : Z) : pres Z := exact (a - b).
Definition mul (a b : Z) : pres Z := exact (a * b).
(** [/] and [%] panic on a zero divisor. *)
Definition div (a b : Z) : pres Z := if b =? 0 then Panic else Ok (a / b).
Definition rem (a b : Z) : pres Z := if b =? 0 then Panic else Ok (a mod b).
Definition saturating_sub (a b : Z) : Z := Z.max 0 (a - b).

(** [!x]. *)
Definition not (x : Z) : Z := Z.lxor x U256_MAX.
(** [x << n] and [x >> n]; bits shifted out are lost. *)
Definition shl (x n : Z) : Z := if n <? 256 then Z.shiftl x n mod U256_MOD else 0.
Definition shr (x n : Z) : Z := if n <? 256 then Z.shiftr x n else 0.

(** [bit] and [byte] index the four words of the number. *)
Definition bit (x i : Z) : pres bool := if i <? 256 then Ok (Z.testbit x i) else Panic.
Definition byte (x i : Z) : pres Z := if i <? 32 then Ok ((x / 256 ^ i) mod 256) else Panic.
(** The number of bits needed for [x]. *)
Definition bits (x : Z) : Z := if x =? 0 then 0 else Z.log2 x + 1.

Definition low_u64 (x : Z) : Z := x mod 2 ^ 64.
Definition as_u32 (x : Z) : pres Z := if x <? 2 ^ 32 then Ok x else Panic.
Definition as_usize (x : Z) : pres Z := if x <? 2 ^ 64 then Ok x else Panic.
(** [usize::try_from]. *)
Definition try_into_usize (x : Z) : option Z := if x <? 2 ^ 64 then Some x else None.

(** [overflowing_pow(..).0]: exponentiation modulo 2^256, by squaring. *)
Fixpoint pow_pos (x : Z) (n : positive) : Z :=
  match n with
  | xH => x mod U256_MOD
  | xO n => let y := pow_pos x n in (y * y) mod U256_MOD
  | xI n => let y := pow_pos x n in (x * ((y * y) mod U256_MOD)) mod U256_MOD
  end.
Definition wrapping_pow (x n : Z) : Z :=
  match n with
  | Z0 => 1
  | Zpos p => pow_pos x p
  | Zneg _ => 0
  end.
End U256.

(** ** Two's complement *)

(** The integer in [[-2^255, 2^255)] that a word stands for, and back. *)
Definition signed (x : Z) : Z := if x <? 2 ^ 255 then x else x - U256_MOD.
Definition unsigned (x : Z) : Z := x mod U256_MOD.

Lemma U256_MOD_eq : U256_MOD = 2 * 2 ^ 255.
Proof. done. Qed.

Lemma signed_range x : is_u256 x → - 2 ^ 255 <= signed x < 2 ^ 255.
Proof.
  unfold is_u256, signed. pose proof U256_MOD_eq. intros. case_match; bool_prop; lia.
Qed.
Lemma unsigned_signed x : is_u256 x → unsigned (signed x) = x.
Proof.
  unfold is_u256, signed, unsigned. intros. case_match.
  - by apply Z.mod_small.
  - replace (x - U256_MOD) with (x + (-1) * U256_MOD) by lia.
    rewrite Z.mod_add by done. by apply Z.mod_small.
Qed.
Lemma signed_unsigned x : - 2 ^ 255 <= x < 2 ^ 255 → signed (unsigned x) = x.
Proof.
  intros. unfold signed, unsigned. pose proof U256_MOD_eq.
  destruct (Z_lt_le_dec x 0).
  - replace (x mod U256_MOD) with (x + U256_MOD).
    + case_match; bool_prop; lia.
    + rewrite <-(Z.mod_add x 1) by done. rewrite Z.mod_small; lia.
  - rewrite Z.mod_small by lia. case_match; bool_prop; lia.
Qed.
Lemma unsigned_u256 x : is_u256 (unsigned x).
Proof. apply Z.mod_pos_bound. done. Qed.
Lemma unsigned_small x : is_u256 x → unsigned x = x.
Proof. apply Z.mod_small. Qed.

Lemma testbit_top x : is_u256 x → Z.testbit x 255 = (signed x <? 0).
Proof.
  unfold is_u256, signed. intros Hx. pose proof U256_MOD_eq.
  rewrite Z.testbit_odd, Z.shiftr_div_pow2 by done.
  destruct (x <? 2 ^ 255) eqn:Hs; bool_prop.
  - rewrite Z.div_small by lia. decide_bools. done.
  - replace (x / 2 ^ 255) with 1; [decide_bools; done|].
    apply Z.div_unique with (x - 2 ^ 255); lia.
Qed.

Lemma not_eq x : is_u256 x → U256.not x = U256_MAX - x.
Proof.
  intros Hx. unfold U256.not. rewrite Z.lxor_comm.
  assert (Z.land x U256_MAX = x) as Hl.
  { unfold U256_MAX. replace (2 ^ 256 - 1) with (Z.ones 256) by done.
    rewrite Z.land_ones by done. by apply Z.mod_small. }
  rewrite <-Hl at 2. rewrite Z.land_comm, Z.sub_nocarry_ldiff.
  - apply Z.bits_inj'. intros n Hn.
    rewrite Z.lxor_spec, Z.ldiff_spec, Z.land_spec.
    destruct (Z.testbit U256_MAX n) eqn:E; [by destruct (Z.testbit x n)|].
    rewrite <-Hl, Z.land_spec, E, andb_false_r. done.
  - apply Z.bits_inj'. intros n Hn. rewrite Z.ldiff_spec, Z.land_spec, Z.bits_0.
    by destruct (Z.testbit U256_MAX n), (Z.testbit x n).
Qed.
Lemma not_u256 x : is_u256 x → is_u256 (U256.not x).
Proof. intros Hx. rewrite not_eq by done. unfold is_u256, U256_MAX in *. unfold U256_MOD in *. lia. Qed.

Lemma pow_pos_spec x n : U256.pow_pos x n = (x ^ Zpos n) mod U256_MOD.
Proof.
  induction n as [n IH|n IH|]; cbn [U256.pow_pos].
  - rewrite IH, Pos2Z.inj_xI, Z.pow_add_r, Z.pow_mul_r, Z.pow_1_r, Z.pow_2_r by lia.
    rewrite <-Z.mul_mod, Z.mul_mod_idemp_r by done.
    rewrite <-Z.pow_mul_l, Z.mul_comm. done.
  - rewrite IH, Pos2Z.inj_xO, Z.pow_mul_r, Z.pow_2_r by lia.
    rewrite <-Z.mul_mod by done. by rewrite <-Z.pow_mul_l.
  - by rewrite Z.pow_1_r.
Qed.
(** [wrapping_pow] is exponentiation modulo 2^256. *)
Lemma wrapping_pow_spec x n : 0 <= n → U256.wrapping_pow x n = (x ^ n) mod U256_MOD.
Proof. destruct n as [|n|n]; intros; [done|apply pow_pos_spec|lia]. Qed.

Lemma shl_u256 x n : is_u256 (U256.shl x n).
Proof. unfold U256.shl. case_match; [by apply Z.mod_pos_bound|done]. Qed.
Lemma shr_u256 x n : is_u256 x → 0 <= n → is_u256 (U256.shr x n).
Proof.
  unfold is_u256, U256.shr. intros Hx Hn. case_match; [|lia]. rewrite Z.shiftr_div_pow2 by done.
  assert (0 < 2 ^ n) by (apply Z.pow_pos_nonneg; lia).
  split; [apply Z.div_pos; lia|]. apply Z.div_lt_upper_bound; [lia|]. nia.
Qed.

(** Bitwise operations stay within the width. *)
Lemma u256_bits x : 0 <= x → (∀ n, 256 <= n → Z.testbit x n = false) → is_u256 x.
Proof.
  intros Hx Hb. split; [done|]. destruct (Z_lt_le_dec x U256_MOD) as [|Hge]; [done|].
  assert (0 < x) by (unfold U256_MOD in Hge; lia).
  assert (256 <= Z.log2 x) by (apply Z.log2_le_pow2; [lia|exact Hge]).
  specialize (Hb (Z.log2 x) ltac:(lia)). by rewrite Z.bit_log2 in Hb.
Qed.
Lemma u256_testbit x n : is_u256 x → 256 <= n → Z.testbit x n = false.
Proof.
  intros [H0 Hx] Hn. destruct (decide (x = 0)) as [->|]; [by rewrite Z.bits_0|].
  apply Z.bits_above_log2; [done|]. apply Z.log2_lt_pow2; [lia|].
  unfold U256_MOD in Hx. eapply Z.lt_le_trans; [exact Hx|]. apply Z.pow_le_mono_r; lia.
Qed.
Lemma land_u256 x y : is_u256 x → is_u256 y → is_u256 (Z.land x y).
Proof.
  intros Hx Hy. apply u256_bits; [apply Z.land_nonneg; left; apply Hx|].
  intros n Hn. by rewrite Z.land_spec, (u256_testbit x n).
Qed.
Lemma lor_u256 x y : is_u256 x → is_u256 y → is_u256 (Z.lor x y).
Proof.
  intros Hx Hy. apply u256_bits; [apply Z.lor_nonneg; split; [apply Hx|apply Hy]|].
  intros n Hn. by rewrite Z.lor_spec, (u256_testbit x n), (u256_testbit y n).
Qed.
Lemma lxor_u256 x y : is_u256 x → is_u256 y → is_u256 (Z.lxor x y).
Proof.
  intros Hx Hy. apply u256_bits.
  - apply Z.lxor_nonneg. split; intros; [apply Hy|apply Hx].
  - intros n Hn. by rewrite Z.lxor_spec, (u256_testbit x n), (u256_testbit y n).
Qed.

Create HintDb u256.
#[export] Hint Resolve unsigned_u256 not_u256 shl_u256 shr_u256 land_u256 lor_u256 lxor_u256 : u256.
