(* ===== verification/Opcodes.v ===== *)
(** * Opcodes

    Model of [crates/levm/src/opcodes.rs] (the enum and [From<u8>]) and of
    [crates/levm/src/operations.rs] ([Operation::to_bytecode]). *)

From S2P Require Import Prelude U256.

Module Opcode.
Inductive t :=
  | STOP | ADD | MUL | SUB | DIV | SDIV | MOD | SMOD | ADDMOD | MULMOD | EXP | SIGNEXTEND | LT
  | GT | SLT | SGT | EQ | ISZERO | AND | OR | XOR | NOT | BYTE | SHL | SHR | SAR | KECCAK256
  | CALLDATALOAD | CALLDATASIZE | CALLDATACOPY | RETURNDATASIZE | RETURNDATACOPY | BLOCKHASH
  | COINBASE | TIMESTAMP | NUMBER | PREVRANDAO | GASLIMIT | CHAINID | SELFBALANCE | BASEFEE
  | BLOBHASH | BLOBBASEFEE | POP | MLOAD | MSTORE | MSTORE8 | SLOAD | SSTORE | JUMP | JUMPI
  | PC | MSIZE | GAS | JUMPDEST | TLOAD | TSTORE | MCOPY | PUSH0 | PUSH1 | PUSH2 | PUSH3
  | PUSH4 | PUSH5 | PUSH6 | PUSH7 | PUSH8 | PUSH9 | PUSH10 | PUSH11 | PUSH12 | PUSH13 | PUSH14
  | PUSH15 | PUSH16 | PUSH17 | PUSH18 | PUSH19 | PUSH20 | PUSH21 | PUSH22 | PUSH23 | PUSH24
  | PUSH25 | PUSH26 | PUSH27 | PUSH28 | PUSH29 | PUSH30 | PUSH31 | PUSH32 | DUP1 | DUP2 | DUP3
  | DUP4 | DUP5 | DUP6 | DUP7 | DUP8 | DUP9 | DUP10 | DUP11 | DUP12 | DUP13 | DUP14 | DUP15
  | DUP16 | SWAP1 | SWAP2 | SWAP3 | SWAP4 | SWAP5 | SWAP6 | SWAP7 | SWAP8 | SWAP9 | SWAP10
  | SWAP11 | SWAP12 | SWAP13 | SWAP14 | SWAP15 | SWAP16 | LOG0 | LOG1 | LOG2 | LOG3 | LOG4
  | CALL | CALLCODE | RETURN | DELEGATECALL | STATICCALL.

(** [op as u8]. *)
Definition to_u8 (op : t) : Z :=
  match op with
  | STOP => 0x00 | ADD => 0x01 | MUL => 0x02 | SUB => 0x03 | DIV => 0x04 | SDIV => 0x05
  | MOD => 0x06 | SMOD => 0x07 | ADDMOD => 0x08 | MULMOD => 0x09 | EXP => 0x0A
  | SIGNEXTEND => 0x0B | LT => 0x10 | GT => 0x11 | SLT => 0x12 | SGT => 0x13 | EQ => 0x14
  | ISZERO => 0x15 | AND => 0x16 | OR => 0x17 | XOR => 0x18 | NOT => 0x19 | BYTE => 0x1A
  | SHL => 0x1B | SHR => 0x1C | SAR => 0x1D | KECCAK256 => 0x20 | CALLDATALOAD => 0x35
  | CALLDATASIZE => 0x36 | CALLDATACOPY => 0x37 | RETURNDATASIZE => 0x3D
  | RETURNDATACOPY => 0x3E | BLOCKHASH => 0x40 | COINBASE => 0x41 | TIMESTAMP => 0x42
  | NUMBER => 0x43 | PREVRANDAO => 0x44 | GASLIMIT => 0x45 | CHAINID => 0x46
  | SELFBALANCE => 0x47 | BASEFEE => 0x48 | BLOBHASH => 0x49 | BLOBBASEFEE => 0x4A
  | POP => 0x50 | MLOAD => 0x51 | MSTORE => 0x52 | MSTORE8 => 0x53 | SLOAD => 0x54
  | SSTORE => 0x55 | JUMP => 0x56 | JUMPI => 0x57 | PC => 0x58 | MSIZE => 0x59 | GAS => 0x5A
  | JUMPDEST => 0x5B | TLOAD => 0x5C | TSTORE => 0x5D | MCOPY => 0x5E | PUSH0 => 0x5F
  | PUSH1 => 0x60 | PUSH2 => 0x61 | PUSH3 => 0x62 | PUSH4 => 0x63 | PUSH5 => 0x64
  | PUSH6 => 0x65 | PUSH7 => 0x66 | PUSH8 => 0x67 | PUSH9 => 0x68 | PUSH10 => 0x69
  | PUSH11 => 0x6A | PUSH12 => 0x6B | PUSH13 => 0x6C | PUSH14 => 0x6D | PUSH15 => 0x6E
  | PUSH16 => 0x6F | PUSH17 => 0x70 | PUSH18 => 0x71 | PUSH19 => 0x72 | PUSH20 => 0x73
  | PUSH21 => 0x74 | PUSH22 => 0x75 | PUSH23 => 0x76 | PUSH24 => 0x77 | PUSH25 => 0x78
  | PUSH26 => 0x79 | PUSH27 => 0x7A | PUSH28 => 0x7B | PUSH29 => 0x7C | PUSH30 => 0x7D
  | PUSH31 => 0x7E | PUSH32 => 0x7F | DUP1 => 0x80 | DUP2 => 0x81 | DUP3 => 0x82 | DUP4 => 0x83
  | DUP5 => 0x84 | DUP6 => 0x85 | DUP7 => 0x86 | DUP8 => 0x87 | DUP9 => 0x88 | DUP10 => 0x89
  | DUP11 => 0x8A | DUP12 => 0x8B | DUP13 => 0x8C | DUP14 => 0x8D | DUP15 => 0x8E
  | DUP16 => 0x8F | SWAP1 => 0x90 | SWAP2 => 0x91 | SWAP3 => 0x92 | SWAP4 => 0x93
  | SWAP5 => 0x94 | SWAP6 => 0x95 | SWAP7 => 0x96 | SWAP8 => 0x97 | SWAP9 => 0x98
  | SWAP10 => 0x99 | SWAP11 => 0x9A | SWAP12 => 0x9B | SWAP13 => 0x9C | SWAP14 => 0x9D
  | SWAP15 => 0x9E | SWAP16 => 0x9F | LOG0 => 0xA0 | LOG1 => 0xA1 | LOG2 => 0xA2 | LOG3 => 0xA3
  | LOG4 => 0xA4 | CALL => 0xF1 | CALLCODE => 0xF2 | RETURN => 0xF3 | DELEGATECALL => 0xF4
  | STATICCALL => 0xFA
  end.

(** [From<u8>]: the guards [x == Opcode::X as u8] are the literals of the enum. *)
Definition from (byte : Z) : pres t :=
  match byte with
  | 0x00 => Ok STOP | 0x01 => Ok ADD | 0x16 => Ok AND | 0x17 => Ok OR | 0x18 => Ok XOR
  | 0x19 => Ok NOT | 0x1A => Ok BYTE | 0x1B => Ok SHL | 0x1C => Ok SHR | 0x1D => Ok SAR
  | 0x02 => Ok MUL | 0x03 => Ok SUB | 0x04 => Ok DIV | 0x05 => Ok SDIV | 0x06 => Ok MOD
  | 0x07 => Ok SMOD | 0x08 => Ok ADDMOD | 0x09 => Ok MULMOD | 0x0A => Ok EXP
  | 0x0B => Ok SIGNEXTEND | 0x10 => Ok LT | 0x11 => Ok GT | 0x12 => Ok SLT | 0x13 => Ok SGT
  | 0x14 => Ok EQ | 0x15 => Ok ISZERO | 0x20 => Ok KECCAK256 | 0x35 => Ok CALLDATALOAD
  | 0x36 => Ok CALLDATASIZE | 0x37 => Ok CALLDATACOPY | 0x3D => Ok RETURNDATASIZE
  | 0x3E => Ok RETURNDATACOPY | 0x40 => Ok BLOCKHASH | 0x41 => Ok COINBASE
  | 0x42 => Ok TIMESTAMP | 0x43 => Ok NUMBER | 0x44 => Ok PREVRANDAO | 0x45 => Ok GASLIMIT
  | 0x46 => Ok CHAINID | 0x47 => Ok SELFBALANCE | 0x48 => Ok BASEFEE | 0x49 => Ok BLOBHASH
  | 0x4A => Ok BLOBBASEFEE | 0x50 => Ok POP | 0x56 => Ok JUMP | 0x57 => Ok JUMPI
  | 0x58 => Ok PC | 0x5B => Ok JUMPDEST | 0x5F => Ok PUSH0 | 0x60 => Ok PUSH1
  | 0x61 => Ok PUSH2 | 0x62 => Ok PUSH3 | 0x63 => Ok PUSH4 | 0x64 => Ok PUSH5
  | 0x65 => Ok PUSH6 | 0x66 => Ok PUSH7 | 0x67 => Ok PUSH8 | 0x68 => Ok PUSH9
  | 0x69 => Ok PUSH10 | 0x6A => Ok PUSH11 | 0x6B => Ok PUSH12 | 0x6C => Ok PUSH13
  | 0x6D => Ok PUSH14 | 0x6E => Ok PUSH15 | 0x6F => Ok PUSH16 | 0x70 => Ok PUSH17
  | 0x71 => Ok PUSH18 | 0x72 => Ok PUSH19 | 0x73 => Ok PUSH20 | 0x74 => Ok PUSH21
  | 0x75 => Ok PUSH22 | 0x76 => Ok PUSH23 | 0x77 => Ok PUSH24 | 0x78 => Ok PUSH25
  | 0x79 => Ok PUSH26 | 0x7A => Ok PUSH27 | 0x7B => Ok PUSH28 | 0x7C => Ok PUSH29
  | 0x7D => Ok PUSH30 | 0x7E => Ok PUSH31 | 0x80 => Ok DUP1 | 0x81 => Ok DUP2 | 0x82 => Ok DUP3
  | 0x83 => Ok DUP4 | 0x84 => Ok DUP5 | 0x85 => Ok DUP6 | 0x86 => Ok DUP7 | 0x87 => Ok DUP8
  | 0x88 => Ok DUP9 | 0x89 => Ok DUP10 | 0x8A => Ok DUP11 | 0x8B => Ok DUP12 | 0x8C => Ok DUP13
  | 0x8D => Ok DUP14 | 0x8E => Ok DUP15 | 0x8F => Ok DUP16 | 0x90 => Ok SWAP1
  | 0x91 => Ok SWAP2 | 0x92 => Ok SWAP3 | 0x93 => Ok SWAP4 | 0x94 => Ok SWAP5
  | 0x95 => Ok SWAP6 | 0x96 => Ok SWAP7 | 0x97 => Ok SWAP8 | 0x98 => Ok SWAP9
  | 0x99 => Ok SWAP10 | 0x9A => Ok SWAP11 | 0x9B => Ok SWAP12 | 0x9C => Ok SWAP13
  | 0x9D => Ok SWAP14 | 0x9E => Ok SWAP15 | 0x9F => Ok SWAP16 | 0xA0 => Ok LOG0
  | 0xA1 => Ok LOG1 | 0xA2 => Ok LOG2 | 0xA3 => Ok LOG3 | 0xA4 => Ok LOG4 | 0x7F => Ok PUSH32
  | 0x51 => Ok MLOAD | 0x52 => Ok MSTORE | 0x53 => Ok MSTORE8 | 0x54 => Ok SLOAD
  | 0x55 => Ok SSTORE | 0x59 => Ok MSIZE | 0x5A => Ok GAS | 0x5E => Ok MCOPY | 0x5C => Ok TLOAD
  | 0x5D => Ok TSTORE | 0xF1 => Ok CALL | 0xF2 => Ok CALLCODE | 0xF3 => Ok RETURN
  | 0xF4 => Ok DELEGATECALL | 0xFA => Ok STATICCALL
  | _ => Panic
  end.

(** [(lo..hi).contains(&op)] and [(lo..=hi).contains(&op)]: the derived order of
    the enum is the order of the discriminants. *)
Definition in_range (lo hi op : t) : bool := (to_u8 lo <=? to_u8 op) && (to_u8 op <? to_u8 hi).
Definition in_range_incl (lo hi op : t) : bool := (to_u8 lo <=? to_u8 op) && (to_u8 op <=? to_u8 hi).

Lemma from_to_u8 op : from (to_u8 op) = Ok op.
Proof. by destruct op. Qed.
Lemma to_u8_byte op : is_byte (to_u8 op).
Proof. destruct op; by apply (bool_decide_unpack _); vm_compute. Qed.
Lemma to_u8_inj op op' : to_u8 op = to_u8 op' → op = op'.
Proof.
  intros Heq. pose proof (from_to_u8 op) as Hf. rewrite Heq, from_to_u8 in Hf. congruence.
Qed.
#[global] Instance eq_dec : EqDecision t.
Proof.
  intros op op'. destruct (Z.eq_dec (to_u8 op) (to_u8 op')) as [Heq|Hne].
  - left. by apply to_u8_inj.
  - right. by intros ->.
Defined.
Lemma from_Ok byte op : from byte = Ok op ↔ byte = to_u8 op.
Proof.
  split; [|intros ->; apply from_to_u8].
  unfold from. intros Hf. repeat case_match; simplify_eq; reflexivity.
Qed.
End Opcode.

Module Operation.
Inductive t :=
  | Stop | Add | Mul | Sub | Div | Sdiv | Mod | SMod | Addmod | Mulmod | Exp | SignExtend | Lt
  | Gt | Slt | Sgt | Eq | IsZero | And | Or | Xor | Not | Byte | Shl | Shr | Sar | Keccak256
  | CallDataLoad | CallDataSize | CallDataCopy | ReturnDataSize | ReturnDataCopy | BlockHash
  | Coinbase | Timestamp | Number | Prevrandao | Gaslimit | Chainid | SelfBalance | Basefee
  | BlobHash | BlobBaseFee | Pop | Mload | Mstore | Mstore8 | Sload | Sstore | Jump | Jumpi
  | PC | Msize | Gas | Jumpdest | Tload | Tstore | Mcopy | Push0 | Push32 (value : Z)
  | Push (n : Z) (value : Z) | Dup (n : Z) | Swap (n : Z) | Log (n : Z) | Call | CallCode
  | Return | DelegateCall | StaticCall.

Section Ops.
Context `{Profile}.

(** The assertions of the code are the panics; [Opcode::DUP1 as u8 + n - 1] and
    its like are computed on [u8]. *)
Definition to_bytecode (self : t) : pres (list Z) :=
  match self with
  | Stop => Ok [Opcode.to_u8 Opcode.STOP]
  | Add => Ok [Opcode.to_u8 Opcode.ADD]
  | Mul => Ok [Opcode.to_u8 Opcode.MUL]
  | Sub => Ok [Opcode.to_u8 Opcode.SUB]
  | Div => Ok [Opcode.to_u8 Opcode.DIV]
  | Sdiv => Ok [Opcode.to_u8 Opcode.SDIV]
  | Mod => Ok [Opcode.to_u8 Opcode.MOD]
  | SMod => Ok [Opcode.to_u8 Opcode.SMOD]
  | Addmod => Ok [Opcode.to_u8 Opcode.ADDMOD]
  | Mulmod => Ok [Opcode.to_u8 Opcode.MULMOD]
  | Exp => Ok [Opcode.to_u8 Opcode.EXP]
  | SignExtend => Ok [Opcode.to_u8 Opcode.SIGNEXTEND]
  | Lt => Ok [Opcode.to_u8 Opcode.LT]
  | Gt => Ok [Opcode.to_u8 Opcode.GT]
  | Slt => Ok [Opcode.to_u8 Opcode.SLT]
  | Sgt => Ok [Opcode.to_u8 Opcode.SGT]
  | Eq => Ok [Opcode.to_u8 Opcode.EQ]
  | IsZero => Ok [Opcode.to_u8 Opcode.ISZERO]
  | And => Ok [Opcode.to_u8 Opcode.AND]
  | Or => Ok [Opcode.to_u8 Opcode.OR]
  | Xor => Ok [Opcode.to_u8 Opcode.XOR]
  | Not => Ok [Opcode.to_u8 Opcode.NOT]
  | Byte => Ok [Opcode.to_u8 Opcode.BYTE]
  | Shl => Ok [Opcode.to_u8 Opcode.SHL]
  | Shr => Ok [Opcode.to_u8 Opcode.SHR]
  | Sar => Ok [Opcode.to_u8 Opcode.SAR]
  | Keccak256 => Ok [Opcode.to_u8 Opcode.KECCAK256]
  | CallDataLoad => Ok [Opcode.to_u8 Opcode.CALLDATALOAD]
  | CallDataSize => Ok [Opcode.to_u8 Opcode.CALLDATASIZE]
  | CallDataCopy => Ok [Opcode.to_u8 Opcode.CALLDATACOPY]
  | ReturnDataSize => Ok [Opcode.to_u8 Opcode.RETURNDATASIZE]
  | ReturnDataCopy => Ok [Opcode.to_u8 Opcode.RETURNDATACOPY]
  | BlockHash => Ok [Opcode.to_u8 Opcode.BLOCKHASH]
  | Coinbase => Ok [Opcode.to_u8 Opcode.COINBASE]
  | Timestamp => Ok [Opcode.to_u8 Opcode.TIMESTAMP]
  | Number => Ok [Opcode.to_u8 Opcode.NUMBER]
  | Prevrandao => Ok [Opcode.to_u8 Opcode.PREVRANDAO]
  | Gaslimit => Ok [Opcode.to_u8 Opcode.GASLIMIT]
  | Chainid => Ok [Opcode.to_u8 Opcode.CHAINID]
  | SelfBalance => Ok [Opcode.to_u8 Opcode.SELFBALANCE]
  | Basefee => Ok [Opcode.to_u8 Opcode.BASEFEE]
  | BlobHash => Ok [Opcode.to_u8 Opcode.BLOBHASH]
  | BlobBaseFee => Ok [Opcode.to_u8 Opcode.BLOBBASEFEE]
  | Pop => Ok [Opcode.to_u8 Opcode.POP]
  | Mload => Ok [Opcode.to_u8 Opcode.MLOAD]
  | Mstore => Ok [Opcode.to_u8 Opcode.MSTORE]
  | Mstore8 => Ok [Opcode.to_u8 Opcode.MSTORE8]
  | Sload => Ok [Opcode.to_u8 Opcode.SLOAD]
  | Sstore => Ok [Opcode.to_u8 Opcode.SSTORE]
  | Jump => Ok [Opcode.to_u8 Opcode.JUMP]
  | Jumpi => Ok [Opcode.to_u8 Opcode.JUMPI]
  | PC => Ok [Opcode.to_u8 Opcode.PC]
  | Msize => Ok [Opcode.to_u8 Opcode.MSIZE]
  | Gas => Ok [Opcode.to_u8 Opcode.GAS]
  | Jumpdest => Ok [Opcode.to_u8 Opcode.JUMPDEST]
  | Tload => Ok [Opcode.to_u8 Opcode.TLOAD]
  | Tstore => Ok [Opcode.to_u8 Opcode.TSTORE]
  | Mcopy => Ok [Opcode.to_u8 Opcode.MCOPY]
  | Push0 => Ok [Opcode.to_u8 Opcode.PUSH0]
  | Call => Ok [Opcode.to_u8 Opcode.CALL]
  | CallCode => Ok [Opcode.to_u8 Opcode.CALLCODE]
  | Return => Ok [Opcode.to_u8 Opcode.RETURN]
  | DelegateCall => Ok [Opcode.to_u8 Opcode.DELEGATECALL]
  | StaticCall => Ok [Opcode.to_u8 Opcode.STATICCALL]
  | Push n value =>
    if negb (n <=? 32) then Panic
    else if negb ((U256.bits value + 7) / 8 <=? n) then Panic
    else
      let word_buffer := to_be 32 value in
      value_to_push ← slice_from word_buffer (32 - n);
      if negb (zlen value_to_push =? n) then Panic
      else
        byte ← checked 8 (Opcode.to_u8 Opcode.PUSH0 + n);
        opcode ← Opcode.from byte;
        Ok (Opcode.to_u8 opcode :: value_to_push)
  | Push32 value => Ok (Opcode.to_u8 Opcode.PUSH32 :: to_be 32 value)
  | Dup n =>
    if negb (n <=? 16) then Panic
    else s ← checked 8 (Opcode.to_u8 Opcode.DUP1 + n); b ← checked 8 (s - 1); Ok [b]
  | Swap n =>
    if negb (n <=? 16) then Panic
    else s ← checked 8 (Opcode.to_u8 Opcode.SWAP1 + n); b ← checked 8 (s - 1); Ok [b]
  | Log n =>
    if negb (n <=? 4) then Panic
    else b ← checked 8 (Opcode.to_u8 Opcode.LOG0 + n); Ok [b]
  end.
End Ops.
End Operation.
