(* ===== verification/Memory.v ===== *)
(** * The memory of a call frame

    Model of [crates/levm/src/memory.rs], and the abstract memory it implements:
    an unbounded array of bytes that is zero until written, with a size in words
    that only grows. *)

From S2P Require Import Prelude U256.

Definition WORD_SIZE : Z := 32.

Record Memory := mkMemory { data : list Z }.

Module Memory.
Definition new : Memory := mkMemory [].
Definition new_from_vec (data : list Z) : Memory := mkMemory data.

Section Ops.
Context `{Profile}.

(** [usize::next_multiple_of]. *)
Definition next_multiple_of (x n : Z) : pres Z :=
  let r := x mod n in
  if r =? 0 then Ok x else uadd x (n - r).

(** [Vec::resize(n, 0)] for [n] at least the length; the allocator refuses more
    than [isize::MAX] bytes. *)
Definition vec_resize (l : list Z) (n : Z) : pres (list Z) :=
  if isize_max <? n then Panic
  else Ok (l ++ replicate (Z.to_nat (n - zlen l)) 0).

Definition resize (self : Memory) (offset : Z) : pres Memory :=
  n ← next_multiple_of offset 32;
  if zlen (data self) <? n then
    d ← vec_resize (data self) n; Ok (mkMemory d)
  else Ok self.

Definition load (self : Memory) (offset : Z) : pres (Z * Memory) :=
  e ← uadd offset 32;
  self ← resize self e;
  value_bytes ← slice (data self) offset e;
  Ok (of_be value_bytes, self).

Definition load_range (self : Memory) (offset size : Z) : pres (list Z * Memory) :=
  e ← uadd offset size;
  self ← resize self e;
  value_bytes ← slice (data self) offset e;
  Ok (value_bytes, self).

(** [Vec::splice(a..b, v)]. *)
Definition splice (l : list Z) (a b : Z) (v : list Z) : pres (list Z) :=
  pre ← slice_to l a; _ ← slice l a b; post ← slice_from l b;
  Ok (pre ++ v ++ post).

Definition store_bytes (self : Memory) (offset : Z) (value : list Z) : pres Memory :=
  let len := zlen value in
  e ← uadd offset len;
  self ← resize self e;
  d ← splice (data self) offset e value;
  Ok (mkMemory d).

Definition size (self : Memory) : Z := zlen (data self).

(** [copy_from_slice] into a sub-slice of the same length is a splice. *)
Definition copy (self : Memory) (src_offset dest_offset size : Z) : pres Memory :=
  src_end ← uadd src_offset size;
  dest_end ← uadd dest_offset size;
  self ← resize self (Z.max src_end dest_end);
  temp ← slice (data self) src_offset src_end;
  d ← splice (data self) dest_offset dest_end temp;
  Ok (mkMemory d).

Definition expansion_cost (self : Memory) (memory_byte_size : Z) : pres Z :=
  if memory_byte_size <=? zlen (data self) then Ok 0
  else
    n0 ← uadd memory_byte_size WORD_SIZE; n1 ← usub n0 1;
    let new_memory_size_word := n1 / WORD_SIZE in
    n2 ← umul new_memory_size_word new_memory_size_word;
    n3 ← umul 3 new_memory_size_word;
    new_memory_cost ← uadd (n2 / 512) n3;
    l0 ← uadd (zlen (data self)) WORD_SIZE; l1 ← usub l0 1;
    let last_memory_size_word := l1 / WORD_SIZE in
    l2 ← umul last_memory_size_word last_memory_size_word;
    l3 ← umul 3 last_memory_size_word;
    last_memory_cost ← uadd (l2 / 512) l3;
    usub new_memory_cost last_memory_cost.
End Ops.

(** ** The abstract memory *)

(** The byte at address [i]. *)
Definition view (m : Memory) (i : Z) : Z := default 0 (data m !! Z.to_nat i).
(** The [n] bytes from address [o]. *)
Definition read (v : Z → Z) (o n : Z) : list Z := (λ k, v (o + k)) <$> seqZ 0 n.
(** The least multiple of the word size that is at least [n]. *)
Definition round_up (n : Z) : Z := (n + 31) / 32 * 32.

(** The length is a multiple of the word size and fits a [Vec]. *)
Definition wf (m : Memory) : Prop :=
  bytes_ok (data m) ∧ zlen (data m) mod 32 = 0 ∧ zlen (data m) <= isize_max.

Definition grow (m : Memory) (n : Z) : Memory :=
  mkMemory (data m ++ replicate (Z.to_nat (round_up n - zlen (data m))) 0).

Section Laws.
Context `{Profile}.

Lemma round_up_spec n : 0 <= n → n <= round_up n < n + 32 ∧ round_up n mod 32 = 0.
Proof.
  intros. unfold round_up. split; [divlia|]. apply Z.mod_mul. lia.
Qed.

Lemma next_multiple_of_ok n :
  0 <= n → n <= isize_max → next_multiple_of n 32 = Ok (round_up n).
Proof.
  intros H0 Hn. unfold next_multiple_of, round_up, isize_max in *. cbv zeta. case_match; bool_prop.
  - f_equal. divlia.
  - rewrite uadd_ok by divlia. f_equal. divlia.
Qed.

Lemma resize_ok m n :
  0 <= n → round_up n <= isize_max → resize m n = Ok (grow m n).
Proof.
  intros H0 Hn. pose proof (round_up_spec n H0). unfold resize.
  rewrite next_multiple_of_ok, bind_Ok_l by lia. unfold vec_resize, grow. case_match; bool_prop.
  - decide_bools. done.
  - replace (Z.to_nat _) with 0%nat by lia. rewrite app_nil_r. by destruct m.
Qed.

Lemma grow_length m n : zlen (data (grow m n)) = Z.max (zlen (data m)) (round_up n).
Proof. unfold grow. cbn. zlen_simpl. lia. Qed.

Lemma grow_view m n i : view (grow m n) i = view m i.
Proof.
  unfold view, grow. cbn. destruct (decide (Z.to_nat i < length (data m))%nat).
  - by rewrite lookup_app_l.
  - rewrite lookup_app_r, (lookup_ge_None_2 (data m)) by lia.
    destruct (replicate _ _ !! _) eqn:E; [|done].
    by apply lookup_replicate in E as [-> _].
Qed.

Lemma grow_wf m n : wf m → 0 <= n → round_up n <= isize_max → wf (grow m n).
Proof.
  intros (Hb & Hm & Hl) H0 Hn. split_and!.
  - apply Forall_app; split; [done|]. by apply Forall_replicate.
  - rewrite grow_length. destruct (round_up_spec n H0). destruct (Z.max_spec (zlen (data m)) (round_up n)) as [[_ ->]|[_ ->]]; done.
  - rewrite grow_length. lia.
Qed.

Lemma view_byte m i : wf m → is_byte (view m i).
Proof.
  intros (Hb & _). unfold view. destruct (_ !! _) eqn:E; cbn; [|done].
  by apply (Forall_lookup_1 _ _ _ _ Hb E).
Qed.

Lemma read_length v o n : 0 <= n → zlen (read v o n) = n.
Proof. intros. unfold read, zlen. rewrite length_fmap, length_seqZ. lia. Qed.
Lemma lookup_read v o n i : 0 <= i < n → read v o n !! Z.to_nat i = Some (v (o + i)).
Proof.
  intros. unfold read. rewrite list_lookup_fmap, lookup_seqZ_lt by lia. cbn. do 2 f_equal. lia.
Qed.
Lemma read_ext v v' o n : (∀ i, v i = v' i) → read v o n = read v' o n.
Proof. intros Hv. unfold read. by apply list_fmap_ext. Qed.

(** A slice of the array is the bytes of the view. *)
Lemma slice_view m o n :
  0 <= o → 0 <= n → o + n <= zlen (data m) →
  slice (E:=never) (data m) o (o + n) = Ok (read (view m) o n).
Proof.
  intros. rewrite slice_ok by lia. f_equal. replace (o + n - o) with n by lia.
  apply list_eq_same_length with (Z.to_nat n).
  - unfold read. rewrite length_fmap, length_seqZ. done.
  - unfold ztake, zdrop, zlen in *. rewrite length_take, length_drop. lia.
  - intros i x y Hi Hx Hy. replace i with (Z.to_nat (Z.of_nat i)) in Hy by lia.
    rewrite lookup_read in Hy by lia. simplify_eq.
    rewrite lookup_ztake, lookup_zdrop in Hx by lia. unfold view.
    replace (Z.to_nat (o + Z.of_nat i)) with (Z.to_nat o + i)%nat by lia. by rewrite Hx.
Qed.

Lemma splice_ok l a v :
  0 <= a → a + zlen v <= zlen l →
  splice l a (a + zlen v) v = Ok (ztake a l ++ v ++ zdrop (a + zlen v) l).
Proof.
  intros. pose proof (zlen_nonneg v). unfold splice.
  rewrite slice_to_ok, slice_ok, slice_from_ok by lia. done.
Qed.

Lemma splice_view m a v i :
  0 <= a → 0 <= i → a + zlen v <= zlen (data m) →
  view (mkMemory (ztake a (data m) ++ v ++ zdrop (a + zlen v) (data m))) i =
  if (a <=? i) && (i <? a + zlen v) then default 0 (v !! Z.to_nat (i - a)) else view m i.
Proof.
  intros Ha Hi Hl. unfold view. cbn.
  assert (length (ztake a (data m)) = Z.to_nat a) as Ht
    by (unfold ztake, zlen in *; rewrite length_take; lia).
  destruct (a <=? i) eqn:E1; bool_prop; cbn [andb].
  - rewrite lookup_app_r, Ht by lia.
    destruct (i <? a + zlen v) eqn:E2; bool_prop; unfold zlen in *.
    + rewrite lookup_app_l by lia. do 2 f_equal. lia.
    + rewrite lookup_app_r, lookup_zdrop by lia. do 2 f_equal. lia.
  - rewrite lookup_app_l, lookup_ztake by lia. done.
Qed.

Lemma splice_wf m a v :
  wf m → bytes_ok v → 0 <= a → a + zlen v <= zlen (data m) →
  wf (mkMemory (ztake a (data m) ++ v ++ zdrop (a + zlen v) (data m))).
Proof.
  intros (Hb & Hm & Hl) Hv Ha Hav. pose proof (zlen_nonneg v).
  assert (zlen (ztake a (data m) ++ v ++ zdrop (a + zlen v) (data m)) = zlen (data m)) as E.
  { zlen_simpl. rewrite zlen_ztake, zlen_zdrop; lia. }
  split_and!; cbn; rewrite ?E; try done.
  repeat (apply Forall_app; split); [by apply Forall_take|done|by apply Forall_drop].
Qed.

Lemma load_range_ok m o n :
  0 <= o → 0 <= n → round_up (o + n) <= isize_max →
  load_range m o n = Ok (read (view m) o n, grow m (o + n)).
Proof.
  intros Ho Hn Hr. pose proof (round_up_spec (o + n)). unfold load_range.
  rewrite uadd_ok, bind_Ok_l, resize_ok, bind_Ok_l by (unfold isize_max in *; lia).
  rewrite slice_view, bind_Ok_l by (rewrite ?grow_length; lia).
  do 2 f_equal. apply read_ext, grow_view.
Qed.

Lemma load_ok m o :
  0 <= o → round_up (o + 32) <= isize_max →
  load m o = Ok (of_be (read (view m) o 32), grow m (o + 32)).
Proof.
  intros Ho Hr. pose proof (load_range_ok m o 32 Ho ltac:(lia) Hr) as Hl. revert Hl.
  unfold load, load_range.
  destruct (uadd o 32); cbn; [|done..]. destruct (resize _ _); cbn; [|done..].
  destruct (slice _ _ _); cbn; [|done..]. by intros [= -> ->].
Qed.

Lemma store_bytes_ok m o v :
  0 <= o → round_up (o + zlen v) <= isize_max →
  let g := grow m (o + zlen v) in
  store_bytes m o v = Ok (mkMemory (ztake o (data g) ++ v ++ zdrop (o + zlen v) (data g))).
Proof.
  intros Ho Hr g. pose proof (zlen_nonneg v). pose proof (round_up_spec (o + zlen v)).
  unfold store_bytes. cbv zeta.
  rewrite uadd_ok, bind_Ok_l, resize_ok, bind_Ok_l by (unfold isize_max in *; lia).
  fold g. rewrite splice_ok by (unfold g; rewrite ?grow_length; lia). done.
Qed.

Lemma copy_ok m src dest n :
  0 <= src → 0 <= dest → 0 <= n → round_up (Z.max src dest + n) <= isize_max →
  let g := grow m (Z.max src dest + n) in let v := read (view m) src n in
  copy m src dest n = Ok (mkMemory (ztake dest (data g) ++ v ++ zdrop (dest + zlen v) (data g))).
Proof.
  intros Hs Hd Hn Hr g v. pose proof (round_up_spec (Z.max src dest + n)).
  assert (zlen v = n) as Hv by (apply read_length; lia).
  unfold copy. rewrite !uadd_ok, !bind_Ok_l by (unfold isize_max in *; lia).
  replace (Z.max (src + n) (dest + n)) with (Z.max src dest + n) by lia.
  rewrite resize_ok, bind_Ok_l by lia. fold g.
  rewrite slice_view, bind_Ok_l by (unfold g; rewrite ?grow_length; lia).
  rewrite (read_ext _ (view m)) by apply grow_view. fold v. rewrite <-Hv at 1.
  rewrite splice_ok by (unfold g; rewrite ?grow_length; lia). done.
Qed.

(** Reading back what was just stored. *)
Lemma splice_read m o v :
  0 <= o → o + zlen v <= zlen (data m) →
  read (view (mkMemory (ztake o (data m) ++ v ++ zdrop (o + zlen v) (data m)))) o (zlen v) = v.
Proof.
  intros Ho Hl. apply list_eq_same_length with (length v); [done| |].
  - unfold read, zlen. rewrite length_fmap, length_seqZ. lia.
  - intros i x y Hi Hx Hy. replace i with (Z.to_nat (Z.of_nat i)) in Hx by lia.
    rewrite lookup_read in Hx by (unfold zlen; lia). injection Hx as <-.
    rewrite splice_view by lia. assert (Z.of_nat i < zlen v) by (unfold zlen; lia). decide_bools.
    replace (Z.to_nat (o + Z.of_nat i - o)) with i by lia. by rewrite Hy.
Qed.
Lemma grow_id m n : round_up n <= zlen (data m) → grow m n = m.
Proof.
  intros Hn. unfold grow. replace (Z.to_nat _) with 0%nat by lia. rewrite app_nil_r. by destruct m.
Qed.
Lemma splice_length m a v :
  0 <= a → a + zlen v <= zlen (data m) →
  zlen (ztake a (data m) ++ v ++ zdrop (a + zlen v) (data m)) = zlen (data m).
Proof.
  intros. pose proof (zlen_nonneg v). rewrite !zlen_app, zlen_ztake, zlen_zdrop; lia.
Qed.

(** A word stored is the word loaded, and the load does not grow the memory. *)
Lemma store_load_word m o x :
  0 <= o → round_up (o + 32) <= isize_max → is_u256 x →
  ∃ m', store_bytes m o (to_be 32 x) = Ok m' ∧ load m' o = Ok (x, m') ∧ o + 32 <= zlen (data m').
Proof.
  intros Ho Hr Hx. pose proof (round_up_spec (o + 32) ltac:(lia)) as [Hru _].
  assert (zlen (to_be 32 x) = 32) as Hz by apply to_be_zlen.
  set (g := grow m (o + 32)).
  assert (zlen (data g) = Z.max (zlen (data m)) (round_up (o + 32))) as Hgl by apply grow_length.
  pose proof (store_bytes_ok m o (to_be 32 x)) as Hst. pose proof (splice_read g o (to_be 32 x)) as Hrd.
  pose proof (splice_length g o (to_be 32 x)) as Hsl. rewrite Hz in *. cbv zeta in Hst. fold g in Hst.
  eexists. split; [by apply Hst|]. cbn [data]. split; [|rewrite Hsl; lia].
  rewrite load_ok, Hrd, of_be_to_be_small by (done || lia). do 2 f_equal.
  apply grow_id. cbn [data]. rewrite Hsl; lia.
Qed.

(** The cost of a memory of [n] words. *)
Definition words_cost (n : Z) : Z := n * n / 512 + 3 * n.

Lemma words_cost_mono a b : 0 <= a <= b → words_cost a <= words_cost b.
Proof.
  intros. unfold words_cost. assert (a * a / 512 <= b * b / 512); [|lia].
  apply Z.div_le_mono; nia.
Qed.

Lemma expansion_cost_ok m n :
  wf m → 0 <= n → n < 2 ^ 37 - 31 →
  expansion_cost m n =
  Ok (Z.max 0 (words_cost (round_up n / 32) - words_cost (zlen (data m) / 32))).
Proof.
  intros (_ & Hm & _) H0 Hn. pose proof (zlen_nonneg (data m)). unfold expansion_cost.
  set (l := zlen (data m)) in *. unfold round_up. rewrite Z.div_mul by done.
  destruct (n <=? l) eqn:E; bool_prop.
  - assert (words_cost ((n + 31) / 32) <= words_cost (l / 32)); [|f_equal; lia].
    apply words_cost_mono. divlia.
  - unfold WORD_SIZE. rewrite (uadd_ok n), bind_Ok_l, usub_ok, bind_Ok_l by lia. cbv zeta.
    replace (n + 32 - 1) with (n + 31) by lia.
    set (a := (n + 31) / 32). set (b := l / 32).
    assert (0 <= b <= a ∧ a < 2 ^ 32) as [Hab Ha] by (subst a b; divlia).
    pose proof (words_cost_mono b a Hab) as Hw. unfold words_cost in *.
    assert (a * a / 512 <= 2 ^ 55) by (apply Z.div_le_upper_bound; nia).
    assert (0 <= a * a / 512) by (apply Z.div_pos; nia).
    assert (0 <= b * b / 512) by (apply Z.div_pos; nia).
    rewrite (umul_ok a a), bind_Ok_l, umul_ok, bind_Ok_l by nia.
    rewrite (uadd_ok (a * a / 512)), bind_Ok_l by lia.
    rewrite (uadd_ok l), bind_Ok_l, usub_ok, bind_Ok_l by lia.
    replace ((l + 32 - 1) / 32) with b by (subst b; divlia).
    rewrite (umul_ok b b), bind_Ok_l, umul_ok, bind_Ok_l, uadd_ok, bind_Ok_l, usub_ok by nia.
    f_equal. lia.
Qed.
End Laws.
End Memory.

(** One operation of the memory has the outcome [m'] whose bytes are [v] and whose
    size covers [n] bytes. *)
Definition outcome (m m' : Memory) (n : Z) (v : Z → Z) : Prop :=
  Memory.wf m' ∧ (∀ i, 0 <= i → Memory.view m' i = v i) ∧
  Memory.size m' = Z.max (Memory.size m) (Memory.round_up n).

Lemma outcome_grow m n :
  Memory.wf m → 0 <= n → Memory.round_up n <= isize_max →
  outcome m (Memory.grow m n) n (Memory.view m).
Proof.
  intros. split_and!; [by apply Memory.grow_wf|by intros; apply Memory.grow_view|].
  apply Memory.grow_length.
Qed.

Lemma outcome_splice m n a v :
  Memory.wf m → bytes_ok v → 0 <= a → a + zlen v <= n → Memory.round_up n <= isize_max →
  let g := Memory.grow m n in
  outcome m (mkMemory (ztake a (data g) ++ v ++ zdrop (a + zlen v) (data g))) n
    (λ i, if (a <=? i) && (i <? a + zlen v) then default 0 (v !! Z.to_nat (i - a))
          else Memory.view m i).
Proof.
  intros Hm Hv Ha Han Hn g. pose proof (zlen_nonneg v).
  pose proof (Memory.round_up_spec n ltac:(lia)).
  assert (a + zlen v <= zlen (data g)) as Hl by (unfold g; rewrite Memory.grow_length; lia).
  assert (Memory.wf g) by (apply Memory.grow_wf; auto; lia).
  split_and!.
  - by apply Memory.splice_wf.
  - intros i Hi. rewrite Memory.splice_view by done. unfold g. by rewrite Memory.grow_view.
  - unfold Memory.size. rewrite <-Memory.grow_length. fold g. cbn [data].
    clearbody g. rewrite !zlen_app, zlen_ztake, zlen_zdrop; lia.
Qed.

(** C7: the memory of a call frame implements an unbounded zero-initialised byte
    array: reads return the bytes of the array and leave it unchanged, [store_bytes]
    changes exactly the addressed bytes, [copy] is a [memmove] (the source is read
    before the destination is written), and every access grows the size to the
    word boundary above the last byte touched, as long as that fits a [Vec]. *)
Theorem memory_implements_byte_array (P : Profile) (m : Memory) :
  Memory.wf m →
  (∀ o n, 0 <= o → 0 <= n → Memory.round_up (o + n) <= isize_max →
    ∃ m', Memory.load_range m o n = Ok (Memory.read (Memory.view m) o n, m') ∧
      outcome m m' (o + n) (Memory.view m)) ∧
  (∀ o, 0 <= o → Memory.round_up (o + 32) <= isize_max →
    ∃ m', Memory.load m o = Ok (of_be (Memory.read (Memory.view m) o 32), m') ∧
      outcome m m' (o + 32) (Memory.view m)) ∧
  (∀ o v, 0 <= o → bytes_ok v → Memory.round_up (o + zlen v) <= isize_max →
    ∃ m', Memory.store_bytes m o v = Ok m' ∧
      outcome m m' (o + zlen v) (λ i,
        if (o <=? i) && (i <? o + zlen v) then default 0 (v !! Z.to_nat (i - o))
        else Memory.view m i)) ∧
  (∀ src dest n, 0 <= src → 0 <= dest → 0 <= n →
    Memory.round_up (Z.max src dest + n) <= isize_max →
    ∃ m', Memory.copy m src dest n = Ok m' ∧
      outcome m m' (Z.max src dest + n) (λ i,
        if (dest <=? i) && (i <? dest + n) then Memory.view m (src + (i - dest))
        else Memory.view m i)).
Proof.
  intros Hm. split_and!.
  - intros o n Ho Hn Hr. eexists. rewrite Memory.load_range_ok by done.
    split; [done|]. apply outcome_grow; auto; lia.
  - intros o Ho Hr. eexists. rewrite Memory.load_ok by done.
    split; [done|]. apply outcome_grow; auto; lia.
  - intros o v Ho Hv Hr. eexists. rewrite Memory.store_bytes_ok by done.
    split; [done|]. apply outcome_splice; auto; lia.
  - intros src dest n Hs Hd Hn Hr. eexists. rewrite Memory.copy_ok by done. split; [done|].
    set (v := Memory.read (Memory.view m) src n).
    assert (zlen v = n) as Hv by (by apply Memory.read_length).
    assert (bytes_ok v) as Hb.
    { apply Forall_fmap, Forall_forall. intros k _. by apply Memory.view_byte. }
    destruct (outcome_splice m (Z.max src dest + n) dest v) as (Hw & Hvw & Hsz); auto; [lia|].
    split_and!; [done| |done]. intros i Hi. rewrite Hvw, Hv by done.
    case_match eqn:E; [|done]. bool_prop. subst v. rewrite Memory.lookup_read by lia. done.
Qed.

Lemma memory_implements_byte_array_witness :
  ∃ m', Memory.copy (H:=dev_profile) (mkMemory (seqZ 1 32)) 0 1 4 = Ok m' ∧
    outcome (mkMemory (seqZ 1 32)) m' 5 (λ i,
      if (1 <=? i) && (i <? 5) then Memory.view (mkMemory (seqZ 1 32)) (0 + (i - 1))
      else Memory.view (mkMemory (seqZ 1 32)) i).
Proof.
  apply (memory_implements_byte_array dev_profile (mkMemory (seqZ 1 32)));
    [split_and!; [apply (bool_decide_unpack _)|..]; by vm_compute|lia|lia|lia|by vm_compute].
Defined.

(** Up to 2^37 bytes, the price of growing the memory is the difference of the
    quadratic word costs, so growing in two stages costs as much as growing at once. *)
Theorem expansion_cost_telescopes (P : Profile) (m : Memory) (a b : Z) :
  Memory.wf m → 0 <= a <= b → b < 2 ^ 37 - 31 →
  ∃ c1 c2,
    Memory.expansion_cost m a = Ok c1 ∧
    Memory.expansion_cost (Memory.grow m a) b = Ok c2 ∧
    Memory.expansion_cost m b = Ok (c1 + c2) ∧
    c1 = Z.max 0 (Memory.words_cost (Memory.round_up a / 32) -
                  Memory.words_cost (Memory.size m / 32)).
Proof.
  intros Hm Hab Hb.
  assert (Memory.round_up b <= isize_max) as Hr.
  { destruct (Memory.round_up_spec b) as [? _]; unfold isize_max; lia. }
  assert (Memory.round_up a <= Memory.round_up b) as Hrr by (unfold Memory.round_up; divlia).
  assert (0 <= Memory.round_up a) by (unfold Memory.round_up; divlia).
  eexists _, _. rewrite !Memory.expansion_cost_ok by (auto using Memory.grow_wf with lia || lia).
  split_and!; [done..| |done]. rewrite Memory.grow_length. unfold Memory.size. f_equal.
  pose proof (zlen_nonneg (data m)). destruct Hm as (_ & Hz & _).
  assert (Memory.words_cost (Memory.round_up a / 32) <= Memory.words_cost (Memory.round_up b / 32))
    by (apply Memory.words_cost_mono; divlia).
  destruct (Z.max_spec (zlen (data m)) (Memory.round_up a)) as [[Hlt ->]|[Hle ->]].
  - assert (Memory.words_cost (zlen (data m) / 32) <= Memory.words_cost (Memory.round_up a / 32))
      by (apply Memory.words_cost_mono; divlia). lia.
  - assert (Memory.words_cost (Memory.round_up a / 32) <= Memory.words_cost (zlen (data m) / 32))
      by (apply Memory.words_cost_mono; divlia). lia.
Qed.

Lemma expansion_cost_telescopes_witness :
  ∃ c1 c2,
    Memory.expansion_cost (H:=dev_profile) Memory.new 100 = Ok c1 ∧
    Memory.expansion_cost (H:=dev_profile) (Memory.grow Memory.new 100) 100000 = Ok c2 ∧
    Memory.expansion_cost (H:=dev_profile) Memory.new 100000 = Ok (c1 + c2) ∧
    c1 = Z.max 0 (Memory.words_cost (Memory.round_up 100 / 32) -
                  Memory.words_cost (Memory.size Memory.new / 32)).
Proof.
  apply (expansion_cost_telescopes dev_profile Memory.new 100 100000);
    [split_and!; [constructor|..]; by vm_compute|lia|lia].
Defined.
