(* ===== verification/Exponential.v ===== *)
(** * The fake exponential of EIP-4844

    The Taylor approximation of [factor * e ^ (numerator / denominator)] that prices
    blob gas.  The repository has it at two widths: on [u64] in
    [crates/core/types/block.rs] and on [u128] in [crates/levm/src/block.rs]. *)

From S2P Require Import Prelude U256.

Section Loop.
Context `{Profile}.

(** The [while numerator_accum > 0] loop at width [w]. *)
Fixpoint fake_exponential_loop (w : Z) (fuel : nat) (numerator denominator i output numerator_accum : Z)
    : pres Z :=
  match fuel with
  | O => OutOfFuel
  | S fuel =>
    if 0 <? numerator_accum then
      output ← checked w (output + numerator_accum);
      p ← checked w (numerator_accum * numerator);
      d ← checked w (denominator * i);
      if d =? 0 then Panic
      else
        i ← checked w (i + 1);
        fake_exponential_loop w fuel numerator denominator i output (p / d)
    else Ok output
  end.

(** Once [i] is above this value a round at least halves the accumulator. *)
Definition halving_from (numerator denominator : Z) : Z := 2 * (numerator / denominator) + 2.
Definition fake_exponential_fuel (w numerator denominator : Z) : nat :=
  Z.to_nat (halving_from numerator denominator + w + 2).

(** [fake_exponential] of [core]: on [u64], without a check of the denominator; the
    final division panics on zero. *)
Definition fake_exponential_u64 (factor numerator denominator : Z) : pres Z :=
  numerator_accum ← checked 64 (factor * denominator);
  output ← fake_exponential_loop 64 (fake_exponential_fuel 64 numerator denominator)
    numerator denominator 1 0 numerator_accum;
  if denominator =? 0 then Panic else Ok (output / denominator).

(** [fake_exponential] of [levm]: on [u128], with [assert_ne!(denominator, 0)]. *)
Definition fake_exponential_u128 (factor numerator denominator : Z) : pres Z :=
  if denominator =? 0 then Panic
  else
    numerator_accum ← checked 128 (factor * denominator);
    output ← fake_exponential_loop 128 (fake_exponential_fuel 128 numerator denominator)
      numerator denominator 1 0 numerator_accum;
    Ok (output / denominator).

End Loop.

(** ** Termination *)
Lemma halving_from_pos num den : 0 <= num → 0 < den → 2 <= halving_from num den.
Proof. intros. unfold halving_from. pose proof (Z.div_pos num den). lia. Qed.

Section Termination.
Context `{Profile} (w num den J : Z).
Hypothesis Hw : 0 <= w.
Hypothesis Hnum : 0 <= num.
Hypothesis Hden : 0 < den.
(** Up to the round [J] the products [denominator * i] do not wrap. *)
Hypothesis HJw : J < 2 ^ w.
Hypothesis Hexact : ∀ j d, 1 <= j <= J → checked (E:=never) w (den * j) = Ok d → d = den * j.
#[local] Set Default Proof Using "Type*".

Lemma checked_le x y : 0 <= x → checked (E:=never) w x = Ok y → 0 <= y <= x.
Proof.
  intros Hx Hc. pose proof (checked_range _ _ _ Hw Hc). split; [lia|].
  unfold checked, in_width in Hc. assert (0 < 2 ^ w) by (apply Z.pow_pos_nonneg; lia).
  repeat case_match; simplify_eq; [lia|]. apply Z.mod_le; lia.
Qed.

Lemma halves i acc p :
  halving_from num den <= i → 0 <= acc → 0 <= p <= acc * num → p / (den * i) <= acc / 2.
Proof.
  intros Hi Ha Hp. pose proof (halving_from_pos num den Hnum Hden). unfold halving_from in *.
  assert (2 * num <= den * i) as Hd.
  { pose proof (Z.mul_succ_div_gt num den Hden). nia. }
  apply Z.div_le_lower_bound; [lia|].
  assert (p / (den * i) * (den * i) <= p) by (rewrite Z.mul_comm; apply Z.mul_div_le; nia).
  assert (0 <= p / (den * i)) by (apply Z.div_pos; nia).
  nia.
Qed.

(** One round: what the loop goes on with. *)
Lemma loop_round fuel i out acc (k : nat) :
  1 <= i < J → 0 <= acc → (k < fuel)%nat →
  (∀ out' p, 0 <= p <= acc * num → p < 2 ^ w →
    fake_exponential_loop w fuel num den (i + 1) out' (p / (den * i)) ≠ OutOfFuel) →
  fake_exponential_loop w (S fuel) num den i out acc ≠ OutOfFuel.
Proof.
  intros Hi Hacc Hk Hnext. cbn. case_match; [|done].
  apply bind_OutOfFuel; [apply checked_fuel|]. intros out' _.
  apply bind_OutOfFuel; [apply checked_fuel|]. intros p Hp.
  apply bind_OutOfFuel; [apply checked_fuel|]. intros d Hd.
  apply Hexact in Hd as ->; [|lia]. case_match; [done|].
  rewrite checked_in, bind_Ok_l by lia. apply Hnext.
  - apply checked_le in Hp; [lia|nia].
  - by pose proof (checked_range _ _ _ Hw Hp) as [_ ?].
Qed.

Lemma loop_halving (k : nat) : ∀ fuel i out acc,
  halving_from num den <= i → i + Z.of_nat k <= J →
  0 <= acc < 2 ^ Z.of_nat k → (k < fuel)%nat →
  fake_exponential_loop w fuel num den i out acc ≠ OutOfFuel.
Proof.
  pose proof (halving_from_pos num den Hnum Hden).
  induction k as [|k IH]; intros [|fuel] i out acc Hi HJ Hacc Hf; try lia.
  - cbn. change (2 ^ Z.of_nat 0) with 1 in Hacc. by decide_bools.
  - apply (loop_round fuel i out acc k); try lia. intros out' p Hp _. apply IH; try lia.
    rewrite Nat2Z.inj_succ, Z.pow_succ_r in Hacc by lia. split; [apply Z.div_pos; nia|].
    pose proof (halves i acc p Hi ltac:(lia) Hp). divlia.
Qed.

Lemma loop_terminates (n : nat) : ∀ fuel i out acc,
  halving_from num den <= i + Z.of_nat n → 1 <= i → i + Z.of_nat n + w <= J →
  0 <= acc < 2 ^ w → (n + Z.to_nat w < fuel)%nat →
  fake_exponential_loop w fuel num den i out acc ≠ OutOfFuel.
Proof.
  induction n as [|n IH]; intros [|fuel] i out acc Hi H1 HJ Hacc Hf; try lia.
  - apply (loop_halving (Z.to_nat w)); rewrite ?Z2Nat.id; try lia.
  - apply (loop_round fuel i out acc n); try lia. intros out' p Hp Hpw. apply IH; try lia.
    split; [apply Z.div_pos; nia|]. apply Z.le_lt_trans with p; [|done].
    assert (1 <= den * i) by nia. apply Z.div_le_upper_bound; nia.
Qed.
End Termination.

(** The rounds of the loop, as far as termination needs to look. *)
Definition rounds (w numerator denominator : Z) : Z := halving_from numerator denominator + w + 1.

Lemma fake_exponential_loop_fuel `{Profile} w num den acc :
  0 < w → 0 <= num → 0 < den → rounds w num den < 2 ^ w →
  overflow_checks = true ∨ den * rounds w num den < 2 ^ w →
  0 <= acc < 2 ^ w →
  fake_exponential_loop w (fake_exponential_fuel w num den) num den 1 0 acc ≠ OutOfFuel.
Proof.
  intros Hw Hnum Hden Hr Hov Hacc. pose proof (halving_from_pos num den Hnum Hden).
  unfold rounds, fake_exponential_fuel in *.
  apply (loop_terminates w num den (halving_from num den + w + 1) ltac:(lia) Hnum Hden Hr)
    with (n := Z.to_nat (halving_from num den - 1)); try lia.
  intros j d Hj Hd. destruct Hov as [Hov|Hov].
  { by destruct (checked_exact _ _ _ Hov Hd) as [-> _]. }
  rewrite checked_in in Hd by nia. congruence.
Qed.

(** ** Values, with overflow checks on *)
Section Values.
Context `{Profile}.
Hypothesis Hchecks : overflow_checks = true.
#[local] Set Default Proof Using "Type*".

(** One round that goes on, read backwards. *)
Lemma loop_inv w fuel num den i out acc v :
  fake_exponential_loop w (S fuel) num den i out acc = Ok v →
  (acc <= 0 ∧ v = out) ∨
  (0 < acc ∧ 0 <= out + acc < 2 ^ w ∧ 0 <= acc * num < 2 ^ w ∧ 0 <= den * i < 2 ^ w ∧
   den * i ≠ 0 ∧ 0 <= i + 1 < 2 ^ w ∧
   fake_exponential_loop w fuel num den (i + 1) (out + acc) (acc * num / (den * i)) = Ok v).
Proof.
  cbn. intros Hl. destruct (0 <? acc) eqn:E; bool_prop; [right|left; by simplify_eq].
  apply bind_Ok in Hl as (o & Ho & Hl). apply bind_Ok in Hl as (p & Hp & Hl).
  apply bind_Ok in Hl as (d & Hd & Hl). case_match eqn:E0; [done|]. bool_prop.
  apply bind_Ok in Hl as (i' & Hi & Hl).
  apply (checked_exact _ _ _ Hchecks) in Ho as [-> ?], Hp as [-> ?], Hd as [-> ?], Hi as [-> ?].
  by split_and!; try lia.
Qed.

(** A result at a narrow width is the result at every larger width. *)
Lemma loop_widen w w' num den v : w <= w' → 0 <= w → ∀ fuel fuel' i out acc,
  (fuel <= fuel')%nat →
  fake_exponential_loop w fuel num den i out acc = Ok v →
  fake_exponential_loop w' fuel' num den i out acc = Ok v.
Proof.
  intros Hw H0. assert (2 ^ w <= 2 ^ w') by (apply Z.pow_le_mono_r; lia).
  induction fuel as [|fuel IH]; intros [|fuel'] i out acc Hf Hl; try lia; [done..|].
  apply loop_inv in Hl as [[Ha ->]|(Ha & Ho & Hp & Hd & Hd0 & Hi & Hl)]; cbn; decide_bools; [done|].
  rewrite !checked_in, !bind_Ok_l by lia. decide_bools.
  apply IH; [lia|done].
Qed.

Lemma loop_output_le w num den : ∀ fuel i out acc v,
  fake_exponential_loop w fuel num den i out acc = Ok v → out <= v.
Proof.
  induction fuel as [|fuel IH]; intros i out acc v Hl; [done|].
  apply loop_inv in Hl as [[Ha ->]|(Ha & Ho & Hp & Hd & Hd0 & Hi & Hl)]; [done|].
  apply IH in Hl. lia.
Qed.

(** The sum grows with the numerator. *)
Lemma loop_mono w num num' den : 0 <= num <= num' → 0 < den → ∀ fuel fuel' i out out' acc acc' v v',
  0 < i → out <= out' → 0 <= acc <= acc' →
  fake_exponential_loop w fuel num den i out acc = Ok v →
  fake_exponential_loop w fuel' num' den i out' acc' = Ok v' → v <= v'.
Proof.
  intros Hn Hd. induction fuel as [|fuel IH];
    intros [|fuel'] i out out' acc acc' v v' Hi Hout Hacc Hl Hl'; try done.
  pose proof (loop_output_le _ _ _ _ _ _ _ _ Hl').
  apply loop_inv in Hl as [[Ha ->]|(Ha & Ho & Hp & _ & _ & _ & Hl)]; [lia|].
  apply loop_inv in Hl' as [[Ha' ->]|(Ha' & Ho' & Hp' & _ & _ & _ & Hl')]; [lia|].
  eapply IH; [| | |exact Hl|exact Hl']; try lia.
  assert (0 < den * i) by nia. split; [apply Z.div_pos; lia|]. apply Z.div_le_mono; nia.
Qed.
End Values.

Lemma fake_exponential_u128_fuel `{Profile} factor num den :
  0 <= factor < 2 ^ 64 → 0 <= num < 2 ^ 64 → 0 < den < 2 ^ 64 →
  fake_exponential_u128 factor num den ≠ OutOfFuel.
Proof.
  intros Hf Hn Hd. unfold fake_exponential_u128. decide_bools.
  apply bind_OutOfFuel; [apply checked_fuel|]. intros acc Hacc.
  apply checked_range in Hacc; [|done]. pose proof (Z.mul_div_le num den ltac:(lia)).
  pose proof (Z.div_pos num den ltac:(lia) ltac:(lia)).
  apply bind_OutOfFuel; [|done]. unfold rounds, halving_from in *.
  apply fake_exponential_loop_fuel; unfold rounds, halving_from; lia.
Qed.

Lemma fake_exponential_u64_fuel `{Profile} factor num den :
  overflow_checks = true → 0 <= num < 2 ^ 62 → 0 < den →
  fake_exponential_u64 factor num den ≠ OutOfFuel.
Proof.
  intros Hov Hn Hd. unfold fake_exponential_u64.
  apply bind_OutOfFuel; [apply checked_fuel|]. intros acc Hacc. apply checked_range in Hacc; [|done].
  apply bind_OutOfFuel; [|by intros; case_match].
  assert (num / den <= num) by (apply Z.div_le_upper_bound; nia).
  apply fake_exponential_loop_fuel; unfold rounds, halving_from; try lia. by left.
Qed.

Lemma fake_exponential_u64_inv `{Profile} factor num den v :
  0 < den → fake_exponential_u64 factor num den = Ok v → ∃ acc out,
    checked (E:=never) 64 (factor * den) = Ok acc ∧
    fake_exponential_loop 64 (fake_exponential_fuel 64 num den) num den 1 0 acc = Ok out ∧
    v = out / den.
Proof.
  unfold fake_exponential_u64. intros Hd Hv. apply bind_Ok in Hv as (acc & Hacc & Hv).
  apply bind_Ok in Hv as (out & Hout & Hv). destruct (den =? 0) eqn:E; bool_prop; [lia|].
  exists acc, out. by simplify_eq.
Qed.

(** What the narrow version computes, the wide one computes too. *)
Lemma fake_exponential_agree `{Profile} factor num den v :
  overflow_checks = true → 0 < den < 2 ^ 64 → fake_exponential_u64 factor num den = Ok v →
  fake_exponential_u128 factor num den = Ok v.
Proof.
  intros Hov Hd Hv. apply fake_exponential_u64_inv in Hv as (acc & out & Hacc & Hout & ->); [|lia].
  apply (checked_exact _ _ _ Hov) in Hacc as [-> Hr].
  unfold fake_exponential_u128. decide_bools. rewrite checked_in, bind_Ok_l by lia.
  rewrite (loop_widen Hov 64 128 num den out) with (fuel := fake_exponential_fuel 64 num den);
    try done. unfold fake_exponential_fuel. lia.
Qed.

(** The series starts with the factor. *)
Lemma fake_exponential_u64_ge `{Profile} factor num den v :
  overflow_checks = true → 0 < den → fake_exponential_u64 factor num den = Ok v → factor <= v.
Proof.
  intros Hov Hd Hv. apply fake_exponential_u64_inv in Hv as (acc & out & Hacc & Hout & ->); [|done].
  apply (checked_exact _ _ _ Hov) in Hacc as [-> Hr].
  apply Z.div_le_lower_bound; [done|]. rewrite (Z.mul_comm den).
  destruct (fake_exponential_fuel 64 num den) as [|fuel]; [done|].
  apply (loop_inv Hov) in Hout as [[Ha ->]|(Ha & Ho & Hp & Hd' & Hd0 & Hi & Hl)]; [lia|].
  apply (loop_output_le Hov) in Hl. lia.
Qed.

(** The blob price of EIP-4844.  Both fake exponentials return (or panic on an
    overflow) for every pair of [u64] arguments with a nonzero denominator, the
    [u64] version whenever overflow checks are on; a value that the [u64] version
    of [core] computes is the value the [u128] version of the virtual machine
    computes; and the price never drops when the excess blob gas grows. *)
Theorem fake_exponential_correct (P : Profile) (factor den : Z) :
  0 <= factor < 2 ^ 64 → 0 < den < 2 ^ 64 →
  (∀ num, 0 <= num < 2 ^ 64 → fake_exponential_u128 factor num den ≠ OutOfFuel) ∧
  (overflow_checks = true →
    (∀ num, 0 <= num < 2 ^ 62 → fake_exponential_u64 factor num den ≠ OutOfFuel) ∧
    (∀ num v, 0 <= num < 2 ^ 64 → fake_exponential_u64 factor num den = Ok v →
      fake_exponential_u128 factor num den = Ok v) ∧
    (∀ num num' v v', 0 <= num <= num' →
      fake_exponential_u64 factor num den = Ok v →
      fake_exponential_u64 factor num' den = Ok v' → v <= v')).
Proof.
  intros Hf Hd. split; [intros; by apply fake_exponential_u128_fuel|]. intros Hov. split_and!.
  - intros num Hn. apply fake_exponential_u64_fuel; auto; lia.
  - intros num v Hn Hv. by apply fake_exponential_agree.
  - intros num num' v v' Hn Hv Hv'.
    apply fake_exponential_u64_inv in Hv as (acc & out & Hacc & Hout & ->); [|lia].
    apply fake_exponential_u64_inv in Hv' as (acc' & out' & Hacc' & Hout' & ->); [|lia].
    apply Z.div_le_mono; [lia|]. apply checked_range in Hacc as Hr; [|done].
    eapply (loop_mono Hov 64 num num' den); [lia|lia| | | |exact Hout|exact Hout']; try lia.
    rewrite Hacc in Hacc'. simplify_eq. lia.
Qed.

Lemma fake_exponential_correct_witness :
  fake_exponential_u64 (H:=dev_profile) 1 (2 * 3338477) 3338477 = Ok 7 ∧
  fake_exponential_u128 (H:=dev_profile) 1 (2 * 3338477) 3338477 = Ok 7.
Proof.
  split; [by vm_compute|].
  apply (fake_exponential_correct dev_profile 1 3338477); try lia; by vm_compute.
Defined.
