(* ===== verification/Vm.v ===== *)
(** * LEVM: the virtual machine

    Model of [crates/levm/src]: the constants, the call frame ([call_frame.rs]), the
    block environment ([block.rs]), the database and the interpreter ([vm.rs]).  The
    interpreter keeps the four variables of [VM::execute] as its state; every arm of
    the big [match] is one definition. *)

From S2P Require Import Prelude U256 Opcodes Memory Exponential.

(** ** constants.rs *)
Definition SUCCESS_FOR_CALL : Z := 1.
Definition REVERT_FOR_CALL : Z := 0.
Definition SUCCESS_FOR_RETURN : Z := 1.
Definition TX_BASE_COST : Z := 21000.

Module gas_cost.
Definition ADD : Z := 3.
Definition MUL : Z := 5.
Definition SUB : Z := 3.
Definition DIV : Z := 5.
Definition SDIV : Z := 5.
Definition MOD : Z := 5.
Definition SMOD : Z := 5.
Definition ADDMOD : Z := 8.
Definition MULMOD : Z := 8.
Definition EXP_STATIC : Z := 10.
Definition EXP_DYNAMIC_BASE : Z := 50.
Definition SIGNEXTEND : Z := 5.
Definition LT : Z := 3.
Definition GT : Z := 3.
Definition SLT : Z := 3.
Definition SGT : Z := 3.
Definition EQ : Z := 3.
Definition ISZERO : Z := 3.
Definition AND : Z := 3.
Definition OR : Z := 3.
Definition XOR : Z := 3.
Definition NOT : Z := 3.
Definition BYTE : Z := 3.
Definition SHL : Z := 3.
Definition SHR : Z := 3.
Definition SAR : Z := 3.
Definition KECCAK25_STATIC : Z := 30.
Definition KECCAK25_DYNAMIC_BASE : Z := 6.
Definition CALLDATALOAD : Z := 3.
Definition CALLDATASIZE : Z := 2.
Definition CALLDATACOPY_STATIC : Z := 3.
Definition CALLDATACOPY_DYNAMIC_BASE : Z := 3.
Definition RETURNDATASIZE : Z := 2.
Definition RETURNDATACOPY_STATIC : Z := 3.
Definition RETURNDATACOPY_DYNAMIC_BASE : Z := 3.
Definition BLOCKHASH : Z := 20.
Definition COINBASE : Z := 2.
Definition TIMESTAMP : Z := 2.
Definition NUMBER : Z := 2.
Definition PREVRANDAO : Z := 2.
Definition GASLIMIT : Z := 2.
Definition CHAINID : Z := 2.
Definition SELFBALANCE : Z := 5.
Definition BASEFEE : Z := 2.
Definition BLOBHASH : Z := 3.
Definition BLOBBASEFEE : Z := 2.
Definition POP : Z := 2.
Definition MLOAD_STATIC : Z := 3.
Definition MSTORE_STATIC : Z := 3.
Definition MSTORE8_STATIC : Z := 3.
Definition JUMP : Z := 8.
Definition JUMPI : Z := 10.
Definition PC : Z := 2.
Definition MSIZE : Z := 2.
Definition GAS : Z := 2.
Definition JUMPDEST : Z := 1.
Definition TLOAD : Z := 100.
Definition TSTORE : Z := 100.
Definition MCOPY_STATIC : Z := 3.
Definition MCOPY_DYNAMIC_BASE : Z := 3.
Definition PUSH0 : Z := 2.
Definition PUSHN : Z := 3.
Definition DUPN : Z := 3.
Definition SWAPN : Z := 3.
Definition LOGN_STATIC : Z := 375.
Definition LOGN_DYNAMIC_BASE : Z := 375.
Definition LOGN_DYNAMIC_BYTE_BASE : Z := 8.
End gas_cost.

Module call_opcode.
Definition WARM_ADDRESS_ACCESS_COST : Z := 100.
Definition COLD_ADDRESS_ACCESS_COST : Z := 2600.
Definition NON_ZERO_VALUE_COST : Z := 9000.
Definition BASIC_FALLBACK_FUNCTION_STIPEND : Z := 2300.
Definition VALUE_TO_EMPTY_ACCOUNT_COST : Z := 25000.
End call_opcode.

(** Unfolds the prices. *)
Create HintDb gas.
#[export] Hint Unfold
  gas_cost.ADD gas_cost.MUL gas_cost.SUB gas_cost.DIV gas_cost.SDIV gas_cost.MOD gas_cost.SMOD
  gas_cost.ADDMOD gas_cost.MULMOD gas_cost.EXP_STATIC gas_cost.EXP_DYNAMIC_BASE
  gas_cost.SIGNEXTEND gas_cost.LT gas_cost.GT gas_cost.SLT gas_cost.SGT gas_cost.EQ
  gas_cost.ISZERO gas_cost.AND gas_cost.OR gas_cost.XOR gas_cost.NOT gas_cost.BYTE gas_cost.SHL
  gas_cost.SHR gas_cost.SAR gas_cost.KECCAK25_STATIC gas_cost.KECCAK25_DYNAMIC_BASE
  gas_cost.CALLDATALOAD gas_cost.CALLDATASIZE gas_cost.CALLDATACOPY_STATIC
  gas_cost.CALLDATACOPY_DYNAMIC_BASE gas_cost.RETURNDATASIZE gas_cost.RETURNDATACOPY_STATIC
  gas_cost.RETURNDATACOPY_DYNAMIC_BASE gas_cost.BLOCKHASH gas_cost.COINBASE gas_cost.TIMESTAMP
  gas_cost.NUMBER gas_cost.PREVRANDAO gas_cost.GASLIMIT gas_cost.CHAINID gas_cost.SELFBALANCE
  gas_cost.BASEFEE gas_cost.BLOBHASH gas_cost.BLOBBASEFEE gas_cost.POP gas_cost.MLOAD_STATIC
  gas_cost.MSTORE_STATIC gas_cost.MSTORE8_STATIC gas_cost.JUMP gas_cost.JUMPI gas_cost.PC
  gas_cost.MSIZE gas_cost.GAS gas_cost.JUMPDEST gas_cost.TLOAD gas_cost.TSTORE
  gas_cost.MCOPY_STATIC gas_cost.MCOPY_DYNAMIC_BASE gas_cost.PUSH0 gas_cost.PUSHN gas_cost.DUPN
  gas_cost.SWAPN gas_cost.LOGN_STATIC gas_cost.LOGN_DYNAMIC_BASE
  gas_cost.LOGN_DYNAMIC_BYTE_BASE call_opcode.WARM_ADDRESS_ACCESS_COST
  call_opcode.COLD_ADDRESS_ACCESS_COST call_opcode.NON_ZERO_VALUE_COST
  call_opcode.BASIC_FALLBACK_FUNCTION_STIPEND call_opcode.VALUE_TO_EMPTY_ACCOUNT_COST WORD_SIZE : gas.

(** ** block.rs *)
Definition LAST_AVAILABLE_BLOCK_LIMIT : Z := 256.
Definition MIN_BLOB_GASPRICE : Z := 1.
Definition BLOB_GASPRICE_UPDATE_FRACTION : Z := 3338477.
Definition GAS_PER_BLOB : Z := Z.shiftl 1 17.
Definition TARGET_BLOB_NUMBER_PER_BLOCK : Z := 3.
Definition TARGET_BLOB_GAS_PER_BLOCK : Z := TARGET_BLOB_NUMBER_PER_BLOCK * GAS_PER_BLOB.

(** Addresses and hashes are the lists of their 20 and 32 bytes. *)
Definition Address : Type := list Z.
Definition zero_address : Address := replicate 20 0.
#[export] Instance Address_eq_dec : EqDecision Address := _.
#[export] Instance Address_countable : Countable Address := _.
(** [Address::from_low_u64_be]. *)
Definition from_low_u64_be (x : Z) : Address := replicate 12 0 ++ to_be 8 x.

Module BlockEnv.
Record t := mk {
  number : Z;
  coinbase : Address;
  timestamp : Z;
  base_fee_per_gas : Z;
  gas_limit : Z;
  chain_id : Z;
  prev_randao : option (list Z);
  excess_blob_gas : option Z;
  blob_gas_used : option Z
}.
Definition Default : t := mk 0 zero_address 0 0 0 0 None None None.

Definition calc_excess_blob_gas `{Profile} (self : t) : pres Z :=
  s ← uadd (default 0 (excess_blob_gas self)) (default 0 (blob_gas_used self));
  Ok (Z.max 0 (s - TARGET_BLOB_GAS_PER_BLOCK)).

Definition calculate_blob_gas_price `{Profile} (self : t) : pres Z :=
  excess_blob_gas ← calc_excess_blob_gas self;
  fake_exponential_u128 MIN_BLOB_GASPRICE excess_blob_gas BLOB_GASPRICE_UPDATE_FRACTION.
End BlockEnv.

(** ** call_frame.rs *)
Definition TransientStorage : Type := gmap (Address * Z) Z.

Record Log := mkLog { log_address : Address; topics : list (list Z); log_data : list Z }.

(** The stack is a [Vec] whose last element is the top; here the top is the head. *)
Module CallFrame.
Record t := mk {
  gas : Z;
  pc : Z;
  msg_sender : Address;
  to : Address;
  code_address : Address;
  delegate : option Address;
  bytecode : list Z;
  msg_value : Z;
  stack : list Z;
  memory : Memory;
  calldata : list Z;
  returndata : list Z;
  return_data_offset : option Z;
  return_data_size : option Z;
  is_static : bool;
  transient_storage : TransientStorage;
  logs : list Log
}.

Definition new (gas : Z) (msg_sender to code_address : Address) (delegate : option Address)
    (bytecode : list Z) (msg_value : Z) (calldata : list Z) (is_static : bool) : t :=
  mk gas 0 msg_sender to code_address delegate bytecode msg_value [] Memory.new calldata []
     None None is_static ∅ [].
Definition new_from_bytecode (bytecode : list Z) : t :=
  new 0 zero_address zero_address zero_address None bytecode 0 [] false.

(** Assignments to one field. *)
Definition set_pc (v : Z) (f : t) : t :=
  mk (gas f) v (msg_sender f) (to f) (code_address f) (delegate f) (bytecode f) (msg_value f)
     (stack f) (memory f) (calldata f) (returndata f) (return_data_offset f)
     (return_data_size f) (is_static f) (transient_storage f) (logs f).
Definition set_stack (v : list Z) (f : t) : t :=
  mk (gas f) (pc f) (msg_sender f) (to f) (code_address f) (delegate f) (bytecode f)
     (msg_value f) v (memory f) (calldata f) (returndata f) (return_data_offset f)
     (return_data_size f) (is_static f) (transient_storage f) (logs f).
Definition set_memory (v : Memory) (f : t) : t :=
  mk (gas f) (pc f) (msg_sender f) (to f) (code_address f) (delegate f) (bytecode f)
     (msg_value f) (stack f) v (calldata f) (returndata f) (return_data_offset f)
     (return_data_size f) (is_static f) (transient_storage f) (logs f).
Definition set_returndata (v : list Z) (f : t) : t :=
  mk (gas f) (pc f) (msg_sender f) (to f) (code_address f) (delegate f) (bytecode f)
     (msg_value f) (stack f) (memory f) (calldata f) v (return_data_offset f)
     (return_data_size f) (is_static f) (transient_storage f) (logs f).
Definition set_transient_storage (v : TransientStorage) (f : t) : t :=
  mk (gas f) (pc f) (msg_sender f) (to f) (code_address f) (delegate f) (bytecode f)
     (msg_value f) (stack f) (memory f) (calldata f) (returndata f) (return_data_offset f)
     (return_data_size f) (is_static f) v (logs f).
Definition set_logs (v : list Log) (f : t) : t :=
  mk (gas f) (pc f) (msg_sender f) (to f) (code_address f) (delegate f) (bytecode f)
     (msg_value f) (stack f) (memory f) (calldata f) (returndata f) (return_data_offset f)
     (return_data_size f) (is_static f) (transient_storage f) v.
Definition set_return_data (offset size : option Z) (f : t) : t :=
  mk (gas f) (pc f) (msg_sender f) (to f) (code_address f) (delegate f) (bytecode f)
     (msg_value f) (stack f) (memory f) (calldata f) (returndata f) offset size (is_static f)
     (transient_storage f) (logs f).

Section Ops.
Context `{Profile}.

Definition opcode_at (self : t) (offset : Z) : pres (option Opcode.t) :=
  match bytecode self !! Z.to_nat offset with
  | Some b => op ← Opcode.from b; Ok (Some op)
  | None => Ok None
  end.

Definition increment_pc_by (self : t) (count : Z) : pres t :=
  pc ← uadd (pc self) count; Ok (set_pc pc self).
Definition increment_pc (self : t) : pres t := increment_pc_by self 1.

Definition next_opcode (self : t) : pres (option Opcode.t * t) :=
  opcode ← opcode_at self (pc self);
  self ← increment_pc self;
  Ok (opcode, self).

Definition valid_jump (self : t) (jump_address : Z) : pres bool :=
  offset ← U256.as_usize jump_address;
  opcode ← opcode_at self offset;
  Ok (match opcode with Some opcode => bool_decide (opcode = Opcode.JUMPDEST) | None => false end).

Definition jump (self : t) (jump_address : Z) : pres t :=
  valid ← valid_jump self jump_address;
  if negb valid then Panic
  else pc ← U256.as_usize jump_address; Ok (set_pc pc self).
End Ops.
End CallFrame.

(** ** vm.rs: accounts and database *)
Record StorageSlot := mkSlot { original_value : Z; current_value : Z }.
Definition StorageSlot_default : StorageSlot := mkSlot 0 0.

Module Account.
Record t := mk {
  balance : Z;
  bytecode : list Z;
  nonce : Z;
  storage : gmap Z StorageSlot
}.
Definition Default : t := mk 0 [] 0 ∅.
Definition new (balance : Z) (bytecode : list Z) : t := mk balance bytecode 0 ∅.
Definition is_empty (self : t) : bool :=
  (balance self =? 0) && (nonce self =? 0) && bool_decide (bytecode self = []).
Definition set_storage (v : gmap Z StorageSlot) (self : t) : t :=
  mk (balance self) (bytecode self) (nonce self) v.
End Account.

Module Db.
Record t := mk { accounts : gmap Address Account.t; block_hashes : gmap Z (list Z) }.
Definition Default : t := mk ∅ ∅.

Definition read_account_storage (self : t) (address : Address) (key : Z) : option StorageSlot :=
  account ← accounts self !! address; Account.storage account !! key.

(** [entry(address).or_default().storage.insert(key, slot)]. *)
Definition write_account_storage (self : t) (address : Address) (key : Z) (slot : StorageSlot) : t :=
  let account := default Account.Default (accounts self !! address) in
  mk (<[address := Account.set_storage (<[key := slot]> (Account.storage account)) account]>
        (accounts self))
     (block_hashes self).

Definition get_account_bytecode (self : t) (address : Address) : list Z :=
  match accounts self !! address with Some acc => Account.bytecode acc | None => [] end.
Definition balance (self : t) (address : Address) : Z :=
  match accounts self !! address with Some acc => Account.balance acc | None => 0 end.
Definition add_account (self : t) (address : Address) (account : Account.t) : t :=
  mk (<[address := account]> (accounts self)) (block_hashes self).
End Db.

(** ** vm.rs: the machine *)
Module VM.
(** The last element of the [Vec] of call frames is the head of the list. *)
Record t := mk {
  call_frames : list CallFrame.t;
  block_env : BlockEnv.t;
  db : Db.t;
  gas_limit : Z;
  consumed_gas : Z;
  warm_addresses : gset Address
}.

Definition set_call_frames (v : list CallFrame.t) (self : t) : t :=
  mk v (block_env self) (db self) (gas_limit self) (consumed_gas self) (warm_addresses self).
Definition set_db (v : Db.t) (self : t) : t :=
  mk (call_frames self) (block_env self) v (gas_limit self) (consumed_gas self)
     (warm_addresses self).
Definition set_consumed_gas (v : Z) (self : t) : t :=
  mk (call_frames self) (block_env self) (db self) (gas_limit self) v (warm_addresses self).
Definition set_warm_addresses (v : gset Address) (self : t) : t :=
  mk (call_frames self) (block_env self) (db self) (gas_limit self) (consumed_gas self) v.

(** [i64::MAX as u64]. *)
Definition new (bytecode : list Z) (address : Address) (balance : Z) : t :=
  let initial_account := Account.new balance bytecode in
  let initial_call_frame := CallFrame.new_from_bytecode bytecode in
  let db := Db.mk (<[address := initial_account]> ∅) ∅ in
  mk [initial_call_frame] BlockEnv.Default db (2 ^ 63 - 1) TX_BASE_COST {[address]}.
End VM.

(** [is_negative] and [negate]; the [+] of [negate] panics when the operand is 0. *)
Definition is_negative (value : Z) : pres bool := U256.bit value 255.
Definition negate (value : Z) : pres Z := U256.add (U256.not value) 1.
(** The hexadecimal text of the address, parsed back as a number. *)
Definition address_to_word (address : Address) : Z := of_be address.

Definition arithmetic_shift_right `{Profile} (value shift : Z) : pres Z :=
  shift_usize ← unwrap (U256.try_into_usize shift);
  neg ← U256.bit value 255;
  if neg : bool then
    let shifted := U256.shr value shift_usize in
    n ← usub 256 shift_usize;
    let mask := U256.shl U256_MAX n in
    Ok (Z.lor shifted mask)
  else Ok (U256.shr value shift_usize).

(** ** vm.rs: the interpreter

    [self], [tx_env], [block_env] and [current_call_frame] are the variables that
    [VM::execute] works on. *)
Record State := mkState {
  self : VM.t;
  tx_env : VM.t;
  block_env : BlockEnv.t;
  frame : CallFrame.t
}.

(** How a piece of the loop body ends: it falls through with a value, it reaches a
    [continue] or a [break], or it panics. *)
Inductive flow (A : Type) :=
  | Next (a : A) (s : State)
  | Continue (s : State)
  | Break (s : State)
  | Panics
  | NoFuel.
Arguments Next {A}.
Arguments Continue {A}.
Arguments Break {A}.
Arguments Panics {A}.
Arguments NoFuel {A}.

Definition M (A : Type) : Type := State → flow A.
#[export] Instance M_ret : MRet M := λ A a s, Next a s.
#[export] Instance M_bind : MBind M := λ A B f m s,
  match m s with
  | Next a s => f a s
  | Continue s => Continue s
  | Break s => Break s
  | Panics => Panics
  | NoFuel => NoFuel
  end.

Section Interp.
Context `{Profile}.
(** [sha3::Keccak256], as a function from the bytes fed to it to the digest. *)
Context (keccak256 : list Z → list Z).

(** *** Access to the variables *)
Definition lift {A} (m : pres A) : M A := λ s,
  match m with
  | Ok a => Next a s
  | Err e => match e with end
  | Panic => Panics
  | OutOfFuel => NoFuel
  end.
Definition panic {A} : M A := λ _, Panics.
Definition break {A} : M A := λ s, Break s.
Definition continue {A} : M A := λ s, Continue s.

Definition get_frame : M CallFrame.t := λ s, Next (frame s) s.
Definition set_frame (f : CallFrame.t) : M unit := λ s,
  Next tt (mkState (self s) (tx_env s) (block_env s) f).
Definition get_self : M VM.t := λ s, Next (self s) s.
Definition set_self (v : VM.t) : M unit := λ s,
  Next tt (mkState v (tx_env s) (block_env s) (frame s)).
Definition get_block_env : M BlockEnv.t := λ s, Next (block_env s) s.
Definition get_tx_env : M VM.t := λ s, Next (tx_env s) s.
Definition set_tx_env (v : VM.t) : M unit := λ s,
  Next tt (mkState (self s) v (block_env s) (frame s)).

(** [current_call_frame.stack.pop().unwrap()] and [.push(x)]. *)
Definition pop : M Z :=
  f ← get_frame;
  match CallFrame.stack f with
  | x :: stack => _ ← set_frame (CallFrame.set_stack stack f); mret x
  | [] => panic
  end.
Definition push (x : Z) : M unit :=
  f ← get_frame; set_frame (CallFrame.set_stack (x :: CallFrame.stack f) f).
(** [pop().unwrap().try_into().unwrap()] at type [usize]. *)
Definition pop_usize : M Z := x ← pop; lift (unwrap (U256.try_into_usize x)).

(** [if tx_env.consumed_gas + cost > tx_env.gas_limit { break; }]. *)
Definition check_gas (cost : Z) : M unit :=
  t ← get_tx_env;
  total ← lift (uadd (VM.consumed_gas t) cost);
  if VM.gas_limit t <? total then break else mret tt.
(** [tx_env.consumed_gas += cost]. *)
Definition charge (cost : Z) : M unit :=
  t ← get_tx_env;
  total ← lift (uadd (VM.consumed_gas t) cost);
  set_tx_env (VM.set_consumed_gas total t).

Definition set_memory (m : Memory) : M unit :=
  f ← get_frame; set_frame (CallFrame.set_memory m f).
Definition mem_expansion_cost (n : Z) : M Z :=
  f ← get_frame; lift (Memory.expansion_cost (CallFrame.memory f) n).
Definition mem_load_range (offset size : Z) : M (list Z) :=
  f ← get_frame;
  '(bytes, m) ← lift (Memory.load_range (CallFrame.memory f) offset size);
  _ ← set_memory m; mret bytes.
Definition mem_load (offset : Z) : M Z :=
  f ← get_frame;
  '(value, m) ← lift (Memory.load (CallFrame.memory f) offset);
  _ ← set_memory m; mret value.
Definition mem_store_bytes (offset : Z) (value : list Z) : M unit :=
  f ← get_frame; m ← lift (Memory.store_bytes (CallFrame.memory f) offset value); set_memory m.
(** [(size + WORD_SIZE - 1) / WORD_SIZE]. *)
Definition word_count (size : Z) : M Z :=
  a ← lift (uadd size WORD_SIZE); b ← lift (usub a 1); mret (b / WORD_SIZE).

(** *** Stop and arithmetic *)
Definition op_STOP : M unit := break.

Definition op_ADD : M unit :=
  _ ← check_gas gas_cost.ADD;
  augend ← pop; addend ← pop;
  let sum := (U256.overflowing_add augend addend).1 in
  _ ← push sum; charge gas_cost.ADD.

Definition op_MUL : M unit :=
  _ ← check_gas gas_cost.MUL;
  multiplicand ← pop; multiplier ← pop;
  let product := (U256.overflowing_mul multiplicand multiplier).1 in
  _ ← push product; charge gas_cost.MUL.

Definition op_SUB : M unit :=
  _ ← check_gas gas_cost.SUB;
  minuend ← pop; subtrahend ← pop;
  let difference := (U256.overflowing_sub minuend subtrahend).1 in
  _ ← push difference; charge gas_cost.SUB.

Definition op_DIV : M unit :=
  _ ← check_gas gas_cost.DIV;
  dividend ← pop; divisor ← pop;
  if divisor =? 0 then _ ← push 0; continue
  else
    quotient ← lift (U256.div dividend divisor);
    _ ← push quotient; charge gas_cost.DIV.

(** The value that SDIV pushes when the divisor is not zero. *)
Definition sdiv_value (dividend divisor : Z) : pres Z :=
  dividend_is_negative ← is_negative dividend;
  divisor_is_negative ← is_negative divisor;
  dividend ← (if dividend_is_negative : bool then negate dividend else Ok dividend);
  divisor ← (if divisor_is_negative : bool then negate divisor else Ok divisor);
  quotient ← U256.div dividend divisor;
  if xorb dividend_is_negative divisor_is_negative then negate quotient else Ok quotient.
Definition op_SDIV : M unit :=
  _ ← check_gas gas_cost.SDIV;
  dividend ← pop; divisor ← pop;
  if divisor =? 0 then _ ← push 0; continue
  else
    quotient ← lift (sdiv_value dividend divisor);
    _ ← push quotient; charge gas_cost.SDIV.

Definition op_MOD : M unit :=
  _ ← check_gas gas_cost.MOD;
  dividend ← pop; divisor ← pop;
  if divisor =? 0 then _ ← push 0; continue
  else
    remainder ← lift (U256.rem dividend divisor);
    _ ← push remainder; charge gas_cost.MOD.

(** The value that SMOD pushes when the divisor is not zero. *)
Definition smod_value (dividend divisor : Z) : pres Z :=
  dividend_is_negative ← is_negative dividend;
  divisor_is_negative ← is_negative divisor;
  dividend ← (if dividend_is_negative : bool then negate dividend else Ok dividend);
  divisor ← (if divisor_is_negative : bool then negate divisor else Ok divisor);
  remainder ← U256.rem dividend divisor;
  if xorb dividend_is_negative divisor_is_negative then negate remainder else Ok remainder.
Definition op_SMOD : M unit :=
  _ ← check_gas gas_cost.SMOD;
  dividend ← pop; divisor ← pop;
  if divisor =? 0 then _ ← push 0; continue
  else
    remainder ← lift (smod_value dividend divisor);
    _ ← push remainder; charge gas_cost.SMOD.

(** The value that ADDMOD pushes when the divisor is not zero. *)
Definition addmod_value (augend addend divisor : Z) : pres Z :=
  let '(sum, overflow) := U256.overflowing_add augend addend in
  remainder ← U256.rem sum divisor;
  if overflow || (divisor <? remainder)
  then Ok (U256.overflowing_sub remainder divisor).1 else Ok remainder.
Definition op_ADDMOD : M unit :=
  _ ← check_gas gas_cost.ADDMOD;
  augend ← pop; addend ← pop; divisor ← pop;
  if divisor =? 0 then _ ← push 0; continue
  else
    remainder ← lift (addmod_value augend addend divisor);
    _ ← push remainder; charge gas_cost.ADDMOD.

(** The value that MULMOD pushes when the divisor is not zero: computed on [U512],
    then the four low words are written out as 32 little-endian bytes, reversed and
    read back as a big-endian number. *)
Definition mulmod_value (multiplicand multiplier divisor : Z) : pres Z :=
  let product := (multiplicand * multiplier) mod U512_MOD in
  let overflow := U512_MOD <=? multiplicand * multiplier in
  remainder ← (if divisor =? 0 then Panic else Ok (product mod divisor));
  let remainder := if overflow || (divisor <? remainder)
                   then (remainder - divisor) mod U512_MOD else remainder in
  let words := (λ i, (remainder / 2 ^ (64 * i)) mod 2 ^ 64) <$> seqZ 0 4 in
  let result := concat ((λ word, rev (to_be 8 word)) <$> words) in
  Ok (of_be (rev result)).
Definition op_MULMOD : M unit :=
  _ ← check_gas gas_cost.MULMOD;
  multiplicand ← pop; multiplier ← pop; divisor ← pop;
  if divisor =? 0 then _ ← push 0; continue
  else
    remainder ← lift (mulmod_value multiplicand multiplier divisor);
    _ ← push remainder; charge gas_cost.MULMOD.

Definition op_EXP : M unit :=
  base ← pop; exponent ← pop;
  let exponent_byte_size := (U256.bits exponent + 7) / 8 in
  dynamic ← lift (umul gas_cost.EXP_DYNAMIC_BASE exponent_byte_size);
  gas_cost ← lift (uadd gas_cost.EXP_STATIC dynamic);
  _ ← check_gas gas_cost;
  let power := U256.wrapping_pow base exponent in
  _ ← push power; charge gas_cost.

(** The value that SIGNEXTEND pushes. *)
Definition signextend_value (byte_size value_to_extend : Z) : pres Z :=
  let byte_size := Z.min byte_size 31 in
  p ← U256.mul 8 byte_size;
  sign_bit_index ← U256.add p 7;
  i ← U256.as_usize sign_bit_index;
  is_negative ← U256.bit value_to_extend i;
  sign_bit_mask ← U256.sub (U256.shl 1 sign_bit_index) 1;
  if is_negative : bool then Ok (Z.lor value_to_extend (U256.not sign_bit_mask))
  else Ok (Z.land value_to_extend sign_bit_mask).
Definition op_SIGNEXTEND : M unit :=
  _ ← check_gas gas_cost.SIGNEXTEND;
  byte_size ← pop; value_to_extend ← pop;
  result ← lift (signextend_value byte_size value_to_extend);
  _ ← push result; charge gas_cost.SIGNEXTEND.

(** *** Comparison and bitwise logic *)
Definition op_LT : M unit :=
  _ ← check_gas gas_cost.LT;
  lho ← pop; rho ← pop;
  let result := if lho <? rho then 1 else 0 in
  _ ← push result; charge gas_cost.LT.

Definition op_GT : M unit :=
  _ ← check_gas gas_cost.GT;
  lho ← pop; rho ← pop;
  let result := if rho <? lho then 1 else 0 in
  _ ← push result; charge gas_cost.GT.

Definition slt_value (lho rho : Z) : pres Z :=
  lho_is_negative ← U256.bit lho 255;
  rho_is_negative ← U256.bit rho 255;
  Ok (if eqb lho_is_negative rho_is_negative then (if lho <? rho then 1 else 0)
      else if lho_is_negative : bool then 1 else 0).
Definition op_SLT : M unit :=
  _ ← check_gas gas_cost.SLT;
  lho ← pop; rho ← pop;
  result ← lift (slt_value lho rho);
  _ ← push result; charge gas_cost.SLT.

Definition sgt_value (lho rho : Z) : pres Z :=
  lho_is_negative ← U256.bit lho 255;
  rho_is_negative ← U256.bit rho 255;
  Ok (if eqb lho_is_negative rho_is_negative then (if rho <? lho then 1 else 0)
      else if rho_is_negative : bool then 1 else 0).
Definition op_SGT : M unit :=
  _ ← check_gas gas_cost.SGT;
  lho ← pop; rho ← pop;
  result ← lift (sgt_value lho rho);
  _ ← push result; charge gas_cost.SGT.

Definition op_EQ : M unit :=
  _ ← check_gas gas_cost.EQ;
  lho ← pop; rho ← pop;
  let result := if lho =? rho then 1 else 0 in
  _ ← push result; charge gas_cost.EQ.

Definition op_ISZERO : M unit :=
  _ ← check_gas gas_cost.ISZERO;
  operand ← pop;
  let result := if operand =? 0 then 1 else 0 in
  _ ← push result; charge gas_cost.ISZERO.

Definition op_AND : M unit :=
  _ ← check_gas gas_cost.AND;
  a ← pop; b ← pop; _ ← push (Z.land a b); charge gas_cost.AND.
Definition op_OR : M unit :=
  _ ← check_gas gas_cost.OR;
  a ← pop; b ← pop; _ ← push (Z.lor a b); charge gas_cost.OR.
Definition op_XOR : M unit :=
  _ ← check_gas gas_cost.XOR;
  a ← pop; b ← pop; _ ← push (Z.lxor a b); charge gas_cost.XOR.
Definition op_NOT : M unit :=
  _ ← check_gas gas_cost.NOT;
  a ← pop; _ ← push (U256.not a); charge gas_cost.NOT.

Definition byte_value (op1 op2 : Z) : pres Z :=
  let byte_index := default (2 ^ 64 - 1) (U256.try_into_usize op1) in
  if byte_index <? WORD_SIZE then U256.byte op2 (WORD_SIZE - 1 - byte_index) else Ok 0.
Definition op_BYTE : M unit :=
  _ ← check_gas gas_cost.BYTE;
  op1 ← pop; op2 ← pop;
  result ← lift (byte_value op1 op2);
  _ ← push result; charge gas_cost.BYTE.

Definition op_SHL : M unit :=
  _ ← check_gas gas_cost.SHL;
  shift ← pop; value ← pop;
  _ ← push (if shift <? 256 then U256.shl value shift else 0);
  charge gas_cost.SHL.
Definition op_SHR : M unit :=
  _ ← check_gas gas_cost.SHR;
  shift ← pop; value ← pop;
  _ ← push (if shift <? 256 then U256.shr value shift else 0);
  charge gas_cost.SHR.

Definition sar_value (shift value : Z) : pres Z :=
  if shift <? 256 then arithmetic_shift_right value shift
  else neg ← U256.bit value 255; Ok (if neg : bool then U256_MAX else 0).
Definition op_SAR : M unit :=
  _ ← check_gas gas_cost.SAR;
  shift ← pop; value ← pop;
  res ← lift (sar_value shift value);
  _ ← push res; charge gas_cost.SAR.

(** *** Hashing, call data and return data *)
Definition op_KECCAK256 : M unit :=
  offset ← pop_usize; size ← pop_usize;
  minimum_word_size ← word_count size;
  e ← lift (uadd offset size);
  memory_expansion_cost ← mem_expansion_cost e;
  dynamic ← lift (umul gas_cost.KECCAK25_DYNAMIC_BASE minimum_word_size);
  c ← lift (uadd gas_cost.KECCAK25_STATIC dynamic);
  gas_cost ← lift (uadd c memory_expansion_cost);
  _ ← check_gas gas_cost;
  value_bytes ← mem_load_range offset size;
  _ ← push (of_be (keccak256 value_bytes));
  charge gas_cost.

Definition op_CALLDATALOAD : M unit :=
  _ ← check_gas gas_cost.CALLDATALOAD;
  offset ← pop_usize;
  f ← get_frame;
  e ← lift (uadd offset 32);
  bytes ← lift (slice (CallFrame.calldata f) offset e);
  _ ← push (of_be bytes);
  charge gas_cost.CALLDATALOAD.

Definition op_CALLDATASIZE : M unit :=
  _ ← check_gas gas_cost.CALLDATASIZE;
  f ← get_frame;
  _ ← push (zlen (CallFrame.calldata f));
  charge gas_cost.CALLDATASIZE.

Definition op_CALLDATACOPY : M unit :=
  dest_offset ← pop_usize; calldata_offset ← pop_usize; size ← pop_usize;
  minimum_word_size ← word_count size;
  e ← lift (uadd dest_offset size);
  memory_expansion_cost ← mem_expansion_cost e;
  dynamic ← lift (umul gas_cost.CALLDATACOPY_DYNAMIC_BASE minimum_word_size);
  c ← lift (uadd gas_cost.CALLDATACOPY_STATIC dynamic);
  gas_cost ← lift (uadd c memory_expansion_cost);
  _ ← check_gas gas_cost;
  _ ← charge gas_cost;
  if size =? 0 then continue
  else
    f ← get_frame;
    data_end ← lift (uadd calldata_offset size);
    data ← lift (slice (CallFrame.calldata f) calldata_offset data_end);
    mem_store_bytes dest_offset data.

Definition op_RETURNDATASIZE : M unit :=
  _ ← check_gas gas_cost.RETURNDATASIZE;
  f ← get_frame;
  _ ← push (zlen (CallFrame.returndata f));
  charge gas_cost.RETURNDATASIZE.

Definition op_RETURNDATACOPY : M unit :=
  dest_offset ← pop_usize; returndata_offset ← pop_usize; size ← pop_usize;
  minimum_word_size ← word_count size;
  e ← lift (uadd dest_offset size);
  memory_expansion_cost ← mem_expansion_cost e;
  dynamic ← lift (umul gas_cost.RETURNDATACOPY_DYNAMIC_BASE minimum_word_size);
  c ← lift (uadd gas_cost.RETURNDATACOPY_STATIC dynamic);
  gas_cost ← lift (uadd c memory_expansion_cost);
  _ ← check_gas gas_cost;
  _ ← charge gas_cost;
  if size =? 0 then continue
  else
    f ← get_frame;
    data_end ← lift (uadd returndata_offset size);
    data ← lift (slice (CallFrame.returndata f) returndata_offset data_end);
    mem_store_bytes dest_offset data.

(** *** Control flow *)
Definition frame_jump (jump_address : Z) : M unit :=
  f ← get_frame; f ← lift (CallFrame.jump f jump_address); set_frame f.

Definition op_JUMP : M unit :=
  _ ← check_gas gas_cost.JUMP;
  jump_address ← pop;
  _ ← frame_jump jump_address;
  charge gas_cost.JUMP.

Definition op_JUMPI : M unit :=
  _ ← check_gas gas_cost.JUMPI;
  jump_address ← pop; condition ← pop;
  _ ← (if negb (condition =? 0) then frame_jump jump_address else mret tt);
  charge gas_cost.JUMPI.

Definition op_JUMPDEST : M unit :=
  _ ← check_gas gas_cost.JUMPDEST; charge gas_cost.JUMPDEST.

Definition op_PC : M unit :=
  _ ← check_gas gas_cost.PC;
  f ← get_frame;
  pc ← lift (usub (CallFrame.pc f) 1);
  _ ← push pc;
  charge gas_cost.PC.

(** *** Block information *)
Definition op_BLOCKHASH : M unit :=
  _ ← check_gas gas_cost.BLOCKHASH;
  block_number ← pop;
  _ ← charge gas_cost.BLOCKHASH;
  v ← get_self;
  let number := BlockEnv.number (VM.block_env v) in
  if (block_number <? U256.saturating_sub number LAST_AVAILABLE_BLOCK_LIMIT)
     || (number <=? block_number)
  then _ ← push 0; continue
  else
    match Db.block_hashes (VM.db v) !! block_number with
    | Some block_hash => push (of_be block_hash)
    | None => push 0
    end.

Definition op_COINBASE : M unit :=
  _ ← check_gas gas_cost.COINBASE;
  b ← get_block_env; _ ← push (address_to_word (BlockEnv.coinbase b)); charge gas_cost.COINBASE.
Definition op_TIMESTAMP : M unit :=
  _ ← check_gas gas_cost.TIMESTAMP;
  b ← get_block_env; _ ← push (BlockEnv.timestamp b); charge gas_cost.TIMESTAMP.
Definition op_NUMBER : M unit :=
  _ ← check_gas gas_cost.NUMBER;
  b ← get_block_env; _ ← push (BlockEnv.number b); charge gas_cost.NUMBER.
Definition op_PREVRANDAO : M unit :=
  _ ← check_gas gas_cost.PREVRANDAO;
  b ← get_block_env;
  let randao := default (replicate 32 0) (BlockEnv.prev_randao b) in
  _ ← push (of_be randao); charge gas_cost.PREVRANDAO.
Definition op_GASLIMIT : M unit :=
  _ ← check_gas gas_cost.GASLIMIT;
  b ← get_block_env; _ ← push (BlockEnv.gas_limit b); charge gas_cost.GASLIMIT.
Definition op_CHAINID : M unit :=
  _ ← check_gas gas_cost.CHAINID;
  b ← get_block_env; _ ← push (BlockEnv.chain_id b); charge gas_cost.CHAINID.
(** [todo!] panics. *)
Definition op_SELFBALANCE : M unit :=
  _ ← check_gas gas_cost.SELFBALANCE; _ ← charge gas_cost.SELFBALANCE; panic.
Definition op_BASEFEE : M unit :=
  _ ← check_gas gas_cost.BASEFEE;
  b ← get_block_env; _ ← push (BlockEnv.base_fee_per_gas b); charge gas_cost.BASEFEE.
Definition op_BLOBHASH : M unit :=
  _ ← check_gas gas_cost.BLOBHASH; _ ← charge gas_cost.BLOBHASH; panic.
Definition op_BLOBBASEFEE : M unit :=
  _ ← check_gas gas_cost.BLOBBASEFEE;
  b ← get_block_env;
  blob_base_fee ← lift (BlockEnv.calculate_blob_gas_price b);
  _ ← push blob_base_fee; charge gas_cost.BLOBBASEFEE.

(** *** Stack *)
Definition op_PUSH0 : M unit :=
  _ ← check_gas gas_cost.PUSH0; _ ← push 0; charge gas_cost.PUSH0.

(** The bytes after the opcode are pushed as a big-endian number. *)
Definition push_immediate (n_bytes : Z) : M unit :=
  _ ← check_gas gas_cost.PUSHN;
  f ← get_frame;
  e ← lift (uadd (CallFrame.pc f) n_bytes);
  next_n_bytes ← lift (slice (CallFrame.bytecode f) (CallFrame.pc f) e);
  let value_to_push := of_be next_n_bytes in
  _ ← push value_to_push;
  f ← get_frame;
  f ← lift (CallFrame.increment_pc_by f n_bytes);
  _ ← set_frame f;
  charge gas_cost.PUSHN.
Definition op_PUSHN (op : Opcode.t) : M unit :=
  push_immediate (Opcode.to_u8 op - Opcode.to_u8 Opcode.PUSH1 + 1).
Definition op_PUSH32 : M unit := push_immediate WORD_SIZE.

(** [Vec::get(i)] and [Vec::swap(i, j)] on a stack whose head is the last element. *)
Definition vec_get (l : list Z) (i : Z) : option Z :=
  if (0 <=? i) && (i <? zlen l) then l !! Z.to_nat (zlen l - 1 - i) else None.
Definition vec_swap (l : list Z) (i j : Z) : pres (list Z) :=
  x ← unwrap (vec_get l i);
  y ← unwrap (vec_get l j);
  Ok (<[Z.to_nat (zlen l - 1 - i) := y]> (<[Z.to_nat (zlen l - 1 - j) := x]> l)).

Definition op_DUPN (op : Opcode.t) : M unit :=
  _ ← check_gas gas_cost.DUPN;
  let depth := Opcode.to_u8 op - Opcode.to_u8 Opcode.DUP1 + 1 in
  f ← get_frame;
  if negb (depth <=? zlen (CallFrame.stack f)) then panic
  else
    i ← lift (usub (zlen (CallFrame.stack f)) depth);
    value_at_depth ← lift (unwrap (vec_get (CallFrame.stack f) i));
    _ ← push value_at_depth;
    charge gas_cost.DUPN.

Definition op_SWAPN (op : Opcode.t) : M unit :=
  _ ← check_gas gas_cost.SWAPN;
  let depth := Opcode.to_u8 op - Opcode.to_u8 Opcode.SWAP1 + 1 in
  f ← get_frame;
  if negb (depth <=? zlen (CallFrame.stack f)) then panic
  else
    let stack_top_index := zlen (CallFrame.stack f) in
    let to_swap_index := stack_top_index - depth in
    i ← lift (usub stack_top_index 1);
    j ← lift (usub to_swap_index 1);
    stack ← lift (vec_swap (CallFrame.stack f) i j);
    _ ← set_frame (CallFrame.set_stack stack f);
    charge gas_cost.SWAPN.

Definition op_POP : M unit :=
  _ ← check_gas gas_cost.POP; _ ← pop; charge gas_cost.POP.

(** *** Logs *)
Fixpoint pop_topics (topic_count : nat) : M (list (list Z)) :=
  match topic_count with
  | O => mret []
  | S n =>
    x ← pop; topic ← lift (U256.as_u32 x);
    topics ← pop_topics n; mret (to_be 4 topic :: topics)
  end.

Definition op_LOGN (op : Opcode.t) : M unit :=
  f ← get_frame;
  if CallFrame.is_static f then panic
  else
    let topic_count := Opcode.to_u8 op - Opcode.to_u8 Opcode.LOG0 in
    offset ← pop_usize; size ← pop_usize;
    topics ← pop_topics (Z.to_nat topic_count);
    e ← lift (uadd offset size);
    memory_expansion_cost ← mem_expansion_cost e;
    t ← lift (umul gas_cost.LOGN_DYNAMIC_BASE topic_count);
    c1 ← lift (uadd gas_cost.LOGN_STATIC t);
    d ← lift (umul gas_cost.LOGN_DYNAMIC_BYTE_BASE size);
    c2 ← lift (uadd c1 d);
    gas_cost ← lift (uadd c2 memory_expansion_cost);
    _ ← check_gas gas_cost;
    data ← mem_load_range offset size;
    f ← get_frame;
    let log := mkLog (CallFrame.msg_sender f) topics data in
    _ ← set_frame (CallFrame.set_logs (CallFrame.logs f ++ [log]) f);
    charge gas_cost.

(** *** Memory *)
Definition op_MLOAD : M unit :=
  offset ← pop_usize;
  e ← lift (uadd offset WORD_SIZE);
  memory_expansion_cost ← mem_expansion_cost e;
  gas_cost ← lift (uadd gas_cost.MLOAD_STATIC memory_expansion_cost);
  _ ← check_gas gas_cost;
  value ← mem_load offset;
  _ ← push value; charge gas_cost.

Definition op_MSTORE : M unit :=
  offset ← pop_usize;
  e ← lift (uadd offset WORD_SIZE);
  memory_expansion_cost ← mem_expansion_cost e;
  gas_cost ← lift (uadd gas_cost.MSTORE_STATIC memory_expansion_cost);
  _ ← check_gas gas_cost;
  value ← pop;
  let value_bytes := to_be 32 value in
  _ ← mem_store_bytes offset value_bytes; charge gas_cost.

Definition op_MSTORE8 : M unit :=
  offset ← pop_usize;
  e ← lift (uadd offset 1);
  memory_expansion_cost ← mem_expansion_cost e;
  gas_cost ← lift (uadd gas_cost.MSTORE8_STATIC memory_expansion_cost);
  _ ← check_gas gas_cost;
  value ← pop;
  let value_bytes := to_be 32 value in
  low ← lift (slice value_bytes (WORD_SIZE - 1) WORD_SIZE);
  _ ← mem_store_bytes offset low; charge gas_cost.

Definition op_MSIZE : M unit :=
  _ ← check_gas gas_cost.MSIZE;
  f ← get_frame; _ ← push (Memory.size (CallFrame.memory f)); charge gas_cost.MSIZE.

Definition op_GAS : M unit :=
  _ ← check_gas gas_cost.GAS;
  t ← get_tx_env;
  r ← lift (usub (VM.gas_limit t) (VM.consumed_gas t));
  remaining_gas ← lift (usub r gas_cost.GAS);
  _ ← push remaining_gas; charge gas_cost.GAS.

(** There is no check against the gas limit here. *)
Definition op_MCOPY : M unit :=
  dest_offset ← pop_usize; src_offset ← pop_usize; size ← pop_usize;
  words_copied ← word_count size;
  src_end ← lift (uadd src_offset size);
  dest_end ← lift (uadd dest_offset size);
  let memory_byte_size := Z.max src_end dest_end in
  memory_expansion_cost ← mem_expansion_cost memory_byte_size;
  dynamic ← lift (umul gas_cost.MCOPY_DYNAMIC_BASE words_copied);
  c ← lift (uadd gas_cost.MCOPY_STATIC dynamic);
  gas_cost ← lift (uadd c memory_expansion_cost);
  _ ← charge gas_cost;
  if size =? 0 then continue
  else
    f ← get_frame;
    m ← lift (Memory.copy (CallFrame.memory f) src_offset dest_offset size);
    set_memory m.

(** *** Storage *)
Definition storage_address (f : CallFrame.t) : Address :=
  match CallFrame.delegate f with
  | Some delegate => delegate
  | None => CallFrame.code_address f
  end.

Definition op_SLOAD : M unit :=
  key ← pop;
  f ← get_frame; v ← get_self;
  let slot := Db.read_account_storage (VM.db v) (storage_address f) key in
  push (current_value (default StorageSlot_default slot)).

Definition op_SSTORE : M unit :=
  f ← get_frame;
  if CallFrame.is_static f then panic
  else
    key ← pop; value ← pop;
    f ← get_frame; v ← get_self;
    let address := storage_address f in
    let original_value :=
      match Db.read_account_storage (VM.db v) address key with
      | Some slot => original_value slot
      | None => value
      end in
    set_self (VM.set_db
      (Db.write_account_storage (VM.db v) address key (mkSlot original_value value)) v).

Definition op_TLOAD : M unit :=
  _ ← check_gas gas_cost.TLOAD;
  key ← pop;
  f ← get_frame;
  let value := default 0 (CallFrame.transient_storage f !! (CallFrame.msg_sender f, key)) in
  _ ← push value; charge gas_cost.TLOAD.

Definition op_TSTORE : M unit :=
  _ ← check_gas gas_cost.TSTORE;
  key ← pop; value ← pop;
  f ← get_frame;
  _ ← set_frame (CallFrame.set_transient_storage
    (<[(CallFrame.msg_sender f, key) := value]> (CallFrame.transient_storage f)) f);
  charge gas_cost.TSTORE.

(** *** Calls *)
Definition generic_call (gas value : Z) (msg_sender to code_address : Address)
    (delegate : option Address) (is_static : bool)
    (args_offset args_size ret_offset ret_size : Z) : M unit :=
  f ← get_frame; v ← get_self;
  if Db.balance (VM.db v) (CallFrame.msg_sender f) <? value then push REVERT_FOR_CALL
  else
    let callee_bytecode := Db.get_account_bytecode (VM.db v) code_address in
    match callee_bytecode with
    | [] => push SUCCESS_FOR_CALL
    | _ =>
      calldata ← mem_load_range args_offset args_size;
      let new_call_frame := CallFrame.new gas msg_sender to code_address delegate
        callee_bytecode value calldata is_static in
      f ← get_frame;
      let f := CallFrame.set_return_data (Some ret_offset) (Some ret_size) f in
      _ ← set_self (VM.set_call_frames (f :: VM.call_frames v) v);
      set_frame new_call_frame
    end.

Definition pop_address : M Address := x ← pop; mret (from_low_u64_be (U256.low_u64 x)).

Definition op_CALL : M unit :=
  gas ← pop; code_address ← pop_address; value ← pop;
  args_offset ← pop_usize; args_size ← pop_usize;
  ret_offset ← pop_usize; ret_size ← pop_usize;
  args_end ← lift (uadd args_offset args_size);
  ret_end ← lift (uadd ret_offset ret_size);
  let memory_byte_size := Z.max args_end ret_end in
  memory_expansion_cost ← mem_expansion_cost memory_byte_size;
  v ← get_self;
  let address_access_cost :=
    if bool_decide (code_address ∈ VM.warm_addresses v) then call_opcode.WARM_ADDRESS_ACCESS_COST
    else call_opcode.COLD_ADDRESS_ACCESS_COST in
  let positive_value_cost :=
    if negb (value =? 0)
    then call_opcode.NON_ZERO_VALUE_COST + call_opcode.BASIC_FALLBACK_FUNCTION_STIPEND
    else 0 in
  account ← lift (unwrap (Db.accounts (VM.db v) !! code_address));
  let value_to_empty_account_cost :=
    if negb (value =? 0) && Account.is_empty account
    then call_opcode.VALUE_TO_EMPTY_ACCOUNT_COST else 0 in
  c1 ← lift (uadd memory_expansion_cost address_access_cost);
  c2 ← lift (uadd c1 positive_value_cost);
  gas_cost ← lift (uadd c2 value_to_empty_account_cost);
  _ ← check_gas gas_cost;
  _ ← set_self (VM.set_warm_addresses ({[code_address]} ∪ VM.warm_addresses v) v);
  f ← get_frame;
  generic_call gas value (CallFrame.msg_sender f) (CallFrame.to f) code_address None
    (CallFrame.is_static f) args_offset args_size ret_offset ret_size.

Definition op_CALLCODE : M unit :=
  gas ← pop; code_address ← pop_address; value ← pop;
  args_offset ← pop_usize; args_size ← pop_usize;
  ret_offset ← pop_usize; ret_size ← pop_usize;
  f ← get_frame;
  generic_call gas value code_address (CallFrame.to f) code_address
    (Some (CallFrame.msg_sender f)) (CallFrame.is_static f)
    args_offset args_size ret_offset ret_size.

Definition op_DELEGATECALL : M unit :=
  gas ← pop; code_address ← pop_address;
  args_offset ← pop_usize; args_size ← pop_usize;
  ret_offset ← pop_usize; ret_size ← pop_usize;
  f ← get_frame;
  generic_call gas (CallFrame.msg_value f) (CallFrame.msg_sender f) (CallFrame.to f) code_address
    (Some (CallFrame.msg_sender f)) (CallFrame.is_static f)
    args_offset args_size ret_offset ret_size.

Definition op_STATICCALL : M unit :=
  gas ← pop; code_address ← pop_address;
  args_offset ← pop_usize; args_size ← pop_usize;
  ret_offset ← pop_usize; ret_size ← pop_usize;
  f ← get_frame;
  generic_call gas (CallFrame.msg_value f) (CallFrame.msg_sender f) code_address code_address
    None true args_offset args_size ret_offset ret_size.

Definition op_RETURN : M unit :=
  offset ← pop_usize; size ← pop_usize;
  e ← lift (uadd offset size);
  gas_cost ← mem_expansion_cost e;
  _ ← check_gas gas_cost;
  return_data ← mem_load_range offset size;
  v ← get_self;
  match VM.call_frames v with
  | parent_call_frame :: call_frames =>
    _ ← set_self (VM.set_call_frames call_frames v);
    let p :=
      match CallFrame.return_data_offset parent_call_frame,
            CallFrame.return_data_size parent_call_frame with
      | Some _, Some _ => CallFrame.set_returndata return_data parent_call_frame
      | _, _ => parent_call_frame
      end in
    let p := CallFrame.set_stack (SUCCESS_FOR_RETURN :: CallFrame.stack p) p in
    _ ← set_frame (CallFrame.set_return_data None None p);
    charge gas_cost
  | [] => _ ← push SUCCESS_FOR_RETURN; break
  end.

(** *** The loop *)

(** The [match] of the loop; the guarded arms come last here, no opcode is in the
    range of two arms. *)
Definition exec_opcode (op : Opcode.t) : M unit :=
  match op with
  | Opcode.STOP => op_STOP
  | Opcode.ADD => op_ADD
  | Opcode.MUL => op_MUL
  | Opcode.SUB => op_SUB
  | Opcode.DIV => op_DIV
  | Opcode.SDIV => op_SDIV
  | Opcode.MOD => op_MOD
  | Opcode.SMOD => op_SMOD
  | Opcode.ADDMOD => op_ADDMOD
  | Opcode.MULMOD => op_MULMOD
  | Opcode.EXP => op_EXP
  | Opcode.SIGNEXTEND => op_SIGNEXTEND
  | Opcode.LT => op_LT
  | Opcode.GT => op_GT
  | Opcode.SLT => op_SLT
  | Opcode.SGT => op_SGT
  | Opcode.EQ => op_EQ
  | Opcode.ISZERO => op_ISZERO
  | Opcode.KECCAK256 => op_KECCAK256
  | Opcode.CALLDATALOAD => op_CALLDATALOAD
  | Opcode.CALLDATASIZE => op_CALLDATASIZE
  | Opcode.CALLDATACOPY => op_CALLDATACOPY
  | Opcode.RETURNDATASIZE => op_RETURNDATASIZE
  | Opcode.RETURNDATACOPY => op_RETURNDATACOPY
  | Opcode.JUMP => op_JUMP
  | Opcode.JUMPI => op_JUMPI
  | Opcode.JUMPDEST => op_JUMPDEST
  | Opcode.PC => op_PC
  | Opcode.BLOCKHASH => op_BLOCKHASH
  | Opcode.COINBASE => op_COINBASE
  | Opcode.TIMESTAMP => op_TIMESTAMP
  | Opcode.NUMBER => op_NUMBER
  | Opcode.PREVRANDAO => op_PREVRANDAO
  | Opcode.GASLIMIT => op_GASLIMIT
  | Opcode.CHAINID => op_CHAINID
  | Opcode.SELFBALANCE => op_SELFBALANCE
  | Opcode.BASEFEE => op_BASEFEE
  | Opcode.BLOBHASH => op_BLOBHASH
  | Opcode.BLOBBASEFEE => op_BLOBBASEFEE
  | Opcode.PUSH0 => op_PUSH0
  | Opcode.PUSH32 => op_PUSH32
  | Opcode.AND => op_AND
  | Opcode.OR => op_OR
  | Opcode.XOR => op_XOR
  | Opcode.NOT => op_NOT
  | Opcode.BYTE => op_BYTE
  | Opcode.SHL => op_SHL
  | Opcode.SHR => op_SHR
  | Opcode.SAR => op_SAR
  | Opcode.POP => op_POP
  | Opcode.MLOAD => op_MLOAD
  | Opcode.MSTORE => op_MSTORE
  | Opcode.MSTORE8 => op_MSTORE8
  | Opcode.SLOAD => op_SLOAD
  | Opcode.SSTORE => op_SSTORE
  | Opcode.MSIZE => op_MSIZE
  | Opcode.GAS => op_GAS
  | Opcode.MCOPY => op_MCOPY
  | Opcode.CALL => op_CALL
  | Opcode.CALLCODE => op_CALLCODE
  | Opcode.RETURN => op_RETURN
  | Opcode.DELEGATECALL => op_DELEGATECALL
  | Opcode.STATICCALL => op_STATICCALL
  | Opcode.TLOAD => op_TLOAD
  | Opcode.TSTORE => op_TSTORE
  | op =>
    if Opcode.in_range Opcode.PUSH1 Opcode.PUSH32 op then op_PUSHN op
    else if Opcode.in_range_incl Opcode.DUP1 Opcode.DUP16 op then op_DUPN op
    else if Opcode.in_range_incl Opcode.SWAP1 Opcode.SWAP16 op then op_SWAPN op
    else if Opcode.in_range_incl Opcode.LOG0 Opcode.LOG4 op then op_LOGN op
    else panic
  end.

(** One round: [current_call_frame.next_opcode().unwrap()], then the [match]. *)
Definition step : M unit :=
  f ← get_frame;
  '(opcode, f) ← lift (CallFrame.next_opcode f);
  _ ← set_frame f;
  op ← lift (unwrap opcode);
  exec_opcode op.

Fixpoint run (fuel : nat) (s : State) : pres State :=
  match fuel with
  | O => OutOfFuel
  | S fuel =>
    match step s with
    | Next _ s | Continue s => run fuel s
    | Break s => Ok s
    | Panics => Panic
    | NoFuel => OutOfFuel
    end
  end.

(** The variables at the start of the loop, and the machine left by the end of it. *)
Definition enter_loop (vm : VM.t) : pres State :=
  match VM.call_frames vm with
  | f :: rest => Ok (mkState (VM.set_call_frames rest vm) vm (VM.block_env vm) f)
  | [] => Panic
  end.
Definition leave_loop (s : State) : VM.t :=
  let vm := VM.set_consumed_gas (VM.consumed_gas (tx_env s)) (self s) in
  VM.set_call_frames (frame s :: VM.call_frames vm) vm.

Definition execute (fuel : nat) (vm : VM.t) : pres VM.t :=
  s ← enter_loop vm; s ← run fuel s; Ok (leave_loop s).

Definition current_call_frame (vm : VM.t) : pres CallFrame.t := unwrap (head (VM.call_frames vm)).
End Interp.
