(* ===== verification/VmEffects.v ===== *)
(** * What one instruction does to the machine

    A weakest-precondition calculus for the monad of the interpreter, and a summary
    of the effect of every instruction ([effect]) that the global properties of the
    machine are proved from. *)

From S2P Require Import Prelude U256 Opcodes Memory Exponential Vm.

(** ** Weakest preconditions

    [wp m Q C B s]: started in [s], [m] falls through in a state of [Q], continues
    the loop in a state of [C] or breaks out of it in a state of [B], or panics. *)
Definition wp {A} (m : M A) (Q : A → State → Prop) (C B : State → Prop) (s : State) : Prop :=
  match m s with
  | Next a s => Q a s
  | Continue s => C s
  | Break s => B s
  | Panics | NoFuel => True
  end.

Section Rules.
Context `{Profile}.

Lemma wp_bind {A D} (m : M A) (f : A → M D) Q C B s :
  wp m (λ a s, wp (f a) Q C B s) C B s → wp (m ≫= f) Q C B s.
Proof. unfold wp, mbind, M_bind. by destruct (m s). Qed.
Lemma wp_ret {A} (a : A) (Q : A → State → Prop) C B s : Q a s → wp (mret a) Q C B s.
Proof. done. Qed.
Lemma wp_lift {A} (m : pres A) (Q : A → State → Prop) C B s :
  (∀ a, m = Ok a → Q a s) → wp (lift m) Q C B s.
Proof. unfold wp, lift. destruct m as [|[]| |]; auto. Qed.
Lemma wp_panic {A} (Q : A → State → Prop) C B s : wp panic Q C B s.
Proof. done. Qed.
Lemma wp_break {A} (Q : A → State → Prop) C (B : State → Prop) s : B s → wp break Q C B s.
Proof. done. Qed.
Lemma wp_continue {A} (Q : A → State → Prop) (C : State → Prop) B s : C s → wp continue Q C B s.
Proof. done. Qed.
Lemma wp_if {A} (b : bool) (m1 m2 : M A) Q C B s :
  (b = true → wp m1 Q C B s) → (b = false → wp m2 Q C B s) → wp (if b then m1 else m2) Q C B s.
Proof. destruct b; auto. Qed.

Lemma wp_get_frame Q C B s : Q (frame s) s → wp get_frame Q C B s.
Proof. done. Qed.
Lemma wp_get_self Q C B s : Q (self s) s → wp get_self Q C B s.
Proof. done. Qed.
Lemma wp_get_block_env Q C B s : Q (block_env s) s → wp get_block_env Q C B s.
Proof. done. Qed.
Lemma wp_get_tx_env Q C B s : Q (tx_env s) s → wp get_tx_env Q C B s.
Proof. done. Qed.
Lemma wp_set_frame f (Q : unit → State → Prop) C B s :
  Q tt (mkState (self s) (tx_env s) (block_env s) f) → wp (set_frame f) Q C B s.
Proof. done. Qed.
Lemma wp_set_self v (Q : unit → State → Prop) C B s :
  Q tt (mkState v (tx_env s) (block_env s) (frame s)) → wp (set_self v) Q C B s.
Proof. done. Qed.
Lemma wp_set_tx_env v (Q : unit → State → Prop) C B s :
  Q tt (mkState (self s) v (block_env s) (frame s)) → wp (set_tx_env v) Q C B s.
Proof. done. Qed.
End Rules.

(** ** The parts of the state an instruction may touch *)

(** Two frames of the same call: only the program counter, the stack, the memory,
    the transient storage and the logs may differ. *)
Record same_call (f f' : CallFrame.t) : Prop := {
  sc_gas : CallFrame.gas f' = CallFrame.gas f;
  sc_msg_sender : CallFrame.msg_sender f' = CallFrame.msg_sender f;
  sc_to : CallFrame.to f' = CallFrame.to f;
  sc_code_address : CallFrame.code_address f' = CallFrame.code_address f;
  sc_delegate : CallFrame.delegate f' = CallFrame.delegate f;
  sc_bytecode : CallFrame.bytecode f' = CallFrame.bytecode f;
  sc_msg_value : CallFrame.msg_value f' = CallFrame.msg_value f;
  sc_calldata : CallFrame.calldata f' = CallFrame.calldata f;
  sc_returndata : CallFrame.returndata f' = CallFrame.returndata f;
  sc_offset : CallFrame.return_data_offset f' = CallFrame.return_data_offset f;
  sc_size : CallFrame.return_data_size f' = CallFrame.return_data_size f;
  sc_is_static : CallFrame.is_static f' = CallFrame.is_static f
}.

#[export] Instance same_call_preorder : PreOrder same_call.
Proof.
  split; [by intros f|]. intros f g h [] []. split; etrans; eassumption.
Qed.

(** From [s0] to [s] only the current frame changed, within its call, its stack
    grew by [k], its program counter is [p], and the gas consumed is [g]. *)
Record local (s0 s : State) (k p g : Z) : Prop := {
  loc_self : self s = self s0;
  loc_block_env : block_env s = block_env s0;
  loc_tx_env : tx_env s = VM.set_consumed_gas g (tx_env s0);
  loc_call : same_call (frame s0) (frame s);
  loc_stack : zlen (CallFrame.stack (frame s)) = zlen (CallFrame.stack (frame s0)) + k;
  loc_pc : CallFrame.pc (frame s) = p
}.

Definition consumed (s : State) : Z := VM.consumed_gas (tx_env s).

Lemma local_refl s : local s s 0 (CallFrame.pc (frame s)) (consumed s).
Proof. split; try done; [by destruct s as [? [] ? ?]|lia]. Qed.

Lemma local_consumed s0 s k p g : local s0 s k p g → VM.consumed_gas (tx_env s) = g.
Proof. by intros [? ? -> ? ? ?]. Qed.
Lemma local_limit s0 s k p g :
  local s0 s k p g → VM.gas_limit (tx_env s) = VM.gas_limit (tx_env s0).
Proof. by intros [? ? -> ? ? ?]. Qed.

(** A change of the current frame within its call. *)
Lemma local_frame s0 s k p g f k' p' :
  local s0 s k p g → same_call (frame s) f →
  zlen (CallFrame.stack f) = zlen (CallFrame.stack (frame s)) + k' → CallFrame.pc f = p' →
  local s0 (mkState (self s) (tx_env s) (block_env s) f) (k + k') p' g.
Proof.
  intros [] Hc Hs Hp. split; try done; [by etrans|]. cbn. lia.
Qed.

Section LocalRules.
Context `{Profile}.

Lemma wp_pop s0 s k p g Q C B :
  local s0 s k p g → (∀ x s', local s0 s' (k - 1) p g → Q x s') → wp pop Q C B s.
Proof.
  intros Hl HQ. apply wp_bind, wp_get_frame. destruct (CallFrame.stack (frame s)) as [|x st] eqn:E.
  - apply wp_panic.
  - apply wp_bind, wp_set_frame, wp_ret, HQ. eapply (local_frame _ _ _ _ _ _ (-1)); [done|by split| |].
    + cbn. rewrite E. zlen_simpl. lia.
    + apply Hl.
Qed.

Lemma wp_push s0 s k p g x Q C B :
  local s0 s k p g → (∀ s', local s0 s' (k + 1) p g → Q tt s') → wp (push x) Q C B s.
Proof.
  intros Hl HQ. apply wp_bind, wp_get_frame, wp_set_frame, HQ.
  eapply local_frame; [done|by split| |apply Hl]. cbn. zlen_simpl. lia.
Qed.

Lemma wp_pop_usize s0 s k p g Q C B :
  local s0 s k p g → (∀ x s', local s0 s' (k - 1) p g → Q x s') → wp pop_usize Q C B s.
Proof.
  intros Hl HQ. apply wp_bind. eapply wp_pop; [done|]. intros x s' Hl'.
  apply wp_lift. intros y _. by apply HQ.
Qed.

Lemma wp_pop_address s0 s k p g Q C B :
  local s0 s k p g → (∀ x s', local s0 s' (k - 1) p g → Q x s') → wp pop_address Q C B s.
Proof.
  intros Hl HQ. apply wp_bind. eapply wp_pop; [done|]. intros x s' Hl'. by apply wp_ret, HQ.
Qed.

(** The cost fits under the limit, or the loop is left. *)
Lemma wp_check_gas s0 s k p g c Q C B :
  local s0 s k p g → B s →
  (∀ t, uadd (E:=never) g c = Ok t → t <= VM.gas_limit (tx_env s0) → Q tt s) →
  wp (check_gas c) Q C B s.
Proof.
  intros Hl HB HQ. apply wp_bind, wp_get_tx_env, wp_bind, wp_lift.
  rewrite (local_consumed _ _ _ _ _ Hl), (local_limit _ _ _ _ _ Hl). intros t Ht.
  apply wp_if; intros; bool_prop; [by apply wp_break|by apply wp_ret, (HQ t)].
Qed.

Lemma wp_charge s0 s k p g c (Q : unit → State → Prop) C B :
  local s0 s k p g →
  (∀ t s', uadd (E:=never) g c = Ok t → local s0 s' k p t → Q tt s') → wp (charge c) Q C B s.
Proof.
  intros Hl HQ. apply wp_bind, wp_get_tx_env, wp_bind, wp_lift.
  rewrite (local_consumed _ _ _ _ _ Hl). intros t Ht.
  apply wp_set_tx_env, (HQ t); [done|]. destruct Hl as [? ? Ht' ? ? ?]. split; try done.
  cbn. by rewrite Ht'.
Qed.

(** Any other change of the current frame that keeps the stack and the position. *)
Lemma wp_set_frame_local s0 s k p g f (Q : unit → State → Prop) C B :
  local s0 s k p g → same_call (frame s) f →
  zlen (CallFrame.stack f) = zlen (CallFrame.stack (frame s)) → CallFrame.pc f = CallFrame.pc (frame s) →
  (∀ s', local s0 s' k p g → Q tt s') → wp (set_frame f) Q C B s.
Proof.
  intros Hl Hc Hs Hp HQ. apply wp_set_frame, HQ.
  assert (local s0 (mkState (self s) (tx_env s) (block_env s) f) (k + 0) p g) as Hl'.
  { eapply local_frame; [done|done|lia|]. rewrite Hp. apply Hl. }
  by replace (k + 0) with k in Hl' by lia.
Qed.

Lemma wp_set_memory s0 s k p g m Q C B :
  local s0 s k p g → (∀ s', local s0 s' k p g → Q tt s') → wp (set_memory m) Q C B s.
Proof.
  intros Hl HQ. apply wp_bind, wp_get_frame. eapply wp_set_frame_local; [done|by split|done..].
Qed.
Lemma wp_mem_expansion_cost n Q C B s : (∀ c, Q c s) → wp (mem_expansion_cost n) Q C B s.
Proof. intros HQ. apply wp_bind, wp_get_frame, wp_lift. auto. Qed.
Lemma wp_mem_load_range s0 s k p g o n Q C B :
  local s0 s k p g → (∀ l s', local s0 s' k p g → Q l s') → wp (mem_load_range o n) Q C B s.
Proof.
  intros Hl HQ. apply wp_bind, wp_get_frame, wp_bind, wp_lift. intros [l m] _.
  apply wp_bind. eapply wp_set_memory; [done|]. intros s' Hl'. by apply wp_ret, HQ.
Qed.
Lemma wp_mem_load s0 s k p g o Q C B :
  local s0 s k p g → (∀ x s', local s0 s' k p g → Q x s') → wp (mem_load o) Q C B s.
Proof.
  intros Hl HQ. apply wp_bind, wp_get_frame, wp_bind, wp_lift. intros [x m] _.
  apply wp_bind. eapply wp_set_memory; [done|]. intros s' Hl'. by apply wp_ret, HQ.
Qed.
Lemma wp_mem_store_bytes s0 s k p g o v Q C B :
  local s0 s k p g → (∀ s', local s0 s' k p g → Q tt s') → wp (mem_store_bytes o v) Q C B s.
Proof.
  intros Hl HQ. apply wp_bind, wp_get_frame, wp_bind, wp_lift. intros m _.
  by eapply wp_set_memory.
Qed.
Lemma wp_word_count n Q C B s : (∀ c, 0 <= c → Q c s) → wp (word_count n) Q C B s.
Proof.
  intros HQ. apply wp_bind, wp_lift. intros a _. apply wp_bind, wp_lift. intros b Hb. apply wp_ret, HQ.
  apply checked_range in Hb; [|done]. apply Z.div_pos; [lia|done].
Qed.
Lemma wp_pop_topics s0 n : ∀ s k p g Q C B,
  local s0 s k p g → (∀ l s', local s0 s' (k - Z.of_nat n) p g → Q l s') →
  wp (pop_topics n) Q C B s.
Proof.
  induction n as [|n IH]; intros s k p g Q C B Hl HQ; cbn [pop_topics].
  - apply wp_ret, HQ. by replace (k - Z.of_nat 0) with k by lia.
  - apply wp_bind. eapply wp_pop; [done|]. intros x s1 H1. apply wp_bind, wp_lift. intros t _.
    apply wp_bind. eapply IH; [done|]. intros l s2 H2. apply wp_ret, HQ.
    by replace (k - Z.of_nat (S n)) with (k - 1 - Z.of_nat n) by lia.
Qed.
Lemma wp_set_pc s0 s k p g p' (Q : unit → State → Prop) C B :
  local s0 s k p g → (∀ s', local s0 s' k p' g → Q tt s') →
  wp (set_frame (CallFrame.set_pc p' (frame s))) Q C B s.
Proof.
  intros Hl HQ. apply wp_set_frame, HQ. replace k with (k + 0) by lia.
  eapply local_frame; [done|by split|cbn; lia|done].
Qed.
(** A jump moves the program counter. *)
Lemma wp_frame_jump s0 s k p g a Q C B :
  local s0 s k p g → (∀ p' s', local s0 s' k p' g → Q tt s') → wp (frame_jump a) Q C B s.
Proof.
  intros Hl HQ. apply wp_bind, wp_get_frame, wp_bind, wp_lift. intros f Hf.
  unfold CallFrame.jump in Hf. res_inv. by eapply wp_set_pc; [|apply HQ].
Qed.
End LocalRules.

(** ** The effect of an instruction *)

(** The caller after a RETURN of its callee. *)
Definition resumed (parent : CallFrame.t) (return_data : list Z) : CallFrame.t :=
  let p := match CallFrame.return_data_offset parent, CallFrame.return_data_size parent with
           | Some _, Some _ => CallFrame.set_returndata return_data parent
           | _, _ => parent
           end in
  CallFrame.set_return_data None None
    (CallFrame.set_stack (SUCCESS_FOR_RETURN :: CallFrame.stack p) p).

(** The caller while its callee runs. *)
Definition suspended (caller : CallFrame.t) (ret_offset ret_size : Z) : CallFrame.t :=
  CallFrame.set_return_data (Some ret_offset) (Some ret_size) caller.

Section Effect.
Context `{Profile}.

Inductive effect (op : Opcode.t) (s s' : State) : Prop :=
  (** gas was consumed; only the current frame changed *)
  | E_paid c k p g :
      local s s' k p g → 0 <= c → (overflow_checks = true → 1 <= c) →
      uadd (E:=never) (consumed s) c = Ok g →
      (g <= VM.gas_limit (tx_env s) ∨ op = Opcode.MCOPY) → effect op s s'
  (** no gas was consumed, and the stack shrank *)
  | E_free k p : local s s' k p (consumed s) → k < 0 → effect op s s'
  | E_sload :
      op = Opcode.SLOAD → local s s' 0 (CallFrame.pc (frame s)) (consumed s) → effect op s s'
  | E_sstore s1 p key value :
      op = Opcode.SSTORE → CallFrame.is_static (frame s) = false → local s s1 (-2) p (consumed s) →
      s' = mkState
             (VM.set_db (Db.write_account_storage (VM.db (self s)) (storage_address (frame s)) key
                (mkSlot (default value (original_value <$>
                   Db.read_account_storage (VM.db (self s)) (storage_address (frame s)) key))
                   value)) (self s))
             (tx_env s1) (block_env s1) (frame s1) → effect op s s'
  (** a call that is not entered *)
  | E_skip s1 k p w :
      local s s1 k p (consumed s) → k <= -5 →
      s' = mkState (VM.set_warm_addresses w (self s)) (tx_env s1) (block_env s1) (frame s1) →
      effect op s s'
  (** a call that is entered *)
  | E_enter s1 k p w ret_offset ret_size callee :
      local s s1 k p (consumed s) → k <= -6 →
      CallFrame.stack callee = [] →
      (CallFrame.is_static (frame s) = true ∨ op = Opcode.STATICCALL →
         CallFrame.is_static callee = true) →
      CallFrame.bytecode callee
        = Db.get_account_bytecode (VM.db (self s)) (CallFrame.code_address callee) →
      s' = mkState
             (VM.set_call_frames (suspended (frame s1) ret_offset ret_size :: VM.call_frames (self s))
                (VM.set_warm_addresses w (self s)))
             (tx_env s1) (block_env s1) callee → effect op s s'
  (** the callee returns *)
  | E_return s1 k p c g parent rest return_data :
      op = Opcode.RETURN → local s s1 k p g → k <= -2 → VM.call_frames (self s) = parent :: rest →
      0 <= c → uadd (E:=never) (consumed s) c = Ok g → g <= VM.gas_limit (tx_env s) →
      s' = mkState (VM.set_call_frames rest (self s)) (tx_env s1) (block_env s1)
             (resumed parent return_data) → effect op s s'.

(** What a [break] leaves. *)
Definition stopped (s s' : State) : Prop := ∃ k p, local s s' k p (consumed s).
End Effect.

(** ** Costs *)
Section Costs.
Context `{Profile}.
Lemma expansion_cost_nonneg m n c : Memory.expansion_cost m n = Ok c → 0 <= c.
Proof.
  unfold Memory.expansion_cost. intros Hc. destruct (_ <=? _); [by simplify_eq|].
  res_inv. match goal with Hu : usub _ _ = Ok c |- _ => apply checked_range in Hu; lia end.
Qed.
Lemma wp_expansion_cost n Q C B s :
  (∀ c, 0 <= c → Q c s) → wp (mem_expansion_cost n) Q C B s.
Proof.
  intros HQ. apply wp_bind, wp_get_frame, wp_lift. intros c Hc.
  apply HQ, (expansion_cost_nonneg _ _ _ Hc).
Qed.
End Costs.

(** Reads the 64-bit sums and products in the context as integers: in range always,
    exact with overflow checks. *)
Ltac cost_facts :=
  repeat match goal with
  | Hu : uadd _ _ = Ok _ |- _ => unfold uadd in Hu
  | Hu : umul _ _ = Ok _ |- _ => unfold umul in Hu
  end;
  repeat match goal with
  | Hu : checked 64 ?x = Ok ?y |- _ =>
    lazymatch goal with
    | _ : 0 <= y < 2 ^ 64 |- _ => fail
    | _ => pose proof (checked_range 64 x y ltac:(done) Hu)
    end
  end.
Ltac cost_exact Hov :=
  repeat match goal with
  | Hu : checked 64 ?x = Ok ?y |- _ =>
    apply (checked_exact _ _ _ Hov) in Hu; destruct Hu as [Hu ?]
  end.
Ltac cost_solve :=
  match goal with
  | |- overflow_checks = true → _ =>
    let Hov := fresh in intros Hov; cost_facts; cost_exact Hov; autounfold with gas in *; lia
  | |- _ => cost_facts; autounfold with gas in *; lia
  end.
(** Two results of one computation are one. *)
Ltac merge_ok :=
  repeat match goal with
  | H1 : ?x = Ok ?a, H2 : ?x = Ok ?b |- _ =>
    rewrite H1 in H2; injection H2 as H2; subst
  end.

(** Symbolic execution of the straight-line part of an instruction. *)
Ltac wp_step :=
  lazymatch goal with
  | |- wp (mbind _ _) _ _ _ _ => apply wp_bind
  | |- wp (mret _) _ _ _ _ => apply wp_ret
  | |- wp pop _ _ _ _ => eapply wp_pop; [eassumption|intros ? ? ?]
  | |- wp (push _) _ _ _ _ => eapply wp_push; [eassumption|intros ? ?]
  | |- wp pop_usize _ _ _ _ => eapply wp_pop_usize; [eassumption|intros ? ? ?]
  | |- wp pop_address _ _ _ _ => eapply wp_pop_address; [eassumption|intros ? ? ?]
  | |- wp (check_gas _) _ _ _ _ =>
    eapply wp_check_gas; [eassumption|eexists _, _; eassumption|intros ? ? ?]
  | |- wp (charge _) _ _ _ _ => eapply wp_charge; [eassumption|intros ? ? ? ?; merge_ok]
  | |- wp (lift _) _ _ _ _ => apply wp_lift; intros ? ?
  | |- wp (mem_expansion_cost _) _ _ _ _ => apply wp_expansion_cost; intros ? ?
  | |- wp (mem_load_range _ _) _ _ _ _ => eapply wp_mem_load_range; [eassumption|intros ? ? ?]
  | |- wp (mem_load _) _ _ _ _ => eapply wp_mem_load; [eassumption|intros ? ? ?]
  | |- wp (mem_store_bytes _ _) _ _ _ _ => eapply wp_mem_store_bytes; [eassumption|intros ? ?]
  | |- wp (set_memory _) _ _ _ _ => eapply wp_set_memory; [eassumption|intros ? ?]
  | |- wp (word_count _) _ _ _ _ => apply wp_word_count; intros ? ?
  | |- wp (pop_topics _) _ _ _ _ => eapply wp_pop_topics; [eassumption|intros ? ? ?]
  | |- wp (frame_jump _) _ _ _ _ => eapply wp_frame_jump; [eassumption|intros ? ? ?]
  | |- wp get_frame _ _ _ _ => apply wp_get_frame
  | |- wp get_self _ _ _ _ => apply wp_get_self
  | |- wp get_tx_env _ _ _ _ => apply wp_get_tx_env
  | |- wp get_block_env _ _ _ _ => apply wp_get_block_env
  | |- wp panic _ _ _ _ => apply wp_panic
  | |- wp break _ _ _ _ => apply wp_break
  | |- wp continue _ _ _ _ => apply wp_continue
  | |- wp (if _ then _ else _) _ _ _ _ => apply wp_if; intros ?
  | |- wp (match ?x with _ => _ end) _ _ _ _ => destruct x eqn:?
  | |- wp (let '(_, _) := ?x in _) _ _ _ _ => destruct x
  end; cbv beta zeta.
Ltac wp_steps := repeat wp_step.

(** Closes the end of an instruction: paid for, or free. *)
Ltac effect_solve :=
  first
    [ eapply E_paid; [eassumption| |..|eassumption|first [by left|by right]]; cost_solve
    | eapply E_free; [eassumption|lia]
    | eapply E_sload; [reflexivity|eassumption]
    | eexists _, _; eassumption ].

(** Which arm of the [match] an instruction takes. *)
Ltac exec_arm :=
  cbv [exec_opcode Opcode.in_range Opcode.in_range_incl Opcode.to_u8 Z.leb Z.ltb Z.compare
       Pos.compare Pos.compare_cont andb].

Section Instructions.
Context `{Profile} (keccak256 : list Z → list Z).

(** The statement about one instruction. *)
Definition has_effect (op : Opcode.t) (m : M unit) : Prop :=
  ∀ s, wp m (λ _, effect op s) (effect op s) (stopped s) s.

Lemma wp_push_immediate op n : has_effect op (push_immediate n).
Proof.
  intros s. pose proof (local_refl s). unfold push_immediate. wp_steps.
  match goal with Hf : CallFrame.increment_pc_by _ _ = Ok _ |- _ =>
    unfold CallFrame.increment_pc_by in Hf; apply bind_Ok in Hf as (p' & _ & [= <-]) end.
  eapply wp_set_pc; [eassumption|intros ? ?]. wp_steps. effect_solve.
Qed.

Lemma vec_swap_length l i j l' : vec_swap l i j = Ok l' → zlen l' = zlen l.
Proof.
  unfold vec_swap. intros. res_inv. unfold zlen. by rewrite !length_insert.
Qed.

Lemma wp_SWAPN op : has_effect op (op_SWAPN op).
Proof.
  intros s. pose proof (local_refl s). unfold op_SWAPN. wp_steps.
  match goal with Hs : vec_swap _ _ _ = Ok _ |- _ => apply vec_swap_length in Hs end.
  eapply wp_set_frame_local; [eassumption|by split|done|done|intros ? ?]. wp_steps. effect_solve.
Qed.

Lemma wp_DUPN op : has_effect op (op_DUPN op).
Proof. intros s. pose proof (local_refl s). unfold op_DUPN. wp_steps. effect_solve. Qed.

Lemma wp_LOGN op : has_effect op (op_LOGN op).
Proof.
  intros s. pose proof (local_refl s). unfold op_LOGN. wp_steps.
  eapply wp_set_frame_local; [eassumption|by split|done|done|intros ? ?]. wp_steps. effect_solve.
Qed.

Lemma wp_TSTORE : has_effect Opcode.TSTORE op_TSTORE.
Proof.
  intros s. pose proof (local_refl s). unfold op_TSTORE. wp_steps.
  eapply wp_set_frame_local; [eassumption|by split|done|done|intros ? ?]. wp_steps. effect_solve.
Qed.

Lemma same_call_storage_address f f' : same_call f f' → storage_address f' = storage_address f.
Proof. intros []. unfold storage_address. by rewrite sc_delegate0, sc_code_address0. Qed.

Lemma wp_SSTORE : has_effect Opcode.SSTORE op_SSTORE.
Proof.
  intros s. pose proof (local_refl s). unfold op_SSTORE. wp_steps.
  match goal with Hl : local s ?s1 _ _ _ |- wp _ _ _ _ ?s1 => rename Hl into Hs; rename s1 into s2 end.
  apply wp_set_self. eapply E_sstore with (s1 := s2) (key := x) (value := x0); [done|done|exact Hs|].
  rewrite (same_call_storage_address _ _ (loc_call _ _ _ _ _ Hs)), (loc_self _ _ _ _ _ Hs).
  by destruct (Db.read_account_storage _ _ _).
Qed.

Lemma set_warm_id v : VM.set_warm_addresses (VM.warm_addresses v) v = v.
Proof. by destruct v. Qed.

(** The state [s1] with the warm addresses [w]. *)
Definition warmed (w : gset Address) (s1 : State) : State :=
  mkState (VM.set_warm_addresses w (self s1)) (tx_env s1) (block_env s1) (frame s1).
Lemma warmed_id s : warmed (VM.warm_addresses (self s)) s = s.
Proof. unfold warmed. rewrite set_warm_id. by destruct s. Qed.

Lemma wp_generic_call op s0 s1 w k p gas value sender to code delegate is_static ao asz ro rs :
  local s0 s1 k p (consumed s0) → k <= -6 →
  (CallFrame.is_static (frame s0) = true ∨ op = Opcode.STATICCALL → is_static = true) →
  wp (generic_call gas value sender to code delegate is_static ao asz ro rs)
     (λ _, effect op s0) (effect op s0) (stopped s0) (warmed w s1).
Proof.
  intros Hl Hk Hst. unfold generic_call. apply wp_bind, wp_get_frame, wp_bind, wp_get_self. cbn.
  assert (∀ x, effect op s0 (mkState (VM.set_warm_addresses w (self s1)) (tx_env s1)
     (block_env s1) (CallFrame.set_stack (x :: CallFrame.stack (frame s1)) (frame s1)))) as Hskip.
  { intros x. eapply E_skip with (k := k + 1) (w := w) (s1 := mkState (self s1) (tx_env s1)
      (block_env s1) (CallFrame.set_stack (x :: CallFrame.stack (frame s1)) (frame s1))); [|lia|].
    - eapply (local_frame _ _ _ _ _ _ 1); [exact Hl|by split| |apply Hl]. cbn. zlen_simpl. lia.
    - cbn. by rewrite (loc_self _ _ _ _ _ Hl). }
  apply wp_if; intros _; [apply Hskip|].
  destruct (Db.get_account_bytecode _ _) as [|b bs] eqn:Hcode; [apply Hskip|].
  apply wp_bind, wp_bind, wp_get_frame, wp_bind, wp_lift. intros [calldata m] _.
  do 2 apply wp_bind; apply wp_get_frame, wp_set_frame, wp_ret, wp_bind, wp_get_frame. cbn.
  apply wp_bind, wp_set_self, wp_set_frame. cbn.
  eapply E_enter with (w := w) (ret_offset := ro) (ret_size := rs) (k := k + 0)
    (callee := CallFrame.new gas sender to code delegate (b :: bs) value calldata is_static)
    (s1 := mkState (self s1) (tx_env s1) (block_env s1) (CallFrame.set_memory m (frame s1)));
    [|lia|done|cbn; exact Hst| |].
  - eapply local_frame; [exact Hl|by split|cbn; lia|apply Hl].
  - cbn. by rewrite <-Hcode, (loc_self _ _ _ _ _ Hl).
  - cbn. by rewrite (loc_self _ _ _ _ _ Hl).
Qed.

(** A call instruction that does not touch the warm addresses. *)
Lemma wp_call op s0 s1 k p gas value sender to code delegate is_static ao asz ro rs :
  local s0 s1 k p (consumed s0) → k <= -6 →
  (CallFrame.is_static (frame s0) = true ∨ op = Opcode.STATICCALL → is_static = true) →
  wp (generic_call gas value sender to code delegate is_static ao asz ro rs)
     (λ _, effect op s0) (effect op s0) (stopped s0) s1.
Proof. intros. rewrite <-(warmed_id s1). by eapply wp_generic_call. Qed.

Ltac static_side Hl :=
  rewrite (sc_is_static _ _ (loc_call _ _ _ _ _ Hl)); by intros [?|?].

Lemma wp_CALL : has_effect Opcode.CALL op_CALL.
Proof.
  intros s. pose proof (local_refl s). unfold op_CALL. wp_steps.
  match goal with Hl : local s ?s1 _ _ _ |- wp _ _ _ _ ?s1 => rename Hl into Hs end.
  apply wp_set_self. wp_steps. cbn [frame].
  apply (wp_generic_call _ _ _ _ _ _ _ _ _ _ _ _ _ _ _ _ _ Hs); [lia|static_side Hs].
Qed.
Lemma wp_CALLCODE : has_effect Opcode.CALLCODE op_CALLCODE.
Proof.
  intros s. pose proof (local_refl s). unfold op_CALLCODE. wp_steps.
  match goal with Hl : local s ?s1 _ _ _ |- wp _ _ _ _ ?s1 => rename Hl into Hs end.
  eapply wp_call; [exact Hs|lia|static_side Hs].
Qed.
Lemma wp_DELEGATECALL : has_effect Opcode.DELEGATECALL op_DELEGATECALL.
Proof.
  intros s. pose proof (local_refl s). unfold op_DELEGATECALL. wp_steps.
  match goal with Hl : local s ?s1 _ _ _ |- wp _ _ _ _ ?s1 => rename Hl into Hs end.
  eapply wp_call; [exact Hs|lia|static_side Hs].
Qed.
Lemma wp_STATICCALL : has_effect Opcode.STATICCALL op_STATICCALL.
Proof.
  intros s. pose proof (local_refl s). unfold op_STATICCALL. wp_steps.
  match goal with Hl : local s ?s1 _ _ _ |- wp _ _ _ _ ?s1 => rename Hl into Hs end.
  eapply wp_call; [exact Hs|lia|done].
Qed.

Lemma wp_RETURN : has_effect Opcode.RETURN op_RETURN.
Proof.
  intros s. pose proof (local_refl s). unfold op_RETURN.
  wp_steps; [by eexists _, _|].
  match goal with Hl : local s ?s1 _ _ _ |- wp _ _ _ _ ?s1 => rename Hl into Hs; rename s1 into s2 end.
  match goal with Hf : VM.call_frames _ = ?f :: ?r |- _ =>
    rename f into parent; rename r into rest; rewrite (loc_self _ _ _ _ _ Hs) in Hf end.
  match goal with Hl : local s _ _ _ _, l : list Z |- _ => rename l into rd end.
  apply wp_set_self, wp_bind, wp_set_frame, wp_bind, wp_get_tx_env, wp_bind, wp_lift. cbn.
  rewrite (local_consumed _ _ _ _ _ Hs). intros g Hg. merge_ok.
  eapply E_return with (s1 := mkState (self s2) (VM.set_consumed_gas g (tx_env s2)) (block_env s2)
    (frame s2)) (parent := parent) (rest := rest) (return_data := rd); eauto.
  - destruct Hs as [? ? Ht ? ? ?]. split; try done. cbn. by rewrite Ht.
  - lia.
  - cbn. by rewrite (loc_self _ _ _ _ _ Hs).
Qed.

(** The summary of every instruction. *)
Lemma exec_effect op : has_effect op (exec_opcode keccak256 op).
Proof.
  intros s. pose proof (local_refl s). destruct op; exec_arm;
    lazymatch goal with
    | |- wp (op_PUSHN _) _ _ _ _ => apply wp_push_immediate
    | |- wp op_PUSH32 _ _ _ _ => apply wp_push_immediate
    | |- wp (op_DUPN _) _ _ _ _ => apply wp_DUPN
    | |- wp (op_SWAPN _) _ _ _ _ => apply wp_SWAPN
    | |- wp (op_LOGN _) _ _ _ _ => apply wp_LOGN
    | |- wp op_CALL _ _ _ _ => apply wp_CALL
    | |- wp op_CALLCODE _ _ _ _ => apply wp_CALLCODE
    | |- wp op_DELEGATECALL _ _ _ _ => apply wp_DELEGATECALL
    | |- wp op_STATICCALL _ _ _ _ => apply wp_STATICCALL
    | |- wp op_RETURN _ _ _ _ => apply wp_RETURN
    | |- wp op_SSTORE _ _ _ _ => apply wp_SSTORE
    | |- wp op_TSTORE _ _ _ _ => apply wp_TSTORE
    | |- wp ?m _ _ _ _ => let h := get_head m in unfold h; wp_steps; effect_solve
    end.
Qed.
End Instructions.

(** ** One round of the loop *)

(** Fetching the instruction [op] from [s] gives [s1]. *)
Definition fetched `{Profile} (s : State) (op : Opcode.t) (s1 : State) : Prop :=
  CallFrame.bytecode (frame s) !! Z.to_nat (CallFrame.pc (frame s)) = Some (Opcode.to_u8 op) ∧
  ∃ pc, uadd (E:=never) (CallFrame.pc (frame s)) 1 = Ok pc ∧
    s1 = mkState (self s) (tx_env s) (block_env s) (CallFrame.set_pc pc (frame s)).

Lemma fetched_call `{Profile} s op s1 : fetched s op s1 → same_call (frame s) (frame s1).
Proof. by intros (_ & pc & _ & ->). Qed.

Section Step.
Context `{Profile} (keccak256 : list Z → list Z).

Lemma step_inv s :
  (∃ op s1, fetched s op s1 ∧ step keccak256 s = exec_opcode keccak256 op s1) ∨
  step keccak256 s = Panics.
Proof.
  unfold step, mbind, M_bind, get_frame, CallFrame.next_opcode, CallFrame.opcode_at,
    CallFrame.increment_pc, CallFrame.increment_pc_by.
  destruct (CallFrame.bytecode _ !! _) as [b|] eqn:Hb.
  2: { destruct (uadd _ _) as [pc|[]| |] eqn:Hu; [by right..|].
       exfalso. by apply (checked_fuel (E:=never) 64 (CallFrame.pc (frame s) + 1)). }
  destruct (Opcode.from b) as [op|[]| |] eqn:Ho; [|by right|].
  2: { exfalso. revert Ho. unfold Opcode.from. by repeat case_match. }
  apply Opcode.from_Ok in Ho as ->.
  destruct (uadd _ _) as [pc|[]| |] eqn:Hu; [|by right|].
  2: { exfalso. by apply (checked_fuel (E:=never) 64 (CallFrame.pc (frame s) + 1)). }
  left. exists op. eexists. split; [|reflexivity]. split; [done|]. by exists pc.
Qed.

(** A round that goes on has fetched an instruction and has its effect. *)
Definition advances (s s' : State) : Prop :=
  step keccak256 s = Next tt s' ∨ step keccak256 s = Continue s'.

Lemma advances_effect s s' :
  advances s s' → ∃ op s1, fetched s op s1 ∧ effect op s1 s'.
Proof.
  intros Ha. destruct (step_inv s) as [(op & s1 & Hf & Hs)|Hp];
    [|by destruct Ha as [Ha|Ha]; rewrite Hp in Ha].
  exists op, s1. split; [done|]. pose proof (exec_effect keccak256 op s1) as He. unfold wp in He.
  rewrite <-Hs in He. by destruct Ha as [Ha|Ha]; rewrite Ha in He.
Qed.

Lemma break_stopped s s' :
  step keccak256 s = Break s' → ∃ op s1, fetched s op s1 ∧ stopped s1 s'.
Proof.
  intros Hb. destruct (step_inv s) as [(op & s1 & Hf & Hs)|Hp]; [|by rewrite Hb in Hp].
  exists op, s1. split; [done|]. pose proof (exec_effect keccak256 op s1) as He. unfold wp in He.
  by rewrite <-Hs, Hb in He.
Qed.

(** Invariants of rounds are invariants of runs. *)
Lemma run_invariant (I J : State → Prop) :
  (∀ s s', I s → advances s s' → I s') →
  (∀ s s', I s → step keccak256 s = Break s' → J s') →
  ∀ fuel s s', I s → run keccak256 fuel s = Ok s' → J s'.
Proof.
  intros Hstep Hbreak. induction fuel as [|fuel IH]; intros s s' Hi Hr; [done|]. cbn in Hr.
  destruct (step keccak256 s) as [[] s1|s1|s1| |] eqn:E; simplify_eq; eauto.
  - eapply IH; [|done]. eapply Hstep; [done|]. by left.
  - eapply IH; [|done]. eapply Hstep; [done|]. by right.
Qed.

Lemma run_mono fuel fuel' s r :
  run keccak256 fuel s = r → r ≠ OutOfFuel → (fuel <= fuel')%nat → run keccak256 fuel' s = r.
Proof.
  revert fuel' s. induction fuel as [|fuel IH]; intros fuel' s Hr Hn Hle; [by subst|].
  destruct fuel' as [|fuel']; [lia|]. cbn in *.
  destruct (step keccak256 s) as [[] s1|s1|s1| |]; auto with lia.
  all: apply IH; auto; lia.
Qed.
End Step.
