(* ===== verification/VmFuel.v ===== *)
(** * The instructions do not run out of fuel

    The only loop inside an instruction is the fake exponential of BLOBBASEFEE; it
    finishes within its fuel when the blob gas fields of the block are [u64]. *)

From S2P Require Import Prelude U256 Opcodes Memory Exponential Vm VmEffects.

(** ** No instruction runs out of the fuel of its own loops *)

Definition opt_u64 (o : option Z) : Prop := 0 <= default 0 o < 2 ^ 64.
(** The blob gas fields are [u64]. *)
Definition blob_fields (b : BlockEnv.t) : Prop :=
  opt_u64 (BlockEnv.excess_blob_gas b) ∧ opt_u64 (BlockEnv.blob_gas_used b).

Section Steady.
Context `{Profile} (keccak256 : list Z → list Z).

Definition steady {A} (m : M A) : Prop := ∀ s, blob_fields (block_env s) →
  match m s with
  | Next _ s' => block_env s' = block_env s
  | NoFuel => False
  | _ => True
  end.

Lemma steady_bind {A B} (m : M A) (f : A → M B) :
  steady m → (∀ a, steady (f a)) → steady (m ≫= f).
Proof.
  intros Hm Hf s Hs. unfold mbind, M_bind. specialize (Hm s Hs). destruct (m s) as [a s'| | | |]; try done.
  specialize (Hf a s'). rewrite Hm in Hf. specialize (Hf Hs). by destruct (f a s').
Qed.
Lemma steady_lift {A} (m : pres A) : m ≠ OutOfFuel → steady (lift m).
Proof. intros Hm s Hs. unfold lift. by destruct m as [|[]| |]. Qed.
Lemma steady_if {A} (b : bool) (m1 m2 : M A) : steady m1 → steady m2 → steady (if b then m1 else m2).
Proof. by destruct b. Qed.
Lemma steady_block_env {A} (f : BlockEnv.t → M A) :
  (∀ b, blob_fields b → steady (f b)) → steady (b ← get_block_env; f b).
Proof. intros Hf s Hs. by apply (Hf (block_env s)). Qed.

Lemma unwrap_fuel {E A} (o : option A) : unwrap (E:=E) o ≠ OutOfFuel.
Proof. by destruct o. Qed.
Lemma opcode_fuel b : Opcode.from b ≠ OutOfFuel.
Proof. unfold Opcode.from. by repeat case_match. Qed.
Lemma exact_fuel x : U256.exact x ≠ OutOfFuel.
Proof. unfold U256.exact. by case_match. Qed.
Lemma as_usize_fuel x : U256.as_usize x ≠ OutOfFuel.
Proof. unfold U256.as_usize. by case_match. Qed.
Lemma next_multiple_fuel x n : Memory.next_multiple_of x n ≠ OutOfFuel.
Proof. unfold Memory.next_multiple_of, uadd. repeat fuel_step. Qed.
Lemma vec_resize_fuel l n : Memory.vec_resize l n ≠ OutOfFuel.
Proof. unfold Memory.vec_resize. repeat fuel_step. Qed.
Lemma splice_fuel l a b v : Memory.splice l a b v ≠ OutOfFuel.
Proof. unfold Memory.splice, slice_to, slice_from. repeat fuel_step. Qed.
#[local] Hint Resolve unwrap_fuel opcode_fuel exact_fuel as_usize_fuel next_multiple_fuel vec_resize_fuel
  splice_fuel : fuel.

Lemma blob_price_fuel b : blob_fields b → BlockEnv.calculate_blob_gas_price b ≠ OutOfFuel.
Proof.
  intros [H1 H2]. unfold BlockEnv.calculate_blob_gas_price, BlockEnv.calc_excess_blob_gas, opt_u64 in *.
  apply bind_OutOfFuel; [apply bind_OutOfFuel; [apply checked_fuel|done]|].
  intros e He. apply bind_Ok in He as (x & Hx & [= <-]). apply checked_range in Hx; [|done].
  apply fake_exponential_u128_fuel; unfold MIN_BLOB_GASPRICE, BLOB_GASPRICE_UPDATE_FRACTION; [lia| |lia].
  unfold TARGET_BLOB_GAS_PER_BLOCK, TARGET_BLOB_NUMBER_PER_BLOCK, GAS_PER_BLOB.
  change (Z.shiftl 1 17) with 131072. lia.
Qed.

Ltac lift_fuel :=
  unfold uadd, usub, umul, sdiv_value, smod_value, addmod_value, mulmod_value, signextend_value,
    slt_value, sgt_value, byte_value, sar_value, arithmetic_shift_right, is_negative, negate,
    U256.div, U256.rem, U256.add, U256.sub, U256.mul, U256.bit, U256.byte, U256.as_usize,
    U256.as_u32, Memory.load, Memory.load_range, Memory.store_bytes, Memory.copy,
    Memory.expansion_cost, CallFrame.jump, CallFrame.valid_jump, CallFrame.opcode_at,
    CallFrame.increment_pc_by, vec_swap;
  repeat (cbv zeta; fuel_step).

Ltac steady_go :=
  repeat first
    [ apply steady_block_env; intros ? ?
    | apply steady_bind; [|intros ?]
    | apply steady_lift; first [by apply blob_price_fuel|lift_fuel]
    | apply steady_if
    | done
    | match goal with |- steady (match ?x with _ => _ end) => destruct x end ].

Lemma steady_pop : steady pop.
Proof. unfold pop. steady_go. Qed.
Lemma steady_pop_usize : steady pop_usize.
Proof. unfold pop_usize, pop. steady_go. Qed.
Lemma steady_check_gas c : steady (check_gas c).
Proof. unfold check_gas. steady_go. Qed.
Lemma steady_charge c : steady (charge c).
Proof. unfold charge. steady_go. Qed.
Lemma steady_expansion n : steady (mem_expansion_cost n).
Proof. unfold mem_expansion_cost. steady_go. Qed.
Lemma steady_load_range o n : steady (mem_load_range o n).
Proof. unfold mem_load_range, set_memory. steady_go. Qed.
Lemma steady_load o : steady (mem_load o).
Proof. unfold mem_load, set_memory. steady_go. Qed.
Lemma steady_store o v : steady (mem_store_bytes o v).
Proof. unfold mem_store_bytes, set_memory. steady_go. Qed.
Lemma steady_word_count n : steady (word_count n).
Proof. unfold word_count. steady_go. Qed.
Lemma steady_jump a : steady (frame_jump a).
Proof. unfold frame_jump. steady_go. Qed.
Lemma steady_topics n : steady (pop_topics n).
Proof. induction n; cbn [pop_topics]; unfold pop; steady_go. Qed.
Lemma steady_push_immediate n : steady (push_immediate n).
Proof. unfold push_immediate, check_gas, push, charge. steady_go. Qed.
Lemma steady_generic_call gas v ms t ca d st ao asz ro rs :
  steady (generic_call gas v ms t ca d st ao asz ro rs).
Proof. unfold generic_call, mem_load_range, set_memory, push. steady_go. Qed.

(** Looks up the rule of the helper at the head of the goal. *)
Ltac steady_helper :=
  lazymatch goal with
  | |- steady pop => apply steady_pop
  | |- steady pop_usize => apply steady_pop_usize
  | |- steady (check_gas _) => apply steady_check_gas
  | |- steady (charge _) => apply steady_charge
  | |- steady (mem_expansion_cost _) => apply steady_expansion
  | |- steady (mem_load_range _ _) => apply steady_load_range
  | |- steady (mem_load _) => apply steady_load
  | |- steady (mem_store_bytes _ _) => apply steady_store
  | |- steady (word_count _) => apply steady_word_count
  | |- steady (frame_jump _) => apply steady_jump
  | |- steady (pop_topics _) => apply steady_topics
  | |- steady (generic_call _ _ _ _ _ _ _ _ _ _ _) => apply steady_generic_call
  | |- steady (push_immediate _) => apply steady_push_immediate
  end.

Lemma steady_exec op : steady (exec_opcode keccak256 op).
Proof.
  destruct op; exec_arm;
    lazymatch goal with |- steady ?m => let h := get_head m in unfold h end;
    repeat first [steady_helper | progress steady_go | progress unfold pop_address, push, set_memory].
Qed.

Lemma step_not_NoFuel s : blob_fields (block_env s) → step keccak256 s ≠ NoFuel.
Proof.
  intros Hb. destruct (step_inv keccak256 s) as [(op & s1 & (_ & pc & _ & ->) & ->)|Hp]; [|congruence].
  match goal with |- exec_opcode _ _ ?s1 ≠ _ => pose proof (steady_exec op s1 Hb) end.
  by intros Hn; rewrite Hn in *.
Qed.
End Steady.

