(* ===== verification/VmLaws.v ===== *)
(** * Properties of the virtual machine

    Termination, gas, accounts, static calls, isolation of callers, jumps and
    storage, proved from the effects of the instructions. *)

From S2P Require Import Prelude U256 Opcodes Memory Exponential Vm VmEffects VmFuel.

(** ** Termination

    With overflow checks on, each round of the loop consumes gas, or shrinks the
    stacks, or (SLOAD) moves on in the bytecode. *)
Definition stacks (s : State) : nat :=
  sum_list_with (λ f, length (CallFrame.stack f)) (frame s :: VM.call_frames (self s)).
Definition code_left (s : State) : Z := zlen (CallFrame.bytecode (frame s)) - CallFrame.pc (frame s).

Section Termination.
Context `{Profile} (keccak256 : list Z → list Z).

(** Lexicographic decrease of the gas left, the stacks and the code left. *)
Definition decreases (s s' : State) : Prop :=
  consumed s < consumed s' < 2 ^ 64 ∨
  consumed s <= consumed s' < 2 ^ 64 ∧ (stacks s' < stacks s)%nat ∨
  consumed s' = consumed s ∧ stacks s' = stacks s ∧ code_left s' < code_left s ∧ 0 < code_left s.

Lemma local_stacks s0 s k p g :
  local s0 s k p g → Z.of_nat (stacks s) = Z.of_nat (stacks s0) + k.
Proof.
  intros [Hs _ _ _ Hk _]. unfold stacks, zlen in *. cbn. rewrite Hs. lia.
Qed.

Lemma stack_at_least s0 s k p g : local s0 s k p g → - k <= zlen (CallFrame.stack (frame s0)).
Proof. intros Hl. pose proof (zlen_nonneg (CallFrame.stack (frame s))). destruct Hl. lia. Qed.

Lemma effect_decreases op s s' :
  overflow_checks = true → 0 <= consumed s < 2 ^ 64 → effect op s s' →
  consumed s < consumed s' < 2 ^ 64 ∨
  consumed s <= consumed s' < 2 ^ 64 ∧ (stacks s' < stacks s)%nat ∨
  consumed s' = consumed s ∧ stacks s' = stacks s ∧ code_left s' = code_left s.
Proof.
  intros Hov Hg He. destruct He as
    [c k p g Hl Hc0 Hc Hu _|k p Hl Hk|_ Hl|s1 p key v _ _ Hl ->|s1 k p w Hl Hk ->
    |s1 k p w ro rs callee Hl Hk Hst _ _ ->|s1 k p c g parent rest rd _ Hl Hk Hcf Hc Hu Hlim ->].
  - left. pose proof (local_consumed _ _ _ _ _ Hl) as E. unfold consumed in *.
    apply (checked_exact _ _ _ Hov) in Hu as [-> ?]. specialize (Hc Hov). lia.
  - right; left. pose proof (local_stacks _ _ _ _ _ Hl). unfold consumed in *.
    rewrite (local_consumed _ _ _ _ _ Hl). lia.
  - right; right. pose proof (local_stacks _ _ _ _ _ Hl). unfold consumed in *.
    rewrite (local_consumed _ _ _ _ _ Hl). split_and!; [done|lia|]. unfold code_left.
    by rewrite (loc_pc _ _ _ _ _ Hl), (sc_bytecode _ _ (loc_call _ _ _ _ _ Hl)).
  - right; left. pose proof (local_stacks _ _ _ _ _ Hl). pose proof (loc_self _ _ _ _ _ Hl) as Es.
    unfold consumed, stacks in *. cbn in *. rewrite Es in *.
    rewrite (local_consumed _ _ _ _ _ Hl). lia.
  - right; left. pose proof (local_stacks _ _ _ _ _ Hl). pose proof (loc_self _ _ _ _ _ Hl) as Es.
    unfold consumed, stacks in *. cbn in *. rewrite Es in *.
    rewrite (local_consumed _ _ _ _ _ Hl). lia.
  - right; left. pose proof (local_stacks _ _ _ _ _ Hl). pose proof (loc_self _ _ _ _ _ Hl) as Es.
    unfold consumed, stacks in *. cbn in *. rewrite Es, Hst in *. cbn.
    rewrite (local_consumed _ _ _ _ _ Hl). lia.
  - right; left. pose proof (stack_at_least _ _ _ _ _ Hl). unfold zlen in *.
    apply (checked_exact _ _ _ Hov) in Hu as [-> ?].
    unfold consumed, stacks in *. cbn. rewrite (local_consumed _ _ _ _ _ Hl), Hcf.
    split; [lia|]. unfold resumed. cbn. repeat case_match; cbn; lia.
Qed.

Lemma advances_decreases s s' :
  overflow_checks = true → 0 <= consumed s < 2 ^ 64 → advances keccak256 s s' → decreases s s'.
Proof.
  intros Hov Hg (op & s1 & (Hb & pc & Hpc & ->) & He)%advances_effect.
  apply (checked_exact _ _ _ Hov) in Hpc as [-> _]. apply lookup_lt_Some in Hb.
  apply effect_decreases in He as [?|[?|(E1 & E2 & E3)]]; [by left|by right; left| |done|done].
  right; right.
  split_and!; [done|done| |]; rewrite ?E3; unfold code_left, zlen; cbn; lia.
Qed.

(** The block environment is never written. *)
Lemma advances_block_env s s' : advances keccak256 s s' → block_env s' = block_env s.
Proof.
  intros (op & s1 & (Hb & pc & Hpc & ->) & He)%advances_effect.
  destruct He as [? ? ? ? []|? ? []|? []|? ? ? ? ? ? [] ->|? ? ? ? [] ? ->|? ? ? ? ? ? ? [] ? ? ? ? ->
                 |? ? ? ? ? ? ? ? ? [] ? ? ? ? ? ->]; done.
Qed.

Lemma run_terminates : ∀ (g n c : nat) s,
  overflow_checks = true → 0 <= consumed s < 2 ^ 64 → blob_fields (block_env s) →
  2 ^ 64 - consumed s <= Z.of_nat g → (stacks s <= n)%nat → code_left s <= Z.of_nat c →
  ∃ fuel, run keccak256 fuel s ≠ OutOfFuel.
Proof.
  intros g n c s Hov. revert n c s. induction (lt_wf g) as [g _ IHg]. intros n.
  induction (lt_wf n) as [n _ IHn]. intros c. induction (lt_wf c) as [c _ IHc].
  intros s Hg Hb HG HN HC.
  assert (∀ s', advances keccak256 s s' → ∃ fuel, run keccak256 fuel s' ≠ OutOfFuel) as Hnext.
  { intros s' Ha. pose proof (advances_block_env _ _ Ha) as Eb.
    destruct (advances_decreases _ _ Hov Hg Ha) as [?|[[? ?]|(E1 & E2 & ? & ?)]].
    - apply (IHg (Z.to_nat (2 ^ 64 - consumed s'))) with (n := stacks s')
        (c := Z.to_nat (code_left s')); rewrite ?Eb; auto; lia.
    - apply (IHn (stacks s')) with (c := Z.to_nat (code_left s')); rewrite ?Eb; auto; lia.
    - apply (IHc (Z.to_nat (code_left s'))); rewrite ?Eb, ?E1, ?E2; auto; lia. }
  pose proof (step_not_NoFuel keccak256 s Hb).
  destruct (step keccak256 s) as [[] s'|s'|s'| |] eqn:E; try done.
  - destruct (Hnext s') as [fuel Hf]; [by left|]. exists (S fuel). cbn. by rewrite E.
  - destruct (Hnext s') as [fuel Hf]; [by right|]. exists (S fuel). cbn. by rewrite E.
  - exists 1%nat. cbn. by rewrite E.
  - exists 1%nat. cbn. by rewrite E.
Qed.
End Termination.

(** Without the checks there is no such bound. MCOPY charges its gas without looking
    at the limit; with size 0 it expands no memory, and the cost of offsets near 2^64
    wraps. In the loop below thirteen MCOPYs bring the gas consumed back to where it
    was, so that a whole turn leaves the machine as it found it. *)
Definition mcopy_args (dest_offset : Z) : list Z :=
  [0x60; 0; 0x60; 0; 0x67] ++ to_be 8 dest_offset.
Definition mcopy_loop : list Z :=
  replicate 24 0x5b ++ [0x60; 20] ++ concat (replicate 10 (mcopy_args (2 ^ 64 - 2 ^ 37))) ++
  mcopy_args (0xaaaaabe0 * 2 ^ 32) ++ mcopy_args (32 * 1482142) ++ mcopy_args (32 * 742) ++
  replicate 13 0x5e ++ [0x56].

(** The state after some rounds of the loop. *)
Fixpoint rounds `{Profile} (keccak256 : list Z → list Z) (n : nat) (s : State) : option State :=
  match n with
  | O => Some s
  | S n =>
      match step keccak256 s with
      | Next _ s | Continue s => rounds keccak256 n s
      | _ => None
      end
  end.

Lemma rounds_run `{Profile} (keccak256 : list Z → list Z) n fuel s s' :
  rounds keccak256 n s = Some s' → run keccak256 (n + fuel) s = run keccak256 fuel s'.
Proof.
  revert s. induction n as [|n IH]; intros s Hr; cbn in *; [by simplify_eq|].
  destruct (step keccak256 s); auto; done.
Qed.
Lemma rounds_OutOfFuel `{Profile} (keccak256 : list Z → list Z) n fuel s s' :
  rounds keccak256 n s = Some s' → (fuel <= n)%nat → run keccak256 fuel s = OutOfFuel.
Proof.
  revert s fuel. induction n as [|n IH]; intros s [|fuel] Hr Hle; cbn in *; [done|lia|done|].
  destruct (step keccak256 s); try done; apply IH; auto; lia.
Qed.

(** A state that some rounds lead back to is never left. *)
Lemma rounds_loop `{Profile} (keccak256 : list Z → list Z) n s :
  rounds keccak256 (S n) s = Some s → ∀ fuel, run keccak256 fuel s = OutOfFuel.
Proof.
  intros Hr fuel. induction (lt_wf fuel) as [fuel _ IH].
  destruct (decide (S n <= fuel)%nat) as [?|?].
  - replace fuel with (S n + (fuel - S n))%nat by lia. rewrite (rounds_run _ _ _ _ _ Hr).
    apply IH. lia.
  - apply (rounds_OutOfFuel _ _ _ _ _ Hr). lia.
Qed.

Lemma mcopy_loops_forever fuel :
  execute (H:=release_profile) (λ _, []) fuel (VM.new mcopy_loop zero_address 0) = OutOfFuel.
Proof.
  set (s := mkState (VM.set_call_frames [] (VM.new mcopy_loop zero_address 0))
              (VM.new mcopy_loop zero_address 0) BlockEnv.Default
              (CallFrame.new_from_bytecode mcopy_loop)).
  change (execute _ _ _) with (s' ← run (H:=release_profile) (λ _, []) fuel s; Ok (leave_loop s')).
  enough (run (H:=release_profile) (λ _, []) fuel s = OutOfFuel) as -> by done.
  destruct (rounds (H:=release_profile) (λ _, []) 20 s) as [s'|] eqn:E; [|by vm_compute in E].
  destruct (decide (fuel <= 20)%nat) as [?|?]; [by eapply rounds_OutOfFuel|].
  replace fuel with (20 + (fuel - 20))%nat by lia. rewrite (rounds_run _ _ _ _ _ E).
  apply (rounds_loop _ 57). vm_compute in E. injection E as <-. by vm_compute.
Qed.

(** C1: with overflow checks on, executing a transaction terminates, whatever the
    bytecode, the accounts and the calls it makes: from some fuel on, [execute]
    has one result, which is not the exhaustion of the fuel. *)
Theorem execute_terminates (P : Profile) (keccak256 : list Z → list Z) (vm : VM.t) :
  overflow_checks = true → 0 <= VM.consumed_gas vm < 2 ^ 64 → blob_fields (VM.block_env vm) →
  ∃ fuel r, r ≠ OutOfFuel ∧ ∀ fuel', (fuel <= fuel')%nat → execute keccak256 fuel' vm = r.
Proof.
  intros Hov Hg Hb. unfold execute, enter_loop. destruct (VM.call_frames vm) as [|f fs].
  { exists 0%nat, Panic. done. }
  set (s := mkState _ _ _ _).
  destruct (run_terminates keccak256 (Z.to_nat (2 ^ 64)) (stacks s) (Z.to_nat (code_left s)) s)
    as [fuel Hf]; auto; [change (consumed s) with (VM.consumed_gas vm); lia|lia|].
  exists fuel, (s ← run keccak256 fuel s; Ok (leave_loop s)). split.
  - by apply bind_OutOfFuel.
  - intros fuel' Hle. rewrite bind_Ok_l. by rewrite (run_mono keccak256 fuel fuel' s _ eq_refl Hf Hle).
Qed.

(** A self-contained machine: an infinite loop [JUMPDEST PUSH1 0 JUMP]. *)
Definition loop_vm : VM.t := VM.new [0x5b; 0x60; 0; 0x56] zero_address 0.
Definition zero_keccak (_ : list Z) : list Z := replicate 32 0.

Lemma execute_terminates_witness :
  ∃ fuel r, r ≠ OutOfFuel ∧
    ∀ fuel', (fuel <= fuel')%nat → execute (H:=dev_profile) zero_keccak fuel' loop_vm = r.
Proof.
  apply (execute_terminates dev_profile zero_keccak loop_vm); [done|by vm_compute|].
  split; by vm_compute.
Defined.

(** ** Accounts and environment *)

(** Everything about an account but its storage. *)
Definition account_info (acc : Account.t) : Z * list Z * Z :=
  (Account.balance acc, Account.bytecode acc, Account.nonce acc).
Definition info (db : Db.t) (a : Address) : Z * list Z * Z :=
  account_info (default Account.Default (Db.accounts db !! a)).

Lemma info_bytecode db a : Db.get_account_bytecode db a = (info db a).1.2.
Proof. unfold Db.get_account_bytecode, info. by destruct (Db.accounts db !! a). Qed.
Lemma info_balance db a : Db.balance db a = (info db a).1.1.
Proof. unfold Db.balance, info. by destruct (Db.accounts db !! a). Qed.

Lemma write_info db a key slot b : info (Db.write_account_storage db a key slot) b = info db b.
Proof.
  unfold info, Db.write_account_storage. cbn. destruct (decide (a = b)) as [->|Hne].
  - by rewrite lookup_insert_eq.
  - by rewrite lookup_insert_ne.
Qed.

(** Storage read back after a write. *)
Lemma read_write_storage db a key slot a' key' :
  Db.read_account_storage (Db.write_account_storage db a key slot) a' key' =
  if bool_decide (a = a' ∧ key = key') then Some slot else Db.read_account_storage db a' key'.
Proof.
  unfold Db.read_account_storage, Db.write_account_storage. cbn. case_bool_decide as Hd.
  - destruct Hd as [-> ->]. rewrite lookup_insert_eq. cbn. by rewrite lookup_insert_eq.
  - destruct (decide (a = a')) as [->|Hne]; [|by rewrite lookup_insert_ne].
    rewrite lookup_insert_eq. cbn. rewrite lookup_insert_ne by naive_solver.
    by destruct (Db.accounts db !! a').
Qed.

(** What no instruction changes in a machine. *)
Record same_world (v v' : VM.t) : Prop := {
  sw_info : ∀ a, info (VM.db v') a = info (VM.db v) a;
  sw_block_hashes : Db.block_hashes (VM.db v') = Db.block_hashes (VM.db v);
  sw_block_env : VM.block_env v' = VM.block_env v;
  sw_gas_limit : VM.gas_limit v' = VM.gas_limit v
}.
#[export] Instance same_world_preorder : PreOrder same_world.
Proof.
  split; [by intros v|]. intros v1 v2 v3 [] []. split; intros; etrans; eauto.
Qed.

Section Invariants.
Context `{Profile} (keccak256 : list Z → list Z).

Lemma effect_world op s s' : effect op s s' → same_world (self s) (self s').
Proof.
  intros [? ? ? ? Hl|? ? Hl|? Hl|? ? ? ? _ _ Hl ->|? ? ? ? Hl _ ->|? ? ? ? ? ? ? Hl _ _ _ _ ->
         |? ? ? ? ? ? ? ? _ Hl _ _ _ _ _ ->]; cbn.
  1-3: by rewrite (loc_self _ _ _ _ _ Hl).
  - split; try done. intros a. apply write_info.
  - done.
  - done.
  - done.
Qed.

Lemma effect_limit op s s' :
  effect op s s' → VM.gas_limit (tx_env s') = VM.gas_limit (tx_env s).
Proof.
  intros [? ? ? ? Hl|? ? Hl|? Hl|? ? ? ? _ _ Hl ->|? ? ? ? Hl _ ->|? ? ? ? ? ? ? Hl _ _ _ _ ->
         |? ? ? ? ? ? ? ? _ Hl _ _ _ _ _ ->]; cbn; by rewrite (loc_tx_env _ _ _ _ _ Hl).
Qed.

Lemma advances_world s s' : advances keccak256 s s' → same_world (self s) (self s').
Proof. intros (op & s1 & (_ & pc & _ & ->) & He)%advances_effect. apply (effect_world _ _ _ He). Qed.
Lemma break_world s s' : step keccak256 s = Break s' → self s' = self s.
Proof. intros (op & s1 & (_ & pc & _ & ->) & (k & p & Hl))%break_stopped. apply Hl. Qed.

Lemma execute_inv fuel vm vm' :
  execute keccak256 fuel vm = Ok vm' → ∃ f rest s,
    VM.call_frames vm = f :: rest ∧
    run keccak256 fuel (mkState (VM.set_call_frames rest vm) vm (VM.block_env vm) f) = Ok s ∧
    vm' = leave_loop s.
Proof.
  unfold execute, enter_loop. intros He. destruct (VM.call_frames vm) as [|f rest]; [done|].
  rewrite bind_Ok_l in He. apply bind_Ok in He as (s & Hr & [= <-]).
  by exists f, rest, s.
Qed.

Lemma run_world fuel s s' : run keccak256 fuel s = Ok s' → same_world (self s) (self s').
Proof.
  apply (run_invariant keccak256 (λ s', same_world (self s) (self s')) (λ s', same_world (self s) (self s')));
    [| |done].
  - intros s1 s2 Hi Ha. etrans; [done|]. by apply advances_world.
  - intros s1 s2 Hi Hb. by rewrite (break_world _ _ Hb).
Qed.

(** *** Gas *)

(** No code that can be run contains the byte of MCOPY. *)
Definition free_of (b : Z) (s : State) : Prop :=
  (b ∉ CallFrame.bytecode (frame s)) ∧
  Forall (λ f, b ∉ CallFrame.bytecode f) (VM.call_frames (self s)) ∧
  ∀ a, b ∉ Db.get_account_bytecode (VM.db (self s)) a.

Lemma effect_free_of b op s s' : effect op s s' → free_of b s → free_of b s'.
Proof.
  intros He (Hf & Hfs & Hdb). pose proof (effect_world _ _ _ He) as Hw.
  assert (∀ a, b ∉ Db.get_account_bytecode (VM.db (self s')) a) as Hdb'.
  { intros a. rewrite info_bytecode, (sw_info _ _ Hw), <-info_bytecode. apply Hdb. }
  split_and!; [| |done]; clear Hw Hdb';
  destruct He as [? ? ? ? Hl|? ? Hl|? Hl|? ? ? ? _ _ Hl ->|? ? ? ? Hl _ ->|? ? ? ? ? ? ? Hl _ _ _ Hc ->
         |? ? ? ? parent ? ? ? _ Hl _ Hcf _ _ _ ->]; cbn;
    rewrite ?(sc_bytecode _ _ (loc_call _ _ _ _ _ Hl)); rewrite ?(loc_self _ _ _ _ _ Hl); try done.
  - rewrite Hc. apply Hdb.
  - rewrite Hcf in Hfs. apply Forall_cons in Hfs as [Hp _]. unfold resumed. by repeat case_match.
  - constructor; [|done]. unfold suspended. cbn. by rewrite (sc_bytecode _ _ (loc_call _ _ _ _ _ Hl)).
  - rewrite Hcf in Hfs. by apply Forall_cons in Hfs as [_ ?].
Qed.

Lemma effect_gas op s s' :
  effect op s s' → op ≠ Opcode.MCOPY →
  consumed s <= VM.gas_limit (tx_env s) → consumed s' <= VM.gas_limit (tx_env s).
Proof.
  intros He Hop Hg. unfold consumed in *.
  destruct He as [? ? ? ? Hl _ _ _ [?|?]|? ? Hl|? Hl|? ? ? ? _ _ Hl ->|? ? ? ? Hl _ ->
    |? ? ? ? ? ? ? Hl _ _ _ Hc ->|? ? ? ? parent ? ? ? _ Hl _ Hcf _ _ ? ->]; cbn;
    rewrite ?(local_consumed _ _ _ _ _ Hl); done.
Qed.

Lemma advances_gas s s' :
  advances keccak256 s s' → free_of (Opcode.to_u8 Opcode.MCOPY) s →
  consumed s <= VM.gas_limit (tx_env s) →
  free_of (Opcode.to_u8 Opcode.MCOPY) s' ∧ consumed s' <= VM.gas_limit (tx_env s') ∧
  VM.gas_limit (tx_env s') = VM.gas_limit (tx_env s).
Proof.
  intros (op & s1 & (Hb & pc & _ & ->) & He)%advances_effect Hfree Hg.
  pose proof (effect_limit _ _ _ He) as Hlim. cbn in Hlim. split_and!.
  - by apply (effect_free_of _ _ _ _ He).
  - rewrite Hlim. apply (effect_gas _ _ _ He); [|done]. intros ->.
    apply list_elem_of_lookup_2 in Hb. by apply Hfree in Hb.
  - done.
Qed.
End Invariants.

(** *** Steps inside a call *)

(** [s] is reached from [s0] without leaving the call of [s0]: the frames that were
    suspended in [s0] stay suspended. *)
Inductive inside `{Profile} (keccak256 : list Z → list Z) (s0 : State) : State → Prop :=
  | inside_refl : inside keccak256 s0 s0
  | inside_step s s' :
      inside keccak256 s0 s → advances keccak256 s s' →
      (length (VM.call_frames (self s0)) <= length (VM.call_frames (self s')))%nat →
      inside keccak256 s0 s'.

Section Inside.
Context `{Profile} (keccak256 : list Z → list Z).

(** The call stack after an instruction. *)
Lemma effect_frames op s s' : effect op s s' →
  VM.call_frames (self s') = VM.call_frames (self s) ∧ same_call (frame s) (frame s') ∨
  (∃ f, VM.call_frames (self s') = f :: VM.call_frames (self s) ∧
     CallFrame.is_static f = CallFrame.is_static (frame s) ∧
     (CallFrame.is_static (frame s) = true → CallFrame.is_static (frame s') = true)) ∨
  (∃ parent rest rd, VM.call_frames (self s) = parent :: rest ∧
     VM.call_frames (self s') = rest ∧ frame s' = resumed parent rd).
Proof.
  intros [? ? ? ? Hl|? ? Hl|? Hl|? ? ? ? _ _ Hl ->|? ? ? ? Hl _ ->|s1 ? ? ? ? ? callee Hl _ _ Hst Hc ->
         |? ? ? ? ? parent rest rd _ Hl _ Hcf _ _ _ ->]; cbn;
    rewrite ?(loc_self _ _ _ _ _ Hl).
  1-3: left; split; [done|apply Hl].
  - left. split; [done|apply Hl].
  - left. split; [done|apply Hl].
  - right; left. eexists. split; [done|]. split; [|by auto]. cbn.
    apply (sc_is_static _ _ (loc_call _ _ _ _ _ Hl)).
  - right; right. by exists parent, rest, rd.
Qed.

Lemma resumed_static parent rd : CallFrame.is_static (resumed parent rd) = CallFrame.is_static parent.
Proof. unfold resumed. by repeat case_match. Qed.

(** The suspended frames of the start stay at the bottom of the call stack. *)
Lemma inside_suffix s0 s : inside keccak256 s0 s →
  ∃ l, VM.call_frames (self s) = l ++ VM.call_frames (self s0).
Proof.
  induction 1 as [|s s' Hin [l Hl] Ha Hlen]; [by exists []|].
  apply advances_effect in Ha as (op & s1 & (_ & pc & _ & ->) & He).
  destruct (effect_frames _ _ _ He) as [[E _]|[(f & E & _)|(parent & rest & rd & E & E' & _)]];
    cbn in *.
  - exists l. congruence.
  - exists (f :: l). cbn. congruence.
  - rewrite E' in *. destruct l as [|x l]; cbn in Hl; [|exists l; congruence].
    rewrite <-Hl, E in Hlen. cbn in Hlen. lia.
Qed.

(** Only RETURN shortens the call stack. *)
Lemma effect_pops op s s' : effect op s s' →
  (length (VM.call_frames (self s')) < length (VM.call_frames (self s)))%nat → op = Opcode.RETURN.
Proof.
  intros [? ? ? ? Hl|? ? Hl|? Hl|? ? ? ? _ _ Hl ->|? ? ? ? Hl _ ->|s1 ? ? ? ? ? callee Hl _ _ Hst Hc ->
         |? ? ? ? ? parent rest rd -> Hl _ Hcf _ _ _ ->]; cbn;
    rewrite ?(loc_self _ _ _ _ _ Hl); done || lia.
Qed.

Lemma inside_blob_fields s0 s :
  inside keccak256 s0 s → blob_fields (block_env s0) → blob_fields (block_env s).
Proof. induction 1 as [|s s' _ IH Ha _]; [done|]. by rewrite (advances_block_env _ _ _ Ha). Qed.

(** A step from inside a call stays inside, or is the RETURN that ends the call. *)
Lemma inside_advances s0 s s' caller rest :
  VM.call_frames (self s0) = caller :: rest → inside keccak256 s0 s → advances keccak256 s s' →
  inside keccak256 s0 s' ∨
  CallFrame.bytecode (frame s) !! Z.to_nat (CallFrame.pc (frame s))
    = Some (Opcode.to_u8 Opcode.RETURN) ∧
  VM.call_frames (self s') = rest ∧ ∃ return_data, frame s' = resumed caller return_data.
Proof.
  intros H0 Hin Ha. destruct (inside_suffix _ _ Hin) as [l Hl].
  destruct (decide (length (VM.call_frames (self s0)) <= length (VM.call_frames (self s')))%nat)
    as [?|Hlen]; [left; by eapply inside_step|].
  apply advances_effect in Ha as (op & s1 & (Hb & pc & _ & ->) & He). right.
  assert (op = Opcode.RETURN) as ->.
  { apply (effect_pops _ _ _ He). cbn. rewrite Hl, length_app. lia. }
  split; [done|].
  destruct (effect_frames _ _ _ He) as [[E _]|[(f & E & _)|(parent & r & rd & E & E' & E2)]];
    cbn in *.
  - rewrite E, Hl, length_app in Hlen. lia.
  - rewrite E in Hlen. cbn in Hlen. rewrite Hl, length_app in Hlen. lia.
  - rewrite E', Hl in *. destruct l as [|x l]; cbn in E.
    + rewrite H0 in E. simplify_eq. eauto.
    + injection E as <- <-. rewrite length_app in Hlen. lia.
Qed.

(** STOP ends the loop. *)
Lemma step_STOP s :
  CallFrame.bytecode (frame s) !! Z.to_nat (CallFrame.pc (frame s))
    = Some (Opcode.to_u8 Opcode.STOP) → 0 <= CallFrame.pc (frame s) < 2 ^ 64 - 1 →
  ∃ s', step keccak256 s = Break s'.
Proof.
  intros Hb Hpc. unfold step, mbind, M_bind, get_frame, CallFrame.next_opcode, CallFrame.opcode_at,
    CallFrame.increment_pc, CallFrame.increment_pc_by.
  rewrite Hb. cbn. unfold uadd. rewrite checked_in by lia. by eexists.
Qed.

Lemma effect_static_db op s s' :
  effect op s s' → CallFrame.is_static (frame s) = true → VM.db (self s') = VM.db (self s).
Proof.
  intros [? ? ? ? Hl|? ? Hl|? Hl|? ? ? ? _ Hst Hl ->|? ? ? ? Hl _ ->|s1 ? ? ? ? ? callee Hl _ _ _ Hc ->
         |? ? ? ? ? parent rest rd _ Hl _ Hcf _ _ _ ->] Hs; cbn;
    rewrite ?(loc_self _ _ _ _ _ Hl); try done. congruence.
Qed.
End Inside.

(** C2: an execution that ends has consumed at most the gas limit, as long as
    neither the frames nor the accounts contain the byte of MCOPY, in both build
    profiles. *)
Theorem execute_gas_bound (P : Profile) (keccak256 : list Z → list Z) (fuel : nat) (vm vm' : VM.t) :
  VM.consumed_gas vm <= VM.gas_limit vm →
  Forall (λ f, Opcode.to_u8 Opcode.MCOPY ∉ CallFrame.bytecode f) (VM.call_frames vm) →
  (∀ a, Opcode.to_u8 Opcode.MCOPY ∉ Db.get_account_bytecode (VM.db vm) a) →
  execute keccak256 fuel vm = Ok vm' →
  VM.consumed_gas vm' <= VM.gas_limit vm'.
Proof.
  intros Hg Hfs Hdb (f & rest & s & Hcf & Hr & ->)%execute_inv. rewrite Hcf in Hfs.
  apply Forall_cons in Hfs as [Hf Hrest]. pose proof (run_world _ _ _ _ Hr) as Hw.
  change (consumed s <= VM.gas_limit (self s)). rewrite (sw_gas_limit _ _ Hw).
  change (consumed s <= VM.gas_limit vm). revert Hr.
  apply (run_invariant keccak256
    (λ s, free_of (Opcode.to_u8 Opcode.MCOPY) s ∧ consumed s <= VM.gas_limit (tx_env s) ∧
          VM.gas_limit (tx_env s) = VM.gas_limit vm)
    (λ s, consumed s <= VM.gas_limit vm)); [| |done].
  - intros s1 s2 (Hfree & Hle & E) Ha. destruct (advances_gas _ _ _ Ha Hfree Hle) as (? & ? & E').
    split_and!; [done|done|congruence].
  - intros s1 s2 (Hfree & Hle & E) Hb. apply break_stopped in Hb as (op & s3 & (_ & pc & _ & ->) & k & p & Hl).
    unfold consumed. rewrite (local_consumed _ _ _ _ _ Hl). by rewrite <-E.
Qed.

(** [PUSH1 1; PUSH1 2; ADD; STOP]. *)
Definition add_vm : VM.t := VM.new [0x60; 1; 0x60; 2; 0x01; 0x00] zero_address 0.

Lemma execute_gas_bound_witness :
  ∃ vm', execute (H:=dev_profile) zero_keccak 10 add_vm = Ok vm' ∧
    VM.consumed_gas vm' <= VM.gas_limit vm'.
Proof.
  eexists. split; [by vm_compute|].
  apply (execute_gas_bound dev_profile zero_keccak 10 add_vm); [by vm_compute| | |by vm_compute].
  - repeat constructor. apply (bool_decide_unpack _). by vm_compute.
  - intros a. rewrite info_bytecode. unfold info, add_vm, VM.new. cbn -[zero_address].
    destruct (decide (zero_address = a)) as [<-|Hne].
    + rewrite lookup_insert_eq. apply (bool_decide_unpack _). by vm_compute.
    + rewrite lookup_insert_ne by done. cbn. apply not_elem_of_nil.
Defined.

(** MCOPY charges its price without looking at the limit. *)
Definition mcopy_vm : VM.t :=
  let vm := VM.new [0x60; 64; 0x60; 0; 0x60; 0; 0x5e; 0x00] zero_address 0 in
  VM.mk (VM.call_frames vm) (VM.block_env vm) (VM.db vm) 21010 (VM.consumed_gas vm)
    (VM.warm_addresses vm).
Example mcopy_exceeds_limit :
  ∃ vm', execute (H:=dev_profile) zero_keccak 10 mcopy_vm = Ok vm' ∧
    VM.gas_limit vm' < VM.consumed_gas vm'.
Proof. eexists. split; [by vm_compute|]. by vm_compute. Qed.

(** Whatever it runs, the machine never changes the balance, the code or the
    nonce of an account, the block hashes, the block environment or the gas limit:
    a call transfers no value. *)
Theorem execute_preserves_accounts (P : Profile) (keccak256 : list Z → list Z) (fuel : nat)
    (vm vm' : VM.t) :
  execute keccak256 fuel vm = Ok vm' →
  (∀ a, info (VM.db vm') a = info (VM.db vm) a) ∧
  Db.block_hashes (VM.db vm') = Db.block_hashes (VM.db vm) ∧
  VM.block_env vm' = VM.block_env vm ∧ VM.gas_limit vm' = VM.gas_limit vm.
Proof.
  intros (f & rest & s & Hcf & Hr & ->)%execute_inv. by destruct (run_world _ _ _ _ Hr).
Qed.

(** A call of account 1 with value 5: the callee runs and no balance changes. *)
Definition call_vm : VM.t :=
  let vm := VM.new [0x60; 0; 0x60; 0; 0x60; 0; 0x60; 0; 0x60; 5; 0x60; 1; 0x60; 99; 0xf1; 0x00]
              zero_address 100 in
  VM.set_db (Db.add_account (VM.db vm) (from_low_u64_be 1)
    (Account.new 7 [0x60; 0; 0x60; 0; 0xf3])) vm.
Lemma execute_preserves_accounts_witness :
  ∃ vm', execute (H:=dev_profile) zero_keccak 50 call_vm = Ok vm' ∧
    info (VM.db vm') (from_low_u64_be 1) = info (VM.db call_vm) (from_low_u64_be 1) ∧
    (CallFrame.stack <$> VM.call_frames vm') = [[1]].
Proof.
  eexists. split; [by vm_compute|]. split; [|by vm_compute].
  apply (execute_preserves_accounts dev_profile zero_keccak 50 call_vm). by vm_compute.
Defined.

(** C4: while a static call runs, and through every call it makes, no account
    changes in any way; every frame above the caller is static too. *)
Theorem static_call_changes_nothing (P : Profile) (keccak256 : list Z → list Z) (s0 s : State) :
  CallFrame.is_static (frame s0) = true → inside keccak256 s0 s →
  VM.db (self s) = VM.db (self s0) ∧ CallFrame.is_static (frame s) = true ∧
  ∃ l, VM.call_frames (self s) = l ++ VM.call_frames (self s0) ∧
    Forall (λ f, CallFrame.is_static f = true) l.
Proof.
  intros H0. induction 1 as [|s s' Hin (Hdb & Hst & l & Hl & HF) Ha Hlen].
  { split_and!; [done..|]. by exists []. }
  apply advances_effect in Ha as (op & s1 & (_ & pc & _ & ->) & He).
  rewrite (effect_static_db _ _ _ He Hst). split; [done|].
  destruct (effect_frames _ _ _ He) as [[E Hc]|[(f & E & Hf & Hf')|(parent & rest & rd & E & E' & E2)]];
    cbn in *.
  - rewrite (sc_is_static _ _ Hc). split; [done|]. exists l. split; [congruence|done].
  - split; [auto|]. exists (f :: l). split; [cbn; congruence|]. constructor; [congruence|done].
  - rewrite E2, resumed_static. rewrite E' in *. destruct l as [|x l]; cbn in Hl.
    + rewrite <-Hl, E in Hlen. cbn in Hlen. lia.
    + apply Forall_cons in HF as [? ?]. split; [congruence|]. exists l. split; [congruence|done].
Qed.

(** The state inside a callee that was entered with STATICCALL. *)
Definition static_state : State :=
  mkState (VM.set_call_frames [] add_vm) add_vm BlockEnv.Default
    (CallFrame.new 0 zero_address zero_address zero_address None [0x60; 1; 0x54] 0 [] true).
Lemma static_call_changes_nothing_witness :
  ∃ s, advances (H:=dev_profile) zero_keccak static_state s ∧
    VM.db (self s) = VM.db (self static_state).
Proof.
  eexists. split; [left; by vm_compute|].
  apply (static_call_changes_nothing dev_profile zero_keccak static_state); [done|].
  eapply inside_step; [apply inside_refl|left; by vm_compute|by vm_compute].
Defined.

(** One instruction of a callee of [caller], or of a call below it: the call goes on;
    or it was RETURN that ended the call; or the whole execution ends. *)
Definition callee_step `{Profile} (keccak256 : list Z → list Z) (s0 s : State)
    (caller : CallFrame.t) (rest : list CallFrame.t) : Prop :=
  match step keccak256 s with
  | Next _ s' | Continue s' =>
      inside keccak256 s0 s' ∨
      CallFrame.bytecode (frame s) !! Z.to_nat (CallFrame.pc (frame s))
        = Some (Opcode.to_u8 Opcode.RETURN) ∧
      VM.call_frames (self s') = rest ∧ ∃ return_data, frame s' = resumed caller return_data
  | Break s' =>
      (∃ l, VM.call_frames (self s') = l ++ caller :: rest) ∧
      ∀ fuel, run keccak256 (S fuel) s = Ok s'
  | Panics => ∀ fuel, run keccak256 (S fuel) s = Panic
  | NoFuel => False
  end.

(** C5: an instruction of a callee, or of a call below it, does one of four things.
    It stays within the call. It is the RETURN that ends the call, and then the
    caller resumes as it was suspended: only the return data, the success flag
    pushed on its stack and the two return-data marks differ. It ends the whole
    execution with the caller still suspended, as STOP always does. Or it panics. *)
Theorem call_returns_to_caller (P : Profile) (keccak256 : list Z → list Z) (s0 s : State)
    (caller : CallFrame.t) (rest : list CallFrame.t) :
  VM.call_frames (self s0) = caller :: rest → blob_fields (block_env s0) →
  inside keccak256 s0 s →
  callee_step keccak256 s0 s caller rest ∧
  (CallFrame.bytecode (frame s) !! Z.to_nat (CallFrame.pc (frame s))
     = Some (Opcode.to_u8 Opcode.STOP) → 0 <= CallFrame.pc (frame s) < 2 ^ 64 - 1 →
   ∃ s', step keccak256 s = Break s').
Proof.
  intros H0 Hb Hin. split; [|by apply step_STOP]. unfold callee_step.
  pose proof (inside_blob_fields _ _ _ Hin Hb) as Hb'. apply (step_not_NoFuel keccak256) in Hb'.
  destruct (step keccak256 s) as [[] s'|s'|s'| |] eqn:E; [| | |by intros fuel; cbn; rewrite E|done].
  - apply inside_advances; [done|done|by left].
  - apply inside_advances; [done|done|by right].
  - split; [|by intros fuel; cbn; rewrite E]. apply inside_suffix in Hin as [l Hl].
    exists l. by rewrite (break_world _ _ _ E), Hl, H0.
Qed.

(** A callee that runs [RETURN] with offset and size 0. *)
Definition caller_frame : CallFrame.t :=
  suspended (CallFrame.set_stack [42] (CallFrame.new_from_bytecode [0x00])) 0 0.
Definition callee_state : State :=
  mkState (VM.set_call_frames [caller_frame] add_vm) add_vm BlockEnv.Default
    (CallFrame.set_stack [0; 0] (CallFrame.new_from_bytecode [0xf3])).
(** A callee that runs [STOP]. *)
Definition stopping_state : State :=
  mkState (VM.set_call_frames [caller_frame] add_vm) add_vm BlockEnv.Default
    (CallFrame.new_from_bytecode [0x00]).
Lemma call_returns_to_caller_witness :
  callee_step (H:=dev_profile) zero_keccak callee_state callee_state caller_frame [] ∧
  ∃ s', step (H:=dev_profile) zero_keccak stopping_state = Break s'.
Proof.
  split.
  - apply (call_returns_to_caller dev_profile zero_keccak callee_state callee_state caller_frame []);
      [done|split; by vm_compute|apply inside_refl].
  - apply (call_returns_to_caller dev_profile zero_keccak stopping_state stopping_state caller_frame []);
      [done|split; by vm_compute|apply inside_refl|by vm_compute|by split; vm_compute].
Defined.
