(* ===== verification/VmArith.v ===== *)
(** * Arithmetic instructions

    What the EVM specification asks of the arithmetic, comparison and bitwise
    instructions, and how far the interpreter computes it. *)

From S2P Require Import Prelude U256 Opcodes Memory Vm VmEffects.

(** ** The EVM specification, on words in [[0, 2^256)] *)
Module Evm.
Definition add (a b : Z) : Z := unsigned (a + b).
Definition mul (a b : Z) : Z := unsigned (a * b).
Definition sub (a b : Z) : Z := unsigned (a - b).
Definition div (a b : Z) : Z := if b =? 0 then 0 else a / b.
Definition mod_ (a b : Z) : Z := if b =? 0 then 0 else a mod b.
(** Signed division truncates, and the remainder has the sign of the dividend. *)
Definition sdiv (a b : Z) : Z := if b =? 0 then 0 else unsigned (Z.quot (signed a) (signed b)).
Definition smod (a b : Z) : Z := if b =? 0 then 0 else unsigned (Z.rem (signed a) (signed b)).
Definition addmod (a b n : Z) : Z := if n =? 0 then 0 else (a + b) mod n.
Definition mulmod (a b n : Z) : Z := if n =? 0 then 0 else (a * b) mod n.
Definition exp (a b : Z) : Z := unsigned (a ^ b).
(** The low [k + 1] bytes of [x], read as a signed number. *)
Definition signextend (k x : Z) : Z :=
  if 31 <=? k then x
  else
    let n := 8 * (k + 1) in
    let v := x mod 2 ^ n in
    unsigned (if v <? 2 ^ (n - 1) then v else v - 2 ^ n).
Definition of_bool (b : bool) : Z := if b then 1 else 0.
Definition lt (a b : Z) : Z := of_bool (a <? b).
Definition gt (a b : Z) : Z := of_bool (b <? a).
Definition slt (a b : Z) : Z := of_bool (signed a <? signed b).
Definition sgt (a b : Z) : Z := of_bool (signed b <? signed a).
Definition eq (a b : Z) : Z := of_bool (a =? b).
(** The byte number [i] of [x], counted from the most significant. *)
Definition byte (i x : Z) : Z := if i <? 32 then (x / 256 ^ (31 - i)) mod 256 else 0.
Definition shl (n x : Z) : Z := if n <? 256 then unsigned (x * 2 ^ n) else 0.
Definition shr (n x : Z) : Z := if n <? 256 then x / 2 ^ n else 0.
(** Division by a power of two, rounding down. *)
Definition sar (n x : Z) : Z := unsigned (signed x / 2 ^ n).
End Evm.

(** ** Values *)
Lemma exact_ok x : is_u256 x → U256.exact x = Ok x.
Proof. unfold is_u256, U256.exact. intros. by decide_bools. Qed.

Lemma bit255 x : is_u256 x → U256.bit x 255 = Ok (signed x <? 0).
Proof. intros. unfold U256.bit. cbn [Z.ltb Z.compare]. by rewrite testbit_top. Qed.

Lemma negate_eq x : is_u256 x → negate x = if x =? 0 then Panic else Ok (U256_MOD - x).
Proof.
  intros Hx. unfold negate, U256.add. rewrite not_eq by done.
  unfold U256_MAX, U256.exact, is_u256, U256_MOD in *.
  destruct (x =? 0) eqn:E; bool_prop; decide_bools; [done|]. f_equal. lia.
Qed.

(** The absolute value of a word and its sign. *)
Lemma abs_word x : is_u256 x →
  (if signed x <? 0 then negate x else Ok x) = Ok (Z.abs (signed x)).
Proof.
  intros Hx. destruct (signed x <? 0) eqn:E; bool_prop.
  - rewrite negate_eq by done. unfold signed, is_u256 in *. pose proof U256_MOD_eq.
    destruct (x <? 2 ^ 255) eqn:E2; bool_prop; [lia|]. decide_bools. f_equal. lia.
  - f_equal. unfold signed, is_u256 in *. destruct (x <? 2 ^ 255) eqn:E2; bool_prop; lia.
Qed.

Lemma abs_u256 x : is_u256 x → is_u256 (Z.abs (signed x)).
Proof. intros Hx. pose proof (signed_range x Hx). pose proof U256_MOD_eq. unfold is_u256. lia. Qed.
Lemma signed_zero x : is_u256 x → signed x = 0 ↔ x = 0.
Proof.
  unfold is_u256, signed. intros. pose proof U256_MOD_eq. case_match; bool_prop; lia.
Qed.
Lemma unsigned_opp x : 0 < x < U256_MOD → unsigned (- x) = U256_MOD - x.
Proof.
  intros. unfold unsigned. rewrite <-(Z.mod_add (- x) 1) by done. rewrite Z.mod_small; lia.
Qed.

(** The final step of SDIV and SMOD: the magnitude [m] with the sign [neg]. *)
Lemma with_sign neg m : 0 <= m < U256_MOD →
  (if neg : bool then negate m else Ok m) =
  if neg && (m =? 0) then Panic else Ok (unsigned (if neg then - m else m)).
Proof.
  intros Hm. destruct neg; cbn [andb]; [|by rewrite unsigned_small].
  rewrite negate_eq by done. destruct (m =? 0) eqn:E; bool_prop; [done|].
  by rewrite unsigned_opp by lia.
Qed.

(** SDIV panics when the quotient is zero and the operands differ in sign, and is
    right otherwise. *)
Lemma sdiv_value_eq a b : is_u256 a → is_u256 b → b ≠ 0 →
  sdiv_value a b =
  if xorb (signed a <? 0) (signed b <? 0) && (Z.abs (signed a) <? Z.abs (signed b))
  then Panic else Ok (Evm.sdiv a b).
Proof.
  intros Ha Hb Hb0. unfold sdiv_value, is_negative, Evm.sdiv. decide_bools.
  rewrite !bit255, !bind_Ok_l, !abs_word, !bind_Ok_l by done.
  assert (signed b ≠ 0) as Hsb by (rewrite signed_zero by done; done).
  unfold U256.div. decide_bools. rewrite bind_Ok_l, Z.quot_div by done.
  pose proof (abs_u256 a Ha) as Haa. set (q := Z.abs (signed a) / Z.abs (signed b)).
  assert (0 <= q < U256_MOD) as Hqr.
  { unfold is_u256 in Haa. split; [apply Z.div_pos; lia|]. unfold q.
    apply Z.le_lt_trans with (Z.abs (signed a)); [|lia]. apply Z.div_le_upper_bound; nia. }
  assert (q = 0 ↔ Z.abs (signed a) < Z.abs (signed b)) as Hq0
    by (unfold q; rewrite Z.div_small_iff by lia; lia).
  rewrite with_sign by done.
  replace (q =? 0) with (Z.abs (signed a) <? Z.abs (signed b)) by lia.
  case_match eqn:E; [done|]. do 2 f_equal.
  destruct (signed a <? 0) eqn:Sa, (signed b <? 0) eqn:Sb; bool_prop; cbn [xorb]; nia.
Qed.

(** SMOD panics when the remainder is zero and the operands differ in sign; else it
    is the remainder of the specification, with the sign flipped when the divisor is
    negative. *)
Lemma smod_value_eq a b : is_u256 a → is_u256 b → b ≠ 0 →
  smod_value a b =
  if xorb (signed a <? 0) (signed b <? 0) && (Z.rem (signed a) (signed b) =? 0)
  then Panic else Ok (unsigned (Z.sgn (signed b) * Z.rem (signed a) (signed b))).
Proof.
  intros Ha Hb Hb0. unfold smod_value, is_negative.
  rewrite !bit255, !bind_Ok_l, !abs_word, !bind_Ok_l by done.
  assert (signed b ≠ 0) as Hsb by (rewrite signed_zero by done; done).
  unfold U256.rem. decide_bools. rewrite bind_Ok_l, Z.rem_mod by done.
  pose proof (abs_u256 b Hb) as Hbb. set (r := Z.abs (signed a) mod Z.abs (signed b)).
  assert (0 <= r < Z.abs (signed b)) as Hr by (apply Z.mod_pos_bound; lia).
  rewrite with_sign by (unfold is_u256 in Hbb; lia).
  assert (signed a = 0 → r = 0) as Hz by (unfold r; intros ->; done).
  replace (Z.sgn (signed a) * r =? 0) with (r =? 0) by nia.
  case_match eqn:E; [done|]. do 2 f_equal.
  destruct (signed a <? 0) eqn:Sa, (signed b <? 0) eqn:Sb; bool_prop; cbn [xorb]; nia.
Qed.

(** ADDMOD is right when the sum does not overflow. *)
Lemma addmod_value_eq a b n : is_u256 a → is_u256 b → is_u256 n → n ≠ 0 →
  addmod_value a b n =
  if a + b <? U256_MOD then Ok (Evm.addmod a b n)
  else Ok (unsigned ((a + b - U256_MOD) mod n - n)).
Proof.
  intros Ha Hb Hn Hn0. unfold addmod_value, U256.overflowing_add, U256.rem, Evm.addmod, is_u256 in *.
  decide_bools. rewrite bind_Ok_l.
  pose proof (Z.mod_pos_bound ((a + b) mod U256_MOD) n ltac:(lia)).
  rewrite (proj2 (Z.ltb_ge n _)) by lia. rewrite orb_false_r.
  destruct (a + b <? U256_MOD) eqn:E; bool_prop.
  - decide_bools. by rewrite (Z.mod_small (a + b)) by lia.
  - decide_bools. cbn [fst]. unfold U256.overflowing_sub, unsigned. cbn [fst].
    rewrite <-(Z.mod_add (a + b) (-1)) by done. rewrite (Z.mod_small (a + b + -1 * U256_MOD)) by lia.
    do 4 f_equal.
Qed.

Lemma to_be_mod n x : to_be n (x mod 256 ^ Z.of_nat n) = to_be n x.
Proof.
  apply of_be_inj; auto using to_be_bytes; [by rewrite !to_be_length|].
  rewrite !of_be_to_be. by rewrite Z.mod_mod by (pose proof (pow256_pos (Z.of_nat n)); lia).
Qed.

(** The bytes of the four low words, in reverse, are the big-endian number. *)
Lemma words_bytes r :
  rev (concat ((λ word, rev (to_be 8 word)) <$>
    ((λ i, (r / 2 ^ (64 * i)) mod 2 ^ 64) <$> seqZ 0 4))) = to_be 32 r.
Proof.
  change (seqZ 0 4) with [0; 1; 2; 3]. cbn [fmap list_fmap concat].
  rewrite app_nil_r, !rev_app_distr, !rev_involutive.
  change (2 ^ 64) with (256 ^ Z.of_nat 8). rewrite !to_be_mod.
  change (64 * 0) with 0. rewrite Z.div_1_r.
  change 32%nat with (8 + (8 + (8 + 8)))%nat. rewrite !to_be_app.
  rewrite <-!app_assoc. done.
Qed.

Lemma mulmod_value_eq a b n : is_u256 a → is_u256 b → is_u256 n → n ≠ 0 →
  mulmod_value a b n = Ok (Evm.mulmod a b n).
Proof.
  intros Ha Hb Hn Hn0. unfold mulmod_value, Evm.mulmod, is_u256 in *. decide_bools.
  assert (0 <= a * b < U512_MOD) as Hp.
  { change U512_MOD with (U256_MOD * U256_MOD). nia. }
  rewrite (Z.mod_small (a * b)) by done. decide_bools. rewrite bind_Ok_l.
  pose proof (Z.mod_pos_bound (a * b) n ltac:(lia)) as Hr. set (r := (a * b) mod n) in *.
  decide_bools. cbn [orb]. f_equal. rewrite words_bytes. apply of_be_to_be_small.
  change (256 ^ Z.of_nat 32) with U256_MOD. lia.
Qed.

(** Setting every bit from [i] up. *)
Lemma lor_high x i : is_u256 x → 0 <= i < 256 →
  Z.lor x (U256.not (2 ^ i - 1)) = U256_MOD - 2 ^ i + x mod 2 ^ i.
Proof.
  intros Hx Hi. assert (0 < 2 ^ i) by (apply Z.pow_pos_nonneg; lia).
  assert (2 ^ i < U256_MOD) by (apply Z.pow_lt_mono_r; lia).
  rewrite not_eq by (unfold is_u256; lia).
  replace (U256_MAX - (2 ^ i - 1)) with (Z.shiftl (Z.ones (256 - i)) i).
  2: { rewrite Z.shiftl_mul_pow2, Z.ones_equiv by lia.
       assert (U256_MOD = 2 ^ (256 - i) * 2 ^ i) as Em.
       { rewrite <-Z.pow_add_r by lia. unfold U256_MOD. f_equal. lia. }
       change U256_MAX with (U256_MOD - 1). nia. }
  replace (U256_MOD - 2 ^ i) with (Z.shiftl (Z.ones (256 - i)) i).
  2: { rewrite Z.shiftl_mul_pow2, Z.ones_equiv by lia.
       assert (U256_MOD = 2 ^ (256 - i) * 2 ^ i) as Em.
       { rewrite <-Z.pow_add_r by lia. unfold U256_MOD. f_equal. lia. }
       nia. }
  set (h := Z.shiftl (Z.ones (256 - i)) i).
  assert (∀ j, 0 <= j → Z.testbit h j = (i <=? j) && (j <? 256)) as Hh.
  { intros j Hj. unfold h. rewrite Z.shiftl_spec by lia. destruct (i <=? j) eqn:E; bool_prop.
    - rewrite Z.testbit_ones_nonneg by lia. cbn [andb]. lia.
    - by rewrite Z.testbit_neg_r by lia. }
  rewrite Z.add_nocarry_lxor, Z.lxor_lor.
  - apply Z.bits_inj'. intros j Hj. rewrite !Z.lor_spec, Hh by done.
    destruct (i <=? j) eqn:E1, (j <? 256) eqn:E2; bool_prop; cbn [andb].
    + by rewrite orb_true_r.
    + rewrite (u256_testbit x), Z.mod_pow2_bits_high by (done || lia). done.
    + by rewrite Z.mod_pow2_bits_low, orb_false_r by lia.
    + lia.
  - apply Z.bits_inj'. intros j Hj. rewrite Z.land_spec, Hh, Z.bits_0 by done.
    destruct (i <=? j) eqn:E; bool_prop; [|done]. by rewrite Z.mod_pow2_bits_high, andb_false_r by lia.
  - apply Z.bits_inj'. intros j Hj. rewrite Z.land_spec, Hh, Z.bits_0 by done.
    destruct (i <=? j) eqn:E; bool_prop; [|done]. by rewrite Z.mod_pow2_bits_high, andb_false_r by lia.
Qed.

(** The word whose bits from [i] up are copies of the bit [i]. *)
Definition extend (i x : Z) : Z :=
  unsigned (if Z.testbit x i then x mod 2 ^ i - 2 ^ i else x mod 2 ^ i).

Lemma signextend_code i x : is_u256 x → 0 <= i < 256 →
  (if Z.testbit x i then Ok (Z.lor x (U256.not (2 ^ i - 1)))
   else Ok (Z.land x (2 ^ i - 1)) : pres Z) = Ok (extend i x).
Proof.
  intros Hx Hi. assert (0 < 2 ^ i) by (apply Z.pow_pos_nonneg; lia).
  assert (2 ^ i < U256_MOD) by (apply Z.pow_lt_mono_r; lia).
  pose proof (Z.mod_pos_bound x (2 ^ i) ltac:(lia)).
  unfold extend. destruct (Z.testbit x i).
  - rewrite lor_high by done. replace (x mod 2 ^ i - 2 ^ i) with (- (2 ^ i - x mod 2 ^ i)) by lia.
    rewrite unsigned_opp by lia. f_equal. lia.
  - replace (2 ^ i - 1) with (Z.ones i) by (rewrite Z.ones_equiv; lia).
    rewrite Z.land_ones by lia. by rewrite unsigned_small by (unfold is_u256; lia).
Qed.

(** Dropping the bit [i]. *)
Lemma mod_succ_bit i x : 0 <= i →
  x mod 2 ^ (i + 1) = x mod 2 ^ i + (if Z.testbit x i then 2 ^ i else 0).
Proof.
  intros Hi. assert (0 < 2 ^ i) by (apply Z.pow_pos_nonneg; lia).
  rewrite Z.pow_add_r, Z.pow_1_r, Z.rem_mul_r by lia. f_equal.
  rewrite <-Z.bit0_mod, <-Z.shiftr_div_pow2 by lia. rewrite Z.shiftr_spec by lia.
  rewrite Z.add_0_l. destruct (Z.testbit x i); cbn [Z.b2z]; lia.
Qed.

Lemma extend_255 x : is_u256 x → extend 255 x = x.
Proof.
  intros Hx. unfold extend. pose proof (mod_succ_bit 255 x ltac:(lia)) as Hm.
  change (2 ^ (255 + 1)) with U256_MOD in Hm. rewrite (Z.mod_small x U256_MOD) in Hm by apply Hx.
  unfold unsigned. destruct (Z.testbit x 255).
  - rewrite <-(Z.mod_add _ 1) by done. unfold is_u256 in *. pose proof U256_MOD_eq.
    rewrite Z.mod_small; lia.
  - rewrite Z.mod_small; [lia|]. unfold is_u256 in *. lia.
Qed.

Lemma extend_signextend k x : is_u256 x → 0 <= k → extend (8 * Z.min k 31 + 7) x = Evm.signextend k x.
Proof.
  intros Hx Hk. unfold Evm.signextend. destruct (31 <=? k) eqn:E; bool_prop.
  - rewrite Z.min_r by lia. by apply extend_255.
  - rewrite Z.min_l by lia. set (i := 8 * k + 7). replace (8 * (k + 1)) with (i + 1) by lia.
    replace (i + 1 - 1) with i by lia. cbv zeta. unfold extend. f_equal.
    assert (0 < 2 ^ i) by (apply Z.pow_pos_nonneg; lia).
    pose proof (Z.mod_pos_bound x (2 ^ i) ltac:(lia)).
    rewrite (mod_succ_bit i), Z.pow_add_r, Z.pow_1_r by lia.
    destruct (Z.testbit x i); decide_bools; lia.
Qed.

Lemma signextend_value_eq k x : is_u256 k → is_u256 x →
  signextend_value k x = Ok (Evm.signextend k x).
Proof.
  intros Hk Hx. rewrite <-extend_signextend by (done || apply Hk).
  unfold signextend_value, U256.mul, U256.add, U256.sub. cbv zeta.
  set (i := 8 * Z.min k 31 + 7). assert (7 <= i <= 255) by (unfold is_u256 in *; lia).
  assert (256 < U256_MOD) by done.
  rewrite exact_ok, bind_Ok_l by (unfold is_u256; lia). fold i.
  rewrite exact_ok, bind_Ok_l by (unfold is_u256; lia).
  unfold U256.as_usize, U256.bit. decide_bools. rewrite !bind_Ok_l.
  assert (0 < 2 ^ i) by (apply Z.pow_pos_nonneg; lia).
  assert (2 ^ i < U256_MOD) by (apply Z.pow_lt_mono_r; lia).
  unfold U256.shl. decide_bools. rewrite Z.shiftl_1_l, Z.mod_small by lia.
  rewrite exact_ok, bind_Ok_l by (unfold is_u256; lia). apply signextend_code; [done|lia].
Qed.

Lemma slt_value_eq a b : is_u256 a → is_u256 b → slt_value a b = Ok (Evm.slt a b).
Proof.
  intros Ha Hb. unfold slt_value. rewrite !bit255, !bind_Ok_l by done.
  unfold Evm.slt, Evm.of_bool, signed, is_u256 in *. pose proof U256_MOD_eq.
  destruct (a <? 2 ^ 255) eqn:Ea, (b <? 2 ^ 255) eqn:Eb; bool_prop; decide_bools; cbn [eqb];
    repeat case_match; bool_prop; lia || done.
Qed.
Lemma sgt_value_eq a b : is_u256 a → is_u256 b → sgt_value a b = Ok (Evm.sgt a b).
Proof.
  intros Ha Hb. unfold sgt_value. rewrite !bit255, !bind_Ok_l by done.
  unfold Evm.sgt, Evm.of_bool, signed, is_u256 in *. pose proof U256_MOD_eq.
  destruct (a <? 2 ^ 255) eqn:Ea, (b <? 2 ^ 255) eqn:Eb; bool_prop; decide_bools; cbn [eqb];
    repeat case_match; bool_prop; lia || done.
Qed.

Lemma byte_value_eq i x : is_u256 i → byte_value i x = Ok (Evm.byte i x).
Proof.
  intros Hi. unfold byte_value, Evm.byte, U256.try_into_usize, WORD_SIZE, is_u256 in *.
  destruct (i <? 2 ^ 64) eqn:E; cbn [default from_option id]; bool_prop.
  - destruct (i <? 32) eqn:E2; bool_prop; [|done]. unfold U256.byte. decide_bools. do 3 f_equal.
  - by decide_bools.
Qed.

Lemma shl_eq n x : is_u256 n → (if n <? 256 then U256.shl x n else 0) = Evm.shl n x.
Proof.
  intros Hn. unfold Evm.shl, U256.shl, unsigned, is_u256 in *. case_match; [|done].
  by rewrite Z.shiftl_mul_pow2 by lia.
Qed.
Lemma shr_eq n x : is_u256 n → (if n <? 256 then U256.shr x n else 0) = Evm.shr n x.
Proof.
  intros Hn. unfold Evm.shr, U256.shr, is_u256 in *. case_match; [|done].
  by rewrite Z.shiftr_div_pow2 by lia.
Qed.

(** [U256::MAX << n]. *)
Lemma shl_max n : 0 <= n < 256 → U256.shl U256_MAX n = U256.not (2 ^ n - 1).
Proof.
  intros Hn. assert (0 < 2 ^ n) by (apply Z.pow_pos_nonneg; lia).
  assert (2 ^ n < U256_MOD) by (apply Z.pow_lt_mono_r; lia).
  rewrite not_eq by (unfold is_u256; lia). unfold U256.shl. decide_bools.
  rewrite Z.shiftl_mul_pow2 by lia. change U256_MAX with (U256_MOD - 1).
  replace ((U256_MOD - 1) * 2 ^ n) with (U256_MOD - 2 ^ n + (2 ^ n - 1) * U256_MOD) by lia.
  rewrite Z.mod_add by done. rewrite Z.mod_small; lia.
Qed.

Lemma sar_small `{Profile} n x : is_u256 x → 0 <= n < 256 →
  arithmetic_shift_right x n = Ok (Evm.sar n x).
Proof.
  intros Hx Hn. unfold arithmetic_shift_right, U256.try_into_usize. decide_bools. cbn [unwrap].
  rewrite bind_Ok_l, bit255, bind_Ok_l by done. unfold U256.shr. decide_bools.
  rewrite Z.shiftr_div_pow2 by lia. unfold Evm.sar.
  assert (0 < 2 ^ n) by (apply Z.pow_pos_nonneg; lia).
  assert (0 <= x / 2 ^ n) by (apply Z.div_pos; [apply Hx|lia]).
  assert (U256_MOD = 2 ^ (256 - n) * 2 ^ n) as Em.
  { rewrite <-Z.pow_add_r by lia. unfold U256_MOD. f_equal. lia. }
  assert (x / 2 ^ n < 2 ^ (256 - n)) as Hlt
    by (apply Z.div_lt_upper_bound; unfold is_u256 in Hx; lia).
  assert (is_u256 (x / 2 ^ n)) as Hd.
  { split; [done|]. apply Z.lt_le_trans with (2 ^ (256 - n)); [done|]. nia. }
  destruct (signed x <? 0) eqn:E; bool_prop.
  - rewrite usub_ok, bind_Ok_l by lia. f_equal.
    assert (signed x = x + (- 2 ^ (256 - n)) * 2 ^ n) as ->.
    { unfold signed in *. destruct (x <? 2 ^ 255); unfold is_u256 in *; lia. }
    rewrite Z.div_add by lia. destruct (decide (n = 0)) as [->|Hn0].
    + change (U256.shl U256_MAX (256 - 0)) with 0. rewrite Z.lor_0_r. unfold unsigned.
      change (- 2 ^ (256 - 0)) with (-1 * U256_MOD). rewrite Z.mod_add by done.
      symmetry. by apply Z.mod_small.
    + rewrite shl_max, lor_high by (done || lia). rewrite (Z.mod_small (x / 2 ^ n)) by lia.
      replace (x / 2 ^ n + - 2 ^ (256 - n)) with (- (2 ^ (256 - n) - x / 2 ^ n)) by lia.
      rewrite unsigned_opp; [lia|]. assert (2 ^ 1 <= 2 ^ n) by (apply Z.pow_le_mono_r; lia). nia.
  - f_equal. unfold signed in *. destruct (x <? 2 ^ 255) eqn:E2; bool_prop;
      [by rewrite unsigned_small|unfold is_u256 in *; lia].
Qed.

Lemma sar_value_eq `{Profile} n x : is_u256 n → is_u256 x → sar_value n x = Ok (Evm.sar n x).
Proof.
  intros Hn Hx. unfold sar_value. destruct (n <? 256) eqn:E; bool_prop.
  - apply sar_small; [done|]. unfold is_u256 in Hn. lia.
  - rewrite bit255, bind_Ok_l by done. unfold Evm.sar. f_equal.
    pose proof (signed_range x Hx). assert (2 ^ 255 < 2 ^ n) by (apply Z.pow_lt_mono_r; lia).
    destruct (signed x <? 0) eqn:Es; bool_prop.
    + replace (signed x / 2 ^ n) with (-1); [done|].
      apply Z.div_unique with (signed x + 2 ^ n); lia.
    + by rewrite Z.div_small by lia.
Qed.

(** ** Instructions *)

(** The instruction [op] is next, and [price] more gas is available. *)
Record ready (s : State) (op : Opcode.t) (price : Z) : Prop := {
  ready_code : CallFrame.bytecode (frame s) !! Z.to_nat (CallFrame.pc (frame s)) = Some (Opcode.to_u8 op);
  ready_pc : 0 <= CallFrame.pc (frame s) < 2 ^ 64 - 1;
  ready_price : 0 <= price;
  ready_gas : 0 <= consumed s;
  ready_limit : consumed s + price <= VM.gas_limit (tx_env s) < 2 ^ 64
}.

(** The state after an instruction that leaves [stack] and moves to the next one,
    with [g] gas consumed. *)
Definition after (s : State) (stack : list Z) (g : Z) : State :=
  mkState (self s) (VM.set_consumed_gas g (tx_env s)) (block_env s)
    (CallFrame.set_stack stack (CallFrame.set_pc (CallFrame.pc (frame s) + 1) (frame s))).

(** The state after the fetch. *)
Definition fetch (s : State) : State :=
  mkState (self s) (tx_env s) (block_env s)
    (CallFrame.set_pc (CallFrame.pc (frame s) + 1) (frame s)).

(** The shape of an instruction with two operands and a constant price. *)
Definition binary `{Profile} (price : Z) (value : Z → Z → pres Z) : M unit :=
  _ ← check_gas price; a ← pop; b ← pop; r ← lift (value a b); _ ← push r; charge price.
(** With a zero divisor the result is zero and no gas is charged. *)
Definition division `{Profile} (price : Z) (value : Z → Z → pres Z) : M unit :=
  _ ← check_gas price; a ← pop; b ← pop;
  if b =? 0 then _ ← push 0; continue else r ← lift (value a b); _ ← push r; charge price.
Definition modular `{Profile} (price : Z) (value : Z → Z → Z → pres Z) : M unit :=
  _ ← check_gas price; a ← pop; b ← pop; n ← pop;
  if n =? 0 then _ ← push 0; continue else r ← lift (value a b n); _ ← push r; charge price.
(** How [lift] of a value and what follows it end. *)
Definition outcome_of (m : pres Z) (k : Z → State) : flow unit :=
  match m with Ok r => Next tt (k r) | Err e => match e with end | Panic => Panics | OutOfFuel => NoFuel end.

Section Shapes.
Context `{Profile} (keccak256 : list Z → list Z).

Lemma step_fetch s op price :
  ready s op price → step keccak256 s = exec_opcode keccak256 op (fetch s).
Proof.
  intros [Hc Hpc _ _ _]. unfold step, mbind, M_bind, get_frame, CallFrame.next_opcode,
    CallFrame.opcode_at, CallFrame.increment_pc, CallFrame.increment_pc_by.
  rewrite Hc, Opcode.from_to_u8. cbn [mbind res_mbind]. by rewrite uadd_ok by lia.
Qed.

Lemma check_gas_ok s price :
  0 <= price → 0 <= consumed s → consumed s + price <= VM.gas_limit (tx_env s) < 2 ^ 64 →
  check_gas price s = Next tt s.
Proof.
  intros. unfold check_gas, mbind, M_bind, get_tx_env, consumed in *. rewrite uadd_ok by lia.
  cbn. by decide_bools.
Qed.
Lemma charge_ok s price :
  0 <= price → 0 <= consumed s → consumed s + price < 2 ^ 64 →
  charge price s =
    Next tt (mkState (self s) (VM.set_consumed_gas (consumed s + price) (tx_env s)) (block_env s) (frame s)).
Proof.
  intros. unfold charge, mbind, M_bind, get_tx_env, consumed in *. by rewrite uadd_ok by lia.
Qed.
Lemma pop_ok s x st : CallFrame.stack (frame s) = x :: st →
  pop s = Next x (mkState (self s) (tx_env s) (block_env s) (CallFrame.set_stack st (frame s))).
Proof. intros Hs. unfold pop, mbind, M_bind, get_frame. by rewrite Hs. Qed.

Lemma binary_run price value s op a b st :
  ready s op price → CallFrame.stack (frame s) = a :: b :: st →
  binary price value (fetch s) =
  outcome_of (value a b) (λ r, after s (r :: st) (consumed s + price)).
Proof.
  intros [_ _ Hp Hg Hl] Hs. unfold binary. unfold mbind, M_bind.
  rewrite check_gas_ok by done. erewrite pop_ok by exact Hs. erewrite pop_ok by reflexivity.
  unfold lift, outcome_of. destruct (value a b) as [r|[]| |]; [|done..].
  unfold push, mbind, M_bind, get_frame, set_frame. by rewrite charge_ok by (unfold consumed in *; cbn in *; lia).
Qed.

Lemma division_run price value s op a b st :
  ready s op price → CallFrame.stack (frame s) = a :: b :: st →
  division price value (fetch s) =
  if b =? 0 then Continue (after s (0 :: st) (consumed s))
  else outcome_of (value a b) (λ r, after s (r :: st) (consumed s + price)).
Proof.
  intros [_ _ Hp Hg Hl] Hs. unfold division. unfold mbind, M_bind.
  rewrite check_gas_ok by done. erewrite pop_ok by exact Hs. erewrite pop_ok by reflexivity.
  destruct (b =? 0); [by destruct s as [? [] ? ?]|].
  unfold lift, outcome_of. destruct (value a b) as [r|[]| |]; [|done..].
  unfold push, mbind, M_bind, get_frame, set_frame. by rewrite charge_ok by (unfold consumed in *; cbn in *; lia).
Qed.

Lemma modular_run price value s op a b n st :
  ready s op price → CallFrame.stack (frame s) = a :: b :: n :: st →
  modular price value (fetch s) =
  if n =? 0 then Continue (after s (0 :: st) (consumed s))
  else outcome_of (value a b n) (λ r, after s (r :: st) (consumed s + price)).
Proof.
  intros [_ _ Hp Hg Hl] Hs. unfold modular. unfold mbind, M_bind.
  rewrite check_gas_ok by done. erewrite pop_ok by exact Hs. do 2 erewrite pop_ok by reflexivity.
  destruct (n =? 0); [by destruct s as [? [] ? ?]|].
  unfold lift, outcome_of. destruct (value a b n) as [r|[]| |]; [|done..].
  unfold push, mbind, M_bind, get_frame, set_frame. by rewrite charge_ok by (unfold consumed in *; cbn in *; lia).
Qed.
End Shapes.

(** The instructions with two operands: price and result. *)
Definition evm_binop (op : Opcode.t) : option (Z * (Z → Z → Z)) :=
  match op with
  | Opcode.ADD => Some (3, Evm.add)
  | Opcode.MUL => Some (5, Evm.mul)
  | Opcode.SUB => Some (3, Evm.sub)
  | Opcode.SIGNEXTEND => Some (5, Evm.signextend)
  | Opcode.LT => Some (3, Evm.lt)
  | Opcode.GT => Some (3, Evm.gt)
  | Opcode.SLT => Some (3, Evm.slt)
  | Opcode.SGT => Some (3, Evm.sgt)
  | Opcode.EQ => Some (3, Evm.eq)
  | Opcode.AND => Some (3, Z.land)
  | Opcode.OR => Some (3, Z.lor)
  | Opcode.XOR => Some (3, Z.lxor)
  | Opcode.BYTE => Some (3, Evm.byte)
  | Opcode.SHL => Some (3, Evm.shl)
  | Opcode.SHR => Some (3, Evm.shr)
  | Opcode.SAR => Some (3, Evm.sar)
  | _ => None
  end.

(** The computations of the code for them. *)
Definition code_binop `{Profile} (op : Opcode.t) (a b : Z) : pres Z :=
  match op with
  | Opcode.ADD => Ok (U256.overflowing_add a b).1
  | Opcode.MUL => Ok (U256.overflowing_mul a b).1
  | Opcode.SUB => Ok (U256.overflowing_sub a b).1
  | Opcode.SIGNEXTEND => signextend_value a b
  | Opcode.LT => Ok (if a <? b then 1 else 0)
  | Opcode.GT => Ok (if b <? a then 1 else 0)
  | Opcode.SLT => slt_value a b
  | Opcode.SGT => sgt_value a b
  | Opcode.EQ => Ok (if a =? b then 1 else 0)
  | Opcode.AND => Ok (Z.land a b)
  | Opcode.OR => Ok (Z.lor a b)
  | Opcode.XOR => Ok (Z.lxor a b)
  | Opcode.BYTE => byte_value a b
  | Opcode.SHL => Ok (if a <? 256 then U256.shl b a else 0)
  | Opcode.SHR => Ok (if a <? 256 then U256.shr b a else 0)
  | Opcode.SAR => sar_value a b
  | _ => Panic
  end.

Lemma binop_shape `{Profile} keccak256 op price f s :
  evm_binop op = Some (price, f) →
  exec_opcode keccak256 op s = binary price (code_binop op) s.
Proof. destruct op; intros [= <- <-]; reflexivity. Qed.

Lemma binop_value `{Profile} op price f a b :
  evm_binop op = Some (price, f) → is_u256 a → is_u256 b → code_binop op a b = Ok (f a b).
Proof.
  intros Hop Ha Hb. destruct op; injection Hop as <- <- || discriminate Hop; cbn [code_binop];
    first [ done | by apply signextend_value_eq | by apply slt_value_eq | by apply sgt_value_eq
          | by apply byte_value_eq | by apply sar_value_eq
          | by rewrite shl_eq | by rewrite shr_eq ].
Qed.

(** C6: the instructions with two operands that cannot fail compute what the EVM
    specification says: on any two words, with the price available, they replace
    the operands by the result, charge the price, move to the next instruction and
    change nothing else.  Covers wrapping arithmetic, signed and unsigned
    comparison, bitwise logic, byte selection, shifts (arithmetic shift included)
    and sign extension. *)
Theorem binop_correct (P : Profile) (keccak256 : list Z → list Z) (s : State) (op : Opcode.t)
    (price : Z) (f : Z → Z → Z) (a b : Z) (st : list Z) :
  evm_binop op = Some (price, f) → ready s op price →
  CallFrame.stack (frame s) = a :: b :: st → is_u256 a → is_u256 b →
  step keccak256 s = Next tt (after s (f a b :: st) (consumed s + price)).
Proof.
  intros Hop Hr Hs Ha Hb. rewrite (step_fetch _ _ _ _ Hr), (binop_shape _ _ _ _ _ Hop).
  by rewrite (binary_run _ _ _ _ _ _ _ Hr Hs), (binop_value _ _ _ _ _ Hop).
Qed.

(** A machine about to run [op] on [stack]. *)
Definition op_state (op : Opcode.t) (stack : list Z) : State :=
  let vm := VM.new [Opcode.to_u8 op] zero_address 0 in
  mkState (VM.set_call_frames [] vm) vm BlockEnv.Default
    (CallFrame.set_stack stack (CallFrame.new_from_bytecode [Opcode.to_u8 op])).
Definition no_hash (_ : list Z) : list Z := replicate 32 0.

(** -8 shifted right by one, arithmetically. *)
Lemma binop_correct_witness :
  step (H:=dev_profile) no_hash (op_state Opcode.SAR [1; U256_MOD - 8]) =
  Next tt (after (op_state Opcode.SAR [1; U256_MOD - 8]) [U256_MOD - 4] 21003).
Proof.
  apply (binop_correct dev_profile no_hash (op_state Opcode.SAR [1; U256_MOD - 8]) Opcode.SAR 3
    Evm.sar 1 (U256_MOD - 8) []); [done|split; by vm_compute|done|by vm_compute|by vm_compute].
Defined.

(** The outcome of the dividing instructions on a nonzero divisor. *)
Definition division_outcome (op : Opcode.t) (a b : Z) : option (pres Z) :=
  match op with
  | Opcode.DIV => Some (Ok (Evm.div a b))
  | Opcode.MOD => Some (Ok (Evm.mod_ a b))
  | Opcode.SDIV => Some
      (if xorb (signed a <? 0) (signed b <? 0) && (Z.abs (signed a) <? Z.abs (signed b))
       then Panic else Ok (Evm.sdiv a b))
  | Opcode.SMOD => Some
      (if xorb (signed a <? 0) (signed b <? 0) && (Z.rem (signed a) (signed b) =? 0)
       then Panic else Ok (unsigned (Z.sgn (signed b) * Z.rem (signed a) (signed b))))
  | _ => None
  end.

Definition code_division (op : Opcode.t) : Z → Z → pres Z :=
  match op with
  | Opcode.DIV => U256.div
  | Opcode.MOD => U256.rem
  | Opcode.SDIV => sdiv_value
  | _ => smod_value
  end.

Lemma division_shape `{Profile} keccak256 op a b r s :
  division_outcome op a b = Some r → exec_opcode keccak256 op s = division 5 (code_division op) s.
Proof. destruct op; intros [= <-]; reflexivity. Qed.
Lemma division_value op a b r :
  division_outcome op a b = Some r → is_u256 a → is_u256 b → b ≠ 0 → code_division op a b = r.
Proof.
  intros Hop Ha Hb Hb0. destruct op; injection Hop as <- || discriminate Hop; cbn [code_division].
  - unfold U256.div, Evm.div. by decide_bools.
  - by apply sdiv_value_eq.
  - unfold U256.rem, Evm.mod_. by decide_bools.
  - by apply smod_value_eq.
Qed.

(** The dividing instructions.  A zero divisor gives zero and charges nothing.
    Otherwise DIV and MOD are right; SDIV is right unless the operands differ in
    sign and the quotient is zero, where it panics; SMOD panics when they differ in
    sign and the remainder is zero, and else computes the remainder with its sign
    flipped when the divisor is negative, so that it is right exactly for positive
    divisors and zero remainders. *)
Theorem division_correct (P : Profile) (keccak256 : list Z → list Z) (s : State) (op : Opcode.t)
    (a b : Z) (r : pres Z) (st : list Z) :
  division_outcome op a b = Some r → ready s op 5 →
  CallFrame.stack (frame s) = a :: b :: st → is_u256 a → is_u256 b →
  step keccak256 s =
  if b =? 0 then Continue (after s (0 :: st) (consumed s))
  else outcome_of r (λ v, after s (v :: st) (consumed s + 5)).
Proof.
  intros Hop Hr Hs Ha Hb. rewrite (step_fetch _ _ _ _ Hr), (division_shape _ _ _ _ _ _ Hop).
  rewrite (division_run _ _ _ _ _ _ _ Hr Hs). case_match; [done|]. bool_prop.
  by rewrite (division_value _ _ _ _ Hop).
Qed.

(** -7 / 2 = -3 goes through; 1 / -2 panics. *)
Lemma division_correct_witness :
  step (H:=dev_profile) no_hash (op_state Opcode.SDIV [U256_MOD - 7; 2]) =
    Next tt (after (op_state Opcode.SDIV [U256_MOD - 7; 2]) [U256_MOD - 3] 21005) ∧
  step (H:=dev_profile) no_hash (op_state Opcode.SDIV [1; U256_MOD - 2]) = Panics.
Proof.
  split.
  - apply (division_correct dev_profile no_hash (op_state Opcode.SDIV [U256_MOD - 7; 2]) Opcode.SDIV
      (U256_MOD - 7) 2 (Ok (U256_MOD - 3)) []);
      [by vm_compute|split; by vm_compute|done|by vm_compute|by vm_compute].
  - apply (division_correct dev_profile no_hash (op_state Opcode.SDIV [1; U256_MOD - 2]) Opcode.SDIV
      1 (U256_MOD - 2) Panic []);
      [by vm_compute|split; by vm_compute|done|by vm_compute|by vm_compute].
Defined.

(** MULMOD is right on all words (the product is taken at full width); ADDMOD
    is right exactly as long as the sum of the operands fits a word, and on an
    overflow pushes the wrapped difference [(a + b - 2^256) mod n - n]. *)
Theorem modular_correct (P : Profile) (keccak256 : list Z → list Z) (s : State) (op : Opcode.t)
    (a b n : Z) (st : list Z) :
  op = Opcode.ADDMOD ∨ op = Opcode.MULMOD → ready s op 8 →
  CallFrame.stack (frame s) = a :: b :: n :: st → is_u256 a → is_u256 b → is_u256 n → n ≠ 0 →
  step keccak256 s = Next tt (after s (
    (if decide (op = Opcode.MULMOD) then Evm.mulmod a b n
     else if a + b <? U256_MOD then Evm.addmod a b n
     else unsigned ((a + b - U256_MOD) mod n - n)) :: st) (consumed s + 8)).
Proof.
  intros Hop Hr Hs Ha Hb Hn Hn0. rewrite (step_fetch _ _ _ _ Hr).
  destruct Hop as [-> | ->]; cbn [exec_opcode].
  - change op_ADDMOD with (modular 8 addmod_value).
    rewrite (modular_run _ _ _ _ _ _ _ _ Hr Hs), addmod_value_eq by done. decide_bools.
    by case_match.
  - change op_MULMOD with (modular 8 mulmod_value).
    rewrite (modular_run _ _ _ _ _ _ _ _ Hr Hs), mulmod_value_eq by done. by decide_bools.
Qed.

(** The overflowing ADDMOD: 2^256 - 1 plus 2 modulo 5 is 2, not 2^256 - 4. *)
Lemma modular_correct_witness :
  Evm.addmod U256_MAX 2 5 = 2 ∧
  step (H:=dev_profile) no_hash (op_state Opcode.ADDMOD [U256_MAX; 2; 5]) =
    Next tt (after (op_state Opcode.ADDMOD [U256_MAX; 2; 5]) [U256_MOD - 4] 21008).
Proof.
  split; [by vm_compute|].
  apply (modular_correct dev_profile no_hash (op_state Opcode.ADDMOD [U256_MAX; 2; 5]) Opcode.ADDMOD
    U256_MAX 2 5 []); [by left|split; by vm_compute|done|by vm_compute|by vm_compute|by vm_compute|done].
Defined.
