(* ===== verification/VmOps.v ===== *)
(** * Control flow, stack and storage instructions

    Exact outcomes of JUMP, of the assembled PUSH, of SSTORE and SLOAD, and of EXP. *)

From S2P Require Import Prelude U256 Opcodes Memory Vm VmEffects VmLaws VmArith.

(** Gas conditions of intermediate states. *)
Ltac gas_side :=
  unfold consumed in *;
  cbn [tx_env VM.consumed_gas VM.gas_limit VM.set_consumed_gas fetch] in *; lia.

Section Ops.
Context `{Profile} (keccak256 : list Z → list Z).

Lemma as_usize_small a : 0 <= a < 2 ^ 64 → U256.as_usize a = Ok a.
Proof. intros. unfold U256.as_usize. by decide_bools. Qed.

(** [jump] succeeds exactly on a byte 0x5b of the code. *)
Lemma frame_jump_eq f a :
  CallFrame.jump f a =
  if (a <? 2 ^ 64) && bool_decide (CallFrame.bytecode f !! Z.to_nat a = Some 0x5b)
  then Ok (CallFrame.set_pc a f) else Panic.
Proof.
  unfold CallFrame.jump, CallFrame.valid_jump, CallFrame.opcode_at, U256.as_usize.
  destruct (a <? 2 ^ 64); [|done]. cbn [andb]. rewrite !bind_Ok_l.
  destruct (CallFrame.bytecode f !! Z.to_nat a) as [b|]; [|by rewrite bool_decide_false].
  destruct (Opcode.from b) as [op|[]| |] eqn:Ho.
  - apply Opcode.from_Ok in Ho as ->. cbn [mbind res_mbind].
    destruct (decide (op = Opcode.JUMPDEST)) as [->|Hne].
    + rewrite !bool_decide_true by done. done.
    + rewrite !bool_decide_false; [done| |done].
      intros [= Heq]. by apply Hne, Opcode.to_u8_inj.
  - rewrite bool_decide_false; [done|]. intros [= ->]. by vm_compute in Ho.
  - exfalso. revert Ho. unfold Opcode.from. by repeat case_match.
Qed.
End Ops.

(** JUMP, with its price available, moves exactly to the offset on the stack when
    that offset holds the byte of JUMPDEST, and panics on every other offset; nothing
    but the stack, the program counter and the gas changes. *)
Theorem jump_correct (P : Profile) (keccak256 : list Z → list Z) (s : State) (a : Z) (st : list Z) :
  ready s Opcode.JUMP 8 → CallFrame.stack (frame s) = a :: st →
  step keccak256 s =
  if (a <? 2 ^ 64) && bool_decide (CallFrame.bytecode (frame s) !! Z.to_nat a = Some 0x5b)
  then Next tt (mkState (self s) (VM.set_consumed_gas (consumed s + 8) (tx_env s)) (block_env s)
                  (CallFrame.set_pc a (CallFrame.set_stack st (frame s))))
  else Panics.
Proof.
  intros Hr Hs. rewrite (step_fetch _ _ _ _ Hr). cbn [exec_opcode]. destruct Hr as [_ _ _ Hg Hl].
  unfold op_JUMP, mbind, M_bind. rewrite check_gas_ok by done. erewrite pop_ok by exact Hs.
  unfold frame_jump, mbind, M_bind, get_frame. rewrite frame_jump_eq.
  cbn [frame CallFrame.bytecode CallFrame.set_stack fetch CallFrame.set_pc].
  destruct (_ && _); [|done]. cbn [lift]. unfold set_frame.
  by rewrite charge_ok by (unfold consumed, gas_cost.JUMP in *; cbn in *; lia).
Qed.

(** A jump into the immediate of a PUSH1 goes through: [PUSH1 0x5b; JUMP]. *)
Definition jump_state : State :=
  let code := [0x60; 0x5b; 0x56] in
  let vm := VM.new code zero_address 0 in
  mkState (VM.set_call_frames [] vm) vm BlockEnv.Default
    (CallFrame.set_pc 2 (CallFrame.set_stack [1] (CallFrame.new_from_bytecode code))).
Lemma jump_correct_witness :
  step (H:=dev_profile) no_hash jump_state =
  Next tt (mkState (self jump_state) (VM.set_consumed_gas 21008 (tx_env jump_state))
    (block_env jump_state) (CallFrame.set_pc 1 (CallFrame.set_stack [] (frame jump_state)))).
Proof.
  apply (jump_correct dev_profile no_hash jump_state 1 []); [split; by vm_compute|done].
Defined.

(** ** Assembled PUSH *)
Section Push.
Context `{Profile} (keccak256 : list Z → list Z).

Lemma bits_bytes v n : is_u256 v → 0 <= n → (U256.bits v + 7) / 8 <= n → v < 256 ^ n.
Proof.
  intros Hv Hn Hb. rewrite pow256 by done. unfold U256.bits in Hb. destruct (v =? 0) eqn:E; bool_prop.
  - subst. apply Z.pow_pos_nonneg; lia.
  - unfold is_u256 in Hv. pose proof (Z.log2_spec v ltac:(lia)) as [_ Hlt].
    eapply Z.lt_le_trans; [exact Hlt|]. apply Z.pow_le_mono_r; [lia|]. divlia.
Qed.

(** The bytes of [Push((n, v))], for 1 to 32 bytes. *)
Lemma push_bytecode n v code :
  1 <= n → is_u256 v → Operation.to_bytecode (Operation.Push n v) = Ok code →
  ∃ op, Opcode.to_u8 op = 0x5f + n ∧ code = (0x5f + n) :: to_be (Z.to_nat n) v ∧ v < 256 ^ n ∧ n <= 32.
Proof.
  intros Hn Hv Hc. cbn [Operation.to_bytecode] in Hc.
  destruct (n <=? 32) eqn:E1; bool_prop; [|done]. cbn [negb] in Hc.
  destruct ((U256.bits v + 7) / 8 <=? n) eqn:E2; bool_prop; [|done]. cbn [negb] in Hc. cbv zeta in Hc.
  rewrite slice_from_ok, bind_Ok_l in Hc by (rewrite to_be_zlen; lia).
  assert (zdrop (32 - n) (to_be 32 v) = to_be (Z.to_nat n) v) as Hd.
  { replace 32%nat with (Z.to_nat (32 - n) + Z.to_nat n)%nat by lia. rewrite to_be_app.
    apply zdrop_app_exact. rewrite to_be_zlen. lia. }
  rewrite Hd, to_be_zlen in Hc. rewrite Z2Nat.id, Z.eqb_refl in Hc by lia. cbn [negb] in Hc.
  rewrite checked_in, bind_Ok_l in Hc by (cbn; lia).
  apply bind_Ok in Hc as (op & Ho & [= <-]). apply Opcode.from_Ok in Ho. cbn in Ho.
  exists op. rewrite <-Ho. split_and!; try done. apply bits_bytes; lia || done.
Qed.

Lemma push_immediate_run s n bytes :
  0 <= consumed s → consumed s + 3 <= VM.gas_limit (tx_env s) < 2 ^ 64 →
  0 <= CallFrame.pc (frame s) → CallFrame.pc (frame s) + n < 2 ^ 64 → zlen bytes = n →
  (∃ pre post, CallFrame.bytecode (frame s) = pre ++ bytes ++ post ∧ zlen pre = CallFrame.pc (frame s)) →
  push_immediate n s = Next tt (mkState (self s) (VM.set_consumed_gas (consumed s + 3) (tx_env s))
    (block_env s) (CallFrame.set_pc (CallFrame.pc (frame s) + n)
      (CallFrame.set_stack (of_be bytes :: CallFrame.stack (frame s)) (frame s)))).
Proof.
  intros Hg Hl Hpc Hn Hb (pre & post & Hcode & Hpre). pose proof (zlen_nonneg bytes).
  unfold push_immediate, mbind, M_bind. rewrite check_gas_ok by (unfold gas_cost.PUSHN; lia).
  unfold get_frame. rewrite uadd_ok by lia. cbn [lift]. rewrite Hcode, slice_ok by (rewrite ?zlen_app; pose proof (zlen_nonneg post); lia).
  cbn [lift]. rewrite zdrop_app_exact, ztake_app_exact by lia.
  unfold push, mbind, M_bind, get_frame, set_frame, CallFrame.increment_pc_by. cbn.
  rewrite uadd_ok by lia. cbn. by rewrite charge_ok by (unfold consumed, gas_cost.PUSHN in *; cbn in *; lia).
Qed.

Lemma exec_push op n : Opcode.to_u8 op = 0x5f + n → 1 <= n <= 32 →
  exec_opcode keccak256 op = push_immediate n.
Proof.
  intros Ho Hn. destruct op; cbn [Opcode.to_u8] in Ho; try lia; exec_arm.
  all: unfold op_PUSHN, op_PUSH32, WORD_SIZE; f_equal; cbn [Opcode.to_u8]; lia.
Qed.
End Push.

(** What [Operation::Push((n, v))] assembles to does push [v]: placed anywhere in
    the bytecode and reached with its price available, it pushes exactly the value it
    was built from and moves to the byte after it, for every size from 1 to 32 bytes. *)
Theorem assembled_push_correct (P : Profile) (keccak256 : list Z → list Z) (s : State)
    (n v : Z) (code pre post : list Z) :
  1 <= n → is_u256 v → Operation.to_bytecode (Operation.Push n v) = Ok code →
  CallFrame.bytecode (frame s) = pre ++ code ++ post → CallFrame.pc (frame s) = zlen pre →
  zlen (CallFrame.bytecode (frame s)) <= isize_max →
  0 <= consumed s → consumed s + 3 <= VM.gas_limit (tx_env s) < 2 ^ 64 →
  step keccak256 s = Next tt (mkState (self s) (VM.set_consumed_gas (consumed s + 3) (tx_env s))
    (block_env s) (CallFrame.set_pc (zlen pre + zlen code)
      (CallFrame.set_stack (v :: CallFrame.stack (frame s)) (frame s)))).
Proof.
  intros Hn Hv (op & Ho & -> & Hlt & Hn32)%push_bytecode Hcode Hpc Hlen Hg Hl; [|done..].
  rewrite Hcode in Hlen. zlen_simpl. pose proof (zlen_nonneg pre). pose proof (zlen_nonneg post).
  unfold isize_max in Hlen.
  assert (ready s op 3) as Hr.
  { split; try done; [|lia]. rewrite Hcode, Hpc, Ho. unfold zlen. rewrite Nat2Z.id.
    by rewrite lookup_app_r, Nat.sub_diag by lia. }
  rewrite (step_fetch _ _ _ _ Hr), (exec_push _ op n) by (done || lia).
  rewrite (push_immediate_run _ n (to_be (Z.to_nat n) v)); cbn [frame fetch CallFrame.pc CallFrame.set_pc];
    try (done || lia).
  - rewrite of_be_to_be_small by (rewrite Z2Nat.id by lia; split; [apply Hv|done]).
    rewrite Hpc. replace (zlen pre + 1 + n) with (zlen pre + (1 + Z.of_nat (Z.to_nat n))) by lia. done.
  - rewrite to_be_zlen. lia.
  - exists (pre ++ [0x5f + n]), post. cbn. rewrite Hcode, <-app_assoc. split; [done|]. zlen_simpl. lia.
Qed.

Definition push_state : State :=
  let code := [0x00; 0x61; 0x12; 0x34; 0x00] in
  let vm := VM.new code zero_address 0 in
  mkState (VM.set_call_frames [] vm) vm BlockEnv.Default
    (CallFrame.set_pc 1 (CallFrame.new_from_bytecode code)).
Lemma assembled_push_correct_witness :
  step (H:=dev_profile) no_hash push_state =
  Next tt (mkState (self push_state) (VM.set_consumed_gas 21003 (tx_env push_state))
    (block_env push_state)
    (CallFrame.set_pc 4 (CallFrame.set_stack [0x1234] (frame push_state)))).
Proof.
  apply (assembled_push_correct dev_profile no_hash push_state 2 0x1234 [0x61; 0x12; 0x34] [0x00] [0x00]);
    try done; by vm_compute.
Defined.

(** ** Storage *)

(** SSTORE in a static frame panics.  Elsewhere it sets the current value of
    exactly the slot [key] of the frame's storage address, keeps the original value
    of a slot that exists (a new slot gets the stored value as its original), and
    every later SLOAD of that key at that address, by any frame, pushes the value. *)
Theorem sstore_then_sload (P : Profile) (s : State) (key value : Z) (st : list Z) :
  CallFrame.stack (frame s) = key :: value :: st →
  let addr := storage_address (frame s) in
  let db := VM.db (self s) in
  if CallFrame.is_static (frame s) then op_SSTORE s = Panics
  else ∃ db',
    op_SSTORE s = Next tt (mkState (VM.set_db db' (self s)) (tx_env s) (block_env s)
                             (CallFrame.set_stack st (frame s))) ∧
    (∀ a k, Db.read_account_storage db' a k =
       if bool_decide (a = addr ∧ k = key)
       then Some (mkSlot (default value (original_value <$> Db.read_account_storage db addr key)) value)
       else Db.read_account_storage db a k) ∧
    (∀ s2 rest, VM.db (self s2) = db' → storage_address (frame s2) = addr →
       CallFrame.stack (frame s2) = key :: rest →
       op_SLOAD s2 = Next tt (mkState (self s2) (tx_env s2) (block_env s2)
                                (CallFrame.set_stack (value :: rest) (frame s2)))).
Proof.
  intros Hs addr db. unfold op_SSTORE, mbind, M_bind, get_frame, get_self, set_self.
  destruct (CallFrame.is_static (frame s)); [done|].
  set (slot := mkSlot (default value (original_value <$> Db.read_account_storage db addr key)) value).
  assert (∀ a k, Db.read_account_storage (Db.write_account_storage db addr key slot) a k =
    if bool_decide (a = addr ∧ k = key) then Some slot else Db.read_account_storage db a k) as Hread.
  { intros a k. rewrite read_write_storage.
    rewrite (bool_decide_ext (addr = a ∧ key = k) (a = addr ∧ k = key)); [done|].
    by split; intros [-> ->]. }
  exists (Db.write_account_storage db addr key slot). split; [|split; [exact Hread|]].
  - erewrite pop_ok by exact Hs. erewrite pop_ok by reflexivity. cbn.
    change (storage_address _) with addr. fold db. by destruct (Db.read_account_storage db addr key).
  - intros s2 rest Hdb Ha Hs2. unfold op_SLOAD, mbind, M_bind. erewrite pop_ok by exact Hs2.
    unfold get_frame, get_self, push, mbind, M_bind. cbn.
    change (storage_address (CallFrame.set_stack _ _)) with (storage_address (frame s2)).
    rewrite Hdb, Ha, Hread, bool_decide_true by done. by destruct s2 as [? ? ? []].
Qed.

Definition sstore_state : State :=
  let vm := VM.new [] zero_address 0 in
  mkState (VM.set_call_frames [] vm) vm BlockEnv.Default
    (CallFrame.set_stack [3; 9] (CallFrame.new_from_bytecode [])).
Lemma sstore_then_sload_witness :
  ∃ db', op_SSTORE sstore_state =
    Next tt (mkState (VM.set_db db' (self sstore_state)) (tx_env sstore_state)
      (block_env sstore_state) (CallFrame.set_stack [] (frame sstore_state))) ∧
    Db.read_account_storage db' zero_address 3 = Some (mkSlot 9 9).
Proof.
  destruct (sstore_then_sload dev_profile sstore_state 3 9 [] eq_refl) as (db' & Hs & Hr & _).
  exists db'. split; [exact Hs|]. by rewrite Hr.
Defined.

(** ** Memory *)

Lemma pop_usize_ok s x st : CallFrame.stack (frame s) = x :: st → x < 2 ^ 64 →
  pop_usize s = Next x (mkState (self s) (tx_env s) (block_env s) (CallFrame.set_stack st (frame s))).
Proof.
  intros Hs Hx. unfold pop_usize, mbind, M_bind. rewrite (pop_ok _ _ _ Hs).
  unfold U256.try_into_usize. by decide_bools.
Qed.

Lemma mstore_run `{Profile} s offset value st c m' :
  CallFrame.stack (frame s) = offset :: value :: st → 0 <= offset < 2 ^ 63 →
  Memory.expansion_cost (CallFrame.memory (frame s)) (offset + 32) = Ok c → 0 <= c →
  Memory.store_bytes (CallFrame.memory (frame s)) offset (to_be 32 value) = Ok m' →
  0 <= consumed s → consumed s + (3 + c) <= VM.gas_limit (tx_env s) < 2 ^ 64 →
  op_MSTORE s = Next tt (mkState (self s) (VM.set_consumed_gas (consumed s + (3 + c)) (tx_env s))
    (block_env s) (CallFrame.set_memory m' (CallFrame.set_stack st (frame s)))).
Proof.
  intros Hs Ho Hc Hc0 Hst Hg Hl.
  unfold op_MSTORE, mem_expansion_cost, mem_store_bytes, set_memory, mbind, M_bind.
  rewrite (pop_usize_ok _ _ _ Hs) by lia. unfold WORD_SIZE. rewrite uadd_ok by lia.
  unfold lift, get_frame, set_frame. cbn [frame CallFrame.memory CallFrame.set_stack]. rewrite Hc.
  unfold gas_cost.MSTORE_STATIC. rewrite uadd_ok, check_gas_ok by gas_side.
  erewrite pop_ok by reflexivity. cbn [frame CallFrame.memory CallFrame.set_stack]. rewrite Hst.
  by rewrite charge_ok by gas_side.
Qed.

Lemma mload_run `{Profile} s offset st value :
  CallFrame.stack (frame s) = offset :: st → 0 <= offset < 2 ^ 63 →
  offset + 32 <= zlen (data (CallFrame.memory (frame s))) →
  Memory.load (CallFrame.memory (frame s)) offset = Ok (value, CallFrame.memory (frame s)) →
  0 <= consumed s → consumed s + 3 <= VM.gas_limit (tx_env s) < 2 ^ 64 →
  op_MLOAD s = Next tt (mkState (self s) (VM.set_consumed_gas (consumed s + 3) (tx_env s))
    (block_env s) (CallFrame.set_stack (value :: st) (frame s))).
Proof.
  intros Hs Ho Hlen Hld Hg Hl.
  unfold op_MLOAD, mem_expansion_cost, mem_load, set_memory, mbind, M_bind.
  rewrite (pop_usize_ok _ _ _ Hs) by lia. unfold WORD_SIZE. rewrite uadd_ok by lia.
  unfold lift, get_frame, set_frame. cbn [frame CallFrame.memory CallFrame.set_stack].
  unfold Memory.expansion_cost. decide_bools. unfold gas_cost.MLOAD_STATIC.
  rewrite uadd_ok, check_gas_ok by gas_side. cbn [frame CallFrame.memory CallFrame.set_stack].
  rewrite Hld. unfold mret, M_ret, push, mbind, M_bind, get_frame, set_frame.
  by rewrite charge_ok by gas_side.
Qed.

(** MSTORE followed by MLOAD at the same offset, with the gas for both at hand,
    gives the word back; the store pays for the growth of the memory and the load
    pays only its static price. *)
Theorem mstore_then_mload (P : Profile) (s : State) (offset value : Z) (st : list Z) :
  CallFrame.stack (frame s) = offset :: value :: st → Memory.wf (CallFrame.memory (frame s)) →
  0 <= offset < 2 ^ 36 → is_u256 value → 0 <= consumed s →
  let growth := Z.max 0 (Memory.words_cost (Memory.round_up (offset + 32) / 32) -
                         Memory.words_cost (Memory.size (CallFrame.memory (frame s)) / 32)) in
  consumed s + (3 + growth) + 3 <= VM.gas_limit (tx_env s) < 2 ^ 64 →
  ∃ s1, op_MSTORE s = Next tt s1 ∧ CallFrame.stack (frame s1) = st ∧
    consumed s1 = consumed s + (3 + growth) ∧
    ∀ s2, s2 = mkState (self s1) (tx_env s1) (block_env s1) (CallFrame.set_stack (offset :: st) (frame s1)) →
      ∃ s3, op_MLOAD s2 = Next tt s3 ∧ CallFrame.stack (frame s3) = value :: st ∧
        consumed s3 = consumed s1 + 3 ∧ CallFrame.memory (frame s3) = CallFrame.memory (frame s1).
Proof.
  intros Hs Hm Ho Hv Hg growth Hl. set (m := CallFrame.memory (frame s)) in *.
  assert (Memory.round_up (offset + 32) <= isize_max) as Hr.
  { pose proof (Memory.round_up_spec (offset + 32)). unfold isize_max. lia. }
  destruct (Memory.store_load_word m offset value) as (m' & Hst & Hld & Hlen); [lia|done|done|].
  assert (0 <= growth) by (subst growth; lia).
  eexists. split; [apply (mstore_run _ _ _ _ growth m' Hs); try done; [lia| |lia]|].
  { by apply Memory.expansion_cost_ok; try lia. }
  split; [done|]. split; [done|]. intros s2 ->. eexists.
  split; [apply (mload_run _ offset st value); try done; first [lia|gas_side]|].
  done.
Qed.

Definition memory_state : State :=
  let vm := VM.new [] zero_address 0 in
  mkState (VM.set_call_frames [] vm) vm BlockEnv.Default
    (CallFrame.set_stack [40; 77] (CallFrame.new_from_bytecode [])).
Lemma mstore_then_mload_witness :
  ∃ s1, op_MSTORE (H:=dev_profile) memory_state = Next tt s1 ∧
    consumed s1 = 21012.
Proof.
  destruct (mstore_then_mload dev_profile memory_state 40 77 []) as (s1 & H1 & _ & H2 & _);
    [done|split_and!; [constructor|..]; by vm_compute|lia|by vm_compute|by vm_compute|by vm_compute|].
  exists s1. split; [exact H1|]. rewrite H2. by vm_compute.
Defined.
