(* ===== verification/VmTypes.v ===== *)
(** * Well-typed machines

    Every stack word is a 256-bit word, memories are made of whole words of bytes,
    storage values and block data are in range; every instruction keeps it so. *)

From S2P Require Import Prelude U256 Opcodes Memory Exponential Vm VmEffects VmArith.

Definition wf_bytes (l : list Z) : Prop := bytes_ok l ∧ zlen l <= isize_max.
Definition wf_hash (l : list Z) : Prop := bytes_ok l ∧ zlen l = 32.

Record wf_frame (f : CallFrame.t) : Prop := {
  wf_pc : 0 <= CallFrame.pc f < 2 ^ 64;
  wf_stack : Forall is_u256 (CallFrame.stack f);
  wf_memory : Memory.wf (CallFrame.memory f);
  wf_bytecode : wf_bytes (CallFrame.bytecode f);
  wf_calldata : wf_bytes (CallFrame.calldata f);
  wf_returndata : wf_bytes (CallFrame.returndata f);
  wf_msg_value : is_u256 (CallFrame.msg_value f);
  wf_transient : map_Forall (λ _ v, is_u256 v) (CallFrame.transient_storage f)
}.

Record wf_account (acc : Account.t) : Prop := {
  wf_balance : is_u256 (Account.balance acc);
  wf_code : wf_bytes (Account.bytecode acc);
  wf_storage : map_Forall (λ _ slot, is_u256 (original_value slot) ∧ is_u256 (current_value slot))
                 (Account.storage acc)
}.
Record wf_db (db : Db.t) : Prop := {
  wf_accounts : map_Forall (λ _ acc, wf_account acc) (Db.accounts db);
  wf_block_hashes : map_Forall (λ _ h, wf_hash h) (Db.block_hashes db)
}.
Record wf_block (b : BlockEnv.t) : Prop := {
  wf_number : is_u256 (BlockEnv.number b);
  wf_coinbase : bytes_ok (BlockEnv.coinbase b) ∧ zlen (BlockEnv.coinbase b) = 20;
  wf_timestamp : is_u256 (BlockEnv.timestamp b);
  wf_base_fee : is_u256 (BlockEnv.base_fee_per_gas b);
  wf_gas_limit : 0 <= BlockEnv.gas_limit b < 2 ^ 64;
  wf_chain_id : 0 <= BlockEnv.chain_id b < 2 ^ 64;
  wf_randao : ∀ h, BlockEnv.prev_randao b = Some h → wf_hash h
}.
Record wf_state (s : State) : Prop := {
  wfs_frame : wf_frame (frame s);
  wfs_frames : Forall wf_frame (VM.call_frames (self s));
  wfs_db : wf_db (VM.db (self s));
  wfs_block : wf_block (block_env s)
}.

(** ** Sizes *)
Lemma u64_u256 x : 0 <= x < 2 ^ 64 → is_u256 x.
Proof. unfold is_u256, U256_MOD. lia. Qed.
Lemma isize_u256 x : 0 <= x <= isize_max → is_u256 x.
Proof. unfold is_u256, U256_MOD, isize_max. lia. Qed.
Lemma small_u256 x n : 0 <= n <= 32 → 0 <= x < 256 ^ n → is_u256 x.
Proof.
  intros Hn Hx. unfold is_u256. change U256_MOD with (256 ^ 32).
  assert (256 ^ n <= 256 ^ 32) by (apply Z.pow_le_mono_r; lia). lia.
Qed.
Lemma of_be_u256 l : bytes_ok l → zlen l <= 32 → is_u256 (of_be l).
Proof. intros Hl Hn. pose proof (zlen_nonneg l). apply (small_u256 _ (zlen l)); [lia|]. by apply of_be_range. Qed.

Section Memory.
Context `{Profile}.

Lemma next_multiple_mod x n : 0 <= x → Memory.next_multiple_of x 32 = Ok n → 0 <= n ∧ n mod 32 = 0.
Proof.
  intros Hx Hn. unfold Memory.next_multiple_of in Hn. case_match eqn:E; bool_prop; [by simplify_eq|].
  pose proof (checked_range 64 _ _ ltac:(done) Hn). split; [lia|].
  unfold uadd, checked in Hn. repeat case_match; simplify_eq; [divlia|].
  set (y := x + (32 - x mod 32)) in *. assert (y mod 32 = 0) by (subst y; divlia).
  change (2 ^ 64) with (32 * 2 ^ 59). rewrite Z.rem_mul_r by lia.
  rewrite Z.add_mod, Z.mul_comm, Z.mod_mul by lia. divlia.
Qed.

Lemma resize_wf m n m' : Memory.wf m → 0 <= n → Memory.resize m n = Ok m' → Memory.wf m'.
Proof.
  intros Hm Hn Hr. unfold Memory.resize in Hr. apply bind_Ok in Hr as (k & Hk & Hr).
  apply next_multiple_mod in Hk as [Hk0 Hk]; [|done]. case_match eqn:E; bool_prop; [|by simplify_eq].
  unfold Memory.vec_resize in Hr. case_match eqn:E2; bool_prop; [done|].
  rewrite bind_Ok_l in Hr. injection Hr as <-. destruct Hm as (Hb & _ & Hl).
  assert (zlen (data m ++ replicate (Z.to_nat (k - zlen (data m))) 0) = k) as Hz.
  { zlen_simpl. lia. }
  split_and!; cbn [data]; rewrite ?Hz; try done.
  apply Forall_app; split; [done|]. by apply Forall_replicate.
Qed.

Lemma slice_wf (m : Memory) a b l :
  Memory.wf m → slice (E:=never) (data m) a b = Ok l → wf_bytes l ∧ zlen l = b - a.
Proof.
  intros (Hb & _ & Hl) (Ha & Hbl & -> & Hz)%slice_inv. split; [|done].
  split; [by apply Forall_take, Forall_drop|]. lia.
Qed.

Lemma load_range_wf m o n l m' :
  Memory.wf m → 0 <= o → 0 <= n → Memory.load_range m o n = Ok (l, m') → Memory.wf m' ∧ wf_bytes l.
Proof.
  intros Hm Ho Hn Hl. unfold Memory.load_range in Hl. apply bind_Ok in Hl as (e & He & Hl).
  apply checked_range in He; [|done]. apply bind_Ok in Hl as (m1 & Hr & Hl).
  apply resize_wf in Hr; [|done|lia]. apply bind_Ok in Hl as (v & Hv & [= <- <-]).
  by apply slice_wf in Hv as [? _].
Qed.

Lemma load_wf m o x m' :
  Memory.wf m → 0 <= o → Memory.load m o = Ok (x, m') → Memory.wf m' ∧ is_u256 x.
Proof.
  intros Hm Ho Hl. unfold Memory.load in Hl. apply bind_Ok in Hl as (e & He & Hl).
  pose proof (checked_range 64 _ _ ltac:(done) He). apply bind_Ok in Hl as (m1 & Hr & Hl).
  apply resize_wf in Hr; [|done|lia]. apply bind_Ok in Hl as (v & Hv & [= <- <-]).
  apply slice_wf in Hv as [[Hb _] Hz]; [|done]. split; [done|]. apply of_be_u256; [done|].
  unfold uadd, checked in He. repeat case_match; simplify_eq; [lia|].
  assert ((o + 32) mod 2 ^ 64 <= o + 32) by (apply Z.mod_le; lia). lia.
Qed.

Lemma splice_wf' m a e v d :
  Memory.wf m → bytes_ok v → zlen v <= isize_max → 0 <= a →
  uadd (E:=never) a (zlen v) = Ok e → Memory.splice (data m) a e v = Ok d → Memory.wf (mkMemory d).
Proof.
  intros Hm Hv Hvl Ha He Hs. pose proof (zlen_nonneg v). unfold Memory.splice in Hs.
  apply bind_Ok in Hs as (pre & Hpre & Hs). apply bind_Ok in Hs as (mid & Hmid & Hs).
  apply bind_Ok in Hs as (post & Hpost & [= <-]).
  apply slice_inv in Hmid as (Hae & Hel & _ & _).
  assert (e = a + zlen v) as ->.
  { unfold uadd, checked in He. destruct Hm as (_ & _ & Hl). unfold in_width, isize_max in *.
    repeat case_match; simplify_eq; [done|].
    assert ((a + zlen v) mod 2 ^ 64 = a + zlen v - 2 ^ 64); [|lia].
    rewrite <-(Z.mod_add _ (-1)) by done. rewrite Z.mod_small; lia. }
  unfold slice_to, slice_from in *. rewrite slice_ok in Hpre, Hpost by lia.
  injection Hpre as <-. injection Hpost as <-.
  rewrite Z.sub_0_r, zdrop_0. rewrite (ztake_all _ (zdrop _ _)) by (rewrite zlen_zdrop; lia).
  by apply Memory.splice_wf.
Qed.

Lemma store_bytes_wf m o v m' :
  Memory.wf m → wf_bytes v → 0 <= o → Memory.store_bytes m o v = Ok m' → Memory.wf m'.
Proof.
  intros Hm [Hv Hvl] Ho Hs. unfold Memory.store_bytes in Hs. apply bind_Ok in Hs as (e & He & Hs).
  pose proof (checked_range 64 _ _ ltac:(done) He). apply bind_Ok in Hs as (m1 & Hr & Hs).
  apply resize_wf in Hr; [|done|lia]. apply bind_Ok in Hs as (d & Hd & [= <-]).
  by eapply splice_wf'.
Qed.

Lemma copy_wf m src dest n m' :
  Memory.wf m → 0 <= src → 0 <= dest → 0 <= n < 2 ^ 64 → Memory.copy m src dest n = Ok m' → Memory.wf m'.
Proof.
  intros Hm Hs Hd Hn Hc. unfold Memory.copy in Hc.
  apply bind_Ok in Hc as (se & Hse & Hc). apply bind_Ok in Hc as (de & Hde & Hc).
  apply bind_Ok in Hc as (m1 & Hr & Hc). pose proof (checked_range 64 _ _ ltac:(done) Hse).
  apply resize_wf in Hr; [|done|lia]. apply bind_Ok in Hc as (tmp & Ht & Hc).
  apply slice_wf in Ht as Hw; [|done]. destruct Hw as [[Hb Hl] Hz].
  apply bind_Ok in Hc as (d & Hsp & [= <-]).
  eapply splice_wf'; [done|done|done|done| |done].
  replace (zlen tmp) with n; [done|]. apply slice_inv in Ht as (? & ? & _ & _). rewrite Hz.
  unfold uadd, checked in Hse. repeat case_match; simplify_eq; [lia|]. unfold in_width in *.
  exfalso. assert ((src + n) mod 2 ^ 64 = src + n - 2 ^ 64); [|destruct Hr as (_ & _ & ?); unfold isize_max in *; lia].
  rewrite <-(Z.mod_add _ (-1)) by done. rewrite Z.mod_small; destruct Hr as (_ & _ & ?); unfold isize_max in *; lia.
Qed.
End Memory.

(** ** Preservation *)

(** [m] keeps the state well typed and returns values of [Q]. *)
Definition keeps {A} (m : M A) (Q : A → Prop) : Prop :=
  ∀ s, wf_state s → wp m (λ a s', wf_state s' ∧ Q a) wf_state wf_state s.
Definition is_u64 (x : Z) : Prop := 0 <= x < 2 ^ 64.

Section Rules.
Context `{Profile}.

Lemma keeps_bind {A B} (m : M A) (f : A → M B) R Q :
  keeps m R → (∀ a, R a → keeps (f a) Q) → keeps (m ≫= f) Q.
Proof.
  intros Hm Hf s Hs. apply wp_bind. specialize (Hm s Hs). unfold wp in *.
  destruct (m s) as [a s'| | | |]; try done. destruct Hm as [Hs' Ha]. by apply Hf.
Qed.
Lemma keeps_ret {A} (a : A) (Q : A → Prop) : Q a → keeps (mret a) Q.
Proof. intros HQ s Hs. by apply wp_ret. Qed.
Lemma keeps_lift {A} (m : pres A) (Q : A → Prop) : (∀ a, m = Ok a → Q a) → keeps (lift m) Q.
Proof. intros HQ s Hs. apply wp_lift. intros a Ha. split; [done|by apply HQ]. Qed.
Lemma keeps_panic {A} (Q : A → Prop) : keeps panic Q.
Proof. done. Qed.
Lemma keeps_break {A} (Q : A → Prop) : keeps break Q.
Proof. by intros s Hs. Qed.
Lemma keeps_continue {A} (Q : A → Prop) : keeps continue Q.
Proof. by intros s Hs. Qed.

Lemma keeps_get_frame : keeps get_frame wf_frame.
Proof. intros s Hs. split; [done|]. apply Hs. Qed.
Lemma keeps_set_frame f : wf_frame f → keeps (set_frame f) (λ _, True).
Proof. intros Hf s [? ? ? ?]. by split. Qed.
Lemma keeps_get_self : keeps get_self (λ v, Forall wf_frame (VM.call_frames v) ∧ wf_db (VM.db v)).
Proof. intros s Hs. split; [done|]. split; apply Hs. Qed.
Lemma keeps_set_self v :
  Forall wf_frame (VM.call_frames v) → wf_db (VM.db v) → keeps (set_self v) (λ _, True).
Proof. intros Hf Hdb s [? ? ? ?]. by split. Qed.
Lemma keeps_get_block_env : keeps get_block_env wf_block.
Proof. intros s Hs. split; [done|]. apply Hs. Qed.
Lemma keeps_get_tx_env : keeps get_tx_env (λ _, True).
Proof. by intros s Hs. Qed.
Lemma keeps_set_tx_env v : keeps (set_tx_env v) (λ _, True).
Proof. intros s [? ? ? ?]. by split. Qed.

(** Assignments to one field. *)
Lemma wf_set_stack st f : wf_frame f → Forall is_u256 st → wf_frame (CallFrame.set_stack st f).
Proof. intros [] ?. by split. Qed.
Lemma wf_set_memory m f : wf_frame f → Memory.wf m → wf_frame (CallFrame.set_memory m f).
Proof. intros [] ?. by split. Qed.
Lemma wf_set_pc p f : wf_frame f → is_u64 p → wf_frame (CallFrame.set_pc p f).
Proof. intros [] ?. by split. Qed.
Lemma wf_set_returndata l f : wf_frame f → wf_bytes l → wf_frame (CallFrame.set_returndata l f).
Proof. intros [] ?. by split. Qed.
Lemma wf_set_return_data a b f : wf_frame f → wf_frame (CallFrame.set_return_data a b f).
Proof. intros []. by split. Qed.
Lemma wf_set_logs l f : wf_frame f → wf_frame (CallFrame.set_logs l f).
Proof. intros []. by split. Qed.
Lemma wf_set_transient t f :
  wf_frame f → map_Forall (λ _ v, is_u256 v) t → wf_frame (CallFrame.set_transient_storage t f).
Proof. intros [] ?. by split. Qed.

Lemma keeps_pop : keeps pop is_u256.
Proof.
  eapply keeps_bind; [apply keeps_get_frame|]. intros f Hf.
  destruct (CallFrame.stack f) as [|x st] eqn:E; [apply keeps_panic|].
  pose proof (wf_stack _ Hf) as Hs. rewrite E in Hs. apply Forall_cons in Hs as [Hx Hst].
  eapply keeps_bind; [by apply keeps_set_frame, wf_set_stack|]. intros _ _. by apply keeps_ret.
Qed.
Lemma keeps_pop_usize : keeps pop_usize is_u64.
Proof.
  eapply keeps_bind; [apply keeps_pop|]. intros x Hx. apply keeps_lift. intros y Hy.
  unfold U256.try_into_usize in Hy. case_match eqn:E; simplify_eq/=; bool_prop.
  unfold is_u64, is_u256 in *. lia.
Qed.
Lemma keeps_pop_address : keeps pop_address (λ _, True).
Proof. eapply keeps_bind; [apply keeps_pop|]. intros x Hx. by apply keeps_ret. Qed.
Lemma keeps_push x : is_u256 x → keeps (push x) (λ _, True).
Proof.
  intros Hx. eapply keeps_bind; [apply keeps_get_frame|]. intros f Hf.
  apply keeps_set_frame, wf_set_stack; [done|]. constructor; [done|apply Hf].
Qed.
Lemma keeps_check_gas c : keeps (check_gas c) (λ _, True).
Proof.
  eapply keeps_bind; [apply keeps_get_tx_env|]. intros t _.
  eapply keeps_bind; [by apply (keeps_lift _ (λ _, True))|]. intros g _.
  case_match; [apply keeps_break|by apply keeps_ret].
Qed.
Lemma keeps_charge c : keeps (charge c) (λ _, True).
Proof.
  eapply keeps_bind; [apply keeps_get_tx_env|]. intros t _.
  eapply keeps_bind; [by apply (keeps_lift _ (λ _, True))|]. intros g _. apply keeps_set_tx_env.
Qed.
Lemma keeps_set_memory m : Memory.wf m → keeps (set_memory m) (λ _, True).
Proof.
  intros Hm. eapply keeps_bind; [apply keeps_get_frame|]. intros f Hf.
  by apply keeps_set_frame, wf_set_memory.
Qed.
Lemma keeps_expansion n : keeps (mem_expansion_cost n) (λ _, True).
Proof. eapply keeps_bind; [apply keeps_get_frame|]. intros f Hf. by apply keeps_lift. Qed.
Lemma keeps_word_count n : keeps (word_count n) (λ _, True).
Proof. do 2 (eapply keeps_bind; [by apply (keeps_lift _ (λ _, True))|intros ? _]). by apply keeps_ret. Qed.
Lemma keeps_load_range o n : is_u64 o → is_u64 n → keeps (mem_load_range o n) wf_bytes.
Proof.
  intros Ho Hn. eapply keeps_bind; [apply keeps_get_frame|]. intros f Hf.
  eapply keeps_bind; [by apply (keeps_lift _ (λ '(l, m), Memory.wf m ∧ wf_bytes l));
    intros [l m] Hl; eapply load_range_wf; [apply Hf|apply Ho|apply Hn|exact Hl]|].
  intros [l m] [Hm Hl]. eapply keeps_bind; [by apply keeps_set_memory|]. intros _ _. by apply keeps_ret.
Qed.
Lemma keeps_load o : is_u64 o → keeps (mem_load o) is_u256.
Proof.
  intros Ho. eapply keeps_bind; [apply keeps_get_frame|]. intros f Hf.
  eapply keeps_bind; [by apply (keeps_lift _ (λ '(x, m), Memory.wf m ∧ is_u256 x));
    intros [x m] Hl; eapply load_wf; [apply Hf|apply Ho|exact Hl]|].
  intros [l m] [Hm Hl]. eapply keeps_bind; [by apply keeps_set_memory|]. intros _ _. by apply keeps_ret.
Qed.
Lemma keeps_store o v : is_u64 o → wf_bytes v → keeps (mem_store_bytes o v) (λ _, True).
Proof.
  intros Ho Hv. eapply keeps_bind; [apply keeps_get_frame|]. intros f Hf.
  eapply keeps_bind; [apply (keeps_lift _ Memory.wf); intros m Hm;
    eapply store_bytes_wf; [apply Hf|exact Hv|apply Ho|exact Hm]|].
  intros m Hm. by apply keeps_set_memory.
Qed.
Lemma keeps_topics n : keeps (pop_topics n) (λ _, True).
Proof.
  induction n as [|n IH]; cbn [pop_topics]; [by apply keeps_ret|].
  eapply keeps_bind; [apply keeps_pop|]. intros x _.
  eapply keeps_bind; [by apply (keeps_lift _ (λ _, True))|]. intros t _.
  eapply keeps_bind; [apply IH|]. intros l _. by apply keeps_ret.
Qed.
Lemma keeps_jump a : is_u256 a → keeps (frame_jump a) (λ _, True).
Proof.
  intros Ha. eapply keeps_bind; [apply keeps_get_frame|]. intros f Hf.
  eapply keeps_bind; [apply (keeps_lift _ wf_frame)|intros f' Hf'; by apply keeps_set_frame].
  intros f' Hj. unfold CallFrame.jump in Hj. apply bind_Ok in Hj as (v & _ & Hj).
  destruct v; [|done]. cbn [negb] in Hj. apply bind_Ok in Hj as (p & Hp & [= <-]).
  apply wf_set_pc; [done|]. unfold U256.as_usize in Hp. case_match eqn:E; simplify_eq; bool_prop.
  unfold is_u64, is_u256 in *. lia.
Qed.

Lemma wf_db_bytecode db a : wf_db db → wf_bytes (Db.get_account_bytecode db a).
Proof.
  intros [Ha _]. unfold Db.get_account_bytecode. destruct (Db.accounts db !! a) eqn:E.
  - by apply (Ha _ _ E).
  - split; [constructor|done].
Qed.
Lemma wf_db_write db a key slot :
  wf_db db → is_u256 (original_value slot) → is_u256 (current_value slot) →
  wf_db (Db.write_account_storage db a key slot).
Proof.
  intros [Ha Hb] Ho Hc. split; [|done]. apply map_Forall_insert_2; [|done].
  assert (wf_account (default Account.Default (Db.accounts db !! a))) as [].
  { destruct (Db.accounts db !! a) eqn:E; [by apply (Ha _ _ E)|]. split; [done|split; [constructor|done]|done]. }
  split; try done. cbn. by apply map_Forall_insert_2.
Qed.
Lemma wf_db_read db a key slot :
  wf_db db → Db.read_account_storage db a key = Some slot →
  is_u256 (original_value slot) ∧ is_u256 (current_value slot).
Proof.
  intros [Ha _] Hr. unfold Db.read_account_storage in Hr. apply bind_Some in Hr as (acc & Hacc & Hs).
  by apply (wf_storage _ (Ha _ _ Hacc) _ _ Hs).
Qed.

Lemma keeps_generic_call gas v ms t ca d st ao asz ro rs :
  is_u256 v → is_u64 ao → is_u64 asz →
  keeps (generic_call gas v ms t ca d st ao asz ro rs) (λ _, True).
Proof.
  intros Hv Ho Hz. eapply keeps_bind; [apply keeps_get_frame|]. intros f Hf.
  eapply keeps_bind; [apply keeps_get_self|]. intros vm [Hfs Hdb].
  case_match; [by apply keeps_push|]. pose proof (wf_db_bytecode _ ca Hdb) as Hcode. cbv zeta.
  destruct (Db.get_account_bytecode _ _) as [|b bs]; [by apply keeps_push|].
  eapply keeps_bind; [by apply keeps_load_range|]. intros l Hl.
  eapply keeps_bind; [apply keeps_get_frame|]. intros f' Hf'. cbv zeta.
  eapply keeps_bind; [apply keeps_set_self; [by constructor; [apply wf_set_return_data|]|done]|].
  intros _ _. apply keeps_set_frame. split; cbn; try done; try (split; [constructor|done]).
Qed.
End Rules.

(** ** Results are words *)
Lemma mod_u256 x : is_u256 (x mod U256_MOD).
Proof. by apply Z.mod_pos_bound. Qed.
Lemma bool_u256 (b : bool) : is_u256 (if b then 1 else 0).
Proof. by destruct b. Qed.
Lemma div_u256 a b r : is_u256 a → is_u256 b → U256.div a b = Ok r → is_u256 r.
Proof.
  unfold U256.div, is_u256. intros Ha Hb Hr. case_match eqn:E; simplify_eq; bool_prop.
  split; [apply Z.div_pos; lia|]. apply Z.div_lt_upper_bound; nia.
Qed.
Lemma rem_u256 a b r : is_u256 a → is_u256 b → U256.rem a b = Ok r → is_u256 r.
Proof.
  unfold U256.rem, is_u256. intros Ha Hb Hr. case_match eqn:E; simplify_eq; bool_prop.
  pose proof (Z.mod_pos_bound a b). lia.
Qed.
Lemma div_nonzero a b r : U256.div a b = Ok r → b ≠ 0.
Proof. unfold U256.div. intros. by case_match; simplify_eq; bool_prop. Qed.
Lemma evm_sdiv_u256 a b : is_u256 (Evm.sdiv a b).
Proof. unfold Evm.sdiv. case_match; [done|apply unsigned_u256]. Qed.
Lemma sdiv_u256 a b r : is_u256 a → is_u256 b → b ≠ 0 → sdiv_value a b = Ok r → is_u256 r.
Proof.
  intros Ha Hb Hb0. rewrite sdiv_value_eq by done. case_match; [done|]. intros [= <-]. apply evm_sdiv_u256.
Qed.
Lemma smod_u256 a b r : is_u256 a → is_u256 b → b ≠ 0 → smod_value a b = Ok r → is_u256 r.
Proof.
  intros Ha Hb Hb0. rewrite smod_value_eq by done. case_match; [done|]. intros [= <-]. apply unsigned_u256.
Qed.
Lemma evm_mod_u256 x n : is_u256 n → n ≠ 0 → is_u256 (x mod n).
Proof. unfold is_u256. intros. pose proof (Z.mod_pos_bound x n). lia. Qed.
Lemma addmod_u256 a b n r :
  is_u256 a → is_u256 b → is_u256 n → n ≠ 0 → addmod_value a b n = Ok r → is_u256 r.
Proof.
  intros Ha Hb Hn Hn0. rewrite addmod_value_eq by done. unfold Evm.addmod.
  repeat case_match; intros [= <-]; [done|by apply evm_mod_u256|apply unsigned_u256].
Qed.
Lemma mulmod_u256 a b n r :
  is_u256 a → is_u256 b → is_u256 n → n ≠ 0 → mulmod_value a b n = Ok r → is_u256 r.
Proof.
  intros Ha Hb Hn Hn0. rewrite mulmod_value_eq by done. unfold Evm.mulmod.
  repeat case_match; intros [= <-]; [done|by apply evm_mod_u256].
Qed.
Lemma pow_u256 a b : is_u256 b → is_u256 (U256.wrapping_pow a b).
Proof. intros [Hb _]. rewrite wrapping_pow_spec by done. apply mod_u256. Qed.
Lemma signextend_u256 a b r : is_u256 a → is_u256 b → signextend_value a b = Ok r → is_u256 r.
Proof.
  intros Ha Hb. rewrite signextend_value_eq by done. intros [= <-]. unfold Evm.signextend.
  case_match; [done|]. apply unsigned_u256.
Qed.
Lemma slt_u256 a b r : is_u256 a → is_u256 b → slt_value a b = Ok r → is_u256 r.
Proof. intros Ha Hb. rewrite slt_value_eq by done. intros [= <-]. apply bool_u256. Qed.
Lemma sgt_u256 a b r : is_u256 a → is_u256 b → sgt_value a b = Ok r → is_u256 r.
Proof. intros Ha Hb. rewrite sgt_value_eq by done. intros [= <-]. apply bool_u256. Qed.
Lemma byte_u256 a b r : is_u256 a → byte_value a b = Ok r → is_u256 r.
Proof.
  intros Ha. rewrite byte_value_eq by done. intros [= <-]. unfold Evm.byte. case_match; [|done].
  unfold is_u256. pose proof (Z.mod_pos_bound (b / 256 ^ (31 - a)) 256). unfold U256_MOD. lia.
Qed.
Lemma sar_u256 `{Profile} a b r : is_u256 a → is_u256 b → sar_value a b = Ok r → is_u256 r.
Proof. intros Ha Hb. rewrite sar_value_eq by done. intros [= <-]. apply unsigned_u256. Qed.
Lemma checked_u256 `{Profile} x y : checked (E:=never) 64 x = Ok y → is_u256 y.
Proof. intros Hc. by apply u64_u256, (checked_range (E:=never) 64 x y). Qed.
Lemma loop_range `{Profile} w num den : 0 <= w → ∀ fuel i out acc v, 0 <= out < 2 ^ w →
  fake_exponential_loop w fuel num den i out acc = Ok v → 0 <= v < 2 ^ w.
Proof.
  intros Hw. induction fuel as [|fuel IH]; intros i out acc v Ho Hv; [done|]. cbn in Hv.
  case_match; [|by simplify_eq]. apply bind_Ok in Hv as (o & Ho' & Hv).
  apply checked_range in Ho'; [|done]. repeat (apply bind_Ok in Hv as (? & _ & Hv)).
  case_match; [done|]. apply bind_Ok in Hv as (? & _ & Hv). by eapply IH.
Qed.
Lemma price_u256 `{Profile} b r : BlockEnv.calculate_blob_gas_price b = Ok r → is_u256 r.
Proof.
  unfold BlockEnv.calculate_blob_gas_price, fake_exponential_u128. intros Hr.
  apply bind_Ok in Hr as (e & _ & Hr). change (BLOB_GASPRICE_UPDATE_FRACTION =? 0) with false in Hr.
  cbv iota in Hr. apply bind_Ok in Hr as (acc & _ & Hr). apply bind_Ok in Hr as (o & Ho & [= <-]).
  apply loop_range in Ho; [|done|done]. unfold is_u256, U256_MOD, BLOB_GASPRICE_UPDATE_FRACTION.
  split; [apply Z.div_pos; lia|]. apply Z.div_lt_upper_bound; lia.
Qed.

(** ** Every instruction keeps the machine well typed *)

(** Words that come out of the frame or of the block. *)
Lemma wf_bytes_slice l a b k : wf_bytes l → slice (E:=never) l a b = Ok k → wf_bytes k ∧ zlen k = b - a.
Proof.
  intros [Hb Hl] (Ha & Hbl & -> & Hz)%slice_inv. split; [|done].
  split; [by apply Forall_take, Forall_drop|]. lia.
Qed.
Lemma wf_bytes_len l : wf_bytes l → is_u256 (zlen l).
Proof. intros [_ Hl]. pose proof (zlen_nonneg l). by apply isize_u256. Qed.
Lemma wf_hash_u256 h : wf_hash h → is_u256 (of_be h).
Proof. intros [Hb Hl]. apply of_be_u256; [done|lia]. Qed.
Lemma to_be_wf n x : (n <= 32)%nat → wf_bytes (to_be n x).
Proof. intros. split; [apply to_be_bytes|]. rewrite to_be_zlen. unfold isize_max. lia. Qed.
Lemma uadd_slice `{Profile} l a n e k :
  wf_bytes l → is_u64 a → 0 <= n < 2 ^ 64 →
  uadd (E:=never) a n = Ok e → slice (E:=never) l a e = Ok k → wf_bytes k ∧ zlen k <= n.
Proof.
  intros Hl [Ha0 Ha] Hn He Hk. destruct (wf_bytes_slice _ _ _ _ Hl Hk) as [Hw Hz]. split; [done|].
  unfold uadd, checked in He. repeat case_match; simplify_eq; [lia|].
  assert ((a + n) mod 2 ^ 64 <= a + n) by (apply Z.mod_le; lia). lia.
Qed.

(** Proves that a result is a word. *)
Ltac word :=
  unfold U256.overflowing_add, U256.overflowing_sub, U256.overflowing_mul, fst;
  lazymatch goal with
  | Hx : is_u256 ?x |- is_u256 ?x => exact Hx
  | Hx : is_u64 ?x |- is_u256 ?x => by apply u64_u256
  | Hd : U256.div _ _ = Ok ?x |- is_u256 ?x => by apply div_u256 in Hd
  | Hd : U256.rem _ _ = Ok ?x |- is_u256 ?x => by apply rem_u256 in Hd
  | Hd : sdiv_value _ _ = Ok ?x |- is_u256 ?x => by apply sdiv_u256 in Hd
  | Hd : smod_value _ _ = Ok ?x |- is_u256 ?x => by apply smod_u256 in Hd
  | Hd : addmod_value _ _ _ = Ok ?x |- is_u256 ?x => by apply addmod_u256 in Hd
  | Hd : mulmod_value _ _ _ = Ok ?x |- is_u256 ?x => by apply mulmod_u256 in Hd
  | Hd : signextend_value _ _ = Ok ?x |- is_u256 ?x => by apply signextend_u256 in Hd
  | Hd : slt_value _ _ = Ok ?x |- is_u256 ?x => by apply slt_u256 in Hd
  | Hd : sgt_value _ _ = Ok ?x |- is_u256 ?x => by apply sgt_u256 in Hd
  | Hd : byte_value _ _ = Ok ?x |- is_u256 ?x => by apply byte_u256 in Hd
  | Hd : sar_value _ _ = Ok ?x |- is_u256 ?x => by apply sar_u256 in Hd
  | Hd : BlockEnv.calculate_blob_gas_price _ = Ok ?x |- is_u256 ?x => by apply price_u256 in Hd
  | Hd : usub _ _ = Ok ?x |- is_u256 ?x => by apply checked_u256 in Hd
  | Hb : wf_block ?b |- is_u256 (address_to_word _) => destruct (wf_coinbase b Hb); apply of_be_u256; [done|lia]
  | Hb : wf_block ?b |- is_u256 (_ ?b) => first [apply Hb | apply u64_u256, Hb]
  | Hf : wf_frame ?f |- is_u256 (zlen _) => apply wf_bytes_len, Hf
  | Hf : wf_frame ?f |- is_u256 (Memory.size _) =>
    apply isize_u256; split; [apply zlen_nonneg|apply (wf_memory f Hf)]
  | Hf : wf_frame ?f |- is_u256 (CallFrame.msg_value ?f) => apply Hf
  | |- is_u256 (_ mod U256_MOD) => apply mod_u256
  | |- is_u256 (if _ then 1 else 0) => apply bool_u256
  | |- is_u256 (if _ then U256.shl _ _ else 0) => case_match; [apply shl_u256|done]
  | |- is_u256 (if _ then U256.shr _ _ else 0) => case_match; [apply shr_u256; [done|unfold is_u256 in *; lia]|done]
  | |- is_u256 (U256.wrapping_pow _ _) => by apply pow_u256
  | |- is_u256 (U256.not _) => by apply not_u256
  | |- is_u256 (Z.land _ _) => by apply land_u256
  | |- is_u256 (Z.lor _ _) => by apply lor_u256
  | |- is_u256 (Z.lxor _ _) => by apply lxor_u256
  | |- is_u256 _ => done
  end.

Ltac keeps_step :=
  lazymatch goal with
  | |- keeps (mbind _ pop) _ => eapply keeps_bind; [apply keeps_pop|intros ? ?]
  | |- keeps (mbind _ ?m) _ =>
    lazymatch m with
    | pop_usize => eapply keeps_bind; [apply keeps_pop_usize|intros ? ?]
    | pop_address => eapply keeps_bind; [apply keeps_pop_address|intros ? _]
    | check_gas _ => eapply keeps_bind; [apply keeps_check_gas|intros ? _]
    | charge _ => eapply keeps_bind; [apply keeps_charge|intros ? _]
    | push _ => eapply keeps_bind; [apply keeps_push|intros ? _]
    | get_frame => eapply keeps_bind; [apply keeps_get_frame|intros ? ?]
    | get_self => eapply keeps_bind; [apply keeps_get_self|intros ? [? ?]]
    | get_block_env => eapply keeps_bind; [apply keeps_get_block_env|intros ? ?]
    | get_tx_env => eapply keeps_bind; [apply keeps_get_tx_env|intros ? _]
    | set_frame _ => eapply keeps_bind; [apply keeps_set_frame|intros ? _]
    | set_self _ => eapply keeps_bind; [apply keeps_set_self|intros ? _]
    | mem_expansion_cost _ => eapply keeps_bind; [apply keeps_expansion|intros ? _]
    | word_count _ => eapply keeps_bind; [apply keeps_word_count|intros ? _]
    | mem_load_range _ _ => eapply keeps_bind; [apply keeps_load_range; assumption|intros ? ?]
    | mem_load _ => eapply keeps_bind; [apply keeps_load; assumption|intros ? ?]
    | mem_store_bytes _ _ => eapply keeps_bind; [apply keeps_store; [assumption|]|intros ? _]
    | pop_topics _ => eapply keeps_bind; [apply keeps_topics|intros ? _]
    | frame_jump _ => eapply keeps_bind; [by apply keeps_jump|intros ? _]
    | lift ?x => eapply keeps_bind; [apply (keeps_lift x (λ a, x = Ok a)); done|cbv beta; intros ? ?]
    end
  | |- keeps (push _) _ => apply keeps_push
  | |- keeps (charge _) _ => apply keeps_charge
  | |- keeps (set_frame _) _ => apply keeps_set_frame
  | |- keeps (set_self _) _ => apply keeps_set_self
  | |- keeps (set_memory _) _ => apply keeps_set_memory
  | |- keeps (mem_store_bytes _ _) _ => apply keeps_store; [assumption|]
  | |- keeps (frame_jump _) _ => by apply keeps_jump
  | |- keeps (generic_call _ _ _ _ _ _ _ _ _ _ _) _ => apply keeps_generic_call; [|assumption|assumption]
  | |- keeps panic _ => apply keeps_panic
  | |- keeps break _ => apply keeps_break
  | |- keeps continue _ => apply keeps_continue
  | |- keeps (mret _) _ => apply keeps_ret
  | |- keeps (if ?b then _ else _) _ => destruct b eqn:?
  | |- keeps (match ?x with _ => _ end) _ => destruct x eqn:?
  end; cbv beta zeta.

Section Instructions.
Context `{Profile} (keccak256 : list Z → list Z).
Hypothesis Hkeccak : ∀ l, bytes_ok l → wf_hash (keccak256 l).

Lemma keeps_push_immediate n : 0 <= n <= 32 → keeps (push_immediate n) (λ _, True).
Proof.
  intros Hn. unfold push_immediate. repeat keeps_step.
  - match goal with Hu : uadd _ n = Ok _, Hs : slice _ _ _ = Ok _ |- _ =>
      eapply (uadd_slice _ _ n _ _) in Hs as [[? _] ?]; [..|exact Hu] end;
      [apply of_be_u256; [done|lia]|by apply wf_bytecode|by apply wf_pc|lia].
  - match goal with Hi : CallFrame.increment_pc_by _ _ = Ok _ |- _ =>
      unfold CallFrame.increment_pc_by in Hi; apply bind_Ok in Hi as (p & Hp & [= <-]) end.
    apply wf_set_pc; [done|]. by apply (checked_range (E:=never) 64 _ _) in Hp.
Qed.

Lemma vec_get_u256 l i x : Forall is_u256 l → vec_get l i = Some x → is_u256 x.
Proof. intros Hl Hg. unfold vec_get in Hg. case_match; [|done]. by apply (Forall_lookup_1 _ _ _ _ Hl Hg). Qed.
Lemma unwrap_Ok {E A} (o : option A) x : unwrap (E:=E) o = Ok x → o = Some x.
Proof. destruct o; by intros [= <-]. Qed.
Lemma vec_swap_u256 l i j l' : Forall is_u256 l → vec_swap l i j = Ok l' → Forall is_u256 l'.
Proof.
  intros Hl Hs. unfold vec_swap in Hs. apply bind_Ok in Hs as (x & Hx & Hs).
  apply bind_Ok in Hs as (y & Hy & [= <-]). apply unwrap_Ok in Hx, Hy.
  apply (vec_get_u256 _ _ _ Hl) in Hx, Hy. apply Forall_insert; [|done]. by apply Forall_insert.
Qed.

Lemma keeps_DUPN op : keeps (op_DUPN op) (λ _, True).
Proof.
  unfold op_DUPN. repeat keeps_step.
  match goal with Hu : unwrap (vec_get _ _) = Ok _ |- _ => apply unwrap_Ok in Hu end.
  eapply vec_get_u256; [by apply wf_stack|done].
Qed.
Lemma keeps_SWAPN op : keeps (op_SWAPN op) (λ _, True).
Proof.
  unfold op_SWAPN. repeat keeps_step. apply wf_set_stack; [done|].
  eapply vec_swap_u256; [by apply wf_stack|done].
Qed.
Lemma keeps_LOGN op : keeps (op_LOGN op) (λ _, True).
Proof. unfold op_LOGN. repeat keeps_step. by apply wf_set_logs. Qed.
Lemma keeps_TLOAD : keeps op_TLOAD (λ _, True).
Proof.
  unfold op_TLOAD. repeat keeps_step. destruct (_ !! _) eqn:E; cbn; [|done].
  match goal with Hf : wf_frame _ |- _ => apply (wf_transient _ Hf _ _ E) end.
Qed.
Lemma keeps_TSTORE : keeps op_TSTORE (λ _, True).
Proof.
  unfold op_TSTORE. repeat keeps_step. apply wf_set_transient; [done|].
  apply map_Forall_insert_2; [done|by apply wf_transient].
Qed.
Lemma keeps_SLOAD : keeps op_SLOAD (λ _, True).
Proof.
  unfold op_SLOAD. repeat keeps_step. destruct (Db.read_account_storage _ _ _) eqn:E; cbn; [|done].
  by eapply wf_db_read.
Qed.
Lemma keeps_SSTORE : keeps op_SSTORE (λ _, True).
Proof.
  unfold op_SSTORE. repeat keeps_step; [done|]. apply wf_db_write; [done| |done]. cbn.
  destruct (Db.read_account_storage _ _ _) eqn:E; [|done]. by eapply wf_db_read.
Qed.
Lemma wf_resumed parent rd : wf_frame parent → wf_bytes rd → wf_frame (resumed parent rd).
Proof.
  intros [] Hrd. unfold resumed. repeat case_match; split; try done; by constructor.
Qed.
Lemma keeps_RETURN : keeps op_RETURN (λ _, True).
Proof.
  unfold op_RETURN. repeat keeps_step; try done.
  all: match goal with Hw : Forall wf_frame (_ :: _) |- _ => apply Forall_cons in Hw as [? ?] end.
  { done. }
  by apply wf_resumed.
Qed.

Lemma keeps_copy f src dest n : wf_frame f → is_u64 src → is_u64 dest → is_u64 n →
  keeps (m ← lift (Memory.copy (CallFrame.memory f) src dest n); set_memory m) (λ _, True).
Proof.
  intros Hf Hs Hd Hn. repeat keeps_step.
  eapply copy_wf; [by apply wf_memory|apply Hs|apply Hd|apply Hn|done].
Qed.

Lemma keeps_exec op : keeps (exec_opcode keccak256 op) (λ _, True).
Proof using Hkeccak.
  destruct op; exec_arm;
    lazymatch goal with
    | |- keeps (op_PUSHN _) _ => by apply keeps_push_immediate
    | |- keeps op_PUSH32 _ => by apply keeps_push_immediate
    | |- keeps (op_DUPN _) _ => apply keeps_DUPN
    | |- keeps (op_SWAPN _) _ => apply keeps_SWAPN
    | |- keeps (op_LOGN _) _ => apply keeps_LOGN
    | |- keeps op_TLOAD _ => apply keeps_TLOAD
    | |- keeps op_TSTORE _ => apply keeps_TSTORE
    | |- keeps op_SLOAD _ => apply keeps_SLOAD
    | |- keeps op_SSTORE _ => apply keeps_SSTORE
    | |- keeps op_RETURN _ => apply keeps_RETURN
    | |- keeps ?m _ => let h := get_head m in unfold h; repeat keeps_step; bool_prop; try word
    end.
  - apply wf_hash_u256, Hkeccak. by apply (proj1 H6).
  - match goal with Hs : slice _ _ _ = Ok _, Hu : uadd _ 32 = Ok _ |- _ =>
      eapply (uadd_slice _ _ 32) in Hs as [[? _] ?]; [..|exact Hu] end;
      [apply of_be_u256; [done|lia]|by apply wf_calldata|done|lia].
  - match goal with Hs : slice _ _ _ = Ok _ |- _ => eapply wf_bytes_slice in Hs; [by apply Hs|] end.
    by apply wf_calldata.
  - match goal with Hs : slice _ _ _ = Ok _ |- _ => eapply wf_bytes_slice in Hs; [by apply Hs|] end.
    by apply wf_returndata.
  - match goal with Hd : wf_db _, Hl : Db.block_hashes _ !! _ = Some _ |- _ =>
      by apply wf_hash_u256, (wf_block_hashes _ Hd _ _ Hl) end.
  - destruct (BlockEnv.prev_randao _) eqn:E; [|done].
    match goal with Hb : wf_block _ |- _ => by apply wf_hash_u256, (wf_randao _ Hb) end.
  - by apply to_be_wf.
  - match goal with Hs : slice _ _ _ = Ok _ |- _ => eapply wf_bytes_slice in Hs; [by apply Hs|] end.
    by apply to_be_wf.
  - eapply (keeps_bind _ _ (λ _, True)); [|intros ? _; apply keeps_charge].
    case_match; [by apply keeps_jump|by apply keeps_ret].
  - match goal with Hc : Memory.copy _ _ _ _ = Ok _ |- _ => eapply copy_wf; [| | | |exact Hc] end;
      [by apply wf_memory|unfold is_u64 in *; lia..].
  - done.
  - done.
Qed.

Lemma step_wf s : wf_state s → wp (step keccak256) (λ _, wf_state) wf_state wf_state s.
Proof using Hkeccak.
  intros Hs. unfold wp. destruct (step_inv keccak256 s) as [(op & s1 & (_ & pc & Hpc & ->) & ->)| ->]; [|done].
  apply (checked_range (E:=never) 64 _ _ ltac:(done)) in Hpc.
  match goal with |- context [exec_opcode _ _ ?s1] => assert (wf_state s1) as Hs1 end.
  { destruct Hs. split; try done. by apply wf_set_pc. }
  pose proof (keeps_exec op _ Hs1) as Hk. unfold wp in Hk.
  destruct (exec_opcode _ _ _) as [a s2|s2|s2| |]; [by apply Hk|done..].
Qed.
End Instructions.

(** C3: a well-typed machine stays well typed for as long as it runs, whatever the
    bytecode: stack words, storage values and transient values stay below 2^256,
    memories stay byte arrays of whole words, program counters stay in range, in the
    current frame, in every suspended frame and in the database. *)
Theorem execute_well_typed (P : Profile) (keccak256 : list Z → list Z) (fuel : nat) (vm vm' : VM.t) :
  (∀ l, bytes_ok l → wf_hash (keccak256 l)) →
  Forall wf_frame (VM.call_frames vm) → wf_db (VM.db vm) → wf_block (VM.block_env vm) →
  execute keccak256 fuel vm = Ok vm' →
  Forall wf_frame (VM.call_frames vm') ∧ wf_db (VM.db vm').
Proof.
  intros Hk Hf Hdb Hb He. unfold execute, enter_loop in He.
  destruct (VM.call_frames vm) as [|f fs]; [done|]. apply Forall_cons in Hf as [Hf Hfs].
  rewrite bind_Ok_l in He. apply bind_Ok in He as (s & Hr & [= <-]).
  assert (wf_state s) as [? ? ? ?]; [|split; [by constructor|done]].
  revert Hr. apply (run_invariant keccak256 wf_state wf_state).
  - intros s1 s2 H1 [Ha|Ha]; pose proof (step_wf keccak256 Hk s1 H1) as Hw; unfold wp in Hw; by rewrite Ha in Hw.
  - intros s1 s2 H1 Ha. pose proof (step_wf keccak256 Hk s1 H1) as Hw. unfold wp in Hw. by rewrite Ha in Hw.
  - by split.
Qed.

Lemma new_frame_wf code : wf_bytes code → wf_frame (CallFrame.new_from_bytecode code).
Proof.
  assert (wf_bytes []) by (by split; [constructor|]).
  intros. by split.
Qed.

Lemma execute_well_typed_witness :
  let vm := VM.new [0x60; 7; 0x60; 64; 0x52; 0x59; 0x00] zero_address 5 in
  ∃ vm', execute (H:=dev_profile) no_hash 10 vm = Ok vm' ∧ Forall wf_frame (VM.call_frames vm').
Proof.
  intros vm. eexists. split; [by vm_compute|].
  apply (execute_well_typed dev_profile no_hash 10 vm); [| | | |by vm_compute].
  - intros l _. split; [by apply Forall_replicate|done].
  - constructor; [|constructor]. apply new_frame_wf.
    split; [apply (bool_decide_unpack _); by vm_compute|by vm_compute].
  - split; [|done]. apply map_Forall_insert_2; [|done]. split; [done| |done].
    split; [apply (bool_decide_unpack _); by vm_compute|by vm_compute].
  - split; try done. split; [by apply Forall_replicate|done].
Defined.
