(* ===== verification/Codec.v ===== *)
(** * Codecs: the interface between the RLP crate and the types that use it

    [Codec enc dec wf] says that [dec] is the RLP decoder of the encoder [enc] on
    the values that satisfy [wf].  It is the class the [RLPEncode]/[RLPDecode]
    impls of the client's types are proved against: the instances below discharge
    it for the types of the crate, and the struct lemmas reduce an impl written
    with [Encoder] and [Decoder] to the codecs of its fields. *)

From S2P Require Import Prelude Rlp RlpLaws.

Class Codec `{Profile} {A} (enc : A → list Z) (dec : list Z → dres (A * list Z))
    (wf : A → Prop) : Prop := codec_laws : RlpLaws (mkRlp enc dec) wf.

(** Instances are found by the name of the encoder or the decoder. *)
#[export] Typeclasses Opaque bool_encode u8_encode u64_encode U256_encode Bytes_encode
  array_encode H32_encode Address_encode H256_encode Bloom_encode vec_encode pair_encode
  bool_decode u8_decode u64_decode U256_decode Bytes_decode array_decode
  H32_decode Address_decode H256_decode Bloom_decode vec_decode pair_decode.

Section Codecs.
Context `{Profile}.

#[export] Instance bool_codec : Codec bool_encode bool_decode (λ _, True) := bool_laws.
#[export] Instance u8_codec : Codec u8_encode u8_decode (is_uint 8) := u8_laws.
#[export] Instance u64_codec : Codec u64_encode u64_decode (is_uint 64) := u64_laws.
#[export] Instance U256_codec : Codec U256_encode U256_decode (is_uint 256) := U256_laws.
#[export] Instance Bytes_codec : Codec Bytes_encode Bytes_decode (Forall is_byte) := Bytes_laws.
#[export] Instance array_codec N : Codec array_encode (array_decode N) (is_array N) := array_laws N.
#[export] Instance H32_codec : Codec H32_encode H32_decode (is_array 4) := array_laws 4.
#[export] Instance Address_codec : Codec Address_encode Address_decode (is_array 20) := array_laws 20.
#[export] Instance H256_codec : Codec H256_encode H256_decode (is_array 32) := array_laws 32.
#[export] Instance Bloom_codec : Codec Bloom_encode Bloom_decode (is_array 256) := array_laws 256.
#[export] Instance vec_codec {A} enc dec (wf : A → Prop) :
  Codec enc dec wf → Codec (vec_encode enc) (vec_decode dec) (Forall wf).
Proof. intros Hc. exact (@vec_laws _ _ (mkRlp enc dec) wf Hc). Qed.
#[export] Instance pair_codec {A B} e1 d1 e2 d2 (wf1 : A → Prop) (wf2 : B → Prop) :
  Codec e1 d1 wf1 → Codec e2 d2 wf2 →
  Codec (pair_encode e1 e2) (pair_decode d1 d2) (λ x, wf1 x.1 ∧ wf2 x.2).
Proof. intros H1 H2. exact (@pair_laws _ _ _ (mkRlp e1 d1) (mkRlp e2 d2) wf1 wf2 H1 H2). Qed.

Section Laws.
Context {A} (enc : A → list Z) (dec : list Z → dres (A * list Z)) (wf : A → Prop).
Context `{Hc : !Codec enc dec wf}.

Lemma codec_roundtrip x rest :
  wf x → zlen (enc x) <= isize_max → dec (enc x ++ rest) = Ok (x, rest).
Proof using Hc. apply (rlp_roundtrip (RlpLaws := Hc)). Qed.
Lemma codec_consumes d x r : dec d = Ok (x, r) → ∃ p, d = p ++ r ∧ p ≠ [].
Proof using Hc. apply (rlp_consumes (RlpLaws := Hc)). Qed.
Lemma codec_pos x : wf x → 0 < zlen (enc x).
Proof using Hc. exact (@rlp_encode_pos _ (mkRlp enc dec) wf Hc x). Qed.
Lemma codec_decode x : wf x → zlen (enc x) <= isize_max → decode dec (enc x) = Ok x.
Proof using Hc.
  intros. unfold decode. rewrite <-(app_nil_r (enc x)), codec_roundtrip by done. done.
Qed.

(** An encoding is self-delimiting: what follows it does not matter. *)
Lemma codec_inj x y p q :
  wf x → wf y → zlen (enc x ++ p) <= isize_max → enc x ++ p = enc y ++ q → x = y ∧ p = q.
Proof using Hc.
  intros Hx Hy Hmax He. pose proof Hmax as Hmax'. rewrite He in Hmax'. zlen_simpl.
  pose proof (zlen_nonneg p). pose proof (zlen_nonneg q).
  pose proof (codec_roundtrip x p Hx ltac:(lia)) as Hd1.
  pose proof (codec_roundtrip y q Hy ltac:(lia)) as Hd2.
  rewrite He in Hd1. rewrite Hd1 in Hd2. by simplify_eq.
Qed.
End Laws.

(** ** Structs *)

(** The encoding of a struct, from the encodings of its fields. *)
Definition struct_rlp (l : list (list Z)) : list Z := encode_length (zlen (concat l)) ++ concat l.

(** [e] holds the encodings [l] of the fields so far, after the bytes [b]. *)
Definition holds (e : Encoder) (b : list Z) (l : list (list Z)) : Prop :=
  buf e = b ∧ temp_buf e = concat l.
Lemma finish_struct e b l : holds e b l → Encoder.finish e = b ++ struct_rlp l.
Proof. intros [Hb Ht]. unfold Encoder.finish. by rewrite Hb, Ht. Qed.
Lemma fields_nil b : holds (Encoder.new b) b [].
Proof. done. Qed.
Lemma fields_field {A} (enc : A → list Z) x e b l :
  holds e b l → holds (Encoder.encode_field enc x e) b (l ++ [enc x]).
Proof. intros [Hb Ht]. split; cbn; [done|]. by rewrite Ht, concat_app; cbn; rewrite app_nil_r. Qed.
Lemma fields_optional {A} (enc : A → list Z) o e b l :
  holds e b l →
  holds (Encoder.encode_optional_field enc o e) b
    (l ++ match o with Some x => [enc x] | None => [] end).
Proof.
  intros [Hb Ht]. split; destruct o; cbn; rewrite ?Hb, ?Ht, ?concat_app; cbn; by rewrite ?app_nil_r.
Qed.

(** Equal field sequences have equal fields. *)
Lemma fields_inj {A} enc dec wf `{!Codec (A:=A) enc dec wf} x y l k :
  concat (enc x :: l) = concat (enc y :: k) → wf x → wf y →
  zlen (concat (enc x :: l)) <= isize_max →
  x = y ∧ concat l = concat k ∧ zlen (concat l) <= isize_max.
Proof.
  cbn [concat]. intros He Hx Hy Hmax.
  destruct (codec_inj enc dec wf x y _ _ Hx Hy Hmax He) as [? ?].
  zlen_simpl. pose proof (zlen_nonneg (enc x)). split_and!; [done..|lia].
Qed.

Lemma struct_rlp_inj l k p q :
  zlen (struct_rlp l ++ p) <= isize_max → struct_rlp l ++ p = struct_rlp k ++ q →
  concat l = concat k ∧ p = q.
Proof.
  unfold struct_rlp. intros Hmax He. pose proof Hmax as Hmax'. rewrite He in Hmax'. zlen_simpl.
  pose proof (zlen_nonneg p). pose proof (zlen_nonneg q).
  pose proof (zlen_nonneg (encode_length (zlen (concat l)))).
  pose proof (zlen_nonneg (encode_length (zlen (concat k)))).
  pose proof (decode_list_item (H:=dev_profile) (concat l) p ltac:(lia)) as Hd1.
  pose proof (decode_list_item (H:=dev_profile) (concat k) q ltac:(lia)) as Hd2.
  rewrite <-!app_assoc in He. rewrite He in Hd1. rewrite Hd1 in Hd2. by simplify_eq.
Qed.

Lemma struct_rlp_bound l : zlen (struct_rlp l) <= isize_max → zlen (concat l) <= isize_max.
Proof.
  unfold struct_rlp. zlen_simpl. pose proof (zlen_nonneg (encode_length (zlen (concat l)))). lia.
Qed.

(** The first byte of a struct is that of a list. *)
Lemma struct_rlp_head l : ∃ b t, struct_rlp l = b :: t ∧ 0xc0 <= b.
Proof.
  unfold struct_rlp, encode_length. pose proof (zlen_nonneg (concat l)).
  destruct (_ <? _); cbv zeta; eexists _, _; (split; [reflexivity|]); [lia|].
  pose proof (zlen_nonneg (be_trim (to_be 8 (zlen (concat l))))). lia.
Qed.

(** Byte strings of 56 bytes or more, and only those, carry the prefix that
    [is_encoded_as_bytes] looks for; their payload is found behind it. *)
Lemma long_bytes_item c rest :
  56 <= zlen c → zlen c <= isize_max →
  is_encoded_as_bytes (Bytes_encode c ++ rest) = Ok true ∧
  get_rlp_bytes_item_payload (Bytes_encode c ++ rest) = Ok (c ++ rest).
Proof.
  intros Hlo Hhi. unfold isize_max in Hhi. unfold Bytes_encode, bytes_encode.
  assert ((zlen c =? 1) = false) as -> by lia. cbn [andb].
  assert ((zlen c <? 56) = false) as -> by lia. cbv zeta.
  destruct (be_trim_spec 8 (zlen c)) as (d & t & -> & _ & _ & _ & Hz); [lia|].
  rewrite <-app_assoc. cbn [app]. set (tl := d :: t) in *.
  unfold is_encoded_as_bytes, get_rlp_bytes_item_payload. cbn [head unwrap]. rewrite !bind_Ok_l.
  split; [by decide_bools|].
  rewrite checked_in, bind_Ok_l, checked_in, bind_Ok_l, uadd_ok, bind_Ok_l by lia.
  change (d :: t ++ c ++ rest) with (tl ++ c ++ rest).
  change (?b :: tl ++ c ++ rest) with ((b :: tl) ++ c ++ rest).
  pose proof (zlen_nonneg c). pose proof (zlen_nonneg rest).
  rewrite slice_from_ok by (zlen_simpl; lia). by rewrite zdrop_app_exact by (zlen_simpl; lia).
Qed.

Lemma short_bytes_item c rest :
  2 <= zlen c < 56 →
  is_encoded_as_bytes (Bytes_encode c ++ rest) = Ok false ∧
  Decoder.new (Bytes_encode c ++ rest) = Err UnexpectedString.
Proof.
  intros Hc. unfold Bytes_encode, bytes_encode.
  assert ((zlen c =? 1) = false) as -> by lia. cbn [andb].
  assert ((zlen c <? 56) = true) as Hs by lia. rewrite Hs. cbn [app]. split.
  - unfold is_encoded_as_bytes, RLP_NULL. cbn [head unwrap]. rewrite bind_Ok_l. by decide_bools.
  - pose proof (decode_prefixed_item false c rest ltac:(unfold isize_max; lia)) as Hd.
    unfold item_prefix in Hd. rewrite Hs in Hd. cbn [app] in Hd.
    unfold Decoder.new, RLP_NULL. by rewrite Hd.
Qed.

Lemma decode_new {B} l rest (k : Decoder → dres B) Q :
  zlen (struct_rlp l) <= isize_max →
  (zlen (concat l) <= isize_max → k (mkDecoder (concat l) rest) = Q) →
  Decoder.new (struct_rlp l ++ rest) ≫= k = Q.
Proof.
  intros Hmax Hk. apply struct_rlp_bound in Hmax. unfold Decoder.new, struct_rlp.
  rewrite <-app_assoc, decode_list_item by done. by apply Hk.
Qed.

Lemma decode_field_bind {A B} enc dec wf `{!Codec (A:=A) enc dec wf} name x l r
    (k : A * Decoder → dres B) Q :
  zlen (concat (enc x :: l)) <= isize_max → wf x →
  (zlen (concat l) <= isize_max → k (x, mkDecoder (concat l) r) = Q) →
  Decoder.decode_field dec name (mkDecoder (concat (enc x :: l)) r) ≫= k = Q.
Proof.
  cbn [concat]. intros Hmax Hwf Hk. zlen_simpl.
  pose proof (zlen_nonneg (concat l)). pose proof (zlen_nonneg (enc x)).
  unfold Decoder.decode_field. cbn [payload remaining].
  rewrite (codec_roundtrip enc dec wf) by (done || lia). cbn [map_err]. rewrite !bind_Ok_l.
  apply Hk. lia.
Qed.

Lemma decode_optional_field_bind {A B} enc dec wf `{!Codec (A:=A) enc dec wf} x l r
    (k : option A * Decoder → dres B) Q :
  zlen (concat (enc x :: l)) <= isize_max → wf x →
  (zlen (concat l) <= isize_max → k (Some x, mkDecoder (concat l) r) = Q) →
  Decoder.decode_optional_field dec (mkDecoder (concat (enc x :: l)) r) ≫= k = Q.
Proof.
  cbn [concat]. intros Hmax Hwf Hk. zlen_simpl.
  pose proof (zlen_nonneg (concat l)). pose proof (zlen_nonneg (enc x)).
  unfold Decoder.decode_optional_field. cbn [payload remaining].
  rewrite (codec_roundtrip enc dec wf) by (done || lia). rewrite !bind_Ok_l.
  apply Hk. lia.
Qed.

Lemma decode_optional_nil {A B} dec e r (k : option A * Decoder → dres B) Q :
  dec [] = Err e → k (None, mkDecoder (concat []) r) = Q →
  Decoder.decode_optional_field dec (mkDecoder (concat []) r) ≫= k = Q.
Proof. intros He Hk. unfold Decoder.decode_optional_field. cbn. by rewrite He. Qed.

(** Reading from a struct does not move its end. *)
Lemma new_consumes d dcd : Decoder.new d = Ok dcd → ∃ p, d = p ++ remaining dcd ∧ p ≠ [].
Proof.
  unfold Decoder.new. intros Hd. res_inv.
  match goal with Hi : decode_rlp_item _ = _ |- _ =>
    destruct (decode_rlp_item_split _ _ _ _ Hi) as (h & -> & Hne & _) end.
  eexists. rewrite app_assoc. done.
Qed.
Lemma decode_field_remaining {A} dec name d (x : A) d' :
  Decoder.decode_field dec name d = Ok (x, d') → remaining d' = remaining d.
Proof. unfold Decoder.decode_field. intros Hd. by res_inv. Qed.
Lemma decode_optional_field_remaining {A} dec d (x : option A) d' :
  Decoder.decode_optional_field dec d = Ok (x, d') → remaining d' = remaining d.
Proof. unfold Decoder.decode_optional_field. intros Hd. by res_inv. Qed.
Lemma finish_remaining d r : Decoder.finish d = Ok r → r = remaining d.
Proof. unfold Decoder.finish. intros Hd. by res_inv. Qed.
End Codecs.

(** [encode_fields]: rewrites an encoder chain in the goal to [struct_rlp]. *)
Ltac encode_fields :=
  match goal with
  | |- context [Encoder.finish ?e] =>
    erewrite !(finish_struct e) by
      (repeat first [apply fields_field | apply fields_optional]; apply fields_nil);
    cbn [app]
  end.

(** [decode_fields]: runs a decoder chain on [struct_rlp]. *)
Ltac decode_field_step :=
  first
    [ eapply decode_field_bind; [solve [typeclasses eauto]|done|try done|intros ?]
    | eapply decode_optional_field_bind; [solve [typeclasses eauto]|done|try done|intros ?]
    | eapply decode_optional_nil; [reflexivity|] ];
  cbv beta iota.
Ltac decode_fields := apply decode_new; [done|intros ?]; repeat decode_field_step.

(** [decode_consumes]: an impl written with [Decoder] consumes its struct. *)
Ltac struct_consumes :=
  unfold Decoder.finish_unchecked in *; res_inv;
  repeat match goal with
  | Hf : Decoder.decode_field _ _ _ = Ok _ |- _ => apply decode_field_remaining in Hf
  | Hf : Decoder.decode_optional_field _ _ = Ok _ |- _ => apply decode_optional_field_remaining in Hf
  | Hf : Decoder.finish _ = Ok _ |- _ => apply finish_remaining in Hf
  | Hf : Decoder.new _ = Ok _ |- _ => apply new_consumes in Hf as (? & ? & ?)
  end;
  match goal with Hd : _ = ?p ++ _ |- _ => exists p end; split; [congruence|done].
Ltac decode_consumes :=
  intros d x r Hd; cbn [rlp_decode] in Hd;
  match type of Hd with ?dec _ _ = _ => unfold dec in Hd end; struct_consumes.

(** Proves [Codec] for an impl written with [Encoder] and [Decoder]: runs both
    chains, closes what is left of the round trip with [tac]. *)
Ltac run_codec tac :=
  let x := fresh "x" in
  intros x rest Hwf; cbn [rlp_encode rlp_decode];
  match goal with |- context [?dec _ (?enc x ++ _)] => unfold enc, dec end;
  encode_fields; intros Hmax; tac x Hwf.
Ltac plain_struct x Hwf :=
  match type of Hwf with ?wf _ => unfold wf in Hwf end; destruct_and? Hwf;
  decode_fields; by destruct x.
Ltac struct_codec tac := split; [run_codec tac | decode_consumes].

(** ** Decidable well-formedness *)
#[export] Instance is_uint_dec w x : Decision (is_uint w x).
Proof. unfold is_uint. apply _. Defined.
#[export] Instance is_array_dec N l : Decision (is_array N l).
Proof. unfold is_array. apply _. Defined.
#[export] Instance from_option_dec {A} (P : A → Prop) `{∀ x, Decision (P x)} o :
  Decision (from_option P True o).
Proof. destruct o; apply _. Defined.

(** Evaluates a decidable proposition. *)
Ltac by_decide := apply (bool_decide_unpack _); vm_compute; exact I.
