(* ===== verification/Effects.v ===== *)
(** * State and errors

    The monad of the operations on a shared or mutable structure: a state transformer
    that returns a [Result].  What was written before an error or a panic stays
    written. *)

From S2P Require Import Prelude U256.

Definition stm (S E A : Type) : Type := S → S * res E A.
#[export] Instance stm_mret S E : MRet (stm S E) := λ A a s, (s, Ok a).
#[export] Instance stm_mbind S E : MBind (stm S E) := λ A B f m s,
  match m s with
  | (s, Ok a) => f a s
  | (s, Err e) => (s, Err e)
  | (s, Panic) => (s, Panic)
  | (s, OutOfFuel) => (s, OutOfFuel)
  end.
Definition lift {S E A} (r : res E A) : stm S E A := λ s, (s, r).
Definition stm_map_err {S E F A} (f : E → F) (m : stm S E A) : stm S F A := λ s,
  let '(s, r) := m s in (s, map_err f r).
(** [Result::unwrap]. *)
Definition stm_unwrap {S E F A} (m : stm S E A) : stm S F A := λ s,
  match m s with
  | (s, Ok a) => (s, Ok a)
  | (s, OutOfFuel) => (s, OutOfFuel)
  | (s, _) => (s, Panic)
  end.
(** [for x in l { ... ? }]. *)
Fixpoint for_each {S E A} (f : A → stm S E unit) (l : list A) : stm S E unit :=
  match l with
  | [] => mret tt
  | x :: l => _ ← f x; for_each f l
  end.

Lemma stm_bind_Ok {S E A B} (m : stm S E A) (f : A → stm S E B) s s' a :
  m s = (s', Ok a) → (m ≫= f) s = f a s'.
Proof. unfold mbind, stm_mbind. by intros ->. Qed.
Lemma stm_bind_inv {S E A B} (m : stm S E A) (f : A → stm S E B) s s2 b :
  (m ≫= f) s = (s2, Ok b) → ∃ s1 a, m s = (s1, Ok a) ∧ f a s1 = (s2, Ok b).
Proof. unfold mbind, stm_mbind. destruct (m s) as [s1 [a| | |]]; intros; naive_solver. Qed.

(** A computation that cannot fail with a value, in a context with errors. *)
Definition no_err {E A} (r : pres A) : res E A := map_err (λ e : never, match e with end) r.
Lemma no_err_Ok {E A} (r : pres A) (a : A) : no_err (E:=E) r = Ok a → r = Ok a.
Proof. by destruct r as [x|[]| |]; cbn; [intros [= ->]|..]. Qed.
