(* ===== verification/Nibble.v ===== *)
(** * Half-bytes and paths of the trie

    Model of [crates/trie/nibble.rs]: a [NibbleSlice] is a byte string with the number
    of half-bytes already traversed, a [NibbleVec] an owned run of half-bytes that may
    start or end in the middle of a byte.  The laws say which list of half-bytes each
    of them stands for and what every operation does to that list.

    A half-byte is an integer below 16 ([Nibble::try_from] cannot fail on the two
    halves of a [u8]).  An offset never exceeds twice the length of its byte string by
    more than one, which fits a [usize], so additions on offsets are exact. *)

From S2P Require Import Prelude Rlp RlpLaws U256 Codec.

(** ** Bytes and halves *)
Definition high (b : Z) : Z := Z.shiftr b 4.
Definition low (b : Z) : Z := Z.land b 0x0F.

Module NibbleVec.
Record t := mk { data : list Z; first_is_half : bool; last_is_half : bool }.

Definition from_single (nibble : Z) (is_right_half : bool) : t :=
  mk [if is_right_half then nibble else Z.shiftl nibble 4] is_right_half (negb is_right_half).

Definition is_empty (self : t) : bool := match data self with [] => true | _ => false end.

Definition len `{Profile} (self : t) : pres Z :=
  n ← usub (2 * zlen (data self)) (Z.b2z (first_is_half self));
  usub n (Z.b2z (last_is_half self)).

Definition normalize (self : t) : t :=
  match data self with
  | [] => mk [] false false
  | [_] => if first_is_half self && last_is_half self then mk [] false false else self
  | _ => self
  end.

Definition split_extract_at (self : t) (index : Z) : pres (t * Z * t) :=
  let first := Z.b2z (first_is_half self) in
  let offset := (index + 1 + first) / 2 in
  left ← slice_to (data self) offset;
  let left_vec := normalize (mk left (first_is_half self) (negb ((index + first) mod 2 =? 0))) in
  let offset := index + first in
  if negb ((offset + Z.b2z (last_is_half self)) / 2 <? zlen (data self)) then Panic
  else
    byte ← Prelude.index (data self) (offset / 2);
    let value := if negb (offset mod 2 =? 0) then low byte else high byte in
    let offset := (index + 1 + first) / 2 in
    right ← (if zlen (data self) <=? offset then Ok [] else slice_from (data self) offset);
    let right_vec := normalize (mk right ((index + first) mod 2 =? 0) (last_is_half self)) in
    Ok (left_vec, value, right_vec).

Definition prepend (self : t) (nibble : Z) : pres t :=
  if first_is_half self then
    b ← Prelude.index (data self) 0;
    Ok (mk (<[0%nat := Z.lor (Z.land b 0x0F) (Z.shiftl nibble 4)]> (data self))
          (negb (first_is_half self)) (last_is_half self))
  else Ok (mk (nibble :: data self) (negb (first_is_half self)) (last_is_half self)).

Definition extend (self other : t) : pres t :=
  if negb (bool_decide (last_is_half self = first_is_half other)) then Panic
  else
    d ← (if last_is_half self then
           l ← unwrap (last (data self)); o ← Prelude.index (data other) 0;
           Ok (<[pred (length (data self)) := Z.lor (Z.land l 0xF0) (Z.land o 0x0F)]> (data self))
         else Ok (data self));
    tail ← (if first_is_half other then slice_from (data other) 1 else Ok (data other));
    Ok (mk (d ++ tail) (first_is_half self) (last_is_half other)).

(** [NibbleVecIter]: the half-byte at a position, and all of them from a position on. *)
Definition iter_at (self : t) (pos : Z) : option Z :=
  match data self !! Z.to_nat (pos / 2) with
  | Some byte =>
    if (pos / 2 + 1 =? zlen (data self)) && (pos mod 2 =? 1) && last_is_half self then None
    else Some (if negb (pos mod 2 =? 0) then low byte else high byte)
  | None => None
  end.
Fixpoint iter_from (self : t) (n : nat) (pos : Z) : list Z :=
  match n with
  | O => []
  | S n => match iter_at self pos with
           | Some nibble => nibble :: iter_from self n (pos + 1)
           | None => []
           end
  end.
Definition iter (self : t) : list Z :=
  iter_from self (2 * length (data self)) (Z.b2z (first_is_half self)).

Definition encode (self : t) : list Z :=
  Encoder.new []
  |> Encoder.encode_field (vec_encode u8_encode) (data self)
  |> Encoder.encode_field bool_encode (first_is_half self)
  |> Encoder.encode_field bool_encode (last_is_half self)
  |> Encoder.finish.
Definition decode_unfinished `{Profile} (rlp : list Z) : dres (t * list Z) :=
  decoder ← Decoder.new rlp;
  '(data, decoder) ← Decoder.decode_field (vec_decode u8_decode) "data" decoder;
  '(first_is_half, decoder) ← Decoder.decode_field bool_decode "first_is_half" decoder;
  '(last_is_half, decoder) ← Decoder.decode_field bool_decode "last_is_half" decoder;
  rest ← Decoder.finish decoder;
  Ok (mk data first_is_half last_is_half, rest).
End NibbleVec.

Module NibbleSlice.
Record t := mk { data : list Z; offset : Z }.

Definition new (inner : list Z) : t := mk inner 0.
Definition len `{Profile} (self : t) : pres Z := usub (2 * zlen (data self)) (offset self).
Definition offset_add (self : t) (delta : Z) : t := mk (data self) (offset self + delta).

(** [Iterator::next]: the half-byte, if there is one, and the slice after it. *)
Definition next (self : t) : option (Z * t) :=
  match data self !! Z.to_nat (offset self / 2) with
  | Some byte =>
    Some (if negb (offset self mod 2 =? 0) then low byte else high byte, offset_add self 1)
  | None => None
  end.
(** [Iterator::nth]. *)
Fixpoint nth (self : t) (n : nat) : option Z :=
  match next self, n with
  | Some (nibble, _), O => Some nibble
  | Some (_, self), S n => nth self n
  | None, _ => None
  end.
(** The half-bytes that the iterator yields. *)
Fixpoint collect_from (self : t) (n : nat) : list Z :=
  match n with
  | O => []
  | S n => match next self with Some (nibble, self) => nibble :: collect_from self n | None => [] end
  end.
Definition collect (self : t) : list Z := collect_from self (2 * length (data self)).

Definition split_to_vec (self : t) (n : Z) : pres NibbleVec.t :=
  d ← slice (data self) (offset self / 2) ((offset self + n + 1) / 2);
  Ok (NibbleVec.mk d (negb (offset self mod 2 =? 0)) (negb ((offset self + n) mod 2 =? 0))).

(** The slices of [skip_prefix] after the checks of the first and the last half. *)
Definition skip_first (first_is_half : bool) (prfx_slice self_slice : list Z)
    : pres (option (list Z * list Z)) :=
  if first_is_half then
    p ← index prfx_slice 0; s ← index self_slice 0;
    if negb (Z.land p 0x0F =? Z.land s 0x0F) then Ok None
    else
      self_slice ← slice_from self_slice 1; prfx_slice ← slice_from prfx_slice 1;
      Ok (Some (prfx_slice, self_slice))
  else Ok (Some (prfx_slice, self_slice)).
Definition skip_last `{Profile} (last_is_half : bool) (prfx_slice self_slice : list Z)
    : pres (option (list Z * list Z)) :=
  if last_is_half then
    i ← usub (zlen self_slice) 1;
    p ← index prfx_slice i; s ← index self_slice i;
    if negb (Z.land p 0xF0 =? Z.land s 0xF0) then Ok None
    else
      self_slice ← slice_to self_slice i; prfx_slice ← slice_to prfx_slice i;
      Ok (Some (prfx_slice, self_slice))
  else Ok (Some (prfx_slice, self_slice)).
(** The answer and the slice afterwards. *)
Definition skip_prefix `{Profile} (self : t) (prefix : NibbleVec.t) : pres (bool * t) :=
  let first := NibbleVec.first_is_half prefix in
  let last := NibbleVec.last_is_half prefix in
  if negb (bool_decide (negb (offset self mod 2 =? 0) = first)) then Panic
  else if zlen (data self) <? zlen (NibbleVec.data prefix) then Ok (false, self)
  else
    let prfx_slice := NibbleVec.data prefix in
    self_slice ← slice (data self) (offset self / 2) (offset self / 2 + zlen prfx_slice);
    if (zlen prfx_slice =? 0) || ((zlen prfx_slice =? 1) && first && last) then Ok (true, self)
    else
      r ← skip_first first prfx_slice self_slice;
      match r with
      | None => Ok (false, self)
      | Some (prfx_slice, self_slice) =>
        r ← skip_last last prfx_slice self_slice;
        match r with
        | None => Ok (false, self)
        | Some (prfx_slice, self_slice) =>
          if negb (bool_decide (self_slice = prfx_slice)) then Ok (false, self)
          else
            n ← usub (offset self + 2 * zlen (NibbleVec.data prefix)) (Z.b2z first);
            n ← usub n (Z.b2z last);
            Ok (true, mk (data self) n)
        end
      end.

Definition cmp_rest (self : t) (other : list Z) : pres bool :=
  othr_slice ← slice_from other (offset self / 2);
  self_slice ← slice_from (data self) (offset self / 2);
  if negb (offset self mod 2 =? 0) then
    o ← index othr_slice 0; s ← index self_slice 0;
    if negb (Z.land o 0x0F =? Z.land s 0x0F) then Ok false
    else
      othr_slice ← slice_from othr_slice 1; self_slice ← slice_from self_slice 1;
      Ok (bool_decide (self_slice = othr_slice))
  else Ok (bool_decide (self_slice = othr_slice)).

(** The loop over pairs of bytes: how many half-bytes agree, and whether the loop ran
    to its end. *)
Fixpoint count_bytes (l k : list Z) : Z * bool :=
  match l, k with
  | a :: l, b :: k =>
    if a =? b then let '(n, e) := count_bytes l k in (2 + n, e)
    else if Z.land a 0xF0 =? Z.land b 0xF0 then (1, false)
    else (0, false)
  | _, _ => (0, true)
  end.

(** [count_prefix_vec] after the first half: the middle bytes and the last half. *)
Definition count_prefix_tail `{Profile} (self : t) (other : NibbleVec.t) (eq_count : Z) : pres Z :=
  let last_half := NibbleVec.last_is_half other in
  rest ← slice_from (data self) ((offset self + 1) / 2);
  e ← usub (zlen (NibbleVec.data other)) (Z.b2z last_half);
  middle ← slice (NibbleVec.data other) (Z.b2z (NibbleVec.first_is_half other)) e;
  let '(byte_nibble_count, check_last_half) := count_bytes rest middle in
  let eq_count := eq_count + byte_nibble_count in
  let self := offset_add self byte_nibble_count in
  if check_last_half && last_half &&
     bool_decide (fst <$> next self = (high <$> last (NibbleVec.data other)))
  then Ok (eq_count + 1) else Ok eq_count.

Definition count_prefix_vec `{Profile} (self : t) (other : NibbleVec.t) : pres Z :=
  match NibbleVec.data other with
  | [] => Ok 0
  | o :: _ =>
    if negb (bool_decide (negb (offset self mod 2 =? 0) = NibbleVec.first_is_half other)) then Panic
    else if NibbleVec.first_is_half other then
      match next self with
      | Some (nibble, self) => if nibble =? low o then count_prefix_tail self other 1 else Ok 0
      | None => Ok 0
      end
    else count_prefix_tail self other 0
  end.

Definition count_prefix_slice (self other : t) : pres Z :=
  if negb (offset self =? offset other) then Panic
  else
    let rest eq_count : pres Z :=
      l ← slice_from (data self) ((offset self + 1) / 2);
      k ← slice_from (data other) ((offset self + 1) / 2);
      Ok (eq_count + (count_bytes l k).1) in
    if negb (offset self mod 2 =? 0) then
      a ← index (data self) (offset self / 2); b ← index (data other) (offset self / 2);
      if Z.land a 0x0F =? Z.land b 0x0F then rest 1 else Ok 0
    else rest 0.
End NibbleSlice.
