(* ===== verification/NibbleLaws.v ===== *)
(** * Half-bytes: laws

    Every operation of [Nibble] in terms of the list of half-bytes that its arguments
    stand for. *)

From S2P Require Import Prelude Rlp RlpLaws U256 Codec Nibble.

(** ** Halves of a byte *)
Definition is_nibble (x : Z) : Prop := 0 <= x < 16.
#[export] Instance is_nibble_dec x : Decision (is_nibble x).
Proof. unfold is_nibble. apply _. Defined.

(** A fact about bytes, checked on all of them. *)
Lemma all_below (n : Z) (f : Z → bool) : forallb f (seqZ 0 n) = true → ∀ b, 0 <= b < n → f b = true.
Proof. rewrite forallb_forall. intros Hf b Hb. apply Hf, list_elem_of_In, elem_of_seqZ. lia. Qed.

Lemma high_div b : high b = b / 16.
Proof. unfold high. by rewrite Z.shiftr_div_pow2. Qed.
Lemma low_mod b : low b = b mod 16.
Proof. unfold low. change 0x0F with (Z.ones 4). by rewrite Z.land_ones. Qed.
Lemma land_high b : is_byte b → Z.land b 0xF0 = 16 * high b.
Proof.
  intros Hb. apply Z.eqb_eq. revert b Hb.
  apply (all_below 256 (λ b, Z.land b 0xF0 =? 16 * high b)). by vm_compute.
Qed.
Lemma lor_halves h l : is_nibble h → is_nibble l → Z.lor l (Z.shiftl h 4) = 16 * h + l.
Proof.
  intros Hh Hl. apply Z.eqb_eq. revert l Hl. apply (all_below 16 (λ l, Z.lor l (Z.shiftl h 4) =? 16 * h + l)).
  revert h Hh. apply (all_below 16 (λ h, forallb (λ l, Z.lor l (Z.shiftl h 4) =? 16 * h + l) (seqZ 0 16))).
  by vm_compute.
Qed.
Lemma shiftl_high h : Z.shiftl h 4 = 16 * h.
Proof. rewrite Z.shiftl_mul_pow2 by lia. lia. Qed.

Lemma high_nibble b : is_byte b → is_nibble (high b).
Proof. rewrite high_div. unfold is_byte, is_nibble. intros. divlia. Qed.
Lemma low_nibble b : is_nibble (low b).
Proof. rewrite low_mod. unfold is_nibble. divlia. Qed.
Lemma byte_halves b : 16 * high b + low b = b.
Proof. rewrite high_div, low_mod. divlia. Qed.
Lemma high_of h l : is_nibble l → high (16 * h + l) = h.
Proof. rewrite high_div. unfold is_nibble. intros. divlia. Qed.
Lemma low_of h l : is_nibble l → low (16 * h + l) = l.
Proof. rewrite low_mod. unfold is_nibble. intros. divlia. Qed.
Lemma is_byte_of h l : is_nibble h → is_nibble l → is_byte (16 * h + l).
Proof. unfold is_nibble, is_byte. lia. Qed.
Lemma halves_eqb a b : (a =? b) = (high a =? high b) && (low a =? low b).
Proof.
  pose proof (byte_halves a). pose proof (byte_halves b).
  destruct (high a =? high b) eqn:?, (low a =? low b) eqn:?, (a =? b) eqn:?; bool_prop; cbn; congruence || lia.
Qed.
Lemma land_high_eqb a b : is_byte a → is_byte b → (Z.land a 0xF0 =? Z.land b 0xF0) = (high a =? high b).
Proof.
  intros Ha Hb. rewrite !land_high by done.
  destruct (high a =? high b) eqn:E; bool_prop; [by rewrite E, Z.eqb_refl|]. apply Z.eqb_neq. lia.
Qed.

(** ** Lists of half-bytes *)
Fixpoint nibs (l : list Z) : list Z :=
  match l with
  | [] => []
  | b :: l => high b :: low b :: nibs l
  end.

Lemma nibs_app l k : nibs (l ++ k) = nibs l ++ nibs k.
Proof. induction l as [|b l IH]; cbn; congruence. Qed.
Lemma nibs_length l : length (nibs l) = (2 * length l)%nat.
Proof. induction l as [|b l IH]; cbn in *; lia. Qed.
Lemma zlen_nibs l : zlen (nibs l) = 2 * zlen l.
Proof. unfold zlen. rewrite nibs_length. lia. Qed.
Lemma nibs_inj l : ∀ k, nibs l = nibs k → l = k.
Proof.
  induction l as [|a l IH]; intros [|b k]; cbn; try done. intros [= Hh Hl Hr].
  rewrite <-(byte_halves a), <-(byte_halves b). f_equal; [congruence|auto].
Qed.
Lemma nibs_drop n l : drop (2 * n) (nibs l) = nibs (drop n l).
Proof.
  revert l. induction n as [|n IH]; intros [|b l]; cbn; try done.
  replace (n + Datatypes.S (n + 0))%nat with (Datatypes.S (2 * n)) by lia. cbn [drop]. apply IH.
Qed.
Lemma nibs_take n l : take (2 * n) (nibs l) = nibs (take n l).
Proof.
  revert l. induction n as [|n IH]; intros [|b l]; cbn; try done.
  replace (n + Datatypes.S (n + 0))%nat with (Datatypes.S (2 * n)) by lia. cbn [take]. by rewrite IH.
Qed.
Lemma nibs_nibbles l : bytes_ok l → Forall is_nibble (nibs l).
Proof. induction 1; cbn; auto using high_nibble, low_nibble. Qed.
Lemma zdrop_nibs n l : 0 <= n → zdrop (2 * n) (nibs l) = nibs (zdrop n l).
Proof. intros Hn. unfold zdrop. rewrite Z2Nat.inj_mul by lia. apply nibs_drop. Qed.
Lemma ztake_nibs n l : 0 <= n → ztake (2 * n) (nibs l) = nibs (ztake n l).
Proof. intros Hn. unfold ztake. rewrite Z2Nat.inj_mul by lia. apply nibs_take. Qed.

(** ** Slices *)
Definition rest (s : NibbleSlice.t) : list Z := zdrop (NibbleSlice.offset s) (nibs (NibbleSlice.data s)).
Definition odd (n : Z) : bool := negb (n mod 2 =? 0).

Record wf_slice (s : NibbleSlice.t) : Prop := {
  slice_bytes : bytes_ok (NibbleSlice.data s);
  slice_offset : 0 <= NibbleSlice.offset s <= 2 * zlen (NibbleSlice.data s)
}.

Lemma odd_spec n : odd n = true ∧ n = 2 * (n / 2) + 1 ∨ odd n = false ∧ n = 2 * (n / 2).
Proof.
  unfold odd. pose proof (Z.div_mod n 2 ltac:(lia)). pose proof (Z.mod_pos_bound n 2 ltac:(lia)).
  destruct (n mod 2 =? 0) eqn:E; bool_prop; cbn; [right|left]; (split; [done|lia]).
Qed.
Lemma b2z_odd n : Z.b2z (odd n) = n mod 2.
Proof.
  pose proof (Z.mod_pos_bound n 2 ltac:(lia)). unfold odd. destruct (n mod 2 =? 0) eqn:E; bool_prop; cbn; lia.
Qed.
Lemma odd_mod n : odd n = bool_decide (n mod 2 = 1).
Proof.
  pose proof (Z.mod_pos_bound n 2 ltac:(lia)). unfold odd.
  destruct (n mod 2 =? 0) eqn:E; bool_prop; [rewrite bool_decide_false by lia|rewrite bool_decide_true by lia]; done.
Qed.
Lemma odd_add a b : odd (a + b) = xorb (odd a) (odd b).
Proof. destruct (odd_spec a) as [[-> ?]|[-> ?]], (odd_spec b) as [[-> ?]|[-> ?]], (odd_spec (a + b)) as [[-> ?]|[-> ?]]; cbn; try done; lia. Qed.
Lemma odd_double n : odd (2 * n) = false.
Proof. destruct (odd_spec (2 * n)) as [[_ ?]|[-> ?]]; [lia|done]. Qed.
Lemma odd_1 : odd 1 = true. Proof. done. Qed.

(** The bytes from the current one on determine what is left. *)
Lemma rest_bytes s :
  0 <= NibbleSlice.offset s →
  rest s = (if odd (NibbleSlice.offset s) then tail else id)
             (nibs (zdrop (NibbleSlice.offset s / 2) (NibbleSlice.data s))).
Proof.
  intros Ho. unfold rest. set (o := NibbleSlice.offset s) in *.
  assert (0 <= o / 2) by divlia. rewrite <-zdrop_nibs by done.
  destruct (odd_spec o) as [[-> He]|[-> He]]; [|by rewrite <-He].
  rewrite He at 1. rewrite <-zdrop_zdrop by lia. generalize (nibs (NibbleSlice.data s)). intros l.
  unfold zdrop.
  by destruct (drop (Z.to_nat (2 * (o / 2))) l).
Qed.
Lemma zlen_rest s : wf_slice s → zlen (rest s) = 2 * zlen (NibbleSlice.data s) - NibbleSlice.offset s.
Proof. intros [_ Ho]. unfold rest. rewrite zlen_zdrop; rewrite zlen_nibs; lia. Qed.
Lemma rest_nibbles s : wf_slice s → Forall is_nibble (rest s).
Proof. intros [Hb _]. unfold rest, zdrop. by apply Forall_drop, nibs_nibbles. Qed.

Lemma offset_add_rest s n :
  0 <= NibbleSlice.offset s → 0 <= n → rest (NibbleSlice.offset_add s n) = zdrop n (rest s).
Proof. intros. unfold rest. cbn. by rewrite zdrop_zdrop. Qed.
Lemma wf_offset_add s n : wf_slice s → 0 <= n <= zlen (rest s) → wf_slice (NibbleSlice.offset_add s n).
Proof. intros Hs Hn. rewrite zlen_rest in Hn by done. destruct Hs. split; cbn; [done|lia]. Qed.
Lemma wf_new l : bytes_ok l → wf_slice (NibbleSlice.new l).
Proof. intros Hl. split; [done|]. cbn. pose proof (zlen_nonneg l). lia. Qed.
Lemma rest_new l : rest (NibbleSlice.new l) = nibs l.
Proof. apply zdrop_0. Qed.

Lemma nibs_lookup_byte l (i : nat) :
  nibs l !! i = (λ b, if odd (Z.of_nat i) then low b else high b) <$> l !! (i / 2)%nat.
Proof.
  revert i. induction l as [|b l IH]; intros i; [done|].
  destruct i as [|[|i]]; [done..|]. cbn [nibs lookup list_lookup]. rewrite IH.
  replace (Datatypes.S (Datatypes.S i) / 2)%nat with (Datatypes.S (i / 2)) by
    (rewrite <-(Nat.add_1_r (i/2)), <-Nat.div_add by lia; f_equal; lia).
  cbn. replace (odd (Z.of_nat (Datatypes.S (Datatypes.S i)))) with (odd (Z.of_nat i)); [done|].
  replace (Z.of_nat (Datatypes.S (Datatypes.S i))) with (Z.of_nat i + 2 * 1) by lia.
  by rewrite odd_add, odd_double, xorb_false_r.
Qed.

Lemma next_spec s :
  wf_slice s →
  NibbleSlice.next s = match rest s with [] => None | x :: _ => Some (x, NibbleSlice.offset_add s 1) end.
Proof.
  intros [Hb Ho]. unfold NibbleSlice.next, rest, zdrop. set (o := NibbleSlice.offset s) in *.
  pose proof (nibs_lookup_byte (NibbleSlice.data s) (Z.to_nat o)) as Hl.
  replace (Z.to_nat o / 2)%nat with (Z.to_nat (o / 2)) in Hl by (rewrite Z2Nat.inj_div by lia; done).
  rewrite Z2Nat.id in Hl by lia.
  rewrite <-(Nat.add_0_r (Z.to_nat o)), <-lookup_drop in Hl.
  destruct (NibbleSlice.data s !! Z.to_nat (o / 2)) as [b|]; cbn in Hl;
    destruct (drop (Z.to_nat o) _) as [|x r]; cbn in Hl; simplify_eq; done.
Qed.

Lemma nth_spec s n : wf_slice s → NibbleSlice.nth s n = rest s !! n.
Proof.
  revert s. induction n as [|n IH]; intros s Hs; cbn [NibbleSlice.nth]; rewrite next_spec by done.
  - by destruct (rest s).
  - destruct (rest s) as [|x r] eqn:Hr; [done|]. cbn [lookup list_lookup].
    pose proof (zlen_nonneg r).
    rewrite IH, offset_add_rest, Hr; [done|apply Hs|lia|].
    apply wf_offset_add; [done|]. rewrite Hr, zlen_cons. lia.
Qed.
Lemma collect_from_spec s n : wf_slice s → (length (rest s) <= n)%nat → NibbleSlice.collect_from s n = rest s.
Proof.
  revert s. induction n as [|n IH]; intros s Hs Hn; cbn [NibbleSlice.collect_from].
  - by destruct (rest s); [|cbn in Hn; lia].
  - rewrite next_spec by done. destruct (rest s) as [|x r] eqn:Hr; [done|]. f_equal. cbn in Hn.
    pose proof (zlen_nonneg r). assert (rest (NibbleSlice.offset_add s 1) = r) as Hr'
      by (rewrite offset_add_rest, Hr; [done|apply Hs|lia]).
    rewrite IH, Hr'; [done| |rewrite Hr'; lia].
    apply wf_offset_add; [done|]. rewrite Hr, zlen_cons. lia.
Qed.
Lemma collect_spec s : wf_slice s → NibbleSlice.collect s = rest s.
Proof.
  intros Hs. apply collect_from_spec; [done|]. pose proof (zlen_rest s Hs). destruct Hs. unfold zlen in *. lia.
Qed.

(** ** Runs of half-bytes *)

(** The half-bytes of a byte string without its first and without its last one. *)
Definition window (f l : bool) (d : list Z) : list Z :=
  ztake (2 * zlen d - Z.b2z f - Z.b2z l) (zdrop (Z.b2z f) (nibs d)).
Definition vec_len (v : NibbleVec.t) : Z :=
  2 * zlen (NibbleVec.data v) - Z.b2z (NibbleVec.first_is_half v) - Z.b2z (NibbleVec.last_is_half v).
Definition nibbles (v : NibbleVec.t) : list Z :=
  window (NibbleVec.first_is_half v) (NibbleVec.last_is_half v) (NibbleVec.data v).

(** Not empty; an empty run is stored as [empty_vec]. *)
Record wf_vec (v : NibbleVec.t) : Prop := {
  vec_bytes : bytes_ok (NibbleVec.data v);
  vec_pos : 0 < vec_len v
}.
Definition empty_vec : NibbleVec.t := NibbleVec.mk [] false false.

Lemma window_split (f l : bool) F M Q :
  length F = (if f then 1 else 0)%nat → length Q = (if l then 1 else 0)%nat →
  window f l (F ++ M ++ Q) = map low F ++ nibs M ++ map high Q.
Proof.
  intros HF HQ. unfold window.
  assert (zlen F = Z.b2z f) by (unfold zlen; rewrite HF; by destruct f).
  assert (zlen Q = Z.b2z l) by (unfold zlen; rewrite HQ; by destruct l).
  pose proof (zlen_nonneg M). rewrite !zlen_app.
  assert (zdrop (Z.b2z f) (nibs (F ++ M ++ Q)) = map low F ++ nibs M ++ nibs Q) as ->.
  { rewrite !nibs_app. destruct f, F as [|a [|]]; try done; cbn; by rewrite ?zdrop_0. }
  destruct l, Q as [|q [|]]; try done; cbn [map nibs Z.b2z].
  - rewrite (app_assoc (map low F)), (app_assoc (map low F)).
    change ([high q; low q]) with ([high q] ++ [low q]). rewrite app_assoc. apply ztake_app_exact.
    rewrite !zlen_app, zlen_nibs. unfold zlen at 4. rewrite length_map. fold (zlen F). zlen_simpl. lia.
  - rewrite !app_nil_r. apply ztake_all. rewrite zlen_app, zlen_nibs. unfold zlen at 1.
    rewrite length_map. fold (zlen F). zlen_simpl. lia.
Qed.

Lemma split_ends (f l : bool) (d : list Z) :
  0 <= 2 * zlen d - Z.b2z f - Z.b2z l → (zlen d = 1 → f && l = false) →
  ∃ F M Q, d = F ++ M ++ Q ∧ length F = (if f then 1 else 0)%nat ∧ length Q = (if l then 1 else 0)%nat.
Proof.
  intros Hp H1.
  assert (∃ F d', d = F ++ d' ∧ length F = (if f then 1 else 0)%nat ∧ 0 <= 2 * zlen d' - Z.b2z l)
    as (F & d' & -> & HF & Hp').
  { destruct f; [|by exists [], d; cbn in *; split_and!; [..|lia]].
    destruct d as [|a d]; [by destruct l|]. exists [a], d. split_and!; [done..|].
    zlen_simpl. pose proof (zlen_nonneg d). destruct l; cbn in *; [|lia].
    destruct (decide (zlen d = 0)) as [E|]; [|lia]. rewrite E in H1. by specialize (H1 eq_refl). }
  exists F. destruct l; [|by exists d', []; rewrite app_nil_r].
  destruct (exists_last (l:=d')) as (M & q & ->); [by intros ->|]. by exists M, [q].
Qed.

Lemma vec_split v :
  wf_vec v → ∃ F M Q, NibbleVec.data v = F ++ M ++ Q ∧
    length F = (if NibbleVec.first_is_half v then 1 else 0)%nat ∧
    length Q = (if NibbleVec.last_is_half v then 1 else 0)%nat ∧
    nibbles v = map low F ++ nibs M ++ map high Q.
Proof.
  intros [Hb Hp]. unfold vec_len in Hp.
  destruct (split_ends (NibbleVec.first_is_half v) (NibbleVec.last_is_half v) (NibbleVec.data v))
    as (F & M & Q & Hd & HF & HQ); [lia| |].
  { intros E. rewrite E in Hp. destruct (NibbleVec.first_is_half v), (NibbleVec.last_is_half v); cbn in *; done. }
  exists F, M, Q. split_and!; [done..|]. unfold nibbles. rewrite Hd. by apply window_split.
Qed.
Lemma zlen_window f l d :
  0 <= 2 * zlen d - Z.b2z f - Z.b2z l → zlen (window f l d) = 2 * zlen d - Z.b2z f - Z.b2z l.
Proof.
  intros Hp. unfold window. assert (0 <= Z.b2z f <= 1) by (by destruct f). assert (0 <= Z.b2z l <= 1) by (by destruct l).
  rewrite zlen_ztake; [done|]. rewrite zlen_zdrop; rewrite zlen_nibs; lia.
Qed.
Lemma zlen_nibbles v : wf_vec v → zlen (nibbles v) = vec_len v.
Proof. intros [_ Hp]. unfold nibbles, vec_len in *. rewrite zlen_window; lia. Qed.
Lemma nibbles_nonempty v : wf_vec v → nibbles v ≠ [].
Proof. intros Hv He. pose proof (zlen_nibbles v Hv) as Hl. rewrite He in Hl. destruct Hv. zlen_simpl. lia. Qed.
Lemma len_spec `{Profile} v :
  wf_vec v → 2 * zlen (NibbleVec.data v) < 2 ^ 64 → NibbleVec.len v = Ok (vec_len v).
Proof.
  intros [_ Hp] Hl. unfold NibbleVec.len, vec_len in *.
  assert (0 <= Z.b2z (NibbleVec.first_is_half v) <= 1) by (by destruct NibbleVec.first_is_half).
  assert (0 <= Z.b2z (NibbleVec.last_is_half v) <= 1) by (by destruct NibbleVec.last_is_half).
  rewrite usub_ok, bind_Ok_l, usub_ok by lia. done.
Qed.

Lemma map_window_eq F M Q F' M' Q' :
  length F = length F' → length M = length M' →
  (map low F ++ nibs M ++ map high Q = map low F' ++ nibs M' ++ map high Q' ↔
   map low F = map low F' ∧ M = M' ∧ map high Q = map high Q').
Proof.
  intros HF HM. split; [|by intros (-> & -> & ->)]. intros He.
  apply app_inj_1 in He as [-> He]; [|by rewrite !length_map].
  apply app_inj_1 in He as [->%nibs_inj ->]; [done|]. by rewrite !nibs_length, HM.
Qed.

Lemma window_take f l n (d : list Z) :
  0 <= n <= zlen d → 0 <= 2 * n - Z.b2z f - Z.b2z l →
  window f l (ztake n d) = ztake (2 * n - Z.b2z f - Z.b2z l) (zdrop (Z.b2z f) (nibs d)).
Proof.
  intros Hn Hp. unfold window. rewrite zlen_ztake by done. rewrite <-ztake_nibs by lia.
  assert (0 <= Z.b2z f <= 1) by (by destruct f). assert (0 <= Z.b2z l <= 1) by (by destruct l).
  unfold ztake, zdrop. rewrite skipn_firstn_comm, take_take. f_equal. lia.
Qed.

(** The bytes of a slice that a run of [n] bytes is compared with. *)
Lemma rest_window s l n :
  wf_slice s → let o := NibbleSlice.offset s in
  0 <= n <= zlen (NibbleSlice.data s) - o / 2 → 0 <= 2 * n - Z.b2z (odd o) - Z.b2z l →
  window (odd o) l (ztake n (zdrop (o / 2) (NibbleSlice.data s))) =
  ztake (2 * n - Z.b2z (odd o) - Z.b2z l) (rest s).
Proof.
  intros [Hb Ho] o Hn Hp. assert (0 <= o / 2 <= zlen (NibbleSlice.data s)) by (subst o; divlia).
  rewrite window_take; [|rewrite zlen_zdrop by lia; lia|done]. f_equal.
  rewrite rest_bytes by (subst o; lia). fold o. destruct (odd o); [|done].
  by destruct (nibs _).
Qed.

Lemma index_ok {E A} (l : list A) i x : l !! Z.to_nat i = Some x → 0 <= i → index (E:=E) l i = Ok x.
Proof. intros Hl Hi. unfold index. rewrite (proj2 (Z.leb_le _ _)) by done. by rewrite Hl. Qed.

Lemma index_head {E A} (x : A) l : index (E:=E) (x :: l) 0 = Ok x.
Proof. done. Qed.

Lemma skip_first_spec (f : bool) F F' P S :
  length F = (if f then 1 else 0)%nat → length F' = length F →
  NibbleSlice.skip_first f (F ++ P) (F' ++ S) =
  Ok (if bool_decide (map low F = map low F') then Some (P, S) else None).
Proof.
  intros HF HF'. unfold NibbleSlice.skip_first.
  destruct f; [|by destruct F, F'; cbn]. destruct F as [|a [|]], F' as [|b [|]]; try done. cbn [app map].
  rewrite !index_head, !bind_Ok_l.
  change (Z.land a 15) with (low a). change (Z.land b 15) with (low b).
  rewrite !slice_from_cons, !bind_Ok_l.
  destruct (low a =? low b) eqn:E; bool_prop; cbn;
    [rewrite bool_decide_true by congruence|rewrite bool_decide_false by congruence]; done.
Qed.
Lemma skip_last_spec `{Profile} (l : bool) M Q M' Q' :
  length Q = (if l then 1 else 0)%nat → length Q' = length Q → length M' = length M →
  bytes_ok Q → bytes_ok Q' → zlen M < 2 ^ 63 →
  NibbleSlice.skip_last l (M ++ Q) (M' ++ Q') =
  Ok (if bool_decide (map high Q = map high Q') then Some (M, M') else None).
Proof.
  intros HQ HQ' HM Hb Hb' Hz. assert (zlen M' = zlen M) as HM' by (unfold zlen; congruence).
  unfold NibbleSlice.skip_last.
  destruct l; [|by destruct Q, Q'; rewrite ?app_nil_r; cbn].
  destruct Q as [|a [|]], Q' as [|b [|]]; try done. cbn [map].
  inversion_clear Hb. inversion_clear Hb'. pose proof (zlen_nonneg M).
  rewrite usub_ok, bind_Ok_l by (zlen_simpl; lia).
  replace (zlen (M' ++ [b]) - 1) with (zlen M) by (zlen_simpl; lia).
  assert (∀ (K : list Z) x, length K = length M → (K ++ [x]) !! Z.to_nat (zlen M) = Some x) as Hl.
  { intros K x HK. unfold zlen. rewrite Nat2Z.id, <-HK. by apply list_lookup_middle. }
  rewrite (index_ok (M ++ [a]) _ a), (index_ok (M' ++ [b]) _ b), !bind_Ok_l by (by apply Hl || lia).
  rewrite land_high_eqb by done.
  rewrite !slice_to_ok, !bind_Ok_l by (zlen_simpl; lia). rewrite !ztake_app_exact by done.
  destruct (high a =? high b) eqn:E; bool_prop; cbn;
    [rewrite bool_decide_true by congruence|rewrite bool_decide_false by congruence]; done.
Qed.

Lemma split_like (f l : bool) (F M Q S : list Z) :
  length F = (if f then 1 else 0)%nat → length Q = (if l then 1 else 0)%nat →
  length S = length (F ++ M ++ Q) →
  ∃ F' M' Q', S = F' ++ M' ++ Q' ∧ length F' = length F ∧ length M' = length M ∧ length Q' = length Q.
Proof.
  intros HF HQ HS. rewrite !length_app in HS.
  exists (take (length F) S), (take (length M) (drop (length F) S)), (drop (length M) (drop (length F) S)).
  rewrite !take_drop. split_and!; rewrite ?length_take, ?length_drop; [done|lia..].
Qed.

(** [skip_prefix] succeeds exactly when the run is a prefix of what is left of the
    path, and then moves past it; it does not panic when the run is not longer than
    what is left and both start at the same half of a byte. *)
Lemma skip_prefix_spec `{Profile} s p :
  wf_slice s → wf_vec p → NibbleVec.first_is_half p = odd (NibbleSlice.offset s) →
  vec_len p <= zlen (rest s) → zlen (NibbleSlice.data s) < 2 ^ 61 →
  NibbleSlice.skip_prefix s p =
  Ok (if bool_decide (nibbles p `prefix_of` rest s)
      then (true, NibbleSlice.offset_add s (vec_len p)) else (false, s)).
Proof.
  intros Hs Hp Hodd Hle Hbig. pose proof Hs as [Hb Ho].
  destruct (vec_split p Hp) as (F & M & Q & Hd & HF & HQ & Hnib).
  pose proof Hp as [Hpb Hpos]. rewrite zlen_rest in Hle by done. unfold vec_len in *.
  unfold NibbleSlice.skip_prefix. rewrite Hodd in *. fold (odd (NibbleSlice.offset s)).
  rewrite bool_decide_true by done. cbn [negb].
  set (o := NibbleSlice.offset s) in *. set (l := NibbleVec.last_is_half p) in *.
  pose proof (b2z_odd o) as Hbo. assert (o = 2 * (o / 2) + o mod 2) by (apply Z.div_mod; lia).
  pose proof (Z.mod_pos_bound o 2 ltac:(lia)). assert (0 <= Z.b2z l <= 1) by (by destruct l).
  set (n := zlen (NibbleVec.data p)) in *.
  assert (1 <= n <= zlen (NibbleSlice.data s) - o / 2) as Hn by lia.
  decide_bools. rewrite slice_ok, bind_Ok_l by lia.
  replace (o / 2 + n - o / 2) with n by lia. set (S := ztake n (zdrop (o / 2) (NibbleSlice.data s))).
  assert (zlen S = n) as HS by (unfold S; rewrite zlen_ztake; rewrite ?zlen_zdrop; lia).
  assert ((n =? 1) && odd o && l = false) as Hone.
  { destruct (n =? 1) eqn:E; bool_prop; [|done]. destruct (odd o), l; cbn in *; done || lia. }
  rewrite Hone. decide_bools.
  destruct (split_like (odd o) l F M Q S HF HQ) as (F' & M' & Q' & HSe & HF' & HM' & HQ').
  { rewrite <-Hd. unfold zlen in *. lia. }
  assert (window (odd o) l S = map low F' ++ nibs M' ++ map high Q') as HwS
    by (rewrite HSe; apply window_split; congruence).
  assert (window (odd o) l S = ztake (2 * n - Z.b2z (odd o) - Z.b2z l) (rest s)) as Hwr
    by (apply rest_window; [done|fold o; lia|fold o; lia]).
  assert (bytes_ok S) as HbS by (unfold S, ztake, zdrop; by apply Forall_take, Forall_drop).
  rewrite HSe, !Forall_app in HbS. rewrite Hd, !Forall_app in Hpb.
  assert (zlen M < 2 ^ 63).
  { unfold n in *. rewrite Hd, !zlen_app in Hn. pose proof (zlen_nonneg F). pose proof (zlen_nonneg Q). lia. }
  fold S. rewrite Hd, HSe. rewrite skip_first_spec, bind_Ok_l by done.
  assert (nibbles p `prefix_of` rest s ↔
    map low F = map low F' ∧ M = M' ∧ map high Q = map high Q') as Hiff.
  { rewrite <-map_window_eq by congruence. rewrite <-HwS, <-Hnib, Hwr.
    assert (zlen (nibbles p) = 2 * n - Z.b2z (odd o) - Z.b2z l) as Hl
      by (rewrite zlen_nibbles by done; unfold vec_len; rewrite Hodd; done).
    rewrite <-Hl. split.
    - intros [k ->]. by rewrite ztake_app_exact.
    - intros He. exists (zdrop (zlen (nibbles p)) (rest s)). rewrite He at 1. by rewrite ztake_zdrop. }
  case_bool_decide as HFe; [|by rewrite bool_decide_false by naive_solver].
  rewrite skip_last_spec, bind_Ok_l by (tauto || congruence || lia).
  case_bool_decide as HQe; [|by rewrite bool_decide_false by naive_solver].
  case_bool_decide as HMe; cbn [negb]; [|by rewrite bool_decide_false by naive_solver].
  rewrite bool_decide_true by naive_solver.
  rewrite usub_ok, bind_Ok_l, usub_ok, bind_Ok_l by lia.
  unfold NibbleSlice.offset_add. repeat f_equal. fold o. lia.
Qed.

(** The bytes of a slice from the current one on; the first of them is half traversed
    at an odd offset. *)
Lemma rest_odd s :
  wf_slice s → odd (NibbleSlice.offset s) = true →
  ∃ a d, zdrop (NibbleSlice.offset s / 2) (NibbleSlice.data s) = a :: d ∧ rest s = low a :: nibs d ∧
    zdrop ((NibbleSlice.offset s + 1) / 2) (NibbleSlice.data s) = d.
Proof.
  intros [Hb Ho] Hodd. rewrite rest_bytes, Hodd by lia. set (o := NibbleSlice.offset s) in *.
  destruct (odd_spec o) as [[_ He]|[? _]]; [|congruence].
  assert (0 < zlen (zdrop (o / 2) (NibbleSlice.data s))) as Hp by (rewrite zlen_zdrop; lia).
  destruct (zdrop (o / 2) (NibbleSlice.data s)) as [|a d] eqn:Hd; [by zlen_simpl|].
  exists a, d. split_and!; [done..|].
  replace ((o + 1) / 2) with (o / 2 + 1) by (rewrite He at 2; divlia).
  rewrite <-zdrop_zdrop by lia. by rewrite Hd.
Qed.
Lemma rest_even s :
  wf_slice s → odd (NibbleSlice.offset s) = false →
  rest s = nibs (zdrop (NibbleSlice.offset s / 2) (NibbleSlice.data s)) ∧
  (NibbleSlice.offset s + 1) / 2 = NibbleSlice.offset s / 2.
Proof.
  intros [Hb Ho] Hodd. rewrite rest_bytes, Hodd by lia. split; [done|].
  destruct (odd_spec (NibbleSlice.offset s)) as [[? _]|[_ He]]; [congruence|]. rewrite He at 1. divlia.
Qed.

Lemma nibs_eq_decide l k : bool_decide (l = k) = bool_decide (nibs l = nibs k).
Proof. apply bool_decide_ext. split; [congruence|apply nibs_inj]. Qed.

Lemma cmp_rest_spec s other :
  wf_slice s → wf_slice (NibbleSlice.mk other (NibbleSlice.offset s)) →
  NibbleSlice.cmp_rest s other = Ok (bool_decide (rest s = rest (NibbleSlice.mk other (NibbleSlice.offset s)))).
Proof.
  intros Hs Ho. unfold NibbleSlice.cmp_rest. fold (odd (NibbleSlice.offset s)).
  pose proof Hs as [_ Hso]. pose proof Ho as [_ Hoo]. cbn [NibbleSlice.offset NibbleSlice.data] in Hoo.
  rewrite !slice_from_ok, !bind_Ok_l by divlia.
  destruct (odd (NibbleSlice.offset s)) eqn:Hodd.
  - destruct (rest_odd s Hs Hodd) as (a & d & Hd & -> & _).
    destruct (rest_odd _ Ho Hodd) as (b & d' & Hd' & -> & _). cbn in Hd'.
    rewrite Hd, Hd', !index_head, !bind_Ok_l, !slice_from_cons, !bind_Ok_l.
    change (Z.land b 15) with (low b). change (Z.land a 15) with (low a).
    destruct (low b =? low a) eqn:E; bool_prop; cbn [negb].
    + rewrite nibs_eq_decide. f_equal. apply bool_decide_ext. rewrite E. split; [congruence|by intros [=]].
    + by rewrite bool_decide_false by congruence.
  - rewrite (proj1 (rest_even s Hs Hodd)), (proj1 (rest_even _ Ho Hodd)).
    by rewrite nibs_eq_decide.
Qed.

(** ** Common prefixes *)
Fixpoint lcp (l k : list Z) : list Z :=
  match l, k with
  | a :: l, b :: k => if a =? b then a :: lcp l k else []
  | _, _ => []
  end.

Lemma lcp_prefix_l l k : lcp l k `prefix_of` l.
Proof.
  revert k. induction l as [|a l IH]; intros [|b k]; cbn; try apply prefix_nil.
  destruct (a =? b); [by apply prefix_cons, IH|apply prefix_nil].
Qed.
Lemma lcp_comm l k : lcp l k = lcp k l.
Proof.
  revert k. induction l as [|a l IH]; intros [|b k]; cbn; try done. rewrite (Z.eqb_sym b a).
  destruct (a =? b) eqn:E; bool_prop; [|done]. by rewrite IH, E.
Qed.
Lemma lcp_prefix_r l k : lcp l k `prefix_of` k.
Proof. rewrite lcp_comm. apply lcp_prefix_l. Qed.
Lemma lcp_app p l k : lcp (p ++ l) (p ++ k) = p ++ lcp l k.
Proof. induction p as [|a p IH]; cbn; [done|]. by rewrite Z.eqb_refl, IH. Qed.
(** After the common prefix the lists differ or one of them has ended. *)
Lemma lcp_max l k a b l' k' : l = lcp l k ++ a :: l' → k = lcp l k ++ b :: k' → a ≠ b.
Proof.
  intros Hl Hk. assert (lcp l k = lcp l k ++ lcp (a :: l') (b :: k')) as He
    by (rewrite <-lcp_app; congruence).
  intros ->. cbn in He. rewrite Z.eqb_refl in He. apply (f_equal length) in He.
  rewrite length_app in He. cbn in He. lia.
Qed.

Lemma count_bytes_spec l : ∀ k,
  bytes_ok l → bytes_ok k →
  (NibbleSlice.count_bytes l k).1 = zlen (lcp (nibs l) (nibs k)) ∧
  if (NibbleSlice.count_bytes l k).2 then (∃ r, l = k ++ r) ∨ (∃ r, k = l ++ r)
  else ¬ nibs k `prefix_of` nibs l.
Proof.
  induction l as [|a l IH]; intros [|b k] Hl Hk; cbn; [naive_solver..|].
  inversion_clear Hl. inversion_clear Hk. destruct (IH k) as [IH1 IH2]; [done..|].
  rewrite halves_eqb, land_high_eqb by done.
  destruct (high a =? high b) eqn:Eh; bool_prop; cbn.
  - destruct (low a =? low b) eqn:El; bool_prop; cbn.
    + destruct (NibbleSlice.count_bytes l k) as [n []]; cbn in *.
      * assert (a = b) as -> by (rewrite <-(byte_halves a), <-(byte_halves b); congruence).
        split; [rewrite !zlen_cons; lia|]. naive_solver.
      * split; [rewrite !zlen_cons; lia|]. rewrite Eh, El. intros ?%prefix_cons_inv_2%prefix_cons_inv_2. done.
    + split; [done|]. rewrite Eh. intros Hp%prefix_cons_inv_2%prefix_cons_inv_1. congruence.
  - split; [done|]. intros Hp%prefix_cons_inv_1. congruence.
Qed.

Lemma lcp_nil_r l : lcp l [] = [].
Proof. by destruct l. Qed.
Lemma lcp_self_l l k : lcp l (l ++ k) = l.
Proof. rewrite <-(app_nil_r l) at 1. by rewrite lcp_app, app_nil_r. Qed.
Lemma lcp_self_r l k : lcp (l ++ k) l = l.
Proof. by rewrite lcp_comm, lcp_self_l. Qed.
Lemma lcp_not_prefix l : ∀ k1 k2, ¬ k1 `prefix_of` l → lcp l (k1 ++ k2) = lcp l k1.
Proof.
  induction l as [|a l IH]; intros [|b k1] k2 Hp; try (by destruct Hp; apply prefix_nil); cbn; [done|].
  destruct (a =? b) eqn:E; bool_prop; [|done]. f_equal. apply IH. intros ?. apply Hp. subst.
  by apply prefix_cons.
Qed.
Lemma lcp_shorter l k1 k2 : l `prefix_of` k1 → lcp l (k1 ++ k2) = lcp l k1.
Proof.
  intros [r ->]. by rewrite <-app_assoc, !lcp_self_l.
Qed.

Lemma slice_bytes_from s n : wf_slice s → bytes_ok (zdrop n (NibbleSlice.data s)).
Proof. intros [Hb _]. unfold zdrop. by apply Forall_drop. Qed.

Lemma count_prefix_slice_spec s other :
  wf_slice s → wf_slice (NibbleSlice.mk other (NibbleSlice.offset s)) →
  NibbleSlice.count_prefix_slice s (NibbleSlice.mk other (NibbleSlice.offset s)) =
  Ok (zlen (lcp (rest s) (rest (NibbleSlice.mk other (NibbleSlice.offset s))))).
Proof.
  intros Hs Ho. unfold NibbleSlice.count_prefix_slice. fold (odd (NibbleSlice.offset s)).
  pose proof Hs as [_ Hso]. pose proof Ho as [_ Hoo]. cbn [NibbleSlice.offset NibbleSlice.data] in *.
  rewrite Z.eqb_refl. cbn [negb].
  destruct (odd (NibbleSlice.offset s)) eqn:Hodd.
  - destruct (odd_spec (NibbleSlice.offset s)) as [[_ He]|[? _]]; [|congruence].
    destruct (rest_odd s Hs Hodd) as (a & d & Hd & -> & Hd1).
    destruct (rest_odd _ Ho Hodd) as (b & d' & Hd' & -> & Hd1'). cbn in Hd', Hd1'.
    assert (∀ l x (r : list Z), zdrop (NibbleSlice.offset s / 2) l = x :: r →
      l !! Z.to_nat (NibbleSlice.offset s / 2) = Some x) as Hx.
    { intros l x r Hr. unfold zdrop in Hr. rewrite <-(Nat.add_0_r (Z.to_nat _)), <-lookup_drop. by rewrite Hr. }
    rewrite (index_ok (NibbleSlice.data s) _ a), (index_ok other _ b), !bind_Ok_l by (eauto || lia).
    rewrite !slice_from_ok, !bind_Ok_l by divlia. rewrite Hd1, Hd1'.
    change (Z.land b 15) with (low b). change (Z.land a 15) with (low a). cbn [lcp].
    destruct (low a =? low b) eqn:E; bool_prop; [|done].
    rewrite (proj1 (count_bytes_spec d d' ltac:(rewrite <-Hd1; by apply slice_bytes_from)
      ltac:(rewrite <-Hd1'; by apply (slice_bytes_from _ _ Ho)))). rewrite zlen_cons. done.
  - destruct (rest_even s Hs Hodd) as [-> Hh]. destruct (rest_even _ Ho Hodd) as [-> _]. cbn.
    rewrite Hh, !slice_from_ok, !bind_Ok_l by divlia.
    by rewrite (proj1 (count_bytes_spec _ _ (slice_bytes_from _ _ Hs) (slice_bytes_from _ _ Ho))).
Qed.

Lemma count_prefix_tail_spec `{Profile} s v n F M Q :
  wf_slice s → odd (NibbleSlice.offset s) = false →
  NibbleVec.data v = F ++ M ++ Q → bytes_ok (NibbleVec.data v) →
  length F = (if NibbleVec.first_is_half v then 1 else 0)%nat →
  length Q = (if NibbleVec.last_is_half v then 1 else 0)%nat →
  zlen (NibbleVec.data v) < 2 ^ 64 →
  NibbleSlice.count_prefix_tail s v n = Ok (n + zlen (lcp (rest s) (nibs M ++ map high Q))).
Proof.
  intros Hs Hodd Hd Hb HF HQ Hz. pose proof Hs as [_ Ho]. destruct (rest_even s Hs Hodd) as [Hr Hh].
  unfold NibbleSlice.count_prefix_tail. rewrite Hh, slice_from_ok, bind_Ok_l by divlia.
  assert (zlen F = Z.b2z (NibbleVec.first_is_half v)) as HzF by (unfold zlen; rewrite HF; by destruct NibbleVec.first_is_half).
  assert (zlen Q = Z.b2z (NibbleVec.last_is_half v)) as HzQ by (unfold zlen; rewrite HQ; by destruct NibbleVec.last_is_half).
  pose proof (zlen_nonneg F). pose proof (zlen_nonneg M). pose proof (zlen_nonneg Q).
  rewrite Hd, !zlen_app in *. rewrite usub_ok, bind_Ok_l by lia.
  rewrite slice_ok, bind_Ok_l by (rewrite ?zlen_app; lia). rewrite <-HzF, zdrop_app_exact by done.
  rewrite ztake_app_exact by lia. set (d := zdrop _ _) in *. rewrite !Forall_app in Hb.
  destruct (count_bytes_spec d M) as [Hn He]; [by apply slice_bytes_from|tauto|].
  destruct (NibbleSlice.count_bytes d M) as [c e]. cbn in Hn, He. rewrite Hr. subst c.
  assert (wf_slice (NibbleSlice.offset_add s (zlen (lcp (nibs d) (nibs M))))) as Hwf.
  { apply wf_offset_add; [done|]. rewrite Hr. destruct (lcp_prefix_l (nibs d) (nibs M)) as [k Hk].
    apply (f_equal zlen) in Hk. rewrite zlen_app in Hk. pose proof (zlen_nonneg (lcp (nibs d) (nibs M))).
    pose proof (zlen_nonneg k). lia. }
  rewrite next_spec, offset_add_rest, Hr by (done || lia || apply zlen_nonneg).
  destruct e; cbn [andb]; [|by rewrite lcp_not_prefix].
  destruct (NibbleVec.last_is_half v), Q as [|q [|]]; try done; cbn [map andb].
  2: { by rewrite app_nil_r. }
  rewrite !last_app. cbn [last fmap option_fmap option_map].
  destruct He as [[r He]|[r He]]; rewrite He, nibs_app.
  - rewrite lcp_self_r, lcp_app, zdrop_app_exact by done.
    destruct (nibs r) as [|x r']; cbn.
    + by rewrite app_nil_r.
    + destruct (x =? high q) eqn:E; bool_prop;
        [rewrite bool_decide_true by congruence|rewrite bool_decide_false by congruence];
        f_equal; rewrite ?lcp_nil_r, ?zlen_app; zlen_simpl; lia.
  - rewrite <-app_assoc, !lcp_self_l. unfold zdrop, zlen. by rewrite Nat2Z.id, drop_ge.
Qed.

Lemma count_prefix_vec_spec `{Profile} s v :
  wf_slice s → wf_vec v → NibbleVec.first_is_half v = odd (NibbleSlice.offset s) →
  zlen (NibbleVec.data v) < 2 ^ 64 →
  NibbleSlice.count_prefix_vec s v = Ok (zlen (lcp (rest s) (nibbles v))).
Proof.
  intros Hs Hv Hodd Hz. destruct (vec_split v Hv) as (F & M & Q & Hd & HF & HQ & ->).
  unfold NibbleSlice.count_prefix_vec. destruct (NibbleVec.data v) as [|o k] eqn:Hdata.
  { destruct Hv as [_ Hp]. unfold vec_len in Hp. rewrite Hdata in Hp.
    by destruct (NibbleVec.first_is_half v), (NibbleVec.last_is_half v). }
  rewrite Hodd in *. fold (odd (NibbleSlice.offset s)). rewrite bool_decide_true by done. cbn [negb].
  rewrite <-Hdata in Hd, Hz.
  destruct (odd (NibbleSlice.offset s)) eqn:Ho.
  - destruct F as [|f [|]]; try done. rewrite Hdata in Hd. cbn in Hd. injection Hd as <- Hk. cbn [map app].
    destruct (rest_odd s Hs Ho) as (a & d & _ & Hr & _). rewrite next_spec, Hr by done. cbn [lcp].
    destruct (low a =? low o) eqn:E; [|done].
    assert (wf_slice (NibbleSlice.offset_add s 1)) as Hs1.
    { apply wf_offset_add; [done|]. rewrite Hr. zlen_simpl. pose proof (zlen_nonneg (nibs d)). lia. }
    rewrite (count_prefix_tail_spec _ _ _ [o] M Q); [|done|..]; cbn [NibbleSlice.offset_add NibbleSlice.offset];
      rewrite ?odd_add, ?Ho, ?Hodd; [|done|by rewrite Hdata, Hk|apply Hv|done|done|done].
    rewrite offset_add_rest, Hr by (apply Hs || lia). rewrite zlen_cons. done.
  - destruct F; [|done]. cbn [map app]. rewrite (count_prefix_tail_spec _ _ _ [] M Q); try done; [apply Hv|].
    by rewrite Hodd.
Qed.

(** ** Building runs *)
Lemma zdrop_ztake {A} a b (l : list A) : 0 <= a <= b → zdrop a (ztake b l) = ztake (b - a) (zdrop a l).
Proof. intros. unfold zdrop, ztake. rewrite skipn_firstn_comm. f_equal. lia. Qed.
Lemma ztake_ztake {A} a b (l : list A) : 0 <= a <= b → ztake a (ztake b l) = ztake a l.
Proof. intros. unfold ztake. rewrite take_take. f_equal. lia. Qed.
Lemma bytes_ztake n l : bytes_ok l → bytes_ok (ztake n l).
Proof. apply Forall_take. Qed.
Lemma bytes_zdrop n l : bytes_ok l → bytes_ok (zdrop n l).
Proof. apply Forall_drop. Qed.
Lemma b2z_range b : 0 <= Z.b2z b <= 1.
Proof. by destruct b. Qed.
#[local] Hint Resolve bytes_ztake bytes_zdrop : core.

Lemma half_up n : 2 * ((n + 1) / 2) = n + Z.b2z (odd n).
Proof. rewrite b2z_odd. divlia. Qed.
Lemma half_down n : 2 * (n / 2) = n - Z.b2z (odd n).
Proof. rewrite b2z_odd. divlia. Qed.

Lemma split_to_vec_spec s n :
  wf_slice s → 0 < n <= zlen (rest s) →
  ∃ v, NibbleSlice.split_to_vec s n = Ok v ∧ wf_vec v ∧ nibbles v = ztake n (rest s) ∧
    NibbleVec.first_is_half v = odd (NibbleSlice.offset s) ∧ vec_len v = n.
Proof.
  intros Hs Hn. rewrite zlen_rest in Hn by done. pose proof Hs as [Hb Ho].
  unfold NibbleSlice.split_to_vec. fold (odd (NibbleSlice.offset s)) (odd (NibbleSlice.offset s + n)).
  set (o := NibbleSlice.offset s) in *. pose proof (half_up (o + n)). pose proof (half_down o).
  pose proof (b2z_range (odd o)). pose proof (b2z_range (odd (o + n))).
  rewrite slice_ok, bind_Ok_l by lia. set (m := (o + n + 1) / 2 - o / 2).
  assert (0 <= m <= zlen (NibbleSlice.data s) - o / 2) by lia.
  assert (zlen (ztake m (zdrop (o / 2) (NibbleSlice.data s))) = m) as Hm
    by (rewrite zlen_ztake; rewrite ?zlen_zdrop; lia).
  eexists. split; [reflexivity|]. unfold nibbles, vec_len. cbn. rewrite Hm.
  split_and!; [split; [by apply bytes_ztake, bytes_zdrop|]| | |].
  - unfold vec_len. cbn. rewrite Hm. lia.
  - pose proof (rest_window s (odd (o + n)) m Hs) as Hw. cbv zeta in Hw. fold o in Hw.
    rewrite Hw by lia. f_equal. lia.
  - done.
  - lia.
Qed.

Lemma normalize_wf v : wf_vec v → NibbleVec.normalize v = v.
Proof.
  intros [_ Hp]. unfold vec_len in Hp. destruct v as [[|a [|b d]] f l]; cbn in *; [|by destruct f, l..].
  by destruct f, l.
Qed.
Lemma normalize_empty v : vec_len v = 0 → NibbleVec.normalize v = empty_vec.
Proof.
  unfold vec_len. destruct v as [[|a [|b d]] f l]; cbn; intros Hv; [done|by destruct f, l|].
  rewrite !zlen_cons in Hv. pose proof (zlen_nonneg d). destruct f, l; cbn in Hv; lia.
Qed.

(** A run that may have become empty: [parity] is the half it starts at. *)
Definition part (v : NibbleVec.t) (parity : bool) (p : list Z) : Prop :=
  if decide (p = []) then v = empty_vec
  else wf_vec v ∧ nibbles v = p ∧ NibbleVec.first_is_half v = parity.

Lemma part_normalize d f l :
  bytes_ok d → 0 <= 2 * zlen d - Z.b2z f - Z.b2z l →
  part (NibbleVec.normalize (NibbleVec.mk d f l)) f (window f l d).
Proof.
  intros Hb Hp. unfold part. pose proof (zlen_window f l d Hp) as Hl.
  destruct (decide (window f l d = [])) as [He|He].
  - apply normalize_empty. unfold vec_len. cbn. rewrite He in Hl. zlen_simpl. lia.
  - assert (wf_vec (NibbleVec.mk d f l)) as Hw.
    { split; [done|]. unfold vec_len. cbn. rewrite <-Hl.
      destruct (window f l d) as [|x k]; [done|]. zlen_simpl. pose proof (zlen_nonneg k). lia. }
    rewrite normalize_wf by done. done.
Qed.

Lemma split_extract_at_spec v i :
  wf_vec v → 0 <= i < vec_len v →
  ∃ left x right, NibbleVec.split_extract_at v i = Ok (left, x, right) ∧
    nibbles v = ztake i (nibbles v) ++ x :: zdrop (i + 1) (nibbles v) ∧
    part left (NibbleVec.first_is_half v) (ztake i (nibbles v)) ∧
    part right (xorb (NibbleVec.first_is_half v) (negb (odd i))) (zdrop (i + 1) (nibbles v)).
Proof.
  intros Hv Hi. pose proof Hv as [Hb Hp]. pose proof (zlen_nibbles v Hv) as Hl. unfold vec_len in *.
  unfold NibbleVec.split_extract_at. cbv zeta.
  set (d := NibbleVec.data v) in *. set (f := NibbleVec.first_is_half v) in *.
  set (l := NibbleVec.last_is_half v) in *.
  fold (odd (i + Z.b2z f)). pose proof (b2z_range f). pose proof (b2z_range l).
  replace (i + 1 + Z.b2z f) with (i + Z.b2z f + 1) by lia.
  pose proof (half_up (i + Z.b2z f)). pose proof (half_down (i + Z.b2z f)).
  pose proof (b2z_range (odd (i + Z.b2z f))). set (n := (i + Z.b2z f + 1) / 2) in *.
  rewrite slice_to_ok, bind_Ok_l by lia.
  assert ((i + Z.b2z f + Z.b2z l) / 2 < zlen d) by (pose proof (half_down (i + Z.b2z f + Z.b2z l));
    pose proof (b2z_range (odd (i + Z.b2z f + Z.b2z l))); lia).
  decide_bools.
  destruct (nibbles v !! Z.to_nat i) as [x|] eqn:Hx.
  2: { apply lookup_ge_None in Hx. unfold zlen in *. lia. }
  assert (nibs d !! Z.to_nat (i + Z.b2z f) = Some x) as Hx'.
  { unfold nibbles, window in Hx. fold d f l in Hx. rewrite lookup_ztake, lookup_zdrop in Hx by lia.
    by rewrite <-Z2Nat.inj_add, Z.add_comm in Hx by lia. }
  rewrite nibs_lookup_byte in Hx'. rewrite Z2Nat.id in Hx' by lia.
  replace (Z.to_nat (i + Z.b2z f) / 2)%nat with (Z.to_nat ((i + Z.b2z f) / 2)) in Hx'
    by (rewrite Z2Nat.inj_div by lia; done).
  destruct (d !! Z.to_nat ((i + Z.b2z f) / 2)) as [b|] eqn:Hbyte; [|done]. cbn in Hx'. injection Hx' as Hx'.
  rewrite (index_ok d _ b), bind_Ok_l by (done || lia).
  assert ((if zlen d <=? n then Ok [] else slice_from d n) = Ok (E:=never) (zdrop n d)) as ->.
  { destruct (zlen d <=? n) eqn:E; bool_prop; [|apply slice_from_ok; lia].
    unfold zdrop. rewrite drop_ge; [done|]. unfold zlen in *. lia. }
  rewrite bind_Ok_l. eexists _, _, _. split; [reflexivity|].
  rewrite Hx'. split_and!.
  - unfold ztake, zdrop. rewrite Z2Nat.inj_add, Nat.add_1_r by lia. symmetry. by apply take_drop_middle.
  - pose proof (part_normalize (ztake n d) f (odd (i + Z.b2z f)) ltac:(auto)) as Hpart.
    rewrite zlen_ztake in Hpart by lia. specialize (Hpart ltac:(lia)).
    rewrite window_take in Hpart by lia.
    replace (ztake i (nibbles v)) with (ztake (2 * n - Z.b2z f - Z.b2z (odd (i + Z.b2z f))) (zdrop (Z.b2z f) (nibs d)));
      [done|]. unfold nibbles, window. fold d f l. rewrite ztake_ztake by lia. f_equal. lia.
  - fold (odd (i + Z.b2z f)).
    assert (((i + Z.b2z f) mod 2 =? 0) = negb (odd (i + Z.b2z f))) as -> by (unfold odd; by rewrite negb_involutive).
    assert (Z.b2z (negb (odd (i + Z.b2z f))) = 1 - Z.b2z (odd (i + Z.b2z f))) by (by destruct odd).
    pose proof (part_normalize (zdrop n d) (negb (odd (i + Z.b2z f))) l ltac:(auto)) as Hpart.
    rewrite zlen_zdrop in Hpart by lia. specialize (Hpart ltac:(lia)).
    replace (zdrop (i + 1) (nibbles v)) with (window (negb (odd (i + Z.b2z f))) l (zdrop n d)).
    + replace (xorb f (negb (odd i))) with (negb (odd (i + Z.b2z f))); [done|].
      rewrite odd_add. by destruct (odd i), f.
    + unfold nibbles, window. fold d f l. rewrite zdrop_ztake by lia. rewrite zdrop_zdrop by lia.
      rewrite <-zdrop_nibs, zdrop_zdrop by lia. rewrite zlen_zdrop by lia. f_equal; [lia|f_equal; lia].
Qed.

Lemma nibble_byte x : is_nibble x → is_byte x.
Proof. unfold is_nibble, is_byte. lia. Qed.
Lemma low_id x : is_nibble x → low x = x.
Proof. rewrite low_mod. unfold is_nibble. intros. by apply Z.mod_small. Qed.

Lemma from_single_spec x right :
  is_nibble x →
  wf_vec (NibbleVec.from_single x right) ∧ nibbles (NibbleVec.from_single x right) = [x] ∧
  NibbleVec.first_is_half (NibbleVec.from_single x right) = right.
Proof.
  intros Hx. unfold NibbleVec.from_single. split_and!; [split|..]; destruct right; cbn; try done.
  - constructor; [by apply nibble_byte|done].
  - constructor; [|done]. rewrite shiftl_high. unfold is_nibble, is_byte in *. lia.
  - unfold nibbles, window. cbn. by rewrite low_id.
  - unfold nibbles, window. cbn. rewrite shiftl_high, <-(Z.add_0_r (16 * x)). by rewrite high_of.
Qed.

Lemma prepend_spec v x :
  wf_vec v → is_nibble x →
  ∃ w, NibbleVec.prepend v x = Ok w ∧ wf_vec w ∧ nibbles w = x :: nibbles v ∧
    NibbleVec.first_is_half w = negb (NibbleVec.first_is_half v).
Proof.
  intros Hv Hx. destruct (vec_split v Hv) as (F & M & Q & Hd & HF & HQ & Hn). pose proof Hv as [Hb Hp].
  unfold NibbleVec.prepend, vec_len in *.
  destruct (NibbleVec.first_is_half v) eqn:Hf.
  - destruct F as [|a [|]]; try done. rewrite Hd in *. cbn [app] in *. rewrite index_head, bind_Ok_l.
    change (Z.land a 15) with (low a). rewrite lor_halves by (done || apply low_nibble).
    eexists. split; [reflexivity|]. inversion_clear Hb. cbn [negb insert list_insert].
    split_and!; [split|..]; cbn -[Z.mul].
    + constructor; [|done]. apply is_byte_of; [done|apply low_nibble].
    + unfold vec_len. cbn -[Z.mul]. rewrite zlen_cons in *. cbn in Hp. lia.
    + rewrite Hn. unfold nibbles. cbn -[Z.mul window].
      rewrite (window_split false _ [] (16 * x + low a :: M) Q) by done. cbn -[Z.mul].
      rewrite high_of, low_of by apply low_nibble.
      done.
    + done.
  - destruct F; [|done]. eexists. split; [reflexivity|]. cbn [negb].
    split_and!; [split|..]; cbn -[Z.mul].
    + constructor; [by apply nibble_byte|done].
    + unfold vec_len. cbn -[Z.mul]. rewrite zlen_cons. cbn in Hp. lia.
    + rewrite Hn. unfold nibbles. cbn -[Z.mul window]. rewrite Hd. cbn [app].
      rewrite (window_split true _ [x] M Q) by done. cbn. rewrite low_id by done. done.
    + done.
Qed.

Lemma lor_low h a : is_byte h → Z.lor (Z.land h 0xF0) (Z.land a 0x0F) = 16 * high h + low a.
Proof.
  intros Hh. rewrite land_high by done. change (Z.land a 15) with (low a).
  rewrite Z.lor_comm, <-(lor_halves (high h)), shiftl_high; [done|by apply high_nibble|apply low_nibble].
Qed.

Lemma extend_spec v w :
  wf_vec v → wf_vec w → NibbleVec.last_is_half v = NibbleVec.first_is_half w →
  ∃ u, NibbleVec.extend v w = Ok u ∧ wf_vec u ∧ nibbles u = nibbles v ++ nibbles w ∧
    NibbleVec.first_is_half u = NibbleVec.first_is_half v.
Proof.
  intros Hv Hw Hvw. destruct (vec_split v Hv) as (F & M & Q & Hd & HF & HQ & ->).
  destruct (vec_split w Hw) as (F' & M' & Q' & Hd' & HF' & HQ' & ->).
  destruct Hv as [Hb Hp], Hw as [Hb' Hp']. unfold NibbleVec.extend, vec_len in *.
  rewrite Hvw in *. rewrite bool_decide_true by done. cbn [negb].
  destruct (NibbleVec.first_is_half w).
  - destruct Q as [|q [|]], F' as [|a [|]]; try done. rewrite Hd, Hd' in *.
    rewrite !Forall_app, ?Forall_singleton in *. destruct_and!.
    change ([a] ++ M' ++ Q') with (a :: M' ++ Q').
    rewrite last_app, last_app. cbn [last unwrap]. rewrite bind_Ok_l, index_head, !bind_Ok_l, slice_from_cons, bind_Ok_l.
    rewrite lor_low by done. eexists. split; [reflexivity|].
    replace (<[pred (length (F ++ M ++ [q])) := 16 * high q + low a]> (F ++ M ++ [q]))
      with (F ++ M ++ [16 * high q + low a]).
    2: { rewrite !length_app. cbn [length]. rewrite insert_app_r_alt by lia. f_equal.
      rewrite insert_app_r_alt by lia. replace (pred _ - length F - length M)%nat with 0%nat by lia. done. }
    set (x := 16 * high q + low a) in *.
    assert (is_byte x) by (apply is_byte_of; [by apply high_nibble|apply low_nibble]).
    split_and!; [split|..]; cbn -[Z.mul].
    + rewrite !Forall_app, Forall_singleton. tauto.
    + unfold vec_len. cbn -[Z.mul]. rewrite !zlen_app in *. zlen_simpl. cbn in *.
      pose proof (b2z_range (NibbleVec.first_is_half v)). pose proof (b2z_range (NibbleVec.last_is_half w)). lia.
    + unfold nibbles. cbn -[Z.mul window]. rewrite <-!app_assoc.
      replace (F ++ M ++ [x] ++ M' ++ Q') with (F ++ (M ++ [x] ++ M') ++ Q') by (by rewrite <-!app_assoc).
      rewrite window_split by done. rewrite !nibs_app, <-!app_assoc. cbn -[Z.mul].
      unfold x. rewrite high_of, low_of by apply low_nibble. done.
    + done.
  - destruct Q, F'; try done. cbn [app map] in *. rewrite app_nil_r in *. rewrite Hd, Hd' in *.
    rewrite !bind_Ok_l. eexists. split; [reflexivity|]. rewrite !Forall_app in *.
    split_and!; [split|..]; cbn -[Z.mul].
    + rewrite !Forall_app. tauto.
    + unfold vec_len. cbn -[Z.mul]. rewrite !zlen_app in *. cbn in *.
      pose proof (b2z_range (NibbleVec.first_is_half v)). pose proof (b2z_range (NibbleVec.last_is_half w)). lia.
    + unfold nibbles. cbn -[Z.mul window].
      replace ((F ++ M) ++ M' ++ Q') with (F ++ (M ++ M') ++ Q') by (by rewrite <-!app_assoc).
      rewrite window_split by done. rewrite !nibs_app, <-!app_assoc. done.
    + done.
Qed.

(** ** Iteration *)
Lemma iter_at_spec v pos :
  0 <= pos →
  NibbleVec.iter_at v pos =
  ztake (2 * zlen (NibbleVec.data v) - Z.b2z (NibbleVec.last_is_half v)) (nibs (NibbleVec.data v))
    !! Z.to_nat pos.
Proof.
  intros Hp. unfold NibbleVec.iter_at, ztake. set (d := NibbleVec.data v).
  pose proof (nibs_lookup_byte d (Z.to_nat pos)) as Hl. rewrite Z2Nat.id in Hl by lia.
  replace (Z.to_nat pos / 2)%nat with (Z.to_nat (pos / 2)) in Hl by (rewrite Z2Nat.inj_div by lia; done).
  pose proof (half_down pos) as Hh. pose proof (b2z_odd pos) as Hodd. pose proof (b2z_range (odd pos)).
  fold (odd pos).
  assert ((pos mod 2 =? 1) = odd pos) as -> by (rewrite <-Hodd; by destruct (odd pos)).
  destruct (d !! Z.to_nat (pos / 2)) as [b|] eqn:Hd; cbn in Hl.
  - apply lookup_lt_Some in Hd. destruct ((pos / 2 + 1 =? zlen d) && odd pos && NibbleVec.last_is_half v) eqn:E.
    + bool_prop. destruct_and!. symmetry. apply lookup_ge_None.
      destruct (NibbleVec.last_is_half v), (odd pos); try done. rewrite length_take. cbn in *. bool_prop. lia.
    + rewrite lookup_take_lt; [done|]. unfold zlen in *.
      destruct (pos / 2 + 1 =? Z.of_nat (length d)) eqn:E1, (odd pos), (NibbleVec.last_is_half v);
        bool_prop; cbn in *; done || lia.
  - symmetry. apply lookup_ge_None. rewrite length_take. apply lookup_ge_None in Hl. lia.
Qed.
Lemma iter_from_spec v n pos :
  0 <= pos →
  NibbleVec.iter_from v n pos =
  take n (drop (Z.to_nat pos)
    (ztake (2 * zlen (NibbleVec.data v) - Z.b2z (NibbleVec.last_is_half v)) (nibs (NibbleVec.data v)))).
Proof.
  set (l := ztake _ _). assert (∀ pos, 0 <= pos → NibbleVec.iter_at v pos = l !! Z.to_nat pos) as Hat
    by (intros; by apply iter_at_spec).
  revert pos. induction n as [|n IH]; intros pos Hp; [done|]. cbn [NibbleVec.iter_from].
  rewrite Hat by done. destruct (l !! Z.to_nat pos) as [x|] eqn:Hx.
  - rewrite IH, Z2Nat.inj_add, Nat.add_1_r by lia. by rewrite (drop_S _ _ _ Hx).
  - apply lookup_ge_None in Hx. by rewrite drop_ge.
Qed.
Lemma iter_spec v : wf_vec v → NibbleVec.iter v = nibbles v.
Proof.
  intros Hv. pose proof Hv as [_ Hp]. unfold NibbleVec.iter, nibbles, window, vec_len in *.
  pose proof (b2z_range (NibbleVec.first_is_half v)). pose proof (b2z_range (NibbleVec.last_is_half v)).
  rewrite iter_from_spec by lia. fold (zdrop (Z.b2z (NibbleVec.first_is_half v))
    (ztake (2 * zlen (NibbleVec.data v) - Z.b2z (NibbleVec.last_is_half v)) (nibs (NibbleVec.data v)))).
  rewrite zdrop_ztake by lia. rewrite take_ge; [f_equal; lia|].
  unfold ztake. rewrite length_take. unfold zlen in *. lia.
Qed.

(** ** Theorems *)
Lemma part_iter v parity p : part v parity p → NibbleVec.iter v = p ∧ (NibbleVec.is_empty v = true ↔ p = []).
Proof.
  unfold part. destruct (decide (p = [])) as [->|Hp]; [by intros ->|]. intros (Hv & <- & _).
  split; [by apply iter_spec|]. split; [|done]. pose proof Hv as [_ Hl]. unfold NibbleVec.is_empty, vec_len in *.
  destruct v as [[|d l] f h]; [|done]. cbn in Hl. by destruct f, h.
Qed.

(** Whatever half of a byte a run of half-bytes starts and ends at, splitting it at
    one of its half-bytes gives those before it, the half-byte and those after it (an
    empty part is empty to [is_empty]), prepending adds one in front, and extending by a
    run that starts where the first one ends appends it. *)
Theorem run_operations (v w : NibbleVec.t) (i x : Z) :
  wf_vec v → wf_vec w → is_nibble x → 0 <= i < zlen (NibbleVec.iter v) →
  (∃ left y right, NibbleVec.split_extract_at v i = Ok (left, y, right) ∧
    NibbleVec.iter v = NibbleVec.iter left ++ y :: NibbleVec.iter right ∧ zlen (NibbleVec.iter left) = i ∧
    (NibbleVec.is_empty left = true ↔ NibbleVec.iter left = []) ∧
    (NibbleVec.is_empty right = true ↔ NibbleVec.iter right = [])) ∧
  (∃ u, NibbleVec.prepend v x = Ok u ∧ NibbleVec.iter u = x :: NibbleVec.iter v) ∧
  (NibbleVec.last_is_half v = NibbleVec.first_is_half w →
   ∃ u, NibbleVec.extend v w = Ok u ∧ NibbleVec.iter u = NibbleVec.iter v ++ NibbleVec.iter w).
Proof.
  intros Hv Hw Hx Hi. rewrite iter_spec, zlen_nibbles in Hi by done. split_and!.
  - destruct (split_extract_at_spec v i Hv Hi) as (left & y & right & He & Hn & [Hl Hle]%part_iter & [Hr Hre]%part_iter).
    exists left, y, right. rewrite Hl, Hr, iter_spec by done. split_and!; [done..| |tauto|tauto].
    rewrite zlen_ztake; [done|]. rewrite zlen_nibbles by done. lia.
  - destruct (prepend_spec v x Hv Hx) as (u & He & Hu & Hn & _). exists u. by rewrite !iter_spec.
  - intros Hvw. destruct (extend_spec v w Hv Hw Hvw) as (u & He & Hu & Hn & _). exists u. by rewrite !iter_spec.
Qed.
Lemma run_operations_witness :
  let v := NibbleVec.mk [0x01; 0x23; 0x40] true true in let w := NibbleVec.mk [0x05; 0x67] true false in
  (∃ u, NibbleVec.extend v w = Ok u ∧ NibbleVec.iter u = NibbleVec.iter v ++ NibbleVec.iter w) ∧
  NibbleVec.iter v = [1; 2; 3; 4] ∧ NibbleVec.iter w = [5; 6; 7].
Proof.
  split; [|done].
  destruct (run_operations (NibbleVec.mk [0x01; 0x23; 0x40] true true) (NibbleVec.mk [0x05; 0x67] true false) 1 9)
    as (_ & _ & Hext); [split; [|done]; apply (bool_decide_unpack _); vm_compute; exact I..|done|done|].
  apply Hext. reflexivity.
Defined.
