(* ===== verification/TrieNode.v ===== *)
(** * Nodes of the trie and their encodings

    Model of [crates/trie/node_hash.rs], [node.rs] and [rlp.rs] and of the [encode_raw]
    and [compute_hash] methods of the three kinds of nodes.  A node has two encodings:
    the one that is hashed, written by hand with [NodeEncoder], in which a leaf drops
    the part of its path above it; and the one stored in the database. *)

From S2P Require Import Prelude Rlp RlpLaws U256 Codec Effects Nibble.

(** ** node_hash.rs *)
Module NodeHash.
Inductive t :=
  | Hashed (h : list Z)
  | Inline (encoded : list Z).

#[global] Instance eq_dec : EqDecision t.
Proof. solve_decision. Defined.
#[global] Instance countable : Countable t.
Proof.
  refine (inj_countable' (λ h, match h with Hashed l => (true, l) | Inline l => (false, l) end)
    (λ '(b, l), if b : bool then Hashed l else Inline l) _). by intros [].
Defined.

Section Keccak.
Variable keccak256 : list Z → list Z.

Definition from_encoded_raw (encoded : list Z) : t :=
  if 32 <=? zlen encoded then Hashed (keccak256 encoded) else Inline encoded.
Definition finalize (self : t) : list Z :=
  match self with Inline x => keccak256 x | Hashed x => x end.
End Keccak.

Definition is_valid (self : t) : bool := match self with Inline [] => false | _ => true end.
Definition default : t := Inline [].
(** [From<Vec<u8>>] and [From<NodeHash> for Vec<u8>]. *)
Definition from_vec (value : list Z) : t := if zlen value =? 32 then Hashed value else Inline value.
Definition to_vec (self : t) : list Z := match self with Hashed x => x | Inline x => x end.

Definition encode (self : t) : list Z := vec_encode u8_encode (to_vec self).
Definition decode_unfinished `{Profile} (rlp : list Z) : dres (t * list Z) :=
  '(hash, rest) ← vec_decode u8_decode rlp; Ok (from_vec hash, rest).
End NodeHash.

Inductive PathKind := PathExtension | PathLeaf.
Definition into_flag (self : PathKind) : Z :=
  match self with PathExtension => 0x00 | PathLeaf => 0x20 end.

Definition compute_byte_usage (value : Z) : Z :=
  let bits_used := if value =? 0 then 0 else Z.log2 value + 1 in
  Z.max 0 (bits_used - 1) / 8 + 1.

(** [NodeEncoder]: the bytes written so far. *)
Module NodeEncoder.
Definition new : list Z := [].
Definition bytes_len (value_len first_value : Z) : Z :=
  if (value_len =? 1) && (first_value <? 128) then 1
  else if value_len <? 56 then value_len + 1
  else value_len + compute_byte_usage value_len + 1.
Definition path_len (value_len : Z) : Z := bytes_len (value_len / 2 + 1) 0.
Definition write_raw (value encoded : list Z) : list Z := encoded ++ value.
Definition write_len (short_base long_base value : Z) (encoded : list Z) : list Z :=
  if value <? 56 then write_raw [short_base + value] encoded
  else
    let l_len := compute_byte_usage value in
    encoded |> write_raw [long_base + l_len] |> write_raw (zdrop (8 - l_len) (to_be 8 value)).
Definition write_list_header (children_len : Z) : list Z → list Z := write_len 0xC0 0xF7 children_len.
Definition write_bytes (value encoded : list Z) : list Z :=
  match value with
  | [v] => if v <? 128 then write_raw [v] encoded
           else encoded |> write_len 0x80 0xB7 1 |> write_raw value
  | _ => encoded |> write_len 0x80 0xB7 (zlen value) |> write_raw value
  end.

(** [iter.step_by(2).zip(iter.skip(1).step_by(2))], packed into bytes. *)
Fixpoint write_pairs (nibbles : list Z) : list Z :=
  match nibbles with
  | a :: b :: nibbles => Z.lor (Z.shiftl a 4) b :: write_pairs nibbles
  | _ => []
  end.
(** [write_path_slice] and [write_path_vec], on the half-bytes that the iterator of
    the slice or of the vector yields. *)
Definition write_path (nibbles : list Z) (kind : PathKind) (encoded : list Z) : list Z :=
  let nibble_count := zlen nibbles in
  let '(flag, nibbles) :=
    match nibbles with
    | n :: rest => if nibble_count mod 2 =? 1 then (Z.lor (Z.lor (into_flag kind) 0x10) n, rest)
                   else (into_flag kind, nibbles)
    | [] => (into_flag kind, nibbles)
    end in
  let encoded := if 1 <? nibble_count then write_len 0x80 0xB7 (nibble_count / 2 + 1) encoded else encoded in
  encoded |> write_raw [flag] |> write_raw (write_pairs nibbles).
Definition write_path_slice (value : NibbleSlice.t) : PathKind → list Z → list Z :=
  write_path (NibbleSlice.collect value).
Definition write_path_vec (value : NibbleVec.t) : PathKind → list Z → list Z :=
  write_path (NibbleVec.iter value).
Definition finalize (encoded : list Z) : list Z := encoded.
End NodeEncoder.

(** ** node/leaf.rs, node/extension.rs, node/branch.rs: data and encodings *)
Module LeafNode.
Record t := mk { path : list Z; value : list Z }.
Definition new (path value : list Z) : t := mk path value.

Definition encode_raw `{Profile} (self : t) (offset : Z) : pres (list Z) :=
  let path := NibbleSlice.offset_add (NibbleSlice.new (path self)) offset in
  path_length ← NibbleSlice.len path;
  let path_len := NodeEncoder.path_len path_length in
  let value_len := NodeEncoder.bytes_len (zlen (value self)) (hd 0 (value self)) in
  Ok (NodeEncoder.new
      |> NodeEncoder.write_list_header (path_len + value_len)
      |> NodeEncoder.write_path_slice path PathLeaf
      |> NodeEncoder.write_bytes (value self)
      |> NodeEncoder.finalize).
Definition compute_hash `{Profile} (keccak256 : list Z → list Z) (self : t) (offset : Z) : pres NodeHash.t :=
  encoded ← encode_raw self offset; Ok (NodeHash.from_encoded_raw keccak256 encoded).

Definition encode (self : t) : list Z :=
  Encoder.new []
  |> Encoder.encode_field (vec_encode u8_encode) (path self)
  |> Encoder.encode_field (vec_encode u8_encode) (value self)
  |> Encoder.finish.
Definition decode_unfinished `{Profile} (rlp : list Z) : dres (t * list Z) :=
  decoder ← Decoder.new rlp;
  '(path, decoder) ← Decoder.decode_field (vec_decode u8_decode) "path" decoder;
  '(value, decoder) ← Decoder.decode_field (vec_decode u8_decode) "value" decoder;
  rest ← Decoder.finish decoder;
  Ok (mk path value, rest).
End LeafNode.

Module ExtensionNode.
Record t := mk { prefix : NibbleVec.t; child : NodeHash.t }.
Definition new (prefix : NibbleVec.t) (child : NodeHash.t) : t := mk prefix child.

(** [x[0]] of a 32-byte hash. *)
Definition encode_raw `{Profile} (self : t) : pres (list Z) :=
  n ← NibbleVec.len (prefix self);
  let prefix_len := NodeEncoder.path_len n in
  let child_len :=
    match child self with
    | NodeHash.Inline x => zlen x
    | NodeHash.Hashed x => NodeEncoder.bytes_len 32 (hd 0 x)
    end in
  Ok (NodeEncoder.new
      |> NodeEncoder.write_list_header (prefix_len + child_len)
      |> NodeEncoder.write_path_vec (prefix self) PathExtension
      |> match child self with
         | NodeHash.Inline x => NodeEncoder.write_raw x
         | NodeHash.Hashed x => NodeEncoder.write_bytes x
         end
      |> NodeEncoder.finalize).
Definition compute_hash `{Profile} (keccak256 : list Z → list Z) (self : t) : pres NodeHash.t :=
  encoded ← encode_raw self; Ok (NodeHash.from_encoded_raw keccak256 encoded).

Definition encode (self : t) : list Z :=
  Encoder.new []
  |> Encoder.encode_field NibbleVec.encode (prefix self)
  |> Encoder.encode_field NodeHash.encode (child self)
  |> Encoder.finish.
Definition decode_unfinished `{Profile} (rlp : list Z) : dres (t * list Z) :=
  decoder ← Decoder.new rlp;
  '(prefix, decoder) ← Decoder.decode_field NibbleVec.decode_unfinished "prefix" decoder;
  '(child, decoder) ← Decoder.decode_field NodeHash.decode_unfinished "child" decoder;
  rest ← Decoder.finish decoder;
  Ok (mk prefix child, rest).
End ExtensionNode.

Module BranchNode.
(** The array of the sixteen [choices] is a list. *)
Record t := mk { choices : list NodeHash.t; path : list Z; value : list Z }.
Definition EMPTY_CHOICES : list NodeHash.t := replicate 16 NodeHash.default.
Definition new (choices : list NodeHash.t) : t := mk choices [] [].
Definition new_with_value (choices : list NodeHash.t) (path value : list Z) : t := mk choices path value.
Definition update (self : t) (new_path new_value : list Z) : t := mk (choices self) new_path new_value.

(** The bytes of a choice and how many there are. *)
Definition hash_choice (node_hash : NodeHash.t) : list Z * Z :=
  if NodeHash.is_valid node_hash then
    match node_hash with
    | NodeHash.Hashed x => (x, 32)
    | NodeHash.Inline x => (x, zlen x)
    end
  else ([], 0).
Definition child_len (c : list Z * Z) : Z :=
  let '(x, len) := c in
  if len =? 0 then 1 else if len =? 32 then NodeEncoder.bytes_len 32 (hd 0 x) else len.
Definition write_child (c : list Z * Z) (encoded : list Z) : list Z :=
  let '(x, len) := c in
  if len =? 0 then NodeEncoder.write_bytes [] encoded
  else if len =? 32 then NodeEncoder.write_bytes x encoded
  else NodeEncoder.write_raw x encoded.
Definition encode_raw (self : t) : list Z :=
  let children := map hash_choice (choices self) in
  let children_len := foldr Z.add 0 (map child_len children) in
  let children_len :=
    match value self with
    | [] => children_len + 1
    | v :: _ => children_len + NodeEncoder.bytes_len (zlen (value self)) v
    end in
  let encoder := NodeEncoder.write_list_header children_len NodeEncoder.new in
  let encoder := foldl (λ e c, write_child c e) encoder children in
  encoder |> NodeEncoder.write_bytes (value self) |> NodeEncoder.finalize.
Definition compute_hash (keccak256 : list Z → list Z) (self : t) : NodeHash.t :=
  NodeHash.from_encoded_raw keccak256 (encode_raw self).

Definition encode (self : t) : list Z :=
  Encoder.new []
  |> Encoder.encode_field (vec_encode NodeHash.encode) (choices self)
  |> Encoder.encode_field (vec_encode u8_encode) (path self)
  |> Encoder.encode_field (vec_encode u8_encode) (value self)
  |> Encoder.finish.
Definition decode_unfinished `{Profile} (rlp : list Z) : dres (t * list Z) :=
  decoder ← Decoder.new rlp;
  '(choices, decoder) ← Decoder.decode_field (vec_decode NodeHash.decode_unfinished) "choices" decoder;
  choices ← (if zlen choices =? 16 then Ok choices
             else Err (Custom "Error decoding field 'choices' of type [H256;16]: Invalid Length"));
  '(path, decoder) ← Decoder.decode_field (vec_decode u8_decode) "path" decoder;
  '(value, decoder) ← Decoder.decode_field (vec_decode u8_decode) "value" decoder;
  rest ← Decoder.finish decoder;
  Ok (mk choices path value, rest).
End BranchNode.

(** ** node.rs, rlp.rs *)
Module Node.
Inductive t :=
  | Branch (n : BranchNode.t)
  | Extension (n : ExtensionNode.t)
  | Leaf (n : LeafNode.t).

Inductive NodeType := TypeBranch | TypeExtension | TypeLeaf.
Definition from_u8 (val : Z) : option NodeType :=
  if val =? 0 then Some TypeBranch else if val =? 1 then Some TypeExtension
  else if val =? 2 then Some TypeLeaf else None.

(** One byte for the kind of node, then the node. *)
Definition encode (self : t) : list Z :=
  match self with
  | Branch n => 0 :: BranchNode.encode n
  | Extension n => 1 :: ExtensionNode.encode n
  | Leaf n => 2 :: LeafNode.encode n
  end.
Definition decode_unfinished `{Profile} (rlp : list Z) : dres (t * list Z) :=
  node_type ← ok_or InvalidLength (head rlp);
  node_type ← ok_or MalformedData (from_u8 node_type);
  rlp ← slice_from rlp 1;
  match node_type with
  | TypeBranch => '(node, rem) ← BranchNode.decode_unfinished rlp; Ok (Branch node, rem)
  | TypeExtension => '(node, rem) ← ExtensionNode.decode_unfinished rlp; Ok (Extension node, rem)
  | TypeLeaf => '(node, rem) ← LeafNode.decode_unfinished rlp; Ok (Leaf node, rem)
  end.
End Node.
