(* ===== verification/TrieCodec.v ===== *)
(** * Nodes survive the database

    The encodings of nodes that are stored in the database decode to the same nodes. *)

From S2P Require Import Prelude Rlp RlpLaws U256 Codec Nibble TrieNode.

Definition wf_nibble_vec (v : NibbleVec.t) : Prop := Forall (is_uint 8) (NibbleVec.data v).
(** A string of 32 bytes is a hash. *)
Definition wf_node_hash (h : NodeHash.t) : Prop :=
  Forall (is_uint 8) (NodeHash.to_vec h) ∧
  match h with NodeHash.Hashed x => zlen x = 32 | NodeHash.Inline x => zlen x ≠ 32 end.
Definition wf_leaf (n : LeafNode.t) : Prop :=
  Forall (is_uint 8) (LeafNode.path n) ∧ Forall (is_uint 8) (LeafNode.value n).
Definition wf_extension (n : ExtensionNode.t) : Prop :=
  wf_nibble_vec (ExtensionNode.prefix n) ∧ wf_node_hash (ExtensionNode.child n).
Definition wf_branch (n : BranchNode.t) : Prop :=
  length (BranchNode.choices n) = 16%nat ∧ Forall wf_node_hash (BranchNode.choices n) ∧
  Forall (is_uint 8) (BranchNode.path n) ∧ Forall (is_uint 8) (BranchNode.value n).
Definition wf_node (n : Node.t) : Prop :=
  match n with
  | Node.Branch n => wf_branch n
  | Node.Extension n => wf_extension n
  | Node.Leaf n => wf_leaf n
  end.

Lemma from_to_vec h : wf_node_hash h → NodeHash.from_vec (NodeHash.to_vec h) = h.
Proof.
  intros [_ Hh]. unfold NodeHash.from_vec. destruct h as [x|x]; cbn [NodeHash.to_vec].
  - by rewrite Hh.
  - by decide_bools.
Qed.

Section Codecs.
Context `{Profile}.

#[export] Instance NibbleVec_codec : Codec NibbleVec.encode NibbleVec.decode_unfinished wf_nibble_vec.
Proof. struct_codec plain_struct. Qed.
#[export] Instance NodeHash_codec : Codec NodeHash.encode NodeHash.decode_unfinished wf_node_hash.
Proof.
  split; cbn [rlp_encode rlp_decode]; unfold NodeHash.encode, NodeHash.decode_unfinished.
  - intros h rest Hwf Hmax. rewrite (codec_roundtrip _ _ (Forall (is_uint 8))) by (done || apply Hwf).
    rewrite bind_Ok_l. by rewrite from_to_vec.
  - intros d x r Hd. res_inv. by eapply codec_consumes; [typeclasses eauto|].
Qed.
#[export] Instance LeafNode_codec : Codec LeafNode.encode LeafNode.decode_unfinished wf_leaf.
Proof. struct_codec plain_struct. Qed.
#[export] Instance ExtensionNode_codec : Codec ExtensionNode.encode ExtensionNode.decode_unfinished wf_extension.
Proof. struct_codec plain_struct. Qed.
#[export] Instance BranchNode_codec : Codec BranchNode.encode BranchNode.decode_unfinished wf_branch.
Proof.
  struct_codec ltac:(fun x Hwf => unfold wf_branch in Hwf; destruct_and? Hwf).
  apply decode_new; [done|intros ?]. decode_field_step.
  assert (zlen (BranchNode.choices x) = 16) as -> by (unfold zlen; lia). rewrite Z.eqb_refl, bind_Ok_l.
  repeat decode_field_step. by destruct x.
Qed.
#[export] Instance Node_codec : Codec Node.encode Node.decode_unfinished wf_node.
Proof.
  split; cbn [rlp_encode rlp_decode]; unfold Node.encode, Node.decode_unfinished.
  - intros n rest Hwf Hmax. destruct n as [n|n|n]; rewrite zlen_cons in Hmax; cbn [app head ok_or];
      rewrite bind_Ok_l; cbn [Node.from_u8 Z.eqb ok_or Pos.eqb]; rewrite bind_Ok_l, slice_from_cons, bind_Ok_l;
      rewrite (codec_roundtrip _ _ _ n) by (done || lia); done.
  - intros d x r Hd. res_inv; match goal with Hd : ?dec _ = Ok (_, r) |- _ =>
      destruct (codec_consumes _ dec _ _ _ _ Hd) as (q & -> & _) end;
      match goal with Hs : slice_from _ _ = Ok _ |- _ => apply slice_from_suffix in Hs as (p & -> & Hp) end;
      exists (p ++ q); rewrite app_assoc; (split; [done|]); by destruct p.
Qed.

(** The encoding of a node for the database decodes back to the node, and a
    consumer that reads further finds what was behind it. *)
Theorem node_roundtrip (n : Node.t) (rest : list Z) :
  wf_node n → zlen (Node.encode n) <= isize_max →
  Node.decode_unfinished (Node.encode n ++ rest) = Ok (n, rest).
Proof. apply codec_roundtrip. typeclasses eauto. Qed.
End Codecs.

Lemma node_roundtrip_witness :
  let n := Node.Extension (ExtensionNode.mk (NibbleVec.mk [0x01; 0x23] true false) (NodeHash.Inline [0xc2; 0x20; 0x01])) in
  Node.decode_unfinished (H:=dev_profile) (Node.encode n ++ [7]) = Ok (n, [7]).
Proof. apply (@node_roundtrip dev_profile); [split; [|split]|]; by_decide. Defined.
