(* ===== verification/Trie.v ===== *)
(** * The Merkle Patricia trie

    Model of [crates/trie]: the trait of a node database ([db.rs]) with the in-memory
    database, the state of a trie ([state.rs]), the operations of the three kinds of
    nodes ([node/*.rs]) and the trie itself ([trie.rs]).

    Nodes refer to each other by hash, so the recursion is not structural.  An
    operation on a path is given one unit of fuel per half-byte of the path and two
    more: a branch consumes a half-byte and an extension at least one.  A commit is
    given the number of cached nodes, since every call removes one. *)

From S2P Require Import Prelude Rlp RlpLaws U256 Codec Effects Nibble TrieNode.

(** ** error.rs, db.rs *)
Inductive TrieError :=
  | LibmdbxError
  | RLPDecode (err : RLPDecodeError).

Class TrieDB (D : Type) := {
  db_get : list Z → D → res TrieError (option (list Z));
  db_put : list Z → list Z → stm D TrieError unit
}.

(** [InMemoryTrieDB], and the database that forgets everything. *)
#[export] Instance in_memory_trie_db : TrieDB (gmap (list Z) (list Z)) := {|
  db_get key db := Ok (db !! key);
  db_put key value := λ db, (<[key := value]> db, Ok tt)
|}.
#[export] Instance null_trie_db : TrieDB unit := {|
  db_get key db := Ok None;
  db_put key value := mret tt
|}.

(** ** state.rs *)
Record TrieState (D : Type) := mkState { db : D; cache : gmap NodeHash.t Node.t }.
Arguments mkState {D} _ _.
Arguments db {D} _.
Arguments cache {D} _.

Section State.
Context `{Profile} {D : Type} `{TrieDB D}.
Abbreviation M A := (stm (TrieState D) TrieError A).

Definition state_new (db : D) : TrieState D := mkState db ∅.

Definition get_node (hash : NodeHash.t) (state : TrieState D) : res TrieError (option Node.t) :=
  match cache state !! hash with
  | Some node => Ok (Some node)
  | None =>
    rlp ← db_get (NodeHash.to_vec hash) (db state);
    match rlp with
    | Some rlp => node ← map_err RLPDecode (decode Node.decode_unfinished rlp); Ok (Some node)
    | None => Ok None
    end
  end.
(** [.get_node(hash)?.expect("inconsistent internal tree structure")]. *)
Definition expect_node (hash : NodeHash.t) (state : TrieState D) : res TrieError Node.t :=
  node ← get_node hash state; unwrap node.
Definition fetch (hash : NodeHash.t) : M Node.t := λ state, (state, expect_node hash state).

Definition insert_node (node : Node.t) (hash : NodeHash.t) : M unit := λ state,
  (mkState (db state) (<[hash := node]> (cache state)), Ok tt).

(** The database is behind a shared pointer. *)
Definition put (key value : list Z) : M unit := λ state,
  let '(db, r) := db_put key value (db state) in (mkState db (cache state), r).

Fixpoint commit_node (fuel : nat) (node_hash : NodeHash.t) : M unit :=
  match fuel with
  | O => lift OutOfFuel
  | S fuel => λ state,
    match cache state !! node_hash with
    | None => (state, Ok tt)
    | Some node =>
      (_ ← match node with
           | Node.Branch n =>
             for_each (λ child, if NodeHash.is_valid child then commit_node fuel child else mret tt)
               (BranchNode.choices n)
           | Node.Extension n => commit_node fuel (ExtensionNode.child n)
           | Node.Leaf _ => mret tt
           end;
       put (NodeHash.to_vec node_hash) (Node.encode node))
        (mkState (db state) (delete node_hash (cache state)))
    end
  end.
Definition clear_cache : M unit := λ state, (mkState (db state) ∅, Ok tt).
Definition commit (root : NodeHash.t) : M unit := λ state,
  (_ ← commit_node (S (size (cache state))) root; clear_cache) state.

(** ** node/leaf.rs *)
Variable keccak256 : list Z → list Z.

Definition leaf_insert_self (self : LeafNode.t) (path_offset : Z) : M NodeHash.t :=
  hash ← lift (no_err (LeafNode.compute_hash keccak256 self path_offset));
  _ ← insert_node (Node.Leaf self) hash;
  mret hash.
Definition extension_insert_self (self : ExtensionNode.t) : M NodeHash.t :=
  hash ← lift (no_err (ExtensionNode.compute_hash keccak256 self));
  _ ← insert_node (Node.Extension self) hash;
  mret hash.
Definition branch_insert_self (self : BranchNode.t) : M NodeHash.t :=
  let hash := BranchNode.compute_hash keccak256 self in
  _ ← insert_node (Node.Branch self) hash;
  mret hash.
Definition node_insert_self (self : Node.t) (path_offset : Z) : M NodeHash.t :=
  match self with
  | Node.Branch n => branch_insert_self n
  | Node.Extension n => extension_insert_self n
  | Node.Leaf n => leaf_insert_self n path_offset
  end.

Definition leaf_get (self : LeafNode.t) (path : NibbleSlice.t) : res TrieError (option (list Z)) :=
  b ← no_err (NibbleSlice.cmp_rest path (LeafNode.path self));
  Ok (if b : bool then Some (LeafNode.value self) else None).

(** An assignment to a choice evaluates the hash before the index. *)
Definition leaf_split (self : LeafNode.t) (path path_branch : NibbleSlice.t) (value : list Z)
    : M BranchNode.t :=
  let absolute_offset := NibbleSlice.offset path_branch in
  let leaf_offset := absolute_offset + 1 in
  let self_choice := NibbleSlice.nth (NibbleSlice.new (LeafNode.path self)) (Z.to_nat absolute_offset) in
  let path_choice := fst <$> NibbleSlice.next path_branch in
  if absolute_offset =? 2 * zlen (NibbleSlice.data path) then
    h ← leaf_insert_self self leaf_offset;
    i ← lift (unwrap self_choice);
    mret (BranchNode.new_with_value (<[Z.to_nat i := h]> BranchNode.EMPTY_CHOICES)
            (NibbleSlice.data path) value)
  else if absolute_offset =? 2 * zlen (LeafNode.path self) then
    h ← leaf_insert_self (LeafNode.new (NibbleSlice.data path) value) leaf_offset;
    i ← lift (unwrap path_choice);
    mret (BranchNode.new_with_value (<[Z.to_nat i := h]> BranchNode.EMPTY_CHOICES)
            (LeafNode.path self) (LeafNode.value self))
  else
    child_hash ← leaf_insert_self (LeafNode.new (NibbleSlice.data path) value) leaf_offset;
    h ← leaf_insert_self self leaf_offset;
    i ← lift (unwrap self_choice);
    j ← lift (unwrap path_choice);
    mret (BranchNode.new (<[Z.to_nat j := child_hash]> (<[Z.to_nat i := h]> BranchNode.EMPTY_CHOICES))).
Definition leaf_insert (self : LeafNode.t) (path : NibbleSlice.t) (value : list Z) : M Node.t :=
  same ← lift (no_err (NibbleSlice.cmp_rest path (LeafNode.path self)));
  if same : bool then mret (Node.Leaf (LeafNode.mk (LeafNode.path self) value))
  else
    offset ← lift (no_err (NibbleSlice.count_prefix_slice path
      (NibbleSlice.offset_add (NibbleSlice.new (LeafNode.path self)) (NibbleSlice.offset path))));
    branch_node ← leaf_split self path (NibbleSlice.offset_add path offset) value;
    if negb (offset =? 0) then
      branch_hash ← branch_insert_self branch_node;
      prefix ← lift (no_err (NibbleSlice.split_to_vec path offset));
      mret (Node.Extension (ExtensionNode.new prefix branch_hash))
    else mret (Node.Branch branch_node).

Definition leaf_remove (self : LeafNode.t) (path : NibbleSlice.t)
    : M (option Node.t * option (list Z)) :=
  b ← lift (no_err (NibbleSlice.cmp_rest path (LeafNode.path self)));
  mret (if b : bool then (None, Some (LeafNode.value self)) else (Some (Node.Leaf self), None)).

(** ** node/extension.rs, node/branch.rs, node.rs

    The methods of a node call those of its child through [node_get], [node_insert],
    [node_remove] and [node_get_path], which are passed to them. *)
Section Get.
Variable state : TrieState D.
Variable node_get : Node.t → NibbleSlice.t → res TrieError (option (list Z)).

Definition extension_get (self : ExtensionNode.t) (path : NibbleSlice.t) : res TrieError (option (list Z)) :=
  '(skipped, path) ← no_err (NibbleSlice.skip_prefix path (ExtensionNode.prefix self));
  if skipped : bool then
    child_node ← expect_node (ExtensionNode.child self) state;
    node_get child_node path
  else Ok None.
Definition branch_get (self : BranchNode.t) (path : NibbleSlice.t) : res TrieError (option (list Z)) :=
  match NibbleSlice.next path with
  | Some (choice, path) =>
    child_hash ← index (BranchNode.choices self) choice;
    if NodeHash.is_valid child_hash then
      child_node ← expect_node child_hash state;
      node_get child_node path
    else Ok None
  | None => Ok match BranchNode.value self with [] => None | _ => Some (BranchNode.value self) end
  end.
End Get.
Fixpoint node_get (fuel : nat) (state : TrieState D) (self : Node.t) (path : NibbleSlice.t)
    : res TrieError (option (list Z)) :=
  match fuel with
  | O => OutOfFuel
  | S fuel =>
    match self with
    | Node.Branch n => branch_get state (node_get fuel state) n path
    | Node.Extension n => extension_get state (node_get fuel state) n path
    | Node.Leaf n => leaf_get n path
    end
  end.

Section GetPath.
Variable state : TrieState D.
Variable node_get_path : Node.t → NibbleSlice.t → list (list Z) → res TrieError (list (list Z)).

(** Only nodes of 32 bytes or more are part of a proof. *)
Definition push_encoded (encoded : list Z) (node_path : list (list Z)) : list (list Z) :=
  if 32 <=? zlen encoded then node_path ++ [encoded] else node_path.
Definition leaf_get_path (self : LeafNode.t) (path : NibbleSlice.t) (node_path : list (list Z))
    : res TrieError (list (list Z)) :=
  encoded ← no_err (LeafNode.encode_raw self (NibbleSlice.offset path));
  Ok (push_encoded encoded node_path).
Definition extension_get_path (self : ExtensionNode.t) (path : NibbleSlice.t) (node_path : list (list Z))
    : res TrieError (list (list Z)) :=
  encoded ← no_err (ExtensionNode.encode_raw self);
  let node_path := push_encoded encoded node_path in
  '(skipped, path) ← no_err (NibbleSlice.skip_prefix path (ExtensionNode.prefix self));
  if skipped : bool then
    child_node ← expect_node (ExtensionNode.child self) state;
    node_get_path child_node path node_path
  else Ok node_path.
Definition branch_get_path (self : BranchNode.t) (path : NibbleSlice.t) (node_path : list (list Z))
    : res TrieError (list (list Z)) :=
  let node_path := push_encoded (BranchNode.encode_raw self) node_path in
  match NibbleSlice.next path with
  | Some (choice, path) =>
    child_hash ← index (BranchNode.choices self) choice;
    if NodeHash.is_valid child_hash then
      child_node ← expect_node child_hash state;
      node_get_path child_node path node_path
    else Ok node_path
  | None => Ok node_path
  end.
End GetPath.
Fixpoint node_get_path (fuel : nat) (state : TrieState D) (self : Node.t) (path : NibbleSlice.t)
    (node_path : list (list Z)) : res TrieError (list (list Z)) :=
  match fuel with
  | O => OutOfFuel
  | S fuel =>
    match self with
    | Node.Branch n => branch_get_path state (node_get_path fuel state) n path node_path
    | Node.Extension n => extension_get_path state (node_get_path fuel state) n path node_path
    | Node.Leaf n => leaf_get_path n path node_path
    end
  end.

Section Insert.
Variable node_insert : Node.t → NibbleSlice.t → list Z → M Node.t.

(** The path diverges inside the prefix, after [offset] half-bytes. *)
Definition extension_split (self : ExtensionNode.t) (path : NibbleSlice.t) (value : list Z) (offset : Z)
    : M Node.t :=
  let path := NibbleSlice.offset_add path offset in
  let child_offset := NibbleSlice.offset path + 1 in
  '(left_prefix, choice, right_prefix) ← lift (no_err
    (NibbleVec.split_extract_at (ExtensionNode.prefix self) offset));
  right_prefix_node ←
    (if negb (NibbleVec.is_empty right_prefix)
     then extension_insert_self (ExtensionNode.new right_prefix (ExtensionNode.child self))
     else mret (ExtensionNode.child self));
  let choices := <[Z.to_nat choice := right_prefix_node]> BranchNode.EMPTY_CHOICES in
  branch_node ←
    match NibbleSlice.next path with
    | Some (c, path) =>
      h ← leaf_insert_self (LeafNode.new (NibbleSlice.data path) value) child_offset;
      mret (BranchNode.new (<[Z.to_nat c := h]> choices))
    | None => mret (BranchNode.new_with_value choices (NibbleSlice.data path) value)
    end;
  if negb (NibbleVec.is_empty left_prefix) then
    branch_hash ← branch_insert_self branch_node;
    mret (Node.Extension (ExtensionNode.new left_prefix branch_hash))
  else mret (Node.Branch branch_node).
Definition extension_insert (self : ExtensionNode.t) (path : NibbleSlice.t) (value : list Z) : M Node.t :=
  '(skipped, path) ← lift (no_err (NibbleSlice.skip_prefix path (ExtensionNode.prefix self)));
  if skipped : bool then
    child_node ← fetch (ExtensionNode.child self);
    child_node ← node_insert child_node path value;
    child ← node_insert_self child_node 0;
    mret (Node.Extension (ExtensionNode.mk (ExtensionNode.prefix self) child))
  else
    offset ← lift (no_err (NibbleSlice.count_prefix_vec path (ExtensionNode.prefix self)));
    extension_split self path value offset.

Definition branch_insert (self : BranchNode.t) (path : NibbleSlice.t) (value : list Z) : M Node.t :=
  match NibbleSlice.next path with
  | Some (choice, path) =>
    choice_hash ← lift (index (BranchNode.choices self) choice);
    child_hash ←
      (if negb (NodeHash.is_valid choice_hash) then
         leaf_insert_self (LeafNode.new (NibbleSlice.data path) value) (NibbleSlice.offset path)
       else
         child_node ← fetch choice_hash;
         child_node ← node_insert child_node path value;
         node_insert_self child_node (NibbleSlice.offset path));
    mret (Node.Branch (BranchNode.mk (<[Z.to_nat choice := child_hash]> (BranchNode.choices self))
            (BranchNode.path self) (BranchNode.value self)))
  | None => mret (Node.Branch (BranchNode.update self (NibbleSlice.data path) value))
  end.
End Insert.
Fixpoint node_insert (fuel : nat) (self : Node.t) (path : NibbleSlice.t) (value : list Z) : M Node.t :=
  match fuel with
  | O => lift OutOfFuel
  | S fuel =>
    match self with
    | Node.Branch n => branch_insert (node_insert fuel) n path value
    | Node.Extension n => extension_insert (node_insert fuel) n path value
    | Node.Leaf n => leaf_insert n path value
    end
  end.

(** [try_fold] over the choices: the only valid one, if there is exactly one. *)
Fixpoint single_choice (choices : list NodeHash.t) (i : nat) (acc : option (nat * NodeHash.t))
    : option (option (nat * NodeHash.t)) :=
  match choices with
  | [] => Some acc
  | x :: choices =>
    match acc, NodeHash.is_valid x with
    | None, true => single_choice choices (S i) (Some (i, x))
    | None, false => single_choice choices (S i) None
    | Some _, true => None
    | Some _, false => single_choice choices (S i) acc
    end
  end.

Section Remove.
Variable node_remove : Node.t → NibbleSlice.t → M (option Node.t * option (list Z)).

Definition extension_remove (self : ExtensionNode.t) (path : NibbleSlice.t)
    : M (option Node.t * option (list Z)) :=
  '(skipped, path) ← lift (no_err (NibbleSlice.skip_prefix path (ExtensionNode.prefix self)));
  if skipped : bool then
    child_node ← fetch (ExtensionNode.child self);
    '(child_node, old_value) ← node_remove child_node path;
    node ← match child_node with
           | None => mret None
           | Some (Node.Branch branch_node) =>
             child ← branch_insert_self branch_node;
             mret (Some (Node.Extension (ExtensionNode.mk (ExtensionNode.prefix self) child)))
           | Some (Node.Extension extension_node) =>
             prefix ← lift (no_err (NibbleVec.extend (ExtensionNode.prefix self)
               (ExtensionNode.prefix extension_node)));
             mret (Some (Node.Extension (ExtensionNode.mk prefix (ExtensionNode.child extension_node))))
           | Some (Node.Leaf leaf_node) => mret (Some (Node.Leaf leaf_node))
           end;
    mret (node, old_value)
  else mret (Some (Node.Extension self), None).

(** Step 1: the branch without the value, and the value. *)
Definition branch_take (self : BranchNode.t) (path : NibbleSlice.t)
    : M (BranchNode.t * option (list Z)) :=
  match NibbleSlice.next path with
  | Some (choice_index, path) =>
    choice_hash ← lift (index (BranchNode.choices self) choice_index);
    if NodeHash.is_valid choice_hash then
      child_node ← fetch choice_hash;
      '(child_node, old_value) ← node_remove child_node path;
      h ← match child_node with
          | Some child_node => node_insert_self child_node (NibbleSlice.offset path)
          | None => mret NodeHash.default
          end;
      mret (BranchNode.mk (<[Z.to_nat choice_index := h]> (BranchNode.choices self))
              (BranchNode.path self) (BranchNode.value self), old_value)
    else mret (self, None)
  | None =>
    mret match BranchNode.path self with
         | [] => (self, None)
         | _ => (BranchNode.mk (BranchNode.choices self) [] [],
                 match BranchNode.value self with [] => None | _ => Some (BranchNode.value self) end)
         end
  end.
(** Step 2: the node that takes the place of the branch; [path_offset] is where the
    branch is. *)
Definition branch_restructure (self : BranchNode.t) (path_offset : Z) : M Node.t :=
  let finish (self : BranchNode.t) (child_hash : option NodeHash.t) : M Node.t :=
    match child_hash, BranchNode.path self with
    | Some _, _ :: _ => mret (Node.Branch self)
    | None, _ :: _ => mret (Node.Leaf (LeafNode.new (BranchNode.path self) (BranchNode.value self)))
    | Some x, [] => fetch x
    | None, [] => mret (Node.Branch self)
    end in
  match single_choice (BranchNode.choices self) 0 None with
  | Some (Some (choice_index, child_hash)) =>
    child_node ← fetch child_hash;
    match child_node with
    | Node.Branch _ =>
      h ← extension_insert_self (ExtensionNode.new
        (NibbleVec.from_single (Z.of_nat choice_index) (negb (path_offset mod 2 =? 0))) child_hash);
      finish (BranchNode.mk (<[choice_index := h]> (BranchNode.choices self))
                (BranchNode.path self) (BranchNode.value self)) (Some h)
    | Node.Extension extension_node =>
      _ ← lift (if overflow_checks && bool_decide (BranchNode.path self ≠ []) then Panic else Ok tt);
      prefix ← lift (no_err (NibbleVec.prepend (ExtensionNode.prefix extension_node) (Z.of_nat choice_index)));
      mret (Node.Extension (ExtensionNode.mk prefix (ExtensionNode.child extension_node)))
    | Node.Leaf _ => finish self (Some child_hash)
    end
  | _ => finish self None
  end.
Definition branch_remove (self : BranchNode.t) (path : NibbleSlice.t)
    : M (option Node.t * option (list Z)) :=
  '(self, value) ← branch_take self path;
  node ← branch_restructure self (NibbleSlice.offset path);
  mret (Some node, value).
End Remove.
Fixpoint node_remove (fuel : nat) (self : Node.t) (path : NibbleSlice.t)
    : M (option Node.t * option (list Z)) :=
  match fuel with
  | O => lift OutOfFuel
  | S fuel =>
    match self with
    | Node.Branch n => branch_remove (node_remove fuel) n path
    | Node.Extension n => extension_remove (node_remove fuel) n path
    | Node.Leaf n => leaf_remove n path
    end
  end.
End State.

(** ** trie.rs *)
Module Trie.
Record t (D : Type) := mk { root : option NodeHash.t; state : TrieState D }.
Arguments mk {D} _ _.
Arguments root {D} _.
Arguments state {D} _.

Section Trie.
Context `{Profile} {D : Type} `{TrieDB D}.
Variable keccak256 : list Z → list Z.
Abbreviation M A := (stm (t D) TrieError A).

Definition EMPTY_TRIE_HASH : list Z := keccak256 [RLP_NULL].
Definition path_fuel (path : list Z) : nat := 2 * length path + 2.

Definition new (db : D) : t D := mk None (state_new db).
Definition open (db : D) (root : list Z) : t D :=
  mk (if bool_decide (root ≠ EMPTY_TRIE_HASH) then Some (NodeHash.Hashed root) else None) (state_new db).

Definition get (self : t D) (path : list Z) : res TrieError (option (list Z)) :=
  match root self with
  | Some root =>
    root_node ← expect_node root (state self);
    node_get (path_fuel path) (state self) root_node (NibbleSlice.new path)
  | None => Ok None
  end.

(** An operation on the state, and an assignment to the root. *)
Definition on_state {A} (m : stm (TrieState D) TrieError A) : M A := λ self,
  let '(s, r) := m (state self) in (mk (root self) s, r).
Definition set_root (root : option NodeHash.t) : M unit := λ self, (mk root (state self), Ok tt).
Definition take_root : M (option NodeHash.t) := λ self, (mk None (state self), Ok (root self)).

Definition insert (path value : list Z) : M unit :=
  root ← take_root;
  root_node ← match root with
              | Some root => on_state (λ s, (s, get_node root s))
              | None => mret None
              end;
  match root_node with
  | Some root_node =>
    root_node ← on_state (node_insert keccak256 (path_fuel path) root_node (NibbleSlice.new path) value);
    h ← on_state (node_insert_self keccak256 root_node 0);
    set_root (Some h)
  | None =>
    h ← on_state (node_insert_self keccak256 (Node.Leaf (LeafNode.new path value)) 0);
    set_root (Some h)
  end.

Definition remove (path : list Z) : M (option (list Z)) :=
  root ← take_root;
  match root with
  | Some root =>
    root_node ← on_state (fetch root);
    '(root_node, old_value) ←
      on_state (node_remove keccak256 (path_fuel path) root_node (NibbleSlice.new path));
    root ← match root_node with
           | Some root => h ← on_state (node_insert_self keccak256 root 0); mret (Some h)
           | None => mret None
           end;
    _ ← set_root root;
    mret old_value
  | None => mret None
  end.

Definition root_hash (self : t D) : list Z :=
  match root self with
  | Some root => NodeHash.finalize keccak256 root
  | None => EMPTY_TRIE_HASH
  end.
Definition read {A} (f : t D → A) : M A := λ self, (self, Ok (f self)).
Definition hash : M (list Z) :=
  root ← read root;
  _ ← match root with Some root => on_state (commit root) | None => mret tt end;
  read root_hash.

Definition get_proof (self : t D) (path : list Z) : res TrieError (list (list Z)) :=
  match root self with
  | None => Ok []
  | Some root =>
    let node_path := match root with NodeHash.Inline node => [node] | NodeHash.Hashed _ => [] end in
    root_node ← expect_node root (state self);
    node_get_path (path_fuel path) (state self) root_node (NibbleSlice.new path) node_path
  end.
End Trie.

(** [trie.insert(path, value).unwrap()] for every element. *)
Definition compute_hash_from_unsorted_iter `{Profile} (keccak256 : list Z → list Z)
    (iter : list (list Z * list Z)) : pres (list Z) :=
  let '(trie, r) := for_each (λ '(path, value), stm_unwrap (insert keccak256 path value)) iter (new tt) in
  _ ← r;
  Ok (root_hash keccak256 trie).
End Trie.

