(* ===== verification/TrieSpec.v ===== *)
(** * What a trie is: maps from paths and the root of the yellow paper

    The reference that the trie is compared with: finite maps from lists of half-bytes,
    the hex-prefix and RLP encodings of the yellow paper (appendices C and D) written
    with the encoders of the RLP crate, and the encoding of the root of a map. *)

From S2P Require Import Prelude Rlp RlpLaws U256 Codec Nibble NibbleLaws TrieNode.

Abbreviation pmap := (gmap (list Z) (list Z)).

(** ** Submaps *)
Fixpoint strip (p k : list Z) : option (list Z) :=
  match p, k with
  | [], _ => Some k
  | a :: p, b :: k => if decide (a = b) then strip p k else None
  | _, [] => None
  end.
Lemma strip_Some p k k' : strip p k = Some k' ↔ k = p ++ k'.
Proof.
  revert k. induction p as [|a p IH]; intros [|b k]; cbn; [naive_solver..|].
  destruct (decide (a = b)) as [->|]; [rewrite IH|]; naive_solver.
Qed.

(** The part of a map under a prefix. *)
Definition sub (p : list Z) (m : pmap) : pmap :=
  list_to_map (omap (λ '(k, v), (λ k', (k', v)) <$> strip p k) (map_to_list m)).

Lemma elem_of_stripped (p : list Z) (m : pmap) (k v : list Z) :
  (k, v) ∈ omap (λ '(k, v), (λ k', (k', v)) <$> strip p k) (map_to_list m) ↔ m !! (p ++ k) = Some v.
Proof.
  rewrite list_elem_of_omap. split.
  - intros ([k' v'] & Hin & Hs). destruct (strip p k') as [k''|] eqn:E; simplify_eq/=.
    apply strip_Some in E as ->. by apply elem_of_map_to_list in Hin.
  - intros Hm. exists (p ++ k, v). split; [by apply elem_of_map_to_list|].
    by rewrite (proj2 (strip_Some p (p ++ k) k) eq_refl).
Qed.
Lemma sub_lookup p m k : sub p m !! k = m !! (p ++ k).
Proof.
  apply option_eq. intros v. unfold sub. rewrite <-(elem_of_stripped p m k v). split.
  - intros Hl%elem_of_list_to_map_2. done.
  - intros Hin. apply elem_of_list_to_map_1'; [|done]. intros v' Hin'.
    apply elem_of_stripped in Hin, Hin'. congruence.
Qed.

Lemma sub_nil m : sub [] m = m.
Proof. apply map_eq. intros k. by rewrite sub_lookup. Qed.
Lemma sub_sub p q m : sub q (sub p m) = sub (p ++ q) m.
Proof. apply map_eq. intros k. by rewrite !sub_lookup, app_assoc. Qed.
Lemma sub_insert p k v m : sub p (<[p ++ k := v]> m) = <[k := v]> (sub p m).
Proof.
  apply map_eq. intros k'. rewrite sub_lookup. destruct (decide (k = k')) as [->|Hne].
  - by rewrite !lookup_insert_eq.
  - rewrite !lookup_insert_ne, sub_lookup; [done|done|]. intros ?%app_inv_head. done.
Qed.
Lemma sub_insert_ne p k v m : ¬ p `prefix_of` k → sub p (<[k := v]> m) = sub p m.
Proof.
  intros Hp. apply map_eq. intros k'. rewrite !sub_lookup, lookup_insert_ne; [done|].
  intros ->. apply Hp. by exists k'.
Qed.
Lemma sub_delete p k m : sub p (delete (p ++ k) m) = delete k (sub p m).
Proof.
  apply map_eq. intros k'. rewrite sub_lookup. destruct (decide (k = k')) as [->|Hne].
  - by rewrite !lookup_delete_eq.
  - rewrite !lookup_delete_ne, sub_lookup; [done|done|]. intros ?%app_inv_head. done.
Qed.
Lemma sub_delete_ne p k m : ¬ p `prefix_of` k → sub p (delete k m) = sub p m.
Proof.
  intros Hp. apply map_eq. intros k'. rewrite !sub_lookup, lookup_delete_ne; [done|].
  intros ->. apply Hp. by exists k'.
Qed.
Lemma sub_empty p : sub p ∅ = ∅.
Proof. apply map_eq. intros k. by rewrite sub_lookup, !lookup_empty. Qed.

(** A map moved under a prefix. *)
Definition push (p : list Z) (m : pmap) : pmap := kmap (app p) m.
Lemma push_lookup p m k : push p m !! (p ++ k) = m !! k.
Proof. apply lookup_kmap. apply _. Qed.
Lemma push_lookup_ne p m k : ¬ p `prefix_of` k → push p m !! k = None.
Proof.
  intros Hp. unfold push. apply lookup_kmap_None; [apply _|]. intros k' ->. destruct Hp. by exists k'.
Qed.
Lemma sub_push p m : sub p (push p m) = m.
Proof. apply map_eq. intros k. by rewrite sub_lookup, push_lookup. Qed.
Lemma push_insert p k v m : push p (<[k := v]> m) = <[p ++ k := v]> (push p m).
Proof. apply kmap_insert. apply _. Qed.
Lemma push_app p q m : push p (push q m) = push (p ++ q) m.
Proof.
  apply map_eq. intros k. destruct (decide (p `prefix_of` k)) as [[k' ->]|Hp].
  - rewrite push_lookup. destruct (decide (q `prefix_of` k')) as [[k'' ->]|Hq].
    + rewrite push_lookup, app_assoc. symmetry. apply push_lookup.
    + rewrite (push_lookup_ne q) by done. rewrite push_lookup_ne; [done|]. intros [r Hr]. rewrite <-app_assoc in Hr.
      apply app_inv_head in Hr as ->. apply Hq. by eexists.
  - rewrite (push_lookup_ne p) by done. rewrite push_lookup_ne; [done|]. intros [r Hr]. apply Hp. rewrite <-app_assoc in Hr. by eexists.
Qed.
Lemma push_singleton p k v : push p {[k := v]} = {[p ++ k := v]}.
Proof. by rewrite <-!insert_empty, push_insert. Qed.

(** Two keys start with different half-bytes. *)
Definition branching (m : pmap) : Prop := ∃ i j, i ≠ j ∧ sub [i] m ≠ ∅ ∧ sub [j] m ≠ ∅.
(** Every key has [r] half-bytes. *)
Definition keys_ok (r : Z) (m : pmap) : Prop :=
  map_Forall (λ k v, zlen k = r ∧ Forall is_nibble k ∧ bytes_ok v ∧ zlen v < 2 ^ 60) m.

Lemma keys_ok_sub p r m : keys_ok r m → keys_ok (r - zlen p) (sub p m).
Proof.
  intros Hm k v. rewrite sub_lookup. intros Hk. destruct (Hm _ _ Hk) as (Hl & Hn & Hv).
  rewrite zlen_app in Hl. rewrite Forall_app in Hn. split_and!; [lia|tauto..].
Qed.
Lemma branching_ne m : branching m → m ≠ ∅.
Proof. intros (i & j & _ & Hi & _) ->. apply Hi, sub_empty. Qed.
Lemma branching_insert k v m : branching m → branching (<[k := v]> m).
Proof.
  intros (i & j & Hij & Hi & Hj). exists i, j. split; [done|].
  assert (∀ p, sub p m ≠ ∅ → sub p (<[k := v]> m) ≠ ∅) as Hs; [|auto].
  intros p Hp. destruct (decide (p `prefix_of` k)) as [[k' ->]|Hne]; [|by rewrite sub_insert_ne].
  rewrite sub_insert. apply insert_non_empty.
Qed.
Lemma sub_nonempty p m k v : m !! (p ++ k) = Some v → sub p m ≠ ∅.
Proof. intros Hk He. rewrite <-sub_lookup, He in Hk. by rewrite lookup_empty in Hk. Qed.
Lemma sub_nonempty_inv p m : sub p m ≠ ∅ → ∃ k v, m !! (p ++ k) = Some v.
Proof. intros (k & v & Hk)%map_choose. exists k, v. by rewrite <-sub_lookup. Qed.

(** ** Encodings *)

(** Two half-bytes to a byte. *)
Fixpoint pack (l : list Z) : list Z :=
  match l with
  | a :: b :: l => 16 * a + b :: pack l
  | _ => []
  end.
(** Appendix C: the flag says whether the path ends in a leaf and whether its length is
    odd; then an odd half-byte shares the first byte. *)
Definition hex_prefix (p : list Z) (leaf : bool) : list Z :=
  let f := if leaf then 2 else 0 in
  match p with
  | a :: q => if odd (zlen p) then 16 * (f + 1) + a :: pack q else 16 * f :: pack p
  | [] => [16 * f]
  end.

(** A reference to a node inside another: a hash is a string, a short node stands for
    itself, and no node is the empty string. *)
Definition node_item (h : NodeHash.t) : list Z :=
  match h with
  | NodeHash.Hashed x => Bytes_encode x
  | NodeHash.Inline [] => Bytes_encode []
  | NodeHash.Inline x => x
  end.

(** What is encoded of a node. *)
Inductive desc :=
  | DLeaf (p : list Z) (v : list Z)
  | DExt (p : list Z) (h : NodeHash.t)
  | DBranch (hs : list NodeHash.t).
Definition enc (d : desc) : list Z :=
  struct_rlp match d with
  | DLeaf p v => [Bytes_encode (hex_prefix p true); Bytes_encode v]
  | DExt p h => [Bytes_encode (hex_prefix p false); node_item h]
  | DBranch hs => map node_item hs ++ [Bytes_encode []]
  end.

(** A reference as the trie makes them. *)
Definition wf_ref (h : NodeHash.t) : Prop :=
  match h with
  | NodeHash.Hashed x => is_array 32 x
  | NodeHash.Inline x => x = [] ∨ ∃ l, x = struct_rlp l
  end.
Definition wf_desc (d : desc) : Prop :=
  zlen (enc d) <= isize_max ∧
  match d with
  | DLeaf p v => Forall is_nibble p ∧ bytes_ok v
  | DExt p h => Forall is_nibble p ∧ wf_ref h
  | DBranch hs => length hs = 16%nat ∧ Forall wf_ref hs
  end.

Lemma pack_inj l : ∀ k,
  Forall is_nibble l → Forall is_nibble k → odd (zlen l) = false → odd (zlen k) = false →
  pack l = pack k → l = k.
Proof.
  induction l as [l IH] using (induction_ltof1 _ length). unfold ltof in IH.
  intros k Hl Hk Ol Ok He. destruct l as [|a [|b l]], k as [|c [|d k]]; try done.
  cbn [pack] in He. injection He as Hb He. rewrite !Forall_cons in *. destruct_and!. unfold is_nibble in *.
  rewrite !zlen_cons in Ol, Ok. rewrite Z.add_assoc, odd_add in Ol, Ok. cbn in Ol, Ok.
  assert (l = k) as ->.
  { apply IH; first [done|by destruct (odd (zlen l))|by destruct (odd (zlen k))|cbn; lia]. }
  f_equal; [|f_equal]; lia.
Qed.
Lemma odd_zlen_cons {A} (x : A) l : odd (zlen (x :: l)) = negb (odd (zlen l)).
Proof. rewrite zlen_cons, odd_add. by destruct (odd (zlen l)). Qed.
Lemma hex_prefix_inj p leaf q leaf' :
  Forall is_nibble p → Forall is_nibble q →
  hex_prefix p leaf = hex_prefix q leaf' → p = q ∧ leaf = leaf'.
Proof.
  intros Hp Hq. unfold hex_prefix.
  assert (∀ l : bool, (if l then 2 else 0) = 2 * Z.b2z l) as Hf by (by intros []). rewrite !Hf.
  pose proof (b2z_range leaf). pose proof (b2z_range leaf').
  assert (Z.b2z leaf = Z.b2z leaf' → leaf = leaf') as Hinj by (by destruct leaf, leaf').
  destruct p as [|a p], q as [|b q].
  - intros [= He]. split; [done|]. apply Hinj. lia.
  - apply Forall_cons in Hq as [Hb Hq]. unfold is_nibble in Hb.
    destruct (odd (zlen (b :: q))) eqn:Oq; intros [= He Ht]; [lia|].
    destruct q; [|done]. by cbn in Oq.
  - apply Forall_cons in Hp as [Ha Hp]. unfold is_nibble in Ha.
    destruct (odd (zlen (a :: p))) eqn:Op; intros [= He Ht]; [lia|].
    destruct p; [|done]. by cbn in Op.
  - pose proof Hp as Hp'. pose proof Hq as Hq'.
    apply Forall_cons in Hp' as [Ha Hp'], Hq' as [Hb Hq']. unfold is_nibble in Ha, Hb.
    destruct (odd (zlen (a :: p))) eqn:Op, (odd (zlen (b :: q))) eqn:Oq; intros He;
      injection He as He Ht; try lia.
    + rewrite odd_zlen_cons in Op, Oq. apply negb_true_iff in Op, Oq. apply pack_inj in Ht as ->; [|done..].
      split; [f_equal; lia|apply Hinj; lia].
    + change (pack (a :: p) = pack (b :: q)) in Ht. apply pack_inj in Ht; [|done..]. split; [done|apply Hinj; lia].
Qed.

(** ** Encodings are injective

    The codecs of the RLP crate invert encodings in both profiles; one is enough here. *)
#[local] Existing Instance dev_profile.
Lemma hex_prefix_bytes p leaf : Forall is_nibble p → bytes_ok (hex_prefix p leaf).
Proof.
  assert (∀ l, Forall is_nibble l → bytes_ok (pack l)) as Hpack.
  { intros l. induction l as [l IH] using (induction_ltof1 _ length). unfold ltof in IH.
    intros Hl. destruct l as [|a [|b l]]; try constructor; rewrite !Forall_cons in Hl; destruct_and! Hl.
    - by apply is_byte_of.
    - apply IH; [cbn; lia|done]. }
  intros Hp. unfold hex_prefix. destruct p as [|a p].
  - constructor; [|done]. unfold is_byte. by destruct leaf.
  - pose proof Hp as [Ha Hp']%Forall_cons. unfold is_nibble in Ha.
    destruct (odd _); constructor; auto; unfold is_byte; destruct leaf; lia.
Qed.

(** A reference is one RLP item. *)
Inductive ref_item : NodeHash.t → Prop :=
  | ref_string x : (x = [] ∨ is_array 32 x) →
    ref_item (match x with [] => NodeHash.Inline [] | _ => NodeHash.Hashed x end)
  | ref_list l : ref_item (NodeHash.Inline (struct_rlp l)).
Lemma wf_ref_item h : wf_ref h → ref_item h.
Proof.
  destruct h as [x|x]; cbn.
  - intros Hx. pose proof (ref_string x (or_intror Hx)) as Hr. destruct x; [by destruct Hx|done].
  - intros [->|[l ->]]; [apply (ref_string []); by left|constructor].
Qed.
Lemma node_item_string x :
  x = [] ∨ is_array 32 x →
  node_item (match x with [] => NodeHash.Inline [] | _ => NodeHash.Hashed x end) = Bytes_encode x ∧
  (∃ b t, Bytes_encode x = b :: t ∧ b < 0xc0) ∧ bytes_ok x.
Proof.
  intros [->|[Hb Hz]]; [split_and!; [done|by exists 0x80, []|done]|].
  split_and!; [by destruct x| |done]. unfold Bytes_encode, bytes_encode.
  rewrite Hz. cbn. by eexists _, _.
Qed.
Lemma node_item_list l : node_item (NodeHash.Inline (struct_rlp l)) = struct_rlp l.
Proof. unfold node_item. destruct (struct_rlp_head l) as (b & t & -> & _). done. Qed.

Lemma node_item_inj h h' r r' :
  wf_ref h → wf_ref h' → zlen (node_item h ++ r) <= isize_max →
  node_item h ++ r = node_item h' ++ r' → h = h' ∧ r = r'.
Proof.
  intros Hh%wf_ref_item Hh'%wf_ref_item Hmax He.
  destruct Hh as [x Hx|l], Hh' as [y Hy|k].
  - destruct (node_item_string x Hx) as (Ex & _ & Bx), (node_item_string y Hy) as (Ey & _ & By).
    rewrite Ex, Ey in *.
    by destruct (codec_inj Bytes_encode Bytes_decode (Forall is_byte) x y r r') as [-> ->].
  - destruct (node_item_string x Hx) as (Ex & (b & t & Eb & Hb) & _).
    destruct (struct_rlp_head k) as (c & u & Ec & Hc). rewrite node_item_list, Ex, Eb, Ec in He.
    injection He as -> _. lia.
  - destruct (node_item_string y Hy) as (Ey & (b & t & Eb & Hb) & _).
    destruct (struct_rlp_head l) as (c & u & Ec & Hc). rewrite node_item_list, Ey, Eb, Ec in He.
    injection He as -> _. lia.
  - rewrite !node_item_list in *. apply struct_rlp_inj in He as [He ->]; [|done].
    unfold struct_rlp. by rewrite He.
Qed.
Lemma node_item_pos h : wf_ref h → 0 < zlen (node_item h).
Proof.
  intros Hh%wf_ref_item. destruct Hh as [x Hx|l].
  - destruct (node_item_string x Hx) as (-> & (b & t & -> & _) & _). rewrite zlen_cons. pose proof (zlen_nonneg t). lia.
  - rewrite node_item_list. destruct (struct_rlp_head l) as (b & t & -> & _). rewrite zlen_cons.
    pose proof (zlen_nonneg t). lia.
Qed.

Lemma concat_items_inj hs : ∀ hs' r r',
  Forall wf_ref hs → Forall wf_ref hs' → length hs = length hs' →
  zlen (concat (map node_item hs) ++ r) <= isize_max →
  concat (map node_item hs) ++ r = concat (map node_item hs') ++ r' → hs = hs'.
Proof.
  induction hs as [|h hs IH]; intros [|h' hs'] r r' Hw Hw' Hl Hmax He; try done.
  apply Forall_cons in Hw as [Hh Hw], Hw' as [Hh' Hw']. cbn [map concat] in *.
  rewrite <-!app_assoc in *. destruct (node_item_inj h h' _ _ Hh Hh' Hmax He) as [-> He'].
  f_equal. eapply IH; [done..|by injection Hl| |done].
  rewrite zlen_app in Hmax. pose proof (zlen_nonneg (node_item h')). lia.
Qed.

(** A string and a reference that start alike end alike. *)
Lemma bytes_item_end a h r r' :
  bytes_ok a → wf_ref h → zlen (Bytes_encode a ++ r) <= isize_max →
  Bytes_encode a ++ r = node_item h ++ r' → r = r'.
Proof.
  intros Ha Hh%wf_ref_item Hmax He. pose proof Hmax as Hmax'. rewrite He in Hmax'.
  destruct Hh as [x Hx|l].
  - destruct (node_item_string x Hx) as (Ex & _ & Bx). rewrite Ex in *.
    by destruct (codec_inj Bytes_encode Bytes_decode (Forall is_byte) a x r r') as [_ ->].
  - rewrite node_item_list in *. rewrite zlen_app in Hmax, Hmax'. pose proof (zlen_nonneg r).
    pose proof (zlen_nonneg r').
    pose proof (codec_roundtrip Bytes_encode Bytes_decode (Forall is_byte) a r Ha ltac:(lia)) as Hd.
    rewrite He in Hd. unfold Bytes_decode, decode_bytes, struct_rlp in Hd. rewrite <-app_assoc in Hd.
    rewrite decode_list_item in Hd by (by apply struct_rlp_bound; lia). done.
Qed.

(** The items of a leaf or an extension are two, those of a branch seventeen. *)
Lemma branch_items_long a i hs :
  bytes_ok a → (∃ v, bytes_ok v ∧ i = Bytes_encode v) ∨ (∃ h, wf_ref h ∧ i = node_item h) →
  length hs = 16%nat → Forall wf_ref hs → zlen (concat [Bytes_encode a; i]) <= isize_max →
  concat [Bytes_encode a; i] ≠ concat (map node_item hs ++ [Bytes_encode []]).
Proof.
  intros Ha Hi Hl Hw Hmax He. destruct hs as [|h0 [|h1 [|h2 hs]]]; try done.
  rewrite !Forall_cons in Hw. destruct Hw as (W0 & W1 & W2 & _). cbn [concat map app] in *.
  rewrite app_nil_r in He, Hmax.
  apply bytes_item_end in He as Hi2; [|done..].
  assert ([] = node_item h2 ++ concat (map node_item hs ++ [Bytes_encode []])) as Hend.
  { rewrite zlen_app in Hmax. pose proof (zlen_nonneg (Bytes_encode a)).
    rewrite <-(app_nil_r i) in Hi2.
    destruct Hi as [(v & Hv & ->)|(h & Hh & ->)].
    - apply bytes_item_end in Hi2; [done|done|done|]. rewrite app_nil_r. lia.
    - apply node_item_inj in Hi2 as [_ ?]; [done|done|done|]. rewrite app_nil_r. lia. }
  pose proof (node_item_pos h2 W2). apply (f_equal zlen) in Hend. rewrite zlen_app, zlen_nil in Hend.
  pose proof (zlen_nonneg (concat (map node_item hs ++ [Bytes_encode []]))). lia.
Qed.

Lemma hex_prefix_ne p leaf : hex_prefix p leaf ≠ [].
Proof. unfold hex_prefix. destruct p; [done|]. by destruct (odd _). Qed.

Theorem enc_inj d d' : wf_desc d → wf_desc d' → enc d = enc d' → d = d'.
Proof.
  intros [Hmax Hd] [Hmax' Hd'] He. pose proof (struct_rlp_bound _ Hmax) as Hb.
  pose proof (struct_rlp_bound _ Hmax') as Hb'. unfold enc in He.
  rewrite <-(app_nil_r (struct_rlp _)), <-(app_nil_r (struct_rlp (match d' with DLeaf _ _ => _ | _ => _ end))) in He.
  apply struct_rlp_inj in He as [He _]; [|by rewrite app_nil_r].
  destruct d as [p v|p h|hs], d' as [p' v'|p' h'|hs'].
  - destruct Hd as [Hp Hv], Hd' as [Hp' Hv'].
    apply (fields_inj Bytes_encode Bytes_decode (Forall is_byte)) in He as (He & He2 & Hb2);
      [|by apply hex_prefix_bytes..|done].
    apply hex_prefix_inj in He as [-> _]; [|done..].
    by apply (fields_inj Bytes_encode Bytes_decode (Forall is_byte)) in He2 as (-> & _).
  - destruct Hd as [Hp Hv], Hd' as [Hp' Hh'].
    apply (fields_inj Bytes_encode Bytes_decode (Forall is_byte)) in He as (He & _);
      [|by apply hex_prefix_bytes..|done].
    by apply hex_prefix_inj in He as [_ ?].
  - destruct Hd as [Hp Hv], Hd' as [Hl Hw]. exfalso.
    apply branch_items_long in He; [done|by apply hex_prefix_bytes|by left; eexists|done..].
  - destruct Hd as [Hp Hv], Hd' as [Hp' Hh'].
    apply (fields_inj Bytes_encode Bytes_decode (Forall is_byte)) in He as (He & _);
      [|by apply hex_prefix_bytes..|done].
    by apply hex_prefix_inj in He as [_ ?].
  - destruct Hd as [Hp Hh], Hd' as [Hp' Hh'].
    apply (fields_inj Bytes_encode Bytes_decode (Forall is_byte)) in He as (He & He2 & Hb2);
      [|by apply hex_prefix_bytes..|done].
    apply hex_prefix_inj in He as [-> _]; [|done..]. cbn [concat] in *.
    by apply node_item_inj in He2 as [-> _].
  - destruct Hd as [Hp Hh], Hd' as [Hl Hw]. exfalso.
    apply branch_items_long in He; [done|by apply hex_prefix_bytes|by right; eexists|done..].
  - destruct Hd' as [Hp Hv], Hd as [Hl Hw]. exfalso. symmetry in He.
    apply branch_items_long in He; [done|by apply hex_prefix_bytes|by left; eexists|done..].
  - destruct Hd' as [Hp Hh], Hd as [Hl Hw]. exfalso. symmetry in He.
    apply branch_items_long in He; [done|by apply hex_prefix_bytes|by right; eexists|done..].
  - destruct Hd as [Hl Hw], Hd' as [Hl' Hw']. f_equal. rewrite concat_app in Hb.
    rewrite (concat_app (map node_item hs)), (concat_app (map node_item hs')) in He.
    eapply concat_items_inj; [done..|congruence|done|done].
Qed.
