(* ===== verification/TrieEncoding.v ===== *)
(** * The hand-written encodings of nodes are RLP

    [NodeEncoder] computes lengths before it writes; what it writes for a node is the
    RLP list of the yellow paper, as the encoders of the RLP crate would write it. *)

From S2P Require Import Prelude Rlp RlpLaws U256 Codec Nibble NibbleLaws TrieNode TrieSpec.

(** ** Lengths *)
Lemma byte_usage_trim v :
  0 < v < 2 ^ 64 → compute_byte_usage v = zlen (be_trim (to_be 8 v)).
Proof.
  intros Hv. destruct (be_trim_spec 8 v) as (d & t & -> & Hd & Hb & Hof & Hl); [done|].
  unfold compute_byte_usage. decide_bools. rewrite Z.max_r by (pose proof (Z.log2_nonneg v); lia).
  replace (Z.log2 v + 1 - 1) with (Z.log2 v) by lia. zlen_simpl.
  apply Forall_cons in Hb as [Hdb Hb]. pose proof (of_be_range t Hb). rewrite of_be_cons in Hof.
  pose proof (zlen_nonneg t) as Ht. assert (1 <= d) by (unfold is_byte in Hdb; lia).
  assert (256 ^ zlen t = 2 ^ (8 * zlen t)) as Hp by (by apply pow256).
  assert (2 ^ (8 * zlen t) <= v < 2 ^ (8 * zlen t + 8)) as Hr.
  { rewrite Z.pow_add_r by lia. unfold is_byte in Hdb. rewrite Hp in *. change (2 ^ 8) with 256. nia. }
  assert (8 * zlen t <= Z.log2 v) by (apply Z.log2_le_pow2; lia).
  assert (Z.log2 v < 8 * zlen t + 8) by (apply Z.log2_lt_pow2; lia).
  assert (Z.log2 v / 8 = zlen t) by divlia. lia.
Qed.
Lemma zdrop_trim v : 0 < v < 2 ^ 64 → zdrop (8 - compute_byte_usage v) (to_be 8 v) = be_trim (to_be 8 v).
Proof.
  intros Hv. rewrite byte_usage_trim by done. destruct (be_trim_position 8 v Hv) as [i Hi].
  unfold be_trim. rewrite Hi. assert (i <= 8)%nat.
  { destruct (position_nonzero_spec _ _ Hi) as (d & t & _ & _ & Hl). apply (f_equal length) in Hl.
    rewrite to_be_length, length_app, length_replicate in Hl. lia. }
  unfold zdrop, zlen. rewrite length_drop, to_be_length. f_equal. lia.
Qed.

Lemma write_len_spec short long v e :
  0 <= v < 2 ^ 64 → NodeEncoder.write_len short long v e = e ++ item_prefix short long v.
Proof.
  intros Hv. unfold NodeEncoder.write_len, item_prefix, NodeEncoder.write_raw.
  destruct (v <? 56) eqn:E; bool_prop; [done|]. cbv zeta.
  rewrite <-app_assoc. cbn [app]. by rewrite zdrop_trim, byte_usage_trim by lia.
Qed.
Lemma Bytes_encode_prefix x :
  Bytes_encode x =
  if (zlen x =? 1) && (hd 0 x <? 128) then [hd 0 x] else item_prefix 0x80 0xb7 (zlen x) ++ x.
Proof. unfold Bytes_encode, bytes_encode, item_prefix. by destruct x. Qed.
Lemma write_bytes_spec x e :
  zlen x < 2 ^ 64 → NodeEncoder.write_bytes x e = e ++ Bytes_encode x.
Proof.
  intros Hx. rewrite Bytes_encode_prefix. pose proof (zlen_nonneg x).
  assert (NodeEncoder.write_raw x (NodeEncoder.write_len 0x80 0xb7 (zlen x) e) =
          e ++ item_prefix 0x80 0xb7 (zlen x) ++ x) as Hw.
  { unfold NodeEncoder.write_raw. by rewrite write_len_spec, app_assoc by lia. }
  unfold NodeEncoder.write_bytes. destruct x as [|a [|b x]]; cbn [hd]; [done| |].
  - change (zlen [a]) with 1 in *. cbn [Z.eqb Pos.eqb andb]. by destruct (a <? 128).
  - assert ((zlen (a :: b :: x) =? 1) = false) as ->; [|done]. rewrite !zlen_cons in *.
    pose proof (zlen_nonneg x). lia.
Qed.
Lemma bytes_len_spec x :
  zlen x < 2 ^ 63 → NodeEncoder.bytes_len (zlen x) (hd 0 x) = zlen (Bytes_encode x).
Proof.
  intros Hx. pose proof (zlen_nonneg x). rewrite Bytes_encode_prefix. unfold NodeEncoder.bytes_len, item_prefix.
  destruct ((zlen x =? 1) && (hd 0 x <? 128)); [done|].
  destruct (zlen x <? 56) eqn:E; bool_prop; zlen_simpl; [lia|]. rewrite byte_usage_trim by lia. zlen_simpl. lia.
Qed.

Lemma pack_zlen l : zlen (pack l) = zlen l / 2.
Proof.
  induction l as [l IH] using (induction_ltof1 _ length). unfold ltof in IH.
  destruct l as [|a [|b l]]; [done..|]. cbn [pack]. rewrite !zlen_cons, IH by (cbn; lia). divlia.
Qed.
Lemma hex_prefix_zlen p leaf : zlen (hex_prefix p leaf) = zlen p / 2 + 1.
Proof.
  unfold hex_prefix. destruct p as [|a p]; [done|]. destruct (odd (zlen (a :: p))) eqn:E.
  - rewrite !zlen_cons, pack_zlen. rewrite odd_zlen_cons in E. destruct (odd_spec (zlen p)) as [[Ho _]|[_ He]].
    + by rewrite Ho in E.
    + rewrite He. divlia.
  - rewrite zlen_cons, pack_zlen. lia.
Qed.

Lemma pack_pairs l : Forall is_nibble l → NodeEncoder.write_pairs l = pack l.
Proof.
  induction l as [l IH] using (induction_ltof1 _ length). unfold ltof in IH.
  destruct l as [|a [|b l]]; intros Hl; [done..|]. rewrite !Forall_cons in Hl. destruct Hl as (Ha & Hb & Hl).
  cbn [NodeEncoder.write_pairs pack]. rewrite IH by (done || (cbn; lia)). f_equal.
  rewrite Z.lor_comm. by apply lor_halves.
Qed.

Definition kind_leaf (k : PathKind) : bool := match k with PathLeaf => true | PathExtension => false end.

Lemma flag_odd k n :
  is_nibble n → Z.lor (Z.lor (into_flag k) 0x10) n = 16 * ((if kind_leaf k then 2 else 0) + 1) + n.
Proof.
  intros Hn. apply Z.eqb_eq. revert n Hn.
  apply (all_below 16 (λ n, Z.lor (Z.lor (into_flag k) 0x10) n =? 16 * ((if kind_leaf k then 2 else 0) + 1) + n)).
  by destruct k; vm_compute.
Qed.

(** The first byte of a path and the bytes after it, as [write_path] computes them. *)
Definition path_flag (p : list Z) (k : PathKind) : Z * list Z :=
  match p with
  | n :: r => if zlen p mod 2 =? 1 then (Z.lor (Z.lor (into_flag k) 0x10) n, r) else (into_flag k, p)
  | [] => (into_flag k, p)
  end.
Lemma path_flag_spec p k :
  Forall is_nibble p →
  hex_prefix p (kind_leaf k) = (path_flag p k).1 :: NodeEncoder.write_pairs (path_flag p k).2 ∧
  (path_flag p k).1 < 128.
Proof.
  intros Hp. unfold path_flag, hex_prefix.
  assert ((zlen p mod 2 =? 1) = odd (zlen p)) as -> by (rewrite <-b2z_odd; by destruct (odd (zlen p))).
  destruct p as [|a p]; [by destruct k|]. pose proof Hp as [Ha Hp']%Forall_cons.
  destruct (odd (zlen (a :: p))); cbn [fst snd]; rewrite pack_pairs by done.
  - rewrite flag_odd by done. split; [done|]. unfold is_nibble in Ha. destruct k; cbn; lia.
  - by destruct k.
Qed.
Lemma write_path_spec p k e :
  Forall is_nibble p → zlen p < 2 ^ 63 →
  NodeEncoder.write_path p k e = e ++ Bytes_encode (hex_prefix p (kind_leaf k)).
Proof.
  intros Hp Hl. pose proof (zlen_nonneg p). destruct (path_flag_spec p k Hp) as [Hhp Hf].
  pose proof (hex_prefix_zlen p (kind_leaf k)) as Hz. rewrite Bytes_encode_prefix, Hz.
  unfold NodeEncoder.write_path. fold (path_flag p k).
  destruct (path_flag p k) as [f r]. cbn [fst snd] in *. rewrite Hhp in *. cbn [hd].
  unfold NodeEncoder.write_raw. destruct (1 <? zlen p) eqn:E; bool_prop.
  - rewrite write_len_spec by divlia. assert ((zlen p / 2 + 1 =? 1) = false) as -> by divlia.
    cbn [andb]. by rewrite <-!app_assoc.
  - assert (zlen p / 2 = 0) as Hh by divlia. rewrite Hh in *. decide_bools. cbn [andb].
    rewrite zlen_cons in Hz. rewrite (nil_length_inv (NodeEncoder.write_pairs r)); [by rewrite app_nil_r|].
    unfold zlen in Hz. lia.
Qed.
Lemma path_len_spec p leaf :
  Forall is_nibble p → zlen p < 2 ^ 63 →
  NodeEncoder.path_len (zlen p) = zlen (Bytes_encode (hex_prefix p leaf)).
Proof.
  intros Hp Hl. pose proof (zlen_nonneg p).
  assert (∃ k, leaf = kind_leaf k) as [k ->] by (by destruct leaf; [exists PathLeaf|exists PathExtension]).
  destruct (path_flag_spec p k Hp) as [Hhp Hf]. rewrite <-bytes_len_spec by (rewrite hex_prefix_zlen; divlia). rewrite hex_prefix_zlen.
  unfold NodeEncoder.path_len, NodeEncoder.bytes_len. rewrite Hhp. cbn [hd]. by decide_bools.
Qed.

(** ** Nodes *)
Lemma write_header_spec n e : 0 <= n < 2 ^ 64 → NodeEncoder.write_list_header n e = e ++ encode_length n.
Proof. intros Hn. by apply write_len_spec. Qed.

Lemma zlen_Bytes_encode `{Profile} x :
  zlen x <= isize_max → 0 < zlen (Bytes_encode x) <= zlen x + 9.
Proof.
  intros Hx. pose proof (zlen_nonneg x). rewrite Bytes_encode_prefix.
  pose proof (zlen_item_prefix 0x80 0xb7 (zlen x) ltac:(lia)).
  destruct (_ && _) eqn:E; bool_prop; zlen_simpl; lia.
Qed.

(** The two items of a leaf or an extension; [i] is the second one. *)
Lemma pair_encoding `{Profile} p k i :
  Forall is_nibble p → zlen p < 2 ^ 62 → zlen i < 2 ^ 62 →
  NodeEncoder.write_path p k
    (NodeEncoder.write_list_header (NodeEncoder.path_len (zlen p) + zlen i) NodeEncoder.new) ++ i
  = struct_rlp [Bytes_encode (hex_prefix p (kind_leaf k)); i].
Proof.
  intros Hp Hl Hi. pose proof (zlen_nonneg i). pose proof (zlen_nonneg p).
  rewrite (path_len_spec p (kind_leaf k)) by (done || lia).
  pose proof (hex_prefix_zlen p (kind_leaf k)) as Hz.
  assert (zlen (hex_prefix p (kind_leaf k)) <= zlen p + 1) by divlia.
  destruct (zlen_Bytes_encode (hex_prefix p (kind_leaf k))); [unfold isize_max; lia|].
  rewrite write_header_spec by lia. rewrite write_path_spec by (done || lia).
  unfold struct_rlp. cbn [concat]. by rewrite app_nil_r, zlen_app, <-!app_assoc.
Qed.

Lemma leaf_encoding `{Profile} path value o :
  bytes_ok path → 0 <= o <= 2 * zlen path → zlen path < 2 ^ 60 → zlen value < 2 ^ 60 →
  LeafNode.encode_raw (LeafNode.mk path value) o = Ok (enc (DLeaf (zdrop o (nibs path)) value)).
Proof.
  intros Hp Ho Hl Hv. pose proof (zlen_nonneg value).
  set (s := NibbleSlice.mk path o). assert (wf_slice s) as Hs by (by split).
  change (zdrop o (nibs path)) with (rest s). pose proof (zlen_rest s Hs) as Hr. cbn in Hr.
  unfold LeafNode.encode_raw. cbn [LeafNode.path LeafNode.value].
  change (NibbleSlice.offset_add (NibbleSlice.new path) o) with s. unfold NibbleSlice.len.
  cbn [NibbleSlice.data NibbleSlice.offset s]. rewrite usub_ok, bind_Ok_l by lia. f_equal.
  unfold NodeEncoder.write_path_slice, NodeEncoder.finalize. rewrite collect_spec by done.
  destruct (zlen_Bytes_encode value); [unfold isize_max; lia|].
  rewrite write_bytes_spec, bytes_len_spec by lia. rewrite <-Hr. cbn [enc].
  apply pair_encoding; [by apply rest_nibbles|lia..].
Qed.

Lemma nibbles_ok v : bytes_ok (NibbleVec.data v) → Forall is_nibble (nibbles v).
Proof. intros Hv. unfold nibbles, window, ztake, zdrop. by apply Forall_take, Forall_drop, nibs_nibbles. Qed.
Lemma hashed_item x :
  is_array 32 x → node_item (NodeHash.Hashed x) = Bytes_encode x ∧ NodeEncoder.bytes_len 32 (hd 0 x) = zlen (Bytes_encode x).
Proof. intros [_ Hx]. split; [done|]. rewrite <-bytes_len_spec; rewrite Hx; [done|lia]. Qed.

(** An extension refers to a node, never to none. *)
Lemma extension_encoding `{Profile} p h :
  wf_vec p → vec_len p < 2 ^ 60 → wf_ref h → NodeHash.is_valid h = true → zlen (node_item h) < 2 ^ 62 →
  ExtensionNode.encode_raw (ExtensionNode.mk p h) = Ok (enc (DExt (nibbles p) h)).
Proof.
  intros Hp Hl Hh Hv Hi. unfold ExtensionNode.encode_raw. cbn [ExtensionNode.prefix ExtensionNode.child].
  pose proof (b2z_range (NibbleVec.first_is_half p)). pose proof (b2z_range (NibbleVec.last_is_half p)).
  rewrite len_spec, bind_Ok_l by (done || unfold vec_len in Hl; lia). f_equal.
  unfold NodeEncoder.write_path_vec, NodeEncoder.finalize. rewrite iter_spec by done.
  rewrite <-zlen_nibbles in * by done. cbn [enc].
  assert (Forall is_nibble (nibbles p)) by (by apply nibbles_ok, vec_bytes).
  destruct h as [x|x].
  - destruct (hashed_item x Hh) as [_ ->]. rewrite write_bytes_spec by (destruct Hh as [_ ->]; lia).
    apply pair_encoding; done || lia.
  - unfold NodeEncoder.write_raw. destruct x as [|b x]; [done|]. cbn [node_item] in *.
    apply pair_encoding; done || lia.
Qed.

(** What the trie makes of an inline reference is shorter than a hash. *)
Definition short_ref (h : NodeHash.t) : Prop :=
  match h with NodeHash.Hashed _ => True | NodeHash.Inline x => zlen x < 32 end.

Lemma choice_encoding h e :
  wf_ref h → short_ref h →
  BranchNode.child_len (BranchNode.hash_choice h) = zlen (node_item h) ∧
  BranchNode.write_child (BranchNode.hash_choice h) e = e ++ node_item h.
Proof.
  intros Hw Hs. unfold BranchNode.hash_choice. destruct h as [x|[|b x]]; cbn [NodeHash.is_valid].
  - destruct (hashed_item x Hw) as [-> Hl]. cbn. split; [done|]. apply write_bytes_spec.
    destruct Hw as [_ ->]. lia.
  - split; [done|by apply write_bytes_spec].
  - cbn in Hs. unfold BranchNode.child_len, BranchNode.write_child. pose proof (zlen_nonneg x).
    rewrite zlen_cons in *. decide_bools. cbn [node_item]. by rewrite zlen_cons.
Qed.
Lemma choices_len hs :
  Forall wf_ref hs → Forall short_ref hs →
  foldr Z.add 0 (map BranchNode.child_len (map BranchNode.hash_choice hs)) = zlen (concat (map node_item hs)).
Proof.
  induction 1 as [|h hs Hh Hw IH]; [done|]. intros [Hs Hss]%Forall_cons. cbn [map foldr concat].
  by rewrite IH, zlen_app, (proj1 (choice_encoding h [] Hh Hs)) by done.
Qed.
Lemma choices_encoding hs : ∀ e,
  Forall wf_ref hs → Forall short_ref hs →
  foldl (λ e c, BranchNode.write_child c e) e (map BranchNode.hash_choice hs) = e ++ concat (map node_item hs).
Proof.
  induction hs as [|h hs IH]; intros e; [by rewrite app_nil_r|].
  intros [Hh Hw]%Forall_cons [Hs Hss]%Forall_cons. cbn [map foldl concat].
  by rewrite IH, (proj2 (choice_encoding h e Hh Hs)), app_assoc by done.
Qed.
Lemma node_item_short h : wf_ref h → short_ref h → zlen (node_item h) < 34.
Proof.
  destruct h as [x|[|b x]]; cbn [wf_ref short_ref node_item]; [|done|lia]. intros [_ Hx] _.
  unfold Bytes_encode, bytes_encode. rewrite Hx. cbn. rewrite zlen_cons. lia.
Qed.
Lemma items_short hs :
  Forall wf_ref hs → Forall short_ref hs → zlen (concat (map node_item hs)) <= 34 * zlen hs.
Proof.
  induction 1 as [|h hs Hh Hw IH]; [done|]. intros [Hs Hss]%Forall_cons. cbn [map concat].
  rewrite zlen_app, zlen_cons. pose proof (node_item_short h Hh Hs). specialize (IH Hss). lia.
Qed.
(** A branch without a value. *)
Lemma branch_encoding hs :
  length hs = 16%nat → Forall wf_ref hs → Forall short_ref hs →
  BranchNode.encode_raw (BranchNode.new hs) = enc (DBranch hs).
Proof.
  intros Hl Hw Hs. unfold BranchNode.encode_raw. cbn [BranchNode.choices BranchNode.value BranchNode.new].
  rewrite choices_len, choices_encoding by done. unfold NodeEncoder.finalize.
  pose proof (items_short hs Hw Hs) as Hi. pose proof (zlen_nonneg (concat (map node_item hs))).
  assert (zlen hs = 16) as Hz by (unfold zlen; by rewrite Hl).
  rewrite write_bytes_spec, write_header_spec by (rewrite ?zlen_nil; lia).
  unfold enc, struct_rlp. rewrite concat_app, zlen_app, <-app_assoc. by rewrite !app_assoc.
Qed.

(** ** Encodings are bytes *)
Lemma bytes_item_prefix `{Profile} short long len :
  0 <= len <= isize_max → 0 <= short <= 0xc0 → 0 <= long <= 0xf7 → bytes_ok (item_prefix short long len).
Proof.
  unfold item_prefix, isize_max. intros Hlen Hs Hl. destruct (len <? 56) eqn:E; bool_prop.
  - apply Forall_singleton. unfold is_byte. lia.
  - destruct (be_trim_spec 8 len) as (d & t & -> & _ & Hb & _ & Hz); [lia|].
    constructor; [unfold is_byte; lia|done].
Qed.
Lemma bytes_Bytes_encode `{Profile} x : bytes_ok x → zlen x <= isize_max → bytes_ok (Bytes_encode x).
Proof.
  intros Hb Hx. rewrite Bytes_encode_prefix. pose proof (zlen_nonneg x).
  destruct (_ && _) eqn:E; bool_prop.
  - destruct x as [|a x]; [done|]. apply Forall_cons in Hb as [Ha _]. by apply Forall_singleton.
  - apply Forall_app_2; [apply bytes_item_prefix; lia|done].
Qed.
Lemma bytes_concat (l : list (list Z)) : Forall (Forall is_byte) l → bytes_ok (concat l).
Proof. induction 1; [constructor|]. by apply Forall_app_2. Qed.
Lemma bytes_struct_rlp `{Profile} l :
  Forall (Forall is_byte) l → zlen (concat l) <= isize_max → bytes_ok (struct_rlp l).
Proof.
  intros Hl Hz. pose proof (zlen_nonneg (concat l)). unfold struct_rlp. rewrite encode_length_prefix.
  apply Forall_app_2; [apply bytes_item_prefix; lia|by apply bytes_concat].
Qed.
Lemma bytes_node_item `{Profile} h : bytes_ok (NodeHash.to_vec h) → zlen (NodeHash.to_vec h) <= isize_max → bytes_ok (node_item h).
Proof.
  intros Hb Hl. destruct h as [x|[|b x]]; cbn [node_item NodeHash.to_vec] in *; [by apply bytes_Bytes_encode| |done].
  by apply bytes_Bytes_encode.
Qed.
Definition desc_refs (d : desc) : list NodeHash.t :=
  match d with DLeaf _ _ => [] | DExt _ h => [h] | DBranch hs => hs end.
Lemma bytes_enc `{Profile} d :
  wf_desc d → Forall (λ h, bytes_ok (NodeHash.to_vec h) ∧ zlen (NodeHash.to_vec h) <= 32) (desc_refs d) → bytes_ok (enc d).
Proof.
  intros [Hmax Hd] Hr. pose proof (struct_rlp_bound _ Hmax) as Hb. unfold enc. apply bytes_struct_rlp; [|done].
  assert (∀ x l, zlen (concat (Bytes_encode x :: l)) <= isize_max → bytes_ok x → bytes_ok (Bytes_encode x)) as Hx.
  { intros x l Hl Hx. cbn [concat] in Hl. rewrite zlen_app in Hl. pose proof (zlen_nonneg (concat l)).
    apply bytes_Bytes_encode; [done|]. rewrite Bytes_encode_prefix in Hl. destruct (_ && _) eqn:E; bool_prop.
    - unfold isize_max. lia.
    - rewrite zlen_app in Hl. pose proof (zlen_nonneg (item_prefix 0x80 0xb7 (zlen x))). lia. }
  assert (∀ h, bytes_ok (NodeHash.to_vec h) ∧ zlen (NodeHash.to_vec h) <= 32 → bytes_ok (node_item h)) as Hh.
  { intros h [? ?]. apply bytes_node_item; [done|unfold isize_max; lia]. }
  destruct d as [p v|p h|hs]; cbn [desc_refs] in Hr.
  - destruct Hd as [Hp Hv]. pose proof Hb as Hb2. rewrite concat_cons, zlen_app in Hb2. pose proof (zlen_nonneg (Bytes_encode (hex_prefix p true))).
    repeat constructor; [by eapply Hx, hex_prefix_bytes|]. eapply (Hx v []); [lia|done].
  - destruct Hd as [Hp Hv]. apply Forall_cons in Hr as [Hr _]. repeat constructor; [by eapply Hx, hex_prefix_bytes|by apply Hh].
  - apply Forall_app. split; [|repeat constructor; done]. apply Forall_map. eapply Forall_impl; [exact Hr|exact Hh].
Qed.

(** [encode_raw] writes, for a leaf, an extension and a branch without a value, the
    RLP list of the yellow paper: the hex-prefix encoding of the path that is left and
    the value; of the prefix and the reference to the child; the sixteen references and
    an empty string.  The lengths that it computes in advance are right, and it does not
    panic. *)
Theorem node_encodings `{Profile} :
  (∀ path value o,
    bytes_ok path → 0 <= o <= 2 * zlen path → zlen path < 2 ^ 60 → zlen value < 2 ^ 60 →
    LeafNode.encode_raw (LeafNode.mk path value) o =
      Ok (struct_rlp [Bytes_encode (hex_prefix (zdrop o (nibs path)) true); Bytes_encode value])) ∧
  (∀ p h,
    wf_vec p → vec_len p < 2 ^ 60 → wf_ref h → NodeHash.is_valid h = true → zlen (node_item h) < 2 ^ 62 →
    ExtensionNode.encode_raw (ExtensionNode.mk p h) =
      Ok (struct_rlp [Bytes_encode (hex_prefix (NibbleVec.iter p) false); node_item h])) ∧
  (∀ hs,
    length hs = 16%nat → Forall wf_ref hs → Forall short_ref hs →
    BranchNode.encode_raw (BranchNode.new hs) = struct_rlp (map node_item hs ++ [Bytes_encode []])).
Proof.
  split_and!.
  - intros. by apply leaf_encoding.
  - intros. rewrite iter_spec by done. by apply extension_encoding.
  - intros. by apply branch_encoding.
Qed.
