(* ===== verification/TrieRoot.v ===== *)
(** * The root of a map

    The function of appendix D of the yellow paper that encodes the root node of a
    finite map whose keys have one length, and the hash of the root.  A map is
    determined by the reference to its root node, as long as the hash function has no
    collision among the nodes in question. *)

From S2P Require Import Prelude Rlp RlpLaws U256 Codec Nibble NibbleLaws TrieNode TrieSpec TrieEncoding.

(** ** Common prefixes *)
Fixpoint common (ks : list (list Z)) : list Z :=
  match ks with
  | [] => []
  | [k] => k
  | k :: ks => lcp k (common ks)
  end.

Lemma lcp_greatest q l k : q `prefix_of` l → q `prefix_of` k → q `prefix_of` lcp l k.
Proof. intros [l' ->] [k' ->]. rewrite lcp_app. by eexists. Qed.
Lemma common_prefix ks k : k ∈ ks → common ks `prefix_of` k.
Proof.
  induction ks as [|a [|b ks] IH]; [by intros ?%not_elem_of_nil|by intros ->%list_elem_of_singleton|].
  change (common (a :: b :: ks)) with (lcp a (common (b :: ks))).
  intros [->|Hk]%elem_of_cons; [apply lcp_prefix_l|]. etrans; [apply lcp_prefix_r|auto].
Qed.
Lemma common_greatest q ks : ks ≠ [] → (∀ k, k ∈ ks → q `prefix_of` k) → q `prefix_of` common ks.
Proof.
  induction ks as [|a [|b ks] IH]; [done|intros _ Hq; apply Hq; constructor|]. intros _ Hq.
  change (common (a :: b :: ks)) with (lcp a (common (b :: ks))).
  apply lcp_greatest; [apply Hq; constructor|]. apply IH; [done|]. intros k Hk. apply Hq. by constructor.
Qed.

(** ** Kinds of maps *)
Lemma singleton_not_branching k v : ¬ branching {[k := v]}.
Proof.
  intros (i & j & Hij & (a & x & Ha)%sub_nonempty_inv & (b & y & Hb)%sub_nonempty_inv).
  apply lookup_singleton_Some in Ha as [Ha _], Hb as [Hb _]. by simplify_eq/=.
Qed.
Lemma push_keys p m k v : push p m !! k = Some v → ∃ k', k = p ++ k' ∧ m !! k' = Some v.
Proof.
  destruct (decide (p `prefix_of` k)) as [[k' ->]|Hp]; [rewrite push_lookup; eauto|].
  by rewrite push_lookup_ne.
Qed.
Lemma push_not_branching p m : p ≠ [] → ¬ branching (push p m).
Proof.
  destruct p as [|a p]; [done|]. intros _ (i & j & Hij & (k & x & Hk)%sub_nonempty_inv & (k' & y & Hk')%sub_nonempty_inv).
  apply push_keys in Hk as (? & [= <- _] & _). apply push_keys in Hk' as (? & [= <- _] & _). done.
Qed.
Lemma push_not_singleton p m k v : branching m → push p m ≠ {[k := v]}.
Proof.
  intros (i & j & Hij & (a & x & Ha)%sub_nonempty_inv & (b & y & Hb)%sub_nonempty_inv) He.
  rewrite <-(push_lookup p), He in Ha, Hb. apply lookup_singleton_Some in Ha as [-> _], Hb as [Hb _].
  apply app_inv_head in Hb. by simplify_eq/=.
Qed.
Lemma push_nil m : push [] m = m.
Proof. by rewrite <-(sub_nil (push [] m)), sub_push. Qed.
Lemma push_ne p m : m ≠ ∅ → push p m ≠ ∅.
Proof. intros Hm He. apply Hm. by rewrite <-(sub_push p m), He, sub_empty. Qed.
(** A map whose keys start with [p]. *)
Lemma push_sub p m : (∀ k v, m !! k = Some v → p `prefix_of` k) → push p (sub p m) = m.
Proof.
  intros Hp. apply map_eq. intros k. destruct (decide (p `prefix_of` k)) as [[k' ->]|Hne].
  - by rewrite push_lookup, sub_lookup.
  - rewrite push_lookup_ne by done. destruct (m !! k) eqn:E; [|done]. by apply Hp in E.
Qed.
Lemma push_branching_inj p q m n : branching m → branching n → push p m = push q n → p = q ∧ m = n.
Proof.
  revert q. induction p as [|a p IH]; intros [|b q] Hm Hn He.
  - by rewrite !push_nil in He.
  - rewrite push_nil in He. subst m. by apply push_not_branching in Hm.
  - rewrite push_nil in He. subst n. by apply push_not_branching in Hn.
  - pose proof He as He'. change (a :: p) with ([a] ++ p) in He. change (b :: q) with ([b] ++ q) in He.
    rewrite <-!push_app in He.
    assert (a = b) as ->.
    { destruct (map_choose (push (a :: p) m)) as (k & v & Hk); [by apply push_ne, branching_ne|].
      pose proof Hk as Hk2. rewrite He' in Hk2.
      apply push_keys in Hk as (? & -> & _). apply push_keys in Hk2 as (? & [= -> _] & _). done. }
    apply (f_equal (sub [b])) in He. rewrite !sub_push in He. destruct (IH q Hm Hn He) as [-> ->]. done.
Qed.

Lemma map_by_halves r r' m m' :
  0 < r → 0 < r' → keys_ok r m → keys_ok r' m' → (∀ i, is_nibble i → sub [i] m = sub [i] m') → m = m'.
Proof.
  intros Hr Hr' Hm Hm' Hs. apply map_eq. intros k. destruct k as [|i k].
  - assert (∀ r m, 0 < r → keys_ok r m → m !! [] = None) as Hn; [|by rewrite (Hn r m), (Hn r' m')].
    intros q n Hq Hn. destruct (n !! []) eqn:E; [|done]. apply Hn in E as (E & _). rewrite zlen_nil in E. lia.
  - destruct (decide (is_nibble i)) as [Hi|Hi]; [|].
    { change (i :: k) with ([i] ++ k). by rewrite <-!sub_lookup, Hs. }
    assert (∀ r m, keys_ok r m → m !! (i :: k) = None) as Hn; [|by rewrite (Hn r m), (Hn r' m')].
    intros q n Hn. destruct (n !! (i :: k)) eqn:E; [|done]. apply Hn in E as (_ & [Hi' _]%Forall_cons & _). done.
Qed.
Lemma keys_ok_pos r m : keys_ok r m → m ≠ ∅ → (∀ k v, m ≠ {[k := v]}) → 0 < r.
Proof.
  intros Hk Hm Hs. destruct (map_choose m Hm) as (k & v & Hkv). destruct (Hk _ _ Hkv) as (Hl & _).
  pose proof (zlen_nonneg k). destruct (decide (r = 0)) as [->|]; [exfalso|lia].
  assert (∀ k v, m !! k = Some v → k = []) as Hnil.
  { intros k' v' Hk'. destruct (Hk _ _ Hk') as (E & _). apply nil_length_inv. unfold zlen in E. lia. }
  apply (Hs [] v). apply map_eq. intros k'. destruct (decide (k' = [])) as [->|Hne].
  - rewrite lookup_singleton_eq. by rewrite <-(Hnil _ _ Hkv).
  - rewrite lookup_singleton_ne by done. destruct (m !! k') eqn:E; [|done]. by apply Hnil in E.
Qed.
Lemma keys_ok_sub' p r m : keys_ok r m → sub p m ≠ ∅ → 0 <= r - zlen p.
Proof.
  intros Hk (k & v & Hkv)%sub_nonempty_inv. destruct (Hk _ _ Hkv) as (Hl & _). rewrite zlen_app in Hl.
  pose proof (zlen_nonneg k). lia.
Qed.

(** ** The root node *)
Inductive kind :=
  | KLeaf (k v : list Z)
  | KExt (p : list Z)
  | KBranch.

Section Root.
Variable keccak256 : list Z → list Z.

(** The sixteen references of a branch. *)
Definition choices (href : pmap → NodeHash.t) (m : pmap) : list NodeHash.t :=
  map (λ i, if decide (sub [i] m = ∅) then NodeHash.default else href (sub [i] m)) (seqZ 0 16).
(** A single entry is a leaf, a common prefix makes an extension. *)
Definition kind_of (m : pmap) : kind :=
  match map_to_list m with
  | [(k, v)] => KLeaf k v
  | l => if decide (common l.*1 = []) then KBranch else KExt (common l.*1)
  end.
(** The node of a map, given the references to the nodes of smaller maps. *)
Definition node_of (href : pmap → NodeHash.t) (m : pmap) : desc :=
  match kind_of m with
  | KLeaf k v => DLeaf k v
  | KExt p => DExt p (href (sub p m))
  | KBranch => DBranch (choices href m)
  end.
Fixpoint node_rlp (fuel : nat) (m : pmap) : list Z :=
  match fuel with
  | O => []
  | S fuel => enc (node_of (λ m, NodeHash.from_encoded_raw keccak256 (node_rlp fuel m)) m)
  end.
(** Every step shortens the keys. *)
Definition depth (m : pmap) : nat := S (max_list (length <$> (map_to_list m).*1)).
Definition root_rlp (m : pmap) : list Z := node_rlp (depth m) m.
Definition href (m : pmap) : NodeHash.t := NodeHash.from_encoded_raw keccak256 (root_rlp m).
Definition map_root (m : pmap) : list Z :=
  keccak256 (if decide (m = ∅) then Bytes_encode [] else root_rlp m).

Lemma choices_length h m : length (choices h m) = 16%nat.
Proof. unfold choices. by rewrite length_map, length_seqZ. Qed.
Lemma choices_lookup h m i :
  is_nibble i → choices h m !! Z.to_nat i = Some (if decide (sub [i] m = ∅) then NodeHash.default else h (sub [i] m)).
Proof.
  intros Hi. unfold choices. rewrite list_lookup_fmap. unfold is_nibble in Hi.
  rewrite (proj2 (lookup_seqZ 0 16 (Z.to_nat i) i)) by lia. done.
Qed.
Lemma kind_singleton k v : kind_of {[k := v]} = KLeaf k v.
Proof. unfold kind_of. by rewrite map_to_list_singleton. Qed.
Lemma kind_many m :
  (∀ k v, m ≠ {[k := v]}) →
  kind_of m = if decide (common (map_to_list m).*1 = []) then KBranch else KExt (common (map_to_list m).*1).
Proof.
  intros Hm. unfold kind_of. destruct (map_to_list m) as [|[k v] [|? ?]] eqn:E; [done| |done].
  destruct (Hm k v). rewrite <-(list_to_map_to_list m), E. done.
Qed.
Lemma elem_of_keys (m : pmap) k : k ∈ (map_to_list m).*1 ↔ ∃ v, m !! k = Some v.
Proof.
  rewrite list_elem_of_fmap. split.
  - intros ([k' v] & -> & Hk). exists v. by apply elem_of_map_to_list.
  - intros [v Hv]. exists (k, v). by rewrite elem_of_map_to_list.
Qed.
Lemma keys_ne (m : pmap) : m ≠ ∅ → (map_to_list m).*1 ≠ [].
Proof. intros Hm He. by apply fmap_nil_inv, map_to_list_empty_iff in He. Qed.
Lemma common_push p m : branching m → common (map_to_list (push p m)).*1 = p.
Proof.
  intros Hm. pose proof (branching_ne m Hm) as Hne. set (c := common _).
  assert (p `prefix_of` c) as [t Hc].
  { apply common_greatest; [by apply keys_ne, push_ne|]. intros k (v & Hk)%elem_of_keys.
    apply push_keys in Hk as (k' & -> & _). by eexists. }
  destruct t as [|a t]; [by rewrite Hc, app_nil_r|]. exfalso.
  assert (∀ k v, m !! k = Some v → ∃ k', k = a :: k') as Ha.
  { intros k v Hk. destruct (common_prefix (map_to_list (push p m)).*1 (p ++ k)) as [u Hu].
    { apply elem_of_keys. exists v. by rewrite push_lookup. }
    fold c in Hu. rewrite Hc, <-app_assoc in Hu. apply app_inv_head in Hu as ->. by eexists. }
  destruct Hm as (i & j & Hij & (k & x & Hk)%sub_nonempty_inv & (k' & y & Hk')%sub_nonempty_inv).
  apply Ha in Hk as [? [= <- _]], Hk' as [? [= <- _]]. done.
Qed.
Lemma kind_branch m : branching m → kind_of m = KBranch.
Proof.
  intros Hm. rewrite kind_many by (intros k v ->; by apply singleton_not_branching in Hm).
  pose proof (common_push [] m Hm) as Hc. rewrite push_nil in Hc. by rewrite Hc.
Qed.
Lemma kind_ext p m : p ≠ [] → branching m → kind_of (push p m) = KExt p.
Proof.
  intros Hp Hm. rewrite kind_many.
  - rewrite common_push by done. by rewrite decide_False.
  - intros k v. by apply push_not_singleton.
Qed.
(** What the kind says of the map. *)
Lemma kind_spec m :
  m ≠ ∅ →
  match kind_of m with
  | KLeaf k v => m = {[k := v]}
  | KExt p => p ≠ [] ∧ m = push p (sub p m)
  | KBranch => ∀ k v, m ≠ {[k := v]}
  end.
Proof.
  intros Hm. unfold kind_of.
  assert (∀ k v, m = {[k := v]} → map_to_list m = [(k, v)]) as Hs by (intros k v ->; apply map_to_list_singleton).
  assert (m = push (common (map_to_list m).*1) (sub (common (map_to_list m).*1) m)) as Hp.
  { symmetry. apply push_sub. intros k v Hk. apply common_prefix, elem_of_keys. eauto. }
  destruct (map_to_list m) as [|[k v] [|kv l]] eqn:E.
  - by apply map_to_list_empty_iff in E.
  - by rewrite <-(list_to_map_to_list m), E.
  - destruct (decide _) as [He|He]; [|done]. intros k' v' Hk'. by apply Hs in Hk'.
Qed.
Lemma sub_push_ne p m : m = push p (sub p m) → m ≠ ∅ → sub p m ≠ ∅.
Proof. intros He Hm Hs. apply Hm. rewrite He, Hs. apply kmap_empty. Qed.

Lemma node_of_agree h h' m :
  m ≠ ∅ → (∀ p, p ≠ [] → sub p m ≠ ∅ → h (sub p m) = h' (sub p m)) → node_of h m = node_of h' m.
Proof.
  intros Hm Hh. pose proof (kind_spec m Hm) as Hk. unfold node_of. destruct (kind_of m) as [k v|p|]; [done| |].
  - destruct Hk as [Hp He]. f_equal. apply Hh; [done|by apply sub_push_ne].
  - f_equal. apply map_ext. intros i. case_decide; [done|]. by apply Hh.
Qed.

(** The fuel does not matter once it exceeds the length of every key. *)
Definition shorter (f : nat) (m : pmap) : Prop := ∀ k v, m !! k = Some v → (length k < f)%nat.
Lemma shorter_sub p f m : p ≠ [] → shorter (S f) m → shorter f (sub p m).
Proof.
  intros Hp Hm k v. rewrite sub_lookup. intros Hk%Hm. rewrite length_app in Hk. destruct p; [done|]. cbn in Hk. lia.
Qed.
Lemma node_rlp_fuel f : ∀ f' m, m ≠ ∅ → shorter f m → shorter f' m → node_rlp f m = node_rlp f' m.
Proof.
  induction f as [|f IH]; intros f' m Hm Hf Hf'.
  { destruct (map_choose m Hm) as (k & v & Hk). apply Hf in Hk. lia. }
  destruct f' as [|f']; [destruct (map_choose m Hm) as (k & v & Hk); apply Hf' in Hk; lia|].
  assert (∀ p, p ≠ [] → sub p m ≠ ∅ → node_rlp f (sub p m) = node_rlp f' (sub p m)) as Hsub.
  { intros p Hp Hs. apply IH; [done|by apply shorter_sub..]. }
  cbn [node_rlp]. f_equal. apply node_of_agree; [done|]. intros p Hp Hs. cbn. by rewrite Hsub.
Qed.

Lemma shorter_depth m : shorter (depth m) m.
Proof.
  intros k v Hk. unfold depth. apply Nat.lt_succ_r, max_list_elem_of_le, list_elem_of_fmap.
  exists k. split; [done|]. apply elem_of_keys. eauto.
Qed.
(** The equation of the root node. *)
Lemma root_rlp_eq m : m ≠ ∅ → root_rlp m = enc (node_of href m).
Proof.
  intros Hm. unfold root_rlp at 1. unfold depth. cbn [node_rlp]. f_equal. apply node_of_agree; [done|].
  intros p Hp Hs. unfold href, root_rlp. f_equal.
  apply node_rlp_fuel; [done| |apply shorter_depth]. apply shorter_sub; [done|apply shorter_depth].
Qed.
Lemma root_rlp_leaf k v : root_rlp {[k := v]} = enc (DLeaf k v).
Proof. rewrite root_rlp_eq by apply map_non_empty_singleton. unfold node_of. by rewrite kind_singleton. Qed.
Lemma root_rlp_branch m : branching m → root_rlp m = enc (DBranch (choices href m)).
Proof. intros Hm. rewrite root_rlp_eq by (by apply branching_ne). unfold node_of. by rewrite kind_branch. Qed.
Lemma root_rlp_ext p m : p ≠ [] → branching m → root_rlp (push p m) = enc (DExt p (href m)).
Proof.
  intros Hp Hm. rewrite root_rlp_eq by (by apply push_ne, branching_ne). unfold node_of.
  by rewrite kind_ext, sub_push.
Qed.

(** ** References *)
#[local] Set Default Proof Using "Type*".
Hypothesis keccak_array : ∀ x, is_array 32 (keccak256 x).

Lemma enc_struct d : ∃ l, enc d = struct_rlp l.
Proof. by destruct d; eexists. Qed.
Lemma href_wf m : m ≠ ∅ → wf_ref (href m) ∧ short_ref (href m) ∧ NodeHash.is_valid (href m) = true.
Proof.
  intros Hm. unfold href, NodeHash.from_encoded_raw. rewrite root_rlp_eq by done.
  destruct (enc_struct (node_of href m)) as [l ->]. destruct (32 <=? _) eqn:E; bool_prop; cbn.
  - by split_and!.
  - split_and!; [right; by exists l|lia|]. by destruct (struct_rlp_head l) as (b & t & -> & _).
Qed.
Lemma choices_wf m :
  length (choices href m) = 16%nat ∧ Forall wf_ref (choices href m) ∧ Forall short_ref (choices href m).
Proof.
  unfold choices. split_and!; [by rewrite length_map, length_seqZ|..];
    apply Forall_map, Forall_true; intros i; (destruct (decide _) as [_|Hi]; [|destruct (href_wf _ Hi) as (? & ? & _); done]).
  - by left.
  - done.
Qed.

Lemma zlen_struct_rlp `{Profile} l : zlen (concat l) <= isize_max → zlen (struct_rlp l) <= zlen (concat l) + 9.
Proof.
  intros Hl. pose proof (zlen_nonneg (concat l)). unfold struct_rlp. rewrite encode_length_prefix, zlen_app.
  pose proof (zlen_item_prefix 0xc0 0xf7 (zlen (concat l)) ltac:(lia)). lia.
Qed.
Lemma node_of_wf `{Profile} r m : m ≠ ∅ → keys_ok r m → r < 2 ^ 60 → wf_desc (node_of href m).
Proof.
  intros Hm Hk Hr. pose proof (kind_spec m Hm) as Hkind. unfold node_of, wf_desc.
  assert (∀ p leaf, zlen p < 2 ^ 60 → zlen (Bytes_encode (hex_prefix p leaf)) <= 2 ^ 60 + 10) as Hhp.
  { intros p leaf Hp. pose proof (hex_prefix_zlen p leaf). pose proof (zlen_nonneg p).
    destruct (zlen_Bytes_encode (hex_prefix p leaf)); [unfold isize_max|]; divlia. }
  assert (isize_max = 2 ^ 63 - 1) as Hmax by done.
  destruct (kind_of m) as [k v|p|].
  - subst m. destruct (Hk k v (lookup_singleton_eq k v)) as (Hl & Hn & Hv & Hvl). split; [|done]. unfold enc.
    specialize (Hhp k true ltac:(lia)). destruct (zlen_Bytes_encode v); [lia|].
    etrans; [apply zlen_struct_rlp|]; cbn [concat]; zlen_simpl; lia.
  - destruct Hkind as [Hp He]. pose proof (sub_push_ne p m He Hm) as Hs.
    destruct (href_wf _ Hs) as (Hw & Hsh & _). pose proof (node_item_short _ Hw Hsh).
    destruct (sub_nonempty_inv p m Hs) as (k & v & Hkv). destruct (Hk _ _ Hkv) as (Hl & Hn & _).
    apply Forall_app in Hn as [Hn _]. rewrite zlen_app in Hl. pose proof (zlen_nonneg k). split; [|done].
    specialize (Hhp p false ltac:(lia)). unfold enc.
    etrans; [apply zlen_struct_rlp|]; cbn [concat]; zlen_simpl; lia.
  - destruct (choices_wf m) as (Hl & Hw & Hs). split; [|done]. unfold enc. pose proof (items_short _ Hw Hs) as Hi.
    unfold zlen in Hi at 2. rewrite Hl in Hi.
    etrans; [apply zlen_struct_rlp|]; rewrite concat_app, zlen_app; change (zlen (concat [Bytes_encode []])) with 1; lia.
Qed.

(** Encodings and references are bytes. *)
Lemma href_bytes m :
  bytes_ok (root_rlp m) → bytes_ok (NodeHash.to_vec (href m)) ∧ zlen (NodeHash.to_vec (href m)) <= 32.
Proof.
  intros Hb. unfold href, NodeHash.from_encoded_raw. destruct (32 <=? _) eqn:E; bool_prop; cbn [NodeHash.to_vec].
  - destruct (keccak_array (root_rlp m)) as [Hk Hz]. split; [done|lia].
  - split; [done|lia].
Qed.
Lemma root_rlp_bytes `{Profile} (n : nat) : ∀ r m,
  r <= Z.of_nat n → r < 2 ^ 60 → keys_ok r m → m ≠ ∅ → bytes_ok (root_rlp m).
Proof.
  induction n as [n IH] using lt_wf_ind. intros r m Hr Hmax Hk Hm. rewrite root_rlp_eq by done.
  assert (∀ p, p ≠ [] → sub p m ≠ ∅ → bytes_ok (root_rlp (sub p m))) as Hsub.
  { intros p Hp Hs. pose proof (keys_ok_sub' p r m Hk Hs).
    assert (0 < zlen p) by (destruct p; [done|]; rewrite zlen_cons; pose proof (zlen_nonneg p); lia).
    apply (IH (Z.to_nat (r - zlen p)) ltac:(lia) (r - zlen p)); auto using keys_ok_sub; lia. }
  apply bytes_enc; [by eapply node_of_wf|]. pose proof (kind_spec m Hm) as Hs. unfold node_of.
  destruct (kind_of m) as [k v|p|]; cbn [desc_refs]; [constructor|..].
  - destruct Hs as [Hp He]. apply Forall_singleton, href_bytes, Hsub; [done|by apply sub_push_ne].
  - apply Forall_map, Forall_true. intros i. case_decide as Hi; [by split|]. by apply href_bytes, Hsub.
Qed.

(** ** The reference determines the map

    [U] is a set of encodings on which the hash function is injective. *)
Variable U : list Z → Prop.
Definition collision_free : Prop := ∀ x y, U x → U y → keccak256 x = keccak256 y → x = y.
(** The nodes of a map are in [U]. *)
Definition covered (m : pmap) : Prop := ∀ p, sub p m ≠ ∅ → U (root_rlp (sub p m)).

Lemma covered_sub p m : covered m → covered (sub p m).
Proof. intros Hm q. rewrite sub_sub. apply Hm. Qed.
Lemma covered_self m : covered m → m ≠ ∅ → U (root_rlp m).
Proof. intros Hm Hne. specialize (Hm []). rewrite sub_nil in Hm. auto. Qed.


Lemma href_inj `{Profile} (Hcf : collision_free) (n : nat) : ∀ r r' m m',
  r <= Z.of_nat n → r < 2 ^ 60 → r' < 2 ^ 60 → keys_ok r m → keys_ok r' m' → m ≠ ∅ → m' ≠ ∅ → covered m → covered m' →
  href m = href m' → m = m'.
Proof.
  induction n as [n IH] using lt_wf_ind. intros r r' m m' Hr Hmax Hmax' Hk Hk' Hm Hm' Hc Hc' He.
  assert (∀ p, p ≠ [] → sub p m ≠ ∅ → sub p m' ≠ ∅ → href (sub p m) = href (sub p m') → sub p m = sub p m') as Hsub.
  { intros p Hp Hs Hs' Hh. pose proof (keys_ok_sub' p r m Hk Hs).
    assert (0 < zlen p) by (destruct p; [done|]; rewrite zlen_cons; pose proof (zlen_nonneg p); lia).
    apply (IH (Z.to_nat (r - zlen p)) ltac:(lia) (r - zlen p) (r' - zlen p)); auto using covered_sub, keys_ok_sub; lia. }
  assert (root_rlp m = root_rlp m') as Hrlp.
  { unfold href, NodeHash.from_encoded_raw in He. do 2 destruct (32 <=? _); simplify_eq; [|done].
    by apply Hcf; [apply covered_self..|]. }
  rewrite !root_rlp_eq in Hrlp by done. apply enc_inj in Hrlp; [|by eapply node_of_wf..].
  pose proof (kind_spec m Hm) as Hs. pose proof (kind_spec m' Hm') as Hs'. unfold node_of in Hrlp.
  destruct (kind_of m) as [k v|p|], (kind_of m') as [k' v'|p'|]; try discriminate Hrlp.
  - injection Hrlp as -> ->. congruence.
  - injection Hrlp as <- Hh. destruct Hs as [Hp E], Hs' as [_ E']. rewrite E, E'. f_equal.
    apply Hsub; [done|by apply sub_push_ne..|done].
  - apply (map_by_halves r r'); [by eapply keys_ok_pos..|done|done|]. intros i Hi.
    assert (choices href m !! Z.to_nat i = choices href m' !! Z.to_nat i) as Hrlp' by congruence.
    clear Hrlp. rename Hrlp' into Hrlp. rewrite !choices_lookup in Hrlp by done. injection Hrlp as Hrlp.
    destruct (decide (sub [i] m = ∅)) as [E|E], (decide (sub [i] m' = ∅)) as [E'|E'].
    + congruence.
    + destruct (href_wf _ E') as (_ & _ & Hv). by rewrite <-Hrlp in Hv.
    + destruct (href_wf _ E) as (_ & _ & Hv). by rewrite Hrlp in Hv.
    + by apply Hsub.
Qed.
End Root.
