(* ===== verification/TrieLaws.v ===== *)
(** * The trie stores a map

    The nodes of a trie whose keys have one length represent a finite map; insertion
    and lookup are those of the map, and the hash of the root is the root of the yellow
    paper.  Nodes find each other by hash, so the theorems assume that the hash function
    has no collision among the nodes of the maps in question. *)

From S2P Require Import Prelude Rlp RlpLaws U256 Codec Effects Nibble NibbleLaws.
From S2P Require Import TrieNode Trie TrieSpec TrieEncoding TrieRoot.

(** ** Lists that part *)
Lemma lcp_split l k :
  zlen (lcp l k) < zlen l → zlen (lcp l k) < zlen k →
  ∃ a b l' k', a ≠ b ∧ l = lcp l k ++ a :: l' ∧ k = lcp l k ++ b :: k'.
Proof.
  intros Hl Hk. destruct (lcp_prefix_l l k) as [l' El], (lcp_prefix_r l k) as [k' Ek].
  destruct l' as [|a l']; [rewrite El in Hl at 2; rewrite app_nil_r in Hl; lia|].
  destruct k' as [|b k']; [rewrite Ek in Hk at 2; rewrite app_nil_r in Hk; lia|].
  exists a, b, l', k'. split_and!; [by eapply lcp_max|done..].
Qed.
Lemma lcp_short l k : ¬ k `prefix_of` l → zlen k <= zlen l → zlen (lcp l k) < zlen l ∧ zlen (lcp l k) < zlen k.
Proof.
  intros Hp Hl. assert (zlen (lcp l k) < zlen k); [|lia].
  destruct (lcp_prefix_r l k) as [k' Ek]. destruct k' as [|b k'].
  - rewrite app_nil_r in Ek. destruct Hp. rewrite Ek. apply lcp_prefix_l.
  - rewrite Ek at 2. rewrite zlen_app, zlen_cons. pose proof (zlen_nonneg k'). lia.
Qed.

(** ** Keys *)
Lemma keys_ok_insert r m k v :
  keys_ok r m → zlen k = r → Forall is_nibble k → bytes_ok v → zlen v < 2 ^ 60 → keys_ok r (<[k := v]> m).
Proof. intros Hm ????. by apply map_Forall_insert_2. Qed.
Lemma keys_ok_push r p m : keys_ok (r - zlen p) m → Forall is_nibble p → keys_ok r (push p m).
Proof.
  intros Hm Hp k v (k' & -> & Hk)%push_keys. destruct (Hm _ _ Hk) as (Hl & Hn & Hv).
  rewrite zlen_app, Forall_app. split_and!; [lia|tauto..].
Qed.
Lemma keys_ok_push_inv r p m : keys_ok r (push p m) → keys_ok (r - zlen p) m.
Proof. intros Hm%(keys_ok_sub p). by rewrite sub_push in Hm. Qed.

Section Laws.
Context `{Profile} {D : Type} `{TrieDB D}.
Variable keccak256 : list Z → list Z.
Hypothesis keccak_array : ∀ x, is_array 32 (keccak256 x).
Variable U : list Z → Prop.
Hypothesis no_collision : collision_free keccak256 U.
(** The length of the keys. *)
Variable L : Z.
Hypothesis L_range : 0 <= L < 2 ^ 59.
#[local] Set Default Proof Using "All".

Abbreviation href := (href keccak256).
Abbreviation covered := (covered keccak256 U).
Abbreviation M A := (stm (TrieState D) TrieError A).

(** ** What a node stands for

    [r] is the number of half-bytes of a key below the node. *)
Definition shape (r : Z) (n : Node.t) (m : pmap) : Prop :=
  keys_ok r m ∧ 0 <= r <= 2 * L ∧
  match n with
  | Node.Leaf n =>
    bytes_ok (LeafNode.path n) ∧ zlen (LeafNode.path n) = L ∧
    m = {[zdrop (2 * L - r) (nibs (LeafNode.path n)) := LeafNode.value n]}
  | Node.Extension n =>
    wf_vec (ExtensionNode.prefix n) ∧ NibbleVec.first_is_half (ExtensionNode.prefix n) = odd r ∧
    ∃ m', branching m' ∧ m = push (nibbles (ExtensionNode.prefix n)) m' ∧ ExtensionNode.child n = href m'
  | Node.Branch n => branching m ∧ n = BranchNode.new (choices href m)
  end.
Definition has (st : TrieState D) (r : Z) (m : pmap) : Prop :=
  ∃ n, get_node (href m) st = Ok (Some n) ∧ shape r n m.
(** A map is stored when its root node and the nodes below it are. *)
Inductive stored (st : TrieState D) : Z → pmap → Prop :=
  | stored_intro r m :
    has st r m →
    (∀ p m', m = push p m' → p ≠ [] → branching m' → stored st (r - zlen p) m') →
    (branching m → ∀ i, sub [i] m ≠ ∅ → stored st (r - 1) (sub [i] m)) →
    stored st r m.
(** The nodes below the root node. *)
Definition kids (st : TrieState D) (r : Z) (m : pmap) : Prop :=
  (∀ p m', m = push p m' → p ≠ [] → branching m' → stored st (r - zlen p) m') ∧
  (branching m → ∀ i, sub [i] m ≠ ∅ → stored st (r - 1) (sub [i] m)).
(** A node that need not be stored itself. *)
Definition built (st : TrieState D) (r : Z) (n : Node.t) (m : pmap) : Prop := shape r n m ∧ kids st r m.
(** What is stored stays stored. *)
Definition grows (st st' : TrieState D) : Prop :=
  db st' = db st ∧ ∀ r m, covered m → stored st r m → stored st' r m.

#[local] Instance grows_preorder : PreOrder grows.
Proof. split; [by split|]. intros a b c [Hd Ha] [Hd' Hb]. split; [congruence|auto]. Qed.

Lemma shape_keys r n m : shape r n m → keys_ok r m.
Proof. by intros (? & _). Qed.
Lemma shape_ne r n m : shape r n m → m ≠ ∅.
Proof.
  intros (_ & _ & Hs). destruct n as [n|n|n].
  - apply branching_ne, Hs.
  - destruct Hs as (_ & _ & m' & Hm' & -> & _). by apply push_ne, branching_ne.
  - destruct Hs as (_ & _ & ->). apply map_non_empty_singleton.
Qed.
Lemma shape_branching r n m : shape r n m → branching m → n = Node.Branch (BranchNode.new (choices href m)).
Proof.
  intros (_ & _ & Hs) Hm. destruct n as [n|n|n].
  - by destruct Hs as [_ ->].
  - destruct Hs as (Hp & _ & m' & _ & -> & _). apply push_not_branching in Hm; [done|by apply nibbles_nonempty].
  - destruct Hs as (_ & _ & ->). by apply singleton_not_branching in Hm.
Qed.
Lemma stored_built st r m : stored st r m → ∃ n, get_node (href m) st = Ok (Some n) ∧ built st r n m.
Proof. intros [r' m' (n & Hg & Hs) Hk Hk']. by exists n. Qed.
Lemma built_stored st r n m : get_node (href m) st = Ok (Some n) → built st r n m → stored st r m.
Proof. intros Hg [Hs [Hk Hk']]. constructor; [by exists n|done..]. Qed.
Lemma stored_keys st r m : stored st r m → keys_ok r m ∧ m ≠ ∅.
Proof. intros [r' m' (n & _ & Hs) _ _]. split; [by eapply shape_keys|by eapply shape_ne]. Qed.

Lemma covered_push p m : covered (push p m) → covered m.
Proof. intros Hm%(covered_sub _ keccak_array _ p). by rewrite sub_push in Hm. Qed.
Lemma kids_grow st st' r m : grows st st' → covered m → kids st r m → kids st' r m.
Proof.
  intros [_ Hg] Hc [Hk Hk']. split.
  - intros p m' -> Hp Hm'. apply Hg; [by eapply covered_push|by apply Hk].
  - intros Hm i Hi. apply Hg; [by apply covered_sub|by apply Hk'].
Qed.

(** A key of a map fixes how long its keys are. *)
Lemma keys_same_length r r' m : keys_ok r m → keys_ok r' m → m ≠ ∅ → r = r'.
Proof. intros Hr Hr' (k & v & Hk)%map_choose. destruct (Hr _ _ Hk) as [<- _], (Hr' _ _ Hk) as [<- _]. done. Qed.
Lemma shape_inj r r' n n' m m' :
  shape r n m → shape r' n' m' → covered m → covered m' → href m = href m' → m = m' ∧ r = r'.
Proof.
  intros Hs Hs' Hc Hc' He. pose proof (shape_ne _ _ _ Hs). pose proof (shape_ne _ _ _ Hs').
  destruct Hs as (Hk & Hr & _), Hs' as (Hk' & Hr' & _).
  assert (m = m') as ->; [|split; [done|by eapply keys_same_length]].
  eapply (href_inj keccak256 keccak_array U no_collision (Z.to_nat r) r r'); done || lia.
Qed.

(** ** Adding a node *)
Definition add (n : Node.t) (h : NodeHash.t) (st : TrieState D) : TrieState D :=
  mkState (db st) (<[h := n]> (cache st)).
Lemma get_add n h h' st :
  get_node h' (add n h st) = if decide (h = h') then Ok (Some n) else get_node h' st.
Proof.
  unfold get_node, add. cbn [cache db]. case_decide as Hh; [subst; by rewrite lookup_insert_eq|].
  by rewrite lookup_insert_ne.
Qed.
Lemma has_stored_mono st st' :
  (∀ r m, covered m → has st r m → has st' r m) → ∀ r m, covered m → stored st r m → stored st' r m.
Proof.
  intros Hh r m Hc Hm. induction Hm as [r m Hs Hk IHk Hb IHb]. constructor; [by apply Hh|..].
  - intros p m1 -> Hp Hm1. apply IHk; [done..|]. by eapply covered_push.
  - intros Hm i Hi. apply IHb; [done..|]. by apply covered_sub.
Qed.
Lemma add_grows st r n m : shape r n m → covered m → grows st (add n (href m) st).
Proof.
  intros Hs Hc. split; [done|]. apply has_stored_mono. intros r' m' Hc' (n' & Hg & Hs').
  unfold has. rewrite get_add. case_decide as He; [|eauto].
  destruct (shape_inj _ _ _ _ _ _ Hs Hs' Hc Hc' He) as [-> ->]. eauto.
Qed.
Lemma add_stored st r n m : built st r n m → covered m → stored (add n (href m) st) r m.
Proof.
  intros [Hs Hk] Hc. apply (built_stored _ _ n); [by rewrite get_add, decide_True|].
  split; [done|]. eapply kids_grow; [by eapply add_grows|done..].
Qed.

(** The hash of a node is the reference to its map. *)
Lemma insert_self_run st r n m o :
  shape r n m → match n with Node.Leaf _ => o = 2 * L - r | _ => True end →
  node_insert_self keccak256 n o st = (add n (href m) st, Ok (href m)).
Proof.
  intros (Hk & Hr & Hs) Ho. destruct n as [n|n|n]; cbn [node_insert_self].
  - destruct Hs as [Hm ->]. unfold branch_insert_self, BranchNode.compute_hash.
    destruct (choices_wf keccak256 keccak_array m) as (Hl & Hw & Hsh).
    rewrite branch_encoding, <-root_rlp_branch by done. done.
  - destruct Hs as (Hp & Hodd & m' & Hm' & -> & Hc). destruct n as [p h]. cbn in Hp, Hodd, Hc, Hk. subst h.
    cbn [ExtensionNode.prefix]. pose proof (nibbles_nonempty p Hp) as Hne.
    destruct (href_wf keccak256 keccak_array m') as (Hw & Hsh & Hv); [by apply branching_ne|].
    assert (vec_len p <= r) as Hlen.
    { rewrite <-zlen_nibbles by done. apply branching_ne, map_choose in Hm' as (k & v & Hkv).
      rewrite <-(push_lookup (nibbles p)) in Hkv. destruct (Hk _ _ Hkv) as (E & _). rewrite zlen_app in E.
      pose proof (zlen_nonneg k). lia. }
    unfold extension_insert_self, ExtensionNode.compute_hash.
    rewrite extension_encoding; [|done|lia|done|done|pose proof (node_item_short _ Hw Hsh); lia].
    rewrite <-root_rlp_ext by done. done.
  - destruct Hs as (Hp & Hl & ->). destruct n as [path value]. cbn in *. subst o.
    destruct (Hk _ _ (lookup_singleton_eq _ _)) as (_ & _ & _ & Hv).
    unfold leaf_insert_self, LeafNode.compute_hash. rewrite leaf_encoding by (done || lia).
    rewrite <-(root_rlp_leaf keccak256). done.
Qed.

(** ** Runs that succeed *)
Definition run {A} (c : M A) (st : TrieState D) (Q : A → TrieState D → Prop) : Prop :=
  ∃ st' a, c st = (st', Ok a) ∧ grows st st' ∧ Q a st'.

Lemma run_bind {A B} (c : M A) (f : A → M B) st Q :
  run c st (λ a st', run (f a) st' Q) → run (c ≫= f) st Q.
Proof.
  intros (st1 & a & Hc & Hg & st2 & b & Hf & Hg' & HQ). exists st2, b.
  split_and!; [by rewrite (stm_bind_Ok _ _ _ _ _ Hc)|by etrans|done].
Qed.
Lemma run_ret {A} (a : A) st (Q : A → TrieState D → Prop) : Q a st → run (mret a) st Q.
Proof. intros HQ. by exists st, a. Qed.
Lemma run_lift {A} (r : res TrieError A) a st (Q : A → TrieState D → Prop) :
  r = Ok a → Q a st → run (lift r) st Q.
Proof. intros -> HQ. by exists st, a. Qed.
Lemma run_no_err {A} (r : pres A) a st (Q : A → TrieState D → Prop) :
  r = Ok a → Q a st → run (lift (no_err r)) st Q.
Proof. intros -> HQ. by exists st, a. Qed.
Lemma run_weaken {A} (c : M A) st (Q Q' : A → TrieState D → Prop) :
  run c st Q → (∀ a st', grows st st' → Q a st' → Q' a st') → run c st Q'.
Proof. intros (st' & a & Hc & Hg & HQ) HQ'. exists st', a. auto. Qed.
Lemma run_insert_self n o st r m (Q : NodeHash.t → TrieState D → Prop) :
  built st r n m → covered m → match n with Node.Leaf _ => o = 2 * L - r | _ => True end →
  (∀ st', grows st st' → stored st' r m → Q (href m) st') →
  run (node_insert_self keccak256 n o) st Q.
Proof.
  intros Hb Hc Ho HQ. pose proof Hb as [Hs _]. assert (grows st (add n (href m) st)) by (by eapply add_grows).
  exists (add n (href m) st), (href m). split_and!; [by eapply insert_self_run|done|].
  apply HQ; [done|by apply add_stored].
Qed.
Lemma run_fetch st r m (Q : Node.t → TrieState D → Prop) :
  stored st r m → (∀ n, built st r n m → Q n st) → run (fetch (href m)) st Q.
Proof.
  intros (n & Hg & Hb)%stored_built HQ. exists st, n. split_and!; [|done|by apply HQ].
  unfold fetch, expect_node. by rewrite Hg.
Qed.

(** ** Building nodes *)
Lemma built_leaf st r path value :
  bytes_ok path → zlen path = L → 0 <= r <= 2 * L → bytes_ok value → zlen value < 2 ^ 60 →
  built st r (Node.Leaf (LeafNode.mk path value)) {[zdrop (2 * L - r) (nibs path) := value]}.
Proof.
  intros Hp Hl Hr Hv Hvl. refine (conj (conj _ (conj _ _)) (conj _ _)); [|done|done|..].
  - apply map_Forall_singleton. split_and!; [|by apply Forall_drop, nibs_nibbles|done..].
    rewrite zlen_zdrop; rewrite zlen_nibs; lia.
  - intros p m' He _ Hm'. symmetry in He. by apply push_not_singleton in He.
  - intros Hb. by apply singleton_not_branching in Hb.
Qed.
Lemma built_ext st r p m :
  wf_vec p → NibbleVec.first_is_half p = odd r → branching m → stored st (r - vec_len p) m →
  r <= 2 * L → built st r (Node.Extension (ExtensionNode.mk p (href m))) (push (nibbles p) m).
Proof.
  intros Hp Hodd Hm Hst Hr. destruct (stored_keys _ _ _ Hst) as [Hk Hne]. rewrite <-zlen_nibbles in * by done.
  assert (0 <= r).
  { destruct (map_choose m Hne) as (k & v & Hkv). destruct (Hk _ _ Hkv) as (E & _).
    pose proof (zlen_nonneg k). pose proof (zlen_nonneg (nibbles p)). lia. }
  refine (conj (conj _ (conj _ _)) (conj _ _)).
  - apply keys_ok_push; [done|by apply nibbles_ok, vec_bytes].
  - done.
  - cbn. split_and!; [done..|]. by exists m.
  - intros q m' He Hq Hm'. apply push_branching_inj in He as [<- <-]; done.
  - intros Hb. apply push_not_branching in Hb; [done|by apply nibbles_nonempty].
Qed.
Lemma built_branch st r m :
  branching m → keys_ok r m → 0 <= r <= 2 * L → (∀ i, sub [i] m ≠ ∅ → stored st (r - 1) (sub [i] m)) →
  built st r (Node.Branch (BranchNode.new (choices href m))) m.
Proof.
  intros Hm Hk Hr Hsub. split; [done|]. split; [|done]. intros p m' -> Hp _.
  by apply push_not_branching in Hm.
Qed.

(** Choices under an insertion. *)
Lemma choices_insert m i k v :
  is_nibble i →
  choices href (<[i :: k := v]> m) = <[Z.to_nat i := href (<[k := v]> (sub [i] m))]> (choices href m).
Proof.
  intros Hi. apply list_eq. intros j. unfold is_nibble in Hi.
  destruct (decide (j < 16)%nat) as [Hj|Hj].
  - replace j with (Z.to_nat (Z.of_nat j)) at 1 by lia. rewrite choices_lookup by (done || (unfold is_nibble; lia)).
    destruct (decide (j = Z.to_nat i)) as [->|Hne].
    + rewrite list_lookup_insert_eq by (rewrite choices_length; lia).
      rewrite Z2Nat.id by lia. change (i :: k) with ([i] ++ k). rewrite sub_insert.
      rewrite decide_False by apply insert_non_empty. done.
    + rewrite list_lookup_insert_ne by done.
      rewrite sub_insert_ne by (intros [k' [= He _]]; lia).
      replace j with (Z.to_nat (Z.of_nat j)) at 3 by lia. by rewrite choices_lookup by (done || (unfold is_nibble; lia)).
  - rewrite !lookup_ge_None_2; [done|rewrite length_insert, choices_length; lia|rewrite choices_length; lia].
Qed.
Lemma choices_push m i :
  is_nibble i → m ≠ ∅ →
  choices href (push [i] m) = <[Z.to_nat i := href m]> BranchNode.EMPTY_CHOICES.
Proof.
  intros Hi Hm. unfold is_nibble in Hi. apply list_eq. intros j. destruct (decide (j < 16)%nat) as [Hj|Hj].
  - replace j with (Z.to_nat (Z.of_nat j)) at 1 by lia. rewrite choices_lookup by (done || (unfold is_nibble; lia)).
    destruct (decide (j = Z.to_nat i)) as [->|Hne].
    + rewrite list_lookup_insert_eq by done.
      rewrite Z2Nat.id, sub_push by lia. by rewrite decide_False.
    + rewrite list_lookup_insert_ne by done.
      rewrite decide_True.
      * unfold BranchNode.EMPTY_CHOICES. by rewrite lookup_replicate_2.
      * apply map_empty. intros k. rewrite sub_lookup. apply push_lookup_ne. intros [k' [= He _]]. lia.
  - rewrite !lookup_ge_None_2; [done|rewrite length_insert; by apply Nat.nlt_ge|rewrite choices_length; lia].
Qed.

(** A branch of two children. *)
Lemma two_subs (x y : Z) (mx : pmap) (k v : list Z) :
  x ≠ y → let m := <[y :: k := v]> (push [x] mx) in
  sub [x] m = mx ∧ sub [y] m = {[k := v]} ∧ (∀ i, i ≠ x → i ≠ y → sub [i] m = ∅) ∧ sub [y] (push [x] mx) = ∅.
Proof.
  intros Hxy m.
  assert (∀ i, i ≠ x → sub [i] (push [x] mx) = ∅) as Se.
  { intros i Hi. apply map_empty. intros k'. rewrite sub_lookup. apply push_lookup_ne. by intros [k'' [= He _]]. }
  split_and!.
  - unfold m. rewrite sub_insert_ne by (intros [k' [= He _]]; done). apply sub_push.
  - unfold m. change (y :: k) with ([y] ++ k). by rewrite sub_insert, Se, insert_empty.
  - intros i Hi Hj. unfold m. rewrite sub_insert_ne by (intros [k' [= He _]]; done). by apply Se.
  - by apply Se.
Qed.
Lemma built_two st r x y mx k v :
  is_nibble x → is_nibble y → x ≠ y → r <= 2 * L →
  stored st (r - 1) mx → stored st (r - 1) {[k := v]} →
  let m := <[y :: k := v]> (push [x] mx) in
  branching m ∧
  built st r (Node.Branch (BranchNode.new
    (<[Z.to_nat y := href {[k := v]}]> (<[Z.to_nat x := href mx]> BranchNode.EMPTY_CHOICES)))) m.
Proof.
  intros Hx Hy Hxy Hr Hmx Hk m. destruct (stored_keys _ _ _ Hmx) as [Okx Nex].
  destruct (stored_keys _ _ _ Hk) as [Okk _]. destruct (Okk _ _ (lookup_singleton_eq _ _)) as (Hl & Hn & Hv & Hvl).
  pose proof (zlen_nonneg k).
  destruct (two_subs x y mx k v Hxy) as (Sx & Sy & Si & Se). fold m in Sx, Sy, Si.
  assert (branching m) as Hm.
  { exists x, y. rewrite Sx, Sy. split_and!; [done..|]. apply map_non_empty_singleton. }
  split; [done|].
  replace (<[Z.to_nat y := _]> _) with (choices href m).
  2: { unfold m. by rewrite choices_insert, choices_push, Se, insert_empty by done. }
  apply built_branch; [done| |lia|].
  - apply keys_ok_insert; [|rewrite zlen_cons; lia|by constructor|done..].
    apply keys_ok_push; [done|by constructor].
  - intros i Hi. destruct (decide (i = x)) as [->|]; [by rewrite Sx|]. destruct (decide (i = y)) as [->|]; [by rewrite Sy|].
    by rewrite Si in Hi.
Qed.

(** ** Positions on a path *)
Record at_pos (path : NibbleSlice.t) (r : Z) : Prop := {
  pos_slice : wf_slice path;
  pos_data : zlen (NibbleSlice.data path) = L;
  pos_offset : NibbleSlice.offset path = 2 * L - r
}.
Lemma pos_rest path r : at_pos path r → zlen (rest path) = r ∧ 0 <= r <= 2 * L ∧ odd (NibbleSlice.offset path) = odd r.
Proof.
  intros [Hs Hd Ho]. pose proof (zlen_rest path Hs). destruct Hs as [_ Hr].
  split_and!; [lia..|]. rewrite Ho. replace (2 * L - r) with (2 * (L - r) + r) by lia. by rewrite odd_add, odd_double.
Qed.
Lemma pos_add path r n : at_pos path r → 0 <= n <= r → at_pos (NibbleSlice.offset_add path n) (r - n).
Proof.
  intros Hp Hn. destruct (pos_rest path r Hp) as (Hl & _ & _). destruct Hp as [Hs Hd Ho].
  split; [apply wf_offset_add; [done|lia]|done|]. cbn. lia.
Qed.
Lemma pos_tail path r p t :
  at_pos path r → rest path = p ++ t →
  zdrop (2 * L - (r - zlen p)) (nibs (NibbleSlice.data path)) = t ∧ rest (NibbleSlice.offset_add path (zlen p)) = t ∧
  at_pos (NibbleSlice.offset_add path (zlen p)) (r - zlen p).
Proof.
  intros Hp Hr. destruct (pos_rest path r Hp) as (Hl & Hr' & _). rewrite Hr, zlen_app in Hl.
  pose proof (zlen_nonneg p). pose proof (zlen_nonneg t).
  assert (rest (NibbleSlice.offset_add path (zlen p)) = t) as Ht.
  { rewrite offset_add_rest, Hr by (apply Hp || lia). by rewrite zdrop_app_exact. }
  split_and!; [|done|apply pos_add; [done|lia]].
  rewrite <-Ht. unfold rest. cbn. rewrite (pos_offset path r Hp). f_equal. lia.
Qed.

(** A leaf at the end of the path. *)
Lemma run_new_leaf value st path r p t o (Q : NodeHash.t → TrieState D → Prop) :
  bytes_ok value → zlen value < 2 ^ 60 →
  at_pos path r → rest path = p ++ t → o = 2 * L - (r - zlen p) → covered {[t := value]} →
  (∀ st', grows st st' → stored st' (r - zlen p) {[t := value]} → Q (href {[t := value]}) st') →
  run (leaf_insert_self keccak256 (LeafNode.mk (NibbleSlice.data path) value) o) st Q.
Proof.
  intros Hv Hvl Hp Hr -> Hc HQ. destruct (pos_tail path r p t Hp Hr) as (Ht & _ & Hp').
  destruct (pos_rest _ _ Hp') as (_ & Hr' & _).
  eapply (run_insert_self (Node.Leaf (LeafNode.mk (NibbleSlice.data path) value)) _ _ (r - zlen p)); [|done|done|done].
  rewrite <-Ht. apply built_leaf; [apply Hp|apply Hp|lia|done..].
Qed.

Lemma prefix_fits r p m : keys_ok r (push p m) → m ≠ ∅ → zlen p <= r.
Proof.
  intros Hk (k & v & Hkv)%map_choose. rewrite <-(push_lookup p) in Hkv. destruct (Hk _ _ Hkv) as (E & _).
  rewrite zlen_app in E. pose proof (zlen_nonneg k). lia.
Qed.
Lemma vec_data_short v : wf_vec v → vec_len v <= 2 * L → zlen (NibbleVec.data v) < 2 ^ 61.
Proof.
  intros _ Hl. unfold vec_len in Hl. pose proof (b2z_range (NibbleVec.first_is_half v)).
  pose proof (b2z_range (NibbleVec.last_is_half v)). lia.
Qed.
Lemma part_cases v parity p :
  part v parity p →
  p = [] ∧ NibbleVec.is_empty v = true ∨
  p ≠ [] ∧ NibbleVec.is_empty v = false ∧ wf_vec v ∧ nibbles v = p ∧ NibbleVec.first_is_half v = parity ∧ vec_len v = zlen p.
Proof.
  unfold part. destruct (decide (p = [])) as [->|Hp]; [by intros ->; left|]. intros (Hv & Hn & Hf). right.
  split_and!; [done| |done..|by rewrite <-Hn, zlen_nibbles].
  destruct Hv as [_ Hv]. unfold NibbleVec.is_empty, vec_len in *. destruct v as [[|d l] f h]; [|done].
  cbn in Hv. by destruct f, h.
Qed.
Lemma index_choices {E} h m i :
  is_nibble i →
  index (E:=E) (choices h m) i = Ok (if decide (sub [i] m = ∅) then NodeHash.default else h (sub [i] m)).
Proof. intros Hi. apply index_ok; [by apply choices_lookup|apply Hi]. Qed.

Section Value.
Variable value : list Z.
Hypothesis value_ok : bytes_ok value.
Hypothesis value_short : zlen value < 2 ^ 60.

Lemma leaf_split_ok st r n path x y p k t :
  shape r (Node.Leaf n) {[p ++ x :: t := LeafNode.value n]} → at_pos path r → x ≠ y → rest path = p ++ y :: k →
  let m := <[y :: k := value]> (push [x] {[t := LeafNode.value n]}) in
  covered m →
  run (leaf_split keccak256 n path (NibbleSlice.offset_add path (zlen p)) value) st
    (λ b st', branching m ∧ built st' (r - zlen p) (Node.Branch b) m).
Proof.
  intros (Hk & Hr & Hb & Hl & Hm) Hp Hxy Hrest m Hc. destruct n as [lp lv]. cbn in Hb, Hl, Hm, Hk |- *.
  assert (p ++ x :: t = zdrop (2 * L - r) (nibs lp)) as Hself.
  { apply (f_equal (.!! (p ++ x :: t))) in Hm. rewrite lookup_singleton_eq in Hm.
    symmetry in Hm. by apply lookup_singleton_Some in Hm as [? _]. }
  destruct (two_subs x y {[t := lv]} k value Hxy) as (Sx & Sy & _). fold m in Sx, Sy.
  destruct (pos_rest path r Hp) as (Hlen & _). rewrite Hrest, zlen_app, zlen_cons in Hlen.
  pose proof (zlen_nonneg p). pose proof (zlen_nonneg k).
  pose proof (rest_nibbles path (pos_slice _ _ Hp)) as Hn. rewrite Hrest, Forall_app, Forall_cons in Hn.
  destruct Hn as (Np & Ny & _).
  set (s0 := NibbleSlice.mk lp (NibbleSlice.offset path)).
  assert (at_pos s0 r) as Hs0.
  { pose proof (pos_offset _ _ Hp) as Ho. split; [split|done|done]; cbn; [done|lia]. }
  assert (rest s0 = p ++ x :: t) as Hr0 by (rewrite Hself; unfold rest; cbn; by rewrite (pos_offset _ _ Hp)).
  pose proof (rest_nibbles s0 (pos_slice _ _ Hs0)) as Hn0. rewrite Hr0, Forall_app, Forall_cons in Hn0.
  destruct Hn0 as (_ & Nx & _).
  unfold leaf_split. cbn [NibbleSlice.offset_add NibbleSlice.offset LeafNode.path NibbleSlice.data].
  rewrite (pos_offset _ _ Hp), (pos_data _ _ Hp), Hl. decide_bools.
  destruct (Hk _ _ (lookup_singleton_eq _ _)) as (_ & _ & Hlv & Hlvl).
  assert (∀ z q, zlen (p ++ [z]) = zlen p + 1 ∧ p ++ z :: q = (p ++ [z]) ++ q) as Happ
    by (intros; split; [by rewrite zlen_app|by rewrite <-app_assoc]).
  apply run_bind, (run_new_leaf value _ path r (p ++ [y]) k); [done..|by rewrite Hrest, (proj2 (Happ y k))|
    rewrite (proj1 (Happ y k)); lia|rewrite <-Sy; by apply covered_sub|]. intros st1 _ Hst1.
  apply run_bind, (run_new_leaf lv _ s0 r (p ++ [x]) t); [done..|by rewrite Hr0, (proj2 (Happ x t))|
    rewrite (proj1 (Happ x t)); lia|rewrite <-Sx; by apply covered_sub|]. intros st2 [_ Hg] Hst2.
  apply Hg in Hst1; [|rewrite <-Sy; by apply covered_sub].
  rewrite (proj1 (Happ y k)) in Hst1. rewrite (proj1 (Happ x t)) in Hst2.
  replace (r - (zlen p + 1)) with (r - zlen p - 1) in Hst1, Hst2 by lia.
  apply run_bind, (run_lift _ x).
  { rewrite nth_spec by (by apply wf_new). rewrite rest_new.
    assert (nibs lp !! Z.to_nat (2 * L - r + zlen p) = Some x) as ->; [|done].
    replace (Z.to_nat (2 * L - r + zlen p)) with (Z.to_nat (2 * L - r) + length p)%nat by (unfold zlen; lia).
    rewrite <-lookup_drop. fold (zdrop (2 * L - r) (nibs lp)). rewrite <-Hself. by apply list_lookup_middle. }
  apply run_bind, (run_lift _ y).
  { destruct (pos_tail path r p (y :: k) Hp Hrest) as (_ & Hr' & Hp'). rewrite next_spec by apply Hp'. by rewrite Hr'. }
  apply run_ret. apply built_two; done || lia.
Qed.
Lemma leaf_insert_ok st r n m path :
  shape r (Node.Leaf n) m → at_pos path r → covered m → covered (<[rest path := value]> m) →
  run (leaf_insert keccak256 n path value) st (λ n' st', built st' r n' (<[rest path := value]> m)).
Proof.
  intros Hs Hp Hc Hc'. pose proof Hs as (Hk & Hr & Hb & Hl & Hm). destruct (pos_rest path r Hp) as (Hlen & _ & Hodd).
  set (s0 := NibbleSlice.mk (LeafNode.path n) (NibbleSlice.offset path)).
  assert (at_pos s0 r) as Hs0.
  { pose proof (pos_offset _ _ Hp) as Ho. split; [split|done|done]; cbn; [done|lia]. }
  assert (rest s0 = zdrop (2 * L - r) (nibs (LeafNode.path n))) as Hr0
    by (unfold rest; cbn; by rewrite (pos_offset _ _ Hp)).
  destruct (pos_rest s0 r Hs0) as (Hlen0 & _).
  unfold leaf_insert. eapply run_bind, run_no_err; [by apply cmp_rest_spec; [apply Hp|apply Hs0]|].
  fold s0. destruct (bool_decide (rest path = rest s0)) eqn:E.
  - apply bool_decide_eq_true in E. apply run_ret. rewrite Hm, E, Hr0, insert_singleton_eq.
    by apply built_leaf.
  - apply bool_decide_eq_false in E. eapply run_bind, run_no_err.
    { change (NibbleSlice.offset_add (NibbleSlice.new (LeafNode.path n)) (NibbleSlice.offset path)) with s0.
      apply count_prefix_slice_spec; [apply Hp|apply Hs0]. }
    fold s0. destruct (lcp_short (rest path) (rest s0)) as [Hlt Hlt0]; [|lia|].
    { intros [q Hq]. apply E. apply (f_equal zlen) in Hq as Hq'. rewrite zlen_app in Hq'.
      assert (q = []) as -> by (apply nil_length_inv; unfold zlen in *; lia). by rewrite app_nil_r in Hq. }
    destruct (lcp_split _ _ Hlt Hlt0) as (y & x & k & t & Hxy & Ek & Et). set (p := lcp _ _) in *. clearbody p.
    assert (m = {[p ++ x :: t := LeafNode.value n]}) as Em by (by rewrite Hm, <-Hr0, Et).
    set (m2 := <[y :: k := value]> (push [x] {[t := LeafNode.value n]})).
    assert (<[rest path := value]> m = push p m2) as Em2.
    { unfold m2. by rewrite push_insert, push_singleton, push_singleton, <-Ek, Em. }
    rewrite Em2 in *. assert (covered m2) as Hc2 by (by eapply covered_push).
    eapply run_bind, run_weaken; [apply (leaf_split_ok st r n path x y p k t); [by rewrite <-Em|done..|congruence|done|done]|].
    intros b st1 _ [Hm2 Hb1]. destruct (negb (zlen p =? 0)) eqn:E0; bool_prop.
    + apply run_bind. eapply (run_insert_self (Node.Branch b) 0); [exact Hb1|done|done|]. intros st2 _ Hst2.
      destruct (split_to_vec_spec path (zlen p)) as (v & Hv & Wv & Nv & Fv & Lv); [apply Hp|pose proof (zlen_nonneg p); lia|].
      eapply run_bind, run_no_err; [done|]. apply run_ret.
      replace (ztake (zlen p) (rest path)) with p in Nv by (rewrite Ek; by rewrite ztake_app_exact).
      rewrite <-Nv. apply built_ext; [done|congruence|done|by rewrite Lv|lia].
    + assert (p = []) as -> by (apply nil_length_inv; unfold zlen in E0; lia). apply run_ret.
      rewrite push_nil. by rewrite zlen_nil, Z.sub_0_r in Hb1.
Qed.

(** The part of an extension below the place where a path leaves it. *)
Lemma split_right_ok st r right t m0 :
  part right (odd r) t → branching m0 → stored st (r - zlen t) m0 → r <= 2 * L → covered (push t m0) →
  run (if negb (NibbleVec.is_empty right) then extension_insert_self keccak256 (ExtensionNode.new right (href m0))
       else mret (href m0)) st
    (λ h st', h = href (push t m0) ∧ stored st' r (push t m0)).
Proof.
  intros [(-> & ->)|(Ht & -> & Wv & Nv & Fv & Lv)]%part_cases Hm Hst Hr Hc; cbn [negb].
  - rewrite zlen_nil, Z.sub_0_r in Hst. rewrite push_nil. by apply run_ret.
  - eapply (run_insert_self (Node.Extension (ExtensionNode.mk right (href m0))) 0 _ r); [|done|done|done].
    rewrite <-Nv. apply built_ext; [done..|by rewrite Lv|done].
Qed.
(** The part above it. *)
Lemma split_left_ok st r left p b m :
  part left (odd r) p → branching m → built st (r - zlen p) (Node.Branch b) m → r <= 2 * L → covered (push p m) →
  run (if negb (NibbleVec.is_empty left)
       then h ← branch_insert_self keccak256 b; mret (Node.Extension (ExtensionNode.new left h))
       else mret (Node.Branch b)) st
    (λ n st', built st' r n (push p m)).
Proof.
  intros [(-> & ->)|(Ht & -> & Wv & Nv & Fv & Lv)]%part_cases Hm Hb Hr Hc; cbn [negb].
  - rewrite zlen_nil, Z.sub_0_r in Hb. rewrite push_nil. by apply run_ret.
  - apply run_bind. eapply (run_insert_self (Node.Branch b) 0); [exact Hb|by eapply covered_push|done|]. intros st2 _ Hst2.
    apply run_ret. rewrite <-Nv. apply built_ext; [done..|by rewrite Lv|done].
Qed.
Lemma extension_split_ok st r n m0 path p x y k t :
  let v := ExtensionNode.prefix n in
  wf_vec v → NibbleVec.first_is_half v = odd r → nibbles v = p ++ x :: t → ExtensionNode.child n = href m0 →
  branching m0 → stored st (r - vec_len v) m0 → at_pos path r → rest path = p ++ y :: k → x ≠ y →
  let m2 := <[y :: k := value]> (push [x] (push t m0)) in
  covered (push p m2) →
  run (extension_split keccak256 n path value (zlen p)) st (λ n' st', built st' r n' (push p m2)).
Proof.
  intros v Wv Fv Nv Cv Hm Hst Hp Hrest Hxy m2 Hc. destruct (pos_rest path r Hp) as (Hlen & Hr & _).
  assert (covered m2) as Hc2 by (by eapply covered_push).
  destruct (two_subs x y (push t m0) k value Hxy) as (Sx & Sy & _). fold m2 in Sx, Sy.
  assert (vec_len v = zlen p + (1 + zlen t)) as Hvl by (by rewrite <-zlen_nibbles, Nv, zlen_app, zlen_cons).
  pose proof (zlen_nonneg p). pose proof (zlen_nonneg t).
  destruct (split_extract_at_spec v (zlen p)) as (left & x' & right & Hsplit & Hx' & Hleft & Hright); [done|lia|].
  rewrite Nv, ztake_app_exact in Hx' by done. rewrite Nv, ztake_app_exact in Hleft by done.
  assert (zdrop (zlen p + 1) (nibbles v) = t) as Hdrop.
  { rewrite Nv. change (x :: t) with ([x] ++ t). rewrite app_assoc. apply zdrop_app_exact. by rewrite zlen_app. }
  rewrite Nv in Hdrop. rewrite Hdrop in Hx'. apply app_inv_head in Hx' as [= <-].
  rewrite Nv, Hdrop, Fv in Hright. rewrite Fv in Hleft.
  pose proof (nibbles_ok v (vec_bytes v Wv)) as Nb. rewrite Nv, Forall_app, Forall_cons in Nb. destruct Nb as (_ & Nx & _).
  pose proof (rest_nibbles path (pos_slice _ _ Hp)) as Hn. rewrite Hrest, Forall_app, Forall_cons in Hn.
  destruct Hn as (_ & Ny & _).
  unfold extension_split. eapply run_bind, run_no_err; [done|]. cbv beta iota.
  rewrite Cv. eapply run_bind, run_weaken.
  { apply (split_right_ok st (r - zlen p - 1) right t m0); [|done| |lia|rewrite <-Sx; by apply covered_sub].
    - replace (odd (r - zlen p - 1)) with (xorb (odd r) (negb (odd (zlen p)))); [done|].
      replace (r - zlen p - 1) with (r + (zlen p + 1 + 2 * (- zlen p - 1))) by lia.
      rewrite !odd_add, odd_double, odd_1. by destruct (odd r), (odd (zlen p)).
    - replace (r - zlen p - 1 - zlen t) with (r - vec_len v) by lia. done. }
  intros h st1 Hg1 [-> Hst1]. cbv beta.
  destruct (pos_tail path r p (y :: k) Hp Hrest) as (_ & Hr' & Hp'). rewrite next_spec, Hr' by apply Hp'.
  apply run_bind, run_bind.
  apply (run_new_leaf value _ path r (p ++ [y]) k); [done..|by rewrite Hrest, <-app_assoc| | |].
  { rewrite zlen_app. cbn. rewrite (pos_offset _ _ Hp). change (zlen [y]) with 1. lia. }
  { rewrite <-Sy. by apply covered_sub. }
  intros st2 [_ Hg2] Hst2. apply Hg2 in Hst1; [|rewrite <-Sx; by apply covered_sub].
  rewrite zlen_app in Hst2. change (zlen [y]) with 1 in Hst2. rewrite Z.sub_add_distr in Hst2.
  apply run_ret. destruct (built_two st2 (r - zlen p) x y (push t m0) k value) as [Hm2 Hb2]; [done..|lia|done|done|].
  apply split_left_ok; done || lia.
Qed.

(** What an insertion promises below depth [r0]. *)
Definition inserts (ins : Node.t → NibbleSlice.t → list Z → M Node.t) (r0 : Z) : Prop :=
  ∀ st r n m path, r < r0 → built st r n m → at_pos path r → covered m → covered (<[rest path := value]> m) →
  run (ins n path value) st (λ n' st', built st' r n' (<[rest path := value]> m)).

Lemma extension_insert_ok ins st r n m path :
  inserts ins r → built st r (Node.Extension n) m → at_pos path r → covered m → covered (<[rest path := value]> m) →
  run (extension_insert keccak256 ins n path value) st (λ n' st', built st' r n' (<[rest path := value]> m)).
Proof.
  intros IH [(Hk & Hr & Wv & Fv & m0 & Hm0 & -> & Cv) [Hkids _]] Hp Hc Hc'.
  destruct (pos_rest path r Hp) as (Hlen & _ & Hodd). set (v := ExtensionNode.prefix n) in *.
  assert (vec_len v <= r) as Hvl.
  { rewrite <-zlen_nibbles by done. by eapply prefix_fits, branching_ne. }
  assert (stored st (r - vec_len v) m0) as Hst.
  { rewrite <-zlen_nibbles by done. apply Hkids; [done|by apply nibbles_nonempty|done]. }
  unfold extension_insert. fold v. eapply run_bind, run_no_err.
  { apply skip_prefix_spec; [apply Hp|done|by rewrite Hodd|lia|]. rewrite (pos_data _ _ Hp). lia. }
  destruct (bool_decide (nibbles v `prefix_of` rest path)) eqn:E; cbv beta iota.
  - apply bool_decide_eq_true in E as [k Ek]. destruct (pos_tail path r _ _ Hp Ek) as (_ & Hr' & Hp').
    rewrite Ek in *. rewrite <-push_insert in *. rewrite zlen_nibbles in Hr', Hp' by done.
    assert (branching (<[k := value]> m0)) as Hb by (by apply branching_insert).
    rewrite Cv. apply run_bind. eapply run_fetch; [done|]. intros c Hbc.
    eapply run_bind, run_weaken.
    { apply IH; [|exact Hbc|exact Hp'|by eapply covered_push|rewrite Hr'; by eapply covered_push].
      pose proof (vec_pos v Wv). lia. }
    intros c' st1 _ Hb1. rewrite Hr' in Hb1. apply run_bind.
    assert (c' = Node.Branch (BranchNode.new (choices href (<[k := value]> m0)))) as ->.
    { eapply shape_branching; [apply Hb1|done]. }
    eapply run_insert_self; [exact Hb1|by eapply covered_push|done|]. intros st2 _ Hst2.
    apply run_ret. apply built_ext; done || lia.
  - apply bool_decide_eq_false in E. eapply run_bind, run_no_err.
    { apply count_prefix_vec_spec; [apply Hp|done|congruence|].
      pose proof (vec_data_short v Wv ltac:(lia)). fold v. lia. }
    fold v. destruct (lcp_short (rest path) (nibbles v)) as [Hlt Hlt0]; [done|rewrite zlen_nibbles by done; lia|].
    destruct (lcp_split _ _ Hlt Hlt0) as (y & x & k & t & Hxy & Ek & Et).
    set (p := lcp _ _) in *. clearbody p.
    assert (<[rest path := value]> (push (nibbles v) m0) = push p (<[y :: k := value]> (push [x] (push t m0)))) as Em.
    { rewrite push_insert, !push_app, <-Ek, Et. by rewrite <-?app_assoc. }
    rewrite Em in *. apply extension_split_ok; done.
Qed.

Lemma branch_insert_ok ins st r n m path :
  inserts ins r → built st r (Node.Branch n) m → at_pos path r → covered m → covered (<[rest path := value]> m) →
  run (branch_insert keccak256 ins n path value) st (λ n' st', built st' r n' (<[rest path := value]> m)).
Proof.
  intros IH [(Hk & Hr & Hm & ->) [_ Hkids]] Hp Hc Hc'. specialize (Hkids Hm).
  destruct (pos_rest path r Hp) as (Hlen & _). unfold branch_insert. rewrite next_spec by apply Hp.
  pose proof (rest_nibbles path (pos_slice _ _ Hp)) as Hn.
  assert (0 < r) as Hr0.
  { eapply keys_ok_pos; [done|by apply branching_ne|]. intros k v ->. by apply singleton_not_branching in Hm. }
  destruct (rest path) as [|i k] eqn:Ek; [rewrite zlen_nil in Hlen; lia|]. apply Forall_cons in Hn as [Hi Hn].
  rewrite zlen_cons in Hlen.
  destruct (pos_tail path r [i] k Hp Ek) as (_ & Hr' & Hp'). change (zlen [i]) with 1 in Hr', Hp'.
  assert (sub [i] (<[i :: k := value]> m) = <[k := value]> (sub [i] m)) as Si by apply (sub_insert [i]).
  assert (covered (<[k := value]> (sub [i] m))) as Hci by (rewrite <-Si; by apply covered_sub).
  eapply run_bind, run_lift; [by apply index_choices|].
  eapply run_bind, (run_weaken _ _ (λ h st', h = href (<[k := value]> (sub [i] m)) ∧ stored st' (r - 1) (<[k := value]> (sub [i] m)))).
  - destruct (decide (sub [i] m = ∅)) as [He|He].
    + cbn [NodeHash.is_valid NodeHash.default negb]. rewrite He, insert_empty in *.
      apply (run_new_leaf value _ path r [i] k); [done..| |done|done].
      cbn. rewrite (pos_offset _ _ Hp). change (zlen [i]) with 1. lia.
    + destruct (href_wf keccak256 keccak_array _ He) as (_ & _ & ->). cbn [negb].
      apply run_bind. eapply run_fetch; [by apply Hkids|]. intros c Hbc.
      eapply run_bind, run_weaken; [apply IH; [|exact Hbc|exact Hp'|by apply covered_sub|by rewrite Hr']; lia|].
      intros c' st1 _ Hb1. rewrite Hr' in Hb1. eapply run_insert_self; [exact Hb1|done| |done].
      destruct c'; [done..|]. apply (pos_offset _ _ Hp').
  - intros h st1 Hg [-> Hst1]. apply run_ret. cbn [BranchNode.choices BranchNode.path BranchNode.value BranchNode.new].
    rewrite <-choices_insert by done. apply built_branch; [by apply branching_insert| |done|].
    + apply keys_ok_insert; [done|rewrite zlen_cons; lia|by constructor|done..].
    + intros j Hj. destruct (decide (j = i)) as [->|Hne]; [by rewrite Si|].
      assert (sub [j] (<[i :: k := value]> m) = sub [j] m) as Sj by (apply sub_insert_ne; by intros [? [= ?]]).
      rewrite Sj in *. apply Hg; [by apply covered_sub|by apply Hkids].
Qed.
Lemma node_insert_ok fuel : ∀ r0, r0 <= Z.of_nat fuel → inserts (node_insert keccak256 fuel) r0.
Proof.
  induction fuel as [|fuel IH]; intros r0 Hf st r n m path Hr Hb Hp Hc Hc'.
  { destruct (pos_rest path r Hp). lia. }
  cbn [node_insert]. destruct n as [n|n|n].
  - apply branch_insert_ok; [apply IH; lia|done..].
  - apply extension_insert_ok; [apply IH; lia|done..].
  - apply leaf_insert_ok; [apply Hb|done..].
Qed.
End Value.

(** ** Lookup *)
Lemma expect_stored st r m : stored st r m → ∃ n, expect_node (href m) st = Ok n ∧ built st r n m.
Proof. intros (n & Hg & Hb)%stored_built. exists n. unfold expect_node. by rewrite Hg. Qed.
Lemma push_lookup_decide p m k :
  push p m !! k = if bool_decide (p `prefix_of` k) then m !! drop (length p) k else None.
Proof.
  case_bool_decide as Hp; [|by apply push_lookup_ne]. destruct Hp as [k' ->]. by rewrite push_lookup, drop_app_length.
Qed.
Lemma node_get_ok fuel : ∀ st r n m path,
  r < Z.of_nat fuel → built st r n m → at_pos path r → node_get fuel st n path = Ok (m !! rest path).
Proof.
  induction fuel as [|fuel IH]; intros st r n m path Hf Hb Hp; destruct (pos_rest path r Hp) as (Hlen & Hr & Hodd); [lia|].
  cbn [node_get]. destruct n as [n|n|n].
  - destruct Hb as [(Hk & _ & Hm & ->) [_ Hkids]]. unfold branch_get. rewrite next_spec by apply Hp.
    pose proof (rest_nibbles path (pos_slice _ _ Hp)) as Hn.
    destruct (rest path) as [|i k] eqn:Ek.
    { assert (0 < r) as Hr0; [|rewrite zlen_nil in Hlen; lia].
      eapply keys_ok_pos; [done|by apply branching_ne|]. intros k v ->. by apply singleton_not_branching in Hm. }
    apply Forall_cons in Hn as [Hi _]. destruct (pos_tail path r [i] k Hp Ek) as (_ & Hr' & Hp').
    change (zlen [i]) with 1 in Hr', Hp'. cbn [BranchNode.choices BranchNode.new].
    rewrite index_choices, bind_Ok_l by done. change (i :: k) with ([i] ++ k). rewrite <-sub_lookup.
    destruct (decide (sub [i] m = ∅)) as [->|He]; [by rewrite lookup_empty|].
    destruct (href_wf keccak256 keccak_array _ He) as (_ & _ & ->).
    destruct (expect_stored _ _ _ (Hkids Hm i He)) as (c & -> & Hc). rewrite bind_Ok_l.
    rewrite (IH _ (r - 1) _ (sub [i] m)) by (done || lia). by rewrite Hr'.
  - destruct Hb as [(Hk & _ & Wv & Fv & m0 & Hm0 & -> & Cv) [Hkids _]]. unfold extension_get.
    set (v := ExtensionNode.prefix n) in *.
    assert (vec_len v <= r) as Hvl.
    { rewrite <-zlen_nibbles by done. by eapply prefix_fits, branching_ne. }
    rewrite skip_prefix_spec; [|apply Hp|done|by rewrite Hodd|lia|rewrite (pos_data _ _ Hp); lia].
    destruct (bool_decide (nibbles v `prefix_of` rest path)) eqn:E.
    + apply bool_decide_eq_true in E as [k Ek]. destruct (pos_tail path r _ _ Hp Ek) as (_ & Hr' & Hp').
      rewrite zlen_nibbles in Hr', Hp' by done. rewrite Ek, push_lookup, Cv. cbn [no_err map_err]. rewrite bind_Ok_l.
      destruct (expect_stored st (r - zlen (nibbles v)) m0) as (c & -> & Hc);
        [by apply Hkids; [|apply nibbles_nonempty|]|]. rewrite bind_Ok_l.
      rewrite zlen_nibbles in Hc by done. pose proof (vec_pos v Wv).
      rewrite (IH _ (r - vec_len v) _ m0) by (done || lia). by rewrite Hr'.
    + apply bool_decide_eq_false in E. by rewrite push_lookup_ne.
  - destruct Hb as [(Hk & _ & Hb & Hl & ->) _]. unfold leaf_get. pose proof (pos_offset _ _ Hp) as Ho.
    rewrite cmp_rest_spec; [|apply Hp|split; cbn; [done|lia]]. cbn [no_err map_err]. rewrite bind_Ok_l.
    set (k0 := rest (NibbleSlice.mk _ _)). assert (k0 = zdrop (2 * L - r) (nibs (LeafNode.path n))) as <-
      by (unfold k0, rest; cbn; by rewrite Ho).
    case_bool_decide as E; [by rewrite E, lookup_singleton_eq|]. by rewrite lookup_singleton_ne.
Qed.

(** ** trie.rs *)
Definition stands_for (t : Trie.t D) (m : pmap) : Prop :=
  m = ∅ ∧ Trie.root t = None ∨ Trie.root t = Some (href m) ∧ stored (Trie.state t) (2 * L) m.

Lemma pos_new path : bytes_ok path → zlen path = L → at_pos (NibbleSlice.new path) (2 * L).
Proof. intros Hb Hl. split; [by apply wf_new|done|]. cbn. lia. Qed.
Lemma path_fuel_enough path : zlen path = L → 2 * L + 1 <= Z.of_nat (Trie.path_fuel path).
Proof. unfold Trie.path_fuel, zlen. lia. Qed.

Lemma get_ok t m path :
  stands_for t m → bytes_ok path → zlen path = L → Trie.get t path = Ok (m !! nibs path).
Proof.
  intros [[-> Hr]|[Hr Hst]] Hb Hl; unfold Trie.get; rewrite Hr; [by rewrite lookup_empty|].
  destruct (expect_stored _ _ _ Hst) as (n & -> & Hn). rewrite bind_Ok_l. pose proof (path_fuel_enough path Hl).
  rewrite (node_get_ok _ _ (2 * L) _ m) by (by apply pos_new || (done || lia)). by rewrite rest_new.
Qed.
Lemma root_hash_ok t m : stands_for t m → Trie.root_hash keccak256 t = map_root keccak256 m.
Proof.
  intros [[-> Hr]|[Hr Hst]]; unfold Trie.root_hash, map_root; rewrite Hr; [done|].
  rewrite decide_False by apply (stored_keys _ _ _ Hst).
  unfold NodeHash.finalize, TrieRoot.href, NodeHash.from_encoded_raw. by destruct (32 <=? _).
Qed.
Lemma on_state_Ok {A} (c : M A) t st' a :
  c (Trie.state t) = (st', Ok a) → Trie.on_state c t = (Trie.mk (Trie.root t) st', Ok a).
Proof. unfold Trie.on_state. by intros ->. Qed.
Lemma insert_ok t m path value :
  stands_for t m → bytes_ok path → zlen path = L → bytes_ok value → zlen value < 2 ^ 60 →
  covered m → covered (<[nibs path := value]> m) →
  ∃ t', Trie.insert keccak256 path value t = (t', Ok tt) ∧ stands_for t' (<[nibs path := value]> m) ∧
    grows (Trie.state t) (Trie.state t').
Proof.
  intros Ht Hb Hl Hv Hvl Hc Hc'. destruct t as [root st]. pose proof (pos_new path Hb Hl) as Hp.
  destruct Ht as [[-> Hr]|[Hr Hst]]; cbn in Hr; subst root.
  - assert (run (node_insert_self keccak256 (Node.Leaf (LeafNode.new path value)) 0) st
      (λ h st', h = href {[nibs path := value]} ∧ stored st' (2 * L) {[nibs path := value]}))
      as (st' & h & Hrun & Hg & -> & Hst').
    { rewrite insert_empty in Hc'. apply (run_new_leaf value _ (NibbleSlice.new path) (2 * L) [] (nibs path));
        [done..| |change (zlen []) with 0; lia|done|by rewrite zlen_nil, Z.sub_0_r]. by rewrite rest_new. }
    exists (Trie.mk (Some (href {[nibs path := value]})) st').
    split_and!; [|right; by rewrite insert_empty|done].
    unfold Trie.insert. do 2 (erewrite stm_bind_Ok by done). cbv beta iota.
    by erewrite stm_bind_Ok by (by apply on_state_Ok).
  - destruct (stored_built _ _ _ Hst) as (n & Hget & Hn).
    destruct (node_insert_ok value Hv Hvl (Trie.path_fuel path) (2 * L + 1) (path_fuel_enough path Hl)
      st (2 * L) n m (NibbleSlice.new path)) as (st1 & n1 & Hrun1 & Hg1 & Hb1); [lia|done|done|done|by rewrite rest_new|].
    rewrite rest_new in Hb1.
    assert (run (node_insert_self keccak256 n1 0) st1
      (λ h st', h = href (<[nibs path := value]> m) ∧ stored st' (2 * L) (<[nibs path := value]> m)))
      as (st2 & h & Hrun2 & Hg2 & -> & Hst2).
    { eapply run_insert_self; [done|done| |done]. destruct n1; [done..|lia]. }
    exists (Trie.mk (Some (href (<[nibs path := value]> m))) st2).
    split_and!; [|by right|by etrans].
    unfold Trie.insert. erewrite stm_bind_Ok by done.
    erewrite (stm_bind_Ok _ _ _ (Trie.mk None st) (Some n)) by (apply on_state_Ok; cbn; cbn in Hget; by rewrite Hget).
    erewrite stm_bind_Ok by (by apply on_state_Ok). by erewrite stm_bind_Ok by (by apply on_state_Ok).
Qed.
End Laws.
