(* ===== verification/TrieRefine.v ===== *)
(** * The trie refines a map from byte strings

    The theorems about [Trie] in terms of maps from byte strings of one length: every
    insertion succeeds and updates the map, a lookup reads it, and the root is the root
    of the yellow paper, whatever the order of the insertions. *)

From S2P Require Import Prelude Rlp RlpLaws U256 Codec Effects Nibble NibbleLaws.
From S2P Require Import TrieNode Trie TrieSpec TrieEncoding TrieRoot TrieLaws.

(** ** The encodings of the nodes of a map *)
#[export] Instance nibs_Inj : Inj (=) (=) nibs.
Proof. intros l k. apply nibs_inj. Qed.

(** A map from byte strings as a map from paths. *)
Definition paths (b : pmap) : pmap := kmap nibs b.
Definition prefixes (k : list Z) : list (list Z) := map (λ n, take n k) (seq 0 (S (length k))).
Definition nodes (keccak256 : list Z → list Z) (m : pmap) : list (list Z) :=
  map (λ p, root_rlp keccak256 (sub p m)) (concat (map prefixes (map_to_list m).*1)).

Lemma elem_of_prefixes p k : p `prefix_of` k → p ∈ prefixes k.
Proof.
  intros [k' ->]. unfold prefixes. apply list_elem_of_fmap. exists (length p). rewrite take_app_length.
  split; [done|]. apply elem_of_seq. rewrite length_app. lia.
Qed.
Lemma covered_nodes keccak256 (U : list Z → Prop) m :
  (∀ x, x ∈ nodes keccak256 m → U x) → covered keccak256 U m.
Proof.
  intros HU p (k & v & Hk)%sub_nonempty_inv. apply HU. unfold nodes. apply list_elem_of_fmap. exists p. split; [done|].
  apply list_elem_of_In, in_concat. exists (prefixes (p ++ k)). split.
  - apply in_map, list_elem_of_In, elem_of_keys. eauto.
  - apply list_elem_of_In, elem_of_prefixes. by eexists.
Qed.

Lemma paths_insert k v b : paths (<[k := v]> b) = <[nibs k := v]> (paths b).
Proof. apply kmap_insert. apply _. Qed.
Lemma paths_lookup b k : paths b !! nibs k = b !! k.
Proof. apply lookup_kmap. apply _. Qed.
Lemma paths_empty : paths ∅ = ∅.
Proof. apply kmap_empty. Qed.

(** ** The contract *)

(** A key and a value that can be inserted. *)
Definition entry_ok (L : Z) (kv : list Z * list Z) : Prop :=
  bytes_ok kv.1 ∧ zlen kv.1 = L ∧ bytes_ok kv.2 ∧ zlen kv.2 < 2 ^ 60.
(** The trie stands for the map [b] of keys of [L] bytes. *)
Definition represents `{Profile} {D} `{TrieDB D} (keccak256 : list Z → list Z) (L : Z) (t : Trie.t D) (b : pmap) : Prop :=
  stands_for keccak256 L t (paths b).
(** A list of insertions; the last one for a key counts. *)
Definition inserted_into (b : pmap) (l : list (list Z * list Z)) : pmap := foldl (λ b '(k, v), <[k := v]> b) b l.
Definition inserted (l : list (list Z * list Z)) : pmap := inserted_into ∅ l.
(** The root of the yellow paper for a list of entries. *)
Definition entries_root (keccak256 : list Z → list Z) (l : list (list Z * list Z)) : list Z :=
  map_root keccak256 (paths (inserted l)).
(** The nodes of the maps that a run of insertions goes through. *)
Definition run_nodes (keccak256 : list Z → list Z) (l : list (list Z * list Z)) : list (list Z) :=
  concat (map (λ n, nodes keccak256 (paths (inserted (take n l)))) (seq 0 (S (length l)))).
Definition no_collisions (keccak256 : list Z → list Z) (ns : list (list Z)) : Prop :=
  Forall (λ x, Forall (λ y, keccak256 x = keccak256 y → x = y) ns) ns.

Lemma no_collisions_free keccak256 ns : no_collisions keccak256 ns → collision_free keccak256 (.∈ ns).
Proof. intros Hn x y Hx Hy. unfold no_collisions in Hn. rewrite !Forall_forall in Hn. specialize (Hn x Hx).
  rewrite Forall_forall in Hn. by apply Hn. Qed.

Section Insertions.
Context `{Profile} {D : Type} `{TrieDB D}.
Variable keccak256 : list Z → list Z.
Hypothesis keccak_array : ∀ x, is_array 32 (keccak256 x).
Variable L : Z.
Hypothesis L_range : 0 <= L < 2 ^ 59.
#[local] Set Default Proof Using "All".

Lemma insert_represents U t b k v :
  collision_free keccak256 U → covered keccak256 U (paths b) → covered keccak256 U (paths (<[k := v]> b)) →
  represents keccak256 L t b → entry_ok L (k, v) →
  ∃ t', Trie.insert keccak256 k v t = (t', Ok tt) ∧ represents keccak256 L t' (<[k := v]> b) ∧
    db (Trie.state t') = db (Trie.state t).
Proof.
  intros HU Hc Hc' Ht (Hk & Hl & Hv & Hvl). unfold represents in *. rewrite paths_insert in *.
  destruct (insert_ok keccak256 keccak_array U HU L L_range t (paths b) k v) as (t' & Hrun & Ht' & [Hdb _]); [done..|].
  by exists t'.
Qed.
Lemma get_represents U t b k :
  collision_free keccak256 U → represents keccak256 L t b → bytes_ok k → zlen k = L → Trie.get t k = Ok (b !! k).
Proof.
  intros HU Ht Hk Hl. rewrite (get_ok keccak256 keccak_array U HU L L_range t (paths b)) by done.
  by rewrite paths_lookup.
Qed.
Lemma root_represents U t b :
  collision_free keccak256 U → represents keccak256 L t b →
  Trie.root_hash keccak256 t = map_root keccak256 (paths b).
Proof. intros HU Ht. by apply (root_hash_ok keccak256 keccak_array U HU L L_range). Qed.
Lemma new_represents d : represents keccak256 L (Trie.new d) ∅.
Proof. left. by rewrite paths_empty. Qed.
End Insertions.

(** ** Theorems *)

(** Inserting a key of the right length into a trie that represents a map always
    succeeds and gives a trie that represents the updated map: lookups of all keys of
    that length return the entries of the updated map and the root hash is the root
    that the yellow paper defines for it.  Assumed of Keccak: digests of 32 bytes, and
    no collision among the nodes of the map before and after. *)
Theorem trie_insert_refines `{Profile} {D} `{TrieDB D} (keccak256 : list Z → list Z) (L : Z)
    (t : Trie.t D) (b : pmap) (k v : list Z) :
  (∀ x, is_array 32 (keccak256 x)) → 0 <= L < 2 ^ 59 →
  no_collisions keccak256 (nodes keccak256 (paths b) ++ nodes keccak256 (paths (<[k := v]> b))) →
  represents keccak256 L t b → entry_ok L (k, v) →
  ∃ t', Trie.insert keccak256 k v t = (t', Ok tt) ∧ represents keccak256 L t' (<[k := v]> b) ∧
    Trie.root_hash keccak256 t' = map_root keccak256 (paths (<[k := v]> b)) ∧
    ∀ k', bytes_ok k' → zlen k' = L → Trie.get t' k' = Ok (<[k := v]> b !! k').
Proof.
  intros Hka HL Hn Ht Hkv. apply no_collisions_free in Hn.
  destruct (insert_represents keccak256 Hka L HL _ t b k v Hn) as (t' & Hrun & Ht' & _);
    [apply covered_nodes; intros x Hx; apply elem_of_app; auto..|done|done|].
  exists t'. split_and!; [done|done|by eapply root_represents|]. intros. by eapply get_represents.
Qed.

Lemma inserted_snoc b l k v : inserted_into b (l ++ [(k, v)]) = <[k := v]> (inserted_into b l).
Proof. unfold inserted_into. by rewrite foldl_app. Qed.
Lemma inserted_app l k : inserted (l ++ k) = inserted_into (inserted l) k.
Proof. unfold inserted, inserted_into. by rewrite foldl_app. Qed.
Lemma for_each_app {S E A} (f : A → stm S E unit) l k s s' :
  for_each f l s = (s', Ok tt) → for_each f (l ++ k) s = for_each f k s'.
Proof.
  revert s. induction l as [|x l IH]; intros s; cbn [for_each app]; [by intros [= ->]|].
  unfold mbind, stm_mbind. destruct (f x s) as [s1 [[]| | |]]; try done. apply IH.
Qed.
(** [trie.insert(path, value).unwrap()] for every element. *)
Definition insert_all `{Profile} {D} `{TrieDB D} {E} (keccak256 : list Z → list Z) (l : list (list Z * list Z))
    : stm (Trie.t D) E unit :=
  for_each (λ '(path, value), stm_unwrap (Trie.insert keccak256 path value)) l.
Lemma run_inserts `{Profile} {D} `{TrieDB D} {E} keccak256 L U (t : Trie.t D) b l :
  (∀ x, is_array 32 (keccak256 x)) → 0 <= L < 2 ^ 59 → collision_free keccak256 U → Forall (entry_ok L) l →
  (∀ n, (n <= length l)%nat → covered keccak256 U (paths (inserted_into b (take n l)))) →
  represents keccak256 L t b →
  ∃ t', insert_all (E:=E) keccak256 l t = (t', Ok tt) ∧ represents keccak256 L t' (inserted_into b l) ∧
    db (Trie.state t') = db (Trie.state t).
Proof.
  intros Hka HL HU. induction l as [|[k v] l IH] using rev_ind; intros Hl Hc Ht; [by exists t|].
  apply Forall_app in Hl as [Hl [Hkv _]%Forall_cons]. rewrite length_app in Hc. cbn in Hc.
  destruct IH as (t1 & Hrun1 & Ht1 & Hdb1); [done| |done|].
  { intros n Hn. specialize (Hc n ltac:(lia)). by rewrite take_app_le in Hc. }
  rewrite inserted_snoc. unfold insert_all. erewrite for_each_app by done.
  destruct (insert_represents keccak256 Hka L HL U t1 (inserted_into b l) k v) as (t2 & Hrun2 & Ht2 & Hdb2);
    [done| | |done|done|].
  { specialize (Hc (length l) ltac:(lia)). by rewrite take_app_length in Hc. }
  { specialize (Hc (length l + 1)%nat ltac:(lia)). rewrite take_ge in Hc by (rewrite length_app; cbn; lia).
    by rewrite inserted_snoc in Hc. }
  exists t2. split_and!; [|done|congruence]. cbn [for_each]. unfold mbind, stm_mbind, stm_unwrap. by rewrite Hrun2.
Qed.
Lemma covered_run keccak256 l n :
  (n <= length l)%nat → covered keccak256 (.∈ run_nodes keccak256 l) (paths (inserted (take n l))).
Proof.
  intros Hn. apply covered_nodes. intros x Hx. unfold run_nodes. apply list_elem_of_In, in_concat.
  eexists. split; [|by apply list_elem_of_In].
  apply in_map_iff. exists n. split; [done|]. apply in_seq. lia.
Qed.
Lemma compute_hash_ok `{Profile} keccak256 L l :
  (∀ x, is_array 32 (keccak256 x)) → 0 <= L < 2 ^ 59 → Forall (entry_ok L) l →
  no_collisions keccak256 (run_nodes keccak256 l) →
  Trie.compute_hash_from_unsorted_iter keccak256 l = Ok (entries_root keccak256 l).
Proof.
  intros Hka HL Hl Hn. apply no_collisions_free in Hn. unfold Trie.compute_hash_from_unsorted_iter.
  destruct (run_inserts (E:=never) keccak256 L _ (Trie.new tt) ∅ l Hka HL Hn Hl) as (t & Hrun & Ht & _).
  { apply covered_run. }
  { by apply (new_represents keccak256 Hka L HL). }
  unfold insert_all in Hrun. rewrite Hrun.
  rewrite bind_Ok_l. f_equal. by eapply (root_represents keccak256 Hka L HL).
Qed.

(** Without repeated keys the order does not matter. *)
Lemma inserted_lookup l k v : NoDup l.*1 → inserted l !! k = Some v ↔ (k, v) ∈ l.
Proof.
  induction l as [|[k' v'] l IH] using rev_ind; intros Hnd.
  - unfold inserted, inserted_into. cbn. rewrite lookup_empty. split; [done|by intros ?%not_elem_of_nil].
  - rewrite fmap_app in Hnd. apply NoDup_app in Hnd as (Hnd & Hdisj & _). cbn in Hdisj.
    unfold inserted in *. rewrite inserted_snoc, elem_of_app, list_elem_of_singleton, <-IH by done.
    destruct (decide (k' = k)) as [->|Hne].
    + rewrite lookup_insert_eq. split; [naive_solver|]. intros [Hin|]; [|naive_solver].
      apply IH in Hin; [|done]. exfalso. apply (Hdisj k); [|by apply list_elem_of_singleton].
      apply list_elem_of_fmap. by exists (k, v).
    + rewrite lookup_insert_ne by done. naive_solver.
Qed.
Lemma inserted_Permutation l l' : NoDup l.*1 → l ≡ₚ l' → inserted l = inserted l'.
Proof.
  intros Hnd Hp. apply map_eq. intros k. apply option_eq. intros v.
  rewrite !inserted_lookup, Hp; [done| |done]. by rewrite <-Hp.
Qed.

(** C31: [compute_hash_from_unsorted_iter] on entries with keys of one length, where no two
    nodes have one hash, returns the root of the yellow paper for the map of the
    entries, and for entries with different keys the same root in whatever order they
    come. State and storage tries have keys of one length; the tries of transactions,
    receipts and withdrawals have them up to 128 elements, whose index is encoded in
    one byte. *)
Theorem unsorted_root `{Profile} (keccak256 : list Z → list Z) (L : Z) (l l' : list (list Z * list Z)) :
  (∀ x, is_array 32 (keccak256 x)) → 0 <= L < 2 ^ 59 → Forall (entry_ok L) l →
  no_collisions keccak256 (run_nodes keccak256 l) →
  Trie.compute_hash_from_unsorted_iter keccak256 l = Ok (entries_root keccak256 l) ∧
  (NoDup l.*1 → l ≡ₚ l' → no_collisions keccak256 (run_nodes keccak256 l') →
   Trie.compute_hash_from_unsorted_iter keccak256 l' = Trie.compute_hash_from_unsorted_iter keccak256 l).
Proof.
  intros Hka HL Hl Hn. split; [by eapply compute_hash_ok|]. intros Hnd Hp Hn'.
  rewrite !(compute_hash_ok keccak256 L) by (done || by rewrite <-Hp).
  unfold entries_root. by rewrite (inserted_Permutation l l').
Qed.

(** ** Witnesses *)
#[export] Instance no_collisions_dec keccak256 ns : Decision (no_collisions keccak256 ns).
Proof. unfold no_collisions. apply _. Defined.
#[export] Instance entry_ok_dec L kv : Decision (entry_ok L kv).
Proof. unfold entry_ok. apply _. Defined.

(** A function with digests of 32 bytes: the end of the input and its checksum. *)
Definition toy_digest (x : list Z) : list Z :=
  map (λ b, b mod 256) (take 32 ((foldl (λ a b, 31 * a + b) 7 x :: reverse x) ++ replicate 32 0)).
Lemma toy_digest_array x : is_array 32 (toy_digest x).
Proof.
  unfold toy_digest. split.
  - apply Forall_map, Forall_true. intros b. unfold is_byte. pose proof (Z.mod_pos_bound b 256). lia.
  - unfold zlen. rewrite length_map, length_take, length_app, length_replicate. lia.
Qed.
Definition sample_entries : list (list Z * list Z) :=
  [([0x11], [1; 2; 3]); ([0x52], [4]); ([0x12], replicate 33 9)].

Lemma unsorted_root_witness :
  let l := sample_entries in let l' := reverse sample_entries in
  Trie.compute_hash_from_unsorted_iter (H:=dev_profile) toy_digest l = Ok (entries_root toy_digest l) ∧
  Trie.compute_hash_from_unsorted_iter (H:=dev_profile) toy_digest l' =
    Trie.compute_hash_from_unsorted_iter (H:=dev_profile) toy_digest l.
Proof.
  pose proof (@unsorted_root dev_profile toy_digest 1 sample_entries (reverse sample_entries) toy_digest_array) as Hw.
  destruct Hw as [H1 H2]; [done|by_decide|by_decide|]. split; [done|]. apply H2; [by_decide|by_decide|by_decide].
Defined.

Lemma trie_insert_refines_witness :
  let b := inserted_into ∅ sample_entries in
  ∃ t t', insert_all (H:=dev_profile) (E:=never) toy_digest sample_entries (Trie.new tt) = (t, Ok tt) ∧
    Trie.insert (H:=dev_profile) toy_digest [0x61] [8] t = (t', Ok tt) ∧
    Trie.root_hash toy_digest t' = map_root toy_digest (paths (<[[0x61] := [8]]> b)).
Proof.
  pose proof dev_profile as Hp.
  destruct (@run_inserts dev_profile unit null_trie_db never toy_digest 1 (.∈ run_nodes toy_digest sample_entries)
    (Trie.new tt) ∅ sample_entries toy_digest_array) as (t & Hrun & Ht & _);
    [done|apply no_collisions_free; by_decide|by_decide|apply covered_run|by apply (new_represents toy_digest toy_digest_array)|].
  destruct (@trie_insert_refines dev_profile unit null_trie_db toy_digest 1 t (inserted_into ∅ sample_entries) [0x61] [8])
    as (t' & Hi & _ & Hr & _); [exact toy_digest_array|done|by_decide|exact Ht|by_decide|].
  exists t, t'. exact (conj Hrun (conj Hi Hr)).
Defined.
