(* ===== verification/TrieLeaves.v ===== *)
(** * Where the paths in a trie come from

    Every leaf that a trie builds, and every branch with a value, carries a path that
    was inserted.  This holds of the code as it is written, before anything is known
    about hashes; removal needs it, because a leaf that takes the place of its parent is
    read back from where its hash leads. *)

From S2P Require Import Prelude Rlp RlpLaws U256 Codec Effects Nibble TrieNode Trie.

Lemma next_data p x p' : NibbleSlice.next p = Some (x, p') → NibbleSlice.data p' = NibbleSlice.data p.
Proof. unfold NibbleSlice.next. case_match; naive_solver. Qed.
Lemma skip_prefix_data `{Profile} p v b p' :
  NibbleSlice.skip_prefix p v = Ok (b, p') → NibbleSlice.data p' = NibbleSlice.data p.
Proof. unfold NibbleSlice.skip_prefix. intros Hs. repeat (case_match || res_inv); naive_solver. Qed.

Section Leaves.
Context `{Profile} {D : Type} `{TrieDB D}.
Variable keccak256 : list Z → list Z.
(** The paths that were inserted. *)
Variable K : list Z → Prop.
Abbreviation M A := (stm (TrieState D) TrieError A).

Definition origin (n : Node.t) : Prop :=
  match n with
  | Node.Leaf n => K (LeafNode.path n)
  | Node.Branch n => BranchNode.path n ≠ [] → K (BranchNode.path n)
  | Node.Extension _ => True
  end.
Definition origins (st : TrieState D) : Prop :=
  (∀ h n, cache st !! h = Some n → origin n) ∧
  (∀ h n, get_node h (mkState (db st) ∅) = Ok (Some n) → origin n).
(** The computation keeps that, and what it returns satisfies [Q]. *)
Definition traces {A} (c : M A) (Q : A → Prop) : Prop :=
  ∀ st, origins st → origins (c st).1 ∧ ∀ a, (c st).2 = Ok a → Q a.

Lemma traces_weaken {A} (c : M A) (Q Q' : A → Prop) : (∀ a, Q a → Q' a) → traces c Q → traces c Q'.
Proof. intros HQ Hc st Hst. destruct (Hc st Hst). auto. Qed.
Lemma traces_ret {A} (a : A) (Q : A → Prop) : Q a → traces (mret a) Q.
Proof. intros HQ st Hst. split; [done|]. by intros ? [= <-]. Qed.
Lemma traces_lift {A} (r : res TrieError A) (Q : A → Prop) : (∀ a, r = Ok a → Q a) → traces (lift r) Q.
Proof. by intros HQ st Hst. Qed.
Lemma traces_bind {A B} (c : M A) (f : A → M B) (P : A → Prop) (Q : B → Prop) :
  traces c P → (∀ a, P a → traces (f a) Q) → traces (c ≫= f) Q.
Proof.
  intros Hc Hf st Hst. destruct (Hc st Hst) as [H1 H2]. unfold mbind, stm_mbind.
  destruct (c st) as [st1 [a|e| |]]; cbn in *; [|by split..]. by apply Hf; [apply H2|].
Qed.
Lemma traces_bind_lift {A B} (r : res TrieError A) (f : A → M B) (Q : B → Prop) :
  (∀ a, r = Ok a → traces (f a) Q) → traces (lift r ≫= f) Q.
Proof. intros Hf. eapply (traces_bind _ _ (λ a, r = Ok a)); [by apply traces_lift|done]. Qed.

Lemma get_node_origin h st n : origins st → get_node h st = Ok (Some n) → origin n.
Proof.
  intros [Hc Hd]. unfold get_node at 1. destruct (cache st !! h) eqn:Eh; [intros [= ->]; by eapply Hc|].
  intros Hg. apply (Hd h). unfold get_node. cbn [cache db]. by rewrite lookup_empty.
Qed.
Lemma traces_fetch h : traces (fetch h) origin.
Proof.
  intros st Hst. split; [done|]. intros n Hn. unfold fetch, expect_node in Hn. cbn in Hn.
  destruct (get_node h st) as [[n'|]|e| |] eqn:Eg; try done. cbn in Hn. injection Hn as ->.
  by eapply get_node_origin.
Qed.
Lemma traces_insert_node n h : origin n → traces (insert_node n h) (λ _, True).
Proof.
  intros Hn st [Hc Hd]. split; [|done]. split; [|done]. intros h' n'. cbn.
  destruct (decide (h = h')) as [->|]; [rewrite lookup_insert_eq; by intros [= <-]|].
  rewrite lookup_insert_ne by done. apply Hc.
Qed.

Create HintDb traces.
#[local] Hint Resolve traces_fetch traces_insert_node : traces.
#[local] Hint Extern 1 (origin _) => first [done | cbn in *; naive_solver] : traces.
#[local] Ltac trace_step :=
  lazymatch goal with
  | |- traces (mret _) _ => apply traces_ret
  | |- traces (lift _) _ => apply traces_lift; intros ? ?
  | |- traces (lift _ ≫= _) _ => apply traces_bind_lift; intros ? ?
  | |- traces ((match _ with _ => _ end) ≫= _) (λ b, origin (Node.Branch b)) =>
    apply (traces_bind _ _ (λ _, True)); [|intros ? _]
  | |- traces ((match _ with _ => _ end) ≫= _) origin => apply (traces_bind _ _ (λ _, True)); [|intros ? _]
  | |- traces (_ ≫= _) _ => eapply traces_bind; [|intros ? ?]
  | |- traces (match ?x with _ => _ end) _ => destruct x eqn:?
  | |- traces _ _ => solve [eauto with traces]
  end.
#[local] Ltac trace := repeat trace_step; try done; try (cbn in *; naive_solver).

Lemma traces_leaf_self n o : origin (Node.Leaf n) → traces (leaf_insert_self keccak256 n o) (λ _, True).
Proof. intros Hn. unfold leaf_insert_self. trace. Qed.
Lemma traces_extension_self n : traces (extension_insert_self keccak256 n) (λ _, True).
Proof. unfold extension_insert_self. trace. Qed.
Lemma traces_branch_self n : origin (Node.Branch n) → traces (branch_insert_self keccak256 n) (λ _, True).
Proof. intros Hn. unfold branch_insert_self. trace. Qed.
Lemma traces_insert_self n o : origin n → traces (node_insert_self keccak256 n o) (λ _, True).
Proof.
  destruct n; [apply traces_branch_self|intros _; apply traces_extension_self|apply traces_leaf_self].
Qed.
#[local] Hint Resolve traces_leaf_self traces_extension_self traces_branch_self traces_insert_self : traces.

(** ** Insertion *)
Lemma traces_leaf_split n path pb value :
  origin (Node.Leaf n) → K (NibbleSlice.data path) →
  traces (leaf_split keccak256 n path pb value) (λ b, origin (Node.Branch b)).
Proof. intros Hn Hv. unfold leaf_split. trace. Qed.
#[local] Hint Resolve traces_leaf_split : traces.
Lemma traces_leaf_insert n path value :
  origin (Node.Leaf n) → K (NibbleSlice.data path) → traces (leaf_insert keccak256 n path value) origin.
Proof. intros Hn Hv. unfold leaf_insert. trace. Qed.

Definition traces_insert (ins : Node.t → NibbleSlice.t → list Z → M Node.t) : Prop :=
  ∀ n path value, origin n → K (NibbleSlice.data path) → traces (ins n path value) origin.
Lemma traces_extension_split n path value o :
  K (NibbleSlice.data path) → traces (extension_split keccak256 n path value o) origin.
Proof.
  intros Hv. unfold extension_split. apply traces_bind_lift. intros [[left c] right] _.
  apply (traces_bind _ _ (λ _, True)); [trace|]. intros h _.
  apply (traces_bind _ _ (λ b, origin (Node.Branch b))); [|intros b Hb; trace].
  destruct (NibbleSlice.next _) as [[x path']|] eqn:En; [apply next_data in En; cbn in En|trace].
  apply (traces_bind _ _ (λ _, True)); [|intros h' _; trace].
  apply traces_leaf_self. cbn. by rewrite En.
Qed.
#[local] Hint Resolve traces_leaf_insert traces_extension_split : traces.

(** The rest of a path has the same data. *)
Lemma next_kept p x p' : NibbleSlice.next p = Some (x, p') → K (NibbleSlice.data p) → K (NibbleSlice.data p').
Proof. by intros ->%next_data. Qed.
Lemma skip_kept {F} p v b p' :
  no_err (E:=F) (NibbleSlice.skip_prefix p v) = Ok (b, p') → K (NibbleSlice.data p) → K (NibbleSlice.data p').
Proof. by intros ->%no_err_Ok%skip_prefix_data. Qed.
#[local] Hint Resolve next_kept skip_kept : traces.

Lemma traces_extension_insert ins n path value :
  traces_insert ins → K (NibbleSlice.data path) → traces (extension_insert keccak256 ins n path value) origin.
Proof. unfold traces_insert. intros IH Hv. unfold extension_insert. trace. Qed.
Lemma traces_branch_insert ins n path value :
  traces_insert ins → origin (Node.Branch n) → K (NibbleSlice.data path) →
  traces (branch_insert keccak256 ins n path value) origin.
Proof.
  unfold traces_insert. intros IH Hn Hv. unfold branch_insert.
  destruct (NibbleSlice.next path) as [[x path']|] eqn:En; [|trace].
  assert (K (NibbleSlice.data path')) as Hv' by eauto with traces.
  apply traces_bind_lift. intros h _. apply (traces_bind _ _ (λ _, True)); [|intros h' _; by apply traces_ret].
  destruct (negb _); [by apply traces_leaf_self|].
  eapply traces_bind; [apply traces_fetch|]. intros c Hc. eapply traces_bind; [by apply IH|]. intros c' Hc'.
  by apply traces_insert_self.
Qed.
#[local] Hint Resolve traces_extension_insert traces_branch_insert : traces.
Lemma traces_node_insert fuel : traces_insert (node_insert keccak256 fuel).
Proof.
  induction fuel as [|fuel IH]; intros n path value Hn Hv; cbn [node_insert]; [by apply traces_lift|].
  destruct n; auto with traces.
Qed.

(** ** Removal *)
Definition origin_opt (a : option Node.t * option (list Z)) : Prop := ∀ n, a.1 = Some n → origin n.
Definition traces_remove (rem : Node.t → NibbleSlice.t → M (option Node.t * option (list Z))) : Prop :=
  ∀ n path, origin n → traces (rem n path) origin_opt.

Lemma traces_leaf_remove n path : origin (Node.Leaf n) → traces (leaf_remove n path) origin_opt.
Proof. intros Hn. unfold leaf_remove. trace. case_match; intros n' ?; naive_solver. Qed.
Lemma traces_extension_remove rem n path :
  traces_remove rem → traces (extension_remove keccak256 rem n path) origin_opt.
Proof.
  unfold traces_remove. intros IH. unfold extension_remove. apply traces_bind_lift. intros [skipped path'] _.
  destruct skipped; [|by apply traces_ret; intros n' [= <-]].
  eapply traces_bind; [apply traces_fetch|]. intros c Hc. eapply traces_bind; [by apply IH|]. intros [c' v] Hc'.
  apply (traces_bind _ _ (λ o, ∀ n, o = Some n → origin n)); [|intros o Ho; by apply traces_ret].
  destruct c' as [[b|e|l]|]; trace.
Qed.
Lemma traces_branch_take rem n path :
  traces_remove rem → origin (Node.Branch n) →
  traces (branch_take keccak256 rem n path) (λ a, origin (Node.Branch a.1)).
Proof.
  unfold traces_remove. intros IH Hn. unfold branch_take.
  destruct (NibbleSlice.next path) as [[i path']|]; [|apply traces_ret; destruct (BranchNode.path n) eqn:Ep; cbn; [by rewrite Ep|done]].
  apply traces_bind_lift. intros h _. destruct (NodeHash.is_valid h); [|by apply traces_ret].
  eapply traces_bind; [apply traces_fetch|]. intros c Hc. eapply traces_bind; [by apply IH|]. intros [c' v] Hc'.
  apply (traces_bind _ _ (λ _, True)); [|intros h' _; by apply traces_ret].
  destruct c' as [c'|]; [apply traces_insert_self; by apply Hc'|by apply traces_ret].
Qed.
Lemma traces_restructure n o : origin (Node.Branch n) → traces (branch_restructure keccak256 n o) origin.
Proof.
  intros Hn. unfold branch_restructure.
  assert (∀ b h, BranchNode.path b = BranchNode.path n → BranchNode.value b = BranchNode.value n →
    traces match h, BranchNode.path b with
           | Some _, _ :: _ => mret (Node.Branch b)
           | None, _ :: _ => mret (Node.Leaf (LeafNode.new (BranchNode.path b) (BranchNode.value b)))
           | Some x, [] => fetch x
           | None, [] => mret (Node.Branch b)
           end origin) as Hfin.
  { intros b h Hp Hv. cbn in Hn. rewrite <-Hp in Hn. destruct h, (BranchNode.path b) eqn:Eb; trace; cbn; rewrite ?Eb; auto. }
  destruct (single_choice _ _ _) as [[[i h]|]|]; [|by apply (Hfin n None)..].
  eapply traces_bind; [apply traces_fetch|]. intros c Hc. destruct c; [|trace|by apply (Hfin n (Some h))].
  eapply traces_bind; [apply traces_extension_self|]. intros h' _.
  by apply (Hfin (BranchNode.mk _ (BranchNode.path n) (BranchNode.value n)) (Some h')).
Qed.
Lemma traces_node_remove fuel : traces_remove (node_remove keccak256 fuel).
Proof.
  induction fuel as [|fuel IH]; intros n path Hn; cbn [node_remove]; [by apply traces_lift|].
  destruct n as [n|n|n]; [|by apply traces_extension_remove|by apply traces_leaf_remove].
  unfold branch_remove. eapply traces_bind; [by apply traces_branch_take|]. intros [b v] Hb.
  eapply traces_bind; [by apply traces_restructure|]. intros n' Hn'. apply traces_ret. by intros ? [= <-].
Qed.

(** ** trie.rs *)
Lemma on_state_traces {A} (c : M A) (Q : A → Prop) (t t' : Trie.t D) a :
  traces c Q → origins (Trie.state t) → Trie.on_state c t = (t', Ok a) → origins (Trie.state t') ∧ Q a.
Proof.
  intros Hc Ht. unfold Trie.on_state. destruct (Hc _ Ht) as [H1 H2]. destruct (c (Trie.state t)) as [st r].
  intros [= <- ->]. split; [done|by apply H2].
Qed.
Lemma insert_origins (t t' : Trie.t D) path value :
  origins (Trie.state t) → K path → Trie.insert keccak256 path value t = (t', Ok tt) → origins (Trie.state t').
Proof.
  intros Ht Hk Hrun. unfold Trie.insert in Hrun.
  apply stm_bind_inv in Hrun as (t1 & root & [= <- <-] & Hrun).
  apply stm_bind_inv in Hrun as (t2 & n & Hn & Hrun).
  assert (origins (Trie.state t2) ∧ ∀ x, n = Some x → origin x) as [Ht2 Hx].
  { destruct (Trie.root t) as [h|].
    - eapply (on_state_traces (λ s, (s, get_node h s)) (λ n, ∀ x, n = Some x → origin x)) in Hn; [done| |done].
      intros st Hst. split; [done|]. intros a Ha x ->. by eapply get_node_origin.
    - by injection Hn as <- <-. }
  destruct n as [n|].
  - apply stm_bind_inv in Hrun as (t3 & n' & H1 & Hrun). apply stm_bind_inv in Hrun as (t4 & h & H2 & [= <-]).
    eapply on_state_traces in H1 as [Ht3 Hn']; [|by apply traces_node_insert; [apply Hx|]|done].
    eapply on_state_traces in H2 as [Ht4 _]; [done|by apply traces_insert_self|done].
  - apply stm_bind_inv in Hrun as (t4 & h & H2 & [= <-]).
    eapply on_state_traces in H2 as [Ht4 _]; [done|by apply (traces_insert_self (Node.Leaf (LeafNode.new path value)))|done].
Qed.
Lemma remove_origins (t t' : Trie.t D) path v :
  origins (Trie.state t) → Trie.remove keccak256 path t = (t', Ok v) → origins (Trie.state t').
Proof.
  intros Ht Hrun. unfold Trie.remove in Hrun. apply stm_bind_inv in Hrun as (t1 & root & [= <- <-] & Hrun).
  destruct (Trie.root t) as [h|]; [|by injection Hrun as <- <-].
  apply stm_bind_inv in Hrun as (t2 & n & H1 & Hrun).
  eapply on_state_traces in H1 as [Ht2 Hn]; [|apply traces_fetch|done].
  apply stm_bind_inv in Hrun as (t3 & [n' v'] & H2 & Hrun).
  eapply on_state_traces in H2 as [Ht3 Hn']; [|by apply traces_node_remove|done].
  apply stm_bind_inv in Hrun as (t4 & root' & H3 & Hrun).
  assert (origins (Trie.state t4)) as Ht4.
  { destruct n' as [n'|]; [|by injection H3 as <- <-]. apply stm_bind_inv in H3 as (t5 & h' & H3 & [= <- <-]).
    eapply on_state_traces in H3 as [Ht5 _]; [done|by apply traces_insert_self, Hn'|done]. }
  apply stm_bind_inv in Hrun as (t5 & [] & [= <-] & [= <- <-]). done.
Qed.
End Leaves.
