(* ===== verification/TrieCommit.v ===== *)
(** * Committing a trie to its database

    [Trie::hash] writes the cached nodes below the root to the database, children
    first, and empties the cache; a trie opened on the database at the root hash
    represents the same map. *)

From S2P Require Import Prelude Rlp RlpLaws U256 Codec Effects Nibble NibbleLaws.
From S2P Require Import TrieNode TrieCodec Trie TrieSpec TrieEncoding TrieRoot TrieLaws TrieRefine TrieLeaves.

(** ** Sizes of encodings *)
Lemma vec_encode_zlen `{Profile} {A} (enc : A → list Z) n l :
  Forall (λ x, zlen (enc x) <= n) l → n * zlen l <= isize_max → zlen (vec_encode enc l) <= n * zlen l + 9.
Proof.
  intros Hl Hn. assert (zlen (concat (map enc l)) <= n * zlen l) as Hc.
  { clear Hn. induction Hl as [|x l Hx Hl IH]; [change (0 <= n * 0); lia|]. cbn [map concat]. rewrite zlen_app, zlen_cons. lia. }
  destruct l as [|x l]; [by rewrite zlen_nil, Z.mul_0_r|]. unfold vec_encode.
  rewrite fold_left_zlen, Z.add_0_l, encode_length_prefix, zlen_app.
  pose proof (zlen_item_prefix 0xc0 0xf7 (zlen (concat (map enc (x :: l))))
    ltac:(pose proof (zlen_nonneg (concat (map enc (x :: l)))); lia)). lia.
Qed.
Lemma u8_encode_zlen x : is_byte x → zlen (u8_encode x) <= 2.
Proof.
  intros Hx. apply Z.leb_le. revert x Hx. apply (all_below 256 (λ x, zlen (u8_encode x) <=? 2)). by vm_compute.
Qed.
Lemma bytes_vec_zlen `{Profile} l :
  bytes_ok l → zlen l < 2 ^ 61 → zlen (vec_encode u8_encode l) <= 2 * zlen l + 9.
Proof.
  intros Hl Hz. apply vec_encode_zlen; [|unfold isize_max; lia]. eapply Forall_impl; [exact Hl|apply u8_encode_zlen].
Qed.
Lemma node_hash_zlen `{Profile} h :
  bytes_ok (NodeHash.to_vec h) → zlen (NodeHash.to_vec h) <= 32 → zlen (NodeHash.encode h) <= 73.
Proof. intros Hb Hl. pose proof (bytes_vec_zlen _ Hb ltac:(lia)). unfold NodeHash.encode. lia. Qed.

Lemma struct_zlen `{Profile} l n : zlen (concat l) <= n → n <= isize_max → zlen (struct_rlp l) <= n + 9.
Proof. intros Hl Hn. pose proof (zlen_struct_rlp l). lia. Qed.
Lemma leaf_zlen `{Profile} path value :
  bytes_ok path → bytes_ok value → zlen path < 2 ^ 60 → zlen value < 2 ^ 60 →
  zlen (LeafNode.encode (LeafNode.mk path value)) < isize_max.
Proof.
  intros Hp Hv Hl Hvl. unfold LeafNode.encode. encode_fields. cbn [LeafNode.path LeafNode.value].
  pose proof (bytes_vec_zlen _ Hp ltac:(lia)). pose proof (bytes_vec_zlen _ Hv ltac:(lia)).
  eapply Z.le_lt_trans; [apply (struct_zlen _ (2 ^ 62 + 100)); cbn [concat]; zlen_simpl; [lia|done]|done].
Qed.
Lemma extension_zlen `{Profile} v h :
  bytes_ok (NibbleVec.data v) → zlen (NibbleVec.data v) < 2 ^ 60 → zlen (NodeHash.encode h) <= 73 →
  zlen (ExtensionNode.encode (ExtensionNode.mk v h)) < isize_max.
Proof.
  intros Hb Hl Hh. unfold ExtensionNode.encode, NibbleVec.encode. do 2 encode_fields.
  cbn [ExtensionNode.prefix ExtensionNode.child]. pose proof (bytes_vec_zlen _ Hb ltac:(lia)).
  assert (∀ b, zlen (bool_encode b) = 1) as Hbool by (by intros []).
  assert (zlen (struct_rlp [vec_encode u8_encode (NibbleVec.data v); bool_encode (NibbleVec.first_is_half v);
    bool_encode (NibbleVec.last_is_half v)]) <= 2 ^ 61 + 20).
  { apply (struct_zlen _ (2 ^ 61 + 11)); [|done]. cbn [concat]. zlen_simpl. rewrite !Hbool. lia. }
  eapply Z.le_lt_trans; [apply (struct_zlen _ (2 ^ 62 + 100)); cbn [concat]; zlen_simpl; [lia|done]|done].
Qed.
Lemma branch_zlen `{Profile} hs :
  length hs = 16%nat → Forall (λ h, zlen (NodeHash.encode h) <= 73) hs →
  zlen (BranchNode.encode (BranchNode.new hs)) < isize_max.
Proof.
  intros Hl Hh. assert (zlen hs = 16) as Hz by (unfold zlen; by rewrite Hl). unfold BranchNode.encode. encode_fields.
  cbn [BranchNode.choices BranchNode.path BranchNode.value BranchNode.new].
  pose proof (vec_encode_zlen NodeHash.encode 73 hs Hh ltac:(rewrite Hz; unfold isize_max; lia)).
  assert (zlen (vec_encode u8_encode []) = 1) as Hnil by done.
  eapply Z.le_lt_trans; [apply (struct_zlen _ (2 ^ 62 + 100)); cbn [concat]; zlen_simpl; [lia|done]|done].
Qed.

Section Commit.
Context `{Profile}.
Variable keccak256 : list Z → list Z.
Hypothesis keccak_array : ∀ x, is_array 32 (keccak256 x).
Variable U : list Z → Prop.
Hypothesis no_collision : collision_free keccak256 U.
Variable L : Z.
Hypothesis L_range : 0 <= L < 2 ^ 59.
#[local] Set Default Proof Using "All".

Abbreviation db_t := (gmap (list Z) (list Z)).
Abbreviation href := (href keccak256).
Abbreviation covered := (covered keccak256 U).
Abbreviation has := (has (D:=db_t) keccak256 L).
Abbreviation stored := (stored (D:=db_t) keccak256 L).
Abbreviation kids := (kids (D:=db_t) keccak256 L).
Abbreviation shape := (shape keccak256 L).
Abbreviation law f := (f keccak256 keccak_array U no_collision L L_range) (only parsing).

(** Only the database. *)
Definition on_disk (d : db_t) : TrieState db_t := mkState d ∅.
(** What the database has of a node, it has of the nodes below. *)
Definition db_closed (d : db_t) : Prop := ∀ r m, covered m → has (on_disk d) r m → stored (on_disk d) r m.
(** Nothing is lost, from the database or from the trie. *)
Record commits (st st' : TrieState db_t) : Prop := {
  commits_has r m : covered m → has st r m → has st' r m;
  commits_disk r m : covered m → has (on_disk (db st)) r m → has (on_disk (db st')) r m;
  commits_cache : cache st' ⊆ cache st;
  commits_closed : db_closed (db st) → db_closed (db st');
  commits_origins K : origins K st → origins K st'
}.
#[local] Instance commits_preorder : PreOrder commits.
Proof.
  split; [by split|]. intros a b c [H1 H2 H3 H4 H5] [H1' H2' H3' H4' H5']. split; auto. by etrans.
Qed.

Lemma get_on_disk h st : cache st !! h = None → get_node h st = get_node h (on_disk (db st)).
Proof. intros Hc. unfold get_node. rewrite Hc. done. Qed.
Lemma stored_uncached st r m :
  stored st r m → covered m → db_closed (db st) → cache st !! href m = None → stored (on_disk (db st)) r m.
Proof.
  intros (n & Hg & Hs & _)%(law stored_built) Hc Hdb Hnone. apply Hdb; [done|]. exists n. split; [|done].
  by rewrite <-get_on_disk.
Qed.

(** ** Writing a node *)
Lemma to_vec_inj m m' :
  m ≠ ∅ → m' ≠ ∅ → NodeHash.to_vec (href m) = NodeHash.to_vec (href m') → href m = href m'.
Proof.
  intros Hm Hm'. destruct (href_wf keccak256 keccak_array m Hm) as (Hw & Hs & _).
  destruct (href_wf keccak256 keccak_array m' Hm') as (Hw' & Hs' & _).
  destruct (href m) as [x|x], (href m') as [y|y]; cbn in *; intros ->; [done| | |done].
  - destruct Hw as [_ Hw]. lia.
  - destruct Hw' as [_ Hw']. lia.
Qed.

(** The nodes that the trie makes can be stored. *)
Lemma ref_node_hash m :
  m ≠ ∅ → bytes_ok (root_rlp keccak256 m) → wf_node_hash (href m) ∧ zlen (NodeHash.encode (href m)) <= 73.
Proof.
  intros Hm Hb. destruct (href_wf keccak256 keccak_array m Hm) as (Hw & Hs & _).
  destruct (href_bytes keccak256 keccak_array m Hb) as [Hv Hl]. split; [|by apply node_hash_zlen].
  split; [done|]. destruct (href m) as [x|x]; cbn in *; [apply Hw|lia].
Qed.
Lemma shape_wf r n m : shape r n m → wf_node n ∧ zlen (Node.encode n) <= isize_max.
Proof.
  intros (Hk & Hr & Hs). assert (isize_max = 2 ^ 63 - 1) as Hmax by done.
  assert (∀ p m', m = push p m' ∨ m' = sub p m → m' ≠ ∅ →
    wf_node_hash (href m') ∧ zlen (NodeHash.encode (href m')) <= 73) as Hsub.
  { intros p m' Hm' Hne. apply ref_node_hash; [done|]. pose proof (zlen_nonneg p).
    apply (root_rlp_bytes keccak256 keccak_array (Z.to_nat (2 * L)) (r - zlen p)); [lia..| |done].
    destruct Hm' as [->| ->]; [by apply keys_ok_push_inv|by apply keys_ok_sub]. }
  destruct n as [n|n|n]; cbn [wf_node Node.encode]; rewrite zlen_cons.
  - destruct Hs as [Hm ->].
    assert (Forall (λ h, wf_node_hash h ∧ zlen (NodeHash.encode h) <= 73) (choices href m)) as Hc.
    { apply Forall_map, Forall_true. intros i. case_decide as Hi; [by split|]. apply (Hsub [i]); [by right|done]. }
    apply Forall_and in Hc as [Hw Hl].
    split; [split_and!; [apply choices_length|done..]|].
    pose proof (branch_zlen _ (choices_length href m) Hl). lia.
  - destruct Hs as (Wv & _ & m' & Hm' & -> & Hc). destruct n as [v h]. cbn in Wv, Hc, Hk. subst h.
    destruct (Hsub (nibbles v) m') as [Hw Hl]; [by left|by apply branching_ne|].
    pose proof (vec_bytes v Wv) as Hb. split; [done|].
    assert (vec_len v <= r) as Hvl.
    { rewrite <-zlen_nibbles by done. eapply (law prefix_fits); [done|by apply branching_ne]. }
    pose proof (law vec_data_short v Wv ltac:(lia)). unfold vec_len in Hvl.
    pose proof (b2z_range (NibbleVec.first_is_half v)). pose proof (b2z_range (NibbleVec.last_is_half v)).
    pose proof (extension_zlen v (href m') Hb ltac:(lia) Hl). lia.
  - destruct Hs as (Hb & Hl & ->). destruct (Hk _ _ (lookup_singleton_eq _ _)) as (_ & _ & Hv & Hvl).
    destruct n as [path value]. cbn [LeafNode.path LeafNode.value] in *. split; [done|]. pose proof (leaf_zlen path value Hb Hv ltac:(lia) Hvl). lia.
Qed.

Definition written (n : Node.t) (m : pmap) (st : TrieState db_t) : TrieState db_t :=
  mkState (<[NodeHash.to_vec (href m) := Node.encode n]> (db st)) (cache st).
Lemma get_written r n m m' st :
  shape r n m → m' ≠ ∅ → cache st !! href m = None →
  get_node (href m') (written n m st) = if decide (href m = href m') then Ok (Some n) else get_node (href m') st.
Proof.
  intros Hs Hm' Hc. unfold get_node, written. cbn [cache db db_get in_memory_trie_db].
  case_decide as He.
  - rewrite <-He, Hc, lookup_insert_eq, bind_Ok_l. destruct (shape_wf r n m Hs) as [Hw Hz].
    by rewrite (codec_decode Node.encode Node.decode_unfinished wf_node).
  - destruct (cache st !! href m'); [done|]. rewrite lookup_insert_ne; [done|]. intros Hv. apply He, to_vec_inj; [|done..].
    by eapply (law shape_ne).
Qed.
Lemma has_ne st r m : has st r m → m ≠ ∅.
Proof. intros (n & _ & Hs). by eapply (law shape_ne). Qed.
Lemma written_has r n m st :
  shape r n m → covered m → cache st !! href m = None →
  has (written n m st) r m ∧
  (∀ r' m', covered m' → has st r' m' → has (written n m st) r' m') ∧
  (∀ r' m', covered m' → has (written n m st) r' m' → m' = m ∧ r' = r ∨ has st r' m').
Proof.
  intros Hs Hc Hnone. split_and!.
  - exists n. split; [|done]. rewrite (get_written r) by (done || by eapply (law shape_ne)). by rewrite decide_True.
  - intros r' m' Hc' Hh. pose proof (has_ne _ _ _ Hh). destruct Hh as (n' & Hg & Hs'). unfold TrieLaws.has.
    rewrite (get_written r) by done. case_decide as He; [|eauto].
    destruct (law shape_inj _ _ _ _ _ _ Hs Hs' Hc Hc' He) as [-> ->]. eauto.
  - intros r' m' Hc' Hh. pose proof (has_ne _ _ _ Hh). destruct Hh as (n' & Hg & Hs').
    rewrite (get_written r) in Hg by done. case_decide as He; [left|right; by exists n'].
    by destruct (law shape_inj _ _ _ _ _ _ Hs Hs' Hc Hc' He) as [-> ->].
Qed.

(** ** Committing *)
Lemma below_delete st r n m :
  shape r n m → covered m →
  ∀ r' m', covered m' → r' < r → stored st r' m' → stored (mkState (db st) (delete (href m) (cache st))) r' m'.
Proof.
  intros Hs Hc r' m' Hc' Hr Hm'. induction Hm' as [r' m' (n' & Hg & Hs') Hk IHk Hb IHb]. constructor.
  - exists n'. split; [|done]. unfold get_node in *. cbn [cache db]. rewrite lookup_delete_ne; [done|].
    intros He. destruct (law shape_inj _ _ _ _ _ _ Hs Hs' Hc Hc' He) as [_ ->]. lia.
  - intros p m1 -> Hp Hm1. pose proof (zlen_nonneg p). apply IHk; [done..| |lia]. by eapply (law covered_push).
  - intros Hm i Hi. apply IHb; [done..| |lia]. by apply covered_sub.
Qed.
Lemma commits_stored st st' r m : commits st st' → covered m → stored st r m → stored st' r m.
Proof. intros [Hh _ _ _ _]. by apply (law has_stored_mono). Qed.
Lemma commits_stored_disk st st' r m :
  commits st st' → covered m → stored (on_disk (db st)) r m → stored (on_disk (db st')) r m.
Proof. intros [_ Hh _ _ _]. by apply (law has_stored_mono). Qed.

(** What committing a node promises. *)
Definition commits_node (c : NodeHash.t → stm (TrieState db_t) TrieError unit) (bound : nat) : Prop :=
  ∀ st r m, stored st r m → covered m → db_closed (db st) → (size (cache st) < bound)%nat →
  ∃ st', c (href m) st = (st', Ok tt) ∧ commits st st' ∧ stored (on_disk (db st')) r m.

Lemma commits_size st st' : commits st st' → (size (cache st') <= size (cache st))%nat.
Proof. intros Hc. apply map_subseteq_size, Hc. Qed.
Lemma commit_choices c bound r m ix :
  commits_node c bound → covered m →
  ∀ st, (∀ i, i ∈ ix → sub [i] m ≠ ∅ → stored st (r - 1) (sub [i] m)) →
  db_closed (db st) → (size (cache st) < bound)%nat →
  ∃ st', for_each (λ child, if NodeHash.is_valid child then c child else mret tt)
      (map (λ i, if decide (sub [i] m = ∅) then NodeHash.default else href (sub [i] m)) ix) st = (st', Ok tt) ∧
    commits st st' ∧ ∀ i, i ∈ ix → sub [i] m ≠ ∅ → stored (on_disk (db st')) (r - 1) (sub [i] m).
Proof.
  intros Hc Hm. induction ix as [|i ix IH]; intros st Hst Hdb Hsz.
  { exists st. split_and!; [done..|]. by intros i ?%not_elem_of_nil. }
  assert (∃ st1, (if NodeHash.is_valid (if decide (sub [i] m = ∅) then NodeHash.default else href (sub [i] m))
      then c (if decide (sub [i] m = ∅) then NodeHash.default else href (sub [i] m)) else mret tt) st = (st1, Ok tt) ∧
    commits st st1 ∧ (sub [i] m ≠ ∅ → stored (on_disk (db st1)) (r - 1) (sub [i] m))) as (st1 & Hrun & Hc1 & Hs1).
  { destruct (decide (sub [i] m = ∅)) as [He|He]; [by exists st|].
    destruct (href_wf keccak256 keccak_array _ He) as (_ & _ & ->).
    destruct (Hc st (r - 1) (sub [i] m)) as (st1 & ? & ? & ?); [apply Hst; [by constructor|done]|by apply covered_sub|done..|].
    by exists st1. }
  destruct (IH st1) as (st2 & Hrun2 & Hc2 & Hs2).
  { intros j Hj Hne. eapply commits_stored; [done|by apply covered_sub|]. apply Hst; [by constructor|done]. }
  { by apply Hc1. }
  { pose proof (commits_size _ _ Hc1). lia. }
  exists st2. split_and!; [|by etrans|].
  - cbn [map for_each]. by rewrite (stm_bind_Ok _ _ _ _ _ Hrun).
  - intros j [->|Hj]%elem_of_cons Hne; [|by apply Hs2].
    eapply commits_stored_disk; [done|by apply covered_sub|by apply Hs1].
Qed.

(** The nodes below a cached one, once it has left the cache. *)
Definition commit_below (fuel : nat) (n : Node.t) : stm (TrieState db_t) TrieError unit :=
  match n with
  | Node.Branch n =>
    for_each (λ child, if NodeHash.is_valid child then commit_node fuel child else mret tt) (BranchNode.choices n)
  | Node.Extension n => commit_node fuel (ExtensionNode.child n)
  | Node.Leaf _ => mret tt
  end.
Lemma commit_below_ok fuel st r n m :
  commits_node (commit_node fuel) fuel → shape r n m → covered m → kids st r m →
  db_closed (db st) → (size (cache st) < fuel)%nat →
  ∃ st', commit_below fuel n st = (st', Ok tt) ∧ commits st st' ∧ kids (on_disk (db st')) r m.
Proof.
  intros IH Hs Hc [Hk Hb] Hdb Hsz. pose proof Hs as (_ & _ & Hn). destruct n as [n|n|n]; cbn [commit_below].
  - destruct Hn as [Hm ->].
    destruct (commit_choices (commit_node fuel) fuel r m (seqZ 0 16) IH Hc st) as (st' & Hrun & Hcm & Hst);
      [intros i _; by apply Hb|done..|].
    exists st'. split_and!; [done..|]. split.
    + intros p m' -> Hp _. by apply push_not_branching in Hm.
    + intros _ i Hi. apply Hst; [|done]. apply elem_of_seqZ.
      destruct (sub_nonempty_inv _ _ Hi) as (k & v & Hkv). destruct Hs as (Hok & _).
      destruct (Hok _ _ Hkv) as (_ & [Hi' _]%Forall_cons & _). unfold is_nibble in Hi'. lia.
  - destruct Hn as (Wv & _ & m' & Hm' & -> & ->). pose proof (nibbles_nonempty _ Wv) as Hne.
    destruct (IH st (r - zlen (nibbles (ExtensionNode.prefix n))) m') as (st' & Hrun & Hcm & Hst);
      [by apply Hk|by eapply (law covered_push)|done..|].
    exists st'. split_and!; [done..|]. split.
    + intros p m1 He Hp Hm1. by apply push_branching_inj in He as [<- <-].
    + intros Hbr. by apply push_not_branching in Hbr.
  - destruct Hn as (_ & _ & ->). exists st. split_and!; [done..|]. split.
    + intros p m' He _ Hm'. symmetry in He. by apply push_not_singleton in He.
    + intros Hbr. by apply singleton_not_branching in Hbr.
Qed.

Lemma kids_delete st r n m :
  shape r n m → covered m → kids st r m →
  kids (mkState (db st) (delete (href m) (cache st))) r m.
Proof.
  intros Hs Hc [Hk Hb]. split.
  - intros p m' -> Hp Hm'. eapply below_delete; [done..|by eapply (law covered_push)| |by apply Hk].
    destruct p; [done|]. rewrite zlen_cons. pose proof (zlen_nonneg p). lia.
  - intros Hm i Hi. eapply below_delete; [done..|by apply covered_sub|lia|by apply Hb].
Qed.
Lemma written_origins K st r n m : shape r n m → origin K n → origins K st → origins K (written n m st).
Proof.
  intros Hs Hn [Hc Hd]. split; [done|]. intros h n'. unfold get_node, written. cbn [cache db db_get in_memory_trie_db].
  rewrite lookup_empty. destruct (decide (NodeHash.to_vec (href m) = NodeHash.to_vec h)) as [He|He].
  - rewrite He, lookup_insert_eq, bind_Ok_l. destruct (shape_wf r n m Hs) as [Hw Hz].
    rewrite (codec_decode Node.encode Node.decode_unfinished wf_node) by done. cbn. by intros [= <-].
  - rewrite lookup_insert_ne by done. intros Hg. apply (Hd h). unfold get_node. cbn [cache db db_get in_memory_trie_db].
    by rewrite lookup_empty.
Qed.
Lemma written_commits st st2 r n m :
  let st1 := mkState (db st) (delete (href m) (cache st)) in
  shape r n m → (∀ K, origins K st → origin K n) → covered m → db_closed (db st) → commits st1 st2 → kids (on_disk (db st2)) r m →
  commits st (written n m st2) ∧ stored (on_disk (db (written n m st2))) r m.
Proof.
  intros st1 Hs Hn Hc Hdb Hc2 Hk.
  assert (cache st2 !! href m = None) as Hnone.
  { destruct (cache st2 !! href m) eqn:E; [|done]. pose proof (commits_cache _ _ Hc2) as Hsub.
    apply (lookup_weaken _ _ _ _ E) in Hsub. cbn [cache st1] in Hsub. by rewrite lookup_delete_eq in Hsub. }
  destruct (written_has r n m st2 Hs Hc Hnone) as (Hw & Hw2 & _).
  destruct (written_has r n m (on_disk (db st2)) Hs Hc eq_refl) as (Hd & Hd2 & Hd3).
  change (written n m (on_disk (db st2))) with (on_disk (db (written n m st2))) in *.
  assert (stored (on_disk (db (written n m st2))) r m) as Hst.
  { destruct Hd as (n' & Hg & Hs'). eapply (law built_stored); [exact Hg|]. split; [done|].
    destruct Hk as [Hk Hb]. split.
    - intros p m' -> Hp Hm'. eapply (law has_stored_mono); [exact Hd2|by eapply (law covered_push)|by apply Hk].
    - intros Hm i Hi. eapply (law has_stored_mono); [exact Hd2|by apply covered_sub|by apply Hb]. }
  split; [|done]. split.
  - intros r' m' Hc' Hh. destruct (decide (href m = href m')) as [He|He].
    + destruct Hh as (n' & _ & Hs'). by destruct (law shape_inj _ _ _ _ _ _ Hs Hs' Hc Hc' He) as [-> ->].
    + apply Hw2; [done|]. apply Hc2; [done|]. destruct Hh as (n' & Hg & Hs'). exists n'. split; [|done].
      unfold get_node in *. cbn [cache db st1]. by rewrite lookup_delete_ne.
  - intros r' m' Hc' Hh. apply Hd2; [done|]. by apply (commits_disk _ _ Hc2).
  - cbn. etrans; [apply Hc2|]. apply delete_subseteq.
  - intros _ r' m' Hc' Hh. apply Hd3 in Hh as [[-> ->]|Hh]; [done| |done].
    eapply (law has_stored_mono); [exact Hd2|done|]. by apply (commits_closed _ _ Hc2).
  - intros K HK. eapply written_origins; [done|by apply Hn|]. apply (commits_origins _ _ Hc2). destruct HK as [Hcache Hdisk].
    split; [|done]. intros h n'. cbn. intros [_ Hl]%lookup_delete_Some. by eapply Hcache.
Qed.
Lemma commit_node_ok fuel : commits_node (commit_node fuel) fuel.
Proof.
  induction fuel as [|fuel IH]; intros st r m Hst Hc Hdb Hsz; [lia|]. cbn [commit_node].
  destruct (cache st !! href m) as [n|] eqn:E.
  2: { exists st. split_and!; [done..|by apply stored_uncached]. }
  destruct (law stored_built _ _ _ Hst) as (n' & Hg & Hs & Hk).
  unfold get_node in Hg. rewrite E in Hg. injection Hg as <-.
  set (st1 := mkState (db st) (delete (href m) (cache st))).
  destruct (commit_below_ok fuel st1 r n m) as (st2 & Hrun & Hc2 & Hk2); [done..|by eapply kids_delete|done| |].
  { cbn [cache st1]. rewrite map_size_delete_Some by (by eexists).
    assert (size (cache st) ≠ 0)%nat; [|lia]. by eapply map_size_ne_0_lookup_2; eexists. }
  destruct (written_commits st st2 r n m Hs (λ K HK, proj1 HK _ _ E) Hc Hdb Hc2 Hk2) as [Hc3 Hst3].
  exists (written n m st2). split_and!; [|done..]. by rewrite (stm_bind_Ok _ _ _ _ _ Hrun).
Qed.

(** ** Trie::hash and Trie::open *)
Lemma hash_ok (t : Trie.t db_t) m :
  stands_for keccak256 L t m → covered m → db_closed (db (Trie.state t)) →
  ∃ t', Trie.hash keccak256 t = (t', Ok (map_root keccak256 m)) ∧ stands_for keccak256 L t' m ∧
    db_closed (db (Trie.state t')) ∧ (∀ K, origins K (Trie.state t) → origins K (Trie.state t')) ∧ (Trie.root t' = None ∨ cache (Trie.state t') = ∅) ∧
    ∀ r' m', covered m' → stored (on_disk (db (Trie.state t))) r' m' → stored (on_disk (db (Trie.state t'))) r' m'.
Proof.
  intros Ht Hc Hdb. destruct t as [root st]. pose proof (law root_hash_ok _ _ Ht) as Hroot.
  destruct Ht as [[-> Hr]|[Hr Hst]]; cbn in Hr; subst root.
  - exists (Trie.mk None st). split_and!; [|by left|done|done|by left|done]. unfold Trie.hash.
    do 2 (erewrite stm_bind_Ok by done). unfold Trie.read. by rewrite Hroot.
  - destruct (commit_node_ok (S (size (cache st))) st (2 * L) m) as (st' & Hrun & Hcm & Hst'); [done..|lia|].
    set (t' := Trie.mk (Some (href m)) (mkState (db st') ∅)).
    assert (stands_for keccak256 L t' m) as Ht' by (by right).
    exists t'. split_and!; [|done|by apply Hcm| |by right|].
    + unfold Trie.hash. erewrite stm_bind_Ok by done. cbv beta iota.
      erewrite stm_bind_Ok.
      2: { apply (law on_state_Ok). unfold commit. cbn [Trie.state].
           rewrite (stm_bind_Ok _ _ _ _ _ Hrun). done. }
      unfold Trie.read. f_equal. f_equal. exact (law root_hash_ok t' m Ht').
    + intros K HK%(commits_origins _ _ Hcm). split; [done|apply HK].
    + intros r' m' Hc' Hd. exact (commits_stored_disk st st' r' m' Hcm Hc' Hd).
Qed.
(** The root node of a map can be found again if it is not so short that the parent
    would have contained it. *)
Definition rooted (m : pmap) : Prop := m = ∅ ∨ 32 <= zlen (root_rlp keccak256 m).
Lemma open_ok d m :
  U (Bytes_encode []) → covered m → rooted m → (m ≠ ∅ → stored (on_disk d) (2 * L) m) →
  stands_for keccak256 L (Trie.open keccak256 d (map_root keccak256 m)) m.
Proof.
  intros Hu Hc Hr Hst. unfold Trie.open, map_root, Trie.EMPTY_TRIE_HASH.
  destruct (decide (m = ∅)) as [->|Hm]; [left; by rewrite bool_decide_false by auto|]. right.
  specialize (Hst Hm). destruct Hr as [?|Hlen]; [done|].
  rewrite bool_decide_true.
  - split; [|done]. cbn. unfold TrieRoot.href, NodeHash.from_encoded_raw. by decide_bools.
  - intros He. apply no_collision in He; [|by apply covered_self|done].
    rewrite root_rlp_eq in He by done. destruct (enc_struct (node_of href m)) as [l Hl].
    rewrite Hl in He. destruct (struct_rlp_head l) as (b & t & Hb & Hge). rewrite Hb in He. by injection He as -> _.
Qed.
End Commit.

Lemma db_closed_empty `{Profile} keccak256 U L : db_closed keccak256 U L ∅.
Proof. intros r m _ (n & Hg & _). by unfold get_node in Hg; cbn in Hg. Qed.
Lemma covered_prefix_run keccak256 (U : list Z → Prop) l1 l2 n :
  (∀ x, x ∈ run_nodes keccak256 (l1 ++ l2) → U x) → (n <= length l1)%nat → covered keccak256 U (paths (inserted (take n l1))).
Proof.
  intros HU Hn. pose proof (covered_run keccak256 (l1 ++ l2) n ltac:(rewrite length_app; lia)) as Hc.
  rewrite take_app_le in Hc by done. intros p Hp. apply HU, (Hc p Hp).
Qed.
Lemma covered_suffix_run keccak256 (U : list Z → Prop) l1 l2 n :
  (∀ x, x ∈ run_nodes keccak256 (l1 ++ l2) → U x) → (n <= length l2)%nat →
  covered keccak256 U (paths (inserted_into (inserted l1) (take n l2))).
Proof.
  intros HU Hn. pose proof (covered_run keccak256 (l1 ++ l2) (length l1 + n) ltac:(rewrite length_app; lia)) as Hc.
  rewrite take_app_add, inserted_app in Hc. intros p Hp. apply HU, (Hc p Hp).
Qed.

(** C32: insertions into an empty trie, a commit, and insertions into the trie that is
    opened on the database at the root hash: every step succeeds, [hash] returns the
    root of the yellow paper for the first entries, and the second trie has the entries
    of both runs and their root.  The root node must not be shorter than a hash: a
    shorter one is stored under its encoding, where [open] does not look. *)
Theorem commit_reopen_continue (P : Profile) (keccak256 : list Z → list Z) (L : Z)
    (l1 l2 : list (list Z * list Z)) :
  (∀ x, is_array 32 (keccak256 x)) → 0 <= L < 2 ^ 59 → Forall (entry_ok L) (l1 ++ l2) →
  no_collisions keccak256 (Bytes_encode [] :: run_nodes keccak256 (l1 ++ l2)) →
  rooted keccak256 (paths (inserted l1)) →
  ∃ t1 t2 t3 : Trie.t (gmap (list Z) (list Z)),
    insert_all keccak256 l1 (Trie.new ∅) = (t1, Ok (E:=TrieError) tt) ∧
    Trie.hash keccak256 t1 = (t2, Ok (entries_root keccak256 l1)) ∧
    insert_all keccak256 l2 (Trie.open keccak256 (db (Trie.state t2)) (entries_root keccak256 l1)) =
      (t3, Ok (E:=TrieError) tt) ∧
    Trie.root_hash keccak256 t3 = entries_root keccak256 (l1 ++ l2) ∧
    ∀ k, bytes_ok k → zlen k = L → Trie.get t3 k = Ok (inserted (l1 ++ l2) !! k).
Proof.
  intros Hka HL Hl Hn Hr. apply no_collisions_free in Hn. set (U := (.∈ _)) in Hn.
  apply Forall_app in Hl as [Hl1 Hl2].
  assert (∀ x, x ∈ run_nodes keccak256 (l1 ++ l2) → U x) as HU by (intros x Hx; by constructor).
  destruct (run_inserts (E:=TrieError) keccak256 L U (Trie.new (∅ : gmap (list Z) (list Z))) ∅ l1 Hka HL Hn Hl1)
    as (t1 & Hrun1 & Ht1 & Hdb1).
  { intros n Hle. by eapply covered_prefix_run. }
  { by apply (new_represents keccak256 Hka L HL). }
  assert (covered keccak256 U (paths (inserted l1))) as Hc1.
  { rewrite <-(take_ge l1 (length l1)) by done. by eapply covered_prefix_run. }
  destruct (hash_ok keccak256 Hka U Hn L HL t1 (paths (inserted l1))) as (t2 & Hrun2 & Ht2 & _ & _ & Hcache & _);
    [done|done|rewrite Hdb1; apply db_closed_empty|].
  assert (represents keccak256 L (Trie.open keccak256 (db (Trie.state t2)) (entries_root keccak256 l1)) (inserted l1)) as Ht3.
  { apply (open_ok keccak256 Hka U Hn L HL); [by constructor|done|done|]. intros Hne.
    destruct Ht2 as [[? _]|[Hroot Hst]]; [done|]. destruct Hcache as [Hnone|Hcache]; [congruence|].
    destruct (Trie.state t2) as [d c]. cbn in Hcache. by subst c. }
  destruct (run_inserts (E:=TrieError) keccak256 L U (Trie.open keccak256 (db (Trie.state t2)) (entries_root keccak256 l1)) (inserted l1) l2 Hka HL Hn Hl2)
    as (t3 & Hrun3 & Ht4 & _);
    [intros n Hle; by eapply covered_suffix_run|done|].
  rewrite <-inserted_app in Ht4. exists t1, t2, t3. split_and!; [done..| |].
  - by eapply (root_represents keccak256 Hka L HL).
  - intros k Hk Hkl. by eapply (get_represents keccak256 Hka L HL).
Qed.

Lemma commit_reopen_continue_witness :
  ∃ t1 t2 t3 : Trie.t (gmap (list Z) (list Z)),
    insert_all (H:=dev_profile) toy_digest sample_entries (Trie.new ∅) = (t1, Ok (E:=TrieError) tt) ∧
    Trie.hash toy_digest t1 = (t2, Ok (entries_root toy_digest sample_entries)) ∧
    insert_all (H:=dev_profile) toy_digest [([0x12], [3])]
      (Trie.open toy_digest (db (Trie.state t2)) (entries_root toy_digest sample_entries)) =
      (t3, Ok (E:=TrieError) tt) ∧
    Trie.get (H:=dev_profile) t3 [0x12] = Ok (inserted (sample_entries ++ [([0x12], [3])]) !! [0x12]).
Proof.
  destruct (commit_reopen_continue dev_profile toy_digest 1 sample_entries [([0x12], [3])])
    as (t1 & t2 & t3 & H1 & H2 & H3 & _ & H4); [exact toy_digest_array|done|by_decide|by_decide|right; by_decide|].
  exists t1, t2, t3. refine (conj H1 (conj H2 (conj H3 (H4 _ _ _)))); [by_decide|done].
Defined.

(** A trie with one short entry cannot be opened again: its root node is stored under
    its encoding, [open] looks for its hash, and the lookup panics. *)
Example short_root_lost :
  let '(t1, _) := Trie.insert (H:=dev_profile) toy_digest [0x11] [1] (Trie.new (∅ : gmap (list Z) (list Z))) in
  let '(t2, r) := Trie.hash toy_digest t1 in
  Trie.get (H:=dev_profile) t2 [0x11] = Ok (Some [1]) ∧
  match r with
  | Ok root => Trie.get (H:=dev_profile) (Trie.open toy_digest (db (Trie.state t2)) root) [0x11] = Panic
  | _ => False
  end.
Proof. by vm_compute. Qed.
