(* ===== verification/TrieRemove.v ===== *)
(** * Removing keys

    Removing a key that a trie does not have changes nothing.  Removing one that it has
    takes the nodes that remain from where their hashes lead, which goes wrong in the
    cases at the end of this file. *)

From S2P Require Import Prelude Rlp RlpLaws U256 Codec Effects Nibble NibbleLaws.
From S2P Require Import TrieNode Trie TrieSpec TrieEncoding TrieRoot TrieLaws TrieRefine.

(** ** A branch of several children stays a branch *)
Lemma single_choice_Some l x : ∀ k a, x ∈ l → NodeHash.is_valid x = true → single_choice l k (Some a) = None.
Proof.
  induction l as [|y l IH]; intros k a Hx Hv; [by apply not_elem_of_nil in Hx|]. cbn.
  destruct (NodeHash.is_valid y) eqn:E; [done|]. apply elem_of_cons in Hx as [->|Hx]; [congruence|auto].
Qed.
Lemma single_choice_two l : ∀ k i j x y,
  i ≠ j → l !! i = Some x → l !! j = Some y → NodeHash.is_valid x = true → NodeHash.is_valid y = true →
  single_choice l k None = None.
Proof.
  induction l as [|z l IH]; intros k i j x y Hij Hi Hj Hx Hy; [done|]. cbn.
  destruct i as [|i], j as [|j]; cbn in *; [done|..].
  - injection Hi as ->. rewrite Hx. eapply single_choice_Some; [by eapply list_elem_of_lookup_2|done].
  - injection Hj as ->. rewrite Hy. eapply single_choice_Some; [by eapply list_elem_of_lookup_2|done].
  - destruct (NodeHash.is_valid z); [eapply single_choice_Some; [by eapply list_elem_of_lookup_2|done]|].
    eapply (IH _ i j); [congruence|done..].
Qed.

Section Remove.
Context `{Profile} {D : Type} `{TrieDB D}.
Variable keccak256 : list Z → list Z.
Hypothesis keccak_array : ∀ x, is_array 32 (keccak256 x).
Variable U : list Z → Prop.
Hypothesis no_collision : collision_free keccak256 U.
Variable L : Z.
Hypothesis L_range : 0 <= L < 2 ^ 59.
#[local] Set Default Proof Using "All".

Abbreviation href := (href keccak256).
Abbreviation covered := (covered keccak256 U).
Abbreviation stored := (stored keccak256 L).
Abbreviation built := (built keccak256 L).
Abbreviation run := (run keccak256 U L).
Abbreviation M A := (stm (TrieState D) TrieError A).
Abbreviation law f := (f keccak256 keccak_array U no_collision L L_range) (only parsing).

Lemma single_choice_branching r m :
  branching m → keys_ok r m → single_choice (choices href m) 0 None = None.
Proof.
  intros (i & j & Hij & Hi & Hj) Hk.
  assert (∀ i, sub [i] m ≠ ∅ → is_nibble i ∧ choices href m !! Z.to_nat i = Some (href (sub [i] m)) ∧
    NodeHash.is_valid (href (sub [i] m)) = true) as Hc.
  { intros a Ha. destruct (sub_nonempty_inv _ _ Ha) as (k & v & Hkv).
    destruct (Hk _ _ Hkv) as (_ & [Hn _]%Forall_cons & _). split_and!; [done| |by apply href_wf].
    rewrite choices_lookup by done. by rewrite decide_False. }
  destruct (Hc i Hi) as (Ni & Li & Vi), (Hc j Hj) as (Nj & Lj & Vj). unfold is_nibble in *.
  eapply (single_choice_two _ _ (Z.to_nat i) (Z.to_nat j)); [lia|done..].
Qed.
Lemma branch_stays st r m o (Q : Node.t → TrieState D → Prop) :
  branching m → keys_ok r m → Q (Node.Branch (BranchNode.new (choices href m))) st →
  run (branch_restructure keccak256 (BranchNode.new (choices href m)) o) st Q.
Proof.
  intros Hm Hk HQ. unfold branch_restructure. cbn [BranchNode.choices BranchNode.path BranchNode.new].
  erewrite single_choice_branching by done. by apply (law run_ret).
Qed.

(** The node is as before, and nothing is returned. *)
Definition unchanged (r : Z) (m : pmap) (a : option Node.t * option (list Z)) (st : TrieState D) : Prop :=
  a.2 = None ∧ ∃ n, a.1 = Some n ∧ built st r n m.
Definition keeps_absent (rem : Node.t → NibbleSlice.t → M (option Node.t * option (list Z))) (r0 : Z) : Prop :=
  ∀ st r n m path, r < r0 → built st r n m → at_pos L path r → covered m → m !! rest path = None →
  run (rem n path) st (unchanged r m).

Lemma branch_remove_absent rem st r n m path :
  keeps_absent rem r → built st r (Node.Branch n) m → at_pos L path r → covered m → m !! rest path = None →
  run (branch_remove keccak256 rem n path) st (unchanged r m).
Proof.
  intros IH Hb Hp Hc Hnone. destruct (law pos_rest path r Hp) as (Hlen & Hr & _).
  pose proof Hb as [(Hk & _ & Hm & ->) [_ Hkids]]. unfold branch_remove, branch_take. rewrite next_spec by apply Hp.
  pose proof (rest_nibbles path (pos_slice _ _ _ Hp)) as Hn.
  destruct (rest path) as [|i k] eqn:Ek.
  { assert (0 < r) as Hr0; [|rewrite zlen_nil in Hlen; lia].
    eapply keys_ok_pos; [done|by apply branching_ne|]. intros k v ->. by apply singleton_not_branching in Hm. }
  apply Forall_cons in Hn as [Hi _]. destruct (law pos_tail path r [i] k Hp Ek) as (_ & Hr' & Hp').
  change (zlen [i]) with 1 in Hr', Hp'. change (i :: k) with ([i] ++ k) in Hnone. rewrite <-sub_lookup in Hnone.
  apply (law run_bind). eapply (law run_bind), (law run_lift); [by apply (law index_choices)|].
  destruct (decide (sub [i] m = ∅)) as [He|He].
  { apply (law run_ret), (law run_bind), (branch_stays _ r); [done..|]. apply (law run_ret). split; [done|]. eauto. }
  destruct (href_wf keccak256 keccak_array _ He) as (_ & _ & ->).
  apply (law run_bind). eapply (law run_fetch); [by apply Hkids|]. intros c Hbc.
  eapply (law run_bind), (law run_weaken); [apply (IH _ (r - 1)); [lia|exact Hbc|done|by apply covered_sub|by rewrite Hr']|].
  intros [c' v'] st1 Hg [Hv' (c1 & Hc1 & Hb1)]. cbn in Hv', Hc1. subst v' c'. apply (law run_bind).
  eapply (law run_insert_self); [exact Hb1|by apply covered_sub|destruct c1; [done..|]; apply (pos_offset _ _ _ Hp')|].
  intros st2 Hg2 Hst2. apply (law run_ret).
  assert (<[Z.to_nat i := href (sub [i] m)]> (choices href m) = choices href m) as Hsame.
  { apply list_insert_id. rewrite choices_lookup by done. by rewrite decide_False. }
  cbn [BranchNode.choices BranchNode.path BranchNode.value BranchNode.new]. rewrite Hsame.
  apply (law run_bind), (branch_stays _ r); [done..|]. apply (law run_ret). split; [done|]. eexists. split; [done|].
  destruct Hb as [Hs Hkid]. split; [done|]. eapply (law kids_grow); [|done|exact Hkid]. by eapply (law grows_preorder).
Qed.
Lemma extension_remove_absent rem st r n m path :
  keeps_absent rem r → built st r (Node.Extension n) m → at_pos L path r → covered m → m !! rest path = None →
  run (extension_remove keccak256 rem n path) st (unchanged r m).
Proof.
  intros IH Hb Hp Hc Hnone. destruct (law pos_rest path r Hp) as (Hlen & Hr & Hodd).
  pose proof Hb as [(Hk & _ & Wv & Fv & m0 & Hm0 & -> & Cv) [Hkids _]]. unfold extension_remove.
  set (v := ExtensionNode.prefix n) in *.
  assert (vec_len v <= r) as Hvl.
  { rewrite <-zlen_nibbles by done. by eapply (law prefix_fits), branching_ne. }
  eapply (law run_bind), (law run_no_err).
  { apply skip_prefix_spec; [apply Hp|done|by rewrite Hodd|lia|rewrite (pos_data _ _ _ Hp); lia]. }
  destruct (bool_decide (nibbles v `prefix_of` rest path)) eqn:E; cbv beta iota.
  2: { apply (law run_ret). split; [done|]. eauto. }
  apply bool_decide_eq_true in E as [k Ek]. destruct (law pos_tail path r _ _ Hp Ek) as (_ & Hr' & Hp').
  rewrite zlen_nibbles in Hr', Hp' by done. rewrite Ek, push_lookup in Hnone. rewrite Cv.
  assert (stored st (r - vec_len v) m0) as Hst.
  { rewrite <-zlen_nibbles by done. apply Hkids; [done|by apply nibbles_nonempty|done]. }
  pose proof (vec_pos v Wv). assert (covered m0) by (by eapply (law covered_push)).
  apply (law run_bind). eapply (law run_fetch); [done|]. intros c Hbc.
  eapply (law run_bind), (law run_weaken); [apply (IH _ (r - vec_len v)); [lia|exact Hbc|done|done|by rewrite Hr']|].
  intros [c' v'] st1 Hg [Hv' (c1 & Hc1 & Hb1)]. cbn in Hv', Hc1. subst v' c'.
  rewrite (law shape_branching _ _ _ (proj1 Hb1) Hm0) in Hb1 |- *.
  apply (law run_bind), (law run_bind).
  eapply (law run_insert_self (Node.Branch (BranchNode.new (choices href m0))) 0); [exact Hb1|done|done|]. intros st2 _ Hst2.
  do 2 apply (law run_ret). split; [done|]. eexists. split; [done|]. apply (law built_ext); done || lia.
Qed.
Lemma leaf_remove_absent st r n m path :
  built st r (Node.Leaf n) m → at_pos L path r → m !! rest path = None → run (leaf_remove n path) st (unchanged r m).
Proof.
  intros Hb Hp Hnone. destruct (law pos_rest path r Hp) as (Hlen & Hr & _).
  pose proof Hb as [(Hk & _ & Hbp & Hl & Hm) _]. unfold leaf_remove. pose proof (pos_offset _ _ _ Hp) as Ho.
  eapply (law run_bind), (law run_no_err); [apply cmp_rest_spec; [apply Hp|split; cbn; [done|lia]]|].
  rewrite bool_decide_false.
  { apply (law run_ret). split; [done|]. eauto. }
  intros He. rewrite Hm, He in Hnone. unfold rest in Hnone. cbn in Hnone. by rewrite Ho, lookup_singleton_eq in Hnone.
Qed.
Lemma node_remove_absent fuel : ∀ r0, r0 <= Z.of_nat fuel → keeps_absent (node_remove keccak256 fuel) r0.
Proof.
  induction fuel as [|fuel IH]; intros r0 Hf st r n m path Hr Hb Hp Hc Hnone.
  { destruct (law pos_rest path r Hp). lia. }
  cbn [node_remove]. destruct n as [n|n|n].
  - apply branch_remove_absent; [apply IH; lia|done..].
  - apply extension_remove_absent; [apply IH; lia|done..].
  - by apply leaf_remove_absent.
Qed.

Lemma remove_absent_ok (t : Trie.t D) m k :
  stands_for keccak256 L t m → covered m → bytes_ok k → zlen k = L → m !! nibs k = None →
  ∃ t', Trie.remove keccak256 k t = (t', Ok None) ∧ stands_for keccak256 L t' m ∧
    db (Trie.state t') = db (Trie.state t).
Proof.
  intros Ht Hc Hk Hl Hnone. destruct t as [root st]. destruct Ht as [[-> Hr]|[Hr Hst]]; cbn in Hr; subst root.
  { exists (Trie.mk None st). split_and!; [done|by left|done]. }
  destruct (law stored_built _ _ _ Hst) as (n & Hget & Hn). cbn in Hget.
  destruct (node_remove_absent (Trie.path_fuel k) (2 * L + 1) (law path_fuel_enough k Hl) st (2 * L) n m (NibbleSlice.new k))
    as (st1 & [n1 v] & Hrun1 & [Hdb1 _] & Hv & n2 & Hn2 & Hb2); [lia|done|by apply (law pos_new)|done|by rewrite rest_new|].
  cbn in Hv, Hn2. subst v n1.
  assert (run (node_insert_self keccak256 n2 0) st1 (λ h st', h = href m ∧ stored st' (2 * L) m))
    as (st2 & h & Hrun2 & [Hdb2 _] & -> & Hst2).
  { eapply (law run_insert_self); [done|done| |done]. destruct n2; [done..|lia]. }
  exists (Trie.mk (Some (href m)) st2). split_and!; [|by right|cbn; congruence].
  unfold Trie.remove. erewrite stm_bind_Ok by done. cbn [Trie.root Trie.state].
  erewrite (stm_bind_Ok _ _ _ (Trie.mk None st) n) by (apply (law on_state_Ok); unfold fetch, expect_node; cbn; by rewrite Hget).
  erewrite stm_bind_Ok by (by apply (law on_state_Ok)). cbv beta iota.
  erewrite stm_bind_Ok; [|by erewrite stm_bind_Ok by (by apply (law on_state_Ok))]. done.
Qed.
End Remove.

(** Removing a key that a trie of keys of one length does not have succeeds, returns
    nothing, and leaves the entries and the root hash as they were. *)
Theorem remove_absent `{Profile} {D} `{TrieDB D} (keccak256 : list Z → list Z) (L : Z)
    (t : Trie.t D) (b : pmap) (k : list Z) :
  (∀ x, is_array 32 (keccak256 x)) → 0 <= L < 2 ^ 59 → no_collisions keccak256 (nodes keccak256 (paths b)) →
  represents keccak256 L t b → bytes_ok k → zlen k = L → b !! k = None →
  ∃ t', Trie.remove keccak256 k t = (t', Ok None) ∧ represents keccak256 L t' b ∧
    Trie.root_hash keccak256 t' = Trie.root_hash keccak256 t ∧
    ∀ k', bytes_ok k' → zlen k' = L → Trie.get t' k' = Ok (b !! k').
Proof.
  intros Hka HL Hn Ht Hk Hl Hnone. apply no_collisions_free in Hn.
  destruct (remove_absent_ok keccak256 Hka _ Hn L HL t (paths b) k) as (t' & Hrun & Ht' & _);
    [done|by apply covered_nodes|done|done|by rewrite paths_lookup|].
  exists t'. split_and!; [done|done| |].
  - by rewrite !(root_represents keccak256 Hka L HL _ _ b Hn).
  - intros. by eapply (get_represents keccak256 Hka L HL).
Qed.
Lemma remove_absent_witness :
  ∃ t t', insert_all (H:=dev_profile) (E:=never) toy_digest sample_entries (Trie.new tt) = (t, Ok tt) ∧
    Trie.remove (H:=dev_profile) toy_digest [0x13] t = (t', Ok None) ∧
    Trie.root_hash toy_digest t' = Trie.root_hash toy_digest t.
Proof.
  destruct (@run_inserts dev_profile unit null_trie_db never toy_digest 1 (.∈ run_nodes toy_digest sample_entries)
    (Trie.new tt) ∅ sample_entries toy_digest_array) as (t & Hrun & Ht & _);
    [done|apply no_collisions_free; by_decide|by_decide|apply covered_run|by apply (new_represents toy_digest toy_digest_array)|].
  destruct (@remove_absent dev_profile unit null_trie_db toy_digest 1 t (inserted_into ∅ sample_entries) [0x13])
    as (t' & Hi & _ & Hr & _); [exact toy_digest_array|done|by_decide|exact Ht|by_decide|done|by_decide|].
  exists t, t'. exact (conj Hrun (conj Hi Hr)).
Defined.

(** ** Removals that go wrong

    [run_remove] inserts entries, removes a key and looks up others. *)
Definition run_remove (l : list (list Z * list Z)) (removed : list Z) (keys : list (list Z))
    : list (res TrieError (option (list Z))) :=
  let '(t, _) := insert_all (H:=dev_profile) (E:=TrieError) toy_digest l (Trie.new tt) in
  let '(t, _) := Trie.remove (H:=dev_profile) toy_digest removed t in
  map (λ k, Trie.get (H:=dev_profile) t k) keys.

(** A branch that has a value and keeps two children becomes a leaf: the two entries
    below it are lost. *)
Example value_branch_loses_children :
  run_remove [([0x00], [1]); ([0x00; 0x10], [2]); ([0x00; 0x20], [3]); ([0x00; 0x30], [4])] [0x00; 0x30]
    [[0x00; 0x10]; [0x00; 0x20]] = [Ok None; Ok None].
Proof. by vm_compute. Qed.
(** Two leaves with the same end of the path and the same value share a hash, and the
    cache keeps the path of one of them: when the other one takes the place of its
    branch it is filed under the wrong path. *)
Example equal_leaves_lose_paths :
  run_remove [([0x11; 0x55], [1]); ([0x12; 0x66], [7]); ([0x22; 0x55], [1]); ([0x23; 0x66], [8])] [0x12; 0x66]
    [[0x11; 0x55]] = [Ok None].
Proof. by vm_compute. Qed.
(** [skip_prefix] compares the length of the prefix with that of the whole path: a key
    that ends inside an extension makes it slice out of range. *)
Example short_key_panics :
  let '(t, r) := insert_all (H:=dev_profile) (E:=TrieError) toy_digest
    [([0x11; 0x22; 0x33; 0x44; 0x55], [1]); ([0x11; 0x22; 0x33; 0x44; 0x66], [2]);
     ([0x12; 0x22; 0x33; 0x44; 0x55], [3])] (Trie.new tt) in
  r = Ok tt ∧ Trie.get (H:=dev_profile) t [0x11; 0x22; 0x33] = Panic.
Proof. by vm_compute. Qed.
