(* ===== verification/TrieDelete.v ===== *)
(** * Removing keys that a trie has

    Removal rebuilds the branches that are left with one child.  A leaf that takes the
    place of its branch is read back from where its hash leads, and its hash does not
    tell the part of the path above it: the theorem assumes that no other key ever
    inserted ends like the part of a key below its branch. *)

From S2P Require Import Prelude Rlp RlpLaws U256 Codec Effects Nibble NibbleLaws.
From S2P Require Import TrieNode Trie TrieSpec TrieEncoding TrieRoot TrieLaws TrieRefine TrieLeaves TrieRemove.

(** ** Maps without a key *)
Lemma delete_sub_self i k m : sub [i] (delete (i :: k) m) = delete k (sub [i] m).
Proof. apply (sub_delete [i]). Qed.
Lemma delete_sub_ne i j k m : i ≠ j → sub [j] (delete (i :: k) m) = sub [j] m.
Proof. intros Hij. apply sub_delete_ne. by intros [k' [= Hi _]]. Qed.
Lemma branching_delete_ne k m : branching m → delete k m ≠ ∅.
Proof.
  intros (i & j & Hij & (a & v & Ha)%sub_nonempty_inv & (b & w & Hb)%sub_nonempty_inv) He.
  assert (∀ x y, m !! x = Some y → x = k) as Hk.
  { intros x y Hx. destruct (decide (x = k)) as [|Hne]; [done|].
    rewrite <-(lookup_delete_ne m k x), He in Hx by done. by rewrite lookup_empty in Hx. }
  apply Hk in Ha as <-. apply Hk in Hb. by simplify_eq/=.
Qed.
(** Only the child on the path can be lost. *)
Lemma branching_delete_child i k m : branching m → sub [i] (delete (i :: k) m) ≠ ∅ → branching (delete (i :: k) m).
Proof.
  intros (a & b & Hab & Ha & Hb) Hi. destruct (decide (a = i)) as [->|Hne].
  - exists i, b. by rewrite (delete_sub_ne i b).
  - exists a, i. by rewrite (delete_sub_ne i a).
Qed.
(** A map that does not branch has all its keys under one half-byte. *)
Lemma branching_or_one r m :
  keys_ok r m → 0 < r → m ≠ ∅ → branching m ∨ ∃ j, is_nibble j ∧ sub [j] m ≠ ∅ ∧ m = push [j] (sub [j] m).
Proof.
  intros Hk Hr (k & v & Hkv)%map_choose. destruct (Hk _ _ Hkv) as (Hl & Hn & _).
  destruct k as [|j k]; [rewrite zlen_nil in Hl; lia|]. apply Forall_cons in Hn as [Hj _].
  assert (sub [j] m ≠ ∅) as Hs by (by apply (sub_nonempty [j] m k v)).
  destruct (decide (map_Forall (λ k' _, [j] `prefix_of` k') m)) as [Ha|Ha].
  - right. exists j. split_and!; [done..|]. symmetry. apply push_sub. intros k' v' Hk'. by apply (Ha k' v').
  - left. apply map_not_Forall in Ha as (k' & v' & Hk' & Hp); [|apply _]. destruct (Hk _ _ Hk') as (Hl' & _).
    destruct k' as [|j' k']; [rewrite zlen_nil in Hl'; lia|].
    exists j', j. split_and!; [|by apply (sub_nonempty [j'] m k' v')|done]. intros ->. apply Hp. by exists k'.
Qed.
Lemma keys_ok_delete r k m : keys_ok r m → keys_ok r (delete k m).
Proof. apply map_Forall_delete. Qed.

(** ** The choices of a branch that loses a key *)
Lemma choices_delete h m i k :
  is_nibble i →
  choices h (delete (i :: k) m) =
  <[Z.to_nat i := if decide (delete k (sub [i] m) = ∅) then NodeHash.default else h (delete k (sub [i] m))]> (choices h m).
Proof.
  intros Hi. apply list_eq. intros j. unfold is_nibble in Hi. destruct (decide (j < 16)%nat) as [Hj|Hj].
  - replace j with (Z.to_nat (Z.of_nat j)) at 1 by lia. rewrite choices_lookup by (unfold is_nibble; lia).
    destruct (decide (j = Z.to_nat i)) as [->|Hne].
    + rewrite list_lookup_insert_eq by (rewrite choices_length; lia). by rewrite Z2Nat.id, delete_sub_self by lia.
    + rewrite list_lookup_insert_ne by done. rewrite delete_sub_ne by lia.
      replace j with (Z.to_nat (Z.of_nat j)) at 3 by lia. by rewrite choices_lookup by (unfold is_nibble; lia).
  - rewrite !lookup_ge_None_2; [done|rewrite length_insert, choices_length; lia|rewrite choices_length; lia].
Qed.
Lemma single_choice_one h n :
  NodeHash.is_valid h = true → (n < 16)%nat →
  single_choice (<[n := h]> BranchNode.EMPTY_CHOICES) 0 None = Some (Some (n, h)).
Proof. intros Hv Hn. do 16 (destruct n as [|n]; [cbn; by rewrite Hv|]). lia. Qed.

(** The parity of the end of a vector. *)
Lemma last_half_parity v : NibbleVec.last_is_half v = xorb (NibbleVec.first_is_half v) (odd (vec_len v)).
Proof.
  unfold vec_len. set (n := zlen _). destruct (NibbleVec.first_is_half v), (NibbleVec.last_is_half v); cbn [Z.b2z];
    match goal with |- context [odd ?x] => destruct (odd_spec x) as [[-> ?]|[-> ?]] end; done || lia.
Qed.

Section Delete.
Context `{Profile} {D : Type} `{TrieDB D}.
Variable keccak256 : list Z → list Z.
Hypothesis keccak_array : ∀ x, is_array 32 (keccak256 x).
Variable U : list Z → Prop.
Hypothesis no_collision : collision_free keccak256 U.
Variable L : Z.
Hypothesis L_range : 0 <= L < 2 ^ 59.
(** The keys that were inserted. *)
Variable K : list Z → Prop.
#[local] Set Default Proof Using "All".

Abbreviation href := (href keccak256).
Abbreviation covered := (covered keccak256 U).
Abbreviation stored := (stored keccak256 L).
Abbreviation built := (built keccak256 L).
Abbreviation run := (run keccak256 U L).
Abbreviation M A := (stm (TrieState D) TrieError A).
Abbreviation law f := (f keccak256 keccak_array U no_collision L L_range) (only parsing).

Lemma run_origins {A} (c : M A) P st (Q : A → TrieState D → Prop) :
  run c st Q → traces K c P → origins K st → run c st (λ a st', Q a st' ∧ origins K st' ∧ P a).
Proof.
  intros (st' & a & Hrun & Hg & HQ) Ht Ho. exists st', a. split_and!; [done..| |]; destruct (Ht st Ho) as [H1 H2].
  - by rewrite Hrun in H1.
  - apply H2. by rewrite Hrun.
Qed.

Lemma grows_trans (st1 st2 st3 : TrieState D) :
  grows keccak256 U L st1 st2 → grows keccak256 U L st2 st3 → grows keccak256 U L st1 st3.
Proof. apply (law grows_preorder). Qed.

(** What the path of a leaf must be, below a position with the path [p] above it. *)
Definition homed (p : list Z) (m : pmap) : Prop :=
  ∀ q i s v k, branching (sub q m) → sub (q ++ [i]) m = {[s := v]} →
    K k → s `suffix_of` nibs k → nibs k = p ++ q ++ i :: s.
Definition placed (p : list Z) (n : Node.t) (m : pmap) : Prop :=
  match n with Node.Leaf n => ∃ s v, m = {[s := v]} ∧ nibs (LeafNode.path n) = p ++ s | _ => True end.

Lemma homed_sub p i m : homed p m → homed (p ++ [i]) (sub [i] m).
Proof.
  intros Hh q j s v k. rewrite !sub_sub. intros Hb Hs Hk Hsuf.
  rewrite (Hh ([i] ++ q) j s v k Hb); [by rewrite <-!app_assoc|by rewrite <-app_assoc|done..].
Qed.
Lemma homed_push p q m : homed p (push q m) → homed (p ++ q) m.
Proof.
  intros Hh q' j s v k Hb Hs Hk Hsuf. rewrite (Hh (q ++ q') j s v k); [by rewrite <-!app_assoc|..|done|done].
  - by rewrite <-sub_sub, sub_push.
  - by rewrite <-app_assoc, <-sub_sub, sub_push.
Qed.

Lemma built_placed_leaf st p s r n v :
  bytes_ok (LeafNode.path n) → zlen (LeafNode.path n) = L → nibs (LeafNode.path n) = p ++ s → zlen p = 2 * L - r →
  0 <= r → bytes_ok v → zlen v < 2 ^ 60 → LeafNode.value n = v → built st r (Node.Leaf n) {[s := v]}.
Proof.
  intros Hb Hl Hn Hp Hr Hv Hvl Hval. destruct n as [path value]. cbn in *. subst value. pose proof (zlen_nonneg p).
  replace s with (zdrop (2 * L - r) (nibs path)) by (by rewrite Hn, zdrop_app_exact).
  apply (law built_leaf); done || lia.
Qed.
(** The leaf that its hash leads to is the one of this place. *)
Lemma leaf_at st r c s v : built st r c {[s := v]} → ∃ n, c = Node.Leaf n ∧
  bytes_ok (LeafNode.path n) ∧ zlen (LeafNode.path n) = L ∧ s = zdrop (2 * L - r) (nibs (LeafNode.path n)) ∧
  LeafNode.value n = v ∧ bytes_ok v ∧ zlen v < 2 ^ 60 ∧ zlen s = r.
Proof.
  intros [(Hk & _ & Hs) _]. destruct (Hk _ _ (lookup_singleton_eq _ _)) as (Hl & _ & Hv & Hvl). destruct c as [n|n|n].
  - by destruct Hs as [Hb%singleton_not_branching _].
  - destruct Hs as (_ & _ & m' & Hm' & He & _). symmetry in He. by apply push_not_singleton in He.
  - destruct Hs as (Hb & Hlp & He). apply (inj2 singletonM) in He as [-> ->] || (apply (f_equal (.!! s)) in He as He';
      rewrite lookup_singleton_eq in He'; symmetry in He'; apply lookup_singleton_Some in He' as [<- <-]).
    by exists n.
Qed.
Lemma not_leaf st r c p m q : built st r c (push q m) → branching m → placed p c (push q m).
Proof.
  intros [(_ & _ & Hs) _] Hm. destruct c as [n|n|n]; [done..|]. destruct Hs as (_ & _ & He).
  by apply push_not_singleton in He.
Qed.

(** ** Restructuring *)
Lemma restructure_ok st r m p o :
  m ≠ ∅ → keys_ok r m → 0 < r <= 2 * L → o = 2 * L - r → zlen p = o → covered m →
  (∀ i, sub [i] m ≠ ∅ → stored st (r - 1) (sub [i] m)) → origins K st →
  (¬ branching m → ∀ j s v k, sub [j] m = {[s := v]} → K k → s `suffix_of` nibs k → nibs k = p ++ j :: s) →
  run (branch_restructure keccak256 (BranchNode.new (choices href m)) o) st (λ n st', built st' r n m ∧ placed p n m).
Proof.
  intros Hne Hk Hr Ho Hp Hc Hst Hor Hh.
  destruct (branching_or_one r m) as [Hb|(j & Hj & Hs & Em)]; [done|lia|done|..].
  { apply (branch_stays keccak256 keccak_array U no_collision L L_range _ r); [done..|].
    split; [|done]. apply (law built_branch); done || lia. }
  assert (¬ branching m) as Hb by (rewrite Em; by apply push_not_branching). specialize (Hh Hb j).
  specialize (Hst j Hs). set (x := sub [j] m) in *. clearbody x. clear Hb. subst m.
  assert (covered x) as Hcx by (by eapply (law covered_push)).
  destruct (href_wf keccak256 keccak_array x Hs) as (_ & _ & Hval).
  unfold branch_restructure. cbn [BranchNode.choices BranchNode.path BranchNode.value BranchNode.new].
  rewrite (law choices_push) by done. unfold is_nibble in Hj. rewrite single_choice_one by (done || lia).
  apply (law run_bind). eapply (law run_fetch); [done|]. intros c Hbc. rewrite Z2Nat.id by lia.
  destruct c as [n|n|n].
  - pose proof Hbc as [(_ & _ & Hbr & _) _]. apply (law run_bind).
    destruct (from_single_spec j (negb (o mod 2 =? 0))) as (Wv & Nv & Fv); [done|].
    set (w := NibbleVec.from_single _ _) in *. clearbody w.
    assert (vec_len w = 1) as Lw by (by rewrite <-zlen_nibbles, Nv).
    eapply (law run_insert_self (Node.Extension (ExtensionNode.mk w (href x))) 0 _ r (push [j] x)); [|done|done|].
    { rewrite <-Nv. apply (law built_ext); [done| |done|by rewrite Lw|lia].
      rewrite Fv. fold (odd o). subst o. replace (2 * L - r) with (2 * (L - r) + r) by lia. by rewrite odd_add, odd_double. }
    intros st' _ Hst'. eapply (law run_fetch); [done|]. intros n' Hn'. split; [done|]. by eapply not_leaf.
  - pose proof Hbc as [(Hkx & _ & Wv & Fv & m0 & Hm0 & -> & Cv) [Hkids _]].
    rewrite andb_false_r. eapply (law run_bind), (law run_lift); [done|].
    destruct (prepend_spec (ExtensionNode.prefix n) j) as (w & Hw & Ww & Nw & Fw); [done..|].
    eapply (law run_bind), (law run_no_err); [done|]. apply (law run_ret).
    assert (push [j] (push (nibbles (ExtensionNode.prefix n)) m0) = push (nibbles w) m0) as -> by (by rewrite push_app, Nw).
    assert (vec_len w = 1 + vec_len (ExtensionNode.prefix n)) as Lw by (by rewrite <-!zlen_nibbles, Nw, zlen_cons).
    assert (built st r (Node.Extension (ExtensionNode.mk w (href m0))) (push (nibbles w) m0)) as Hbw.
    { apply (law built_ext); [done| |done| |lia].
      - rewrite Fw, Fv. destruct (odd_spec r) as [[-> ?]|[-> ?]], (odd_spec (r - 1)) as [[-> ?]|[-> ?]]; done || lia.
      - replace (r - vec_len w) with (r - 1 - zlen (nibbles (ExtensionNode.prefix n))) by (rewrite zlen_nibbles by done; lia).
        apply Hkids; [done|by apply nibbles_nonempty|done]. }
    rewrite Cv. split; [done|]. by eapply not_leaf.
  - pose proof Hbc as [(_ & _ & _ & _ & Ex) _]. subst x. set (s := zdrop _ _) in *. set (v := LeafNode.value n) in *.
    eapply (law run_weaken); [apply (run_origins _ (origin K) _ (λ c st', built st' (r - 1) c {[s := v]}));
      [by eapply (law run_fetch)|apply traces_fetch|done]|].
    cbv beta. intros c st' Hg (Hbc' & _ & Hoc). destruct (leaf_at _ _ _ _ _ Hbc') as (l & -> & Hbl & Hll & Hsl & Hvl & Hvb & Hvz & Hzs).
    assert (nibs (LeafNode.path l) = p ++ j :: s) as Hnl.
    { apply (Hh s v); [done|done|]. exists (ztake (2 * L - (r - 1)) (nibs (LeafNode.path l))). rewrite Hsl. by rewrite ztake_zdrop. }
    rewrite push_singleton. split; [|by exists ([j] ++ s), v].
    eapply built_placed_leaf; [done|done|exact Hnl|lia|lia|done..].
Qed.

(** ** The nodes *)

(** What is left where a key was removed. *)
Definition left (p : list Z) (r : Z) (m : pmap) (o : option Node.t) (st : TrieState D) : Prop :=
  match o with None => m = ∅ | Some n => built st r n m ∧ placed p n m end.
Definition removed (p : list Z) (r : Z) (m : pmap) (v : list Z) (a : option Node.t * option (list Z)) (st : TrieState D) : Prop :=
  a.2 = Some v ∧ left p r m a.1 st.
(** A removal below depth [r0]. *)
Definition removes (rem : Node.t → NibbleSlice.t → M (option Node.t * option (list Z))) (r0 : Z) : Prop :=
  ∀ st r n m path p v, r < r0 → built st r n m → at_pos L path r → nibs (NibbleSlice.data path) = p ++ rest path →
  origins K st → origin K n → homed p m → covered m → covered (delete (rest path) m) → m !! rest path = Some v →
  run (rem n path) st (removed p r (delete (rest path) m) v).

(** The path above a position. *)
Lemma above path r p q t :
  at_pos L path r → nibs (NibbleSlice.data path) = p ++ rest path → rest path = q ++ t →
  zlen p = 2 * L - r ∧
  nibs (NibbleSlice.data (NibbleSlice.offset_add path (zlen q))) = (p ++ q) ++ rest (NibbleSlice.offset_add path (zlen q)).
Proof.
  intros Hp Hpre Hrest. destruct (law pos_tail path r q t Hp Hrest) as (_ & Ht & _). destruct (law pos_rest path r Hp) as (Hlen & _).
  split.
  - apply (f_equal zlen) in Hpre. rewrite zlen_nibs, zlen_app, (pos_data _ _ _ Hp) in Hpre. lia.
  - rewrite Ht, <-app_assoc, <-Hrest. done.
Qed.
(** The child of a branch after the removal. *)
Lemma run_child_left st p r m o path :
  left p r m o st → (∀ n, o = Some n → origin K n) → origins K st → covered m → at_pos L path r →
  run match o with Some c => node_insert_self keccak256 c (NibbleSlice.offset path) | None => mret NodeHash.default end st
    (λ h st', h = (if decide (m = ∅) then NodeHash.default else href m) ∧ (m ≠ ∅ → stored st' r m) ∧ origins K st').
Proof.
  intros Hl Ho Hor Hc Hp. destruct o as [c|].
  - destruct Hl as [Hb _]. assert (m ≠ ∅) as Hm by (eapply (law shape_ne), Hb).
    eapply (law run_weaken); [eapply (run_origins _ (λ _, True) _ (λ h st', h = href m ∧ stored st' r m));
      [eapply (law run_insert_self); [exact Hb|done| |done]; destruct c; [done..|apply (pos_offset _ _ _ Hp)]|
       apply traces_insert_self; by apply Ho|done]|].
    cbv beta. intros h st' _ ([-> Hst] & Hor' & _). by rewrite decide_False.
  - cbn in Hl. apply (law run_ret). by rewrite decide_True.
Qed.
Lemma branch_remove_present rem st r n m path p v :
  removes rem r → traces_remove K rem → built st r (Node.Branch n) m → at_pos L path r →
  nibs (NibbleSlice.data path) = p ++ rest path → origins K st → homed p m →
  covered m → covered (delete (rest path) m) → m !! rest path = Some v →
  run (branch_remove keccak256 rem n path) st (removed p r (delete (rest path) m) v).
Proof.
  intros IH HT Hb Hp Hpre Hor Hh Hc Hc' Hv. destruct (law pos_rest path r Hp) as (Hlen & Hr & _).
  pose proof Hb as [(Hk & _ & Hm & ->) [_ Hkids]]. specialize (Hkids Hm). unfold branch_remove, branch_take.
  rewrite next_spec by apply Hp. pose proof (rest_nibbles path (pos_slice _ _ _ Hp)) as Hn.
  assert (0 < r) as Hr0.
  { eapply keys_ok_pos; [done|by apply branching_ne|]. intros k w ->. by apply singleton_not_branching in Hm. }
  destruct (rest path) as [|i k] eqn:Ek; [rewrite zlen_nil in Hlen; lia|].
  apply Forall_cons in Hn as [Hi _]. destruct (law pos_tail path r [i] k Hp Ek) as (_ & Hr' & Hp').
  rewrite <-Ek in Hpre. destruct (above path r p [i] k Hp Hpre Ek) as [Hlp Hpre'].
  change (zlen [i]) with 1 in Hr', Hp', Hpre'. assert (sub [i] m !! k = Some v) as Hvi by (by rewrite sub_lookup).
  assert (sub [i] m ≠ ∅) as He by (intros He; by rewrite He, lookup_empty in Hvi).
  assert (covered (delete k (sub [i] m))) as Hci by (rewrite <-delete_sub_self; by apply covered_sub).
  apply (law run_bind). eapply (law run_bind), (law run_lift); [by apply (law index_choices)|]. rewrite decide_False by done.
  destruct (href_wf keccak256 keccak_array _ He) as (_ & _ & ->).
  eapply (law run_bind), (law run_weaken); [apply (run_origins _ (origin K) _ (λ c st', built st' (r - 1) c (sub [i] m)));
    [eapply (law run_fetch); [by apply Hkids|done]|apply traces_fetch|done]|].
  cbv beta. intros c st0 Hg0 (Hbc & Hor0 & Hoc).
  eapply (law run_bind), (law run_weaken); [apply (run_origins _ (origin_opt K) _ (removed (p ++ [i]) (r - 1) (delete k (sub [i] m)) v));
    [|by apply HT|done]|].
  { rewrite <-Hr'. apply IH; [lia|exact Hbc|done|done|done|done|by apply homed_sub|by apply covered_sub|by rewrite Hr'|by rewrite Hr']. }
  cbv beta. intros [c' v'] st1 Hg1 ([Hv' Hl] & Hor1 & Hoc'). cbn in Hv', Hl. subst v'.
  eapply (law run_bind), (law run_weaken); [by eapply (run_child_left st1)|].
  cbv beta. intros h st2 Hg2 (-> & Hst2 & Hor2). apply (law run_ret).
  cbn [BranchNode.choices BranchNode.path BranchNode.value BranchNode.new]. rewrite <-choices_delete by done.
  assert (grows keccak256 U L st st2) as Hg by (apply (grows_trans _ st0 _ Hg0), (grows_trans _ st1 _ Hg1), Hg2).
  eapply (law run_bind), (law run_weaken).
  { apply (restructure_ok st2 r (delete (i :: k) m) p); [by apply branching_delete_ne|by apply keys_ok_delete|lia|
      apply (pos_offset _ _ _ Hp)|rewrite (pos_offset _ _ _ Hp); lia|done| |done|].
    - intros j Hj. destruct (decide (i = j)) as [<-|Hij]; [rewrite delete_sub_self in Hj |- *; by apply Hst2|].
      rewrite delete_sub_ne in Hj |- * by done. apply Hg; [by apply covered_sub|by apply Hkids].
    - intros Hnb j s w k0 Hs HK Hsuf. assert (i ≠ j) as Hij.
      { intros <-. apply Hnb, branching_delete_child; [done|]. rewrite Hs. apply map_non_empty_singleton. }
      rewrite delete_sub_ne in Hs by done. by apply (Hh [] j s w k0); rewrite ?sub_nil. }
  cbv beta. intros n' st3 _ [Hb3 Hpl3]. by apply (law run_ret).
Qed.
Lemma leaf_remove_present st r n m path p v :
  built st r (Node.Leaf n) m → at_pos L path r → m !! rest path = Some v →
  run (leaf_remove n path) st (removed p r (delete (rest path) m) v).
Proof.
  intros Hb Hp Hv. destruct (law pos_rest path r Hp) as (Hlen & Hr & _).
  pose proof Hb as [(Hk & _ & Hbp & Hl & ->) _]. unfold leaf_remove. pose proof (pos_offset _ _ _ Hp) as Ho.
  apply lookup_singleton_Some in Hv as [Hs Hv].
  eapply (law run_bind), (law run_no_err); [apply cmp_rest_spec; [apply Hp|split; cbn; [done|lia]]|].
  rewrite bool_decide_true by (rewrite <-Hs; unfold rest; cbn; by rewrite Ho).
  apply (law run_ret). split; cbn; [by rewrite Hv|]. rewrite <-Hs. apply delete_singleton_eq.
Qed.

(** An extension above what is left of its child. *)
Lemma extension_left st r v p m c :
  wf_vec v → NibbleVec.first_is_half v = odd r → zlen p = 2 * L - r → 0 <= r - vec_len v → r <= 2 * L → covered m →
  built st (r - vec_len v) c m → placed (p ++ nibbles v) c m →
  run match Some c with
      | None => mret None
      | Some (Node.Branch b) =>
        child ← branch_insert_self keccak256 b;
        mret (Some (Node.Extension (ExtensionNode.mk v child)))
      | Some (Node.Extension e) =>
        prefix ← lift (no_err (NibbleVec.extend v (ExtensionNode.prefix e)));
        mret (Some (Node.Extension (ExtensionNode.mk prefix (ExtensionNode.child e))))
      | Some (Node.Leaf l) => mret (Some (Node.Leaf l))
      end st (left p r (push (nibbles v) m)).
Proof.
  intros Wv Fv Hp Hr0 Hr Hc Hb Hpl. destruct c as [b|e|l].
  - pose proof Hb as [(_ & _ & Hm & _) _]. apply (law run_bind).
    eapply (law run_insert_self (Node.Branch b) 0); [exact Hb|done|done|]. intros st' _ Hst'. apply (law run_ret).
    split; [|done]. by apply (law built_ext).
  - pose proof Hb as [(_ & _ & We & Fe & m0 & Hm0 & -> & Ce) [Hkids _]].
    destruct (extend_spec v (ExtensionNode.prefix e)) as (u & Hu & Wu & Nu & Fu); [done..| |].
    { rewrite last_half_parity, Fv, Fe. replace r with (r - vec_len v + vec_len v) at 1 by lia. rewrite odd_add.
      by destruct (odd (r - vec_len v)), (odd (vec_len v)). }
    eapply (law run_bind), (law run_no_err); [done|]. apply (law run_ret). split; [|done].
    rewrite Ce, push_app, <-Nu. apply (law built_ext); [done|congruence|done| |done].
    assert (vec_len u = vec_len v + zlen (nibbles (ExtensionNode.prefix e))) as -> by (by rewrite <-!zlen_nibbles, Nu, zlen_app).
    rewrite Z.sub_add_distr. apply Hkids; [done|by apply nibbles_nonempty|done].
  - destruct Hpl as (s & w & -> & Hn). destruct (leaf_at _ _ _ _ _ Hb) as (l' & [= <-] & Hbl & Hll & _ & Hw & Hwb & Hwl & _).
    apply (law run_ret). rewrite push_singleton. pose proof (vec_pos v Wv). split; [|exists (nibbles v ++ s), w; by rewrite app_assoc].
    eapply built_placed_leaf; [done|done|by rewrite Hn, <-app_assoc|lia|lia|done..].
Qed.
Lemma extension_remove_present rem st r n m path p v :
  removes rem r → traces_remove K rem → built st r (Node.Extension n) m → at_pos L path r →
  nibs (NibbleSlice.data path) = p ++ rest path → origins K st → homed p m →
  covered m → covered (delete (rest path) m) → m !! rest path = Some v →
  run (extension_remove keccak256 rem n path) st (removed p r (delete (rest path) m) v).
Proof.
  intros IH HT Hb Hp Hpre Hor Hh Hc Hc' Hv. destruct (law pos_rest path r Hp) as (Hlen & Hr & Hodd).
  pose proof Hb as [(Hk & _ & Wv & Fv & m0 & Hm0 & -> & Cv) [Hkids _]]. unfold extension_remove.
  set (w := ExtensionNode.prefix n) in *.
  assert (vec_len w <= r) as Hvl.
  { rewrite <-zlen_nibbles by done. by eapply (law prefix_fits), branching_ne. }
  eapply (law run_bind), (law run_no_err).
  { apply skip_prefix_spec; [apply Hp|done|by rewrite Hodd|lia|rewrite (pos_data _ _ _ Hp); lia]. }
  destruct (bool_decide (nibbles w `prefix_of` rest path)) eqn:E; cbv beta iota; cycle 1.
  { apply bool_decide_eq_false in E. by rewrite push_lookup_ne in Hv. }
  apply bool_decide_eq_true in E as [k Ek]. destruct (law pos_tail path r _ _ Hp Ek) as (_ & Hr' & Hp').
  destruct (above path r p _ _ Hp Hpre Ek) as [Hlp Hpre']. rewrite Ek in Hv, Hc' |- *. rewrite push_lookup in Hv.
  assert (delete (nibbles w ++ k) (push (nibbles w) m0) = push (nibbles w) (delete k m0)) as Hdel
    by (symmetry; apply kmap_delete, _). rewrite Hdel in *.
  assert (covered (delete k m0)) as Hcd by (by eapply (law covered_push)). assert (covered m0) by (by eapply (law covered_push)).
  rewrite Cv. pose proof (vec_pos w Wv).
  assert (stored st (r - vec_len w) m0) as Hst.
  { rewrite <-zlen_nibbles by done. by apply Hkids; [|apply nibbles_nonempty|]. }
  eapply (law run_bind), (law run_weaken); [apply (run_origins _ (origin K) _ (λ c st', built st' (r - vec_len w) c m0));
    [by eapply (law run_fetch)|apply traces_fetch|done]|].
  cbv beta. intros c st0 Hg0 (Hbc & Hor0 & Hoc). rewrite zlen_nibbles in Hr', Hp', Hpre' by done.
  eapply (law run_bind), (law run_weaken); [rewrite <-Hr' in Hv, Hcd; apply IH; [|exact Hbc|done|exact Hpre'|done|done|by apply homed_push|done|done|done]; lia|].
  rewrite Hr'. intros [c' v'] st1 Hg1 [Hv' Hl]. cbn in Hv', Hl. subst v'.
  destruct c' as [c'|]; [|by apply branching_delete_ne in Hl]. destruct Hl as [Hb1 Hpl1].
  eapply (law run_bind), (law run_weaken); [by apply (extension_left st1 r w p (delete k m0) c'); [|congruence| |lia|lia|..]|].
  intros o st2 _ Ho. by apply (law run_ret).
Qed.
Lemma node_remove_present fuel : ∀ r0, r0 <= Z.of_nat fuel → removes (node_remove keccak256 fuel) r0.
Proof.
  induction fuel as [|fuel IH]; intros r0 Hf st r n m path p v Hr Hb Hp Hpre Hor Ho Hh Hc Hc' Hv.
  { destruct (law pos_rest path r Hp). lia. }
  cbn [node_remove]. destruct n as [n|n|n].
  - apply branch_remove_present; [apply IH; lia|apply traces_node_remove|done..].
  - apply extension_remove_present; [apply IH; lia|apply traces_node_remove|done..].
  - by apply leaf_remove_present.
Qed.

(** ** trie.rs *)
Lemma remove_present_ok (t : Trie.t D) m k v :
  stands_for keccak256 L t m → origins K (Trie.state t) → homed [] m → covered m → covered (delete (nibs k) m) →
  bytes_ok k → zlen k = L → m !! nibs k = Some v →
  ∃ t', Trie.remove keccak256 k t = (t', Ok (Some v)) ∧ stands_for keccak256 L t' (delete (nibs k) m) ∧
    db (Trie.state t') = db (Trie.state t).
Proof.
  intros Ht Hor Hh Hc Hc' Hk Hl Hv. destruct t as [root st]. destruct Ht as [[-> Hr]|[Hr Hst]]; [by rewrite lookup_empty in Hv|].
  cbn in Hr, Hst, Hor. subst root. destruct (law stored_built _ _ _ Hst) as (n & Hget & Hn).
  destruct (node_remove_present (Trie.path_fuel k) (2 * L + 1) (law path_fuel_enough k Hl) st (2 * L) n m (NibbleSlice.new k) [] v)
    as (st1 & [o v'] & Hrun1 & [Hdb1 _] & Hv' & Ho);
    [lia|done|by apply (law pos_new)|by rewrite rest_new|done|by eapply get_node_origin|done|done|by rewrite rest_new..|].
  cbn in Hv', Ho. subst v'. rewrite rest_new in Ho. unfold Trie.remove. erewrite stm_bind_Ok by done. cbn [Trie.root Trie.state].
  erewrite (stm_bind_Ok _ _ _ (Trie.mk None st) n) by (apply (law on_state_Ok); unfold fetch, expect_node; cbn; by rewrite Hget).
  erewrite stm_bind_Ok by (by apply (law on_state_Ok)). cbv beta iota. destruct o as [n2|]; cbn in Ho.
  - destruct Ho as [Hb2 _].
    assert (run (node_insert_self keccak256 n2 0) st1 (λ h st', h = href (delete (nibs k) m) ∧ stored st' (2 * L) (delete (nibs k) m)))
      as (st2 & h & Hrun2 & [Hdb2 _] & -> & Hst2).
    { eapply (law run_insert_self); [done|done| |done]. destruct n2; [done..|lia]. }
    exists (Trie.mk (Some (href (delete (nibs k) m))) st2). split_and!; [|by right|cbn; congruence].
    erewrite stm_bind_Ok; [|by erewrite stm_bind_Ok by (by apply (law on_state_Ok))]. done.
  - exists (Trie.mk None st1). split_and!; [done|by left|done].
Qed.
End Delete.

(** ** Keys that end alike *)

(** The part of a path that its leaf keeps: what is left once no other key shares the
    path so far. *)
Fixpoint leaf_end (m : pmap) (k : list Z) : list Z :=
  if decide (size m <= 1)%nat then k
  else match k with [] => [] | i :: k => leaf_end (sub [i] m) k end.
(** No key of [ks] but the right one ends like the leaf of a key of the map. *)
Definition no_lookalikes (ks : list (list Z)) (b : pmap) : Prop :=
  map_Forall (λ k _, Forall (λ k', leaf_end (paths b) (nibs k) `suffix_of` nibs k' → k' = k) ks) b.
#[export] Instance no_lookalikes_dec ks b : Decision (no_lookalikes ks b).
Proof. unfold no_lookalikes. apply _. Defined.

Lemma branching_size q m : branching (sub q m) → (1 < size m)%nat.
Proof.
  intros (i & j & Hij & Hi & Hj). rewrite !sub_sub in Hi, Hj.
  destruct (sub_nonempty_inv _ _ Hi) as (a & v & Ha), (sub_nonempty_inv _ _ Hj) as (b & w & Hb).
  assert ((q ++ [i]) ++ a ≠ (q ++ [j]) ++ b) as Hne.
  { rewrite <-!app_assoc. intros He%app_inv_head. by simplify_eq/=. }
  assert (size m ≠ 0)%nat by (by eapply map_size_ne_0_lookup_2; eexists).
  assert (size (delete ((q ++ [i]) ++ a) m) ≠ 0)%nat as Hd.
  { eapply map_size_ne_0_lookup_2. eexists. by rewrite lookup_delete_ne. }
  rewrite map_size_delete_Some in Hd by (by eexists). lia.
Qed.
Lemma leaf_end_spec q : ∀ m i s v, branching (sub q m) → sub (q ++ [i]) m = {[s := v]} → leaf_end m (q ++ i :: s) = s.
Proof.
  induction q as [|a q IH]; intros m i s v Hb Hs; pose proof (branching_size _ _ Hb); cbn [leaf_end app];
    rewrite decide_False by lia.
  - cbn in Hs. rewrite Hs. destruct s; cbn [leaf_end]; rewrite decide_True by (rewrite map_size_singleton; lia); done.
  - eapply IH; rewrite sub_sub; done.
Qed.
Lemma no_lookalikes_homed ks b : no_lookalikes ks b → homed (.∈ ks) [] (paths b).
Proof.
  intros Hn q i s v k Hb Hs Hk Hsuf.
  assert (paths b !! (q ++ i :: s) = Some v) as Hv.
  { change (i :: s) with ([i] ++ s). rewrite app_assoc, <-sub_lookup, Hs. apply lookup_singleton_eq. }
  apply lookup_kmap_Some in Hv as (k0 & Hk0 & Hv); [|apply _].
  specialize (Hn _ _ Hv). rewrite Forall_forall in Hn. cbn. rewrite Hk0. f_equal. apply (Hn k Hk).
  by rewrite <-Hk0, (leaf_end_spec q _ i s v).
Qed.
Lemma paths_delete k b : paths (delete k b) = delete (nibs k) (paths b).
Proof. apply kmap_delete, _. Qed.

(** ** Sequences of operations *)
Inductive op := Insert (k v : list Z) | Remove (k : list Z).
Definition op_key (o : op) : list Z := match o with Insert k _ => k | Remove k => k end.
Definition op_ok (L : Z) (o : op) : Prop :=
  match o with Insert k v => entry_ok L (k, v) | Remove k => bytes_ok k ∧ zlen k = L end.
(** On the map: the map after an operation, and what the operation returns. *)
Definition op_map (o : op) (b : pmap) : pmap := match o with Insert k v => <[k := v]> b | Remove k => delete k b end.
Definition op_result (o : op) (b : pmap) : option (list Z) := match o with Insert _ _ => None | Remove k => b !! k end.
Fixpoint history (b : pmap) (l : list op) : list pmap :=
  b :: match l with [] => [] | o :: l => history (op_map o b) l end.
Definition final (b : pmap) (l : list op) : pmap := foldl (λ b o, op_map o b) b l.
Fixpoint results (b : pmap) (l : list op) : list (option (list Z)) :=
  match l with [] => [] | o :: l => op_result o b :: results (op_map o b) l end.
Definition history_nodes (keccak256 : list Z → list Z) (l : list op) : list (list Z) :=
  concat (map (λ b, nodes keccak256 (paths b)) (history ∅ l)).
(** On the trie. *)
Definition run_op `{Profile} {D} `{TrieDB D} (keccak256 : list Z → list Z) (o : op) : stm (Trie.t D) TrieError (option (list Z)) :=
  match o with
  | Insert k v => _ ← Trie.insert keccak256 k v; mret None
  | Remove k => Trie.remove keccak256 k
  end.
Fixpoint run_ops `{Profile} {D} `{TrieDB D} (keccak256 : list Z → list Z) (l : list op)
    : stm (Trie.t D) TrieError (list (option (list Z))) :=
  match l with
  | [] => mret []
  | o :: l => x ← run_op keccak256 o; xs ← run_ops keccak256 l; mret (x :: xs)
  end.

(** The trie stands for the map, and its paths are among [ks]. *)
Definition holds `{Profile} {D} `{TrieDB D} (keccak256 : list Z → list Z) (L : Z) (ks : list (list Z)) (t : Trie.t D) (b : pmap) : Prop :=
  represents keccak256 L t b ∧ origins (.∈ ks) (Trie.state t).
Lemma remove_holds `{Profile} {D} `{TrieDB D} keccak256 L U ks (t : Trie.t D) b k :
  (∀ x, is_array 32 (keccak256 x)) → 0 <= L < 2 ^ 59 → collision_free keccak256 U →
  covered keccak256 U (paths b) → covered keccak256 U (paths (delete k b)) → holds keccak256 L ks t b →
  no_lookalikes ks b → bytes_ok k → zlen k = L →
  ∃ t', Trie.remove keccak256 k t = (t', Ok (b !! k)) ∧ holds keccak256 L ks t' (delete k b) ∧
    db (Trie.state t') = db (Trie.state t).
Proof.
  intros Hka HL HU Hc Hc' [Ht Ho] Hn Hk Hl. destruct (b !! k) as [v|] eqn:Eb.
  - rewrite paths_delete in Hc'.
    destruct (remove_present_ok keccak256 Hka U HU L HL (.∈ ks) t (paths b) k v) as (t' & Hrun & Ht' & Hdb);
      [done|done|by apply no_lookalikes_homed|done..|by rewrite paths_lookup|].
    exists t'. split_and!; [done| |done]. split; [unfold represents; by rewrite paths_delete|by eapply remove_origins].
  - destruct (remove_absent_ok keccak256 Hka U HU L HL t (paths b) k) as (t' & Hrun & Ht' & Hdb); [done..|by rewrite paths_lookup|].
    exists t'. rewrite delete_id by done. split_and!; [done|split; [done|by eapply remove_origins]|done].
Qed.
Lemma insert_holds `{Profile} {D} `{TrieDB D} keccak256 L U ks (t : Trie.t D) b k v :
  (∀ x, is_array 32 (keccak256 x)) → 0 <= L < 2 ^ 59 → collision_free keccak256 U →
  covered keccak256 U (paths b) → covered keccak256 U (paths (<[k := v]> b)) → holds keccak256 L ks t b →
  entry_ok L (k, v) → k ∈ ks →
  ∃ t', Trie.insert keccak256 k v t = (t', Ok tt) ∧ holds keccak256 L ks t' (<[k := v]> b) ∧
    db (Trie.state t') = db (Trie.state t).
Proof.
  intros Hka HL HU Hc Hc' [Ht Ho] Hkv Hk.
  destruct (insert_represents keccak256 Hka L HL U t b k v) as (t' & Hrun & Ht' & Hdb); [done..|].
  exists t'. split_and!; [done| |done]. split; [done|]. by eapply insert_origins.
Qed.

(** One operation, and a sequence of them. *)
Lemma run_op_holds `{Profile} {D} `{TrieDB D} keccak256 L U ks (t : Trie.t D) b o :
  (∀ x, is_array 32 (keccak256 x)) → 0 <= L < 2 ^ 59 → collision_free keccak256 U →
  covered keccak256 U (paths b) → covered keccak256 U (paths (op_map o b)) → holds keccak256 L ks t b →
  no_lookalikes ks b → op_ok L o → op_key o ∈ ks →
  ∃ t', run_op keccak256 o t = (t', Ok (op_result o b)) ∧ holds keccak256 L ks t' (op_map o b) ∧
    db (Trie.state t') = db (Trie.state t).
Proof.
  intros Hka HL HU Hc Hc' Ht Hn Ho Hk. destruct o as [k v|k]; cbn in *.
  - destruct (insert_holds keccak256 L U ks t b k v) as (t' & Hrun & Ht'); [done..|].
    exists t'. split; [|done]. by rewrite (stm_bind_Ok _ _ _ _ _ Hrun).
  - by apply (remove_holds keccak256 L U); [..|apply Ho|apply Ho].
Qed.
Lemma run_ops_holds `{Profile} {D} `{TrieDB D} keccak256 L U ks l : ∀ (t : Trie.t D) b,
  (∀ x, is_array 32 (keccak256 x)) → 0 <= L < 2 ^ 59 → collision_free keccak256 U →
  Forall (λ b, covered keccak256 U (paths b) ∧ no_lookalikes ks b) (history b l) → holds keccak256 L ks t b →
  Forall (op_ok L) l → (∀ o, o ∈ l → op_key o ∈ ks) →
  ∃ t', run_ops keccak256 l t = (t', Ok (results b l)) ∧ holds keccak256 L ks t' (final b l) ∧
    db (Trie.state t') = db (Trie.state t).
Proof.
  induction l as [|o l IH]; intros t b Hka HL HU Hh Ht Hl Hk; [by exists t|].
  cbn [history] in Hh. apply Forall_cons in Hh as [[Hc Hn] Hh]. apply Forall_cons in Hl as [Ho Hl].
  assert (covered keccak256 U (paths (op_map o b))) as Hc'.
  { destruct l; cbn [history] in Hh; by apply Forall_cons in Hh as [[? _] _]. }
  destruct (run_op_holds keccak256 L U ks t b o) as (t1 & Hrun1 & Ht1 & Hdb1); [done..|apply Hk; constructor|].
  destruct (IH t1 (op_map o b)) as (t2 & Hrun2 & Ht2 & Hdb2); [done..|by intros; apply Hk; constructor|].
  exists t2. split_and!; [|done|congruence]. cbn [run_ops results].
  rewrite (stm_bind_Ok _ _ _ _ _ Hrun1), (stm_bind_Ok _ _ _ _ _ Hrun2). done.
Qed.
Lemma new_holds `{Profile} keccak256 L ks :
  (∀ x, is_array 32 (keccak256 x)) → 0 <= L < 2 ^ 59 → holds keccak256 L ks (Trie.new (∅ : gmap (list Z) (list Z))) ∅.
Proof. intros Hka HL. split; [by apply (new_represents keccak256 Hka L HL)|]. by split. Qed.
Lemma covered_history keccak256 l :
  Forall (λ b, covered keccak256 (.∈ history_nodes keccak256 l) (paths b)) (history ∅ l).
Proof.
  apply Forall_forall. intros b Hb. apply covered_nodes. intros x Hx. unfold history_nodes.
  apply list_elem_of_In, in_concat. exists (nodes keccak256 (paths b)).
  split; [|by apply list_elem_of_In]. apply (in_map (λ b, nodes keccak256 (paths b))). by apply list_elem_of_In.
Qed.

(** C39: a sequence of insertions and removals of keys of one length on a new trie
    succeeds: every removal returns the value that the key had, lookups return the
    entries of the resulting map, and the root hash is the one of the yellow paper for
    it, so that it does not depend on how the map was reached.  Assumed of Keccak:
    digests of 32 bytes and no collision among the nodes of the maps on the way.
    Assumed of the keys: none of them ends like the leaf of another. *)
Theorem operations_refine_map (P : Profile) (keccak256 : list Z → list Z) (L : Z) (l : list op) :
  (∀ x, is_array 32 (keccak256 x)) → 0 <= L < 2 ^ 59 → Forall (op_ok L) l →
  no_collisions keccak256 (history_nodes keccak256 l) → Forall (no_lookalikes (map op_key l)) (history ∅ l) →
  ∃ t, run_ops keccak256 l (Trie.new (∅ : gmap (list Z) (list Z))) = (t, Ok (results ∅ l)) ∧
    Trie.root_hash keccak256 t = map_root keccak256 (paths (final ∅ l)) ∧
    ∀ k, bytes_ok k → zlen k = L → Trie.get t k = Ok (final ∅ l !! k).
Proof.
  intros Hka HL Hl Hn Hla. apply no_collisions_free in Hn.
  destruct (run_ops_holds keccak256 L _ (map op_key l) l (Trie.new (∅ : gmap (list Z) (list Z))) ∅ Hka HL Hn) as (t & Hrun & [Ht _] & _).
  - apply Forall_and. split; [apply covered_history|done].
  - by apply new_holds.
  - done.
  - intros o Ho. by apply list_elem_of_fmap_2.
  - exists t. split_and!; [done|by eapply (root_represents keccak256 Hka L HL)|].
    intros. by eapply (get_represents keccak256 Hka L HL).
Qed.

#[export] Instance op_ok_dec L o : Decision (op_ok L o).
Proof. destruct o; cbn; apply _. Defined.
Definition sample_ops : list op :=
  [Insert [0x11; 0x55] [1]; Insert [0x12; 0x66] [7]; Insert [0x22; 0x77] [9]; Remove [0x12; 0x66]; Remove [0x33; 0x99]].
Lemma operations_refine_map_witness :
  ∃ t, run_ops (H:=dev_profile) toy_digest sample_ops (Trie.new (∅ : gmap (list Z) (list Z))) =
      (t, Ok [None; None; None; Some [7]; None]) ∧
    Trie.get (H:=dev_profile) t [0x11; 0x55] = Ok (Some [1]) ∧ Trie.get (H:=dev_profile) t [0x12; 0x66] = Ok None.
Proof.
  destruct (operations_refine_map dev_profile toy_digest 2 sample_ops) as (t & Hrun & _ & Hget);
    [exact toy_digest_array|done|by_decide|by_decide|by_decide|].
  exists t. refine (conj Hrun (conj _ _)).
  - exact (Hget [0x11; 0x55] ltac:(by_decide) eq_refl).
  - exact (Hget [0x12; 0x66] ltac:(by_decide) eq_refl).
Defined.
