(* ===== verification/TrieRooted.v ===== *)
(** * The root node of a trie of hashes

    The keys of the state and storage tries are digests of 32 bytes.  The root node of
    such a trie is never so short that it would be stored under its encoding, so a
    committed trie can always be opened again at its root hash. *)

From S2P Require Import Prelude Rlp RlpLaws U256 Codec Effects Nibble NibbleLaws.
From S2P Require Import TrieNode TrieCodec Trie TrieSpec TrieEncoding TrieRoot TrieLaws TrieRefine TrieLeaves TrieCommit TrieRemove TrieDelete.

Lemma struct_rlp_longer l : 1 + zlen (concat l) <= zlen (struct_rlp l).
Proof.
  unfold struct_rlp. rewrite zlen_app. destruct (struct_rlp_head l) as (b & t & He & _).
  unfold struct_rlp in He. destruct (encode_length (zlen (concat l))) as [|c u] eqn:E.
  - unfold encode_length in E. cbv zeta in E. by destruct (zlen (concat l) <? 56).
  - rewrite zlen_cons. pose proof (zlen_nonneg u). lia.
Qed.
Lemma item_prefix_nonempty a b n : 1 <= zlen (item_prefix a b n).
Proof. unfold item_prefix. case_match; cbv zeta; rewrite zlen_cons; match goal with |- context [zlen ?x] => pose proof (zlen_nonneg x); lia end. Qed.
Lemma Bytes_encode_longer x : zlen x <= zlen (Bytes_encode x) ∧ 1 <= zlen (Bytes_encode x).
Proof.
  rewrite Bytes_encode_prefix. pose proof (item_prefix_nonempty 0x80 0xb7 (zlen x)). pose proof (zlen_nonneg x).
  destruct ((zlen x =? 1) && (hd 0 x <? 128)) eqn:E; bool_prop; [change (zlen [hd 0 x]) with 1; lia|]. rewrite zlen_app. lia.
Qed.
Lemma Bytes_encode_hash x : is_array 32 x → zlen (Bytes_encode x) = 33.
Proof. intros [_ Hx]. rewrite Bytes_encode_prefix, Hx. change (32 =? 1) with false. cbn [andb]. rewrite zlen_app, Hx. done. Qed.

(** Items of a list of at least [n] bytes each, two of them longer. *)
Lemma concat_longer {A} (g : A → list Z) l : (∀ x, 1 <= zlen (g x)) → zlen l <= zlen (concat (map g l)).
Proof. intros Hg. induction l as [|x l IH]; [done|]. cbn [map concat]. rewrite zlen_cons, zlen_app. specialize (Hg x). lia. Qed.
Lemma concat_one_longer {A} (g : A → list Z) l x n :
  (∀ x, 1 <= zlen (g x)) → x ∈ l → n <= zlen (g x) → zlen l + n - 1 <= zlen (concat (map g l)).
Proof.
  intros Hg (l1 & l2 & ->)%list_elem_of_split Hn. rewrite map_app, concat_app, !zlen_app. cbn [map concat].
  rewrite zlen_cons, zlen_app. pose proof (concat_longer g l1 Hg). pose proof (concat_longer g l2 Hg). lia.
Qed.
Lemma concat_two_longer {A} (g : A → list Z) l x y n :
  (∀ x, 1 <= zlen (g x)) → x ∈ l → y ∈ l → x ≠ y → n <= zlen (g x) → n <= zlen (g y) →
  zlen l + 2 * n - 2 <= zlen (concat (map g l)).
Proof.
  intros Hg (l1 & l2 & ->)%list_elem_of_split Hy Hne Hn Hn'. rewrite map_app, concat_app, !zlen_app. cbn [map concat].
  rewrite zlen_cons, zlen_app. pose proof (concat_longer g l1 Hg). pose proof (concat_longer g l2 Hg).
  apply elem_of_app in Hy as [Hy|[->|Hy]%elem_of_cons]; [|done|];
    pose proof (concat_one_longer g _ y n Hg Hy Hn'); lia.
Qed.

Section Rooted.
Variable keccak256 : list Z → list Z.
Hypothesis keccak_array : ∀ x, is_array 32 (keccak256 x).
Abbreviation href := (href keccak256).
Abbreviation root_rlp := (root_rlp keccak256).

Lemma item_length m : m ≠ ∅ → zlen (node_item (href m)) = if 32 <=? zlen (root_rlp m) then 33 else zlen (root_rlp m).
Proof using keccak_array.
  intros Hm. unfold TrieRoot.href, NodeHash.from_encoded_raw. destruct (32 <=? zlen (root_rlp m)); cbn [node_item]; [by apply Bytes_encode_hash|].
  rewrite root_rlp_eq by done. destruct (enc_struct (node_of href m)) as [l ->].
  by destruct (struct_rlp_head l) as (b & t & -> & _).
Qed.
Lemma leaf_long k v : zlen k / 2 + 3 <= zlen (root_rlp {[k := v]}).
Proof.
  rewrite root_rlp_leaf. unfold enc. pose proof (struct_rlp_longer [Bytes_encode (hex_prefix k true); Bytes_encode v]) as Hl.
  cbn [concat] in Hl. rewrite app_nil_r, zlen_app in Hl.
  destruct (Bytes_encode_longer (hex_prefix k true)) as [H1 _], (Bytes_encode_longer v) as [_ H2].
  rewrite hex_prefix_zlen in H1. lia.
Qed.
Lemma ext_long p m : p ≠ [] → branching m → zlen p / 2 + 2 + zlen (node_item (href m)) <= zlen (root_rlp (push p m)).
Proof.
  intros Hp Hm. rewrite root_rlp_ext by done. unfold enc.
  pose proof (struct_rlp_longer [Bytes_encode (hex_prefix p false); node_item (href m)]) as Hl.
  cbn [concat] in Hl. rewrite app_nil_r, zlen_app in Hl.
  destruct (Bytes_encode_longer (hex_prefix p false)) as [H1 _]. rewrite hex_prefix_zlen in H1. lia.
Qed.
(** A branch whose children are [n] bytes long or more. *)
Lemma branch_long m n :
  branching m → (∀ i k v, m !! (i :: k) = Some v → is_nibble i) → 1 <= n <= 33 →
  (∀ i, sub [i] m ≠ ∅ → n <= zlen (root_rlp (sub [i] m))) → 16 + 2 * n <= zlen (root_rlp m).
Proof using keccak_array.
  intros Hm Hi Hn Hc. rewrite root_rlp_branch by done. unfold enc.
  etrans; [|apply struct_rlp_longer]. rewrite concat_app, zlen_app. change (zlen (concat [Bytes_encode []])) with 1.
  unfold choices. rewrite map_map. set (g := λ i, node_item _). set (l := seqZ 0 16).
  assert (zlen l = 16) as Hl by done.
  assert (∀ i, sub [i] m ≠ ∅ → n <= zlen (g i)) as Hg.
  { intros i He. unfold g. rewrite decide_False, item_length by done. specialize (Hc i He). case_match; lia. }
  assert (∀ i, 1 <= zlen (g i)) as Hg1.
  { intros i. destruct (decide (sub [i] m = ∅)) as [He|He]; [unfold g; by rewrite decide_True|].
    specialize (Hg i He). lia. }
  pose proof Hm as (x & y & Hxy & Hx & Hy).
  assert (∀ i, sub [i] m ≠ ∅ → i ∈ l) as Hin.
  { intros i (k & v & Hk)%sub_nonempty_inv. apply Hi in Hk. unfold is_nibble in Hk. apply elem_of_seqZ. lia. }
  pose proof (concat_two_longer g l x y n Hg1 (Hin x Hx) (Hin y Hy) Hxy (Hg x Hx) (Hg y Hy)). lia.
Qed.
Lemma keys_nibble r m i k v : keys_ok r m → m !! (i :: k) = Some v → is_nibble i.
Proof. intros Hk Hv. by destruct (Hk _ _ Hv) as (_ & [? _]%Forall_cons & _). Qed.
Lemma branch_min m r : keys_ok r m → branching m → 18 <= zlen (root_rlp m).
Proof using keccak_array.
  intros Hk Hm. apply (branch_long m 1); [done|by eauto using keys_nibble|lia|].
  intros i He. rewrite root_rlp_eq by done. destruct (enc_struct (node_of href (sub [i] m))) as [l ->].
  pose proof (struct_rlp_longer l). pose proof (zlen_nonneg (concat l)). lia.
Qed.
(** A leaf, an extension or a branch. *)
Lemma map_cases (n : nat) : ∀ r m,
  r <= Z.of_nat n → keys_ok r m → m ≠ ∅ →
  (∃ k v, m = {[k := v]}) ∨ branching m ∨ ∃ p m', p ≠ [] ∧ branching m' ∧ m = push p m'.
Proof.
  induction n as [|n IH]; intros r m Hr Hk Hm; pose proof Hm as (k & v & Hkv)%map_choose;
    destruct (Hk _ _ Hkv) as (Hl & _); pose proof (zlen_nonneg k).
  - left. exists k, v. assert (∀ k' v', m !! k' = Some v' → k' = []) as Hnil.
    { intros k' v' Hk'. destruct (Hk _ _ Hk') as (Hl' & _). destruct k'; [done|]. rewrite zlen_cons in Hl'. pose proof (zlen_nonneg k'). lia. }
    apply map_eq. intros k'. pose proof (Hnil _ _ Hkv) as ->. destruct (decide (k' = [])) as [->|Hne]; [by rewrite lookup_singleton_eq|].
    rewrite lookup_singleton_ne by done. destruct (m !! k') eqn:E; [|done]. by apply Hnil in E.
  - destruct (decide (r = 0)) as [->|]; [by apply (IH 0); [lia|..]|].
    destruct (branching_or_one r m) as [?|(j & Hj & Hs & He)]; [done|lia|done|by right; left|].
    apply (keys_ok_sub [j]) in Hk. change (zlen [j]) with 1 in Hk.
    destruct (IH (r - 1) (sub [j] m)) as [(k' & v' & E)|[Hb|(p & m' & Hp & Hb & E)]]; [lia|done|done|..].
    + left. exists (j :: k'), v'. by rewrite He, E, push_singleton.
    + right; right. by exists [j], (sub [j] m).
    + right; right. exists (j :: p), m'. split_and!; [done|done|]. by rewrite He, E, push_app.
Qed.
Lemma keys_ok_nonneg r m : keys_ok r m → m ≠ ∅ → 0 <= r.
Proof. intros Hk (k & v & Hkv)%map_choose. destruct (Hk _ _ Hkv) as (<- & _). apply zlen_nonneg. Qed.
(** Nodes over keys that are not short. *)
Lemma node_min m r : keys_ok r m → m ≠ ∅ → 12 <= r → 9 <= zlen (root_rlp m).
Proof using keccak_array.
  intros Hk Hm Hr. destruct (map_cases (Z.to_nat r) r m) as [(k & v & ->)|[Hb|(p & m' & Hp & Hb & ->)]]; [lia|done|done|..].
  - pose proof (leaf_long k v). destruct (Hk _ _ (lookup_singleton_eq _ _)) as (Hl & _). rewrite Hl in *.
    assert (6 <= r / 2) by (apply Z.div_le_lower_bound; lia). lia.
  - pose proof (branch_min m r Hk Hb). lia.
  - pose proof (ext_long p m' Hp Hb). apply keys_ok_push_inv in Hk. pose proof (branch_min m' _ Hk Hb).
    pose proof (branching_ne m' Hb). rewrite item_length in * by done. pose proof (zlen_nonneg p).
    assert (0 <= zlen p / 2) by (apply Z.div_pos; lia). case_match; lia.
Qed.
Lemma branch_32 m r : keys_ok r m → branching m → 13 <= r → 32 <= zlen (root_rlp m).
Proof using keccak_array.
  intros Hk Hb Hr. pose proof (branch_long m 9 Hb) as Hl. assert (16 + 2 * 9 <= zlen (root_rlp m)); [|lia].
  apply Hl; [by eauto using keys_nibble|lia|]. intros i Hi. apply (node_min _ (r - 1)); [|done|lia]. by apply (keys_ok_sub [i]).
Qed.
Lemma long_keys_rooted m : keys_ok 64 m → rooted keccak256 m.
Proof using keccak_array.
  intros Hk. unfold rooted. destruct (decide (m = ∅)) as [->|Hm]; [by left|]. right.
  destruct (map_cases 64 64 m) as [(k & v & ->)|[Hb|(p & m' & Hp & Hb & ->)]]; [lia|done|done|..].
  - pose proof (leaf_long k v). destruct (Hk _ _ (lookup_singleton_eq _ _)) as (Hl & _). rewrite Hl in *.
    change (64 / 2) with 32 in *. lia.
  - by apply (branch_32 m 64).
  - pose proof (ext_long p m' Hp Hb). apply keys_ok_push_inv in Hk. pose proof (branching_ne m' Hb) as Hne.
    pose proof (keys_ok_nonneg _ _ Hk Hne). rewrite item_length in * by done. pose proof (zlen_nonneg p).
    pose proof (Z.div_mod (zlen p) 2 ltac:(lia)). pose proof (Z.mod_pos_bound (zlen p) 2 ltac:(lia)).
    destruct (decide (13 <= 64 - zlen p)) as [Hl|Hl].
    + pose proof (branch_32 m' _ Hk Hb Hl). destruct (32 <=? zlen (root_rlp m')) eqn:E; bool_prop; lia.
    + pose proof (branch_min m' _ Hk Hb). case_match; lia.
Qed.
End Rooted.
