(* ===== verification/NetTypes.v ===== *)
(** * Endpoints, nodes and node records

    Model of [crates/net/types.rs]: the data that the discovery protocol exchanges and
    its RLP codecs. *)

From S2P Require Import Prelude Rlp RlpLaws U256 Codec.

#[export] Instance IpAddr_eq_dec : EqDecision IpAddr.
Proof. solve_decision. Defined.

Module Endpoint.
Record t := mk { ip : IpAddr; udp_port : Z; tcp_port : Z }.

(** A [SocketAddr]: address and port. *)
Definition tcp_address (self : t) : option (IpAddr * Z) :=
  if negb (tcp_port self =? 0) then Some (ip self, tcp_port self) else None.

Definition encode (self : t) : list Z :=
  Encoder.new []
  |> Encoder.encode_field IpAddr_encode (ip self)
  |> Encoder.encode_field u16_encode (udp_port self)
  |> Encoder.encode_field u16_encode (tcp_port self)
  |> Encoder.finish.
Definition decode_unfinished `{Profile} (rlp : list Z) : dres (t * list Z) :=
  decoder ← Decoder.new rlp;
  '(ip, decoder) ← Decoder.decode_field IpAddr_decode "ip" decoder;
  '(udp_port, decoder) ← Decoder.decode_field u16_decode "udp_port" decoder;
  '(tcp_port, decoder) ← Decoder.decode_field u16_decode "tcp_port" decoder;
  remaining ← Decoder.finish decoder;
  Ok (mk ip udp_port tcp_port, remaining).
End Endpoint.

Module Node.
Record t := mk { ip : IpAddr; udp_port : Z; tcp_port : Z; node_id : list Z }.
#[global] Instance eq_dec : EqDecision t.
Proof. solve_decision. Defined.

Definition encode (self : t) : list Z :=
  Encoder.new []
  |> Encoder.encode_field IpAddr_encode (ip self)
  |> Encoder.encode_field u16_encode (udp_port self)
  |> Encoder.encode_field u16_encode (tcp_port self)
  |> Encoder.encode_field H512_encode (node_id self)
  |> Encoder.finish.
(** Fields behind the known ones are ignored. *)
Definition decode_unfinished `{Profile} (rlp : list Z) : dres (t * list Z) :=
  decoder ← Decoder.new rlp;
  '(ip, decoder) ← Decoder.decode_field IpAddr_decode "ip" decoder;
  '(udp_port, decoder) ← Decoder.decode_field u16_decode "upd_port" decoder;
  '(tcp_port, decoder) ← Decoder.decode_field u16_decode "tcp_port" decoder;
  '(node_id, decoder) ← Decoder.decode_field H512_decode "node_id" decoder;
  Ok (mk ip udp_port tcp_port node_id, Decoder.finish_unchecked decoder).
End Node.

Module NodeRecord.
Record t := mk { signature : list Z; seq : Z; id : list Z; pairs : list (list Z * list Z) }.

Definition MAX_NODE_RECORD_ENCODED_SIZE : Z := 300.
Definition key_id : list Z := [105; 100]. (* "id" *)

(** A key consumes a byte of the payload at least, so one more than its length is
    fuel enough. *)
Fixpoint decode_node_record_optional_fields `{Profile} (fuel : nat) (pairs : list (list Z * list Z))
    (decoder : Decoder) : dres (list (list Z * list Z) * Decoder) :=
  match fuel with
  | O => OutOfFuel
  | S fuel =>
    '(key, decoder) ← Decoder.decode_optional_field Bytes_decode decoder;
    match key with
    | Some k =>
      match Decoder.get_encoded_item decoder with
      | Ok (value, decoder) => decode_node_record_optional_fields fuel (pairs ++ [(k, value)]) decoder
      | OutOfFuel => OutOfFuel
      | _ => Panic
      end
    | None => Ok (pairs, decoder)
    end
  end.
Definition decode_unfinished `{Profile} (rlp : list Z) : dres (t * list Z) :=
  if MAX_NODE_RECORD_ENCODED_SIZE <? zlen rlp then Err InvalidLength
  else
    decoder ← Decoder.new rlp;
    '(signature, decoder) ← Decoder.decode_field H512_decode "signature" decoder;
    '(seq, decoder) ← Decoder.decode_field u64_decode "seq" decoder;
    '(pairs, decoder) ← decode_node_record_optional_fields (S (length (payload decoder))) [] decoder;
    match list_find (λ kv : list Z * list Z, kv.1 = key_id) pairs with
    | Some (_, (_, id)) =>
      match decode String_decode id with
      | Ok id =>
        remaining ← Decoder.finish decoder;
        Ok (mk signature seq id pairs, remaining)
      | OutOfFuel => OutOfFuel
      | _ => Panic
      end
    | None => Err (Custom "Invalid node record, 'id' field missing")
    end.
Definition encode (self : t) : list Z :=
  Encoder.new []
  |> Encoder.encode_field H512_encode (signature self)
  |> Encoder.encode_field u64_encode (seq self)
  |> Encoder.encode_key_value_list (pairs self)
  |> Encoder.finish.
End NodeRecord.
