(* ===== verification/Discv4.v ===== *)
(** * Discovery messages and packets

    Model of [crates/net/discv4.rs]: the six messages with their codecs, the packet
    around them, and the tests on times.  [SystemTime::now] is an argument [now] in
    seconds; Keccak and secp256k1 are parameters. *)

From S2P Require Import Prelude Rlp RlpLaws U256 Codec Effects NetTypes.

(** ** Times *)
Definition as_i64 (x : Z) : Z := if x <? 2 ^ 63 then x else x - 2 ^ 64.
Definition get_expiration (now seconds : Z) : Z := now + seconds.
Definition is_expired (now expiration : Z) : bool := as_i64 expiration <? as_i64 now.
(** [duration_since] fails, and the [unwrap] panics, for a time in the future. *)
Definition time_since_in_hs (now time : Z) : pres Z := if now <? time then Panic else Ok ((now - time) / 3600).

(** ** The signature library *)
Class Secp256k1 (SigningKey : Type) := {
  (** [sign_prehash_recoverable], with the signature and the recovery id as bytes. *)
  sign_prehash_recoverable : SigningKey → list Z → option (list Z * Z);
  (** [Signature::from_slice] and [RecoveryId::from_byte] succeed. *)
  signature_from_slice : list Z → bool;
  recovery_id_from_byte : Z → bool;
  (** [VerifyingKey::recover_from_prehash] and the uncompressed point of a key. *)
  recover_from_prehash : list Z → list Z → Z → option (list Z);
  verifying_key_point : SigningKey → list Z
}.

(** [H256::from_slice], [H512::from_slice], [H520::from_slice]. *)
Definition hash_from_slice {E} (N : Z) (l : list Z) : res E (list Z) := if zlen l =? N then Ok l else Panic.
Definition node_id_from_signing_key `{Secp256k1} (signer : SigningKey) : pres (list Z) :=
  encoded ← slice_from (verifying_key_point signer) 1; hash_from_slice 64 encoded.

(** ** Messages *)
Module PingMessage.
Record t := mk { version : Z; from : Endpoint.t; to : Endpoint.t; expiration : Z; enr_seq : option Z }.
Definition new (from to : Endpoint.t) (expiration : Z) : t := mk 4 from to expiration None.
Definition with_enr_seq (self : t) (enr_seq : Z) : t :=
  mk (version self) (from self) (to self) (expiration self) (Some enr_seq).
Definition encode (self : t) : list Z :=
  Encoder.new []
  |> Encoder.encode_field u8_encode (version self)
  |> Encoder.encode_field Endpoint.encode (from self)
  |> Encoder.encode_field Endpoint.encode (to self)
  |> Encoder.encode_field u64_encode (expiration self)
  |> Encoder.encode_optional_field u64_encode (enr_seq self)
  |> Encoder.finish.
Definition decode_unfinished `{Profile} (rlp : list Z) : dres (t * list Z) :=
  decoder ← Decoder.new rlp;
  '(version, decoder) ← Decoder.decode_field u8_decode "version" decoder;
  '(from, decoder) ← Decoder.decode_field Endpoint.decode_unfinished "from" decoder;
  '(to, decoder) ← Decoder.decode_field Endpoint.decode_unfinished "to" decoder;
  '(expiration, decoder) ← Decoder.decode_field u64_decode "expiration" decoder;
  '(enr_seq, decoder) ← Decoder.decode_optional_field u64_decode decoder;
  let ping := mk version from to expiration enr_seq in
  Ok (ping, Decoder.finish_unchecked decoder).
End PingMessage.

Module FindNodeMessage.
Record t := mk { target : list Z; expiration : Z }.
Definition new (target : list Z) (expiration : Z) : t := mk target expiration.
Definition encode (self : t) : list Z :=
  Encoder.new []
  |> Encoder.encode_field H512_encode (target self)
  |> Encoder.encode_field u64_encode (expiration self)
  |> Encoder.finish.
Definition decode_unfinished `{Profile} (rlp : list Z) : dres (t * list Z) :=
  decoder ← Decoder.new rlp;
  '(target, decoder) ← Decoder.decode_field H512_decode "target" decoder;
  '(expiration, decoder) ← Decoder.decode_field u64_decode "expiration" decoder;
  let msg := mk target expiration in
  Ok (msg, Decoder.finish_unchecked decoder).
End FindNodeMessage.

Module PongMessage.
Record t := mk { to : Endpoint.t; ping_hash : list Z; expiration : Z; enr_seq : option Z }.
Definition new (to : Endpoint.t) (ping_hash : list Z) (expiration : Z) : t := mk to ping_hash expiration None.
Definition with_enr_seq (self : t) (enr_seq : Z) : t :=
  mk (to self) (ping_hash self) (expiration self) (Some enr_seq).
Definition encode (self : t) : list Z :=
  Encoder.new []
  |> Encoder.encode_field Endpoint.encode (to self)
  |> Encoder.encode_field H256_encode (ping_hash self)
  |> Encoder.encode_field u64_encode (expiration self)
  |> Encoder.encode_optional_field u64_encode (enr_seq self)
  |> Encoder.finish.
Definition decode_unfinished `{Profile} (rlp : list Z) : dres (t * list Z) :=
  decoder ← Decoder.new rlp;
  '(to, decoder) ← Decoder.decode_field Endpoint.decode_unfinished "to" decoder;
  '(ping_hash, decoder) ← Decoder.decode_field H256_decode "ping_hash" decoder;
  '(expiration, decoder) ← Decoder.decode_field u64_decode "expiration" decoder;
  '(enr_seq, decoder) ← Decoder.decode_optional_field u64_decode decoder;
  let pong := mk to ping_hash expiration enr_seq in
  Ok (pong, Decoder.finish_unchecked decoder).
End PongMessage.

Module NeighborsMessage.
Record t := mk { nodes : list Node.t; expiration : Z }.
Definition new (nodes : list Node.t) (expiration : Z) : t := mk nodes expiration.
Definition encode (self : t) : list Z :=
  Encoder.new []
  |> Encoder.encode_field (vec_encode Node.encode) (nodes self)
  |> Encoder.encode_field u64_encode (expiration self)
  |> Encoder.finish.
Definition decode_unfinished `{Profile} (rlp : list Z) : dres (t * list Z) :=
  decoder ← Decoder.new rlp;
  '(nodes, decoder) ← Decoder.decode_field (vec_decode Node.decode_unfinished) "nodes" decoder;
  '(expiration, decoder) ← Decoder.decode_field u64_decode "expiration" decoder;
  let neighbors := new nodes expiration in
  Ok (neighbors, Decoder.finish_unchecked decoder).
End NeighborsMessage.

Module ENRRequestMessage.
Record t := mk { expiration : Z }.
Definition encode (self : t) : list Z :=
  Encoder.new []
  |> Encoder.encode_field u64_encode (expiration self)
  |> Encoder.finish.
Definition decode_unfinished `{Profile} (rlp : list Z) : dres (t * list Z) :=
  decoder ← Decoder.new rlp;
  '(expiration, decoder) ← Decoder.decode_field u64_decode "expiration" decoder;
  let enr_request := mk expiration in
  Ok (enr_request, Decoder.finish_unchecked decoder).
End ENRRequestMessage.

Module ENRResponseMessage.
Record t := mk { request_hash : list Z; node_record : NodeRecord.t }.
Definition encode (self : t) : list Z :=
  Encoder.new []
  |> Encoder.encode_field H256_encode (request_hash self)
  |> Encoder.encode_field NodeRecord.encode (node_record self)
  |> Encoder.finish.
Definition decode_unfinished `{Profile} (rlp : list Z) : dres (t * list Z) :=
  decoder ← Decoder.new rlp;
  '(request_hash, decoder) ← Decoder.decode_field H256_decode "request_hash" decoder;
  '(node_record, decoder) ← Decoder.decode_field NodeRecord.decode_unfinished "node_record" decoder;
  let response := mk request_hash node_record in
  Ok (response, Decoder.finish_unchecked decoder).
End ENRResponseMessage.

Module Message.
Inductive t :=
  | Ping (msg : PingMessage.t)
  | Pong (msg : PongMessage.t)
  | FindNode (msg : FindNodeMessage.t)
  | Neighbors (msg : NeighborsMessage.t)
  | ENRRequest (msg : ENRRequestMessage.t)
  | ENRResponse (msg : ENRResponseMessage.t).

Definition packet_type (self : t) : Z :=
  match self with
  | Ping _ => 0x01
  | Pong _ => 0x02
  | FindNode _ => 0x03
  | Neighbors _ => 0x04
  | ENRRequest _ => 0x05
  | ENRResponse _ => 0x06
  end.
Definition encode_with_type (self : t) : list Z :=
  packet_type self ::
  match self with
  | Ping msg => PingMessage.encode msg
  | Pong msg => PongMessage.encode msg
  | FindNode msg => FindNodeMessage.encode msg
  | ENRRequest msg => ENRRequestMessage.encode msg
  | ENRResponse msg => ENRResponseMessage.encode msg
  | Neighbors msg => NeighborsMessage.encode msg
  end.
Definition decode_with_type `{Profile} (packet_type : Z) (msg : list Z) : dres t :=
  if packet_type =? 0x01 then '(ping, _) ← PingMessage.decode_unfinished msg; Ok (Ping ping)
  else if packet_type =? 0x02 then '(pong, _) ← PongMessage.decode_unfinished msg; Ok (Pong pong)
  else if packet_type =? 0x03 then '(find_node_msg, _) ← FindNodeMessage.decode_unfinished msg; Ok (FindNode find_node_msg)
  else if packet_type =? 0x04 then '(neighbors_msg, _) ← NeighborsMessage.decode_unfinished msg; Ok (Neighbors neighbors_msg)
  else if packet_type =? 0x05 then '(enr_request_msg, _) ← ENRRequestMessage.decode_unfinished msg; Ok (ENRRequest enr_request_msg)
  else if packet_type =? 0x06 then '(enr_response_msg, _) ← ENRResponseMessage.decode_unfinished msg; Ok (ENRResponse enr_response_msg)
  else Err MalformedData.

(** The buffer [data]: 65 bytes for the signature, then the typed message.  The
    [expect] panics when signing fails, [copy_from_slice] when the lengths differ. *)
Definition encode_with_header `{Secp256k1} (keccak256 : list Z → list Z) (self : t) (node_signer : SigningKey)
    : pres (list Z) :=
  let typed := encode_with_type self in
  let digest := keccak256 typed in
  '(b, recovery_id) ← unwrap (sign_prehash_recoverable node_signer digest);
  b ← hash_from_slice 64 b;
  let data := b ++ recovery_id :: typed in
  let hash := keccak256 data in
  Ok (hash ++ data).
End Message.

(** ** Packets *)
Module PacketDecodeErr.
Inductive t := RLPDecodeError (e : Rlp.RLPDecodeError) | InvalidSize | HashMismatch | InvalidSignature.
End PacketDecodeErr.

Module Packet.
Record t := mk { hash : list Z; signature : list Z; message : Message.t; node_id : list Z }.

Definition decode `{Secp256k1} `{Profile} (keccak256 : list Z → list Z) (encoded_packet : list Z)
    : res PacketDecodeErr.t t :=
  let hash_len := 32 in
  let signature_len := 65 in
  let header_size := hash_len + signature_len in
  if zlen encoded_packet <? header_size + 1 then Err PacketDecodeErr.InvalidSize
  else
    hash ← slice_to encoded_packet hash_len;
    signature_bytes ← slice encoded_packet hash_len header_size;
    packet_type ← index encoded_packet header_size;
    encoded_msg ← slice_from encoded_packet header_size;
    hashed ← slice_from encoded_packet hash_len;
    if negb (bool_decide (hash = keccak256 hashed)) then Err PacketDecodeErr.HashMismatch
    else
      let digest := keccak256 encoded_msg in
      signature ← slice signature_bytes 0 64;
      rid ← index signature_bytes 64;
      if negb (signature_from_slice signature) then Panic
      else if negb (recovery_id_from_byte rid) then Panic
      else
        encoded ← ok_or PacketDecodeErr.InvalidSignature (recover_from_prehash digest signature rid);
        encoded ← slice_from encoded 1;
        node_id ← hash_from_slice 64 encoded;
        signature ← hash_from_slice 65 signature_bytes;
        data ← slice_from encoded_msg 1;
        message ← map_err PacketDecodeErr.RLPDecodeError (Message.decode_with_type packet_type data);
        Ok (mk hash signature message node_id).
End Packet.
