(* ===== verification/Discv4Laws.v ===== *)
(** * Discovery messages: round trips, forward compatibility, sizes

    Every impl of [NetTypes] and [Discv4] fulfils the codec interface, node records
    apart, whose decoder looks at what follows the record; a packet decodes to the
    message and to the node id of its signer. *)

From S2P Require Import Prelude Rlp RlpLaws U256 Codec Effects NetTypes Discv4.

#[export] Typeclasses Opaque u16_encode u16_decode IpAddr_encode IpAddr_decode H512_encode H512_decode.
Section Instances.
Context `{Profile}.
#[export] Instance u16_codec : Codec u16_encode u16_decode (is_uint 16) := u16_laws.
#[export] Instance IpAddr_codec : Codec IpAddr_encode IpAddr_decode is_ip := IpAddr_laws.
#[export] Instance H512_codec : Codec H512_encode H512_decode (is_array 64) := array_laws 64.
End Instances.

(** ** Well-formed values: what the Rust types guarantee *)
Definition wf_endpoint (e : Endpoint.t) : Prop :=
  is_ip (Endpoint.ip e) ∧ is_uint 16 (Endpoint.udp_port e) ∧ is_uint 16 (Endpoint.tcp_port e).
Definition wf_node (n : Node.t) : Prop :=
  is_ip (Node.ip n) ∧ is_uint 16 (Node.udp_port n) ∧ is_uint 16 (Node.tcp_port n) ∧ is_array 64 (Node.node_id n).
Definition wf_ping (m : PingMessage.t) : Prop :=
  is_uint 8 (PingMessage.version m) ∧ wf_endpoint (PingMessage.from m) ∧ wf_endpoint (PingMessage.to m) ∧
  is_uint 64 (PingMessage.expiration m) ∧ from_option (is_uint 64) True (PingMessage.enr_seq m).
Definition wf_pong (m : PongMessage.t) : Prop :=
  wf_endpoint (PongMessage.to m) ∧ is_array 32 (PongMessage.ping_hash m) ∧
  is_uint 64 (PongMessage.expiration m) ∧ from_option (is_uint 64) True (PongMessage.enr_seq m).
Definition wf_find_node (m : FindNodeMessage.t) : Prop :=
  is_array 64 (FindNodeMessage.target m) ∧ is_uint 64 (FindNodeMessage.expiration m).
Definition wf_neighbors (m : NeighborsMessage.t) : Prop :=
  Forall wf_node (NeighborsMessage.nodes m) ∧ is_uint 64 (NeighborsMessage.expiration m).
Definition wf_enr_request (m : ENRRequestMessage.t) : Prop := is_uint 64 (ENRRequestMessage.expiration m).

Section Codecs.
Context `{Profile}.

#[export] Instance Endpoint_codec : Codec Endpoint.encode Endpoint.decode_unfinished wf_endpoint.
Proof. struct_codec plain_struct. Qed.
#[export] Instance Node_codec : Codec Node.encode Node.decode_unfinished wf_node.
Proof. struct_codec plain_struct. Qed.
#[export] Instance FindNode_codec : Codec FindNodeMessage.encode FindNodeMessage.decode_unfinished wf_find_node.
Proof. struct_codec plain_struct. Qed.
#[export] Instance ENRRequest_codec : Codec ENRRequestMessage.encode ENRRequestMessage.decode_unfinished wf_enr_request.
Proof. struct_codec plain_struct. Qed.
#[export] Instance Neighbors_codec : Codec NeighborsMessage.encode NeighborsMessage.decode_unfinished wf_neighbors.
Proof. struct_codec plain_struct. Qed.

(** The optional field is the last one of the struct. *)
#[local] Ltac optional_struct enr_seq x Hwf :=
  match type of Hwf with ?wf _ => unfold wf in Hwf end; destruct_and? Hwf;
  destruct (enr_seq x) eqn:E; cbn [app] in *; decode_fields; destruct x; cbn in *; by subst.
#[export] Instance Ping_codec : Codec PingMessage.encode PingMessage.decode_unfinished wf_ping.
Proof. struct_codec ltac:(optional_struct PingMessage.enr_seq). Qed.
#[export] Instance Pong_codec : Codec PongMessage.encode PongMessage.decode_unfinished wf_pong.
Proof. struct_codec ltac:(optional_struct PongMessage.enr_seq). Qed.
End Codecs.

(** ** Node records *)

(** The encoding of a byte string or of a list. *)
Definition is_item (v : list Z) : Prop :=
  (∃ p, bytes_ok p ∧ v = bytes_encode p) ∨ (∃ p, v = encode_length (zlen p) ++ p).
Definition pair_rlp_bytes (kv : list Z * list Z) : list Z := Bytes_encode kv.1 ++ kv.2.
Record wf_record (r : NodeRecord.t) : Prop := {
  signature_ok : is_array 64 (NodeRecord.signature r);
  seq_ok : is_uint 64 (NodeRecord.seq r);
  pairs_ok : Forall (λ kv, bytes_ok kv.1 ∧ is_item kv.2) (NodeRecord.pairs r);
  id_ok : bytes_ok (NodeRecord.id r) ∧ utf8_valid (NodeRecord.id r) = true;
  id_pair : snd <$> list_find (λ kv : list Z * list Z, kv.1 = NodeRecord.key_id) (NodeRecord.pairs r) =
            Some (NodeRecord.key_id, str_encode (NodeRecord.id r));
  size_ok : zlen (NodeRecord.encode r) <= NodeRecord.MAX_NODE_RECORD_ENCODED_SIZE
}.

Section Records.
Context `{Profile}.

Lemma get_item_ok v rest : is_item v → zlen v <= isize_max → get_item_with_prefix (v ++ rest) = Ok (v, rest).
Proof.
  intros Hv Hmax. assert (∃ l p, decode_rlp_item (v ++ rest) = Ok (l, p, rest)) as (l & p & Hd).
  { destruct Hv as [(p & Hp & ->)|(p & ->)].
    - assert (decode_bytes (bytes_encode p ++ rest) = Ok (p, rest)) as Hd.
      { apply decode_bytes_encode; [done|]. pose proof (zlen_bytes_encode p). lia. }
      unfold decode_bytes in Hd. res_inv. eauto.
    - exists true, p. rewrite <-app_assoc. apply decode_list_item. zlen_simpl.
      pose proof (zlen_nonneg (encode_length (zlen p))). lia. }
  destruct (decode_rlp_item_split _ _ _ _ Hd) as (h & He & _ & Hg). rewrite app_assoc in He.
  apply app_inv_tail in He as ->. done.
Qed.

Lemma fields_pairs l e b k : holds e b k →
  holds (Encoder.encode_key_value_list l e) b (k ++ map pair_rlp_bytes l).
Proof.
  revert e k. induction l as [|[key value] l IH]; intros e k He; [by rewrite app_nil_r|].
  replace (k ++ map pair_rlp_bytes ((key, value) :: l)) with ((k ++ [pair_rlp_bytes (key, value)]) ++ map pair_rlp_bytes l)
    by (by rewrite <-app_assoc). apply IH. destruct He as [Hb Ht]. split; cbn; [done|].
  rewrite Ht, concat_app. cbn. by rewrite app_nil_r.
Qed.
Lemma record_rlp r :
  NodeRecord.encode r = struct_rlp (H512_encode (NodeRecord.signature r) :: u64_encode (NodeRecord.seq r) ::
                                    map pair_rlp_bytes (NodeRecord.pairs r)).
Proof.
  unfold NodeRecord.encode. erewrite finish_struct by (apply fields_pairs; repeat apply fields_field; apply fields_nil).
  done.
Qed.

Lemma decode_pairs_ok l r : ∀ fuel acc,
  Forall (λ kv, bytes_ok kv.1 ∧ is_item kv.2) l → zlen (concat (map pair_rlp_bytes l)) <= isize_max →
  (length l < fuel)%nat →
  NodeRecord.decode_node_record_optional_fields fuel acc (mkDecoder (concat (map pair_rlp_bytes l)) r) =
    Ok (acc ++ l, mkDecoder [] r).
Proof.
  induction l as [|[key value] l IH]; intros [|fuel] acc Hl Hmax Hfuel; cbn in Hfuel; try lia.
  { cbn. by rewrite app_nil_r. }
  apply Forall_cons in Hl as [[Hk Hv] Hl]. cbn in Hk, Hv. cbn [map concat] in *. unfold pair_rlp_bytes at 1 in Hmax.
  cbn [fst snd] in Hmax. zlen_simpl. pose proof (zlen_nonneg (Bytes_encode key)). pose proof (zlen_nonneg value).
  pose proof (zlen_nonneg (concat (map pair_rlp_bytes l))).
  cbn [NodeRecord.decode_node_record_optional_fields]. unfold Decoder.decode_optional_field, pair_rlp_bytes at 1.
  cbn [payload remaining fst snd]. rewrite <-app_assoc.
  rewrite (codec_roundtrip Bytes_encode Bytes_decode _ key) by (done || lia). cbn. unfold Decoder.get_encoded_item.
  cbn [payload remaining]. rewrite get_item_ok by (done || lia). rewrite bind_Ok_l, IH by (done || lia).
  by rewrite <-app_assoc.
Qed.
Lemma pairs_fuel l : (length l <= length (concat (map pair_rlp_bytes l)))%nat.
Proof.
  induction l as [|kv l IH]; cbn; [lia|]. unfold pair_rlp_bytes at 1. rewrite !length_app.
  assert (0 < zlen (Bytes_encode kv.1)); [|unfold zlen in *; lia].
  unfold Bytes_encode, bytes_encode. pose proof (zlen_nonneg kv.1).
  case_match; [done|]. case_match; cbv zeta; zlen_simpl; [lia|].
  pose proof (zlen_nonneg (be_trim (to_be 8 (zlen kv.1)))). lia.
Qed.
Lemma record_roundtrip_rest r rest :
  wf_record r → zlen (NodeRecord.encode r ++ rest) <= NodeRecord.MAX_NODE_RECORD_ENCODED_SIZE →
  NodeRecord.decode_unfinished (NodeRecord.encode r ++ rest) = Ok (r, rest).
Proof.
  intros [Hsig Hseq Hpairs [Hid Hutf] Hfind _] Hlen. unfold NodeRecord.decode_unfinished.
  rewrite (proj2 (Z.ltb_ge _ _)) by lia. rewrite record_rlp in *. unfold NodeRecord.MAX_NODE_RECORD_ENCODED_SIZE in Hlen.
  zlen_simpl. pose proof (zlen_nonneg rest).
  apply decode_new; [unfold isize_max; lia|intros Hmax].
  eapply decode_field_bind; [apply _|done|done|intros Hmax2]. cbv beta iota.
  eapply decode_field_bind; [apply _|done|done|intros Hmax3]. cbv beta iota. cbn [payload].
  rewrite decode_pairs_ok by (done || (pose proof (pairs_fuel (NodeRecord.pairs r)); lia)).
  rewrite bind_Ok_l. cbn [app]. cbv beta iota.
  destruct (list_find _ _) as [[i kv]|] eqn:Ef; [|done]. cbn in Hfind. injection Hfind as ->.
  unfold decode. rewrite <-(app_nil_r (str_encode _)).
  assert (zlen (str_encode (NodeRecord.id r)) <= isize_max) as Hs.
  { apply list_find_Some in Ef as (Hi & _ & _). apply list_elem_of_lookup_2, list_elem_of_split in Hi as (l1 & l2 & Hl).
    rewrite Hl, map_app, concat_app in Hmax3. cbn in Hmax3. zlen_simpl.
    pose proof (zlen_nonneg (concat (map pair_rlp_bytes l1))). pose proof (zlen_nonneg (concat (map pair_rlp_bytes l2))).
    change (pair_rlp_bytes (?k, ?v)) with (Bytes_encode k ++ v) in Hmax3. zlen_simpl. pose proof (zlen_nonneg (Bytes_encode NodeRecord.key_id)). lia. }
  pose proof (rlp_roundtrip (c:=String_rlp) (NodeRecord.id r) [] (conj Hid Hutf) Hs) as Hr.
  cbn [String_rlp rlp_encode rlp_decode] in Hr. rewrite Hr. cbn. by destruct r.
Qed.
End Records.

(** ** Messages *)
Definition wf_enr_response (m : ENRResponseMessage.t) : Prop :=
  is_array 32 (ENRResponseMessage.request_hash m) ∧ wf_record (ENRResponseMessage.node_record m).
Definition wf_message (m : Message.t) : Prop :=
  match m with
  | Message.Ping m => wf_ping m
  | Message.Pong m => wf_pong m
  | Message.FindNode m => wf_find_node m
  | Message.Neighbors m => wf_neighbors m
  | Message.ENRRequest m => wf_enr_request m
  | Message.ENRResponse m => wf_enr_response m
  end.

(** The encodings of the fields of a message. *)
Definition optional_rlp (o : option Z) : list (list Z) := match o with Some x => [u64_encode x] | None => [] end.
Definition message_fields (m : Message.t) : list (list Z) :=
  match m with
  | Message.Ping m =>
    [u8_encode (PingMessage.version m); Endpoint.encode (PingMessage.from m); Endpoint.encode (PingMessage.to m);
     u64_encode (PingMessage.expiration m)] ++ optional_rlp (PingMessage.enr_seq m)
  | Message.Pong m =>
    [Endpoint.encode (PongMessage.to m); H256_encode (PongMessage.ping_hash m);
     u64_encode (PongMessage.expiration m)] ++ optional_rlp (PongMessage.enr_seq m)
  | Message.FindNode m => [H512_encode (FindNodeMessage.target m); u64_encode (FindNodeMessage.expiration m)]
  | Message.Neighbors m =>
    [vec_encode Node.encode (NeighborsMessage.nodes m); u64_encode (NeighborsMessage.expiration m)]
  | Message.ENRRequest m => [u64_encode (ENRRequestMessage.expiration m)]
  | Message.ENRResponse m =>
    [H256_encode (ENRResponseMessage.request_hash m); NodeRecord.encode (ENRResponseMessage.node_record m)]
  end.
Lemma encode_with_type_struct m :
  Message.encode_with_type m = Message.packet_type m :: struct_rlp (message_fields m).
Proof.
  unfold Message.encode_with_type.
  destruct m as [m|m|m|m|m|m]; cbn [Message.packet_type message_fields]; f_equal;
    match goal with |- ?f m = _ => unfold f end; encode_fields; done.
Qed.

(** Bytes that may follow the fields of a message inside its list: none where an
    optional field is absent, few behind a node record, else any. *)
Definition accepts (m : Message.t) (extra : list Z) : Prop :=
  match m with
  | Message.Ping m => PingMessage.enr_seq m = None → extra = []
  | Message.Pong m => PongMessage.enr_seq m = None → extra = []
  | Message.ENRResponse m =>
    zlen (NodeRecord.encode (ENRResponseMessage.node_record m) ++ extra) <= NodeRecord.MAX_NODE_RECORD_ENCODED_SIZE
  | _ => True
  end.

Section Messages.
Context `{Profile}.

#[local] Ltac run_message m Hwf :=
  match type of Hwf with ?wf _ => unfold wf in Hwf end; destruct_and? Hwf; decode_fields; by destruct m.
#[local] Ltac run_optional enr_seq m Hwf Hacc :=
  match type of Hwf with ?wf _ => unfold wf in Hwf end; destruct_and? Hwf;
  destruct (enr_seq m) eqn:E; [|rewrite (Hacc eq_refl) in *]; cbn [app optional_rlp] in *;
  decode_fields; destruct m; cbn in *; by subst.
Lemma message_decodes m extra trailing :
  wf_message m → accepts m extra → zlen (struct_rlp (message_fields m ++ [extra])) <= isize_max →
  Message.decode_with_type (Message.packet_type m) (struct_rlp (message_fields m ++ [extra]) ++ trailing) = Ok m.
Proof.
  intros Hwf Hacc Hmax. destruct m as [m|m|m|m|m|m]; unfold Message.decode_with_type; cbn [Message.packet_type Z.eqb Pos.eqb];
    cbn [message_fields wf_message accepts] in *;
    match goal with |- ?d ≫= _ = _ => enough (d = Ok (m, trailing)) as -> by done end;
    match goal with |- ?f _ _ = _ => unfold f end.
  - run_optional PingMessage.enr_seq m Hwf Hacc.
  - run_optional PongMessage.enr_seq m Hwf Hacc.
  - run_message m Hwf.
  - run_message m Hwf.
  - run_message m Hwf.
  - destruct Hwf as [Hh Hr]. decode_fields. unfold Decoder.decode_field. cbn [payload remaining app concat].
    rewrite record_roundtrip_rest by (rewrite ?app_nil_r; done). cbn. by destruct m.
Qed.
End Messages.

(** ** Packets *)

(** The documented behaviour of the signature library: a signature of 64 bytes and a
    recovery id of one, both valid, from which the point of the signer is recovered; a
    point is the tag and 64 bytes. *)
Class Secp256k1Laws (SigningKey : Type) `{!Secp256k1 SigningKey} : Prop := {
  sign_recovers (k : SigningKey) (digest : list Z) : ∃ b rid,
    sign_prehash_recoverable k digest = Some (b, rid) ∧ is_array 64 b ∧ is_byte rid ∧
    signature_from_slice b = true ∧ recovery_id_from_byte rid = true ∧
    recover_from_prehash digest b rid = Some (verifying_key_point k);
  point_array (k : SigningKey) : is_array 65 (verifying_key_point k)
}.

Section Packets.
Context `{Profile} `{Secp256k1Laws SigningKey}.
Variable keccak256 : list Z → list Z.
Hypothesis keccak_array : ∀ x, is_array 32 (keccak256 x).
#[local] Set Default Proof Using "All".

Lemma node_id_ok (k : SigningKey) : node_id_from_signing_key k = Ok (zdrop 1 (verifying_key_point k)).
Proof using H0.
  destruct (point_array k) as [_ Hl]. unfold node_id_from_signing_key, hash_from_slice.
  rewrite slice_from_ok, bind_Ok_l, zlen_zdrop by lia. by decide_bools.
Qed.

(** A packet that carries its own hash: what is left of the decoder. *)
Lemma decode_hashed b rid ty data :
  zlen b = 64 →
  let sig := b ++ [rid] in let hash := keccak256 (sig ++ ty :: data) in
  Packet.decode keccak256 (hash ++ sig ++ ty :: data) =
    (if negb (signature_from_slice b) then Panic
     else if negb (recovery_id_from_byte rid) then Panic
     else
       encoded ← ok_or PacketDecodeErr.InvalidSignature (recover_from_prehash (keccak256 (ty :: data)) b rid);
       encoded ← slice_from encoded 1;
       node_id ← hash_from_slice 64 encoded;
       message ← map_err PacketDecodeErr.RLPDecodeError (Message.decode_with_type ty data);
       Ok (Packet.mk hash sig message node_id)).
Proof using keccak_array.
  intros Hb sig hash. assert (zlen sig = 65) as Hs by (unfold sig; rewrite zlen_app, Hb; done).
  assert (zlen hash = 32) as Hh by apply keccak_array.
  pose proof (zlen_nonneg data). unfold Packet.decode. cbv zeta.
  set (pkt := hash ++ sig ++ ty :: data). assert (zlen pkt = 98 + zlen data) as Hz by (unfold pkt; zlen_simpl; lia).
  rewrite (proj2 (Z.ltb_ge _ _)) by lia.
  assert (slice_to (E:=PacketDecodeErr.t) pkt 32 = Ok hash) as ->.
  { rewrite slice_to_ok by lia. f_equal. unfold pkt. by apply ztake_app_exact. }
  assert (slice (E:=PacketDecodeErr.t) pkt 32 (32 + 65) = Ok sig) as ->.
  { rewrite slice_ok by lia. f_equal. unfold pkt. rewrite zdrop_app_exact by done. by apply ztake_app_exact. }
  assert (zdrop 97 pkt = ty :: data) as Hmsg.
  { unfold pkt. rewrite app_assoc. apply zdrop_app_exact. zlen_simpl. lia. }
  assert (index (E:=PacketDecodeErr.t) pkt (32 + 65) = Ok ty) as ->.
  { apply (f_equal head) in Hmsg. unfold zdrop in Hmsg. rewrite head_lookup, lookup_drop in Hmsg.
    unfold index. decide_bools. change (Z.to_nat 97 + 0)%nat with (Z.to_nat (32 + 65)) in Hmsg. by rewrite Hmsg. }
  assert (slice_from (E:=PacketDecodeErr.t) pkt (32 + 65) = Ok (ty :: data)) as ->.
  { rewrite slice_from_ok by lia. by rewrite <-Hmsg. }
  assert (slice_from (E:=PacketDecodeErr.t) pkt 32 = Ok (sig ++ ty :: data)) as ->.
  { rewrite slice_from_ok by lia. f_equal. unfold pkt. by apply zdrop_app_exact. }
  rewrite !bind_Ok_l, bool_decide_true by done. cbn [negb].
  assert (slice (E:=PacketDecodeErr.t) sig 0 64 = Ok b) as ->.
  { rewrite slice_ok by lia. f_equal. by apply ztake_app_exact. }
  assert (index (E:=PacketDecodeErr.t) sig 64 = Ok rid) as ->.
  { unfold index, sig. decide_bools. assert (Z.to_nat 64 = length b) as -> by (unfold zlen in Hb; lia).
    by rewrite list_lookup_middle. }
  assert (hash_from_slice (E:=PacketDecodeErr.t) 65 sig = Ok sig) as -> by (unfold hash_from_slice; by rewrite Hs).
  rewrite !bind_Ok_l, slice_from_cons. done.
Qed.

(** The data of a message of type [ty], signed by [k]. *)
Lemma decode_signed k ty data : ∃ b rid,
  let sig := b ++ [rid] in let hash := keccak256 (sig ++ ty :: data) in
  sign_prehash_recoverable k (keccak256 (ty :: data)) = Some (b, rid) ∧ zlen b = 64 ∧
  Packet.decode keccak256 (hash ++ sig ++ ty :: data) =
    (message ← map_err PacketDecodeErr.RLPDecodeError (Message.decode_with_type ty data);
     Ok (Packet.mk hash sig message (zdrop 1 (verifying_key_point k)))).
Proof.
  destruct (sign_recovers k (keccak256 (ty :: data))) as (b & rid & Hs & [_ Hb] & _ & Hsig & Hrid & Hrec).
  destruct (point_array k) as [_ Hp]. exists b, rid. split_and!; [done..|].
  rewrite decode_hashed, Hsig, Hrid, Hrec by done. cbn [negb ok_or]. rewrite bind_Ok_l.
  rewrite slice_from_ok, bind_Ok_l by lia. unfold hash_from_slice. rewrite zlen_zdrop, Hp by lia.
  change (65 - 1 =? 64) with true. cbv iota. by rewrite bind_Ok_l.
Qed.
Lemma encode_signed m k b rid :
  sign_prehash_recoverable k (keccak256 (Message.encode_with_type m)) = Some (b, rid) → zlen b = 64 →
  let data := (b ++ [rid]) ++ Message.encode_with_type m in
  Message.encode_with_header keccak256 m k = Ok (keccak256 data ++ data).
Proof using Type.
  intros Hs Hb data. unfold Message.encode_with_header. cbv zeta. rewrite Hs. cbn [unwrap]. rewrite bind_Ok_l. cbv beta iota.
  unfold hash_from_slice. rewrite Hb. cbn [Z.eqb Pos.eqb]. rewrite bind_Ok_l. unfold data. by rewrite <-!app_assoc.
Qed.
Lemma packet_decodes m k :
  wf_message m → zlen (Message.encode_with_type m) <= isize_max →
  ∃ pkt p, Message.encode_with_header keccak256 m k = Ok pkt ∧ Packet.decode keccak256 pkt = Ok p ∧
    Packet.message p = m ∧ Packet.node_id p = zdrop 1 (verifying_key_point k) ∧ Packet.hash p = ztake 32 pkt ∧
    is_array 32 (Packet.hash p) ∧ zlen pkt = 97 + zlen (Message.encode_with_type m).
Proof.
  intros Hwf Hmax. rewrite encode_with_type_struct, zlen_cons in Hmax.
  assert (struct_rlp (message_fields m) = struct_rlp (message_fields m ++ [[]])) as Hs.
  { unfold struct_rlp. rewrite concat_app. cbn. by rewrite app_nil_r. }
  destruct (decode_signed k (Message.packet_type m) (struct_rlp (message_fields m)))
    as (b & rid & Hsign & Hb & Hd). rewrite <-encode_with_type_struct in Hsign, Hd.
  eexists _, _. split; [by apply encode_signed|]. split; [|split_and!].
  - rewrite Hd. rewrite Hs, <-(app_nil_r (struct_rlp _)), message_decodes; [|done|..|rewrite <-Hs; lia].
    + cbn [map_err]. by rewrite bind_Ok_l.
    + destruct m as [| | | | |m]; try done. cbn in *. rewrite app_nil_r. apply Hwf.
  - done.
  - done.
  - cbn [Packet.hash]. symmetry. apply ztake_app_exact. symmetry. apply keccak_array.
  - apply keccak_array.
  - set (data := _ ++ Message.encode_with_type m). rewrite zlen_app. destruct (keccak_array data) as [_ ->].
    unfold data. zlen_simpl. change (zlen [rid]) with 1. lia.
Qed.
End Packets.

(** A packet made by [encode_with_header] decodes to the message it was made from
    and to the node id of the key that signed it; its hash is its first 32 bytes. *)
Theorem packet_roundtrip (P : Profile) (SigningKey : Type) (S : Secp256k1 SigningKey)
    (L : Secp256k1Laws SigningKey) (keccak256 : list Z → list Z) (m : Message.t) (k : SigningKey) :
  (∀ x, is_array 32 (keccak256 x)) → wf_message m → zlen (Message.encode_with_type m) <= isize_max →
  ∃ pkt p, Message.encode_with_header keccak256 m k = Ok pkt ∧ Packet.decode keccak256 pkt = Ok p ∧
    Packet.message p = m ∧ node_id_from_signing_key k = Ok (Packet.node_id p) ∧ Packet.hash p = ztake 32 pkt.
Proof.
  intros Hk Hwf Hmax. destruct (packet_decodes keccak256 Hk m k Hwf Hmax) as (pkt & p & He & Hd & Hm & Hid & Hh & _ & _).
  exists pkt, p. rewrite Hid. split_and!; [done..|apply node_id_ok|done].
Qed.

(** Fields that later versions add behind the known ones, and bytes behind the
    message, are ignored: the decoder still returns the message ([accepts] excludes a
    message that leaves out its optional field, and records over the size limit). *)
Theorem messages_forward_compatible (P : Profile) (m : Message.t) (extra trailing : list Z) :
  wf_message m → accepts m extra → zlen (struct_rlp (message_fields m ++ [extra])) <= isize_max →
  Message.encode_with_type m = Message.packet_type m :: struct_rlp (message_fields m) ∧
  Message.decode_with_type (Message.packet_type m) (struct_rlp (message_fields m ++ [extra]) ++ trailing) = Ok m.
Proof. intros Hwf Hacc Hmax. split; [apply encode_with_type_struct|by apply message_decodes]. Qed.

(** A packet that carries its hash makes the decoder panic when its signature or its
    recovery id is not valid, although an error exists for bad signatures. *)
Theorem invalid_signature_panics (P : Profile) (SigningKey : Type) (S : Secp256k1 SigningKey)
    (keccak256 : list Z → list Z) (b : list Z) (rid ty : Z) (data : list Z) :
  (∀ x, is_array 32 (keccak256 x)) → zlen b = 64 →
  signature_from_slice b && recovery_id_from_byte rid = false →
  let body := (b ++ [rid]) ++ ty :: data in
  Packet.decode keccak256 (keccak256 body ++ body) = Panic.
Proof.
  intros Hk Hb Hv body. unfold body. rewrite decode_hashed by done.
  destruct (signature_from_slice b), (recovery_id_from_byte rid); done.
Qed.

(** ** Sizes *)
Section Sizes.
#[local] Set Default Proof Using "Type".
Lemma struct_rlp_size l : zlen (concat l) <= isize_max → zlen (struct_rlp l) <= 9 + zlen (concat l).
Proof.
  intros Hmax. unfold struct_rlp. rewrite zlen_app. pose proof (zlen_nonneg (concat l)).
  rewrite encode_length_prefix. pose proof (zlen_item_prefix 0xc0 0xf7 (zlen (concat l))). lia.
Qed.
Lemma bytes_encode_size p : zlen p < 56 → zlen (bytes_encode p) <= 1 + zlen p.
Proof.
  intros Hp. pose proof (zlen_nonneg p). unfold bytes_encode. case_match eqn:E; [cbn; bool_prop; zlen_simpl; lia|].
  rewrite (proj2 (Z.ltb_lt _ _)) by done. zlen_simpl. lia.
Qed.
Lemma uint_size w n : (w <= 8)%nat → is_uint (8 * Z.of_nat w) n → zlen (uint_encode w n) <= 1 + Z.of_nat w.
Proof.
  intros Hw Hn. destruct (uint_encode_bytes w n Hw) as (t & -> & _ & Ht).
  - unfold is_uint in Hn. rewrite Z.pow_mul_r in Hn by lia. done.
  - pose proof (bytes_encode_size t). lia.
Qed.
Lemma array_size N l : is_array N l → N < 56 → zlen (bytes_encode l) <= 1 + N.
Proof. intros [_ <-]. apply bytes_encode_size. Qed.
Lemma H512_size l : is_array 64 l → zlen (H512_encode l) = 66.
Proof. intros [_ Hl]. unfold H512_encode, bytes_encode. rewrite Hl. change ((64 =? 1) && _) with false.
  cbv iota. rewrite zlen_app, Hl. done. Qed.
Lemma ip_size ip : is_ip ip → zlen (IpAddr_encode ip) <= 17.
Proof. destruct ip; cbn; intros Hip; [etrans; [by apply (array_size 4)|lia]|by apply (array_size 16)]. Qed.
Lemma option_size o : from_option (is_uint 64) True o → zlen (concat (optional_rlp o)) <= 9.
Proof. destruct o; cbn; intros Ho; rewrite ?app_nil_r, ?zlen_nil; [|lia]. by apply (uint_size 8). Qed.

(** Sums the sizes of the fields of a struct. *)
#[local] Ltac sum_sizes := etrans; [apply struct_rlp_size|]; cbn [concat app]; rewrite ?concat_app; zlen_simpl; unfold isize_max.
Lemma endpoint_size e : wf_endpoint e → zlen (Endpoint.encode e) <= 32.
Proof.
  intros (Hip & Hu & Ht). unfold Endpoint.encode. encode_fields.
  pose proof (ip_size _ Hip). pose proof (uint_size 2 _ ltac:(lia) Hu). pose proof (uint_size 2 _ ltac:(lia) Ht).
  unfold u16_encode in *. sum_sizes; lia.
Qed.
Lemma node_size n : wf_node n → zlen (Node.encode n) <= 98.
Proof.
  intros (Hip & Hu & Ht & Hid). unfold Node.encode. encode_fields. pose proof (H512_size _ Hid).
  pose proof (ip_size _ Hip). pose proof (uint_size 2 _ ltac:(lia) Hu). pose proof (uint_size 2 _ ltac:(lia) Ht).
  unfold u16_encode in *. sum_sizes; lia.
Qed.
Lemma vec_encode_struct {A} (enc : A → list Z) l : vec_encode enc l = struct_rlp (map enc l).
Proof. destruct l as [|x l]; [done|]. unfold vec_encode, struct_rlp. by rewrite fold_left_zlen. Qed.
Lemma nodes_size l : Forall wf_node l → zlen l <= 4 → zlen (vec_encode Node.encode l) <= 401.
Proof.
  intros Hl Hlen. rewrite vec_encode_struct.
  assert (zlen (concat (map Node.encode l)) <= 98 * zlen l).
  { clear Hlen. induction Hl as [|n l Hn Hl IH]; [done|]. cbn [map concat]. zlen_simpl. pose proof (node_size n Hn). lia. }
  etrans; [apply struct_rlp_size|]; unfold isize_max; lia.
Qed.

(** The most nodes that a message of ours carries. *)
Definition few_nodes (m : Message.t) : Prop :=
  match m with Message.Neighbors m => zlen (NeighborsMessage.nodes m) <= 4 | _ => True end.
Lemma message_size m : wf_message m → few_nodes m → zlen (Message.encode_with_type m) <= 1183.
Proof.
  intros Hwf Hfew. rewrite encode_with_type_struct, zlen_cons.
  enough (zlen (concat (message_fields m)) <= 1173) by (pose proof (struct_rlp_size (message_fields m)); unfold isize_max in *; lia).
  destruct m as [m|m|m|m|m|m]; cbn [message_fields wf_message few_nodes] in *; rewrite ?concat_app; cbn [concat]; zlen_simpl.
  - destruct Hwf as (Hv & Hf & Ht & He & Ho). pose proof (uint_size 1 _ ltac:(lia) Hv). pose proof (endpoint_size _ Hf).
    pose proof (endpoint_size _ Ht). pose proof (uint_size 8 _ ltac:(lia) He). pose proof (option_size _ Ho).
    unfold u8_encode, u64_encode in *. lia.
  - destruct Hwf as (Ht & Hh & He & Ho). pose proof (endpoint_size _ Ht). pose proof (array_size 32 _ Hh).
    pose proof (uint_size 8 _ ltac:(lia) He). pose proof (option_size _ Ho). unfold H256_encode, u64_encode in *. lia.
  - destruct Hwf as (Ht & He). pose proof (H512_size _ Ht). pose proof (uint_size 8 _ ltac:(lia) He). unfold u64_encode in *. lia.
  - destruct Hwf as (Hn & He). pose proof (nodes_size _ Hn Hfew). pose proof (uint_size 8 _ ltac:(lia) He).
    unfold u64_encode in *. lia.
  - pose proof (uint_size 8 _ ltac:(lia) Hwf). unfold u64_encode in *. lia.
  - destruct Hwf as (Hh & Hr). pose proof (array_size 32 _ Hh). pose proof (size_ok _ Hr).
    unfold NodeRecord.MAX_NODE_RECORD_ENCODED_SIZE, H256_encode in *. lia.
Qed.
End Sizes.

(** ** A sample signature scheme: the signature is the key *)
Definition toy_point (k : bool) : list Z := 4 :: replicate 64 (if k then 7 else 9).
#[export] Instance toy_secp : Secp256k1 bool := {|
  sign_prehash_recoverable k _ := Some (zdrop 1 (toy_point k), 0);
  signature_from_slice b := zlen b =? 64;
  recovery_id_from_byte b := b <=? 3;
  recover_from_prehash _ b _ := Some (4 :: b);
  verifying_key_point := toy_point
|}.
#[export] Instance toy_secp_laws : Secp256k1Laws bool.
Proof.
  split.
  - intros k d. eexists _, _. split; [done|]. destruct k; (split_and!; [by_decide|by_decide|done..]).
  - intros []; by_decide.
Qed.
Definition toy_hash (x : list Z) : list Z := map (λ b, b mod 256) (take 32 (x ++ replicate 32 0)).
Lemma toy_hash_array x : is_array 32 (toy_hash x).
Proof.
  split.
  - apply Forall_map, Forall_true. intros b. unfold is_byte. pose proof (Z.mod_pos_bound b 256). lia.
  - unfold toy_hash, zlen. rewrite length_map, length_take, length_app, length_replicate. lia.
Qed.

#[export] Instance is_ip_dec ip : Decision (is_ip ip).
Proof. destruct ip; apply _. Defined.
#[export] Instance wf_endpoint_dec e : Decision (wf_endpoint e).
Proof. unfold wf_endpoint. apply _. Defined.
#[export] Instance wf_node_dec n : Decision (wf_node n).
Proof. unfold wf_node. apply _. Defined.
Definition sample_endpoint (b port : Z) : Endpoint.t := Endpoint.mk (V4 [10; 0; 0; b]) port 0.
Definition sample_ping : Message.t :=
  Message.Ping (PingMessage.with_enr_seq (PingMessage.new (sample_endpoint 1 30303) (sample_endpoint 2 30304) 1700000000) 5).
Lemma sample_ping_wf : wf_message sample_ping.
Proof. cbn. unfold wf_ping. split_and!; by_decide. Qed.

Lemma packet_roundtrip_witness :
  ∃ pkt p, Message.encode_with_header toy_hash sample_ping true = Ok pkt ∧
    Packet.decode (H0:=dev_profile) toy_hash pkt = Ok p ∧ Packet.message p = sample_ping.
Proof.
  destruct (packet_roundtrip dev_profile bool toy_secp toy_secp_laws toy_hash sample_ping true toy_hash_array sample_ping_wf)
    as (pkt & p & He & Hd & Hm & _); [by_decide|]. exact (ex_intro _ pkt (ex_intro _ p (conj He (conj Hd Hm)))).
Defined.
Lemma messages_forward_compatible_witness :
  Message.decode_with_type (H:=dev_profile) 1 (struct_rlp (message_fields sample_ping ++ [[0x83; 1; 2; 3]]) ++ [0; 0]) = Ok sample_ping.
Proof.
  refine (proj2 (messages_forward_compatible dev_profile sample_ping [0x83; 1; 2; 3] [0; 0] sample_ping_wf _ _)); [done|by_decide].
Defined.
Lemma invalid_signature_panics_witness :
  let body := (replicate 64 1 ++ [4]) ++ 1 :: [0xc0] in
  Packet.decode (H0:=dev_profile) toy_hash (toy_hash body ++ body) = Panic.
Proof.
  exact (invalid_signature_panics dev_profile bool toy_secp toy_hash (replicate 64 1) 4 1 [0xc0] toy_hash_array eq_refl eq_refl).
Defined.
