(* ===== verification/Kademlia.v ===== *)
(** * The table of peers

    Model of [crates/net/kademlia.rs] and of [FindNodeRequest] of [discv4.rs]: 256
    buckets of peers and replacements.  [time_now_unix] is an argument [now]; a channel
    is a number; a mutable reference to a peer is the function that is applied to it. *)

From S2P Require Import Prelude Rlp RlpLaws U256 Codec Effects NetTypes.

Definition MAX_NODES_PER_BUCKET : Z := 16.
Definition NUMBER_OF_BUCKETS : Z := 256.
Definition MAX_NUMBER_OF_REPLACEMENTS : Z := 10.

Module FindNodeRequest.
Record t := mk { nodes_sent : Z; sent_at : Z; tx : option Z }.
#[global] Instance eq_dec : EqDecision t.
Proof. solve_decision. Defined.
Definition default (now : Z) : t := mk 0 now None.
Definition new_with_sender (now sender : Z) : t := mk 0 now (Some sender).
End FindNodeRequest.

Module PeerData.
Record t := mk {
  node : Node.t;
  last_ping : Z;
  last_pong : Z;
  last_ping_hash : option (list Z);
  is_proven : bool;
  find_node_request : option FindNodeRequest.t;
  liveness : Z;
  revalidation : option bool
}.
#[global] Instance eq_dec : EqDecision t.
Proof. solve_decision. Defined.

Definition new (record : Node.t) (last_ping last_pong : Z) (is_proven : bool) : t :=
  mk record last_ping last_pong None is_proven None 1 None.
Definition set_find_node_request (request : option FindNodeRequest.t) (self : t) : t :=
  mk (node self) (last_ping self) (last_pong self) (last_ping_hash self) (is_proven self) request
    (liveness self) (revalidation self).
Definition new_find_node_request (now : Z) : t → t := set_find_node_request (Some (FindNodeRequest.default now)).
Definition new_find_node_request_with_sender (now sender : Z) : t → t :=
  set_find_node_request (Some (FindNodeRequest.new_with_sender now sender)).
Definition set_liveness (liveness : Z) (self : t) : t :=
  mk (node self) (last_ping self) (last_pong self) (last_ping_hash self) (is_proven self)
    (find_node_request self) liveness (revalidation self).
Definition set_revalidation (revalidation : option bool) (self : t) : t :=
  mk (node self) (last_ping self) (last_pong self) (last_ping_hash self) (is_proven self)
    (find_node_request self) (liveness self) revalidation.
Definition increment_liveness `{Profile} (self : t) : pres t :=
  l ← checked 16 (liveness self + 1); Ok (set_liveness l self).
Definition decrement_liveness (self : t) : t := set_liveness (liveness self / 3) self.
(** The assignments of [pong_answered], [update_peer_ping] and
    [update_peer_ping_with_revalidation]. *)
Definition answered (now : Z) (self : t) : t :=
  mk (node self) (last_ping self) now None true (find_node_request self) (liveness self)
    (match revalidation self with Some _ => Some true | None => None end).
Definition pinged (now : Z) (ping_hash : option (list Z)) (self : t) : t :=
  mk (node self) now (last_pong self) ping_hash (is_proven self) (find_node_request self)
    (liveness self) (revalidation self).
(** The assignments of a round of revalidation. *)
Definition judge (liveness : Z) (self : t) : t := set_revalidation None (set_liveness liveness self).
Definition id (self : t) : list Z := Node.node_id (node self).
End PeerData.

Record Bucket := mkBucket { peers : list PeerData.t; replacements : list PeerData.t }.

Section Table.
Variable keccak256 : list Z → list Z.

Definition bucket_number (node_id_1 node_id_2 : list Z) : Z :=
  let xor := zip_with Z.lxor (keccak256 node_id_1) (keccak256 node_id_2) in
  let distance := of_be xor in
  U256.saturating_sub (U256.bits distance) 1.
End Table.

Definition by_id (node_id : list Z) (p : PeerData.t) : Prop := PeerData.id p = node_id.
#[export] Instance by_id_dec node_id p : Decision (by_id node_id p).
Proof. unfold by_id. apply _. Defined.

Module KademliaTable.
Record t := mk { local_node_id : list Z; buckets : list Bucket }.

Definition new (local_node_id : list Z) : t :=
  mk local_node_id (replicate (Z.to_nat NUMBER_OF_BUCKETS) (mkBucket [] [])).
Definition set_bucket (bucket_idx : Z) (bucket : Bucket) (self : t) : t :=
  mk (local_node_id self) (<[Z.to_nat bucket_idx := bucket]> (buckets self)).

Section Ops.
Variable keccak256 : list Z → list Z.
Abbreviation bucket_number := (bucket_number keccak256).

Definition get_by_node_id (node_id : list Z) (self : t) : pres (option PeerData.t) :=
  bucket ← index (buckets self) (bucket_number node_id (local_node_id self));
  Ok (snd <$> list_find (by_id node_id) (peers bucket)).
(** [get_by_node_id_mut] and an update of the peer it finds. *)
Definition update_peer (node_id : list Z) (f : PeerData.t → PeerData.t) (self : t) : pres t :=
  let bucket_idx := bucket_number node_id (local_node_id self) in
  bucket ← index (buckets self) bucket_idx;
  Ok match list_find (by_id node_id) (peers bucket) with
     | Some (i, p) => set_bucket bucket_idx (mkBucket (<[i := f p]> (peers bucket)) (replacements bucket)) self
     | None => self
     end.

Definition insert_as_replacement (node : PeerData.t) (bucket : Bucket) : Bucket :=
  let replacements' := if MAX_NUMBER_OF_REPLACEMENTS <=? zlen (replacements bucket)
                       then tail (replacements bucket) else replacements bucket in
  mkBucket (peers bucket) (replacements' ++ [node]).
Definition remove_from_replacements (node_id : list Z) (bucket : Bucket) : Bucket :=
  mkBucket (peers bucket) (filter (λ r, ¬ by_id node_id r) (replacements bucket)).

Definition insert_node_inner (now : Z) (node : Node.t) (bucket_idx : Z) (self : t)
    : pres ((option PeerData.t * bool) * t) :=
  let node_id := Node.node_id node in
  bucket ← index (buckets self) bucket_idx;
  if bool_decide (Exists (by_id node_id) (peers bucket)) then Ok ((None, false), self)
  else if bool_decide (Exists (by_id node_id) (replacements bucket)) then Ok ((None, false), self)
  else
    let peer := PeerData.new node now 0 false in
    if zlen (peers bucket) =? MAX_NODES_PER_BUCKET
    then Ok ((Some peer, false), set_bucket bucket_idx (insert_as_replacement peer bucket) self)
    else
      let bucket := remove_from_replacements node_id bucket in
      Ok ((Some peer, true), set_bucket bucket_idx (mkBucket (peers bucket ++ [peer]) (replacements bucket)) self).
Definition insert_node (now : Z) (node : Node.t) (self : t) : pres ((option PeerData.t * bool) * t) :=
  insert_node_inner now node (bucket_number (Node.node_id node) (local_node_id self)) self.

(** The first node at a greater distance is replaced. *)
Fixpoint replace_farther (node : Node.t) (distance : Z) (nodes : list (Node.t * Z)) : list (Node.t * Z) :=
  match nodes with
  | [] => []
  | (n, dis) :: nodes => if distance <? dis then (node, distance) :: nodes
                         else (n, dis) :: replace_farther node distance nodes
  end.
Definition closest_step (node_id : list Z) (nodes : list (Node.t * Z)) (peer : PeerData.t) : list (Node.t * Z) :=
  let distance := bucket_number node_id (PeerData.id peer) in
  if zlen nodes <? MAX_NODES_PER_BUCKET then nodes ++ [(PeerData.node peer, distance)]
  else replace_farther (PeerData.node peer) distance nodes.
Definition all_peers (self : t) : list PeerData.t := concat (map peers (buckets self)).
Definition get_closest_nodes (node_id : list Z) (self : t) : list Node.t :=
  (foldl (closest_step node_id) [] (all_peers self)).*1.

Definition pong_answered (now : Z) (node_id : list Z) : t → pres t :=
  update_peer node_id (PeerData.answered now).
Definition update_peer_ping (now : Z) (node_id : list Z) (ping_hash : option (list Z)) : t → pres t :=
  update_peer node_id (PeerData.pinged now ping_hash).
Definition update_peer_ping_with_revalidation (now : Z) (node_id : list Z) (ping_hash : option (list Z))
    : t → pres t :=
  update_peer node_id (λ p, PeerData.set_revalidation (Some false) (PeerData.pinged now ping_hash p)).

(** The loop over [peers.iter().enumerate()]. *)
Fixpoint most_recent_index (all l : list PeerData.t) (i acc : Z) : pres Z :=
  match l with
  | [] => Ok acc
  | other_peer :: l =>
    cur ← index all acc;
    most_recent_index all l (i + 1) (if PeerData.last_pong cur <? PeerData.last_pong other_peer then i else acc)
  end.
Definition least_recent_step (limit : Z) (acc : list PeerData.t) (peer : PeerData.t) : pres (list PeerData.t) :=
  if zlen acc <? limit then Ok (acc ++ [peer])
  else
    i ← most_recent_index acc acc 0 0;
    cur ← index acc i;
    Ok (if PeerData.last_pong peer <? PeerData.last_pong cur then <[Z.to_nat i := peer]> acc else acc).
Fixpoint least_recent_loop (limit : Z) (acc l : list PeerData.t) : pres (list PeerData.t) :=
  match l with
  | [] => Ok acc
  | peer :: l => acc ← least_recent_step limit acc peer; least_recent_loop limit acc l
  end.
Definition get_least_recently_pinged_peers (limit : Z) (self : t) : pres (list PeerData.t) :=
  least_recent_loop limit [] (all_peers self).

Definition replace_peer_inner (node_id : list Z) (bucket_idx : Z) (self : t) : pres (option PeerData.t * t) :=
  bucket ← index (buckets self) bucket_idx;
  match list_find (by_id node_id) (peers bucket) with
  | Some (idx, _) =>
    match last (replacements bucket) with
    | Some new_peer =>
      Ok (Some new_peer,
          set_bucket bucket_idx (mkBucket (<[idx := new_peer]> (peers bucket)) (removelast (replacements bucket))) self)
    | None => Ok (None, set_bucket bucket_idx (mkBucket (delete idx (peers bucket)) (replacements bucket)) self)
    end
  | None => Ok (None, self)
  end.
Definition replace_peer (node_id : list Z) (self : t) : pres (option PeerData.t * t) :=
  replace_peer_inner node_id (bucket_number (local_node_id self) node_id) self.
End Ops.
End KademliaTable.
