(* ===== verification/KademliaLaws.v ===== *)
(** * The table of peers: laws

    The invariant of the table, what insertion and replacement do to it, and which
    peers the two queries return. *)

From S2P Require Import Prelude Rlp RlpLaws U256 Codec Effects NetTypes Discv4 Discv4Laws Kademlia.

(** ** Bucket numbers *)
Lemma lxor_byte a b : is_byte a → is_byte b → is_byte (Z.lxor a b).
Proof.
  intros Ha Hb. unfold is_byte in *.
  assert (0 <= Z.lxor a b) by (apply Z.lxor_nonneg; lia).
  destruct (decide (Z.lxor a b = 0)) as [->|Hne]; [lia|].
  assert (Z.log2 (Z.lxor a b) < 8); [|split; [done|change 256 with (2 ^ 8); apply Z.log2_lt_pow2; lia]].
  assert (∀ x, 0 <= x < 256 → Z.log2 x < 8) as Hlog.
  { intros x Hx. destruct (decide (x = 0)) as [->|]; [done|]. apply Z.log2_lt_pow2; lia. }
  pose proof (Z.log2_lxor a b ltac:(lia) ltac:(lia)). pose proof (Hlog a Ha). pose proof (Hlog b Hb). lia.
Qed.
Lemma lxor_bytes l k : bytes_ok l → bytes_ok k → bytes_ok (zip_with Z.lxor l k).
Proof.
  intros Hl. revert k. induction Hl as [|a l Ha Hl IH]; intros k Hk; [constructor|].
  destruct Hk as [|b k Hb Hk]; [constructor|]. cbn. constructor; [by apply lxor_byte|by apply IH].
Qed.
Lemma bucket_number_sym keccak256 a b : bucket_number keccak256 a b = bucket_number keccak256 b a.
Proof.
  assert (∀ l k, zip_with Z.lxor l k = zip_with Z.lxor k l) as Hc; [|by unfold bucket_number; rewrite Hc].
  induction l as [|x l IH]; intros [|y k]; cbn; [done..|]. by rewrite IH, Z.lxor_comm.
Qed.
Lemma bucket_number_range keccak256 a b :
  (∀ x, is_array 32 (keccak256 x)) → 0 <= bucket_number keccak256 a b < 256.
Proof.
  intros Hk. unfold bucket_number. set (xor := zip_with _ _ _).
  destruct (Hk a) as [Ba La], (Hk b) as [Bb Lb].
  assert (bytes_ok xor) as Hx by (by apply lxor_bytes).
  assert (zlen xor = 32) as Hl by (unfold xor, zlen in *; rewrite length_zip_with; lia).
  pose proof (of_be_range xor Hx) as Hr. rewrite Hl in Hr.
  unfold U256.saturating_sub, U256.bits. destruct (of_be xor =? 0) eqn:E; bool_prop; [lia|].
  assert (Z.log2 (of_be xor) < 256) by (apply Z.log2_lt_pow2; [lia|]; change (2 ^ 256) with (256 ^ 32); lia).
  pose proof (Z.log2_nonneg (of_be xor)). lia.
Qed.

(** ** The invariant *)
Definition ids (l : list PeerData.t) : list (list Z) := map PeerData.id l.
Record wf_bucket (keccak256 : list Z → list Z) (local : list Z) (i : Z) (b : Bucket) : Prop := {
  few_peers : zlen (peers b) <= MAX_NODES_PER_BUCKET;
  few_replacements : zlen (replacements b) <= MAX_NUMBER_OF_REPLACEMENTS;
  distinct_ids : NoDup (ids (peers b ++ replacements b));
  right_bucket : Forall (λ p, bucket_number keccak256 (PeerData.id p) local = i) (peers b ++ replacements b);
  full_first : replacements b ≠ [] → zlen (peers b) = MAX_NODES_PER_BUCKET
}.
Record wf_table (keccak256 : list Z → list Z) (t : KademliaTable.t) : Prop := {
  all_buckets : zlen (KademliaTable.buckets t) = NUMBER_OF_BUCKETS;
  each_bucket (i : nat) b : KademliaTable.buckets t !! i = Some b →
    wf_bucket keccak256 (KademliaTable.local_node_id t) (Z.of_nat i) b
}.

Lemma ids_app l k : ids (l ++ k) = ids l ++ ids k.
Proof. apply map_app. Qed.
Lemma elem_of_ids l x : x ∈ ids l ↔ ∃ p, p ∈ l ∧ PeerData.id p = x.
Proof. unfold ids. rewrite list_elem_of_fmap. naive_solver. Qed.
Lemma Exists_ids l x : Exists (by_id x) l ↔ x ∈ ids l.
Proof. rewrite Exists_exists, elem_of_ids. done. Qed.

Section Laws.
Variable keccak256 : list Z → list Z.
Hypothesis keccak_array : ∀ x, is_array 32 (keccak256 x).
#[local] Set Default Proof Using "Type*".

Lemma new_table_wf local : wf_table keccak256 (KademliaTable.new local).
Proof.
  split; [done|]. intros i b [-> Hi]%lookup_replicate_1. split; cbn; try done; constructor.
Qed.
(** The bucket of an id exists. *)
Lemma bucket_of t a b :
  wf_table keccak256 t → ∃ bk, KademliaTable.buckets t !! Z.to_nat (bucket_number keccak256 a b) = Some bk ∧
    index (E:=never) (KademliaTable.buckets t) (bucket_number keccak256 a b) = Ok bk ∧
    wf_bucket keccak256 (KademliaTable.local_node_id t) (bucket_number keccak256 a b) bk.
Proof.
  intros [Hl Hb]. pose proof (bucket_number_range keccak256 a b keccak_array) as Hr.
  destruct (lookup_lt_is_Some_2 (KademliaTable.buckets t) (Z.to_nat (bucket_number keccak256 a b))) as [bk Hbk].
  { unfold zlen, NUMBER_OF_BUCKETS in Hl. lia. }
  exists bk. split_and!; [done| |].
  - unfold index. decide_bools. by rewrite Hbk.
  - pose proof (Hb _ _ Hbk) as Hw. by rewrite Z2Nat.id in Hw by lia.
Qed.
Lemma wf_set_bucket t i b :
  wf_table keccak256 t → 0 <= i → wf_bucket keccak256 (KademliaTable.local_node_id t) i b →
  wf_table keccak256 (KademliaTable.set_bucket i b t).
Proof.
  intros [Hl Hb] Hi Hw. split; [by unfold zlen in *; cbn; rewrite length_insert|].
  intros j c. cbn. destruct (decide (j = Z.to_nat i)) as [->|Hne].
  - intros Hc. rewrite Z2Nat.id by lia. apply list_lookup_insert_Some in Hc as [(_ & -> & _)|[? _]]; done.
  - rewrite list_lookup_insert_ne by done. apply Hb.
Qed.

(** ** Operations keep the invariant *)
Lemma find_peer_spec id l :
  (∃ i p, list_find (by_id id) l = Some (i, p) ∧ l !! i = Some p ∧ PeerData.id p = id) ∨
  list_find (by_id id) l = None ∧ id ∉ ids l.
Proof.
  destruct (list_find (by_id id) l) as [[i p]|] eqn:E.
  - left. apply list_find_Some in E as (Hl & Hp & _). eauto.
  - right. split; [done|]. rewrite <-Exists_ids. by apply list_find_None, Forall_not_Exists in E.
Qed.
Lemma ids_insert l i p q : l !! i = Some p → PeerData.id q = PeerData.id p → ids (<[i := q]> l) = ids l.
Proof.
  intros Hi Hq. unfold ids. rewrite list_fmap_insert, Hq. apply list_insert_id. by rewrite list_lookup_fmap, Hi.
Qed.
Lemma wf_bucket_ids local i (b c : Bucket) :
  wf_bucket keccak256 local i b → ids (peers c) = ids (peers b) → ids (replacements c) = ids (replacements b) →
  wf_bucket keccak256 local i c.
Proof.
  intros [Hp Hr Hd Hb Hf] Ep Er.
  assert (∀ l k, ids l = ids k → zlen l = zlen k) as Hl.
  { intros l k E. unfold zlen. apply (f_equal length) in E. unfold ids in E. rewrite !length_map in E. lia. }
  split; [by rewrite (Hl _ _ Ep)|by rewrite (Hl _ _ Er)|by rewrite ids_app, Ep, Er, <-ids_app| |].
  - assert (Forall (λ x, bucket_number keccak256 x local = i) (ids (peers c ++ replacements c))) as Hc.
    { rewrite ids_app, Ep, Er, <-ids_app. by apply Forall_map. }
    by apply Forall_map in Hc.
  - intros Hne. rewrite (Hl _ _ Ep). apply Hf. intros E. apply Hne. unfold ids in Er. rewrite E in Er.
    by apply map_eq_nil in Er.
Qed.
Lemma update_peer_wf t id f :
  wf_table keccak256 t → (∀ p, PeerData.id p = id → PeerData.id (f p) = id) →
  ∃ t', KademliaTable.update_peer keccak256 id f t = Ok t' ∧ wf_table keccak256 t'.
Proof.
  intros Ht Hf. unfold KademliaTable.update_peer.
  destruct (bucket_of t id (KademliaTable.local_node_id t) Ht) as (b & Hb & -> & Hw). rewrite bind_Ok_l.
  destruct (find_peer_spec id (peers b)) as [(i & p & -> & Hi & Hp)|[-> _]]; [|eauto].
  eexists. split; [done|]. apply wf_set_bucket; [done|apply bucket_number_range, keccak_array|].
  eapply wf_bucket_ids; [done| |done]. cbn. eapply ids_insert; [done|]. rewrite Hp. by apply Hf.
Qed.

Lemma NoDup_snoc {A} (l : list A) x : NoDup l → x ∉ l → NoDup (l ++ [x]).
Proof. intros Hl Hx. apply NoDup_app. split_and!; [done| |apply NoDup_singleton]. intros y Hy ->%list_elem_of_singleton. done. Qed.
Lemma replacement_wf local i b p :
  wf_bucket keccak256 local i b → zlen (peers b) = MAX_NODES_PER_BUCKET → PeerData.id p ∉ ids (peers b) →
  PeerData.id p ∉ ids (replacements b) → bucket_number keccak256 (PeerData.id p) local = i →
  wf_bucket keccak256 local i (KademliaTable.insert_as_replacement p b).
Proof.
  intros [Hp Hr Hd Hb Hf] Hfull Hnp Hnr Hi. unfold KademliaTable.insert_as_replacement.
  set (rs := if MAX_NUMBER_OF_REPLACEMENTS <=? zlen (replacements b) then tail (replacements b) else replacements b).
  unfold MAX_NUMBER_OF_REPLACEMENTS in *.
  assert (zlen rs <= 9 ∧ ∃ q, replacements b = q ++ rs) as [Hrs [q Hq]].
  { unfold rs. destruct (10 <=? _) eqn:E; bool_prop; [|split; [lia|by exists []]].
    destruct (replacements b) as [|x l]; [by cbn in E|]. rewrite zlen_cons in *. cbn. split; [lia|by exists [x]]. }
  assert (∀ x, x ∈ rs → x ∈ replacements b) as Hsub by (intros x Hx; rewrite Hq; by apply elem_of_app; right).
  rewrite Hq, (app_assoc), ids_app in Hd. split; cbn.
  - done.
  - rewrite zlen_app. change (zlen [p]) with 1. unfold MAX_NUMBER_OF_REPLACEMENTS. lia.
  - rewrite app_assoc, ids_app. apply NoDup_snoc.
    + rewrite ids_app in Hd |- *. apply NoDup_app in Hd as (Hd1 & Hd2 & Hd3).
      apply NoDup_app in Hd1 as (Hd1 & _ & _). apply NoDup_app. split_and!; [done| |done].
      intros x Hx. apply Hd2. apply elem_of_app. by left.
    + rewrite ids_app, elem_of_app. intros [?|Hx]; [done|]. apply Hnr. apply elem_of_ids in Hx as (x & Hx & <-).
      apply elem_of_ids. eauto.
  - rewrite Forall_app in Hb |- *. destruct Hb as [Hb1 Hb2]. split; [done|]. apply Forall_app. split; [|by constructor].
    rewrite Hq in Hb2. by apply Forall_app in Hb2 as [_ ?].
  - done.
Qed.
Lemma new_peer_wf local i b p :
  wf_bucket keccak256 local i b → zlen (peers b) ≠ MAX_NODES_PER_BUCKET → PeerData.id p ∉ ids (peers b) →
  bucket_number keccak256 (PeerData.id p) local = i →
  replacements b = [] ∧ wf_bucket keccak256 local i (mkBucket (peers b ++ [p]) []).
Proof.
  intros [Hp Hr Hd Hb Hf] Hfull Hnp Hi.
  assert (replacements b = []) as E by (destruct (replacements b); [done|]; by destruct Hfull; apply Hf).
  rewrite E, app_nil_r in *. split; [done|]. split; cbn; rewrite ?app_nil_r.
  - rewrite zlen_app. change (zlen [p]) with 1. lia.
  - done.
  - rewrite ids_app. by apply NoDup_snoc.
  - apply Forall_app. split; [done|by constructor].
  - done.
Qed.

(** ** Insertion and replacement *)
Abbreviation get := (KademliaTable.get_by_node_id keccak256).
Abbreviation number t id := (bucket_number keccak256 id (KademliaTable.local_node_id t)).
Definition find_in (id : list Z) (l : list PeerData.t) : option PeerData.t := snd <$> list_find (by_id id) l.

Lemma get_in t id b :
  KademliaTable.buckets t !! Z.to_nat (number t id) = Some b → get id t = Ok (find_in id (peers b)).
Proof.
  intros Hb. pose proof (bucket_number_range keccak256 id (KademliaTable.local_node_id t) keccak_array).
  unfold KademliaTable.get_by_node_id, index. decide_bools. by rewrite Hb.
Qed.
Lemma get_set_bucket t id id' b b' :
  wf_table keccak256 t → KademliaTable.buckets t !! Z.to_nat (number t id) = Some b →
  (number t id' = number t id → find_in id' (peers b') = find_in id' (peers b)) →
  get id' (KademliaTable.set_bucket (number t id) b' t) = get id' t.
Proof.
  intros Ht Hb Hf. destruct (bucket_of t id' (KademliaTable.local_node_id t) Ht) as (c & Hc & _).
  rewrite (get_in _ _ _ Hc). destruct (decide (number t id' = number t id)) as [E|E].
  - rewrite E in Hc. rewrite Hc in Hb. injection Hb as ->. rewrite <-Hf by done. apply get_in. cbn. rewrite E.
    apply list_lookup_insert_eq. by eapply lookup_lt_Some.
  - apply get_in. cbn. rewrite list_lookup_insert_ne; [done|].
    pose proof (bucket_number_range keccak256 id (KademliaTable.local_node_id t) keccak_array).
    pose proof (bucket_number_range keccak256 id' (KademliaTable.local_node_id t) keccak_array). lia.
Qed.
Lemma get_same_bucket t id b b' :
  wf_table keccak256 t → KademliaTable.buckets t !! Z.to_nat (number t id) = Some b →
  get id (KademliaTable.set_bucket (number t id) b' t) = Ok (find_in id (peers b')).
Proof. intros Ht Hb. apply get_in. cbn. apply list_lookup_insert_eq. by eapply lookup_lt_Some. Qed.

Lemma find_in_app id l k : find_in id (l ++ k) = match find_in id l with Some p => Some p | None => find_in id k end.
Proof.
  unfold find_in. induction l as [|x l IH]; cbn; [done|]. destruct (decide (by_id id x)); cbn; [done|].
  destruct (list_find (by_id id) (l ++ k)) as [[? ?]|], (list_find (by_id id) l) as [[? ?]|], (list_find (by_id id) k) as [[? ?]|];
    cbn in *; by simplify_eq.
Qed.
Lemma find_in_cons id p l : find_in id (p :: l) = if decide (PeerData.id p = id) then Some p else find_in id l.
Proof. unfold find_in. cbn. case_decide as E; case_decide as E'; try done. by destruct (list_find (by_id id) l) as [[? ?]|]. Qed.
Lemma find_in_None id l : id ∉ ids l → find_in id l = None.
Proof.
  intros Hid. unfold find_in. destruct (find_peer_spec id l) as [(i & p & _ & Hi & Hp)|[-> _]]; [|done].
  destruct Hid. apply elem_of_ids. exists p. split; [by eapply list_elem_of_lookup_2|done].
Qed.

Lemma insert_node_spec now node t :
  wf_table keccak256 t →
  let id := Node.node_id node in
  ∃ b r t', KademliaTable.buckets t !! Z.to_nat (number t id) = Some b ∧
    KademliaTable.insert_node keccak256 now node t = Ok (r, t') ∧ wf_table keccak256 t' ∧
    if bool_decide (id ∈ ids (peers b ++ replacements b)) then r = (None, false) ∧ t' = t
    else
      let p := PeerData.new node now 0 false in
      if zlen (peers b) =? MAX_NODES_PER_BUCKET
      then r = (Some p, false) ∧ t' = KademliaTable.set_bucket (number t id) (KademliaTable.insert_as_replacement p b) t
      else r = (Some p, true) ∧ t' = KademliaTable.set_bucket (number t id) (mkBucket (peers b ++ [p]) []) t.
Proof.
  intros Ht id. destruct (bucket_of t id (KademliaTable.local_node_id t) Ht) as (b & Hb & Hi & Hw).
  pose proof (bucket_number_range keccak256 id (KademliaTable.local_node_id t) keccak_array) as Hr. exists b.
  unfold KademliaTable.insert_node, KademliaTable.insert_node_inner. fold id. rewrite Hi, bind_Ok_l.
  rewrite ids_app. rewrite (bool_decide_ext _ _ (Exists_ids (peers b) id)), (bool_decide_ext _ _ (Exists_ids (replacements b) id)).
  destruct (decide (id ∈ ids (peers b))) as [Hp|Hp].
  { rewrite !bool_decide_true by (done || (apply elem_of_app; by left)). by exists (None, false), t. }
  rewrite (bool_decide_false (id ∈ ids (peers b))) by done.
  destruct (decide (id ∈ ids (replacements b))) as [Hq|Hq].
  { rewrite !bool_decide_true by (done || (apply elem_of_app; by right)). by exists (None, false), t. }
  rewrite (bool_decide_false (id ∈ ids (replacements b))) by done.
  rewrite bool_decide_false by (rewrite elem_of_app; tauto). cbv zeta.
  destruct (zlen (peers b) =? MAX_NODES_PER_BUCKET) eqn:E; bool_prop.
  - eexists _, _. split_and!; [done|done| |done|done]. apply wf_set_bucket; [done|lia|]. by apply replacement_wf.
  - destruct (new_peer_wf _ _ b (PeerData.new node now 0 false) Hw) as [Er Hw']; [lia|done|done|].
    unfold KademliaTable.remove_from_replacements. rewrite Er. cbn [peers replacements filter list_filter].
    eexists _, _. split_and!; [done|done| |done|done]. apply wf_set_bucket; [done|lia|done].
Qed.

Lemma replaced_wf local i b l1 p l2 rs q :
  wf_bucket keccak256 local i b → peers b = l1 ++ p :: l2 → replacements b = rs ++ [q] →
  wf_bucket keccak256 local i (mkBucket (l1 ++ q :: l2) rs).
Proof.
  intros [Hp Hr Hd Hb Hf] Ep Er. rewrite Ep, Er in *. unfold zlen in *. split; cbn.
  - unfold zlen. rewrite length_app in *. cbn in *. lia.
  - rewrite length_app in Hr. cbn in Hr. unfold MAX_NUMBER_OF_REPLACEMENTS in *. unfold zlen. lia.
  - assert (ids ((l1 ++ p :: l2) ++ rs ++ [q]) ≡ₚ PeerData.id p :: ids ((l1 ++ q :: l2) ++ rs)) as Hperm.
    { unfold ids. change (PeerData.id p :: map PeerData.id ((l1 ++ q :: l2) ++ rs)) with (map PeerData.id (p :: (l1 ++ q :: l2) ++ rs)).
      apply Permutation_map. rewrite <-!app_assoc. cbn. etrans; [symmetry; apply Permutation_middle|].
      apply perm_skip, Permutation_app_head. rewrite app_assoc. symmetry. apply Permutation_cons_append. }
    rewrite Hperm in Hd. by apply NoDup_cons in Hd as [_ ?].
  - rewrite !Forall_app, !Forall_cons in *. naive_solver.
  - intros _. unfold zlen. rewrite length_app in *. cbn in *. apply Hf. by destruct rs.
Qed.
Lemma removed_wf local i b l1 p l2 :
  wf_bucket keccak256 local i b → peers b = l1 ++ p :: l2 → replacements b = [] →
  wf_bucket keccak256 local i (mkBucket (l1 ++ l2) []).
Proof.
  intros [Hp Hr Hd Hb Hf] Ep Er. rewrite Ep, Er, app_nil_r in *. split; cbn; rewrite ?app_nil_r; [|done| | |done].
  - unfold zlen in *. rewrite !length_app in *. cbn in *. lia.
  - rewrite ids_app in Hd. cbn in Hd. apply NoDup_app in Hd as (H1 & H2 & [_ H3]%NoDup_cons). rewrite ids_app.
    apply NoDup_app. split_and!; [done| |done]. intros x Hx Hx'. apply (H2 x Hx). by constructor.
  - rewrite !Forall_app, !Forall_cons in *. naive_solver.
Qed.

Lemma find_in_replace id p q l1 l2 :
  id ≠ PeerData.id p → id ≠ PeerData.id q → find_in id (l1 ++ p :: l2) = find_in id (l1 ++ q :: l2).
Proof. intros Hp Hq. rewrite !find_in_app, !find_in_cons. by rewrite !decide_False by congruence. Qed.
Lemma find_in_remove id p l1 l2 : id ≠ PeerData.id p → find_in id (l1 ++ p :: l2) = find_in id (l1 ++ l2).
Proof. intros Hp. rewrite !find_in_app, find_in_cons. by rewrite decide_False by congruence. Qed.
Lemma split_at (l : list PeerData.t) i p : l !! i = Some p →
  l = take i l ++ p :: drop (S i) l ∧ (∀ q, <[i := q]> l = take i l ++ q :: drop (S i) l) ∧ delete i l = take i l ++ drop (S i) l.
Proof.
  intros Hi. split_and!.
  - symmetry. by apply take_drop_middle.
  - intros q. apply insert_take_drop. by eapply lookup_lt_Some.
  - apply delete_take_drop.
Qed.
Lemma last_split (l : list PeerData.t) q : last l = Some q → l = removelast l ++ [q].
Proof.
  intros Hl. apply last_Some in Hl as [l' ->]. by rewrite removelast_last.
Qed.

(** The peer leaves, its place goes to the newest replacement of its bucket, if there
    is one, and every other peer stays. *)
Lemma replace_peer_spec id t :
  wf_table keccak256 t →
  ∃ o t', KademliaTable.replace_peer keccak256 id t = Ok (o, t') ∧ wf_table keccak256 t' ∧
    get id t' = Ok None ∧
    match o with
    | Some q => PeerData.id q ≠ id ∧ get (PeerData.id q) t = Ok None ∧ get (PeerData.id q) t' = Ok (Some q)
    | None => True
    end ∧
    ∀ id', id' ≠ id → (∀ q, o = Some q → id' ≠ PeerData.id q) → get id' t' = get id' t.
Proof.
  intros Ht. destruct (bucket_of t id (KademliaTable.local_node_id t) Ht) as (b & Hb & Hi & Hw).
  unfold KademliaTable.replace_peer, KademliaTable.replace_peer_inner. rewrite (bucket_number_sym _ _ id), Hi, bind_Ok_l.
  pose proof (bucket_number_range keccak256 id (KademliaTable.local_node_id t) keccak_array) as Hr.
  destruct (find_peer_spec id (peers b)) as [(i & p & -> & Hl & Hp)|[-> Hn]].
  2: { exists None, t. split_and!; [done..| |done|done]. rewrite (get_in _ _ _ Hb). f_equal. by apply find_in_None. }
  destruct (split_at _ _ _ Hl) as (El & Eins & Edel). set (l1 := take i _) in *. set (l2 := drop _ _) in *.
  pose proof (distinct_ids _ _ _ _ Hw) as Hd. rewrite El, <-app_assoc, ids_app in Hd. cbn in Hd.
  apply NoDup_app in Hd as (_ & Hd1 & [Hd2 Hd3]%NoDup_cons). rewrite Hp in *.
  rewrite ids_app, elem_of_app in Hd2.
  assert (id ∉ ids l1) as Hn1 by (intros Hx; apply (Hd1 id Hx); by constructor).
  destruct (last (replacements b)) as [q|] eqn:Eq.
  - pose proof (last_split _ _ Eq) as Er.
    assert (PeerData.id q ∈ ids (replacements b)) as Hq by (rewrite Er, ids_app, elem_of_app; right; by constructor).
    assert (PeerData.id q ≠ id) as Hqid by (intros E; rewrite E in Hq; tauto).
    assert (PeerData.id q ∉ ids (peers b)) as Hqp.
    { pose proof (distinct_ids _ _ _ _ Hw) as Hd'. rewrite ids_app in Hd'. apply NoDup_app in Hd' as (_ & Hd' & _).
      intros Hx. by apply (Hd' _ Hx). }
    assert (number t (PeerData.id q) = number t id) as Hnum.
    { pose proof (right_bucket _ _ _ _ Hw) as Hf. rewrite Er, !Forall_app, !Forall_cons in Hf. naive_solver. }
    rewrite Eins. eexists _, _. split; [done|]. split_and!.
    + apply wf_set_bucket; [done|lia|]. by eapply replaced_wf.
    + erewrite get_same_bucket by done. f_equal. cbn [peers]. rewrite find_in_app, find_in_cons, decide_False by done.
      rewrite !find_in_None by tauto. done.
    + done.
    + rewrite (get_in _ _ b) by (by rewrite Hnum). f_equal. by apply find_in_None.
    + rewrite <-Hnum in Hb |- *. erewrite get_same_bucket by done. f_equal. cbn [peers]. rewrite find_in_app, find_in_cons, decide_True by done.
      rewrite find_in_None; [done|]. intros Hx. apply Hqp. rewrite El, ids_app, elem_of_app. by left.
    + intros id' Hne Hne'. eapply get_set_bucket; [done..|]. intros _. cbn [peers]. rewrite El.
      apply find_in_replace; [by apply Hne'|congruence].
  - apply last_None in Eq. rewrite Edel, Eq. eexists _, _. split; [done|]. split_and!; [|..|done|].
    + apply wf_set_bucket; [done|lia|]. by eapply removed_wf.
    + erewrite get_same_bucket by done. f_equal. cbn [peers]. rewrite find_in_app, !find_in_None by tauto. done.
    + intros id' Hne _. eapply get_set_bucket; [done..|]. intros _. cbn [peers]. rewrite El. symmetry.
      apply find_in_remove. congruence.
Qed.

(** ** Assignments to a peer *)
Lemma find_in_insert id l i p q :
  list_find (by_id id) l = Some (i, p) → PeerData.id q = id → find_in id (<[i := q]> l) = Some q.
Proof.
  intros (Hi & Hp & Hb)%list_find_Some Hq. unfold find_in.
  assert (list_find (by_id id) (<[i := q]> l) = Some (i, q)) as ->; [|done]. apply list_find_Some. split_and!.
  - apply list_lookup_insert_eq. by eapply lookup_lt_Some.
  - done.
  - intros j y Hj Hlt. rewrite list_lookup_insert_ne in Hj by lia. by apply (Hb j).
Qed.
Lemma find_in_insert_ne id l i p q :
  l !! i = Some p → PeerData.id p ≠ id → PeerData.id q ≠ id → find_in id (<[i := q]> l) = find_in id l.
Proof.
  intros Hi Hp Hq. destruct (split_at _ _ _ Hi) as (El & Eins & _). rewrite Eins. rewrite El at 3.
  symmetry. by apply find_in_replace.
Qed.
Lemma update_peer_spec t id f :
  wf_table keccak256 t → (∀ p, PeerData.id p = id → PeerData.id (f p) = id) →
  ∃ t', KademliaTable.update_peer keccak256 id f t = Ok t' ∧ wf_table keccak256 t' ∧
    (∃ o, get id t = Ok o ∧ get id t' = Ok (f <$> o)) ∧ ∀ id', id' ≠ id → get id' t' = get id' t.
Proof.
  intros Ht Hf. destruct (update_peer_wf t id f Ht Hf) as (t' & Hu & Ht'). exists t'. split_and!; [done|done|..];
    revert Hu; unfold KademliaTable.update_peer;
    destruct (bucket_of t id (KademliaTable.local_node_id t) Ht) as (b & Hb & -> & Hw); rewrite bind_Ok_l;
    destruct (find_peer_spec id (peers b)) as [(i & p & Ef & Hi & Hp)|[Ef Hn]]; rewrite Ef; intros [= <-].
  - exists (Some p). split; [rewrite (get_in _ _ _ Hb); unfold find_in; by rewrite Ef|].
    erewrite get_same_bucket by done. cbn. f_equal. eapply find_in_insert; [done|by apply Hf].
  - exists None. rewrite (get_in _ _ _ Hb). unfold find_in. by rewrite Ef.
  - intros id' Hne. eapply get_set_bucket; [done..|]. intros _. cbn. eapply find_in_insert_ne; [done|congruence|].
    rewrite (Hf p Hp). congruence.
  - done.
Qed.

(** ** Everything a table holds *)
Definition entry (t : KademliaTable.t) (p : PeerData.t) : Prop :=
  ∃ i b, KademliaTable.buckets t !! i = Some b ∧ p ∈ peers b ++ replacements b.
Lemma entry_set_bucket i b t p :
  entry (KademliaTable.set_bucket i b t) p → entry t p ∨ p ∈ peers b ++ replacements b.
Proof.
  intros (j & c & Hj & Hp). cbn in Hj. apply list_lookup_insert_Some in Hj as [(_ & <- & _)|[_ Hj]]; [by right|].
  left. by exists j, c.
Qed.
Lemma get_entry t id p : wf_table keccak256 t → get id t = Ok (Some p) → entry t p ∧ PeerData.id p = id.
Proof.
  intros Ht Hg. destruct (bucket_of t id (KademliaTable.local_node_id t) Ht) as (b & Hb & _).
  rewrite (get_in _ _ _ Hb) in Hg. injection Hg as Hg. unfold find_in in Hg.
  destruct (find_peer_spec id (peers b)) as [(i & q & Ef & Hi & Hq)|[Ef _]]; rewrite Ef in Hg; [|done].
  injection Hg as ->. split; [|done]. exists (Z.to_nat (number t id)), b. split; [done|].
  apply elem_of_app. left. by eapply list_elem_of_lookup_2.
Qed.
Lemma elem_of_insert (l : list PeerData.t) i p q : p ∈ <[i := q]> l → p = q ∨ p ∈ l.
Proof.
  intros (j & Hj)%list_elem_of_lookup_1. apply list_lookup_insert_Some in Hj as [(_ & <- & _)|[_ Hj]]; [by left|].
  right. by eapply list_elem_of_lookup_2.
Qed.
Lemma index_Ok {E A} (l : list A) i x : index (E:=E) l i = Ok x → l !! Z.to_nat i = Some x.
Proof. unfold index, unwrap. intros Hi. by res_inv. Qed.
Lemma update_peer_entry t id f t' p :
  KademliaTable.update_peer keccak256 id f t = Ok t' → entry t' p →
  entry t p ∨ ∃ q, entry t q ∧ PeerData.id q = id ∧ p = f q.
Proof.
  unfold KademliaTable.update_peer. intros Hu Hp. apply bind_Ok in Hu as (b & Hb%index_Ok & Hu). injection Hu as <-.
  destruct (find_peer_spec id (peers b)) as [(i & q & Ef & Hi & Hq)|[Ef _]]; rewrite Ef in Hp; [|by left].
  apply entry_set_bucket in Hp as [?|Hp]; [by left|]. cbn in Hp.
  assert (∀ x, x ∈ peers b ++ replacements b → entry t x) as Hin by (intros x Hx; eexists _, b; done).
  apply elem_of_app in Hp as [[->|Hp]%elem_of_insert|Hp].
  - right. exists q. split_and!; [|done|done]. apply Hin, elem_of_app. left. by eapply list_elem_of_lookup_2.
  - left. apply Hin, elem_of_app. by left.
  - left. apply Hin, elem_of_app. by right.
Qed.
Lemma replace_peer_entry t id o t' p :
  KademliaTable.replace_peer keccak256 id t = Ok (o, t') → entry t' p → entry t p.
Proof.
  unfold KademliaTable.replace_peer, KademliaTable.replace_peer_inner. intros Hu Hp.
  apply bind_Ok in Hu as (b & Hb%index_Ok & Hu).
  assert (∀ x, x ∈ peers b ++ replacements b → entry t x) as Hin by (intros x Hx; eexists _, b; done).
  destruct (list_find _ _) as [[i x]|] eqn:Ef; [|by simplify_eq].
  destruct (last (replacements b)) as [q|] eqn:Eq; simplify_eq; apply entry_set_bucket in Hp as [?|Hp]; try done; apply Hin; cbn in Hp.
  - pose proof (last_split _ _ Eq) as Er. rewrite Er. rewrite !elem_of_app, list_elem_of_singleton.
    apply elem_of_app in Hp as [[->|Hp]%elem_of_insert|Hp]; tauto.
  - apply elem_of_app. apply elem_of_app in Hp as [Hp|Hp]; [left|by right].
    apply list_find_Some in Ef as (Hi & _ & _). destruct (split_at _ _ _ Hi) as (El & _ & Edel). rewrite Edel in Hp. rewrite El.
    rewrite elem_of_app in Hp |- *. rewrite elem_of_cons. tauto.
Qed.
(** A peer that was replaced is not anywhere in the table. *)
Lemma replace_peer_gone t id p o t' q :
  wf_table keccak256 t → get id t = Ok (Some p) → KademliaTable.replace_peer keccak256 id t = Ok (o, t') →
  entry t' q → PeerData.id q ≠ id.
Proof.
  unfold KademliaTable.replace_peer, KademliaTable.replace_peer_inner. intros Ht Hg Hu Hq. rewrite bucket_number_sym in Hu.
  destruct (bucket_of t id (KademliaTable.local_node_id t) Ht) as (b & Hb & Hi & Hw). rewrite Hi, bind_Ok_l in Hu.
  rewrite (get_in _ _ _ Hb) in Hg. injection Hg as Hg. unfold find_in in Hg.
  destruct (list_find (by_id id) (peers b)) as [[i x]|] eqn:Ef; [|done]. cbn in Hg. injection Hg as ->.
  apply list_find_Some in Ef as (Hx & Hp & _). unfold by_id in Hp.
  destruct (split_at _ _ _ Hx) as (El & Eins & Edel). pose proof (distinct_ids _ _ _ _ Hw) as Hd.
  rewrite El, <-app_assoc, ids_app in Hd. cbn in Hd. rewrite Hp in Hd.
  apply NoDup_app in Hd as (_ & Hd1 & [Hd2 _]%NoDup_cons). rewrite ids_app, elem_of_app in Hd2.
  assert (∀ l, id ∉ ids l → q ∈ l → PeerData.id q ≠ id) as Hout.
  { intros l Hl Hql E. apply Hl, elem_of_ids. eauto. }
  assert (id ∉ ids (take i (peers b))) as Hn1 by (intros Hx'; apply (Hd1 id Hx'); by constructor).
  assert (∃ b', t' = KademliaTable.set_bucket (number t id) b' t ∧
    ∀ y, y ∈ peers b' ++ replacements b' → y ∈ take i (peers b) ∨ y ∈ drop (S i) (peers b) ∨ y ∈ replacements b) as (b' & -> & Hb').
  { destruct (last (replacements b)) as [r|] eqn:Er; injection Hu as _ <-; eexists; (split; [done|]); intros y Hy; cbn in Hy.
    - rewrite Eins in Hy. pose proof (last_split _ _ Er) as Es. rewrite Es.
      rewrite !elem_of_app, elem_of_cons in Hy. rewrite elem_of_app, list_elem_of_singleton. tauto.
    - rewrite Edel, !elem_of_app in Hy. tauto. }
  destruct Hq as (j & c & Hj & Hq). cbn in Hj. apply list_lookup_insert_Some in Hj as [(_ & <- & _)|[Hne Hj]].
  - destruct (Hb' q Hq) as [?|[?|?]];
      [by eapply Hout|apply (Hout (drop (S i) (peers b))); tauto|apply (Hout (replacements b)); tauto].
  - intros E. apply Hne. pose proof (right_bucket _ _ _ _ (each_bucket _ _ Ht j c Hj)) as Hf. rewrite Forall_forall in Hf.
    specialize (Hf q Hq). rewrite E in Hf. rewrite Hf. apply Nat2Z.id.
Qed.
Lemma insert_node_entry now node t r t' p :
  wf_table keccak256 t → KademliaTable.insert_node keccak256 now node t = Ok (r, t') → entry t' p →
  entry t p ∨ p = PeerData.new node now 0 false.
Proof.
  intros Ht Hi Hp. destruct (insert_node_spec now node t Ht) as (b & r' & t1 & Hb & Hi' & _ & Hs). rewrite Hi in Hi'.
  injection Hi' as <- <-. destruct (bool_decide _); [destruct Hs as [_ ->]; by left|]. cbv zeta in Hs.
  assert (∀ x, x ∈ peers b ++ replacements b → entry t x) as Hin by (intros x Hx; eexists _, b; done).
  destruct (_ =? _); destruct Hs as [_ ->]; apply entry_set_bucket in Hp as [?|Hp]; try (by left).
  - cbn in Hp. rewrite !elem_of_app, list_elem_of_singleton in Hp. setoid_rewrite elem_of_app in Hin.
    destruct Hp as [Hp|[Hp|Hp]]; [left; apply Hin; tauto| |by right]. left. apply Hin. right. case_match; [|done].
    destruct (replacements b); [done|by right].
  - cbn in Hp. rewrite app_nil_r, elem_of_app, list_elem_of_singleton in Hp. destruct Hp; [|by right].
    left. apply Hin, elem_of_app. by left.
Qed.
End Laws.

(** ** Queries *)
Lemma index_lookup {E A} (l : list A) (i : Z) x : 0 <= i → l !! Z.to_nat i = Some x → index (E:=E) l i = Ok x.
Proof. intros Hi Hx. unfold index. decide_bools. by rewrite Hx. Qed.
Lemma most_recent_ok all l : ∀ i acc cur done,
  all = done ++ l → i = zlen done → 0 <= acc → all !! Z.to_nat acc = Some cur →
  (∀ x, x ∈ done → PeerData.last_pong x <= PeerData.last_pong cur) →
  ∃ j m, KademliaTable.most_recent_index all l i acc = Ok j ∧ 0 <= j ∧ all !! Z.to_nat j = Some m ∧
    ∀ x, x ∈ all → PeerData.last_pong x <= PeerData.last_pong m.
Proof.
  induction l as [|y l IH]; intros i acc cur done Hall Hi Hacc Hcur Hmax.
  { rewrite app_nil_r in Hall. subst done. by exists acc, cur. }
  cbn. rewrite (index_lookup _ _ _ Hacc Hcur), bind_Ok_l.
  assert (all !! Z.to_nat i = Some y) as Hy.
  { subst. unfold zlen. rewrite Nat2Z.id. by apply list_lookup_middle. }
  destruct (_ <? _) eqn:E; bool_prop.
  - apply (IH (i + 1) i y (done ++ [y])); [by rewrite <-app_assoc|rewrite zlen_app; change (zlen [y]) with 1; lia| |done|].
    + subst. apply zlen_nonneg.
    + intros x [Hx| ->%list_elem_of_singleton]%elem_of_app; [|done]. specialize (Hmax x Hx). lia.
  - apply (IH (i + 1) acc cur (done ++ [y])); [by rewrite <-app_assoc|rewrite zlen_app; change (zlen [y]) with 1; lia|done..|].
    intros x [Hx| ->%list_elem_of_singleton]%elem_of_app; [by apply Hmax|lia].
Qed.

(** The [limit] entries with the smallest [last_pong] of a list. *)
Definition selects (limit : Z) (chosen all : list PeerData.t) : Prop :=
  zlen chosen = Z.min limit (zlen all) ∧
  ∃ others, chosen ++ others ≡ₚ all ∧
    ∀ p q, p ∈ chosen → q ∈ others → PeerData.last_pong p <= PeerData.last_pong q.
Lemma insert_Permutation {A} (l : list A) i m p : l !! i = Some m → p :: l ≡ₚ m :: <[i := p]> l.
Proof.
  intros Hi. rewrite (insert_take_drop l i p) by (by eapply lookup_lt_Some).
  rewrite <-(take_drop_middle l i m Hi) at 1. rewrite <-!Permutation_middle. apply perm_swap.
Qed.
Lemma least_recent_step_ok limit acc seen p :
  0 < limit → selects limit acc seen → ∃ acc', KademliaTable.least_recent_step limit acc p = Ok acc' ∧ selects limit acc' (seen ++ [p]).
Proof.
  intros Hl (Hlen & others & Hperm & Hle). unfold KademliaTable.least_recent_step.
  assert (zlen (seen ++ [p]) = zlen seen + 1) as Hs by (by rewrite zlen_app).
  destruct (zlen acc <? limit) eqn:E; bool_prop.
  { eexists. split; [done|]. split; [rewrite zlen_app; change (zlen [p]) with 1; lia|].
    assert (others = []) as ->.
    { apply Permutation_length in Hperm. rewrite length_app in Hperm. apply nil_length_inv. unfold zlen in *. lia. }
    exists []. rewrite app_nil_r in *. split; [by rewrite Hperm|]. by intros ? ? _ ?%not_elem_of_nil. }
  destruct acc as [|a acc]; [rewrite zlen_nil in *; lia|].
  destruct (most_recent_ok (a :: acc) (a :: acc) 0 0 a []) as (j & m & -> & Hj & Hm & Hmax); [done|done|lia|done|..].
  { by intros ? ?%not_elem_of_nil. }
  rewrite bind_Ok_l, (index_lookup _ _ _ Hj Hm), bind_Ok_l. eexists. split; [done|].
  set (l := a :: acc) in *. destruct (_ <? _) eqn:E2; bool_prop.
  - split; [unfold zlen in *; rewrite length_insert; lia|]. exists (m :: others). split.
    + rewrite <-Permutation_middle. change (m :: <[Z.to_nat j := p]> l ++ others) with ((m :: <[Z.to_nat j := p]> l) ++ others).
      rewrite <-(insert_Permutation l _ m p Hm). change ((p :: l) ++ others) with (p :: (l ++ others)). rewrite Hperm. apply Permutation_cons_append.
    + assert (∀ x, x ∈ <[Z.to_nat j := p]> l → x = p ∨ x ∈ l) as Hin.
      { intros x (k & Hk)%list_elem_of_lookup_1. apply list_lookup_insert_Some in Hk as [(_ & <- & _)|[_ Hk]]; [by left|].
        right. by eapply list_elem_of_lookup_2. }
      intros x y Hx [->|Hy]%elem_of_cons.
      * destruct (Hin x Hx) as [->|Hx']; [lia|by apply Hmax].
      * destruct (Hin x Hx) as [->|Hx']; [|by apply Hle].
        specialize (Hle m y ltac:(by eapply list_elem_of_lookup_2) Hy). lia.
  - split; [lia|]. exists (others ++ [p]). split; [by rewrite app_assoc, Hperm|].
    intros x y Hx [Hy| ->%list_elem_of_singleton]%elem_of_app; [by apply Hle|]. specialize (Hmax x Hx). lia.
Qed.
Lemma least_recent_loop_ok limit l : ∀ acc seen,
  0 < limit → selects limit acc seen →
  ∃ acc', KademliaTable.least_recent_loop limit acc l = Ok acc' ∧ selects limit acc' (seen ++ l).
Proof.
  induction l as [|p l IH]; intros acc seen Hl Hs; [exists acc; by rewrite app_nil_r|].
  destruct (least_recent_step_ok limit acc seen p Hl Hs) as (acc1 & Hr & Hs1). cbn. rewrite Hr, bind_Ok_l.
  destruct (IH acc1 (seen ++ [p]) Hl Hs1) as (acc2 & Hr2 & Hs2). exists acc2. by rewrite <-app_assoc in Hs2.
Qed.

(** [get_least_recently_pinged_peers] returns as many peers as asked for, or all if
    there are fewer, and no other peer of the table has an older last pong (the field it
    compares; its comment speaks of pings).  Asked for none, it panics on any table that
    has a peer. *)
Theorem least_recently_pinged_correct (limit : Z) (t : KademliaTable.t) :
  0 <= limit →
  if decide (0 < limit)
  then ∃ l, KademliaTable.get_least_recently_pinged_peers limit t = Ok l ∧ selects limit l (KademliaTable.all_peers t)
  else KademliaTable.get_least_recently_pinged_peers limit t =
       match KademliaTable.all_peers t with [] => Ok [] | _ => Panic end.
Proof.
  intros Hl. unfold KademliaTable.get_least_recently_pinged_peers. case_decide as Hpos.
  - destruct (least_recent_loop_ok limit (KademliaTable.all_peers t) [] [] Hpos) as (l & Hr & Hs); [|by exists l].
    split; [by rewrite zlen_nil, Z.min_r by lia|]. exists []. split; [done|]. by intros ? ? ?%not_elem_of_nil.
  - destruct (KademliaTable.all_peers t) as [|p l]; [done|]. cbn. unfold KademliaTable.least_recent_step.
    change (zlen []) with 0. by decide_bools.
Qed.

Lemma replace_farther_spec n d l :
  length (KademliaTable.replace_farther n d l) = length l ∧
  ∀ x, x ∈ KademliaTable.replace_farther n d l → x = (n, d) ∨ x ∈ l.
Proof.
  induction l as [|[m e] l [IHl IH]]; cbn; [split; [done|]; by intros x ?%not_elem_of_nil|].
  destruct (d <? e); cbn; (split; [lia|]); intros x; rewrite !elem_of_cons; [naive_solver|].
  intros [->|Hx]; [naive_solver|]. destruct (IH x Hx); naive_solver.
Qed.
Lemma closest_fold keccak256 id l : ∀ acc seen,
  zlen acc = Z.min MAX_NODES_PER_BUCKET (zlen seen) → (∀ x, x ∈ acc → x.1 ∈ map PeerData.node seen) →
  (zlen seen <= MAX_NODES_PER_BUCKET → acc.*1 = map PeerData.node seen) →
  let r := foldl (KademliaTable.closest_step keccak256 id) acc l in
  zlen r = Z.min MAX_NODES_PER_BUCKET (zlen (seen ++ l)) ∧ (∀ x, x ∈ r → x.1 ∈ map PeerData.node (seen ++ l)) ∧
  (zlen (seen ++ l) <= MAX_NODES_PER_BUCKET → r.*1 = map PeerData.node (seen ++ l)).
Proof.
  induction l as [|p l IH]; intros acc seen Hlen Hin Hall; [by rewrite app_nil_r|].
  cbn [foldl]. replace (seen ++ p :: l) with ((seen ++ [p]) ++ l) by (by rewrite <-app_assoc).
  assert (zlen (seen ++ [p]) = zlen seen + 1) as Hs by (by rewrite zlen_app).
  set (d := bucket_number keccak256 id (PeerData.id p)).
  destruct (replace_farther_spec (PeerData.node p) d acc) as [Hrl Hri].
  unfold KademliaTable.closest_step at 2 4 6. fold d.
  assert (∀ x : Node.t, x ∈ map PeerData.node seen → x ∈ map PeerData.node (seen ++ [p])) as Hmono
    by (intros x Hx; rewrite map_app, elem_of_app; by left).
  assert (PeerData.node p ∈ map PeerData.node (seen ++ [p])) as Hnew
    by (rewrite map_app, elem_of_app; right; by constructor).
  destruct (zlen acc <? MAX_NODES_PER_BUCKET) eqn:E; bool_prop; apply IH.
  - rewrite zlen_app. change (zlen [(PeerData.node p, d)]) with 1. lia.
  - intros x [Hx| ->%list_elem_of_singleton]%elem_of_app; [by apply Hmono, Hin|done].
  - intros _. rewrite fmap_app, map_app, Hall by lia. done.
  - unfold zlen in *. lia.
  - intros x Hx. destruct (Hri x Hx) as [->|Hx']; [done|by apply Hmono, Hin].
  - lia.
Qed.

(** [get_closest_nodes] returns sixteen nodes of the table, or all of them if there
    are no more. *)
Theorem closest_nodes_sound (keccak256 : list Z → list Z) (id : list Z) (t : KademliaTable.t) :
  let r := KademliaTable.get_closest_nodes keccak256 id t in
  let all := map PeerData.node (KademliaTable.all_peers t) in
  zlen r = Z.min MAX_NODES_PER_BUCKET (zlen all) ∧ (∀ n, n ∈ r → n ∈ all) ∧
  (zlen all <= MAX_NODES_PER_BUCKET → r = all).
Proof.
  destruct (closest_fold keccak256 id (KademliaTable.all_peers t) [] []) as (Hl & Hin & Hall);
    [done|by intros x ?%not_elem_of_nil|done|]. cbn [app] in *.
  assert (∀ A B (f : A → B) l, zlen (map f l) = zlen l) as Hmap by (intros; unfold zlen; by rewrite length_map).
  unfold KademliaTable.get_closest_nodes. cbv zeta. rewrite !Hmap. split_and!; [|..|done].
  - exact Hl.
  - intros n (x & -> & Hx)%list_elem_of_fmap. by apply Hin.
Qed.

(** ** Sequences of operations *)
Inductive table_op :=
  | InsertNode (now : Z) (node : Node.t)
  | PongAnswered (now : Z) (id : list Z)
  | UpdatePing (now : Z) (id : list Z) (ping_hash : option (list Z))
  | UpdatePingRevalidation (now : Z) (id : list Z) (ping_hash : option (list Z))
  | NewRequest (now : Z) (id : list Z) (sender : option Z)
  | ReplacePeer (id : list Z).
Definition apply_op (keccak256 : list Z → list Z) (op : table_op) (t : KademliaTable.t) : pres KademliaTable.t :=
  match op with
  | InsertNode now node => '(_, t) ← KademliaTable.insert_node keccak256 now node t; Ok t
  | PongAnswered now id => KademliaTable.pong_answered keccak256 now id t
  | UpdatePing now id h => KademliaTable.update_peer_ping keccak256 now id h t
  | UpdatePingRevalidation now id h => KademliaTable.update_peer_ping_with_revalidation keccak256 now id h t
  | NewRequest now id None => KademliaTable.update_peer keccak256 id (PeerData.new_find_node_request now) t
  | NewRequest now id (Some s) =>
    KademliaTable.update_peer keccak256 id (PeerData.new_find_node_request_with_sender now s) t
  | ReplacePeer id => '(_, t) ← KademliaTable.replace_peer keccak256 id t; Ok t
  end.
Fixpoint apply_ops (keccak256 : list Z → list Z) (ops : list table_op) (t : KademliaTable.t) : pres KademliaTable.t :=
  match ops with
  | [] => Ok t
  | op :: ops => t ← apply_op keccak256 op t; apply_ops keccak256 ops t
  end.
Lemma apply_op_wf keccak256 op t :
  (∀ x, is_array 32 (keccak256 x)) → wf_table keccak256 t →
  ∃ t', apply_op keccak256 op t = Ok t' ∧ wf_table keccak256 t'.
Proof.
  intros Hk Ht. destruct op as [now node|now id|now id h|now id h|now id [s|]|id]; cbn [apply_op];
    try (apply update_peer_wf; done).
  - destruct (insert_node_spec keccak256 Hk now node t Ht) as (b & r & t' & _ & -> & Hw & _). by exists t'.
  - destruct (replace_peer_spec keccak256 Hk id t Ht) as (o & t' & -> & Hw & _). by exists t'.
Qed.

(** Whatever sequence of operations is applied to a new table, none of them panics,
    and the table keeps its invariant: 256 buckets of at most 16 peers and 10
    replacements, no id twice in a bucket, every peer in the bucket of its distance from
    the local node, and replacements only where the peers are complete. *)
Theorem table_invariant (keccak256 : list Z → list Z) (local : list Z) (ops : list table_op) :
  (∀ x, is_array 32 (keccak256 x)) →
  ∃ t, apply_ops keccak256 ops (KademliaTable.new local) = Ok t ∧ wf_table keccak256 t.
Proof.
  intros Hk. pose proof (new_table_wf keccak256 Hk local) as Ht. revert Ht. generalize (KademliaTable.new local) as t.
  induction ops as [|op ops IH]; intros t Ht; [by exists t|].
  destruct (apply_op_wf keccak256 op t Hk Ht) as (t1 & Hr & Ht1). cbn. rewrite Hr, bind_Ok_l. by apply IH.
Qed.

(** Inserting a node that the table does not know adds a fresh, unproven peer when
    its bucket has room, after which lookups find it; otherwise it becomes the newest
    replacement and lookups are unchanged.  A node that is known changes nothing. *)
Theorem insert_node_correct (keccak256 : list Z → list Z) (now : Z) (node : Node.t) (t : KademliaTable.t) :
  (∀ x, is_array 32 (keccak256 x)) → wf_table keccak256 t →
  let get := KademliaTable.get_by_node_id keccak256 in let id := Node.node_id node in
  let p := PeerData.new node now 0 false in
  ∃ r t', KademliaTable.insert_node keccak256 now node t = Ok (r, t') ∧
    (r = (None, false) ∧ t' = t ∨
     get id t = Ok None ∧ (∀ id', id' ≠ id → get id' t' = get id' t) ∧
     (r = (Some p, true) ∧ get id t' = Ok (Some p) ∨ r = (Some p, false) ∧ get id t' = Ok None)).
Proof.
  intros Hk Ht get id p. destruct (insert_node_spec keccak256 Hk now node t Ht) as (b & r & t' & Hb & Hr & Hw & Hspec).
  fold id in Hb, Hspec. exists r, t'. split; [done|]. destruct (bool_decide _) eqn:E; [by left|right].
  apply bool_decide_eq_false in E. rewrite ids_app, elem_of_app in E.
  assert (get id t = Ok None) as Hnone.
  { unfold get. rewrite (get_in keccak256 Hk t id b Hb). f_equal. apply find_in_None. tauto. }
  split; [done|]. cbv zeta in Hspec. fold p in Hspec. destruct (_ =? _); destruct Hspec as [-> ->]; split.
  - intros id' Hid. eapply get_set_bucket; done.
  - right. split; [done|]. unfold get in *. by erewrite get_set_bucket.
  - intros id' Hid. eapply get_set_bucket; [done..|]. intros _. cbn [peers].
    rewrite find_in_app, find_in_cons, decide_False by (done || congruence). by destruct (find_in _ _).
  - left. split; [done|]. unfold get. erewrite get_same_bucket by done. f_equal. cbn [peers].
    rewrite find_in_app, find_in_cons, decide_True by done. rewrite find_in_None by tauto. done.
Qed.

(** Replacing a peer never panics: the peer is gone, the newest replacement of its
    bucket, if there is one, is a peer from now on, and lookups of all others are
    unchanged. *)
Theorem replace_peer_correct (keccak256 : list Z → list Z) (id : list Z) (t : KademliaTable.t) :
  (∀ x, is_array 32 (keccak256 x)) → wf_table keccak256 t →
  let get := KademliaTable.get_by_node_id keccak256 in
  ∃ o t', KademliaTable.replace_peer keccak256 id t = Ok (o, t') ∧ get id t' = Ok None ∧
    (∀ q, o = Some q → get (PeerData.id q) t = Ok None ∧ get (PeerData.id q) t' = Ok (Some q)) ∧
    ∀ id', id' ≠ id → PeerData.id <$> o ≠ Some id' → get id' t' = get id' t.
Proof.
  intros Hk Ht get. destruct (replace_peer_spec keccak256 Hk id t Ht) as (o & t' & Hr & _ & Hn & Ho & Hall).
  exists o, t'. split_and!; [done|done|by intros q ->; apply Ho|].
  intros id' Hne Hne'. apply Hall; [done|]. intros q -> ->. by apply Hne'.
Qed.

(** ** Sample tables *)
Definition sample_node (first last : Z) : Node.t :=
  Node.mk (V4 [127; 0; 0; 1]) 30303 0 (first :: replicate 30 0 ++ last :: replicate 32 0).
Definition local_id : list Z := replicate 64 0.
(** A bucket that is full with one replacement. *)
Definition full_ops : list table_op := map (λ i, InsertNode (Z.of_nat i) (sample_node 0x80 (Z.of_nat i))) (seq 0 17).
Definition sample_table : KademliaTable.t :=
  match apply_ops toy_hash full_ops (KademliaTable.new local_id) with Ok t => t | _ => KademliaTable.new local_id end.
Lemma sample_table_wf : wf_table toy_hash sample_table.
Proof.
  destruct (apply_ops toy_hash full_ops (KademliaTable.new local_id)) as [t| | |] eqn:E;
    [|by vm_compute in E..].
  unfold sample_table. rewrite E. revert E. pose proof (new_table_wf toy_hash toy_hash_array local_id) as Ht. revert Ht.
  generalize full_ops, (KademliaTable.new local_id). intros ops. induction ops as [|op ops IH]; intros t0 Ht; cbn; [congruence|].
  destruct (apply_op_wf toy_hash op t0 toy_hash_array Ht) as (t1 & -> & Ht1). by apply IH.
Qed.

Lemma least_recently_pinged_correct_witness :
  ∃ l, KademliaTable.get_least_recently_pinged_peers 3 sample_table = Ok l ∧
       selects 3 l (KademliaTable.all_peers sample_table).
Proof. exact (least_recently_pinged_correct 3 sample_table ltac:(lia)). Defined.
Lemma table_invariant_witness :
  ∃ t, apply_ops toy_hash full_ops (KademliaTable.new local_id) = Ok t ∧ wf_table toy_hash t.
Proof. exact (table_invariant toy_hash local_id full_ops toy_hash_array). Defined.
Lemma insert_node_correct_witness :
  ∃ r t', KademliaTable.insert_node toy_hash 7 (sample_node 0x40 1) sample_table = Ok (r, t') ∧
    KademliaTable.get_by_node_id toy_hash (Node.node_id (sample_node 0x40 1)) t' =
      Ok (Some (PeerData.new (sample_node 0x40 1) 7 0 false)).
Proof.
  destruct (insert_node_correct toy_hash 7 (sample_node 0x40 1) sample_table toy_hash_array sample_table_wf)
    as (r & t' & Hr & H). exists r, t'. split; [done|].
  assert (r = (Some (PeerData.new (sample_node 0x40 1) 7 0 false), true)) as -> by (vm_compute in Hr; injection Hr as <- _; reflexivity).
  destruct H as [[Hf _]|(_ & _ & [[_ H]|[Hf _]])]; [discriminate Hf|exact H|discriminate Hf].
Defined.
Lemma replace_peer_correct_witness :
  let id := Node.node_id (sample_node 0x80 3) in
  ∃ q t', KademliaTable.replace_peer toy_hash id sample_table = Ok (Some q, t') ∧
    PeerData.id q = Node.node_id (sample_node 0x80 16) ∧
    KademliaTable.get_by_node_id toy_hash id t' = Ok None.
Proof.
  intros id. destruct (replace_peer_correct toy_hash id sample_table toy_hash_array sample_table_wf)
    as (o & t' & Hr & Hn & _).
  destruct o as [q|]; [|by vm_compute in Hr]. exists q, t'. split_and!; [done| |done].
  vm_compute in Hr. injection Hr as <- _. reflexivity.
Defined.

(** [get_closest_nodes] replaces the first node that is farther than the new one, which
    need not be the farthest: sixteen peers are at distance 255 from the target, then
    come one at 200 and one at 100, and the last takes the place of the one at 200. *)
Definition target_id : list Z := 0x80 :: replicate 63 0.
Definition at_distance (i : Z) : Node.t :=
  let bit (j : nat) := if decide (Z.of_nat j = 31 - i / 8) then 2 ^ (i mod 8) else 0 in
  Node.mk (V4 [127; 0; 0; 1]) 30303 0 (zip_with Z.lxor target_id (map bit (seq 0 64))).
Definition crowded : list table_op :=
  map (λ i, InsertNode 0 (sample_node 0 (Z.of_nat i))) (seq 1 16) ++
  [InsertNode 0 (at_distance 200); InsertNode 0 (at_distance 100)].
Example closest_nodes_lost :
  (λ n, bucket_number toy_hash target_id (Node.node_id n)) <$> [at_distance 200; at_distance 100; sample_node 0 2] =
    [200; 100; 255] ∧
  ∃ t, apply_ops toy_hash crowded (KademliaTable.new local_id) = Ok t ∧
    let r := KademliaTable.get_closest_nodes toy_hash target_id t in
    zlen r = 16 ∧ sample_node 0 2 ∈ r ∧ at_distance 200 ∉ r.
Proof.
  split; [by vm_compute|]. eexists. split; [vm_compute; reflexivity|]. cbv zeta. split_and!; [by vm_compute| |].
  - apply (bool_decide_unpack _). by vm_compute.
  - apply (bool_decide_unpack _). by vm_compute.
Qed.
