(* ===== verification/Discovery.v ===== *)
(** * Peer discovery: the tasks that share the table

    Model of the discovery part of [crates/net/net.rs].  A task is a tree of the effects
    it performs, [prog]: it reads the clock, sends datagrams, takes and drops the lock of
    the table, works on the table, and waits on channels.  The handlers are written in
    it as the code is; [DiscoveryLaws] runs them alone and interleaved with others. *)

From S2P Require Import Prelude Rlp RlpLaws U256 Codec Effects NetTypes Kademlia Discv4.

Definition SocketAddr : Type := IpAddr * Z.

Inductive prog (A : Type) : Type :=
  | Ret (a : A)
  | Crash
  (** [SystemTime::now], in seconds. *)
  | Now (k : Z → prog A)
  (** [UdpSocket::send_to]: the number of bytes sent, or an error. *)
  | SendTo (to_addr : SocketAddr) (buf : list Z) (k : option Z → prog A)
  | Lock (k : prog A)
  | Unlock (k : prog A)
  | Table {B : Type} (f : KademliaTable.t → pres (B * KademliaTable.t)) (k : B → prog A)
  (** [unbounded_channel], [tx.send], and the messages that [recv] returns until a wait
      of five seconds ends without one or the sender is gone. *)
  | Channel (k : Z → prog A)
  | Notify (tx : Z) (nodes : list Node.t) (k : prog A)
  | Receive (rx : Z) (k : list (list Node.t) → prog A).
Arguments Ret {A}. Arguments Crash {A}. Arguments Now {A}. Arguments SendTo {A}. Arguments Lock {A}.
Arguments Unlock {A}. Arguments Table {A B}. Arguments Channel {A}. Arguments Notify {A}. Arguments Receive {A}.

Fixpoint prog_bind {A B} (f : A → prog B) (p : prog A) : prog B :=
  match p with
  | Ret a => f a
  | Crash => Crash
  | Now k => Now (λ n, prog_bind f (k n))
  | SendTo a b k => SendTo a b (λ r, prog_bind f (k r))
  | Lock k => Lock (prog_bind f k)
  | Unlock k => Unlock (prog_bind f k)
  | Table g k => Table g (λ b, prog_bind f (k b))
  | Channel k => Channel (λ c, prog_bind f (k c))
  | Notify c l k => Notify c l (prog_bind f k)
  | Receive c k => Receive c (λ l, prog_bind f (k l))
  end.
#[export] Instance prog_mret : MRet prog := λ A a, Ret a.
#[export] Instance prog_mbind : MBind prog := λ A B f p, prog_bind f p.

Definition now : prog Z := Now Ret.
Definition send_to (to_addr : SocketAddr) (buf : list Z) : prog (option Z) := SendTo to_addr buf Ret.
Definition lock : prog unit := Lock (Ret tt).
Definition unlock : prog unit := Unlock (Ret tt).
Definition channel : prog Z := Channel Ret.
Definition notify (tx : Z) (nodes : list Node.t) : prog unit := Notify tx nodes (Ret tt).
Definition receive (rx : Z) : prog (list (list Node.t)) := Receive rx Ret.
(** A result in a task: [unwrap] and panics end it. *)
Definition of_res {E A} (r : res E A) : prog A := match r with Ok a => Ret a | _ => Crash end.
(** Operations on the table that was locked. *)
Definition read {B} (f : KademliaTable.t → pres B) : prog B := Table (λ t, b ← f t; Ok (b, t)) Ret.
Definition modify (f : KademliaTable.t → pres KademliaTable.t) : prog unit := Table (λ t, t ← f t; Ok (tt, t)) Ret.
Definition operate {B} (f : KademliaTable.t → pres (B * KademliaTable.t)) : prog B := Table f Ret.
(** A temporary guard, [table.lock().await.f(..)]. *)
Definition locked {B} (p : prog B) : prog B := _ ← lock; b ← p; _ ← unlock; Ret b.
Fixpoint for_all {A} (f : A → prog unit) (l : list A) : prog unit :=
  match l with
  | [] => Ret tt
  | x :: l => _ ← f x; for_all f l
  end.

Definition MAX_DISC_PACKET_SIZE : Z := 1280.
Definition REVALIDATION_INTERVAL_IN_SECONDS : Z := 30.
Definition PROOF_EXPIRATION_IN_HS : Z := 12.
Definition PEERS_RANDOM_LOOKUP_TIME_IN_MIN : Z := 30.

(** [slice::chunks]. *)
Fixpoint chunks_fuel {A} (fuel n : nat) (l : list A) : list (list A) :=
  match fuel, l with
  | S fuel, _ :: _ => take n l :: chunks_fuel fuel n (drop n l)
  | _, _ => []
  end.
Definition chunks {A} (n : nat) (l : list A) : list (list A) := chunks_fuel (length l) n l.

Module BootNode.
Record t := mk { node_id : list Z; socket_address : SocketAddr }.
End BootNode.

Section Tasks.
Context `{Profile} `{Secp256k1 SigningKey}.
Variable keccak256 : list Z → list Z.

(** ** Sending *)
Definition ping (local_addr to_addr : SocketAddr) (signer : SigningKey) : prog (option (list Z)) :=
  n ← now;
  let expiration := get_expiration n 20 in
  let from := Endpoint.mk local_addr.1 local_addr.2 0 in
  let to := Endpoint.mk to_addr.1 to_addr.2 0 in
  let ping := Message.Ping (PingMessage.new from to expiration) in
  buf ← of_res (Message.encode_with_header keccak256 ping signer);
  res ← send_to to_addr buf;
  match res with
  | None => Ret None
  | Some bytes_sent =>
    if bytes_sent =? zlen buf
    then hash ← of_res (slice (E:=never) buf 0 32); Ret (Some hash)
    else Ret None
  end.
Definition pong (to_addr : SocketAddr) (ping_hash : list Z) (signer : SigningKey) : prog unit :=
  n ← now;
  let expiration := get_expiration n 20 in
  let to := Endpoint.mk to_addr.1 to_addr.2 0 in
  let pong := Message.Pong (PongMessage.new to ping_hash expiration) in
  buf ← of_res (Message.encode_with_header keccak256 pong signer);
  _ ← send_to to_addr buf;
  Ret tt.

(** The loop over [request_receiver.recv()]. *)
Fixpoint collect_nodes (nodes : list Node.t) (received : list (list Node.t)) : list Node.t :=
  match received with
  | [] => nodes
  | found_nodes :: received =>
    let nodes := nodes ++ found_nodes in
    if zlen nodes =? MAX_NODES_PER_BUCKET then nodes else collect_nodes nodes received
  end.
Definition find_node_and_wait_for_response (to_addr : SocketAddr) (signer : SigningKey) (target_node_id : list Z)
    (request_receiver : Z) : prog (list Node.t) :=
  n ← now;
  let expiration := get_expiration n 20 in
  let msg := Message.FindNode (FindNodeMessage.new target_node_id expiration) in
  buf ← of_res (Message.encode_with_header keccak256 msg signer);
  res ← send_to to_addr buf;
  match res with
  | None => Ret []
  | Some _ => received ← receive request_receiver; Ret (collect_nodes [] received)
  end.

(** ** Table operations with the time read by them *)
Definition insert_node (node : Node.t) : prog (option PeerData.t * bool) :=
  n ← now; operate (KademliaTable.insert_node keccak256 n node).
Definition update_peer_ping (node_id : list Z) (ping_hash : option (list Z)) : prog unit :=
  n ← now; modify (KademliaTable.update_peer_ping keccak256 n node_id ping_hash).
Definition update_peer_ping_with_revalidation (node_id : list Z) (ping_hash : option (list Z)) : prog unit :=
  n ← now; modify (KademliaTable.update_peer_ping_with_revalidation keccak256 n node_id ping_hash).
Definition pong_answered (node_id : list Z) : prog unit :=
  n ← now; modify (KademliaTable.pong_answered keccak256 n node_id).
Definition get_by_node_id (node_id : list Z) : prog (option PeerData.t) :=
  read (KademliaTable.get_by_node_id keccak256 node_id).
(** An assignment through [get_by_node_id_mut]. *)
Definition assign (node_id : list Z) (f : PeerData.t → PeerData.t) : prog unit :=
  modify (KademliaTable.update_peer keccak256 node_id f).

(** ** The server *)
Section Server.
Variables (udp_addr : SocketAddr) (signer : SigningKey).

Definition handle_ping (from : SocketAddr) (packet : Packet.t) (msg : PingMessage.t) : prog unit :=
  n ← now;
  if is_expired n (PingMessage.expiration msg) then Ret tt
  else
    let ping_hash := Packet.hash packet in
    _ ← pong from ping_hash signer;
    node ← locked (get_by_node_id (Packet.node_id packet));
    match node with
    | Some peer =>
      n ← now;
      hs ← of_res (time_since_in_hs n (PeerData.last_ping peer));
      if PROOF_EXPIRATION_IN_HS <=? hs then
        hash ← ping udp_addr from signer;
        match hash with
        | Some hash => locked (update_peer_ping (PeerData.id peer) (Some hash))
        | None => Ret tt
        end
      else Ret tt
    | None =>
      '(peer, inserted_to_table) ← locked (insert_node (Node.mk from.1 from.2 0 (Packet.node_id packet)));
      hash ← ping udp_addr from signer;
      match hash with
      | Some hash =>
        match inserted_to_table, peer with
        | true, Some peer => locked (update_peer_ping (PeerData.id peer) (Some hash))
        | _, _ => Ret tt
        end
      | None => Ret tt
      end
    end.

Definition handle_pong (packet : Packet.t) (msg : PongMessage.t) : prog unit :=
  n ← now;
  if is_expired n (PongMessage.expiration msg) then Ret tt
  else
    peer ← locked (get_by_node_id (Packet.node_id packet));
    match peer with
    | Some peer =>
      match PeerData.last_ping_hash peer with
      | None => Ret tt
      | Some last_ping_hash =>
        if bool_decide (last_ping_hash = PongMessage.ping_hash msg)
        then locked (pong_answered (PeerData.id peer))
        else Ret tt
      end
    | None => Ret tt
    end.

(** [send_to(..).await.unwrap()] panics when sending fails. *)
Definition send_neighbors (from : SocketAddr) (expiration : Z) (nodes : list Node.t) : prog unit :=
  let neighbors := Message.Neighbors (NeighborsMessage.new nodes expiration) in
  buf ← of_res (Message.encode_with_header keccak256 neighbors signer);
  res ← send_to from buf;
  match res with Some _ => Ret tt | None => Crash end.
Definition handle_find_node (from : SocketAddr) (packet : Packet.t) (msg : FindNodeMessage.t) : prog unit :=
  n ← now;
  if is_expired n (FindNodeMessage.expiration msg) then Ret tt
  else
    node ← locked (get_by_node_id (Packet.node_id packet));
    match node with
    | Some node =>
      if PeerData.is_proven node then
        nodes ← locked (read (λ t, Ok (KademliaTable.get_closest_nodes keccak256 (FindNodeMessage.target msg) t)));
        let nodes_chunks := chunks 4 nodes in
        n ← now;
        let expiration := get_expiration n 20 in
        for_all (send_neighbors from expiration) nodes_chunks
      else Ret tt
    | None => Ret tt
    end.

(** The guard lives until the end of the arm: the pings are sent under the lock. *)
Definition insert_neighbor (node : Node.t) : prog unit :=
  '(peer, inserted_to_table) ← insert_node node;
  match inserted_to_table, peer with
  | true, Some peer =>
    let node_addr := (Node.ip (PeerData.node peer), Node.udp_port (PeerData.node peer)) in
    ping_hash ← ping udp_addr node_addr signer;
    update_peer_ping (PeerData.id peer) ping_hash
  | _, _ => Ret tt
  end.
(** The request of the peer [id]: [None] when the arm ends with [continue]. *)
Definition take_neighbors (id : list Z) (nodes : list Node.t) (req : FindNodeRequest.t)
    : prog (option (option (list Node.t))) :=
  n ← now;
  if 60 <=? U256.saturating_sub n (FindNodeRequest.sent_at req) then
    _ ← assign id (PeerData.set_find_node_request None);
    Ret None
  else
    nodes_sent ← of_res (uadd (E:=never) (FindNodeRequest.nodes_sent req) (zlen nodes));
    nodes_to_insert ←
      (if nodes_sent <=? MAX_NODES_PER_BUCKET then
         let req := FindNodeRequest.mk nodes_sent (FindNodeRequest.sent_at req) (FindNodeRequest.tx req) in
         _ ← assign id (PeerData.set_find_node_request (Some req));
         _ ← (match FindNodeRequest.tx req with Some tx => notify tx nodes | None => Ret tt end);
         Ret (Some nodes)
       else Ret None);
    _ ← (if nodes_sent =? MAX_NODES_PER_BUCKET then assign id (PeerData.set_find_node_request None) else Ret tt);
    Ret (Some nodes_to_insert).
Definition handle_neighbors (packet : Packet.t) (neighbors_msg : NeighborsMessage.t) : prog unit :=
  n ← now;
  if is_expired n (NeighborsMessage.expiration neighbors_msg) then Ret tt
  else
    _ ← lock;
    node ← get_by_node_id (Packet.node_id packet);
    taken ← (match node with
             | Some node =>
               match PeerData.find_node_request node with
               | Some req => take_neighbors (Packet.node_id packet) (NeighborsMessage.nodes neighbors_msg) req
               | None => Ret (Some None)
               end
             | None => Ret (Some None)
             end);
    _ ← (match taken with Some (Some nodes) => for_all insert_neighbor nodes | _ => Ret tt end);
    unlock.

(** One round of the loop of [discover_peers_server]. *)
Definition serve (buf : list Z) (from : SocketAddr) : prog unit :=
  match Packet.decode keccak256 buf with
  | Err _ => Ret tt
  | Ok packet =>
    match Packet.message packet with
    | Message.Ping msg => handle_ping from packet msg
    | Message.Pong msg => handle_pong packet msg
    | Message.FindNode msg => handle_find_node from packet msg
    | Message.Neighbors msg => handle_neighbors packet msg
    | _ => Ret tt
    end
  | _ => Crash
  end.

Definition discovery_startup (bootnodes : list BootNode.t) : prog unit :=
  for_all (λ bootnode : BootNode.t,
    let '(ip, port) := BootNode.socket_address bootnode in
    _ ← locked (insert_node (Node.mk ip port 0 (BootNode.node_id bootnode)));
    ping_hash ← ping udp_addr (BootNode.socket_address bootnode) signer;
    locked (update_peer_ping (BootNode.node_id bootnode) ping_hash)) bootnodes.

(** ** Revalidation *)
Definition node_addr (peer : PeerData.t) : SocketAddr := (Node.ip (PeerData.node peer), Node.udp_port (PeerData.node peer)).
Definition judged (peer : PeerData.t) : pres PeerData.t :=
  match PeerData.revalidation peer with
  | Some true => PeerData.increment_liveness peer
  | Some false => Ok (PeerData.decrement_liveness peer)
  | None => Ok peer
  end.
Definition check_peer (node_id : list Z) : prog unit :=
  _ ← lock;
  peer ← get_by_node_id node_id;
  peer ← of_res (unwrap (E:=never) peer);
  peer ← of_res (judged peer);
  _ ← assign node_id (PeerData.judge (PeerData.liveness peer));
  _ ← (if PeerData.liveness peer =? 0 then
         new_peer ← operate (KademliaTable.replace_peer keccak256 node_id);
         match new_peer with
         | Some new_peer =>
           ping_hash ← ping udp_addr (node_addr new_peer) signer;
           update_peer_ping (PeerData.id new_peer) ping_hash
         | None => Ret tt
         end
       else Ret tt);
  unlock.
Fixpoint ping_peers (pinged : list (list Z)) (peers : list PeerData.t) : prog (list (list Z)) :=
  match peers with
  | [] => Ret pinged
  | peer :: peers =>
    ping_hash ← ping udp_addr (node_addr peer) signer;
    _ ← locked (update_peer_ping_with_revalidation (PeerData.id peer) ping_hash);
    let id := PeerData.id peer in
    ping_peers (if bool_decide (id ∈ pinged) then pinged else pinged ++ [id]) peers
  end.
(** One round of the loop of [peers_revalidation]: the set of the peers pinged in the
    previous one, in the order in which it is iterated, to that of the next. *)
Definition revalidate (previously_pinged_peers : list (list Z)) : prog (list (list Z)) :=
  _ ← for_all check_peer previously_pinged_peers;
  peers ← locked (read (KademliaTable.get_least_recently_pinged_peers 3));
  ping_peers [] peers.

(** ** Lookups *)
(** The loop over [peers_to_ask.iter().enumerate()]. *)
Fixpoint farthest_index (distance : Z) (target : list Z) (l : list Node.t) (i : Z)
    (idx_to_replace : option Z) (highest_distance : Z) : option Z :=
  match l with
  | [] => idx_to_replace
  | peer :: l =>
    let current_distance := bucket_number keccak256 (Node.node_id peer) target in
    if (distance <? current_distance) && (highest_distance <=? current_distance)
    then farthest_index distance target l (i + 1) (Some i) current_distance
    else farthest_index distance target l (i + 1) idx_to_replace highest_distance
  end.
Definition peers_to_ask_push (peers_to_ask : list Node.t) (target : list Z) (node : Node.t) : list Node.t :=
  let distance := bucket_number keccak256 target (Node.node_id node) in
  if zlen peers_to_ask <? MAX_NODES_PER_BUCKET then peers_to_ask ++ [node]
  else
    match farthest_index distance target peers_to_ask 0 None 0 with
    | Some idx => <[Z.to_nat idx := node]> peers_to_ask
    | None => peers_to_ask
    end.

(** The request of a peer that may be asked, with the receiver of its answers. *)
Definition open_request (node_id : list Z) : prog (option Z) :=
  locked
    (peer ← get_by_node_id node_id;
     match peer with
     | Some peer =>
       match PeerData.find_node_request peer with
       | Some _ => Ret None
       | None =>
         c ← channel;
         n ← now;
         _ ← assign node_id (PeerData.new_find_node_request_with_sender n c);
         Ret (Some c)
       end
     | None => Ret None
     end).
Fixpoint lookup_loop (target : list Z) (asked_peers : gset (list Z)) (nodes_to_ask : list Node.t)
    (queries : Z) (nodes : list Node.t) : prog (list Node.t * Z * gset (list Z)) :=
  match nodes_to_ask with
  | [] => Ret (nodes, queries, asked_peers)
  | node :: nodes_to_ask =>
    if bool_decide (Node.node_id node ∈ asked_peers) then
      if queries =? 3 then Ret (nodes, queries, asked_peers)
      else lookup_loop target asked_peers nodes_to_ask queries nodes
    else
      rx ← open_request (Node.node_id node);
      match rx with
      | None => lookup_loop target asked_peers nodes_to_ask queries nodes
      | Some rx =>
        let queries := queries + 1 in
        let asked_peers := {[Node.node_id node]} ∪ asked_peers in
        found_nodes ← find_node_and_wait_for_response (Node.ip node, Node.udp_port node) signer target rx;
        let nodes := nodes ++ found_nodes in
        if queries =? 3 then Ret (nodes, queries, asked_peers)
        else lookup_loop target asked_peers nodes_to_ask queries nodes
      end
  end.
Definition lookup (target : list Z) (asked_peers : gset (list Z)) (nodes_to_ask : list Node.t)
    : prog (list Node.t * Z * gset (list Z)) :=
  lookup_loop target asked_peers nodes_to_ask 0 [].

Definition push_unseen (target : list Z) (seen_and_asked : gset (list Z) * list Node.t) (node : Node.t)
    : gset (list Z) * list Node.t :=
  let '(seen_peers, peers_to_ask) := seen_and_asked in
  if bool_decide (Node.node_id node ∈ seen_peers) then (seen_peers, peers_to_ask)
  else ({[Node.node_id node]} ∪ seen_peers, peers_to_ask_push peers_to_ask target node).
(** [None] when [fuel] rounds are not enough: how many there are depends on the peers. *)
Fixpoint recursive_lookup_loop (fuel : nat) (target : list Z) (asked_peers seen_peers : gset (list Z))
    (peers_to_ask : list Node.t) : prog (option (gset (list Z))) :=
  match fuel with
  | O => Ret None
  | S fuel =>
    '(nodes_found, queries, asked_peers) ← lookup target asked_peers peers_to_ask;
    let '(seen_peers, peers_to_ask) := foldl (push_unseen target) (seen_peers, peers_to_ask) nodes_found in
    if queries =? 0 then Ret (Some asked_peers)
    else recursive_lookup_loop fuel target asked_peers seen_peers peers_to_ask
  end.
Definition recursive_lookup (fuel : nat) (target local_node_id : list Z) : prog (option (gset (list Z))) :=
  closest_nodes ← locked (read (λ t, Ok (KademliaTable.get_closest_nodes keccak256 target t)));
  let seen_peers := {[local_node_id]} ∪ list_to_set (map Node.node_id closest_nodes) in
  recursive_lookup_loop fuel target ∅ seen_peers closest_nodes.
End Server.
End Tasks.
