(* ===== verification/DiscoveryRun.v ===== *)
(** * Running the tasks of peer discovery

    The world the tasks share, a task that runs alone ([run]), tasks that are interleaved
    step by step ([step], [system_step]), and that the first is an instance of the second. *)

From S2P Require Import Prelude Rlp RlpLaws U256 Codec Effects NetTypes Kademlia Discv4 Discovery.

Record world := mkWorld {
  table : KademliaTable.t;
  (** The task that holds the lock of the table. *)
  holder : option nat;
  clock : Z;
  sent : list (SocketAddr * list Z);
  notified : list (Z * list Node.t);
  channels : Z
}.
Definition with_table (t : KademliaTable.t) (w : world) : world :=
  mkWorld t (holder w) (clock w) (sent w) (notified w) (channels w).
Definition with_holder (h : option nat) (w : world) : world :=
  mkWorld (table w) h (clock w) (sent w) (notified w) (channels w).
Definition with_sent (x : SocketAddr * list Z) (w : world) : world :=
  mkWorld (table w) (holder w) (clock w) (sent w ++ [x]) (notified w) (channels w).
Definition with_notified (x : Z * list Node.t) (w : world) : world :=
  mkWorld (table w) (holder w) (clock w) (sent w) (notified w ++ [x]) (channels w).
Definition with_channel (w : world) : world :=
  mkWorld (table w) (holder w) (clock w) (sent w) (notified w) (channels w + 1).
Definition with_clock (n : Z) (w : world) : world :=
  mkWorld (table w) (holder w) n (sent w) (notified w) (channels w).

(** ** One step of a task *)

(** The task [i].  A panic drops the guard of the lock. *)
Inductive step {A} (i : nat) : world → prog A → world → prog A → Prop :=
  | step_now w k : step i w (Now k) w (k (clock w))
  | step_send w to_addr buf k r : step i w (SendTo to_addr buf k) (with_sent (to_addr, buf) w) (k r)
  | step_lock w k : holder w = None → step i w (Lock k) (with_holder (Some i) w) k
  | step_unlock w k : holder w = Some i → step i w (Unlock k) (with_holder None w) k
  | step_table w B (f : KademliaTable.t → pres (B * KademliaTable.t)) k b t :
      holder w = Some i → f (table w) = Ok (b, t) → step i w (Table f k) (with_table t w) (k b)
  | step_table_panic w B (f : KademliaTable.t → pres (B * KademliaTable.t)) k :
      holder w = Some i → f (table w) = Panic → step i w (Table f k) w Crash
  | step_channel w k : step i w (Channel k) (with_channel w) (k (channels w))
  | step_notify w tx nodes k : step i w (Notify tx nodes k) (with_notified (tx, nodes) w) k
  | step_receive w rx k received : step i w (Receive rx k) w (k received)
  | step_drop_guard w : holder w = Some i → step i w Crash (with_holder None w) Crash.

(** ** A task alone *)
Inductive outcome (A : Type) := Done (a : A) (w : world) | Panicked | Stuck.
Arguments Done {A}. Arguments Panicked {A}. Arguments Stuck {A}.

(** What the network does with the datagrams, and what arrives on the channels.  The
    task is stuck when it takes a lock that it holds, or works on a table that it did
    not lock. *)
Section Run.
Context (net : SocketAddr → list Z → option Z) (arriving : Z → list (list Node.t)) (i : nat).
Fixpoint run {A} (p : prog A) (w : world) : outcome A :=
  match p with
  | Ret a => Done a w
  | Crash => Panicked
  | Now k => run (k (clock w)) w
  | SendTo a b k => run (k (net a b)) (with_sent (a, b) w)
  | Lock k => match holder w with None => run k (with_holder (Some i) w) | Some _ => Stuck end
  | Unlock k => if decide (holder w = Some i) then run k (with_holder None w) else Stuck
  | Table f k =>
    if decide (holder w = Some i) then
      match f (table w) with Ok (b, t) => run (k b) (with_table t w) | Panic => Panicked | _ => Stuck end
    else Stuck
  | Channel k => run (k (channels w)) (with_channel w)
  | Notify tx nodes k => run k (with_notified (tx, nodes) w)
  | Receive rx k => run (k (arriving rx)) w
  end.
Definition run_then {A B} (r : outcome A) (k : A → world → outcome B) : outcome B :=
  match r with Done a w => k a w | Panicked => Panicked | Stuck => Stuck end.

Lemma run_prog_bind {A B} (p : prog A) (f : A → prog B) w : run (p ≫= f) w = run_then (run p w) (λ a, run (f a)).
Proof.
  revert w. unfold mbind, prog_mbind.
  induction p as [a| |k IH|a b k IH|k IH|k IH|C g k IH|k IH|c l k IH|c k IH]; intros w; cbn; auto.
  - destruct (holder w); [done|apply IH].
  - case_decide; [apply IH|done].
  - case_decide; [|done]. destruct (g (table w)) as [[b t]| | |]; [apply IH|done..].
Qed.

(** A task that ends when it runs alone takes steps to its end. *)
Lemma run_steps {A} (p : prog A) w a w' :
  run p w = Done a w' → rtc (λ x y, step i x.1 x.2 y.1 y.2) (w, p) (w', Ret a).
Proof.
  revert w. induction p as [b| |k IH|c b k IH|k IH|k IH|C g k IH|k IH|c l k IH|c k IH]; intros w Hr; cbn in Hr.
  - injection Hr as -> ->. done.
  - done.
  - eapply rtc_l; [|by apply IH]. cbn. constructor.
  - eapply rtc_l; [|by apply IH]. cbn. constructor.
  - destruct (holder w) eqn:E; [done|]. eapply rtc_l; [|by apply IH]. by constructor.
  - case_decide; [|done]. eapply rtc_l; [|by apply IH]. by constructor.
  - case_decide; [|done]. destruct (g (table w)) as [[b t]| | |] eqn:E; try done.
    eapply rtc_l; [|by apply IH]. by constructor.
  - eapply rtc_l; [|by apply IH]. cbn. constructor.
  - eapply rtc_l; [|by apply IH]. cbn. constructor.
  - eapply rtc_l; [|by apply IH]. cbn. constructor.
Qed.
End Run.

(** ** The tasks together *)

(** The server between or in the handling of a datagram, the revalidation in its
    [rounds]-th round, and other tasks: the startup and the lookups. *)
Inductive task :=
  | Server (p : prog unit)
  | Revalidation (rounds : Z) (p : prog (list (list Z)))
  | Other {A} (p : prog A).

Section System.
Context `{Profile} `{Secp256k1 SigningKey}.
Context (keccak256 : list Z → list Z) (udp_addr : SocketAddr) (signer : SigningKey) (local_node_id : list Z).

Inductive task_step (i : nat) : world → task → world → task → Prop :=
  | server_step w p w' p' : step i w p w' p' → task_step i w (Server p) w' (Server p')
  | server_receives w buf from : task_step i w (Server (Ret tt)) w (Server (serve keccak256 udp_addr signer buf from))
  | revalidation_step w n p w' p' :
      step i w p w' p' → task_step i w (Revalidation n p) w' (Revalidation n p')
  | revalidation_tick w n pinged order :
      order ≡ₚ pinged →
      task_step i w (Revalidation n (Ret pinged)) w (Revalidation (n + 1) (revalidate keccak256 udp_addr signer order))
  | other_step {A} w (p : prog A) w' p' : step i w p w' p' → task_step i w (Other p) w' (Other p').

Inductive system_step : world * list task → world * list task → Prop :=
  | one_task i w l x w' x' :
      l !! i = Some x → task_step i w x w' x' → system_step (w, l) (w', <[i := x']> l)
  | time_passes w l n : clock w <= n → system_step (w, l) (with_clock n w, l)
  (** The timer of [peers_lookup]. *)
  | lookup_starts w l fuel target :
      system_step (w, l) (w, l ++ [Other (recursive_lookup keccak256 signer fuel target local_node_id)]).

Lemma step_at i w l x w' x' l' :
  l !! i = Some x → task_step i w x w' x' → l' = <[i := x']> l → system_step (w, l) (w', l').
Proof. intros Hx Hs ->. by eapply one_task. Qed.

(** [discover_peers]: the server, the revalidation, the startup. *)
Definition initial_tasks (bootnodes : list BootNode.t) : list task :=
  [Server (Ret tt); Revalidation 0 (Ret []); Other (discovery_startup keccak256 udp_addr signer bootnodes)].
Definition initial_world (now : Z) : world := mkWorld (KademliaTable.new local_node_id) None now [] [] 0.
End System.
