(* ===== verification/DiscoverySafety.v ===== *)
(** * Peer discovery: the tasks do not disturb each other

    The revalidation unwraps peers that it looked up thirty seconds before, while the
    server, the startup and the lookups work on the same table.  What the others may do
    to the table ([calm]) keeps the facts that the revalidation relies on ([inv]), so it
    never panics ([safe]), whatever the interleaving. *)

From S2P Require Import Prelude Rlp RlpLaws U256 Codec Effects NetTypes Kademlia KademliaLaws Discv4 Discv4Laws.
From S2P Require Import Discovery DiscoveryRun.

Section Safety.
Context `{Profile} `{Secp256k1Laws SigningKey}.
Variable keccak256 : list Z → list Z.
Hypothesis keccak_array : ∀ x, is_array 32 (keccak256 x).
Variables (udp_addr : SocketAddr) (signer : SigningKey) (local_node_id : list Z).
#[local] Set Default Proof Using "Type*".

Abbreviation get := (KademliaTable.get_by_node_id keccak256).

(** In round [r]: the liveness of an entry is at most [r + 1], and the peers [S], which
    are still to be judged, are in the table with a liveness of at most [r]. *)
Record inv (r : Z) (S : list (list Z)) (t : KademliaTable.t) : Prop := {
  inv_wf : wf_table keccak256 t;
  inv_bound p : entry t p → 0 <= PeerData.liveness p <= r + 1;
  inv_known id : id ∈ S → ∃ p, get id t = Ok (Some p) ∧ PeerData.liveness p <= r
}.
Lemma inv_sub r S S' t : inv r S t → S' ⊆ S → inv r S' t.
Proof. intros [Hw Hb Hk] Hs. split; [done..|]. intros id Hid. apply Hk. by apply Hs. Qed.
Lemma inv_next r S t : inv r S t → inv (r + 1) S t.
Proof.
  intros [Hw Hb Hk]. split; [done| |].
  - intros p Hp. specialize (Hb p Hp). lia.
  - intros id Hid. destruct (Hk id Hid) as (p & Hp & Hl). exists p. split; [done|lia].
Qed.

(** ** The others *)
Definition calm_op {B} (f : KademliaTable.t → pres (B * KademliaTable.t)) : Prop :=
  ∀ r S t, 0 <= r → inv r S t → ∃ b t', f t = Ok (b, t') ∧ inv r S t'.
Fixpoint calm {A} (p : prog A) : Prop :=
  match p with
  | Ret _ | Crash => True
  | Now k => ∀ n, calm (k n)
  | SendTo _ _ k => ∀ r, calm (k r)
  | Lock k | Unlock k | Notify _ _ k => calm k
  | Table f k => calm_op f ∧ ∀ b, calm (k b)
  | Channel k => ∀ c, calm (k c)
  | Receive _ k => ∀ l, calm (k l)
  end.
Lemma calm_bind {A B} (p : prog A) (f : A → prog B) : calm p → (∀ a, calm (f a)) → calm (p ≫= f).
Proof.
  unfold mbind, prog_mbind. intros Hp Hf.
  induction p as [a| |k IH|a b k IH|k IH|k IH|C g k IH|k IH|c l k IH|c k IH]; cbn in *; auto.
  destruct Hp as [Hg Hp]. auto.
Qed.
Lemma calm_for_all {A} (f : A → prog unit) l : (∀ x, calm (f x)) → calm (for_all f l).
Proof. intros Hf. induction l as [|x l IH]; cbn; [done|]. by apply calm_bind. Qed.
Lemma calm_locked {B} (p : prog B) : calm p → calm (locked p).
Proof. intros Hp. apply calm_bind; [done|]. intros _. by apply calm_bind. Qed.
Lemma calm_of_res {E A} (r : res E A) : calm (of_res r).
Proof. by destruct r. Qed.
Lemma calm_now {A} (f : Z → prog A) : (∀ n, calm (f n)) → calm (n ← now; f n).
Proof. done. Qed.

Lemma calm_read {B} (f : KademliaTable.t → pres B) : (∀ t, wf_table keccak256 t → ∃ b, f t = Ok b) → calm (read f).
Proof.
  intros Hf. split; [|done]. intros r S t _ Hi. destruct (Hf t (inv_wf _ _ _ Hi)) as [b Hb]. exists b, t.
  by rewrite Hb.
Qed.
Lemma get_total id t : wf_table keccak256 t → ∃ o, get id t = Ok o.
Proof.
  intros Ht. destruct (bucket_of keccak256 keccak_array t id (KademliaTable.local_node_id t) Ht) as (b & _ & Hb & _).
  unfold KademliaTable.get_by_node_id. rewrite Hb. eauto.
Qed.
(** An assignment that keeps the id and does not raise the liveness. *)
Lemma inv_update r S id f t :
  inv r S t → (∀ p, PeerData.id p = id → PeerData.id (f p) = id) →
  (∀ p, 0 <= PeerData.liveness p → 0 <= PeerData.liveness (f p) <= PeerData.liveness p) →
  ∃ t', KademliaTable.update_peer keccak256 id f t = Ok t' ∧ inv r S t'.
Proof.
  intros [Hw Hb Hk] Hid Hl.
  destruct (update_peer_spec keccak256 keccak_array t id f Hw Hid) as (t' & Hu & Hw' & (o & Ho & Ho') & Hne).
  exists t'. split; [done|]. split; [done| |].
  - intros p Hp. destruct (update_peer_entry _ keccak_array _ _ _ _ _ Hu Hp) as [?|(q & Hq & _ & ->)]; [by apply Hb|].
    specialize (Hb q Hq). specialize (Hl q). lia.
  - intros id' Hid'. destruct (Hk id' Hid') as (p & Hp & Hpl). destruct (decide (id' = id)) as [->|Hx].
    + rewrite Ho in Hp. injection Hp as ->. exists (f p). split; [done|].
      destruct (get_entry _ keccak_array _ _ _ Hw Ho) as [He _]. specialize (Hb p He). specialize (Hl p). lia.
    + exists p. by rewrite Hne.
Qed.
Lemma calm_assign id f :
  (∀ p, PeerData.id p = id → PeerData.id (f p) = id) →
  (∀ p, 0 <= PeerData.liveness p → 0 <= PeerData.liveness (f p) <= PeerData.liveness p) →
  calm (modify (KademliaTable.update_peer keccak256 id f)).
Proof.
  intros Hid Hl. split; [|done]. intros r S t _ Hi. destruct (inv_update r S id f t Hi Hid Hl) as (t' & Hu & Hi').
  exists tt, t'. by rewrite Hu.
Qed.
Lemma inv_insert r S now node t :
  0 <= r → inv r S t → ∃ x t', KademliaTable.insert_node keccak256 now node t = Ok (x, t') ∧ inv r S t'.
Proof.
  intros Hr [Hw Hb Hk]. destruct (insert_node_spec keccak256 keccak_array now node t Hw) as (b & x & t' & Hbk & Hi & Hw' & Hs).
  exists x, t'. split; [done|]. split; [done| |].
  - intros p Hp. destruct (insert_node_entry _ keccak_array _ _ _ _ _ _ Hw Hi Hp) as [?| ->]; [by apply Hb|]. cbn. lia.
  - intros id Hid. destruct (Hk id Hid) as (p & Hp & Hl). exists p. split; [|done].
    destruct (decide (id = Node.node_id node)) as [->|Hne].
    + rewrite (get_in _ keccak_array _ _ _ Hbk) in Hp. injection Hp as Hp.
      rewrite bool_decide_true in Hs; [by destruct Hs as [_ ->]; rewrite (get_in _ keccak_array _ _ _ Hbk), Hp|].
      rewrite ids_app, elem_of_app. left. destruct (decide (Node.node_id node ∈ ids (peers b))) as [|Hn]; [done|].
      by rewrite find_in_None in Hp.
    + destruct (bool_decide _); [by destruct Hs as [_ ->]|]. cbv zeta in Hs.
      destruct (_ =? _); destruct Hs as [_ ->].
      * rewrite <-Hp. by eapply get_set_bucket.
      * rewrite <-Hp. eapply get_set_bucket; [done..|]. intros _. cbn [peers]. rewrite find_in_app, find_in_cons, decide_False by done.
        by destruct (find_in _ _).
Qed.

Lemma calm_insert node : calm (insert_node keccak256 node).
Proof. apply calm_now. intros n. split; [|done]. intros r S t Hr Hi. by apply inv_insert. Qed.
Lemma calm_update_ping id h : calm (update_peer_ping keccak256 id h).
Proof. apply calm_now. intros n. apply calm_assign; [done|]. cbn. lia. Qed.
Lemma calm_get id : calm (get_by_node_id keccak256 id).
Proof. apply calm_read. intros t Ht. by apply get_total. Qed.
Lemma calm_ping a b : calm (ping keccak256 a b signer).
Proof.
  apply calm_now. intros n. apply calm_bind; [apply calm_of_res|]. intros buf. apply calm_bind; [done|]. intros [x|]; [|done].
  destruct (_ =? _); [|done]. apply calm_bind; [apply calm_of_res|done].
Qed.
Lemma calm_request id o : calm (assign keccak256 id (PeerData.set_find_node_request o)).
Proof. apply calm_assign; [done|]. cbn. lia. Qed.
Create HintDb calm.
#[local] Hint Resolve calm_insert calm_update_ping calm_get calm_ping calm_request calm_locked calm_of_res calm_for_all : calm.
#[local] Ltac calm_steps :=
  repeat first
    [ done | solve [auto with calm]
    | simple apply calm_bind; [|intros ?] | progress case_match | apply calm_for_all; intros ? ].

Lemma calm_serve buf from : calm (serve keccak256 udp_addr signer buf from).
Proof.
  unfold serve. destruct (Packet.decode keccak256 buf) as [p| | |]; try done. destruct (Packet.message p) as [m|m|m|m|m|m]; try done.
  - unfold handle_ping, pong. calm_steps.
  - unfold handle_pong. calm_steps. apply calm_locked, calm_now. intros n. apply calm_assign; [done|]. cbn. lia.
  - unfold handle_find_node. calm_steps.
    + apply calm_locked, calm_read. eauto.
    + unfold send_neighbors. calm_steps.
  - unfold handle_neighbors, take_neighbors, insert_neighbor. calm_steps.
Qed.
Lemma calm_startup l : calm (discovery_startup keccak256 udp_addr signer l).
Proof. unfold discovery_startup. calm_steps. Qed.
Lemma calm_open id : calm (open_request keccak256 id).
Proof.
  apply calm_locked. calm_steps. apply calm_assign; [done|]. cbn. lia.
Qed.
#[local] Hint Resolve calm_open : calm.
Lemma calm_lookup target l : ∀ asked queries nodes, calm (lookup_loop keccak256 signer target asked l queries nodes).
Proof.
  induction l as [|node l IH]; intros asked queries nodes; cbn [lookup_loop]; [done|].
  unfold find_node_and_wait_for_response. calm_steps.
Qed.
Lemma calm_recursive fuel target : ∀ asked seen l, calm (recursive_lookup_loop keccak256 signer fuel target asked seen l).
Proof.
  induction fuel as [|fuel IH]; intros asked seen l; cbn [recursive_lookup_loop]; [done|].
  apply calm_bind; [apply calm_lookup|]. intros [[nodes queries] asked']. case_match. case_match; [done|apply IH].
Qed.
Lemma calm_recursive_lookup fuel target : calm (recursive_lookup keccak256 signer fuel target local_node_id).
Proof.
  apply calm_bind; [apply calm_locked, calm_read; eauto|]. intros l. apply calm_recursive.
Qed.

(** ** The revalidation *)
Fixpoint safe {A} (r : Z) (S : list (list Z)) (p : prog A) (Q : Z → list (list Z) → A → Prop) : Prop :=
  match p with
  | Ret a => Q r S a
  | Crash => False
  | Now k => ∀ n, safe r S (k n) Q
  | SendTo _ _ k => ∀ x, safe r S (k x) Q
  | Lock k | Unlock k | Notify _ _ k => safe r S k Q
  | Table f k => ∀ t, inv r S t → ∃ b t' r' S', f t = Ok (b, t') ∧ 0 <= r' ∧ inv r' S' t' ∧ safe r' S' (k b) Q
  | Channel k => ∀ c, safe r S (k c) Q
  | Receive _ k => ∀ l, safe r S (k l) Q
  end.
Lemma safe_bind {A B} (p : prog A) (f : A → prog B) r S Q :
  safe r S p (λ r' S' a, safe r' S' (f a) Q) → safe r S (p ≫= f) Q.
Proof.
  unfold mbind, prog_mbind. revert r S.
  induction p as [a| |k IH|a b k IH|k IH|k IH|C g k IH|k IH|c l k IH|c k IH]; intros r S Hp; cbn in *; auto.
  intros t Ht. destruct (Hp t Ht) as (b & t' & r' & S' & ? & ? & ? & Hs). exists b, t', r', S'. auto.
Qed.
Lemma safe_mono {A} (p : prog A) r S (Q Q' : Z → list (list Z) → A → Prop) :
  safe r S p Q → (∀ r' S' a, Q r' S' a → Q' r' S' a) → safe r S p Q'.
Proof.
  intros Hp HQ. revert r S Hp.
  induction p as [a| |k IH|a b k IH|k IH|k IH|C g k IH|k IH|c l k IH|c k IH]; intros r S Hp; cbn in *; eauto.
  intros t Ht. destruct (Hp t Ht) as (b & t' & r' & S' & ? & ? & ? & Hs). exists b, t', r', S'. eauto.
Qed.
Lemma encode_total m : ∃ buf, Message.encode_with_header keccak256 m signer = Ok buf ∧ 32 <= zlen buf.
Proof.
  destruct (sign_recovers signer (keccak256 (Message.encode_with_type m))) as (sig & rid & Hs & [_ Hb] & _).
  rewrite (encode_signed keccak256 m signer sig rid Hs Hb). eexists. split; [done|].
  set (data := _ ++ Message.encode_with_type m). zlen_simpl. destruct (keccak_array data) as [_ ->].
  pose proof (zlen_nonneg data). lia.
Qed.
Lemma safe_ping a b r S : safe r S (ping keccak256 a b signer) (λ r' S' _, r' = r ∧ S' = S).
Proof.
  unfold ping. apply safe_bind. intros n. cbn [safe]. cbv zeta.
  match goal with |- context [Message.encode_with_header _ ?m _] => destruct (encode_total m) as (buf & -> & Hb) end.
  cbn. intros [x|]; cbn; [|done]. destruct (_ =? _); [|done]. by rewrite slice_ok by lia.
Qed.
Lemma safe_update_ping id h r S : 0 <= r → safe r S (update_peer_ping keccak256 id h) (λ r' S' _, r' = r ∧ S' = S).
Proof.
  intros Hr n t Ht. destruct (inv_update r S id (PeerData.pinged n h) t Ht) as (t' & Hu & Hi); [done|cbn; lia|].
  exists tt, t', r, S. split_and!; try done. change (KademliaTable.update_peer_ping keccak256 n id h t) with
    (KademliaTable.update_peer keccak256 id (PeerData.pinged n h) t). by rewrite Hu.
Qed.

Lemma inv_judged r id S liveness t :
  inv r (id :: S) t → id ∉ S → 0 <= liveness <= r + 1 →
  ∃ t', KademliaTable.update_peer keccak256 id (PeerData.judge liveness) t = Ok t' ∧ inv r S t'.
Proof.
  intros [Hw Hb Hk] Hid Hl.
  destruct (update_peer_spec keccak256 keccak_array t id (PeerData.judge liveness) Hw ltac:(done)) as (t' & Hu & Hw' & _ & Hne).
  exists t'. split; [done|]. split; [done| |].
  - intros q Hq. destruct (update_peer_entry _ keccak_array _ _ _ _ _ Hu Hq) as [?|(x & _ & _ & ->)]; [by apply Hb|done].
  - intros id' Hid'. destruct (Hk id' ltac:(by right)) as (q & Hq & Hql). exists q. rewrite Hne; [done|]. by intros ->.
Qed.
Lemma inv_replace r id S t :
  inv r S t → id ∉ S → ∃ o t', KademliaTable.replace_peer keccak256 id t = Ok (o, t') ∧ inv r S t'.
Proof.
  intros [Hw Hb Hk] Hid. destruct (replace_peer_spec keccak256 keccak_array id t Hw) as (o & t' & Hr & Hw' & _ & Ho & Hne).
  exists o, t'. split; [done|]. split; [done| |].
  - intros p Hp. by apply Hb, (replace_peer_entry _ keccak_array _ _ _ _ _ Hr).
  - intros id' Hid'. destruct (Hk id' Hid') as (q & Hq & Hql). exists q. split; [|done]. rewrite <-Hq. apply Hne; [by intros ->|].
    intros x -> ->. destruct Ho as (_ & Ho & _). by rewrite Ho in Hq.
Qed.
Lemma judged_ok p r :
  0 <= PeerData.liveness p <= r → r <= 65534 →
  ∃ p', judged p = Ok p' ∧ 0 <= PeerData.liveness p' <= r + 1.
Proof.
  intros Hl Hr. unfold judged, PeerData.increment_liveness. destruct (PeerData.revalidation p) as [[|]|].
  - rewrite checked_in by lia. eexists. split; [done|]. cbn. lia.
  - eexists. split; [done|]. cbn. split; [apply Z.div_pos; lia|]. apply Z.div_le_upper_bound; lia.
  - eexists. split; [done|]. cbn. lia.
Qed.
Lemma safe_check id S r :
  0 <= r <= 65534 → id ∉ S →
  safe r (id :: S) (check_peer keccak256 udp_addr signer id) (λ r' S' _, r' = r ∧ S' = S).
Proof.
  intros Hr Hid. unfold check_peer. apply safe_bind. cbn [safe lock]. apply safe_bind. unfold get_by_node_id, read. intros t Ht.
  destruct (inv_known _ _ _ Ht id ltac:(by left)) as (p & Hp & Hl).
  exists (Some p), t, r, (id :: S). rewrite Hp. split_and!; [done|lia|done|]. cbn [safe]. apply safe_bind. cbn [safe of_res unwrap].
  destruct (get_entry _ keccak_array _ _ _ (inv_wf _ _ _ Ht) Hp) as [He Hpid]. pose proof (inv_bound _ _ _ Ht p He) as Hb.
  destruct (judged_ok p r) as (p' & -> & Hl'); [lia|lia|]. apply safe_bind. cbn [safe of_res].
  apply safe_bind. unfold assign, modify. intros t1 Ht1.
  destruct (inv_judged r id S _ t1 Ht1 Hid Hl') as (t2 & Hu & Ht2). rewrite Hu.
  exists tt, t2, r, S. split_and!; [done|lia|done|]. cbn [safe]. apply safe_bind. case_match; [|done]. apply safe_bind. intros t3 Ht3.
  destruct (inv_replace r id S t3 Ht3 Hid) as (o & t4 & Hrp & Ht4). exists o, t4, r, S. split_and!; [done|lia|done|]. cbn [safe].
  destruct o as [q|]; [|done]. apply safe_bind. eapply safe_mono; [apply safe_ping|]. intros r' S' h [-> ->].
  eapply safe_mono; [apply safe_update_ping; lia|]. by intros r' S' [] [-> ->].
Qed.
Lemma safe_checks l S r :
  0 <= r <= 65534 → NoDup l → (∀ id, id ∈ l → id ∉ S) →
  safe r (l ++ S) (for_all (check_peer keccak256 udp_addr signer) l) (λ r' S' _, r' = r ∧ S' = S).
Proof.
  intros Hr Hl Hd. revert Hd. induction Hl as [|id l Hid Hl IH]; intros Hd; [done|]. cbn [for_all app].
  apply safe_bind. eapply safe_mono; [apply safe_check; [done|]|].
  - rewrite elem_of_app. intros [?|?]; [done|]. by apply (Hd id ltac:(by left)).
  - intros r' S' [] [-> ->]. apply IH. intros x Hx. apply Hd. by right.
Qed.
Lemma safe_ping_peers l r S : ∀ pinged,
  0 <= r → NoDup pinged → (∀ p, p ∈ l → PeerData.id p ∈ S) → pinged ⊆ S →
  safe r S (ping_peers keccak256 udp_addr signer pinged l) (λ r' S' a, r' = r ∧ S' = S ∧ NoDup a ∧ a ⊆ S).
Proof.
  induction l as [|p l IH]; intros pinged Hr Hn Hl Hs; [done|]. cbn [ping_peers].
  apply safe_bind. eapply safe_mono; [apply safe_ping|]. intros r' S' h [-> ->].
  apply safe_bind. unfold locked. apply safe_bind. cbn [safe lock]. apply safe_bind.
  unfold update_peer_ping_with_revalidation. apply safe_bind. intros n. cbn [safe]. unfold modify. intros t Ht.
  destruct (inv_update r S (PeerData.id p) (λ p, PeerData.set_revalidation (Some false) (PeerData.pinged n h p)) t Ht)
    as (t' & Hu & Ht'); [done|cbn; lia|].
  unfold KademliaTable.update_peer_ping_with_revalidation. rewrite Hu. exists tt, t', r, S.
  split_and!; [done|lia|done|]. cbn. pose proof (Hl p ltac:(by left)) as Hp. apply IH; [done|..].
  - case_bool_decide; [done|]. by apply NoDup_snoc.
  - intros q Hq. apply Hl. by right.
  - case_bool_decide; [done|]. intros x [?| ->%list_elem_of_singleton]%elem_of_app; auto.
Qed.
Lemma peer_known t p :
  wf_table keccak256 t → p ∈ KademliaTable.all_peers t → entry t p ∧ ∃ q, get (PeerData.id p) t = Ok (Some q).
Proof.
  intros Ht Hp. unfold KademliaTable.all_peers in Hp. apply list_elem_of_In, in_concat in Hp as (l & Hl%list_elem_of_In & Hp%list_elem_of_In).
  apply list_elem_of_fmap in Hl as (b & -> & (i & Hi)%list_elem_of_lookup_1).
  destruct (each_bucket _ _ Ht i b Hi) as [_ _ _ Hf _]. rewrite Forall_forall in Hf.
  assert (p ∈ peers b ++ replacements b) as Hpb by (apply elem_of_app; by left). split; [by exists i, b|].
  rewrite (get_in keccak256 keccak_array t (PeerData.id p) b) by (by rewrite (Hf p Hpb), Nat2Z.id).
  unfold find_in. destruct (find_peer_spec (PeerData.id p) (peers b)) as [(j & q & -> & _)|[_ Hn]]; [by exists q|].
  destruct Hn. apply elem_of_ids. eauto.
Qed.
Lemma inv_selected r l t :
  inv r [] t → selects 3 l (KademliaTable.all_peers t) → inv (r + 1) (map PeerData.id l) t.
Proof.
  intros [Hw Hb _] [_ (others & Hperm & _)]. split; [done| |].
  - intros p Hp. specialize (Hb p Hp). lia.
  - intros id (p & -> & Hp)%list_elem_of_fmap.
    destruct (peer_known t p Hw) as [_ [q Hq]]; [rewrite <-Hperm; apply elem_of_app; by left|].
    exists q. split; [done|]. destruct (get_entry _ keccak_array _ _ _ Hw Hq) as [He _]. specialize (Hb q He). lia.
Qed.
Lemma safe_revalidate prev r :
  0 <= r <= 65534 → NoDup prev →
  safe r prev (revalidate keccak256 udp_addr signer prev) (λ r' S' a, r' = r + 1 ∧ NoDup a ∧ a ⊆ S').
Proof.
  intros Hr Hn. unfold revalidate. apply safe_bind. eapply safe_mono.
  { rewrite <-(app_nil_r prev) at 1. apply safe_checks; [done|done|]. by intros ? ? ?%not_elem_of_nil. }
  intros r' S' [] [-> ->]. apply safe_bind. unfold locked. apply safe_bind. cbn [safe lock]. apply safe_bind.
  unfold read. intros t Ht. unfold KademliaTable.get_least_recently_pinged_peers.
  destruct (least_recent_loop_ok 3 (KademliaTable.all_peers t) [] []) as (l & Hl & Hs); [done| |].
  { split; [done|]. exists []. split; [done|]. by intros ? ? ?%not_elem_of_nil. }
  rewrite Hl. exists l, t, (r + 1), (map PeerData.id l). split_and!; [done|lia|by apply inv_selected|]. cbn [safe].
  apply safe_bind. cbn [safe unlock]. eapply safe_mono; [apply safe_ping_peers; [lia|constructor|..]|].
  - intros p Hp. by apply list_elem_of_fmap_2.
  - by intros ? ?%not_elem_of_nil.
  - intros r' S' a (-> & -> & ? & ?). done.
Qed.

(** ** Steps *)
Lemma calm_step {A} i w (p : prog A) w' p' :
  step i w p w' p' → calm p → calm p' ∧ ∀ r S, 0 <= r → inv r S (table w) → inv r S (table w').
Proof.
  intros Hs. destruct Hs as [w k|w a b k x|w k Hh|w k Hh|w B f k b t Hh Hf|w B f k Hh Hf|w k|w c l k|w c k l|w Hh];
    cbn; intros Hc; try (split; [by auto|done]).
  destruct Hc as [Hop Hc]. split; [done|]. intros r S Hr Hi. destruct (Hop r S _ Hr Hi) as (b' & t' & Hf' & Hi').
  rewrite Hf in Hf'. by injection Hf' as -> ->.
Qed.
Lemma safe_step {A} i w (p : prog A) w' p' r S Q :
  step i w p w' p' → 0 <= r → inv r S (table w) → safe r S p Q →
  ∃ r' S', 0 <= r' ∧ inv r' S' (table w') ∧ safe r' S' p' Q.
Proof.
  intros Hs Hr. destruct Hs as [w k|w a b k x|w k Hh|w k Hh|w B f k b t Hh Hf|w B f k Hh Hf|w k|w c l k|w c k l|w Hh];
    cbn; intros Hi Hp; try (exists r, S; by auto); try done.
  - destruct (Hp _ Hi) as (b' & t' & r' & S' & Hf' & Hr' & Hi' & Hsf). rewrite Hf in Hf'. injection Hf' as -> ->. eauto.
  - destruct (Hp _ Hi) as (b' & t' & r' & S' & Hf' & _). by rewrite Hf in Hf'.
Qed.

(** The revalidation is the second task, the others are calm. *)
Definition good_tasks (l : list task) : Prop :=
  ∀ i x, l !! i = Some x →
    match x with Server p => calm p | Revalidation _ _ => i = 1%nat | Other p => calm p end.
Definition good_system (s : world * list task) : Prop :=
  good_tasks s.2 ∧
  ∃ n p, s.2 !! 1%nat = Some (Revalidation n p) ∧ 0 <= n ∧
    (n <= 65535 → ∃ r S, 0 <= r ∧ inv r S (table s.1) ∧ safe r S p (λ r' S' a, r' = n ∧ NoDup a ∧ a ⊆ S')).
Lemma initial_good now bootnodes :
  good_system (initial_world local_node_id now, initial_tasks keccak256 udp_addr signer bootnodes).
Proof.
  split.
  - intros [|[|[|i]]] x Hx; cbn in Hx; simplify_eq; [done|done|apply calm_startup].
  - exists 0, (Ret []). split_and!; [done|done|]. intros _. exists 0, []. split_and!; [done| |].
    + split; [by apply new_table_wf| |by intros ? ?%not_elem_of_nil].
      intros p (i & b & [-> _]%lookup_replicate_1 & Hp%not_elem_of_nil). done.
    + cbn. split_and!; [done|constructor|done].
Qed.
Lemma good_insert l i x y :
  good_tasks l → l !! i = Some x →
  match y with Server p => calm p | Revalidation _ _ => i = 1%nat | Other p => calm p end → good_tasks (<[i := y]> l).
Proof.
  intros Hg Hi Hy j z Hj. apply list_lookup_insert_Some in Hj as [(<- & <- & _)|[_ Hj]]; [done|by eapply Hg].
Qed.
(** A step of a task that is not the revalidation. *)
Lemma others_good w w' l i x y n p :
  good_system (w, l) → l !! 1%nat = Some (Revalidation n p) → l !! i = Some x →
  (∀ m q, x ≠ Revalidation m q) → match y with Server p => calm p | Revalidation _ _ => False | Other p => calm p end →
  (∀ r S, 0 <= r → inv r S (table w) → inv r S (table w')) → good_system (w', <[i := y]> l).
Proof.
  intros [Hg (n' & p' & Hp' & Hn & Hs)] Hp Hx Hne Hy Hw. cbn in *. split.
  - eapply good_insert; [done..|]. by destruct y.
  - exists n', p'. cbn. rewrite list_lookup_insert_ne by (intros ->; rewrite Hp in Hx; simplify_eq; by eapply Hne).
    split_and!; [done|done|]. intros Hle. destruct (Hs Hle) as (r & S & ? & ? & ?). exists r, S. auto.
Qed.
Lemma system_step_good s s' :
  system_step keccak256 udp_addr signer local_node_id s s' → good_system s → good_system s'.
Proof.
  intros Hs Hgood. pose proof Hgood as [Hg (n & p & Hp & Hn & Hi)].
  destruct Hs as [i w l x w' x' Hx Hs|w l m Hm|w l fuel target]; cbn in *.
  - pose proof (Hg i x Hx) as Hgx.
    destruct Hs as [w q w' q' Hst|w buf from|w m q w' q' Hst|w m pinged order Ho|A w q w' q' Hst].
    + destruct (calm_step _ _ _ _ _ Hst Hgx). by eapply others_good.
    + eapply others_good; try done. apply calm_serve.
    + subst i. rewrite Hp in Hx. injection Hx as -> ->. split; [by eapply good_insert|]. exists m, q'. cbn.
      split_and!; [apply list_lookup_insert_eq; by eapply lookup_lt_Some|done|]. intros Hle.
      destruct (Hi Hle) as (r & S & Hr & Hinv & Hsafe). by eapply safe_step.
    + subst i. rewrite Hp in Hx. injection Hx as -> ->. split; [by eapply good_insert|]. eexists (m + 1), _. cbn.
      split_and!; [apply list_lookup_insert_eq; by eapply lookup_lt_Some|lia|]. intros Hle.
      destruct (Hi ltac:(lia)) as (r & S & Hr & Hinv & -> & Hnd & Hsub). exists m, order. split_and!; [done| |].
      * eapply inv_sub; [done|]. intros id Hid. apply Hsub. by rewrite <-Ho.
      * apply safe_revalidate; [lia|]. by rewrite Ho.
    + destruct (calm_step _ _ _ _ _ Hst Hgx). by eapply others_good.
  - split; [done|]. by exists n, p.
  - split.
    + intros i x Hx. cbn in Hx. apply lookup_app_Some in Hx as [Hx|[_ Hx]]; [by apply Hg|].
      apply list_lookup_singleton_Some in Hx as [_ <-]. apply calm_recursive_lookup.
    + exists n, p. cbn. rewrite lookup_app_l by (by eapply lookup_lt_Some). done.
Qed.
End Safety.

(** C24: whatever the interleaving of the server, the startup, the lookups and the
    revalidation, and whatever arrives from the network, the [unwrap] of a peer that was
    pinged in the round before never fails and the revalidation does not panic, as long
    as its counters fit: in the first 65535 rounds. *)
Theorem revalidation_never_panics (P : Profile) (SigningKey : Type) (C : Secp256k1 SigningKey)
    (L : Secp256k1Laws SigningKey) (keccak256 : list Z → list Z) (udp_addr : SocketAddr) (signer : SigningKey)
    (local_node_id : list Z) (bootnodes : list BootNode.t) (start : Z) (w : world) (l : list task)
    (i : nat) (rounds : Z) (p : prog (list (list Z))) :
  (∀ x, is_array 32 (keccak256 x)) →
  rtc (system_step keccak256 udp_addr signer local_node_id)
    (initial_world local_node_id start, initial_tasks keccak256 udp_addr signer bootnodes) (w, l) →
  l !! i = Some (Revalidation rounds p) → rounds <= 65535 → p ≠ Crash.
Proof.
  intros Hk Hrtc Hi Hr.
  assert (good_system keccak256 (w, l)) as [Hg (n & q & Hq & _ & Hs)].
  { pose proof (initial_good keccak256 Hk udp_addr signer local_node_id start bootnodes) as Hgood. revert Hgood Hrtc.
    generalize (initial_world local_node_id start, initial_tasks keccak256 udp_addr signer bootnodes).
    intros s Hgood Hrtc. induction Hrtc as [|s1 s2 s3 Hst _ IH]; [done|]. by eapply IH, system_step_good. }
  cbn in *. pose proof (Hg _ _ Hi) as ->. rewrite Hi in Hq. injection Hq as <- <-.
  destruct (Hs Hr) as (r & S & _ & _ & Hsafe). by intros ->.
Qed.

(** The revalidation in its first round, after the server has taken a datagram. *)
Lemma revalidation_never_panics_witness :
  let addr : SocketAddr := (V4 [10; 0; 0; 1], 30303) in
  revalidate (H:=dev_profile) toy_hash addr true [] ≠ Crash.
Proof.
  intros addr.
  refine (revalidation_never_panics dev_profile bool toy_secp toy_secp_laws toy_hash addr true (replicate 64 1) [] 0
    (initial_world (replicate 64 1) 0)
    [Server (serve (H:=dev_profile) toy_hash addr true [1; 2] addr); Revalidation 1 (revalidate (H:=dev_profile) toy_hash addr true []);
     Other (discovery_startup toy_hash addr true [])] 1 1 _ toy_hash_array _ eq_refl ltac:(lia)).
  eapply rtc_l; [eapply (step_at _ _ _ _ 0); [reflexivity|apply (server_receives _ _ _ 0 _ [1; 2] addr)|reflexivity]|].
  eapply rtc_l; [eapply (step_at _ _ _ _ 1); [reflexivity|by apply (revalidation_tick _ _ _ 1 _ 0 [] [])|reflexivity]|]. reflexivity.
Defined.
