(* ===== verification/DiscoveryLocks.v ===== *)
(** * Peer discovery: the lock of the table

    Every task takes the lock only when it does not hold it, works on the table only
    while it does, and gives it back ([brackets]).  So the task that holds the lock can
    always go on, and the others wait for it only. *)

From S2P Require Import Prelude Rlp RlpLaws U256 Codec Effects NetTypes Kademlia KademliaLaws Discv4 Discv4Laws.
From S2P Require Import Discovery DiscoveryRun.

Section Locks.
Context `{Profile} `{Secp256k1 SigningKey}.
Variable keccak256 : list Z → list Z.
Hypothesis keccak_array : ∀ x, is_array 32 (keccak256 x).
Variables (udp_addr : SocketAddr) (signer : SigningKey) (local_node_id : list Z).
#[local] Set Default Proof Using "Type*".

Definition total_op {B} (f : KademliaTable.t → pres (B * KademliaTable.t)) : Prop :=
  ∀ t, wf_table keccak256 t → ∃ b t', f t = Ok (b, t') ∧ wf_table keccak256 t'.
(** From holding the lock or not to holding it or not at the end. *)
Fixpoint brackets {A} (held : bool) (p : prog A) (post : bool) : Prop :=
  match p with
  | Ret _ => held = post
  | Crash => True
  | Now k => ∀ n, brackets held (k n) post
  | SendTo _ _ k => ∀ r, brackets held (k r) post
  | Lock k => held = false ∧ brackets true k post
  | Unlock k => held = true ∧ brackets false k post
  | Notify _ _ k => brackets held k post
  | Table f k => held = true ∧ total_op f ∧ ∀ b, brackets held (k b) post
  | Channel k => ∀ c, brackets held (k c) post
  | Receive _ k => ∀ l, brackets held (k l) post
  end.
Lemma brackets_bind {A B} held mid post (p : prog A) (f : A → prog B) :
  brackets held p mid → (∀ a, brackets mid (f a) post) → brackets held (p ≫= f) post.
Proof.
  unfold mbind, prog_mbind. intros Hp Hf. revert held Hp.
  induction p as [a| |k IH|a b k IH|k IH|k IH|C g k IH|k IH|c l k IH|c k IH]; cbn; intros held Hp; auto.
  - subst. apply Hf.
  - destruct Hp as [-> Hp]. auto.
  - destruct Hp as [-> Hp]. auto.
  - destruct Hp as (-> & Hg & Hp). auto.
Qed.
(** The most common case: the lock is as before. *)
Lemma brackets_then {A B} held post (p : prog A) (f : A → prog B) :
  brackets held p held → (∀ a, brackets held (f a) post) → brackets held (p ≫= f) post.
Proof. apply brackets_bind. Qed.
Lemma brackets_locked {B} (p : prog B) : brackets true p true → brackets false (locked p) false.
Proof.
  intros Hp. eapply (brackets_bind _ true); [done|]. intros _. eapply (brackets_bind _ true); [exact Hp|]. done.
Qed.
Lemma brackets_of_res {E A} (r : res E A) held : brackets held (of_res r) held.
Proof. by destruct r. Qed.
Lemma brackets_for_all {A} (f : A → prog unit) l held : (∀ x, brackets held (f x) held) → brackets held (for_all f l) held.
Proof. intros Hf. induction l as [|x l IH]; cbn; [done|]. by apply brackets_then. Qed.
Lemma brackets_read {B} (f : KademliaTable.t → pres B) :
  (∀ t, wf_table keccak256 t → ∃ b, f t = Ok b) → brackets true (read f) true.
Proof.
  intros Hf. split_and!; [done| |done]. intros t Ht. destruct (Hf t Ht) as [b Hb]. exists b, t. by rewrite Hb.
Qed.
Lemma brackets_assign id f :
  (∀ p, PeerData.id p = id → PeerData.id (f p) = id) → brackets true (modify (KademliaTable.update_peer keccak256 id f)) true.
Proof.
  intros Hf. split_and!; [done| |done]. intros t Ht.
  destruct (update_peer_wf keccak256 keccak_array t id f Ht Hf) as (t' & Hu & Ht'). exists tt, t'. by rewrite Hu.
Qed.
Lemma brackets_insert node : brackets true (insert_node keccak256 node) true.
Proof.
  intros n. split_and!; [done| |done]. intros t Ht.
  destruct (insert_node_spec keccak256 keccak_array n node t Ht) as (b & r & t' & _ & Hi & Hw & _). by exists r, t'.
Qed.
Lemma brackets_replace id : brackets true (operate (KademliaTable.replace_peer keccak256 id)) true.
Proof.
  split_and!; [done| |done]. intros t Ht.
  destruct (replace_peer_spec keccak256 keccak_array id t Ht) as (o & t' & Hr & Hw & _). by exists o, t'.
Qed.
Lemma brackets_ping_update id h : brackets true (update_peer_ping keccak256 id h) true.
Proof. intros n. by apply brackets_assign. Qed.
Lemma brackets_revalidation_update id h : brackets true (update_peer_ping_with_revalidation keccak256 id h) true.
Proof. intros n. by apply brackets_assign. Qed.
Lemma brackets_answered id : brackets true (pong_answered keccak256 id) true.
Proof. intros n. by apply brackets_assign. Qed.
Lemma brackets_request id o : brackets true (assign keccak256 id (PeerData.set_find_node_request o)) true.
Proof. by apply brackets_assign. Qed.
Lemma brackets_new_request id n c : brackets true (assign keccak256 id (PeerData.new_find_node_request_with_sender n c)) true.
Proof. by apply brackets_assign. Qed.
Lemma brackets_get id : brackets true (get_by_node_id keccak256 id) true.
Proof.
  apply brackets_read. intros t Ht.
  destruct (bucket_of keccak256 keccak_array t id (KademliaTable.local_node_id t) Ht) as (b & _ & Hb & _).
  unfold KademliaTable.get_by_node_id. rewrite Hb. eauto.
Qed.
Lemma brackets_total {B} (f : KademliaTable.t → B) : brackets true (read (λ t, Ok (f t))) true.
Proof. apply brackets_read. eauto. Qed.

Create HintDb brackets.
#[local] Hint Resolve brackets_insert brackets_replace brackets_ping_update brackets_revalidation_update brackets_answered
  brackets_request brackets_new_request brackets_get brackets_total brackets_locked brackets_of_res : brackets.
#[local] Ltac brackets_steps :=
  repeat first
    [ done | solve [auto with brackets]
    | simple apply brackets_then; [|intros ?] | progress case_match | simple apply brackets_for_all; intros ?
    | simple apply brackets_locked ].

Lemma brackets_ping a b held : brackets held (ping keccak256 a b signer) held.
Proof. unfold ping. brackets_steps. Qed.
#[local] Hint Resolve brackets_ping : brackets.
Lemma brackets_serve buf from : brackets false (serve keccak256 udp_addr signer buf from) false.
Proof.
  unfold serve. destruct (Packet.decode keccak256 buf) as [p| | |]; try done. destruct (Packet.message p) as [m|m|m|m|m|m]; try done.
  - unfold handle_ping, pong. brackets_steps.
  - unfold handle_pong. brackets_steps.
  - unfold handle_find_node, send_neighbors. brackets_steps.
  - unfold handle_neighbors. apply brackets_then; [done|]. intros n. case_match; [done|].
    eapply (brackets_bind _ true); [done|]. intros _. unfold take_neighbors, insert_neighbor. brackets_steps.
Qed.
Lemma brackets_startup l : brackets false (discovery_startup keccak256 udp_addr signer l) false.
Proof. unfold discovery_startup. brackets_steps. Qed.
Lemma brackets_check id : brackets false (check_peer keccak256 udp_addr signer id) false.
Proof.
  unfold check_peer. eapply (brackets_bind _ true); [done|]. intros _. brackets_steps. by apply brackets_assign.
Qed.
Lemma brackets_ping_peers l : ∀ pinged, brackets false (ping_peers keccak256 udp_addr signer pinged l) false.
Proof. induction l as [|p l IH]; intros pinged; cbn [ping_peers]; brackets_steps. Qed.
Lemma brackets_revalidate prev : brackets false (revalidate keccak256 udp_addr signer prev) false.
Proof.
  unfold revalidate. brackets_steps; [apply brackets_check| |apply brackets_ping_peers].
  apply brackets_read. intros t Ht.
  destruct (least_recent_loop_ok 3 (KademliaTable.all_peers t) [] []) as (l & Hl & _); [done| |by exists l].
  split; [done|]. exists []. split; [done|]. by intros ? ? ?%not_elem_of_nil.
Qed.
Lemma brackets_lookup target l : ∀ asked queries nodes,
  brackets false (lookup_loop keccak256 signer target asked l queries nodes) false.
Proof.
  induction l as [|node l IH]; intros asked queries nodes; cbn [lookup_loop]; [done|].
  unfold open_request, find_node_and_wait_for_response. brackets_steps.
Qed.
Lemma brackets_recursive fuel target : ∀ asked seen l,
  brackets false (recursive_lookup_loop keccak256 signer fuel target asked seen l) false.
Proof.
  induction fuel as [|fuel IH]; intros asked seen l; cbn [recursive_lookup_loop]; [done|].
  apply brackets_then; [apply brackets_lookup|]. intros [[nodes queries] asked']. brackets_steps.
Qed.
Lemma brackets_recursive_lookup fuel target : brackets false (recursive_lookup keccak256 signer fuel target local_node_id) false.
Proof. unfold recursive_lookup. apply brackets_then; [auto with brackets|]. intros l. apply brackets_recursive. Qed.

(** ** Steps *)
Lemma brackets_step {A} i w (p : prog A) w' p' post :
  step i w p w' p' → wf_table keccak256 (table w) → brackets (bool_decide (holder w = Some i)) p post →
  wf_table keccak256 (table w') ∧ brackets (bool_decide (holder w' = Some i)) p' post ∧
  ∀ j, j ≠ i → bool_decide (holder w' = Some j) = bool_decide (holder w = Some j).
Proof.
  intros Hs Hw. destruct Hs as [w k|w a b k x|w k Hh|w k Hh|w B f k b t Hh Hf|w B f k Hh Hf|w k|w c l k|w c k l|w Hh];
    cbn; intros Hp; try (split_and!; [done|by auto|done]).
  - destruct Hp as [_ Hp]. rewrite bool_decide_true by done. split_and!; [done|done|]. intros j Hj. rewrite Hh.
    by rewrite !bool_decide_false by congruence.
  - destruct Hp as [_ Hp]. split_and!; [done|done|]. intros j Hj. rewrite Hh. by rewrite !bool_decide_false by congruence.
  - destruct Hp as (_ & Hf' & Hp). destruct (Hf' _ Hw) as (b' & t' & Hf2 & Hw'). rewrite Hf in Hf2. injection Hf2 as -> ->. done.
  - split_and!; [done|done|]. intros j Hj. rewrite Hh. by rewrite !bool_decide_false by congruence.
Qed.
(** The task that holds the lock is not stuck. *)
Lemma holder_steps {A} i w (p : prog A) :
  wf_table keccak256 (table w) → holder w = Some i → brackets true p false → ∃ w' p', step i w p w' p'.
Proof.
  intros Hw Hh. destruct p as [a| |k|a b k|k|k|C g k|k|c l k|c k]; cbn; intros Hp.
  - done.
  - eexists _, _. by apply step_drop_guard.
  - eexists _, _. apply step_now.
  - eexists _, _. apply (step_send i w a b k None).
  - by destruct Hp.
  - eexists _, _. by apply step_unlock.
  - destruct Hp as (_ & Hf & _). destruct (Hf _ Hw) as (b & t & Hb & _). eexists _, _. by apply (step_table i w C g k b t).
  - eexists _, _. apply step_channel.
  - eexists _, _. apply step_notify.
  - eexists _, _. apply (step_receive i w c k []).
Qed.

Definition task_brackets (held : bool) (x : task) : Prop :=
  match x with Server p => brackets held p false | Revalidation _ p => brackets held p false | Other p => brackets held p false end.
Definition disciplined (s : world * list task) : Prop :=
  wf_table keccak256 (table s.1) ∧ (∀ i, holder s.1 = Some i → (i < length s.2)%nat) ∧
  ∀ i x, s.2 !! i = Some x → task_brackets (bool_decide (holder s.1 = Some i)) x.
Lemma task_step_brackets i w x w' x' :
  task_step keccak256 udp_addr signer i w x w' x' → wf_table keccak256 (table w) →
  task_brackets (bool_decide (holder w = Some i)) x →
  wf_table keccak256 (table w') ∧ task_brackets (bool_decide (holder w' = Some i)) x' ∧
  ∀ j, j ≠ i → bool_decide (holder w' = Some j) = bool_decide (holder w = Some j).
Proof.
  intros Hs Hw. destruct Hs as [w q w' q' Hst|w buf from|w m q w' q' Hst|w m pinged order Ho|A w q w' q' Hst]; cbn; intros Hb.
  - by eapply brackets_step.
  - rewrite Hb. split_and!; [done|apply brackets_serve|done].
  - by eapply brackets_step.
  - rewrite Hb. split_and!; [done|apply brackets_revalidate|done].
  - by eapply brackets_step.
Qed.
Lemma system_step_disciplined s s' :
  system_step keccak256 udp_addr signer local_node_id s s' → disciplined s → disciplined s'.
Proof.
  intros Hs (Hw & Hlen & Hb). destruct Hs as [i w l x w' x' Hx Hs|w l m Hm|w l fuel target]; cbn in *.
  - destruct (task_step_brackets _ _ _ _ _ Hs Hw (Hb i x Hx)) as (Hw' & Hb' & Hother). split; [done|]. cbn. split.
    + intros j Hj. rewrite length_insert. destruct (decide (j = i)) as [->|Hne]; [by eapply lookup_lt_Some|].
      apply Hlen. specialize (Hother j Hne). rewrite (bool_decide_true (holder w' = Some j)) in Hother by done.
      symmetry in Hother. by apply bool_decide_eq_true in Hother.
    + intros j y Hj. apply list_lookup_insert_Some in Hj as [(<- & <- & _)|[Hne Hj]]; [done|].
      rewrite Hother by done. by apply Hb.
  - done.
  - split; [done|]. cbn. split; [intros i Hi; rewrite length_app; specialize (Hlen i Hi); lia|].
    intros i x Hx. apply lookup_app_Some in Hx as [Hx|[Hge Hx]]; [by apply Hb|].
    apply list_lookup_singleton_Some in Hx as [_ <-]. rewrite bool_decide_false; [apply brackets_recursive_lookup|].
    intros Hh. specialize (Hlen i Hh). lia.
Qed.
Lemma initial_disciplined now bootnodes :
  disciplined (initial_world local_node_id now, initial_tasks keccak256 udp_addr signer bootnodes).
Proof.
  split; [by apply new_table_wf|]. split; [done|]. intros i x Hx. rewrite bool_decide_false by done.
  destruct i as [|[|[|i]]]; cbn in Hx; simplify_eq; [done|done|apply brackets_startup].
Qed.
End Locks.

(** C25: in every state that the tasks reach, the table has its invariant, and the task
    that holds its lock, if there is one, can take a step: no task takes the lock twice
    or ends with it, so they never wait for each other for ever. *)
Theorem lock_holder_progresses (P : Profile) (SigningKey : Type) (C : Secp256k1 SigningKey)
    (keccak256 : list Z → list Z) (udp_addr : SocketAddr) (signer : SigningKey)
    (local_node_id : list Z) (bootnodes : list BootNode.t) (start : Z) (w : world) (l : list task) :
  (∀ x, is_array 32 (keccak256 x)) →
  rtc (system_step keccak256 udp_addr signer local_node_id)
    (initial_world local_node_id start, initial_tasks keccak256 udp_addr signer bootnodes) (w, l) →
  wf_table keccak256 (table w) ∧
  ∀ i, holder w = Some i → ∃ x w' x', l !! i = Some x ∧ task_step keccak256 udp_addr signer i w x w' x'.
Proof.
  intros Hk Hrtc. assert (disciplined keccak256 (w, l)) as (Hw & Hlen & Hb).
  { pose proof (initial_disciplined keccak256 Hk udp_addr signer local_node_id start bootnodes) as Hd. revert Hd Hrtc.
    generalize (initial_world local_node_id start, initial_tasks keccak256 udp_addr signer bootnodes).
    intros s Hd Hrtc. induction Hrtc as [|s1 s2 s3 Hst _ IH]; [done|]. by eapply IH, system_step_disciplined. }
  split; [done|]. intros i Hi. cbn in *. destruct (lookup_lt_is_Some_2 l i (Hlen i Hi)) as [x Hx]. exists x.
  specialize (Hb i x Hx). rewrite bool_decide_true in Hb by done.
  destruct x as [p|n p|A p]; destruct (holder_steps keccak256 Hk i w p Hw Hi Hb) as (w' & p' & Hs);
    eexists w', _; (split; [done|]); by constructor.
Qed.

(** The startup has taken the lock. *)
Lemma lock_holder_progresses_witness :
  let addr : SocketAddr := (V4 [10; 0; 0; 1], 30303) in
  let w := with_holder (Some 2%nat) (initial_world (replicate 64 1) 0) in
  wf_table toy_hash (table w) ∧ ∃ (x : task) (w' : world) (x' : task), task_step (H:=dev_profile) toy_hash addr true 2 w x w' x'.
Proof.
  intros addr w. pose (b := BootNode.mk (replicate 64 2) addr). pose (p := discovery_startup toy_hash addr true [b]).
  destruct p as [| | | |k| | | | |] eqn:Ep; try discriminate Ep.
  destruct (lock_holder_progresses dev_profile bool toy_secp toy_hash addr true (replicate 64 1) [b] 0 w
    [Server (Ret tt); Revalidation 0 (Ret []); Other k] toy_hash_array) as [Hw Hp].
  - eapply rtc_l; [|reflexivity]. unfold initial_tasks. fold p. rewrite Ep.
    eapply (step_at _ _ _ _ 2); [reflexivity|by apply other_step, step_lock|reflexivity].
  - destruct (Hp 2%nat eq_refl) as (x & w' & x' & _ & Hs). exact (conj Hw (ex_intro _ x (ex_intro _ w' (ex_intro _ x' Hs)))).
Defined.
