(* ===== verification/DiscoveryLaws.v ===== *)
(** * Peer discovery: what the handlers do

    The handlers run alone: the endpoint proof between two nodes, the answer to a
    request for neighbours, the end of silent peers, and the choice of a lookup. *)

From S2P Require Import Prelude Rlp RlpLaws U256 Codec Effects NetTypes Kademlia KademliaLaws Discv4 Discv4Laws.
From S2P Require Import Discovery DiscoveryRun.

Definition wf_addr (a : SocketAddr) : Prop := is_ip a.1 ∧ is_uint 16 a.2.
(** A network that takes every datagram. *)
Definition sends_all (net : SocketAddr → list Z → option Z) : Prop := ∀ a buf, net a buf = Some (zlen buf).

Section Laws.
Context `{Profile} `{Secp256k1Laws SigningKey}.
Variable keccak256 : list Z → list Z.
Hypothesis keccak_array : ∀ x, is_array 32 (keccak256 x).
Context (net : SocketAddr → list Z → option Z) (arriving : Z → list (list Node.t)) (i : nat).
Hypothesis net_ok : sends_all net.
#[local] Set Default Proof Using "All".
Abbreviation run := (run net arriving i).
Abbreviation get := (KademliaTable.get_by_node_id keccak256).

(** ** Runs of the parts *)
Lemma run_locked {B} (p : prog B) w b w' :
  holder w = None → run p (with_holder (Some i) w) = Done b w' → holder w' = Some i →
  run (locked p) w = Done b (with_holder None w').
Proof.
  intros Hh Hr Hh'. unfold locked. rewrite run_prog_bind. cbn [DiscoveryRun.run lock]. rewrite Hh. cbn [run_then].
  rewrite run_prog_bind, Hr. cbn [run_then]. rewrite run_prog_bind. cbn [DiscoveryRun.run unlock]. by rewrite decide_True.
Qed.
Lemma run_read {B} (f : KademliaTable.t → pres B) w b :
  holder w = Some i → f (table w) = Ok b → run (read f) w = Done b w.
Proof.
  intros Hh Hf. cbn. rewrite decide_True by done. rewrite Hf. cbn. f_equal. by destruct w.
Qed.
Lemma run_modify (f : KademliaTable.t → pres KademliaTable.t) w t :
  holder w = Some i → f (table w) = Ok t → run (modify f) w = Done tt (with_table t w).
Proof. intros Hh Hf. cbn. rewrite decide_True by done. by rewrite Hf. Qed.
Lemma run_operate {B} (f : KademliaTable.t → pres (B * KademliaTable.t)) w b t :
  holder w = Some i → f (table w) = Ok (b, t) → run (operate f) w = Done b (with_table t w).
Proof. intros Hh Hf. cbn. rewrite decide_True by done. by rewrite Hf. Qed.
Lemma run_now {A} (f : Z → prog A) w : run (n ← now; f n) w = run (f (clock w)) w.
Proof. done. Qed.

(** The same for a temporary guard. *)
Lemma run_locked_get id w o :
  holder w = None → get id (table w) = Ok o → run (locked (get_by_node_id keccak256 id)) w = Done o w.
Proof.
  intros Hh Hg. erewrite run_locked; [|done|by apply run_read|done]. f_equal. destruct w; cbn in *. by subst.
Qed.
Lemma run_locked_update id f w t' :
  holder w = None → KademliaTable.update_peer keccak256 id (f (clock w)) (table w) = Ok t' →
  run (locked (n ← now; modify (KademliaTable.update_peer keccak256 id (f n)))) w = Done tt (with_table t' w).
Proof.
  intros Hh Hu. erewrite run_locked; [|done|rewrite run_now; by apply run_modify|done].
  f_equal. destruct w; cbn in *. by subst.
Qed.

Definition ping_message (now : Z) (from to : SocketAddr) : Message.t :=
  Message.Ping (PingMessage.new (Endpoint.mk from.1 from.2 0) (Endpoint.mk to.1 to.2 0) (get_expiration now 20)).
Definition pong_message (now : Z) (to : SocketAddr) (ping_hash : list Z) : Message.t :=
  Message.Pong (PongMessage.new (Endpoint.mk to.1 to.2 0) ping_hash (get_expiration now 20)).
Lemma run_ping a b k w pkt :
  Message.encode_with_header keccak256 (ping_message (clock w) a b) k = Ok pkt → 32 <= zlen pkt →
  run (ping keccak256 a b k) w = Done (Some (ztake 32 pkt)) (with_sent (b, pkt) w).
Proof.
  intros He Hl. unfold ping. rewrite run_now. unfold ping_message in He. cbv zeta. rewrite He. cbn. rewrite net_ok.
  cbn. rewrite Z.eqb_refl. rewrite slice_ok by lia. cbn. done.
Qed.
Lemma run_pong a h k w pkt :
  Message.encode_with_header keccak256 (pong_message (clock w) a h) k = Ok pkt →
  run (pong keccak256 a h k) w = Done tt (with_sent (a, pkt) w).
Proof. intros He. unfold pong. rewrite run_now. unfold pong_message in He. cbv zeta. by rewrite He. Qed.

(** ** Packets of ours *)
Definition in_time (now : Z) : Prop := 0 <= now < 2 ^ 62.
Lemma packet_of m k :
  wf_message m → few_nodes m →
  ∃ pkt p, Message.encode_with_header keccak256 m k = Ok pkt ∧ Packet.decode keccak256 pkt = Ok p ∧
    Packet.message p = m ∧ Packet.node_id p = zdrop 1 (verifying_key_point k) ∧ Packet.hash p = ztake 32 pkt ∧
    is_array 32 (Packet.hash p) ∧ 32 <= zlen pkt <= MAX_DISC_PACKET_SIZE.
Proof.
  intros Hwf Hfew. pose proof (message_size m Hwf Hfew) as Hs.
  destruct (packet_decodes keccak256 keccak_array m k Hwf) as (pkt & p & ? & ? & ? & ? & ? & ? & Hl); [unfold isize_max; lia|].
  exists pkt, p. unfold MAX_DISC_PACKET_SIZE. pose proof (zlen_nonneg (Message.encode_with_type m)). split_and!; [done..|lia|lia].
Qed.
Lemma ping_wf now a b : in_time now → wf_addr a → wf_addr b → wf_message (ping_message now a b).
Proof.
  intros Ht [Ha1 Ha2] [Hb1 Hb2]. unfold in_time in Ht. cbn. unfold wf_ping, wf_endpoint, get_expiration, is_uint. cbn.
  split_and!; try done; unfold is_uint in *; lia.
Qed.
Lemma pong_wf now a h : in_time now → wf_addr a → is_array 32 h → wf_message (pong_message now a h).
Proof.
  intros Ht [Ha1 Ha2] Hh. unfold in_time in Ht. cbn. unfold wf_pong, wf_endpoint, get_expiration, is_uint. cbn.
  split_and!; try done; unfold is_uint in *; try lia; apply Hh.
Qed.
Lemma not_expired now expiration : in_time now → in_time (expiration - 20) → now <= expiration → is_expired now expiration = false.
Proof.
  unfold in_time, is_expired, as_i64. intros Hn He Hle. rewrite !(proj2 (Z.ltb_lt _ (2 ^ 63))) by lia. by apply Z.ltb_ge.
Qed.

(** ** The ping handler *)
Lemma run_update_ping id h w :
  wf_table keccak256 (table w) → holder w = None → ∃ t',
    run (locked (update_peer_ping keccak256 id h)) w = Done tt (with_table t' w) ∧ wf_table keccak256 t' ∧
    (∃ o, get id (table w) = Ok o ∧ get id t' = Ok (PeerData.pinged (clock w) h <$> o)) ∧
    ∀ id', id' ≠ id → get id' t' = get id' (table w).
Proof.
  intros Hw Hh. destruct (update_peer_spec keccak256 keccak_array (table w) id (PeerData.pinged (clock w) h) Hw)
    as (t' & Hu & Hw' & Ho & Hne); [done|]. exists t'. split_and!; [|done..].
  apply (run_locked_update id (λ n, PeerData.pinged n h)); done.
Qed.
Lemma run_insert_node node w :
  wf_table keccak256 (table w) → holder w = None → ∃ r t',
    run (locked (insert_node keccak256 node)) w = Done r (with_table t' w) ∧ wf_table keccak256 t' ∧
    KademliaTable.insert_node keccak256 (clock w) node (table w) = Ok (r, t').
Proof.
  intros Hw Hh. destruct (insert_node_spec keccak256 keccak_array (clock w) node (table w) Hw) as (b & r & t' & _ & Hi & Hw' & _).
  exists r, t'. split_and!; [|done..]. erewrite run_locked; [|done|unfold insert_node; rewrite run_now; by apply run_operate|done].
  f_equal. destruct w; cbn in *. by subst.
Qed.

(** A ping that is not expired is answered before anything else is done. *)
Lemma run_handle_ping addr from k w p msg :
  wf_table keccak256 (table w) → holder w = None → in_time (clock w) → wf_addr addr → wf_addr from →
  is_array 32 (Packet.hash p) → is_expired (clock w) (PingMessage.expiration msg) = false →
  (∀ q, get (Packet.node_id p) (table w) = Ok (Some q) → PeerData.last_ping q <= clock w) →
  ∃ w' pkt rest, run (handle_ping keccak256 addr k from p msg) w = Done tt w' ∧
    Message.encode_with_header keccak256 (pong_message (clock w) from (Packet.hash p)) k = Ok pkt ∧
    sent w' = sent w ++ (from, pkt) :: rest.
Proof.
  intros Hw Hh Ht Ha Hf Hhash Hexp Hlast. unfold handle_ping. rewrite run_now, Hexp. cbv zeta.
  destruct (packet_of (pong_message (clock w) from (Packet.hash p)) k) as (pkt & _ & Hpkt & _); [by apply pong_wf|done|].
  destruct (packet_of (ping_message (clock w) addr from) k) as (pkt2 & _ & Hpkt2 & _ & _ & _ & _ & _ & Hl2 & _); [by apply ping_wf|done|].
  rewrite run_prog_bind, (run_pong from (Packet.hash p) k w pkt Hpkt). cbn [run_then].
  set (w1 := with_sent (from, pkt) w).
  assert (∃ o, get (Packet.node_id p) (table w) = Ok o) as [o Ho].
  { destruct (bucket_of keccak256 keccak_array (table w) (Packet.node_id p) (KademliaTable.local_node_id (table w)) Hw) as (b & _ & Hb & _).
    unfold KademliaTable.get_by_node_id. rewrite Hb. eauto. }
  rewrite run_prog_bind, (run_locked_get _ w1 o Hh Ho). cbn [run_then]. destruct o as [q|].
  - rewrite run_now. unfold time_since_in_hs. rewrite (proj2 (Z.ltb_ge _ _)) by (by apply Hlast). cbn [of_res].
    rewrite run_prog_bind. cbn [DiscoveryRun.run run_then]. destruct (_ <=? _).
    + rewrite run_prog_bind, (run_ping addr from k w1 pkt2) by (done || lia). cbn [run_then].
      destruct (run_update_ping (PeerData.id q) (Some (ztake 32 pkt2)) (with_sent (from, pkt2) w1) Hw Hh) as (t' & -> & _).
      eexists _, pkt, [(from, pkt2)]. split_and!; [done|done|]. cbn. by rewrite <-app_assoc.
    + exists w1, pkt, []. done.
  - destruct (run_insert_node (Node.mk from.1 from.2 0 (Packet.node_id p)) w1 Hw Hh) as ([o ins] & t1 & Hr & Hw1 & _).
    rewrite run_prog_bind, Hr. cbn [run_then]. set (w2 := with_table t1 w1).
    rewrite run_prog_bind, (run_ping addr from k w2 pkt2) by (done || lia). cbn [run_then].
    assert (sent (with_sent (from, pkt2) w2) = sent w ++ (from, pkt) :: [(from, pkt2)]) as Hsent by (cbn; by rewrite <-app_assoc).
    destruct ins; [|by eexists _, pkt, _]. destruct o as [q|]; [|by eexists _, pkt, _].
    destruct (run_update_ping (PeerData.id q) (Some (ztake 32 pkt2)) (with_sent (from, pkt2) w2) Hw1 Hh) as (t' & -> & _).
    by eexists _, pkt, _.
Qed.

(** The answer to the ping whose hash is remembered proves the peer. *)
Lemma run_handle_pong w p msg q :
  wf_table keccak256 (table w) → holder w = None → is_expired (clock w) (PongMessage.expiration msg) = false →
  get (Packet.node_id p) (table w) = Ok (Some q) → PeerData.last_ping_hash q = Some (PongMessage.ping_hash msg) →
  ∃ t', run (handle_pong keccak256 p msg) w = Done tt (with_table t' w) ∧
    get (Packet.node_id p) t' = Ok (Some (PeerData.answered (clock w) q)).
Proof.
  intros Hw Hh Hexp Hq Hhash. unfold handle_pong. rewrite run_now, Hexp, run_prog_bind, (run_locked_get _ w _ Hh Hq).
  cbn [run_then]. rewrite Hhash, bool_decide_true by done.
  destruct (get_entry _ keccak_array _ _ _ Hw Hq) as [_ Hid]. rewrite Hid.
  destruct (update_peer_spec keccak256 keccak_array (table w) (Packet.node_id p) (PeerData.answered (clock w)) Hw)
    as (t' & Hu & _ & (o & Ho & Ho') & _); [done|]. exists t'. rewrite Ho in Hq. injection Hq as ->. split; [|done].
  by apply (run_locked_update (Packet.node_id p) PeerData.answered).
Qed.

(** The startup of a node that knows one other. *)
Lemma run_startup addr k b local now pkt :
  Message.encode_with_header keccak256 (ping_message now addr (BootNode.socket_address b)) k = Ok pkt → 32 <= zlen pkt →
  ∃ t' q, run (discovery_startup keccak256 addr k [b]) (initial_world local now) =
      Done tt (with_table t' (with_sent (BootNode.socket_address b, pkt) (initial_world local now))) ∧
    wf_table keccak256 t' ∧ get (BootNode.node_id b) t' = Ok (Some q) ∧ PeerData.last_ping_hash q = Some (ztake 32 pkt).
Proof.
  intros He Hl. set (w := initial_world local now).
  assert (wf_table keccak256 (table w)) as Hw by (by apply new_table_wf). unfold discovery_startup. cbn [for_all].
  destruct (BootNode.socket_address b) as [ip port] eqn:Eb. rewrite !run_prog_bind. set (node := Node.mk ip port 0 (BootNode.node_id b)).
  destruct (run_insert_node node w Hw eq_refl) as (r & t1 & -> & Hw1 & Hi). cbn [run_then].
  assert (get (BootNode.node_id b) t1 = Ok (Some (PeerData.new node now 0 false))) as Hg.
  { destruct (insert_node_spec keccak256 keccak_array (clock w) node (table w) Hw) as (bk & r' & t2 & Hb & Hi2 & _ & Hs).
    rewrite Hi in Hi2. injection Hi2 as <- <-. change (Node.node_id node) with (BootNode.node_id b) in *.
    pose proof Hb as Hb2. apply lookup_replicate_1 in Hb2 as [-> _]. cbv zeta in Hs.
    rewrite bool_decide_false in Hs by (apply not_elem_of_nil). destruct Hs as [_ ->].
    erewrite get_same_bucket by done. cbn [peers app]. by rewrite find_in_cons, decide_True. }
  rewrite run_prog_bind. set (w1 := with_table t1 w). rewrite (run_ping addr (ip, port) k w1 pkt) by done. cbn [run_then].
  destruct (run_update_ping (BootNode.node_id b) (Some (ztake 32 pkt)) (with_sent ((ip, port) : SocketAddr, pkt) w1) Hw1 eq_refl)
    as (t' & -> & Hw' & (o & Ho & Ho') & _). cbn in Ho. rewrite Hg in Ho. injection Ho as <-. cbn [run_then].
  eexists t', _. split_and!; [done|done|exact Ho'|done].
Qed.
End Laws.

(** C26: the endpoint proof.  A node that starts with one bootnode pings it; the bootnode,
    whatever its table, answers the ping; and the answer makes it a proven peer of the
    first, with the time of the answer: as long as the datagrams arrive before they
    expire, and the clocks are those of this age. *)
Theorem endpoint_proof (P : Profile) (SigningKey : Type) (C : Secp256k1 SigningKey) (L : Secp256k1Laws SigningKey)
    (keccak256 : list Z → list Z) (net : SocketAddr → list Z → option Z) (arriving : Z → list (list Node.t))
    (ka kb : SigningKey) (ida idb : list Z) (addr_a addr_b : SocketAddr) (start later : Z) (wb : world) :
  (∀ x, is_array 32 (keccak256 x)) → sends_all net → wf_addr addr_a → wf_addr addr_b →
  node_id_from_signing_key ka = Ok ida → node_id_from_signing_key kb = Ok idb →
  in_time start → in_time (clock wb) → in_time later → clock wb <= start + 20 → later <= clock wb + 20 →
  wf_table keccak256 (table wb) → holder wb = None →
  (∀ q, KademliaTable.get_by_node_id keccak256 ida (table wb) = Ok (Some q) → PeerData.last_ping q <= clock wb) →
  ∃ wa ping wb' pong rest wa' q,
    run net arriving 0 (discovery_startup keccak256 addr_a ka [BootNode.mk idb addr_b]) (initial_world ida start) = Done tt wa ∧
    sent wa = [(addr_b, ping)] ∧
    run net arriving 0 (serve keccak256 addr_b kb ping addr_a) wb = Done tt wb' ∧
    sent wb' = sent wb ++ (addr_a, pong) :: rest ∧
    run net arriving 0 (serve keccak256 addr_a ka pong addr_b) (with_clock later wa) = Done tt wa' ∧
    KademliaTable.get_by_node_id keccak256 idb (table wa') = Ok (Some q) ∧
    PeerData.is_proven q = true ∧ PeerData.last_pong q = later.
Proof.
  intros Hk Hnet Ha Hb Hida Hidb Hs Hc Hl Hx1 Hx2 Hw Hh Hlast.
  rewrite node_id_ok in Hida, Hidb. injection Hida as Hida. injection Hidb as Hidb.
  destruct (packet_of keccak256 Hk net arriving 0 Hnet (ping_message start addr_a addr_b) ka)
    as (ping & p & He & Hd & Hm & Hid & Hhash & Harr & Hlen & _); [by apply (ping_wf keccak256 Hk net arriving 0 Hnet)|done|].
  destruct (run_startup keccak256 Hk net arriving 0 Hnet addr_a ka (BootNode.mk idb addr_b) ida start ping He Hlen)
    as (ta & q & Hra & Hwa & Hq & Hqh).
  destruct (run_handle_ping keccak256 Hk net arriving 0 Hnet addr_b addr_a kb wb p
    (PingMessage.new (Endpoint.mk addr_a.1 addr_a.2 0) (Endpoint.mk addr_b.1 addr_b.2 0) (get_expiration start 20)))
    as (wb' & pong & rest & Hrb & Hpong & Hsent); [done..| |by rewrite Hid, Hida|].
  { apply (not_expired keccak256 Hk net arriving 0 Hnet); [done| |done]. unfold get_expiration. cbn. by replace (start + 20 - 20) with start by lia. }
  destruct (packet_of keccak256 Hk net arriving 0 Hnet (pong_message (clock wb) addr_a (Packet.hash p)) kb)
    as (pong' & p' & He' & Hd' & Hm' & Hid' & _); [by apply (pong_wf keccak256 Hk net arriving 0 Hnet)|done|].
  rewrite Hpong in He'. injection He' as <-.
  set (wa := with_table ta (with_sent (addr_b, ping) (initial_world ida start))) in *.
  destruct (run_handle_pong keccak256 Hk net arriving 0 Hnet (with_clock later wa) p'
    (PongMessage.new (Endpoint.mk addr_a.1 addr_a.2 0) (Packet.hash p) (get_expiration (clock wb) 20)) q)
    as (t' & Hrp & Hg'); [done|done| |by rewrite Hid', Hidb|by rewrite Hqh, Hhash|].
  { apply (not_expired keccak256 Hk net arriving 0 Hnet); [done| |done]. unfold get_expiration. cbn.
    by replace (clock wb + 20 - 20) with (clock wb) by lia. }
  exists wa, ping, wb', pong, rest, (with_table t' (with_clock later wa)), (PeerData.answered later q).
  rewrite Hid', Hidb in Hg'. split_and!; [exact Hra|done| |done| |exact Hg'|done|done].
  - unfold serve. by rewrite Hd, Hm.
  - unfold serve. by rewrite Hd', Hm'.
Qed.

(** ** Neighbours *)
Lemma chunks_spec {A} n (l : list A) :
  (0 < n)%nat → concat (chunks n l) = l ∧ Forall (λ c, (0 < length c <= n)%nat) (chunks n l).
Proof.
  intros Hn. unfold chunks. assert (length l <= length l)%nat as Hf by lia. revert Hf. generalize (length l) at 2 3 4 as fuel.
  intros fuel. revert l. induction fuel as [|fuel IH]; intros [|x l] Hf; cbn [chunks_fuel]; [by split..|cbn in Hf; lia|by split|].
  destruct (IH (drop n (x :: l))) as [Hc Hl]; [rewrite length_drop; cbn in *; lia|]. split.
  - cbn [concat]. rewrite Hc. apply take_drop.
  - constructor; [|done]. rewrite length_take. cbn. lia.
Qed.

(** The datagrams carry the lists of nodes, in packets that fit. *)
Definition carries `{Profile} `{Secp256k1} (keccak256 : list Z → list Z) (d : list Z) (nodes : list Node.t) : Prop :=
  zlen d <= MAX_DISC_PACKET_SIZE ∧
  ∃ p expiration, Packet.decode keccak256 d = Ok p ∧ Packet.message p = Message.Neighbors (NeighborsMessage.new nodes expiration).

Section Neighbours.
Context `{Profile} `{Secp256k1Laws SigningKey}.
Variable keccak256 : list Z → list Z.
Hypothesis keccak_array : ∀ x, is_array 32 (keccak256 x).
Context (net : SocketAddr → list Z → option Z) (arriving : Z → list (list Node.t)) (i : nat).
Hypothesis net_ok : sends_all net.
#[local] Set Default Proof Using "All".

Lemma run_send_neighbors from expiration k l : ∀ w,
  is_uint 64 expiration → Forall (λ c, Forall wf_node c ∧ zlen c <= 4) l →
  ∃ w' ds, run net arriving i (for_all (send_neighbors keccak256 k from expiration) l) w = Done tt w' ∧
    table w' = table w ∧ holder w' = holder w ∧ sent w' = sent w ++ map (pair from) ds ∧ Forall2 (carries keccak256) ds l.
Proof.
  intros w He Hl. revert w. induction Hl as [|c l [Hc Hlen] Hl IH]; intros w.
  { exists w, []. cbn. by rewrite app_nil_r. }
  cbn [for_all]. rewrite run_prog_bind. set (m := Message.Neighbors (NeighborsMessage.new c expiration)).
  destruct (packet_of keccak256 keccak_array net arriving i net_ok m k) as (d & p & Hd & Hp & Hm & _ & _ & _ & Hs); [done|done|].
  assert (run net arriving i (send_neighbors keccak256 k from expiration c) w = Done tt (with_sent (from, d) w)) as ->.
  { unfold send_neighbors. cbv zeta. fold m. rewrite Hd. cbn. by rewrite net_ok. }
  cbn [run_then].
  destruct (IH (with_sent (from, d) w)) as (w' & ds & -> & Ht & Hh & Hsent & Hall). exists w', (d :: ds).
  split_and!; [done|done|done| |].
  - rewrite Hsent. cbn. by rewrite <-app_assoc.
  - constructor; [|done]. split; [lia|]. by exists p, expiration.
Qed.
Lemma closest_wf id t :
  (∀ p, entry t p → wf_node (PeerData.node p)) → Forall wf_node (KademliaTable.get_closest_nodes keccak256 id t).
Proof.
  intros Ht. apply Forall_forall. intros n Hn.
  destruct (closest_fold keccak256 id (KademliaTable.all_peers t) [] []) as (_ & Hin & _); [done|by intros ? ?%not_elem_of_nil|done|].
  apply list_elem_of_fmap in Hn as (x & -> & Hx). apply Hin in Hx. cbn [app] in Hx. apply list_elem_of_fmap in Hx as (p & -> & Hp).
  apply Ht. unfold KademliaTable.all_peers in Hp. apply list_elem_of_In, in_concat in Hp as (l & Hl%list_elem_of_In & Hp%list_elem_of_In).
  apply list_elem_of_fmap in Hl as (b & -> & (j & Hj)%list_elem_of_lookup_1). exists j, b. split; [done|].
  apply elem_of_app. by left.
Qed.
End Neighbours.

(** A request for neighbours is answered to a proven peer only, with the nodes that
    [get_closest_nodes] chooses, four to a packet; every packet fits the maximum size
    and decodes to its nodes.  To others nothing is sent.  The table is unchanged. *)
Theorem find_node_answered (P : Profile) (SigningKey : Type) (C : Secp256k1 SigningKey) (L : Secp256k1Laws SigningKey)
    (keccak256 : list Z → list Z) (net : SocketAddr → list Z → option Z) (arriving : Z → list (list Node.t)) (i : nat)
    (addr from : SocketAddr) (k : SigningKey) (w : world) (buf : list Z) (p : Packet.t) (msg : FindNodeMessage.t)
    (o : option PeerData.t) :
  (∀ x, is_array 32 (keccak256 x)) → sends_all net → in_time (clock w) → holder w = None →
  (∀ q, entry (table w) q → wf_node (PeerData.node q)) →
  Packet.decode keccak256 buf = Ok p → Packet.message p = Message.FindNode msg →
  is_expired (clock w) (FindNodeMessage.expiration msg) = false →
  KademliaTable.get_by_node_id keccak256 (Packet.node_id p) (table w) = Ok o →
  if decide (PeerData.is_proven <$> o = Some true) then
    ∃ w' ds chunked, run net arriving i (serve keccak256 addr k buf from) w = Done tt w' ∧ table w' = table w ∧
      sent w' = sent w ++ map (pair from) ds ∧ Forall2 (carries keccak256) ds chunked ∧
      concat chunked = KademliaTable.get_closest_nodes keccak256 (FindNodeMessage.target msg) (table w)
  else run net arriving i (serve keccak256 addr k buf from) w = Done tt w.
Proof.
  intros Hk Hnet Ht Hh Hwf Hd Hm Hexp Ho. unfold serve. rewrite Hd, Hm. unfold handle_find_node.
  rewrite (run_now keccak256 Hk net arriving i Hnet), Hexp, run_prog_bind, (run_locked_get keccak256 Hk net arriving i Hnet _ w o Hh Ho).
  cbn [run_then]. case_decide as Hp.
  - destruct o as [q|]; [|done]. cbn in Hp. injection Hp as ->.
    set (nodes := KademliaTable.get_closest_nodes keccak256 (FindNodeMessage.target msg) (table w)).
    rewrite run_prog_bind, (run_locked keccak256 Hk net arriving i Hnet _ w nodes (with_holder (Some i) w));
      [|done|by apply (run_read keccak256 Hk net arriving i Hnet)|done].
    cbn [run_then]. assert (with_holder None (with_holder (Some i) w) = w) as -> by (destruct w; cbn in *; by subst).
    cbv zeta. rewrite (run_now keccak256 Hk net arriving i Hnet). destruct (chunks_spec 4 nodes ltac:(lia)) as [Hc Hl].
    pose proof (closest_wf keccak256 Hk net arriving i Hnet (FindNodeMessage.target msg) (table w) Hwf) as Hn. fold nodes in Hn.
    destruct (run_send_neighbors keccak256 Hk net arriving i Hnet from (get_expiration (clock w) 20) k (chunks 4 nodes) w)
      as (w' & ds & Hr & Htab & _ & Hsent & Hall).
    + unfold is_uint, get_expiration, in_time in *. lia.
    + rewrite <-Hc in Hn. rewrite Forall_concat in Hn. rewrite Forall_forall in *. intros c Hcin. split; [by apply Hn|].
      specialize (Hl c Hcin). unfold zlen. cbn in Hl. lia.
    + exists w', ds, (chunks 4 nodes). done.
  - destruct o as [q|]; [|done]. destruct (PeerData.is_proven q) eqn:E; [by destruct Hp; cbn; rewrite E|done].
Qed.

(** ** Samples *)
Definition all_sent (a : SocketAddr) (buf : list Z) : option Z := Some (zlen buf).
Definition no_message (rx : Z) : list (list Node.t) := [].
Definition addr_1 : SocketAddr := (V4 [10; 0; 0; 1], 30303).
Definition addr_2 : SocketAddr := (V4 [10; 0; 0; 2], 30304).
Definition id_1 : list Z := replicate 64 7.
Definition id_2 : list Z := replicate 64 9.

Lemma endpoint_proof_witness :
  ∃ wa ping, run all_sent no_message 0 (discovery_startup toy_hash addr_1 true [BootNode.mk id_2 addr_2]) (initial_world id_1 100) = Done tt wa ∧
    sent wa = [(addr_2, ping)].
Proof.
  destruct (endpoint_proof dev_profile bool toy_secp toy_secp_laws toy_hash all_sent no_message true false id_1 id_2 addr_1 addr_2
    100 115 (initial_world id_2 110)) as (wa & ping & ? & ? & ? & ? & ? & Hr & Hs & _);
    [exact toy_hash_array|done|split; by_decide|split; by_decide|reflexivity|reflexivity|split; done|split; done|split; done|done|done
    |exact (new_table_wf toy_hash toy_hash_array id_2)|done| |exact (ex_intro _ wa (ex_intro _ ping (conj Hr Hs)))].
  intros q Hq. assert (KademliaTable.get_by_node_id toy_hash id_1 (table (initial_world id_2 110)) = Ok None) as Hn by (by vm_compute).
  rewrite Hn in Hq. discriminate Hq.
Defined.

(** A table with one proven peer, which asks for the neighbours of its own id. *)
Definition proven_table : KademliaTable.t :=
  match apply_ops toy_hash [InsertNode 0 (Node.mk addr_2.1 addr_2.2 0 id_2); PongAnswered 1 id_2] (KademliaTable.new id_1) with
  | Ok t => t | _ => KademliaTable.new id_1 end.
Definition find_node_packet : list Z :=
  match Message.encode_with_header toy_hash (Message.FindNode (FindNodeMessage.new id_2 120)) false with Ok b => b | _ => [] end.
Definition decoded_find_node : Packet.t :=
  Packet.mk (ztake 32 find_node_packet) (ztake 65 (zdrop 32 find_node_packet)) (Message.FindNode (FindNodeMessage.new id_2 120)) id_2.
Lemma find_node_answered_witness :
  let w := with_table proven_table (initial_world id_1 100) in
  ∃ w' ds chunked, run all_sent no_message 0 (serve (H:=dev_profile) toy_hash addr_1 true find_node_packet addr_2) w = Done tt w' ∧
    sent w' = map (pair addr_2) ds ∧ Forall2 (carries (H:=dev_profile) toy_hash) ds chunked ∧
    concat chunked = [Node.mk addr_2.1 addr_2.2 0 id_2].
Proof.
  intros w.
  pose proof (find_node_answered dev_profile bool toy_secp toy_secp_laws toy_hash all_sent no_message 0 addr_1 addr_2 true w
    find_node_packet decoded_find_node (FindNodeMessage.new id_2 120)
    (Some (PeerData.answered 1 (PeerData.new (Node.mk addr_2.1 addr_2.2 0 id_2) 0 0 false)))
    toy_hash_array (λ _ _, eq_refl) ltac:(split; done) eq_refl) as Hw.
  rewrite decide_True in Hw by reflexivity.
  destruct Hw as (w' & ds & chunked & Hr & _ & Hs & Hc & He).
  - intros q (i & b & Hb & Hq).
    assert (Forall (λ b, Forall (λ p, wf_node (PeerData.node p)) (peers b ++ replacements b)) (KademliaTable.buckets proven_table)) as Hf by by_decide.
    rewrite Forall_forall in Hf. specialize (Hf b (list_elem_of_lookup_2 _ _ _ Hb)). rewrite Forall_forall in Hf. by apply Hf.
  - by vm_compute.
  - reflexivity.
  - reflexivity.
  - by vm_compute.
  - exists w', ds, chunked. split_and!; [exact Hr|exact Hs|exact Hc|]. rewrite He. by vm_compute.
Defined.

(** A request that was not answered with sixteen nodes is never closed by the lookups: an
    hour later the peer is still not asked again. *)
Definition lookup_asks (w : world) : list (list Z) * world :=
  match run all_sent no_message 0 (recursive_lookup toy_hash true 5 (replicate 64 5) id_1) w with
  | Done (Some asked) w => (elements asked, w)
  | _ => ([], w)
  end.
Example unanswered_request_blocks :
  let '(asked, w) := lookup_asks (with_table proven_table (initial_world id_1 100)) in
  asked = [id_2] ∧ (lookup_asks (with_clock 3700 w)).1 = [].
Proof. vm_compute. split; reflexivity. Qed.

(** A peer whose liveness is at the end of its range and that answers once more: with
    overflow checks the round panics, without them the peer is replaced. *)
Definition veteran : PeerData.t :=
  PeerData.set_revalidation (Some true) (PeerData.set_liveness 65535 (PeerData.new (Node.mk addr_2.1 addr_2.2 0 id_2) 0 0 true)).
Definition veteran_world : world :=
  let t := match KademliaTable.update_peer toy_hash id_2 (λ _, veteran) proven_table with Ok t => t | _ => proven_table end in
  with_table t (initial_world id_1 100).
Example liveness_overflow :
  run all_sent no_message 0 (check_peer (H:=dev_profile) toy_hash addr_1 true id_2) veteran_world = Panicked ∧
  ∃ w', run all_sent no_message 0 (check_peer (H:=release_profile) toy_hash addr_1 true id_2) veteran_world = Done tt w' ∧
    KademliaTable.get_by_node_id toy_hash id_2 (table w') = Ok None.
Proof. split; [by vm_compute|]. eexists. split; vm_compute; reflexivity. Qed.
