(* ===== verification/DiscoveryLiveness.v ===== *)
(** * Peer discovery: silent peers leave, lookups converge

    A peer that the revalidation pings and that does not answer loses two thirds of its
    liveness in every round; the list of a lookup keeps the nearest nodes it was given. *)

From S2P Require Import Prelude Rlp RlpLaws U256 Codec Effects NetTypes Kademlia KademliaLaws Discv4 Discv4Laws.
From S2P Require Import Discovery DiscoveryRun.

(** ** Properties of the table that a task keeps *)
Fixpoint preserves {A} (J : KademliaTable.t → Prop) (p : prog A) : Prop :=
  match p with
  | Ret _ | Crash => True
  | Now k => ∀ n, preserves J (k n)
  | SendTo _ _ k => ∀ r, preserves J (k r)
  | Lock k | Unlock k | Notify _ _ k => preserves J k
  | Table f k => (∀ t b t', J t → f t = Ok (b, t') → J t') ∧ ∀ b, preserves J (k b)
  | Channel k => ∀ c, preserves J (k c)
  | Receive _ k => ∀ l, preserves J (k l)
  end.
Lemma preserves_bind {A B} J (p : prog A) (f : A → prog B) :
  preserves J p → (∀ a, preserves J (f a)) → preserves J (p ≫= f).
Proof.
  unfold mbind, prog_mbind. intros Hp Hf.
  induction p as [a| |k IH|a b k IH|k IH|k IH|C g k IH|k IH|c l k IH|c k IH]; cbn in *; auto.
  destruct Hp as [Hg Hp]. auto.
Qed.
Lemma preserves_of_res {E A} J (r : res E A) : preserves J (of_res r).
Proof. by destruct r. Qed.
Lemma preserves_read {B} J (f : KademliaTable.t → pres B) : preserves J (read f).
Proof. split; [|done]. intros t b t' Ht Hf. by res_inv. Qed.
Lemma preserves_modify J f : (∀ t t', J t → f t = Ok t' → J t') → preserves J (modify f).
Proof. intros Hf. split; [|done]. intros t [] t' Ht Hr. res_inv. by eapply Hf. Qed.
Lemma preserves_operate {B} J (f : KademliaTable.t → pres (B * KademliaTable.t)) :
  (∀ t b t', J t → f t = Ok (b, t') → J t') → preserves J (operate f).
Proof. by split. Qed.
Lemma preserves_locked {B} J (p : prog B) : preserves J p → preserves J (locked p).
Proof. intros Hp. apply preserves_bind; [done|]. intros _. by apply preserves_bind. Qed.
Lemma run_preserves {A} net arriving i J (p : prog A) w a w' :
  preserves J p → J (table w) → run net arriving i p w = Done a w' → J (table w').
Proof.
  revert w. induction p as [b| |k IH|c b k IH|k IH|k IH|C g k IH|k IH|c l k IH|c k IH]; intros w Hp Hw Hr; cbn in *; eauto.
  - by injection Hr as _ <-.
  - done.
  - eapply IH; [apply Hp| |exact Hr]. done.
  - destruct (holder w); [done|]. eapply IH; [apply Hp| |exact Hr]. done.
  - case_decide; [|done]. eapply IH; [apply Hp| |exact Hr]. done.
  - destruct Hp as [Hg Hp]. case_decide; [|done]. destruct (g (table w)) as [[b t]| | |] eqn:E; try done.
    eapply IH; [apply Hp| |exact Hr]. cbn. by eapply Hg.
  - eapply IH; [apply Hp| |exact Hr]. done.
  - eapply IH; [apply Hp| |exact Hr]. done.
Qed.

Section Silent.
Context `{Profile} `{Secp256k1 SigningKey}.
Variable keccak256 : list Z → list Z.
Hypothesis keccak_array : ∀ x, is_array 32 (keccak256 x).
Variables (udp_addr : SocketAddr) (signer : SigningKey) (id : list Z).
#[local] Set Default Proof Using "Type*".
Abbreviation get := (KademliaTable.get_by_node_id keccak256).

(** The peer was pinged and has not answered; the peer was judged. *)
Definition silent (l : Z) (t : KademliaTable.t) : Prop :=
  wf_table keccak256 t ∧ ∃ p, get id t = Ok (Some p) ∧ PeerData.liveness p = l ∧ PeerData.revalidation p = Some false.
Definition judged_to (l : Z) (t : KademliaTable.t) : Prop :=
  wf_table keccak256 t ∧
  (l ≠ 0 ∧ (∃ p, get id t = Ok (Some p) ∧ PeerData.liveness p = l) ∨ l = 0 ∧ ∀ p, entry t p → PeerData.id p ≠ id).

(** Assignments to other peers, and to the peer itself if its liveness stays. *)
Lemma judged_update l id' f t t' :
  (∀ p, PeerData.id p = id' → PeerData.id (f p) = id') →
  (id' ≠ id ∨ ∀ p, PeerData.liveness (f p) = PeerData.liveness p) →
  judged_to l t → KademliaTable.update_peer keccak256 id' f t = Ok t' → judged_to l t'.
Proof.
  intros Hf Hl [Hw Hj] Hu.
  destruct (update_peer_spec keccak256 keccak_array t id' f Hw Hf) as (t1 & Hu1 & Hw1 & (o & Ho & Ho') & Hne).
  rewrite Hu in Hu1. injection Hu1 as <-. split; [done|]. destruct Hj as [(Hl0 & p & Hp & Hpl)|[Hl0 Hj]].
  - left. split; [done|]. destruct (decide (id' = id)) as [->|Hid].
    + rewrite Hp in Ho. injection Ho as <-. exists (f p). split; [done|]. destruct Hl as [?|Hl]; [done|]. by rewrite Hl.
    + exists p. by rewrite Hne.
  - right. split; [done|]. intros p Hp. destruct (update_peer_entry _ keccak_array _ _ _ _ _ Hu Hp) as [?|(q & Hq & Hqid & ->)].
    + by apply Hj.
    + rewrite (Hf q Hqid). rewrite <-Hqid. by apply Hj.
Qed.
Lemma judged_replace l id' t o t' :
  id' ≠ id → judged_to l t → KademliaTable.replace_peer keccak256 id' t = Ok (o, t') → judged_to l t'.
Proof.
  intros Hid [Hw Hj] Hr. destruct (replace_peer_spec keccak256 keccak_array id' t Hw) as (o1 & t1 & Hr1 & Hw1 & _ & Ho & Hne).
  rewrite Hr in Hr1. injection Hr1 as <- <-. split; [done|]. destruct Hj as [(Hl0 & p & Hp & Hpl)|[Hl0 Hj]].
  - left. split; [done|]. exists p. rewrite Hne; [done|done|]. intros q -> ->. destruct Ho as (_ & Ho & _). by rewrite Ho in Hp.
  - right. split; [done|]. intros p Hp. by apply Hj, (replace_peer_entry _ keccak_array _ _ _ _ _ Hr).
Qed.
Lemma silent_update l id' f t t' :
  (∀ p, PeerData.id p = id' → PeerData.id (f p) = id') →
  (id' ≠ id ∨ ∀ p, PeerData.liveness (f p) = PeerData.liveness p ∧ PeerData.revalidation (f p) = PeerData.revalidation p) →
  silent l t → KademliaTable.update_peer keccak256 id' f t = Ok t' → silent l t'.
Proof.
  intros Hf Hl (Hw & p & Hp & Hpl & Hpr) Hu.
  destruct (update_peer_spec keccak256 keccak_array t id' f Hw Hf) as (t1 & Hu1 & Hw1 & (o & Ho & Ho') & Hne).
  rewrite Hu in Hu1. injection Hu1 as <-. split; [done|]. destruct (decide (id' = id)) as [->|Hid].
  - rewrite Hp in Ho. injection Ho as <-. exists (f p). split; [done|]. destruct Hl as [?|Hl]; [done|]. by rewrite !(proj1 (Hl p)), !(proj2 (Hl p)).
  - exists p. by rewrite Hne.
Qed.
Lemma silent_replace l id' t o t' :
  id' ≠ id → silent l t → KademliaTable.replace_peer keccak256 id' t = Ok (o, t') → silent l t'.
Proof.
  intros Hid (Hw & p & Hp & Hpl & Hpr) Hr.
  destruct (replace_peer_spec keccak256 keccak_array id' t Hw) as (o1 & t1 & Hr1 & Hw1 & _ & Ho & Hne).
  rewrite Hr in Hr1. injection Hr1 as <- <-. split; [done|]. exists p. rewrite Hne; [done|done|].
  intros q -> ->. destruct Ho as (_ & Ho & _). by rewrite Ho in Hp.
Qed.

#[local] Hint Resolve preserves_of_res preserves_read preserves_locked : core.
#[local] Ltac preserves_steps :=
  repeat first [done | solve [auto] | simple apply preserves_bind; [|intros ?] | progress case_match].
Lemma preserves_ping J a b : preserves J (ping keccak256 a b signer).
Proof. unfold ping. preserves_steps. Qed.
#[local] Hint Resolve preserves_ping : core.
(** The check of another peer keeps both. *)
Lemma preserves_check (J : KademliaTable.t → Prop) id' :
  (∀ l t t', J t → KademliaTable.update_peer keccak256 id' (PeerData.judge l) t = Ok t' → J t') →
  (∀ n h q t t', J t → KademliaTable.update_peer_ping keccak256 n q h t = Ok t' → J t') →
  (∀ o t t', J t → KademliaTable.replace_peer keccak256 id' t = Ok (o, t') → J t') →
  preserves J (check_peer keccak256 udp_addr signer id').
Proof.
  intros H1 H2 H3. unfold check_peer, get_by_node_id. preserves_steps; [apply preserves_modify; by eauto|apply preserves_operate; by eauto|].
  unfold update_peer_ping. preserves_steps. apply preserves_modify. by eauto.
Qed.
Lemma judged_check l id' : id' ≠ id → preserves (judged_to l) (check_peer keccak256 udp_addr signer id').
Proof.
  intros Hid. apply preserves_check.
  - intros x t t' Ht Hu. by apply (judged_update l id' (PeerData.judge x) t); [|left|..].
  - intros n h q t t' Ht Hu. by apply (judged_update l q (PeerData.pinged n h) t); [|right|..].
  - intros o t t' Ht Hr. by eapply judged_replace.
Qed.
Lemma silent_check l id' : id' ≠ id → preserves (silent l) (check_peer keccak256 udp_addr signer id').
Proof.
  intros Hid. apply preserves_check.
  - intros x t t' Ht Hu. by apply (silent_update l id' (PeerData.judge x) t); [|left|..].
  - intros n h q t t' Ht Hu. by apply (silent_update l q (PeerData.pinged n h) t); [|right|..].
  - intros o t t' Ht Hr. by eapply silent_replace.
Qed.
Lemma judged_ping_peers l peers : ∀ pinged, preserves (judged_to l) (ping_peers keccak256 udp_addr signer pinged peers).
Proof.
  induction peers as [|p peers IH]; intros pinged; cbn [ping_peers]; [done|].
  unfold update_peer_ping_with_revalidation. preserves_steps. apply preserves_locked. preserves_steps.
  apply preserves_modify. intros t t' Ht Hu. by apply (judged_update l _ _ t) in Hu; [..|right|].
Qed.

(** The check of the peer itself. *)
Lemma run_check_silent net arriving i l w w' :
  0 <= l → silent l (table w) → run net arriving i (check_peer keccak256 udp_addr signer id) w = Done tt w' →
  judged_to (l / 3) (table w').
Proof.
  intros Hl (Hw & p & Hp & Hpl & Hpr) Hr. unfold check_peer in Hr.
  rewrite run_prog_bind in Hr. cbn [run lock] in Hr. destruct (holder w) eqn:Eh; [done|]. cbn [run_then] in Hr.
  rewrite run_prog_bind in Hr. set (w1 := with_holder (Some i) w) in *.
  assert (run net arriving i (get_by_node_id keccak256 id) w1 = Done (Some p) w1) as Eg.
  { cbn. rewrite decide_True by done. by rewrite Hp. }
  rewrite Eg in Hr. cbn [run_then] in Hr. rewrite run_prog_bind in Hr. cbn [of_res unwrap run run_then] in Hr.
  rewrite run_prog_bind in Hr. unfold judged in Hr. rewrite Hpr in Hr. cbn [of_res run run_then] in Hr. rewrite run_prog_bind in Hr.
  change (PeerData.liveness (PeerData.decrement_liveness p)) with (PeerData.liveness p / 3) in Hr. rewrite Hpl in Hr.
  destruct (update_peer_spec keccak256 keccak_array (table w) id (PeerData.judge (l / 3)) Hw ltac:(done))
    as (t1 & Hu & Hw1 & (o & Ho & Ho') & _). rewrite Hp in Ho. injection Ho as <-.
  assert (run net arriving i (assign keccak256 id (PeerData.judge (l / 3))) w1 = Done tt (with_table t1 w1)) as Ea.
  { cbn. rewrite decide_True by done. by rewrite Hu. }
  rewrite Ea in Hr. cbn [run_then] in Hr. rewrite run_prog_bind in Hr. destruct (l / 3 =? 0) eqn:E; bool_prop.
  - rewrite run_prog_bind in Hr. destruct (replace_peer_spec keccak256 keccak_array id t1 Hw1) as (o & t2 & Hrep & Hw2 & _).
    assert (run net arriving i (operate (KademliaTable.replace_peer keccak256 id)) (with_table t1 w1) =
            Done o (with_table t2 (with_table t1 w1))) as Er.
    { cbn. rewrite decide_True by done. by rewrite Hrep. }
    rewrite Er in Hr. cbn [run_then] in Hr. set (w2 := with_table t2 (with_table t1 w1)) in *.
    assert (judged_to (l / 3) t2) as Hj2.
    { split; [done|]. right. split; [lia|]. intros q Hq.
      by apply (replace_peer_gone keccak256 keccak_array t1 id (PeerData.judge (l / 3) p) o t2). }
    eapply (run_preserves net arriving i (judged_to (l / 3)) _ w2); [| |rewrite run_prog_bind; exact Hr].
    + destruct o as [q|]; [|done]. unfold update_peer_ping. preserves_steps. apply preserves_modify.
      intros t t' Ht Hup. by apply (judged_update (l / 3) (PeerData.id q) (PeerData.pinged a0 a) t); [|right|..].
    + done.
  - cbn [run run_then unlock] in Hr. case_decide; [|done]. injection Hr as <-. split; [done|]. left. split; [done|].
    by exists (PeerData.judge (l / 3) p).
Qed.
Lemma run_checks_silent net arriving i l prev w w' :
  0 <= l → NoDup prev → id ∈ prev → silent l (table w) →
  run net arriving i (for_all (check_peer keccak256 udp_addr signer) prev) w = Done tt w' → judged_to (l / 3) (table w').
Proof.
  intros Hl Hn. revert w. induction Hn as [|x prev Hx Hn IH]; intros w Hin Hw Hr; [by apply not_elem_of_nil in Hin|].
  cbn [for_all] in Hr. rewrite run_prog_bind in Hr. destruct (run _ _ _ (check_peer _ _ _ x) w) as [[] w1| |] eqn:E; try done.
  cbn [run_then] in Hr. destruct (decide (x = id)) as [->|Hne].
  - pose proof (run_check_silent _ _ _ _ _ _ Hl Hw E) as Hj. clear IH Hin E. revert w1 Hr Hj.
    induction prev as [|y prev IH]; intros w1 Hr Hj; [by injection Hr as <-|].
    cbn [for_all] in Hr. rewrite run_prog_bind in Hr. destruct (run _ _ _ (check_peer _ _ _ y) w1) as [[] w2| |] eqn:E2; try done.
    apply not_elem_of_cons in Hx as [Hxy Hx]. apply NoDup_cons in Hn as [_ Hn]. cbn [run_then] in Hr.
    eapply (IH Hx Hn w2); [done|]. by eapply run_preserves; [apply (judged_check (l / 3) y)|..].
  - apply elem_of_cons in Hin as [->|Hin]; [done|]. eapply IH; [done| |done].
    by eapply run_preserves; [apply (silent_check l x)|..].
Qed.
Lemma run_revalidate_silent net arriving i l prev w next w' :
  0 <= l → NoDup prev → id ∈ prev → silent l (table w) →
  run net arriving i (revalidate keccak256 udp_addr signer prev) w = Done next w' → judged_to (l / 3) (table w').
Proof.
  intros Hl Hn Hin Hw Hr. unfold revalidate in Hr. rewrite run_prog_bind in Hr.
  destruct (run _ _ _ (for_all _ _) w) as [[] w1| |] eqn:E; try done. cbn [run_then] in Hr.
  pose proof (run_checks_silent _ _ _ _ _ _ _ Hl Hn Hin Hw E) as Hj.
  eapply run_preserves; [|exact Hj|exact Hr]. preserves_steps. apply judged_ping_peers.
Qed.
End Silent.

(** [k] rounds of the revalidation in which the peer [id] is pinged and does not answer:
    between the rounds, the table may change in any way that leaves its record alone. *)
Inductive silent_rounds `{Profile} `{Secp256k1} (keccak256 : list Z → list Z) (udp_addr : SocketAddr) (signer : SigningKey)
    (id : list Z) : nat → world → world → Prop :=
  | no_round w : silent_rounds keccak256 udp_addr signer id 0 w w
  | one_round k w prev net arriving i next w1 p q w2 w3 :
      NoDup prev → id ∈ prev →
      run net arriving i (revalidate keccak256 udp_addr signer prev) w = Done next w1 →
      KademliaTable.get_by_node_id keccak256 id (table w1) = Ok (Some p) → wf_table keccak256 (table w2) →
      KademliaTable.get_by_node_id keccak256 id (table w2) = Ok (Some q) →
      PeerData.liveness q = PeerData.liveness p → PeerData.revalidation q = Some false →
      silent_rounds keccak256 udp_addr signer id k w2 w3 →
      silent_rounds keccak256 udp_addr signer id (S k) w w3.

(** C40: a peer that is pinged and does not answer keeps a third of its liveness, rounded
    down, in every round, and is still in the table after ten rounds at most: the
    eleventh removes it at the latest. *)
Theorem silent_peer_leaves (P : Profile) (SigningKey : Type) (C : Secp256k1 SigningKey) (keccak256 : list Z → list Z)
    (udp_addr : SocketAddr) (signer : SigningKey) (id : list Z) (k : nat) (w w' : world) (p : PeerData.t) :
  (∀ x, is_array 32 (keccak256 x)) → wf_table keccak256 (table w) →
  KademliaTable.get_by_node_id keccak256 id (table w) = Ok (Some p) → PeerData.revalidation p = Some false →
  is_uint 16 (PeerData.liveness p) → silent_rounds keccak256 udp_addr signer id k w w' →
  (∃ q, KademliaTable.get_by_node_id keccak256 id (table w') = Ok (Some q) ∧
    PeerData.liveness q = PeerData.liveness p / 3 ^ Z.of_nat k) ∧ (k <= 10)%nat.
Proof.
  intros Hk Hw Hp Hpr Hl Hs.
  enough ((∃ q, KademliaTable.get_by_node_id keccak256 id (table w') = Ok (Some q) ∧
    PeerData.liveness q = PeerData.liveness p / 3 ^ Z.of_nat k) ∧ (k = 0%nat ∨ 0 < PeerData.liveness p / 3 ^ Z.of_nat k)) as [Hq Hpos].
  { split; [done|]. destruct Hpos as [->|Hpos]; [lia|]. destruct (decide (k <= 10)%nat); [done|]. exfalso.
    unfold is_uint in Hl. assert (3 ^ 11 <= 3 ^ Z.of_nat k) by (apply Z.pow_le_mono_r; lia).
    rewrite Z.div_small in Hpos by lia. lia. }
  revert p Hp Hpr Hl. induction Hs as [w|k w prev net arriving i next w1 q r w2 w3 Hn Hin Hr Hq Hw2 Hr2 Hrl Hrr Hs IH];
    intros p Hp Hpr Hl; [split; [|by left]; exists p; split; [done|]; cbn; by rewrite Z.div_1_r|].
  destruct (run_revalidate_silent keccak256 Hk udp_addr signer id net arriving i (PeerData.liveness p) prev w next w1)
    as [Hw1 Hj]; [apply Hl|done|done|by split; [|exists p]|done|].
  destruct Hj as [(Hne & p1 & Hp1 & Hpl)|[_ Hj]].
  - rewrite Hq in Hp1. injection Hp1 as <-. rewrite Hpl in Hrl.
    assert (0 <= PeerData.liveness p / 3 <= PeerData.liveness p) as Hd.
    { unfold is_uint in Hl. split; [apply Z.div_pos; lia|apply Z.div_le_upper_bound; lia]. }
    destruct (IH Hw2 r Hr2 Hrr) as [Hres Hpos]; [unfold is_uint in *; lia|].
    rewrite Hrl, Z.div_div in Hres, Hpos by lia.
    replace (3 * 3 ^ Z.of_nat k) with (3 ^ Z.of_nat (S k)) in Hres, Hpos by (rewrite Nat2Z.inj_succ, Z.pow_succ_r by lia; done).
    split; [done|]. right. destruct Hpos as [->|Hpos]; [|done]. change (3 ^ Z.of_nat 1) with 3. lia.
  - destruct (get_entry _ Hk _ _ _ Hw1 Hq) as [He Hid]. by destruct (Hj q He).
Qed.

(** ** Lookups *)
(** The farthest of the nodes that are farther than the new one. *)
Lemma farthest_spec keccak256 distance target l : ∀ i idx highest done,
  let dist n := bucket_number keccak256 (Node.node_id n) target in
  (match idx with
   | Some j => ∃ n, done !! Z.to_nat j = Some n ∧ 0 <= j ∧ dist n = highest ∧ distance < highest ∧ (∀ m, m ∈ done → dist m <= highest)
   | None => highest = 0 ∧ ∀ m, m ∈ done → dist m <= distance
   end) → i = zlen done → 0 <= distance →
  match farthest_index keccak256 distance target l i idx highest with
  | Some j => ∃ n, (done ++ l) !! Z.to_nat j = Some n ∧ 0 <= j ∧ distance < dist n ∧ (∀ m, m ∈ done ++ l → dist m <= dist n)
  | None => ∀ m, m ∈ done ++ l → dist m <= distance
  end.
Proof.
  induction l as [|x l IH]; intros i idx highest done dist Hi -> Hd; cbn [farthest_index].
  { rewrite app_nil_r. destruct idx as [j|]; [|by destruct Hi]. destruct Hi as (n & Hn & Hj & <- & ? & ?). by exists n. }
  fold (dist x). replace (done ++ x :: l) with ((done ++ [x]) ++ l) by (by rewrite <-app_assoc).
  assert (zlen done + 1 = zlen (done ++ [x])) as -> by (by rewrite zlen_app).
  assert (∀ j n, done !! Z.to_nat j = Some n → (done ++ [x]) !! Z.to_nat j = Some n) as Hold by (intros; by apply lookup_app_l_Some).
  assert (0 <= dist x) as Hx0 by (unfold dist, bucket_number, U256.saturating_sub; lia).
  destruct ((distance <? dist x) && (highest <=? dist x)) eqn:E; [|apply andb_false_iff in E]; bool_prop; apply IH; try done; unfold dist in *.
  - exists x. split_and!; [|apply zlen_nonneg|done|lia|].
    + unfold zlen. rewrite Nat2Z.id. by apply list_lookup_middle.
    + intros m [Hm| ->%list_elem_of_singleton]%elem_of_app; [|done].
      destruct idx as [j|]; [destruct Hi as (n & _ & _ & _ & _ & Hm'); specialize (Hm' m Hm); lia|].
      destruct Hi as [_ Hm']. specialize (Hm' m Hm). lia.
  - destruct idx as [j|].
    + destruct Hi as (n & Hn & Hj & Hh & Hlt & Hm'). exists n. split_and!; [by apply Hold|done|done|done|].
      intros m [Hm| ->%list_elem_of_singleton]%elem_of_app; [by apply Hm'|].
      destruct E as [E|E]; bool_prop; lia.
    + destruct Hi as [-> Hm']. split; [done|]. intros m [Hm| ->%list_elem_of_singleton]%elem_of_app; [by apply Hm'|].
      destruct E as [E|E]; bool_prop; lia.
Qed.

(** The list of the nodes to ask keeps the nearest: a new node is appended while
    there are fewer than sixteen; afterwards the list is that of the old nodes and the
    new one without one that is at least as far as each of those that stay. *)
Theorem peers_to_ask_push_nearest (keccak256 : list Z → list Z) (l : list Node.t) (target : list Z) (node : Node.t) :
  let r := peers_to_ask_push keccak256 l target node in
  let dist n := bucket_number keccak256 target (Node.node_id n) in
  if decide (zlen l < MAX_NODES_PER_BUCKET) then r = l ++ [node]
  else ∃ out, out :: r ≡ₚ node :: l ∧ ∀ n, n ∈ r → dist n <= dist out.
Proof.
  intros r dist. unfold r, peers_to_ask_push. case_decide as Hl; [by rewrite (proj2 (Z.ltb_lt _ _))|].
  rewrite (proj2 (Z.ltb_ge _ _)) by lia. fold (dist node).
  pose proof (farthest_spec keccak256 (dist node) target l 0 None 0 []) as Hs. cbn [app] in Hs.
  assert (0 <= dist node) as H0 by (unfold dist, bucket_number, U256.saturating_sub; lia).
  specialize (Hs ltac:(split; [done|]; by intros ? ?%not_elem_of_nil) eq_refl H0).
  assert (∀ n, bucket_number keccak256 (Node.node_id n) target = dist n) as Hsym by (intros; apply bucket_number_sym).
  destruct (farthest_index _ _ _ _ _ _ _) as [j|].
  - destruct Hs as (n & Hn & Hj & Hlt & Hmax). rewrite Hsym in Hlt. exists n. split.
    + symmetry. by apply insert_Permutation.
    + intros m (k & Hk)%list_elem_of_lookup_1. apply list_lookup_insert_Some in Hk as [(_ & <- & _)|[_ Hk]]; [lia|].
      rewrite <-!Hsym. apply Hmax. by eapply list_elem_of_lookup_2.
  - exists node. split; [done|]. intros m Hm. rewrite <-Hsym. by apply Hs.
Qed.

(** A peer with a liveness of 3 that was pinged: it stays for one more round. *)
Definition quiet_peer : PeerData.t :=
  PeerData.set_revalidation (Some false) (PeerData.set_liveness 3 (PeerData.new (sample_node 0x80 1) 0 0 false)).
Definition quiet_id : list Z := Node.node_id (sample_node 0x80 1).
Definition quiet_table : pres KademliaTable.t :=
  t ← apply_ops toy_hash [InsertNode 0 (sample_node 0x80 1)] (KademliaTable.new local_id);
  KademliaTable.update_peer toy_hash quiet_id (λ _, quiet_peer) t.
Lemma quiet_table_ok : ∃ t, quiet_table = Ok t ∧ wf_table toy_hash t.
Proof.
  destruct (apply_op_wf toy_hash (InsertNode 0 (sample_node 0x80 1)) (KademliaTable.new local_id) toy_hash_array) as (t & Ht & Hw);
    [apply new_table_wf, toy_hash_array|].
  destruct (update_peer_wf toy_hash toy_hash_array t quiet_id (λ _, quiet_peer) Hw) as (t' & Ht' & Hw'); [done|].
  exists t'. split; [|done]. unfold quiet_table. cbn [apply_ops]. by rewrite Ht, !bind_Ok_l.
Qed.
Definition quiet_world : world :=
  mkWorld match quiet_table with Ok t => t | _ => KademliaTable.new local_id end None 100 [] [] 0.
Lemma quiet_wf : wf_table toy_hash (table quiet_world).
Proof. destruct quiet_table_ok as (t & Ht & Hw). cbn [table quiet_world]. by rewrite Ht. Qed.
Definition reply (a : SocketAddr) (buf : list Z) : option Z := Some (zlen buf).
Lemma silent_peer_leaves_witness :
  ∃ w' q, silent_rounds (H:=dev_profile) toy_hash (V4 [10; 0; 0; 1], 30303) true quiet_id 1 quiet_world w' ∧
    KademliaTable.get_by_node_id toy_hash quiet_id (table w') = Ok (Some q) ∧ PeerData.liveness q = 1.
Proof.
  destruct (run reply (λ _, []) 0 (revalidate (H:=dev_profile) toy_hash (V4 [10; 0; 0; 1], 30303) true [quiet_id]) quiet_world)
    as [next w1| |] eqn:E; [|by vm_compute in E..].
  assert (silent_rounds (H:=dev_profile) toy_hash (V4 [10; 0; 0; 1], 30303) true quiet_id 1 quiet_world w1) as Hs.
  { assert (wf_table toy_hash (table w1)) as Hw.
    { eapply (run_revalidate_silent toy_hash toy_hash_array _ _ quiet_id _ _ _ 3 [quiet_id] quiet_world); [lia|apply NoDup_singleton|left| |exact E].
      split; [apply quiet_wf|]. exists quiet_peer. split; [vm_compute; reflexivity|split; reflexivity]. }
    destruct (KademliaTable.get_by_node_id toy_hash quiet_id (table w1)) as [[p|]| | |] eqn:Eg;
      [|vm_compute in E; injection E as <- <-; by vm_compute in Eg..].
    eapply (one_round _ _ _ _ 0 quiet_world [quiet_id] reply (λ _, []) 0 next w1 p p w1 w1);
      [apply NoDup_singleton|left|exact E|exact Eg|exact Hw|exact Eg|reflexivity| |apply no_round].
    vm_compute in E. injection E as _ <-. vm_compute in Eg. injection Eg as <-. reflexivity. }
  destruct (silent_peer_leaves dev_profile bool toy_secp toy_hash (V4 [10; 0; 0; 1], 30303) true quiet_id 1 quiet_world w1 quiet_peer
    toy_hash_array quiet_wf) as [(q & Hq & Hl) _]; [vm_compute; reflexivity|reflexivity|by_decide|exact Hs|].
  exists w1, q. exact (conj Hs (conj Hq Hl)).
Defined.
