(* ===== verification/CoreTypes.v ===== *)
(** * Core types

    Model of [crates/core/types]: transactions, receipts, accounts, withdrawals,
    headers, bodies and blocks, with their RLP impls, and of the canonical
    encoding and the sender recovery of transactions.  Hashes, addresses and byte
    strings are lists of bytes; [u64] and [U256] are [Z].  [keccak256], the two
    calls into [secp256k1], the bloom filter and the root of a trie are arguments. *)

From stdpp Require Import pretty.
From S2P Require Import Prelude Rlp U256.

Abbreviation Address := (list Z) (only parsing).
Abbreviation H256 := (list Z) (only parsing).
Abbreviation AccessList := (list (Address * list H256)) (only parsing).

Abbreviation field enc x := (Encoder.encode_field enc x).
Abbreviation optional_field enc x := (Encoder.encode_optional_field enc x).

Definition access_list_encode : AccessList → list Z :=
  vec_encode (pair_encode Address_encode (vec_encode H256_encode)).
Definition access_list_decode `{Profile} : list Z → dres (AccessList * list Z) :=
  vec_decode (pair_decode Address_decode (vec_decode H256_decode)).

(** ** transaction.rs: the parts of a transaction *)
Module TxType.
Inductive t := Legacy | EIP2930 | EIP1559 | EIP4844.
Definition to_u8 (ty : t) : Z :=
  match ty with Legacy => 0x00 | EIP2930 => 0x01 | EIP1559 => 0x02 | EIP4844 => 0x03 end.
Definition from_u8 (value : Z) : option t :=
  if value =? 0x00 then Some Legacy
  else if value =? 0x01 then Some EIP2930
  else if value =? 0x02 then Some EIP1559
  else if value =? 0x03 then Some EIP4844
  else None.
#[global] Instance eq_dec : EqDecision t.
Proof. solve_decision. Defined.
End TxType.

Module TxKind.
Inductive t := Call (address : Address) | Create.
Definition encode (self : t) : list Z :=
  match self with Call address => Address_encode address | Create => [RLP_NULL] end.
Definition decode_unfinished `{Profile} (rlp : list Z) : dres (t * list Z) :=
  first_byte ← ok_or InvalidLength (head rlp);
  if first_byte =? RLP_NULL then
    rest ← slice_from rlp 1; Ok (Create, rest)
  else
    '(address, rest) ← Address_decode rlp; Ok (Call address, rest).
End TxKind.

Module LegacyTransaction.
Record t := mk {
  nonce : Z; gas_price : Z; gas : Z; to : TxKind.t; value : Z; data : list Z;
  v : Z; r : Z; s : Z
}.
Definition encode (self : t) : list Z :=
  Encoder.new []
  |> field u64_encode (nonce self)
  |> field u64_encode (gas_price self)
  |> field u64_encode (gas self)
  |> field TxKind.encode (to self)
  |> field U256_encode (value self)
  |> field Bytes_encode (data self)
  |> field U256_encode (v self)
  |> field U256_encode (r self)
  |> field U256_encode (s self)
  |> Encoder.finish.
Definition decode_unfinished `{Profile} (rlp : list Z) : dres (t * list Z) :=
  decoder ← Decoder.new rlp;
  '(nonce, decoder) ← Decoder.decode_field u64_decode "nonce" decoder;
  '(gas_price, decoder) ← Decoder.decode_field u64_decode "gas_price" decoder;
  '(gas, decoder) ← Decoder.decode_field u64_decode "gas" decoder;
  '(to, decoder) ← Decoder.decode_field TxKind.decode_unfinished "to" decoder;
  '(value, decoder) ← Decoder.decode_field U256_decode "value" decoder;
  '(data, decoder) ← Decoder.decode_field Bytes_decode "data" decoder;
  '(v, decoder) ← Decoder.decode_field U256_decode "v" decoder;
  '(r, decoder) ← Decoder.decode_field U256_decode "r" decoder;
  '(s, decoder) ← Decoder.decode_field U256_decode "s" decoder;
  let tx := mk nonce gas_price gas to value data v r s in
  remaining ← Decoder.finish decoder;
  Ok (tx, remaining).
End LegacyTransaction.

Module EIP2930Transaction.
Record t := mk {
  chain_id : Z; nonce : Z; gas_price : Z; gas_limit : Z; to : TxKind.t; value : Z;
  data : list Z; access_list : AccessList;
  signature_y_parity : bool; signature_r : Z; signature_s : Z
}.
Definition encode (self : t) : list Z :=
  Encoder.new []
  |> field u64_encode (chain_id self)
  |> field u64_encode (nonce self)
  |> field u64_encode (gas_price self)
  |> field u64_encode (gas_limit self)
  |> field TxKind.encode (to self)
  |> field U256_encode (value self)
  |> field Bytes_encode (data self)
  |> field access_list_encode (access_list self)
  |> field bool_encode (signature_y_parity self)
  |> field U256_encode (signature_r self)
  |> field U256_encode (signature_s self)
  |> Encoder.finish.
Definition decode_unfinished `{Profile} (rlp : list Z) : dres (t * list Z) :=
  decoder ← Decoder.new rlp;
  '(chain_id, decoder) ← Decoder.decode_field u64_decode "chain_id" decoder;
  '(nonce, decoder) ← Decoder.decode_field u64_decode "nonce" decoder;
  '(gas_price, decoder) ← Decoder.decode_field u64_decode "gas_price" decoder;
  '(gas_limit, decoder) ← Decoder.decode_field u64_decode "gas_limit" decoder;
  '(to, decoder) ← Decoder.decode_field TxKind.decode_unfinished "to" decoder;
  '(value, decoder) ← Decoder.decode_field U256_decode "value" decoder;
  '(data, decoder) ← Decoder.decode_field Bytes_decode "data" decoder;
  '(access_list, decoder) ← Decoder.decode_field access_list_decode "access_list" decoder;
  '(signature_y_parity, decoder) ← Decoder.decode_field bool_decode "signature_y_parity" decoder;
  '(signature_r, decoder) ← Decoder.decode_field U256_decode "signature_r" decoder;
  '(signature_s, decoder) ← Decoder.decode_field U256_decode "signature_s" decoder;
  let tx := mk chain_id nonce gas_price gas_limit to value data access_list
              signature_y_parity signature_r signature_s in
  remaining ← Decoder.finish decoder;
  Ok (tx, remaining).
End EIP2930Transaction.

Module EIP1559Transaction.
Record t := mk {
  chain_id : Z; nonce : Z; max_priority_fee_per_gas : Z; max_fee_per_gas : Z; gas_limit : Z;
  to : TxKind.t; value : Z; data : list Z; access_list : AccessList;
  signature_y_parity : bool; signature_r : Z; signature_s : Z
}.
Definition encode (self : t) : list Z :=
  Encoder.new []
  |> field u64_encode (chain_id self)
  |> field u64_encode (nonce self)
  |> field u64_encode (max_priority_fee_per_gas self)
  |> field u64_encode (max_fee_per_gas self)
  |> field u64_encode (gas_limit self)
  |> field TxKind.encode (to self)
  |> field U256_encode (value self)
  |> field Bytes_encode (data self)
  |> field access_list_encode (access_list self)
  |> field bool_encode (signature_y_parity self)
  |> field U256_encode (signature_r self)
  |> field U256_encode (signature_s self)
  |> Encoder.finish.
Definition decode_unfinished `{Profile} (rlp : list Z) : dres (t * list Z) :=
  decoder ← Decoder.new rlp;
  '(chain_id, decoder) ← Decoder.decode_field u64_decode "chain_id" decoder;
  '(nonce, decoder) ← Decoder.decode_field u64_decode "nonce" decoder;
  '(max_priority_fee_per_gas, decoder) ←
    Decoder.decode_field u64_decode "max_priority_fee_per_gas" decoder;
  '(max_fee_per_gas, decoder) ← Decoder.decode_field u64_decode "max_fee_per_gas" decoder;
  '(gas_limit, decoder) ← Decoder.decode_field u64_decode "gas_limit" decoder;
  '(to, decoder) ← Decoder.decode_field TxKind.decode_unfinished "to" decoder;
  '(value, decoder) ← Decoder.decode_field U256_decode "value" decoder;
  '(data, decoder) ← Decoder.decode_field Bytes_decode "data" decoder;
  '(access_list, decoder) ← Decoder.decode_field access_list_decode "access_list" decoder;
  '(signature_y_parity, decoder) ← Decoder.decode_field bool_decode "signature_y_parity" decoder;
  '(signature_r, decoder) ← Decoder.decode_field U256_decode "signature_r" decoder;
  '(signature_s, decoder) ← Decoder.decode_field U256_decode "signature_s" decoder;
  let tx := mk chain_id nonce max_priority_fee_per_gas max_fee_per_gas gas_limit to value data
              access_list signature_y_parity signature_r signature_s in
  remaining ← Decoder.finish decoder;
  Ok (tx, remaining).
End EIP1559Transaction.

Module EIP4844Transaction.
Record t := mk {
  chain_id : Z; nonce : Z; max_priority_fee_per_gas : Z; max_fee_per_gas : Z; gas : Z;
  to : Address; value : Z; data : list Z; access_list : AccessList;
  max_fee_per_blob_gas : Z; blob_versioned_hashes : list H256;
  signature_y_parity : bool; signature_r : Z; signature_s : Z
}.
Definition encode (self : t) : list Z :=
  Encoder.new []
  |> field u64_encode (chain_id self)
  |> field u64_encode (nonce self)
  |> field u64_encode (max_priority_fee_per_gas self)
  |> field u64_encode (max_fee_per_gas self)
  |> field u64_encode (gas self)
  |> field Address_encode (to self)
  |> field U256_encode (value self)
  |> field Bytes_encode (data self)
  |> field access_list_encode (access_list self)
  |> field U256_encode (max_fee_per_blob_gas self)
  |> field (vec_encode H256_encode) (blob_versioned_hashes self)
  |> field bool_encode (signature_y_parity self)
  |> field U256_encode (signature_r self)
  |> field U256_encode (signature_s self)
  |> Encoder.finish.
Definition decode_unfinished `{Profile} (rlp : list Z) : dres (t * list Z) :=
  decoder ← Decoder.new rlp;
  '(chain_id, decoder) ← Decoder.decode_field u64_decode "chain_id" decoder;
  '(nonce, decoder) ← Decoder.decode_field u64_decode "nonce" decoder;
  '(max_priority_fee_per_gas, decoder) ←
    Decoder.decode_field u64_decode "max_priority_fee_per_gas" decoder;
  '(max_fee_per_gas, decoder) ← Decoder.decode_field u64_decode "max_fee_per_gas" decoder;
  '(gas, decoder) ← Decoder.decode_field u64_decode "gas" decoder;
  '(to, decoder) ← Decoder.decode_field Address_decode "to" decoder;
  '(value, decoder) ← Decoder.decode_field U256_decode "value" decoder;
  '(data, decoder) ← Decoder.decode_field Bytes_decode "data" decoder;
  '(access_list, decoder) ← Decoder.decode_field access_list_decode "access_list" decoder;
  '(max_fee_per_blob_gas, decoder) ← Decoder.decode_field U256_decode "max_fee_per_blob_gas" decoder;
  '(blob_versioned_hashes, decoder) ←
    Decoder.decode_field (vec_decode H256_decode) "blob_versioned_hashes" decoder;
  '(signature_y_parity, decoder) ← Decoder.decode_field bool_decode "signature_y_parity" decoder;
  '(signature_r, decoder) ← Decoder.decode_field U256_decode "signature_r" decoder;
  '(signature_s, decoder) ← Decoder.decode_field U256_decode "signature_s" decoder;
  let tx := mk chain_id nonce max_priority_fee_per_gas max_fee_per_gas gas to value data
              access_list max_fee_per_blob_gas blob_versioned_hashes
              signature_y_parity signature_r signature_s in
  remaining ← Decoder.finish decoder;
  Ok (tx, remaining).
End EIP4844Transaction.

(** ** transaction.rs: the enum *)
Module Transaction.
Inductive t :=
  | LegacyTransaction (tx : LegacyTransaction.t)
  | EIP2930Transaction (tx : EIP2930Transaction.t)
  | EIP1559Transaction (tx : EIP1559Transaction.t)
  | EIP4844Transaction (tx : EIP4844Transaction.t).

Definition tx_type (self : t) : TxType.t :=
  match self with
  | LegacyTransaction _ => TxType.Legacy
  | EIP2930Transaction _ => TxType.EIP2930
  | EIP1559Transaction _ => TxType.EIP1559
  | EIP4844Transaction _ => TxType.EIP4844
  end.

Definition encode_canonical (self : t) : list Z :=
  match self with
  | LegacyTransaction _ => []
  | _ => [TxType.to_u8 (tx_type self)]
  end ++
  match self with
  | LegacyTransaction t => LegacyTransaction.encode t
  | EIP2930Transaction t => EIP2930Transaction.encode t
  | EIP1559Transaction t => EIP1559Transaction.encode t
  | EIP4844Transaction t => EIP4844Transaction.encode t
  end.

Definition invalid_type {A} (ty : Z) : dres A :=
  Err (Custom ("Invalid transaction type: " ++ pretty ty)).

Definition decode_canonical `{Profile} (bytes : list Z) : dres t :=
  let legacy := LegacyTransaction <$> decode LegacyTransaction.decode_unfinished bytes in
  match head bytes with
  | Some tx_type =>
    if tx_type <? 0x7f then
      tx_bytes ← slice_from bytes 1;
      if tx_type =? 0x0 then
        LegacyTransaction <$> decode LegacyTransaction.decode_unfinished tx_bytes
      else if tx_type =? 0x1 then
        EIP2930Transaction <$> decode EIP2930Transaction.decode_unfinished tx_bytes
      else if tx_type =? 0x2 then
        EIP1559Transaction <$> decode EIP1559Transaction.decode_unfinished tx_bytes
      else if tx_type =? 0x3 then
        EIP4844Transaction <$> decode EIP4844Transaction.decode_unfinished tx_bytes
      else invalid_type tx_type
    else legacy
  | None => legacy
  end.

Definition encode (self : t) : list Z :=
  match self with
  | LegacyTransaction t => LegacyTransaction.encode t
  | tx => Bytes_encode (encode_canonical tx)
  end.

Definition decode_unfinished `{Profile} (rlp : list Z) : dres (t * list Z) :=
  as_bytes ← is_encoded_as_bytes rlp;
  if as_bytes : bool then
    payload ← get_rlp_bytes_item_payload rlp;
    tx_type ← unwrap (head payload);
    tx_encoding ← slice_from payload 1;
    if tx_type =? 0x0 then
      '(tx, rem) ← LegacyTransaction.decode_unfinished tx_encoding; Ok (LegacyTransaction tx, rem)
    else if tx_type =? 0x1 then
      '(tx, rem) ← EIP2930Transaction.decode_unfinished tx_encoding; Ok (EIP2930Transaction tx, rem)
    else if tx_type =? 0x2 then
      '(tx, rem) ← EIP1559Transaction.decode_unfinished tx_encoding; Ok (EIP1559Transaction tx, rem)
    else if tx_type =? 0x3 then
      '(tx, rem) ← EIP4844Transaction.decode_unfinished tx_encoding; Ok (EIP4844Transaction tx, rem)
    else invalid_type tx_type
  else
    '(tx, rem) ← LegacyTransaction.decode_unfinished rlp; Ok (LegacyTransaction tx, rem).

(** *** Accessors *)
Definition gas_limit (self : t) : Z :=
  match self with
  | LegacyTransaction tx => LegacyTransaction.gas tx
  | EIP2930Transaction tx => EIP2930Transaction.gas_limit tx
  | EIP1559Transaction tx => EIP1559Transaction.gas_limit tx
  | EIP4844Transaction tx => EIP4844Transaction.gas tx
  end.
Definition gas_price (self : t) : Z :=
  match self with
  | LegacyTransaction tx => LegacyTransaction.gas_price tx
  | EIP2930Transaction tx => EIP2930Transaction.gas_price tx
  | EIP1559Transaction tx => EIP1559Transaction.max_fee_per_gas tx
  | EIP4844Transaction tx => EIP4844Transaction.max_fee_per_gas tx
  end.
Definition to (self : t) : TxKind.t :=
  match self with
  | LegacyTransaction tx => LegacyTransaction.to tx
  | EIP2930Transaction tx => EIP2930Transaction.to tx
  | EIP1559Transaction tx => EIP1559Transaction.to tx
  | EIP4844Transaction tx => TxKind.Call (EIP4844Transaction.to tx)
  end.
Definition value (self : t) : Z :=
  match self with
  | LegacyTransaction tx => LegacyTransaction.value tx
  | EIP2930Transaction tx => EIP2930Transaction.value tx
  | EIP1559Transaction tx => EIP1559Transaction.value tx
  | EIP4844Transaction tx => EIP4844Transaction.value tx
  end.
Definition max_priority_fee (self : t) : option Z :=
  match self with
  | LegacyTransaction _ => None
  | EIP2930Transaction _ => None
  | EIP1559Transaction tx => Some (EIP1559Transaction.max_priority_fee_per_gas tx)
  | EIP4844Transaction tx => Some (EIP4844Transaction.max_priority_fee_per_gas tx)
  end.
Definition access_list (self : t) : AccessList :=
  match self with
  | LegacyTransaction _ => []
  | EIP2930Transaction tx => EIP2930Transaction.access_list tx
  | EIP1559Transaction tx => EIP1559Transaction.access_list tx
  | EIP4844Transaction tx => EIP4844Transaction.access_list tx
  end.
Definition nonce (self : t) : Z :=
  match self with
  | LegacyTransaction tx => LegacyTransaction.nonce tx
  | EIP2930Transaction tx => EIP2930Transaction.nonce tx
  | EIP1559Transaction tx => EIP1559Transaction.nonce tx
  | EIP4844Transaction tx => EIP4844Transaction.nonce tx
  end.
Definition data (self : t) : list Z :=
  match self with
  | LegacyTransaction tx => LegacyTransaction.data tx
  | EIP2930Transaction tx => EIP2930Transaction.data tx
  | EIP1559Transaction tx => EIP1559Transaction.data tx
  | EIP4844Transaction tx => EIP4844Transaction.data tx
  end.
Definition blob_versioned_hashes (self : t) : list H256 :=
  match self with
  | EIP4844Transaction tx => EIP4844Transaction.blob_versioned_hashes tx
  | _ => []
  end.
Definition max_fee_per_blob_gas (self : t) : option Z :=
  match self with
  | EIP4844Transaction tx => Some (EIP4844Transaction.max_fee_per_blob_gas tx)
  | _ => None
  end.
Definition is_create (to : TxKind.t) : bool :=
  match to with TxKind.Create => true | _ => false end.
Definition is_contract_creation (self : t) : bool :=
  match self with
  | LegacyTransaction t => is_create (LegacyTransaction.to t)
  | EIP2930Transaction t => is_create (EIP2930Transaction.to t)
  | EIP1559Transaction t => is_create (EIP1559Transaction.to t)
  | EIP4844Transaction _ => false
  end.
Definition max_fee_per_gas (self : t) : option Z :=
  match self with
  | LegacyTransaction _ => None
  | EIP2930Transaction _ => None
  | EIP1559Transaction tx => Some (EIP1559Transaction.max_fee_per_gas tx)
  | EIP4844Transaction tx => Some (EIP4844Transaction.max_fee_per_gas tx)
  end.

(** *** Fees *)
Definition gas_tip_cap (self : t) : Z := default (gas_price self) (max_priority_fee self).
Definition gas_fee_cap (self : t) : Z := default (gas_price self) (max_fee_per_gas self).
Definition effective_gas_tip (self : t) (base_fee : option Z) : option Z :=
  match base_fee with
  | None => Some (gas_tip_cap self)
  | Some base_fee =>
    tip ← (if gas_fee_cap self <? base_fee then None else Some (gas_fee_cap self - base_fee));
    Some (Z.min tip (gas_fee_cap self))
  end.

(** *** Chain id and sender *)

(** [U256::as_u64] panics on a value above [u64::MAX]. *)
Definition as_u64 (x : Z) : pres Z := if x <? 2 ^ 64 then Ok x else Panic.
Definition saturating_sub (a b : Z) : Z := Z.max 0 (a - b).

Definition derive_legacy_chain_id `{Profile} (v : Z) : pres (option Z) :=
  v ← as_u64 v;
  if (v =? 27) || (v =? 28) then Ok None
  else d ← usub v 35; Ok (Some (d / 2)).

Definition chain_id `{Profile} (self : t) : pres (option Z) :=
  match self with
  | LegacyTransaction tx => derive_legacy_chain_id (LegacyTransaction.v tx)
  | EIP2930Transaction tx => Ok (Some (EIP2930Transaction.chain_id tx))
  | EIP1559Transaction tx => Ok (Some (EIP1559Transaction.chain_id tx))
  | EIP4844Transaction tx => Ok (Some (EIP4844Transaction.chain_id tx))
  end.

(** The parity bit of the signature that [sender] passes on. *)
Definition y_parity `{Profile} (self : t) : pres bool :=
  match self with
  | LegacyTransaction tx =>
    cid ← chain_id self;
    match cid with
    | Some chain_id =>
      v ← as_u64 (LegacyTransaction.v tx);
      d ← umul chain_id 2;
      k ← uadd 35 d;
      Ok (negb (saturating_sub v k =? 0))
    | None =>
      v ← as_u64 (LegacyTransaction.v tx);
      Ok (negb (saturating_sub v 27 =? 0))
    end
  | EIP2930Transaction tx => Ok (EIP2930Transaction.signature_y_parity tx)
  | EIP1559Transaction tx => Ok (EIP1559Transaction.signature_y_parity tx)
  | EIP4844Transaction tx => Ok (EIP4844Transaction.signature_y_parity tx)
  end.

(** The buffer of [sender]: the message that the signature signs. *)
Definition signed_message `{Profile} (self : t) : pres (list Z) :=
  match self with
  | LegacyTransaction tx =>
    cid ← chain_id self;
    match cid with
    | None => Ok (
      Encoder.new []
      |> field u64_encode (LegacyTransaction.nonce tx)
      |> field u64_encode (LegacyTransaction.gas_price tx)
      |> field u64_encode (LegacyTransaction.gas tx)
      |> field TxKind.encode (LegacyTransaction.to tx)
      |> field U256_encode (LegacyTransaction.value tx)
      |> field Bytes_encode (LegacyTransaction.data tx)
      |> Encoder.finish)
    | Some chain_id => Ok (
      Encoder.new []
      |> field u64_encode (LegacyTransaction.nonce tx)
      |> field u64_encode (LegacyTransaction.gas_price tx)
      |> field u64_encode (LegacyTransaction.gas tx)
      |> field TxKind.encode (LegacyTransaction.to tx)
      |> field U256_encode (LegacyTransaction.value tx)
      |> field Bytes_encode (LegacyTransaction.data tx)
      |> field u64_encode chain_id
      |> field u8_encode 0
      |> field u8_encode 0
      |> Encoder.finish)
    end
  | EIP2930Transaction tx => Ok (
    Encoder.new [TxType.to_u8 (tx_type self)]
    |> field u64_encode (EIP2930Transaction.chain_id tx)
    |> field u64_encode (EIP2930Transaction.nonce tx)
    |> field u64_encode (EIP2930Transaction.gas_price tx)
    |> field u64_encode (EIP2930Transaction.gas_limit tx)
    |> field TxKind.encode (EIP2930Transaction.to tx)
    |> field U256_encode (EIP2930Transaction.value tx)
    |> field Bytes_encode (EIP2930Transaction.data tx)
    |> field access_list_encode (EIP2930Transaction.access_list tx)
    |> Encoder.finish)
  | EIP1559Transaction tx => Ok (
    Encoder.new [TxType.to_u8 (tx_type self)]
    |> field u64_encode (EIP1559Transaction.chain_id tx)
    |> field u64_encode (EIP1559Transaction.nonce tx)
    |> field u64_encode (EIP1559Transaction.max_priority_fee_per_gas tx)
    |> field u64_encode (EIP1559Transaction.max_fee_per_gas tx)
    |> field u64_encode (EIP1559Transaction.gas_limit tx)
    |> field TxKind.encode (EIP1559Transaction.to tx)
    |> field U256_encode (EIP1559Transaction.value tx)
    |> field Bytes_encode (EIP1559Transaction.data tx)
    |> field access_list_encode (EIP1559Transaction.access_list tx)
    |> Encoder.finish)
  | EIP4844Transaction tx => Ok (
    Encoder.new [TxType.to_u8 (tx_type self)]
    |> field u64_encode (EIP4844Transaction.chain_id tx)
    |> field u64_encode (EIP4844Transaction.nonce tx)
    |> field u64_encode (EIP4844Transaction.max_priority_fee_per_gas tx)
    |> field u64_encode (EIP4844Transaction.max_fee_per_gas tx)
    |> field u64_encode (EIP4844Transaction.gas tx)
    |> field Address_encode (EIP4844Transaction.to tx)
    |> field U256_encode (EIP4844Transaction.value tx)
    |> field Bytes_encode (EIP4844Transaction.data tx)
    |> field access_list_encode (EIP4844Transaction.access_list tx)
    |> field U256_encode (EIP4844Transaction.max_fee_per_blob_gas tx)
    |> field (vec_encode H256_encode) (EIP4844Transaction.blob_versioned_hashes tx)
    |> Encoder.finish)
  end.

Definition signature_r (self : t) : Z :=
  match self with
  | LegacyTransaction tx => LegacyTransaction.r tx
  | EIP2930Transaction tx => EIP2930Transaction.signature_r tx
  | EIP1559Transaction tx => EIP1559Transaction.signature_r tx
  | EIP4844Transaction tx => EIP4844Transaction.signature_r tx
  end.
Definition signature_s (self : t) : Z :=
  match self with
  | LegacyTransaction tx => LegacyTransaction.s tx
  | EIP2930Transaction tx => EIP2930Transaction.signature_s tx
  | EIP1559Transaction tx => EIP1559Transaction.signature_s tx
  | EIP4844Transaction tx => EIP4844Transaction.signature_s tx
  end.

Section Crypto.
Context `{Profile}.
(** [Keccak256]; [RecoverableSignature::from_compact] on 64 bytes and a recovery id;
    [recover_ecdsa] followed by [serialize_uncompressed], on a digest. *)
Variable keccak256 : list Z → list Z.
Variable Signature : Type.
Variable from_compact : list Z → Z → option Signature.
Variable recover_ecdsa : list Z → Signature → option (list Z).

Definition recover_address (signature_r signature_s : Z) (signature_y_parity : bool)
    (message : list Z) : pres Address :=
  let signature_bytes := to_be 32 signature_r ++ to_be 32 signature_s in
  signature ← unwrap (from_compact signature_bytes (if signature_y_parity then 1 else 0));
  let msg_digest := keccak256 message in
  public ← unwrap (recover_ecdsa msg_digest signature);
  key ← slice_from public 1;
  slice_from (keccak256 key) 12.

Definition sender (self : t) : pres Address :=
  signature_y_parity ← y_parity self;
  buf ← signed_message self;
  recover_address (signature_r self) (signature_s self) signature_y_parity buf.

Definition compute_hash (self : t) : H256 := keccak256 (encode_canonical self).
End Crypto.
End Transaction.

(** ** receipt.rs *)
Module Log.
Record t := mk { address : Address; topics : list H256; data : list Z }.
Definition encode (self : t) : list Z :=
  Encoder.new []
  |> field Address_encode (address self)
  |> field (vec_encode H256_encode) (topics self)
  |> field Bytes_encode (data self)
  |> Encoder.finish.
Definition decode_unfinished `{Profile} (rlp : list Z) : dres (t * list Z) :=
  decoder ← Decoder.new rlp;
  '(address, decoder) ← Decoder.decode_field Address_decode "address" decoder;
  '(topics, decoder) ← Decoder.decode_field (vec_decode H256_decode) "topics" decoder;
  '(data, decoder) ← Decoder.decode_field Bytes_decode "data" decoder;
  let log := mk address topics data in
  remaining ← Decoder.finish decoder;
  Ok (log, remaining).
End Log.

Module Receipt.
Record t := mk {
  tx_type : TxType.t; succeeded : bool; cumulative_gas_used : Z; bloom : list Z; logs : list Log.t
}.
(** [accrue] is [Bloom::accrue(BloomInput::Raw(_))]. *)
Definition bloom_from_logs (accrue : list Z → list Z → list Z) (logs : list Log.t) : list Z :=
  fold_left (λ bloom log,
    fold_left (λ bloom topic, accrue bloom topic) (Log.topics log)
      (accrue bloom (Log.address log))) logs (replicate 256 0).
Definition new (accrue : list Z → list Z → list Z) (tx_type : TxType.t) (succeeded : bool)
    (cumulative_gas_used : Z) (logs : list Log.t) : t :=
  mk tx_type succeeded cumulative_gas_used (bloom_from_logs accrue logs) logs.
Definition encode (self : t) : list Z :=
  match tx_type self with
  | TxType.Legacy => []
  | _ => [TxType.to_u8 (tx_type self)]
  end ++
  (Encoder.new []
   |> field bool_encode (succeeded self)
   |> field u64_encode (cumulative_gas_used self)
   |> field Bloom_encode (bloom self)
   |> field (vec_encode Log.encode) (logs self)
   |> Encoder.finish).
Definition decode_unfinished `{Profile} (rlp : list Z) : dres (t * list Z) :=
  '(tx_type, rlp) ←
    match head rlp with
    | Some tx_type =>
      if tx_type <? 0x7f then
        if tx_type =? 0x0 then r ← slice_from rlp 1; Ok (TxType.Legacy, r)
        else if tx_type =? 0x1 then r ← slice_from rlp 1; Ok (TxType.EIP2930, r)
        else if tx_type =? 0x2 then r ← slice_from rlp 1; Ok (TxType.EIP1559, r)
        else if tx_type =? 0x3 then r ← slice_from rlp 1; Ok (TxType.EIP4844, r)
        else Transaction.invalid_type tx_type
      else Ok (TxType.Legacy, rlp)
    | None => Ok (TxType.Legacy, rlp)
    end;
  decoder ← Decoder.new rlp;
  '(succeeded, decoder) ← Decoder.decode_field bool_decode "succeeded" decoder;
  '(cumulative_gas_used, decoder) ← Decoder.decode_field u64_decode "cumulative_gas_used" decoder;
  '(bloom, decoder) ← Decoder.decode_field Bloom_decode "bloom" decoder;
  '(logs, decoder) ← Decoder.decode_field (vec_decode Log.decode_unfinished) "logs" decoder;
  let receipt := mk tx_type succeeded cumulative_gas_used bloom logs in
  remaining ← Decoder.finish decoder;
  Ok (receipt, remaining).
End Receipt.

(** ** account.rs *)
Module AccountInfo.
Record t := mk { code_hash : H256; balance : Z; nonce : Z }.
Definition encode (self : t) : list Z :=
  Encoder.new []
  |> field H256_encode (code_hash self)
  |> field U256_encode (balance self)
  |> field u64_encode (nonce self)
  |> Encoder.finish.
Definition decode_unfinished `{Profile} (rlp : list Z) : dres (t * list Z) :=
  decoder ← Decoder.new rlp;
  '(code_hash, decoder) ← Decoder.decode_field H256_decode "code_hash" decoder;
  '(balance, decoder) ← Decoder.decode_field U256_decode "balance" decoder;
  '(nonce, decoder) ← Decoder.decode_field u64_decode "nonce" decoder;
  let account_info := mk code_hash balance nonce in
  remaining ← Decoder.finish decoder;
  Ok (account_info, remaining).
End AccountInfo.

Module AccountState.
Record t := mk { nonce : Z; balance : Z; storage_root : H256; code_hash : H256 }.
Definition encode (self : t) : list Z :=
  Encoder.new []
  |> field u64_encode (nonce self)
  |> field U256_encode (balance self)
  |> field H256_encode (storage_root self)
  |> field H256_encode (code_hash self)
  |> Encoder.finish.
Definition decode_unfinished `{Profile} (rlp : list Z) : dres (t * list Z) :=
  decoder ← Decoder.new rlp;
  '(nonce, decoder) ← Decoder.decode_field u64_decode "nonce" decoder;
  '(balance, decoder) ← Decoder.decode_field U256_decode "balance" decoder;
  '(storage_root, decoder) ← Decoder.decode_field H256_decode "storage_root" decoder;
  '(code_hash, decoder) ← Decoder.decode_field H256_decode "code_hash" decoder;
  let state := mk nonce balance storage_root code_hash in
  remaining ← Decoder.finish decoder;
  Ok (state, remaining).
End AccountState.

(** ** block.rs *)
Module Withdrawal.
Record t := mk { index : Z; validator_index : Z; address : Address; amount : Z }.
Definition encode (self : t) : list Z :=
  Encoder.new []
  |> field u64_encode (index self)
  |> field u64_encode (validator_index self)
  |> field Address_encode (address self)
  |> field u64_encode (amount self)
  |> Encoder.finish.
Definition decode_unfinished `{Profile} (rlp : list Z) : dres (t * list Z) :=
  decoder ← Decoder.new rlp;
  '(index, decoder) ← Decoder.decode_field u64_decode "index" decoder;
  '(validator_index, decoder) ← Decoder.decode_field u64_decode "validator_index" decoder;
  '(address, decoder) ← Decoder.decode_field Address_decode "address" decoder;
  '(amount, decoder) ← Decoder.decode_field u64_decode "amount" decoder;
  remaining ← Decoder.finish decoder;
  Ok (mk index validator_index address amount, remaining).
End Withdrawal.

Module BlockHeader.
Record t := mk {
  parent_hash : H256; ommers_hash : H256; coinbase : Address; state_root : H256;
  transactions_root : H256; receipts_root : H256; logs_bloom : list Z; difficulty : Z;
  number : Z; gas_limit : Z; gas_used : Z; timestamp : Z; extra_data : list Z;
  prev_randao : H256; nonce : Z;
  base_fee_per_gas : option Z; withdrawals_root : option H256; blob_gas_used : option Z;
  excess_blob_gas : option Z; parent_beacon_block_root : option H256
}.
Definition encode (self : t) : list Z :=
  Encoder.new []
  |> field H256_encode (parent_hash self)
  |> field H256_encode (ommers_hash self)
  |> field Address_encode (coinbase self)
  |> field H256_encode (state_root self)
  |> field H256_encode (transactions_root self)
  |> field H256_encode (receipts_root self)
  |> field Bloom_encode (logs_bloom self)
  |> field U256_encode (difficulty self)
  |> field u64_encode (number self)
  |> field u64_encode (gas_limit self)
  |> field u64_encode (gas_used self)
  |> field u64_encode (timestamp self)
  |> field Bytes_encode (extra_data self)
  |> field H256_encode (prev_randao self)
  |> field array_encode (to_be 8 (nonce self))
  |> optional_field u64_encode (base_fee_per_gas self)
  |> optional_field H256_encode (withdrawals_root self)
  |> optional_field u64_encode (blob_gas_used self)
  |> optional_field u64_encode (excess_blob_gas self)
  |> optional_field H256_encode (parent_beacon_block_root self)
  |> Encoder.finish.
Definition decode_unfinished `{Profile} (rlp : list Z) : dres (t * list Z) :=
  decoder ← Decoder.new rlp;
  '(parent_hash, decoder) ← Decoder.decode_field H256_decode "parent_hash" decoder;
  '(ommers_hash, decoder) ← Decoder.decode_field H256_decode "ommers_hash" decoder;
  '(coinbase, decoder) ← Decoder.decode_field Address_decode "coinbase" decoder;
  '(state_root, decoder) ← Decoder.decode_field H256_decode "state_root" decoder;
  '(transactions_root, decoder) ← Decoder.decode_field H256_decode "transactions_root" decoder;
  '(receipts_root, decoder) ← Decoder.decode_field H256_decode "receipts_root" decoder;
  '(logs_bloom, decoder) ← Decoder.decode_field Bloom_decode "logs_bloom" decoder;
  '(difficulty, decoder) ← Decoder.decode_field U256_decode "difficulty" decoder;
  '(number, decoder) ← Decoder.decode_field u64_decode "number" decoder;
  '(gas_limit, decoder) ← Decoder.decode_field u64_decode "gas_limit" decoder;
  '(gas_used, decoder) ← Decoder.decode_field u64_decode "gas_used" decoder;
  '(timestamp, decoder) ← Decoder.decode_field u64_decode "timestamp" decoder;
  '(extra_data, decoder) ← Decoder.decode_field Bytes_decode "extra_data" decoder;
  '(prev_randao, decoder) ← Decoder.decode_field H256_decode "prev_randao" decoder;
  '(nonce, decoder) ← Decoder.decode_field (array_decode 8) "nonce" decoder;
  let nonce := of_be nonce in
  '(base_fee_per_gas, decoder) ← Decoder.decode_optional_field u64_decode decoder;
  '(withdrawals_root, decoder) ← Decoder.decode_optional_field H256_decode decoder;
  '(blob_gas_used, decoder) ← Decoder.decode_optional_field u64_decode decoder;
  '(excess_blob_gas, decoder) ← Decoder.decode_optional_field u64_decode decoder;
  '(parent_beacon_block_root, decoder) ← Decoder.decode_optional_field H256_decode decoder;
  remaining ← Decoder.finish decoder;
  Ok (mk parent_hash ommers_hash coinbase state_root transactions_root receipts_root logs_bloom
        difficulty number gas_limit gas_used timestamp extra_data prev_randao nonce
        base_fee_per_gas withdrawals_root blob_gas_used excess_blob_gas parent_beacon_block_root,
      remaining).
Definition compute_block_hash (keccak256 : list Z → list Z) (self : t) : H256 :=
  keccak256 (encode self).
End BlockHeader.

Module BlockBody.
Record t := mk {
  transactions : list Transaction.t; ommers : list BlockHeader.t;
  withdrawals : option (list Withdrawal.t)
}.
Definition empty : t := mk [] [] (Some []).
Definition encode (self : t) : list Z :=
  Encoder.new []
  |> field (vec_encode Transaction.encode) (transactions self)
  |> field (vec_encode BlockHeader.encode) (ommers self)
  |> optional_field (vec_encode Withdrawal.encode) (withdrawals self)
  |> Encoder.finish.
Definition decode_unfinished `{Profile} (rlp : list Z) : dres (t * list Z) :=
  decoder ← Decoder.new rlp;
  '(transactions, decoder) ←
    Decoder.decode_field (vec_decode Transaction.decode_unfinished) "transactions" decoder;
  '(ommers, decoder) ← Decoder.decode_field (vec_decode BlockHeader.decode_unfinished) "ommers" decoder;
  '(withdrawals, decoder) ← Decoder.decode_optional_field (vec_decode Withdrawal.decode_unfinished) decoder;
  remaining ← Decoder.finish decoder;
  Ok (mk transactions ommers withdrawals, remaining).
End BlockBody.

Module Block.
Record t := mk { header : BlockHeader.t; body : BlockBody.t }.
Definition encode (self : t) : list Z :=
  Encoder.new []
  |> field BlockHeader.encode (header self)
  |> field (vec_encode Transaction.encode) (BlockBody.transactions (body self))
  |> field (vec_encode BlockHeader.encode) (BlockBody.ommers (body self))
  |> optional_field (vec_encode Withdrawal.encode) (BlockBody.withdrawals (body self))
  |> Encoder.finish.
Definition decode_unfinished `{Profile} (rlp : list Z) : dres (t * list Z) :=
  decoder ← Decoder.new rlp;
  '(header, decoder) ← Decoder.decode_field BlockHeader.decode_unfinished "header" decoder;
  '(transactions, decoder) ←
    Decoder.decode_field (vec_decode Transaction.decode_unfinished) "transactions" decoder;
  '(ommers, decoder) ← Decoder.decode_field (vec_decode BlockHeader.decode_unfinished) "ommers" decoder;
  '(withdrawals, decoder) ← Decoder.decode_optional_field (vec_decode Withdrawal.decode_unfinished) decoder;
  remaining ← Decoder.finish decoder;
  let body := BlockBody.mk transactions ommers withdrawals in
  let block := mk header body in
  Ok (block, remaining).
End Block.
