(* ===== verification/CoreLaws.v ===== *)
(** * Core types: round trips and injectivity

    Every RLP impl of [CoreTypes] fulfils the codec interface of [Codec], which
    gives the round trips; the canonical encoding and the signed message of a
    transaction determine it. *)

From S2P Require Import Prelude Rlp RlpLaws U256 Codec CoreTypes.

(** ** Well-formed values: what the Rust types guarantee *)
Definition wf_access_list : AccessList → Prop :=
  Forall (λ e, is_array 20 e.1 ∧ Forall (is_array 32) e.2).
Definition wf_to (to : TxKind.t) : Prop :=
  match to with TxKind.Call a => is_array 20 a | TxKind.Create => True end.

Definition wf_legacy (tx : LegacyTransaction.t) : Prop :=
  is_uint 64 (LegacyTransaction.nonce tx) ∧ is_uint 64 (LegacyTransaction.gas_price tx) ∧
  is_uint 64 (LegacyTransaction.gas tx) ∧ wf_to (LegacyTransaction.to tx) ∧
  is_uint 256 (LegacyTransaction.value tx) ∧ bytes_ok (LegacyTransaction.data tx) ∧
  is_uint 256 (LegacyTransaction.v tx) ∧ is_uint 256 (LegacyTransaction.r tx) ∧
  is_uint 256 (LegacyTransaction.s tx).
Definition wf_2930 (tx : EIP2930Transaction.t) : Prop :=
  is_uint 64 (EIP2930Transaction.chain_id tx) ∧ is_uint 64 (EIP2930Transaction.nonce tx) ∧
  is_uint 64 (EIP2930Transaction.gas_price tx) ∧ is_uint 64 (EIP2930Transaction.gas_limit tx) ∧
  wf_to (EIP2930Transaction.to tx) ∧ is_uint 256 (EIP2930Transaction.value tx) ∧
  bytes_ok (EIP2930Transaction.data tx) ∧ wf_access_list (EIP2930Transaction.access_list tx) ∧
  is_uint 256 (EIP2930Transaction.signature_r tx) ∧
  is_uint 256 (EIP2930Transaction.signature_s tx).
Definition wf_1559 (tx : EIP1559Transaction.t) : Prop :=
  is_uint 64 (EIP1559Transaction.chain_id tx) ∧ is_uint 64 (EIP1559Transaction.nonce tx) ∧
  is_uint 64 (EIP1559Transaction.max_priority_fee_per_gas tx) ∧
  is_uint 64 (EIP1559Transaction.max_fee_per_gas tx) ∧
  is_uint 64 (EIP1559Transaction.gas_limit tx) ∧ wf_to (EIP1559Transaction.to tx) ∧
  is_uint 256 (EIP1559Transaction.value tx) ∧ bytes_ok (EIP1559Transaction.data tx) ∧
  wf_access_list (EIP1559Transaction.access_list tx) ∧
  is_uint 256 (EIP1559Transaction.signature_r tx) ∧
  is_uint 256 (EIP1559Transaction.signature_s tx).
Definition wf_4844 (tx : EIP4844Transaction.t) : Prop :=
  is_uint 64 (EIP4844Transaction.chain_id tx) ∧ is_uint 64 (EIP4844Transaction.nonce tx) ∧
  is_uint 64 (EIP4844Transaction.max_priority_fee_per_gas tx) ∧
  is_uint 64 (EIP4844Transaction.max_fee_per_gas tx) ∧ is_uint 64 (EIP4844Transaction.gas tx) ∧
  is_array 20 (EIP4844Transaction.to tx) ∧ is_uint 256 (EIP4844Transaction.value tx) ∧
  bytes_ok (EIP4844Transaction.data tx) ∧ wf_access_list (EIP4844Transaction.access_list tx) ∧
  is_uint 256 (EIP4844Transaction.max_fee_per_blob_gas tx) ∧
  Forall (is_array 32) (EIP4844Transaction.blob_versioned_hashes tx) ∧
  is_uint 256 (EIP4844Transaction.signature_r tx) ∧
  is_uint 256 (EIP4844Transaction.signature_s tx).
Definition wf_transaction (tx : Transaction.t) : Prop :=
  match tx with
  | Transaction.LegacyTransaction tx => wf_legacy tx
  | Transaction.EIP2930Transaction tx => wf_2930 tx
  | Transaction.EIP1559Transaction tx => wf_1559 tx
  | Transaction.EIP4844Transaction tx => wf_4844 tx
  end.
Definition wf_log (l : Log.t) : Prop :=
  is_array 20 (Log.address l) ∧ Forall (is_array 32) (Log.topics l) ∧ bytes_ok (Log.data l).
Definition wf_receipt (r : Receipt.t) : Prop :=
  is_uint 64 (Receipt.cumulative_gas_used r) ∧ is_array 256 (Receipt.bloom r) ∧
  Forall wf_log (Receipt.logs r).
Definition wf_account_info (a : AccountInfo.t) : Prop :=
  is_array 32 (AccountInfo.code_hash a) ∧ is_uint 256 (AccountInfo.balance a) ∧
  is_uint 64 (AccountInfo.nonce a).
Definition wf_account_state (a : AccountState.t) : Prop :=
  is_uint 64 (AccountState.nonce a) ∧ is_uint 256 (AccountState.balance a) ∧
  is_array 32 (AccountState.storage_root a) ∧ is_array 32 (AccountState.code_hash a).
Definition wf_withdrawal (w : Withdrawal.t) : Prop :=
  is_uint 64 (Withdrawal.index w) ∧ is_uint 64 (Withdrawal.validator_index w) ∧
  is_array 20 (Withdrawal.address w) ∧ is_uint 64 (Withdrawal.amount w).
Definition wf_header (h : BlockHeader.t) : Prop :=
  is_array 32 (BlockHeader.parent_hash h) ∧ is_array 32 (BlockHeader.ommers_hash h) ∧
  is_array 20 (BlockHeader.coinbase h) ∧ is_array 32 (BlockHeader.state_root h) ∧
  is_array 32 (BlockHeader.transactions_root h) ∧ is_array 32 (BlockHeader.receipts_root h) ∧
  is_array 256 (BlockHeader.logs_bloom h) ∧ is_uint 256 (BlockHeader.difficulty h) ∧
  is_uint 64 (BlockHeader.number h) ∧ is_uint 64 (BlockHeader.gas_limit h) ∧
  is_uint 64 (BlockHeader.gas_used h) ∧ is_uint 64 (BlockHeader.timestamp h) ∧
  bytes_ok (BlockHeader.extra_data h) ∧ is_array 32 (BlockHeader.prev_randao h) ∧
  is_uint 64 (BlockHeader.nonce h) ∧
  from_option (is_uint 64) True (BlockHeader.base_fee_per_gas h) ∧
  from_option (is_array 32) True (BlockHeader.withdrawals_root h) ∧
  from_option (is_uint 64) True (BlockHeader.blob_gas_used h) ∧
  from_option (is_uint 64) True (BlockHeader.excess_blob_gas h) ∧
  from_option (is_array 32) True (BlockHeader.parent_beacon_block_root h).

(** The optional header fields that are present come first: the fields of a fork
    are present only with those of the forks before it. *)
Definition fork_ordered (h : BlockHeader.t) : Prop :=
  (BlockHeader.base_fee_per_gas h = None → BlockHeader.withdrawals_root h = None) ∧
  (BlockHeader.withdrawals_root h = None → BlockHeader.blob_gas_used h = None) ∧
  (BlockHeader.blob_gas_used h = None → BlockHeader.excess_blob_gas h = None) ∧
  (BlockHeader.excess_blob_gas h = None → BlockHeader.parent_beacon_block_root h = None).

(** [Transaction::decode] recognises a typed transaction only by the prefix of a
    byte string of 56 bytes or more. *)
Definition recognised (tx : Transaction.t) : Prop :=
  Transaction.tx_type tx = TxType.Legacy ∨ 56 <= zlen (Transaction.encode_canonical tx).

Definition wf_body (b : BlockBody.t) : Prop :=
  Forall (λ tx, wf_transaction tx ∧ recognised tx) (BlockBody.transactions b) ∧
  Forall (λ h, wf_header h ∧ fork_ordered h) (BlockBody.ommers b) ∧
  from_option (Forall wf_withdrawal) True (BlockBody.withdrawals b).

(** Well-formedness is decidable. *)
Section Decidable.
#[export] Instance wf_to_dec to : Decision (wf_to to).
Proof. destruct to; apply _. Defined.
#[export] Instance wf_access_list_dec l : Decision (wf_access_list l).
Proof. unfold wf_access_list. apply _. Defined.
#[export] Instance wf_transaction_dec tx : Decision (wf_transaction tx).
Proof. unfold wf_transaction, wf_legacy, wf_2930, wf_1559, wf_4844. destruct tx; apply _. Defined.
#[export] Instance wf_log_dec l : Decision (wf_log l).
Proof. unfold wf_log. apply _. Defined.
#[export] Instance wf_receipt_dec r : Decision (wf_receipt r).
Proof. unfold wf_receipt. apply _. Defined.
#[export] Instance wf_withdrawal_dec w : Decision (wf_withdrawal w).
Proof. unfold wf_withdrawal. apply _. Defined.
#[export] Instance wf_header_dec h : Decision (wf_header h).
Proof. unfold wf_header. apply _. Defined.
#[export] Instance fork_ordered_dec h : Decision (fork_ordered h).
Proof. unfold fork_ordered. apply _. Defined.
#[export] Instance recognised_dec tx : Decision (recognised tx).
Proof. unfold recognised. apply _. Defined.
#[export] Instance wf_body_dec b : Decision (wf_body b).
Proof. unfold wf_body. apply _. Defined.
End Decidable.

(** ** Codecs *)

Section Codecs.
Context `{Profile}.

#[export] Instance access_list_codec : Codec access_list_encode access_list_decode wf_access_list.
Proof. unfold access_list_encode, access_list_decode, wf_access_list. apply _. Qed.

#[export] Instance TxKind_codec : Codec TxKind.encode TxKind.decode_unfinished wf_to.
Proof.
  split; cbn [rlp_encode rlp_decode]; unfold TxKind.encode, TxKind.decode_unfinished.
  - intros [a|] rest Hwf Hmax; [|cbn; by rewrite slice_from_cons].
    pose proof (codec_roundtrip Address_encode Address_decode _ a rest Hwf Hmax) as Hd.
    assert (∃ t, Address_encode a ++ rest = 0x94 :: t) as [t Ht].
    { destruct Hwf as [_ Hl]. unfold Address_encode, bytes_encode. rewrite Hl. by eexists. }
    rewrite Ht in *. cbn [head ok_or]. rewrite bind_Ok_l. change (0x94 =? RLP_NULL) with false.
    cbv iota. by rewrite Hd.
  - intros d x r Hd. res_inv.
    + match goal with Hs : slice_from _ _ = Ok _ |- _ =>
        apply slice_from_suffix in Hs as ([|b p] & -> & Hp) end; [done|]. by exists (b :: p).
    + match goal with Ha : Address_decode _ = Ok _ |- _ => exact (codec_consumes _ _ _ _ _ _ Ha) end.
Qed.

#[export] Instance Legacy_codec : Codec LegacyTransaction.encode LegacyTransaction.decode_unfinished wf_legacy.
Proof. struct_codec plain_struct. Qed.
#[export] Instance EIP2930_codec : Codec EIP2930Transaction.encode EIP2930Transaction.decode_unfinished wf_2930.
Proof. struct_codec plain_struct. Qed.
#[export] Instance EIP1559_codec : Codec EIP1559Transaction.encode EIP1559Transaction.decode_unfinished wf_1559.
Proof. struct_codec plain_struct. Qed.
#[export] Instance EIP4844_codec : Codec EIP4844Transaction.encode EIP4844Transaction.decode_unfinished wf_4844.
Proof. struct_codec plain_struct. Qed.
#[export] Instance Log_codec : Codec Log.encode Log.decode_unfinished wf_log.
Proof. struct_codec plain_struct. Qed.
#[export] Instance AccountInfo_codec : Codec AccountInfo.encode AccountInfo.decode_unfinished wf_account_info.
Proof. struct_codec plain_struct. Qed.
#[export] Instance AccountState_codec : Codec AccountState.encode AccountState.decode_unfinished wf_account_state.
Proof. struct_codec plain_struct. Qed.
#[export] Instance Withdrawal_codec : Codec Withdrawal.encode Withdrawal.decode_unfinished wf_withdrawal.
Proof. struct_codec plain_struct. Qed.

#[export] Instance BlockHeader_codec :
  Codec BlockHeader.encode BlockHeader.decode_unfinished (λ h, wf_header h ∧ fork_ordered h).
Proof.
  struct_codec ltac:(fun x Hwf => idtac). destruct Hwf as [Hwf Hord].
  unfold wf_header in Hwf. destruct_and! Hwf. unfold fork_ordered in Hord.
  decode_fields. 1: { split; [apply to_be_bytes|apply to_be_zlen]. }
  cbv zeta. rewrite of_be_to_be_small by done.
  destruct Hord as (Ho1 & Ho2 & Ho3 & Ho4).
  destruct x as [???????????????[][][][][]];
    try discriminate (Ho1 eq_refl); try discriminate (Ho2 eq_refl);
    try discriminate (Ho3 eq_refl); try discriminate (Ho4 eq_refl).
  all: cbn [app BlockHeader.base_fee_per_gas BlockHeader.withdrawals_root
    BlockHeader.blob_gas_used BlockHeader.excess_blob_gas BlockHeader.parent_beacon_block_root] in *.
  all: repeat decode_field_step; done.
Qed.

#[export] Instance Receipt_codec : Codec Receipt.encode Receipt.decode_unfinished wf_receipt.
Proof.
  split.
  - run_codec ltac:(fun x Hwf => idtac). unfold wf_receipt in Hwf. destruct_and! Hwf.
    match type of Hmax with context [struct_rlp ?l] => set (fields := l) in * end.
    assert (zlen (struct_rlp fields) <= isize_max) as Hmax2.
    { rewrite zlen_app in Hmax. match type of Hmax with zlen ?p + _ <= _ => pose proof (zlen_nonneg p) end. lia. }
    destruct (struct_rlp_head fields) as (b & t & Hb & Hb2).
    destruct x as [[] ????]; cbn [Receipt.tx_type app TxType.to_u8] in *.
    all: [>rewrite Hb; cbn [app head]; decide_bools; rewrite app_comm_cons, <-Hb, bind_Ok_l
         |cbn [head]; decide_bools; rewrite slice_from_cons, !bind_Ok_l..].
    all: unfold fields in *; decode_fields; done.
  - intros d x r Hd. cbn [rlp_decode] in Hd. unfold Receipt.decode_unfinished in Hd.
    apply bind_Ok in Hd as ([ty rlp] & Hty & Hd).
    assert (∃ p, d = p ++ rlp) as [p ->].
    { res_inv; try (by exists []);
        match goal with Hs : slice_from _ _ = Ok _ |- _ =>
          apply slice_from_suffix in Hs as (p & -> & _); by exists p end. }
    assert (∃ q, rlp = q ++ r ∧ q ≠ []) as (q & -> & Hq) by (clear Hty; struct_consumes).
    exists (p ++ q). split; [by rewrite app_assoc|]. by intros [_ ?]%app_eq_nil.
Qed.

Lemma legacy_struct tx : ∃ l, LegacyTransaction.encode tx = struct_rlp l.
Proof. unfold LegacyTransaction.encode. encode_fields. by eexists. Qed.

Lemma typed_roundtrip {A} (enc : A → list Z) dec wf `{!Codec enc dec wf} (x : A) ty rest :
  wf x → 56 <= zlen (ty :: enc x) → zlen (Bytes_encode (ty :: enc x)) <= isize_max →
  is_encoded_as_bytes (Bytes_encode (ty :: enc x) ++ rest) = Ok true ∧
  get_rlp_bytes_item_payload (Bytes_encode (ty :: enc x) ++ rest) = Ok (ty :: enc x ++ rest) ∧
  dec (enc x ++ rest) = Ok (x, rest).
Proof.
  intros Hwf Hlo Hmax. pose proof (zlen_bytes_encode (ty :: enc x)) as Hz.
  change (bytes_encode (ty :: enc x)) with (Bytes_encode (ty :: enc x)) in Hz.
  destruct (long_bytes_item (ty :: enc x) rest) as [-> ->]; [lia..|].
  split_and!; [done..|]. rewrite zlen_cons in Hz. apply (codec_roundtrip enc dec wf); [done|lia].
Qed.

#[export] Instance Transaction_codec : Codec Transaction.encode Transaction.decode_unfinished
  (λ tx, wf_transaction tx ∧ recognised tx).
Proof.
  split; cbn [rlp_encode rlp_decode].
  - intros tx rest [Hwf Hr] Hmax. unfold Transaction.decode_unfinished.
    destruct tx as [tx|tx|tx|tx]; cbn [wf_transaction] in Hwf.
    { cbn [Transaction.encode] in *.
      destruct (legacy_struct tx) as [l Hl].
      destruct (struct_rlp_head l) as (b & t & Hb & Hb2).
      assert (is_encoded_as_bytes (LegacyTransaction.encode tx ++ rest) = Ok false) as ->.
      { rewrite Hl, Hb. unfold is_encoded_as_bytes. cbn. by decide_bools. }
      rewrite bind_Ok_l. rewrite (codec_roundtrip _ _ wf_legacy) by done. done. }
    all: destruct Hr as [[=]|Hr]; unfold Transaction.encode in *.
    1: destruct (typed_roundtrip _ _ _ tx 0x1 rest Hwf Hr Hmax) as (Hb & Hp & Hd).
    2: destruct (typed_roundtrip _ _ _ tx 0x2 rest Hwf Hr Hmax) as (Hb & Hp & Hd).
    3: destruct (typed_roundtrip _ _ _ tx 0x3 rest Hwf Hr Hmax) as (Hb & Hp & Hd).
    all: match goal with Hb : is_encoded_as_bytes (?e ++ _) = _ |- _ =>
      change (Bytes_encode _) with e; rewrite Hb, bind_Ok_l, Hp, bind_Ok_l end.
    all: cbn [head unwrap]; rewrite bind_Ok_l, slice_from_cons, bind_Ok_l.
    all: cbn [Z.eqb Pos.eqb]; by rewrite Hd.
  - intros d x r Hd. unfold Transaction.decode_unfinished in Hd.
    apply bind_Ok in Hd as ([|] & _ & Hd).
    + apply bind_Ok in Hd as (payload & Hp & Hd). unfold get_rlp_bytes_item_payload in Hp.
      assert (∃ p, d = p ++ payload) as [p ->].
      { clear Hd. res_inv. match goal with Hs : slice_from d _ = Ok _ |- _ =>
          apply slice_from_suffix in Hs as (p & -> & _) end. by exists p. }
      clear Hp. apply bind_Ok in Hd as (ty & _ & Hd). apply bind_Ok in Hd as (e & He & Hd).
      apply slice_from_suffix in He as (p' & -> & Hp').
      assert (∃ q, e = q ++ r ∧ q ≠ []) as (q & -> & Hq)
        by (unfold Transaction.invalid_type in Hd; res_inv;
            match goal with Hx : _ = Ok (_, r) |- _ => exact (codec_consumes _ _ _ _ _ _ Hx) end).
      exists (p ++ p' ++ q). split; [by rewrite <-!app_assoc|].
      intros [_ [_ ?]%app_eq_nil]%app_eq_nil. done.
    + res_inv. match goal with Hx : _ = Ok (_, r) |- _ => exact (codec_consumes _ _ _ _ _ _ Hx) end.
Qed.

#[export] Instance BlockBody_codec : Codec BlockBody.encode BlockBody.decode_unfinished wf_body.
Proof.
  struct_codec ltac:(fun x Hwf => destruct Hwf as (Hw1 & Hw2 & Hw3)).
  destruct x as [??[w|]]; decode_fields; done.
Qed.
#[export] Instance Block_codec : Codec Block.encode Block.decode_unfinished
  (λ b, (wf_header (Block.header b) ∧ fork_ordered (Block.header b)) ∧ wf_body (Block.body b)).
Proof.
  struct_codec ltac:(fun x Hwf => destruct Hwf as (Hw0 & Hw1 & Hw2 & Hw3)).
  destruct x as [?[??[w|]]]; decode_fields; done.
Qed.
End Codecs.

(** ** Round trips *)

(** C33: a block decodes back from its encoding: header, transactions of all four
    types, ommers and withdrawals, when the optional header fields that are present
    come first and every typed transaction takes at least 56 bytes; in both build
    profiles. *)
Theorem block_roundtrip (P : Profile) (b : Block.t) :
  wf_header (Block.header b) → fork_ordered (Block.header b) → wf_body (Block.body b) →
  zlen (Block.encode b) <= isize_max →
  decode Block.decode_unfinished (Block.encode b) = Ok b.
Proof. intros. by eapply (codec_decode _ _ _ (Hc := Block_codec)). Qed.

(** The other records that travel or are stored decode back from their
    encoding: bodies, receipts (with their type prefix), logs, withdrawals, accounts
    and account states. *)
Theorem record_roundtrip (P : Profile) :
  (∀ x, wf_body x → zlen (BlockBody.encode x) <= isize_max →
    decode BlockBody.decode_unfinished (BlockBody.encode x) = Ok x) ∧
  (∀ x, wf_receipt x → zlen (Receipt.encode x) <= isize_max →
    decode Receipt.decode_unfinished (Receipt.encode x) = Ok x) ∧
  (∀ x, wf_log x → zlen (Log.encode x) <= isize_max →
    decode Log.decode_unfinished (Log.encode x) = Ok x) ∧
  (∀ x, wf_withdrawal x → zlen (Withdrawal.encode x) <= isize_max →
    decode Withdrawal.decode_unfinished (Withdrawal.encode x) = Ok x) ∧
  (∀ x, wf_account_info x → zlen (AccountInfo.encode x) <= isize_max →
    decode AccountInfo.decode_unfinished (AccountInfo.encode x) = Ok x) ∧
  (∀ x, wf_account_state x → zlen (AccountState.encode x) <= isize_max →
    decode AccountState.decode_unfinished (AccountState.encode x) = Ok x).
Proof. split_and!; intros; by eapply codec_decode; [typeclasses eauto|..]. Qed.

(** The canonical encoding of a transaction decodes back to it, whatever its
    type and size. *)
Theorem canonical_roundtrip (P : Profile) (tx : Transaction.t) :
  wf_transaction tx → zlen (Transaction.encode_canonical tx) <= isize_max →
  Transaction.decode_canonical (Transaction.encode_canonical tx) = Ok tx.
Proof.
  intros Hwf. unfold Transaction.decode_canonical, Transaction.encode_canonical.
  destruct tx as [tx|tx|tx|tx]; cbn [Transaction.tx_type TxType.to_u8 app wf_transaction] in *;
    intros Hmax.
  1: { destruct (legacy_struct tx) as [l Hl]. destruct (struct_rlp_head l) as (b & t & Hb & Hb2).
       rewrite Hl, Hb at 1. cbn [head]. decide_bools. by rewrite (codec_decode _ _ wf_legacy) by done. }
  all: cbn [head]; decide_bools; rewrite slice_from_cons, bind_Ok_l.
  all: rewrite zlen_cons in Hmax.
  - by rewrite (codec_decode _ _ wf_2930) by (done || lia).
  - by rewrite (codec_decode _ _ wf_1559) by (done || lia).
  - by rewrite (codec_decode _ _ wf_4844) by (done || lia).
Qed.

(** C34: the RLP form of a transaction (a list, or a byte string around the
    canonical form) decodes back to it and leaves what follows untouched, except
    for a typed transaction whose canonical form takes less than 56 bytes: it is
    taken for a legacy transaction and refused. *)
Theorem transaction_roundtrip (P : Profile) (tx : Transaction.t) (rest : list Z) :
  wf_transaction tx → zlen (Transaction.encode tx) <= isize_max →
  (recognised tx → Transaction.decode_unfinished (Transaction.encode tx ++ rest) = Ok (tx, rest)) ∧
  (~ recognised tx →
    Transaction.decode_unfinished (Transaction.encode tx ++ rest) = Err UnexpectedString).
Proof.
  intros Hwf Hmax. split; intros Hr.
  - apply (codec_roundtrip _ _ _ (Hc := Transaction_codec)); done.
  - unfold recognised in Hr. assert (Hlen : ~ 56 <= zlen (Transaction.encode_canonical tx)) by tauto.
    assert (Hty : Transaction.tx_type tx ≠ TxType.Legacy) by tauto.
    destruct tx as [tx|tx|tx|tx]; [done|..].
    all: unfold Transaction.encode in *.
    all: match goal with |- context [Bytes_encode ?c] =>
      assert (2 <= zlen c) by (cbn [wf_transaction] in Hwf; eapply codec_pos in Hwf; [|typeclasses eauto];
        unfold Transaction.encode_canonical; cbn [app]; rewrite zlen_cons; lia);
      destruct (short_bytes_item c rest) as [Hb Hn]; [lia|] end.
    all: unfold Transaction.decode_unfinished, LegacyTransaction.decode_unfinished.
    all: by rewrite Hb, bind_Ok_l, Hn.
Qed.

(** ** Signatures *)

(** A transaction without its signature. *)
Definition unsigned_tx (tx : Transaction.t) : Transaction.t :=
  match tx with
  | Transaction.LegacyTransaction (LegacyTransaction.mk nonce gas_price gas to value data _ _ _) =>
    Transaction.LegacyTransaction (LegacyTransaction.mk nonce gas_price gas to value data 0 0 0)
  | Transaction.EIP2930Transaction
      (EIP2930Transaction.mk chain_id nonce gas_price gas_limit to value data access_list _ _ _) =>
    Transaction.EIP2930Transaction
      (EIP2930Transaction.mk chain_id nonce gas_price gas_limit to value data access_list false 0 0)
  | Transaction.EIP1559Transaction
      (EIP1559Transaction.mk chain_id nonce tip fee gas_limit to value data access_list _ _ _) =>
    Transaction.EIP1559Transaction
      (EIP1559Transaction.mk chain_id nonce tip fee gas_limit to value data access_list false 0 0)
  | Transaction.EIP4844Transaction
      (EIP4844Transaction.mk chain_id nonce tip fee gas to value data access_list blob_fee hashes _ _ _) =>
    Transaction.EIP4844Transaction
      (EIP4844Transaction.mk chain_id nonce tip fee gas to value data access_list blob_fee hashes false 0 0)
  end.

Ltac fields_inj :=
  repeat match goal with
  | He : concat (?e ?x :: ?l) = concat (?e ?y :: ?k) |- _ =>
    edestruct (fields_inj (H := dev_profile) e _ _ x y l k He) as (? & ? & ?); [done..|]; clear He
  end.

Lemma struct_inj l k :
  struct_rlp l = struct_rlp k → zlen (struct_rlp l) <= isize_max →
  concat l = concat k ∧ zlen (concat l) <= isize_max.
Proof.
  intros He Hmax. split; [|by apply struct_rlp_bound].
  apply (struct_rlp_inj l k [] []); by rewrite ?app_nil_r.
Qed.
Lemma typed_message_inj ty l k :
  ty :: struct_rlp l = ty :: struct_rlp k → zlen (ty :: struct_rlp l) <= isize_max →
  concat l = concat k ∧ zlen (concat l) <= isize_max.
Proof. rewrite zlen_cons. intros [= He] Hmax. apply struct_inj; [done|lia]. Qed.

Section Signed.
Context `{Profile}.

(** The first byte of a signed message tells the type of the transaction. *)
Lemma signed_message_type tx m :
  Transaction.signed_message tx = Ok m →
  ∃ b t, m = b :: t ∧
    match Transaction.tx_type tx with TxType.Legacy => 0xc0 <= b | ty => b = TxType.to_u8 ty end.
Proof.
  unfold Transaction.signed_message. intros Hm. destruct tx as [tx|tx|tx|tx].
  all: cbn [Transaction.tx_type TxType.to_u8] in *.
  2,3,4: injection Hm as <-; encode_fields; eauto.
  apply bind_Ok in Hm as ([c|] & _ & Hm); injection Hm as <-; encode_fields; apply struct_rlp_head.
Qed.

Lemma signed_message_same_type tx1 tx2 m :
  Transaction.signed_message tx1 = Ok m → Transaction.signed_message tx2 = Ok m →
  Transaction.tx_type tx1 = Transaction.tx_type tx2.
Proof.
  intros (b1 & t1 & -> & Hb1)%signed_message_type (b2 & t2 & He & Hb2)%signed_message_type.
  injection He as -> ->.
  destruct (Transaction.tx_type tx1), (Transaction.tx_type tx2); cbn in *; done || lia.
Qed.

Lemma chain_id_range v c :
  Transaction.derive_legacy_chain_id v = Ok (Some c) → is_uint 64 c.
Proof.
  unfold Transaction.derive_legacy_chain_id, is_uint. intros Hc. res_inv.
  match goal with Hd : usub _ _ = Ok _ |- _ => apply checked_range in Hd; [|lia] end.
  split; [apply Z.div_pos; lia|]. apply Z.div_lt_upper_bound; lia.
Qed.

Lemma legacy_message_inj tx1 tx2 m :
  wf_legacy tx1 → wf_legacy tx2 → zlen m <= isize_max →
  Transaction.signed_message (Transaction.LegacyTransaction tx1) = Ok m →
  Transaction.signed_message (Transaction.LegacyTransaction tx2) = Ok m →
  Transaction.chain_id (Transaction.LegacyTransaction tx1) =
    Transaction.chain_id (Transaction.LegacyTransaction tx2) ∧
  unsigned_tx (Transaction.LegacyTransaction tx1) = unsigned_tx (Transaction.LegacyTransaction tx2).
Proof.
  unfold Transaction.signed_message, wf_legacy. intros Hw1 Hw2 Hmax Hm1 Hm2.
  destruct_and! Hw1. destruct_and! Hw2.
  apply bind_Ok in Hm1 as (c1 & Hc1 & Hm1). apply bind_Ok in Hm2 as (c2 & Hc2 & Hm2).
  rewrite Hc1, Hc2. destruct tx1, tx2. cbn [unsigned_tx].
  destruct c1 as [c1|], c2 as [c2|]; injection Hm1 as <-; injection Hm2 as Hm; revert Hm Hmax;
    repeat encode_fields; intros He Hmax; symmetry in He; apply struct_inj in He as [He ?]; try done.
  all: try apply chain_id_range in Hc1; try apply chain_id_range in Hc2.
  all: fields_inj; subst; try done.
  all: match goal with He : concat _ = concat _ |- _ => cbn [concat] in He; revert He end.
  all: unfold u64_encode, uint_encode; repeat case_match; done.
Qed.

Lemma typed_message_fields tx1 tx2 m :
  Transaction.tx_type tx1 ≠ TxType.Legacy → Transaction.tx_type tx1 = Transaction.tx_type tx2 →
  wf_transaction tx1 → wf_transaction tx2 → zlen m <= isize_max →
  Transaction.signed_message tx1 = Ok m → Transaction.signed_message tx2 = Ok m →
  Transaction.chain_id tx1 = Transaction.chain_id tx2 ∧ unsigned_tx tx1 = unsigned_tx tx2.
Proof.
  intros Hl Hty Hw1 Hw2 Hmax Hm1 Hm2.
  destruct tx1 as [tx1|tx1|tx1|tx1], tx2 as [tx2|tx2|tx2|tx2]; try done; clear Hl Hty.
  all: cbn [Transaction.signed_message Transaction.tx_type TxType.to_u8 wf_transaction] in *.
  all: unfold wf_2930, wf_1559, wf_4844 in *; destruct_and! Hw1; destruct_and! Hw2.
  all: apply Ok_inj in Hm1 as <-; apply Ok_inj in Hm2; revert Hm2 Hmax; repeat encode_fields.
  all: intros He Hmax; symmetry in He; apply typed_message_inj in He as [He ?]; [|done].
  all: fields_inj; destruct tx1, tx2; cbn in *; by subst.
Qed.
End Signed.

(** A signed message determines the transaction up to its signature: two
    transactions that [sender] checks against the same message have the same type,
    the same chain id and the same fields, so a signature cannot be replayed for
    another transaction, another type or another chain. *)
Theorem signed_message_injective (P : Profile) (tx1 tx2 : Transaction.t) (m : list Z) :
  wf_transaction tx1 → wf_transaction tx2 → zlen m <= isize_max →
  Transaction.signed_message tx1 = Ok m → Transaction.signed_message tx2 = Ok m →
  Transaction.tx_type tx1 = Transaction.tx_type tx2 ∧
  Transaction.chain_id tx1 = Transaction.chain_id tx2 ∧ unsigned_tx tx1 = unsigned_tx tx2.
Proof.
  intros Hw1 Hw2 Hmax Hm1 Hm2. pose proof (signed_message_same_type _ _ _ Hm1 Hm2) as Hty.
  split; [done|]. destruct (decide (Transaction.tx_type tx1 = TxType.Legacy)) as [Hl|Hl].
  - destruct tx1, tx2; try done. by eapply legacy_message_inj.
  - by eapply typed_message_fields.
Qed.

(** Legacy signatures.  A [v] of [35 + 2 c + y] (EIP-155) is read as chain id
    [c] and parity [y], a [v] of [27 + y] as no chain id and parity [y], in both
    build profiles; with overflow checks on, every other [v] panics. *)
Theorem legacy_signature_correct (P : Profile) (tx : LegacyTransaction.t) :
  let t := Transaction.LegacyTransaction tx in
  (∀ c (y : bool), 0 <= c → LegacyTransaction.v tx = 35 + 2 * c + Z.b2z y → LegacyTransaction.v tx < 2 ^ 64 →
    Transaction.chain_id t = Ok (Some c) ∧ Transaction.y_parity t = Ok y) ∧
  (∀ y : bool, LegacyTransaction.v tx = 27 + Z.b2z y →
    Transaction.chain_id t = Ok None ∧ Transaction.y_parity t = Ok y) ∧
  (overflow_checks = true → 0 <= LegacyTransaction.v tx →
    LegacyTransaction.v tx < 27 ∨ 28 < LegacyTransaction.v tx < 35 ∨ 2 ^ 64 <= LegacyTransaction.v tx →
    Transaction.chain_id t = Panic ∧ Transaction.y_parity t = Panic).
Proof.
  cbn [Transaction.chain_id]. unfold Transaction.y_parity. cbn [Transaction.chain_id].
  unfold Transaction.derive_legacy_chain_id, Transaction.as_u64, Transaction.saturating_sub.
  set (v := LegacyTransaction.v tx). split_and!.
  - intros c y Hc Hv Hmax. assert (0 <= Z.b2z y <= 1) by (destruct y; cbn; lia). decide_bools. rewrite !bind_Ok_l.
    assert ((v - 35) / 2 = c) as Hdiv by (rewrite Hv; divlia).
    decide_bools. rewrite usub_ok, !bind_Ok_l by lia. rewrite Hdiv. split; [done|].
    rewrite umul_ok, bind_Ok_l, uadd_ok, bind_Ok_l by lia.
    destruct y; cbn [Z.b2z] in *; by decide_bools.
  - intros y Hv. destruct y; cbn [Z.b2z] in *; rewrite Hv; done.
  - intros Ho H0 Hv. destruct (v <? 2 ^ 64) eqn:Hm; bool_prop; [|done].
    rewrite !bind_Ok_l. decide_bools.
    assert (usub (E:=never) v 35 = Panic) as ->; [|done].
    unfold usub, checked, in_width. decide_bools. by rewrite Ho.
Qed.

(** The tip of a transaction at a given base fee is what the fee cap leaves
    above the base fee, and there is none when the cap is below it.  The cap on the
    tip itself is not applied: the result is the tip of EIP-1559 exactly when the
    difference stays within the priority fee. *)
Theorem effective_gas_tip_spec (tx : Transaction.t) (base_fee : Z) :
  0 <= base_fee →
  let cap := Transaction.gas_fee_cap tx in
  Transaction.effective_gas_tip tx None = Some (Transaction.gas_tip_cap tx) ∧
  Transaction.effective_gas_tip tx (Some base_fee) =
    (if cap <? base_fee then None else Some (cap - base_fee)) ∧
  (∀ tip, Transaction.max_priority_fee tx = Some tip → base_fee <= cap →
    Transaction.effective_gas_tip tx (Some base_fee) = Some (Z.min tip (cap - base_fee)) ↔
    cap - base_fee <= tip).
Proof.
  intros Hb cap. split; [done|]. unfold Transaction.effective_gas_tip. fold cap. split.
  - destruct (cap <? base_fee) eqn:Hc; cbn; [done|]. f_equal. lia.
  - intros tip _ Hc. assert ((cap <? base_fee) = false) as -> by lia. cbn.
    split; [intros [= ?]|intros; f_equal]; lia.
Qed.

(** ** Witnesses *)
Definition sample_address : list Z := replicate 20 0x11.
Definition sample_legacy : LegacyTransaction.t :=
  LegacyTransaction.mk 7 1000000000 21000 (TxKind.Call sample_address) 5 [] 37 (2 ^ 200) (2 ^ 201).
Definition sample_1559 : EIP1559Transaction.t :=
  EIP1559Transaction.mk 1 8 2 30 21000 TxKind.Create 0 [0xfe] [(sample_address, [replicate 32 0x22])]
    true (2 ^ 255) (2 ^ 254).
Definition sample_short : EIP2930Transaction.t :=
  EIP2930Transaction.mk 1 8 2 21000 TxKind.Create 0 [] [] false 1 1.
Definition sample_header : BlockHeader.t :=
  BlockHeader.mk (replicate 32 1) (replicate 32 2) sample_address (replicate 32 3) (replicate 32 4)
    (replicate 32 5) (replicate 256 0) 0 1 30000000 42000 1700000000 [] (replicate 32 6) 0
    (Some 7) (Some (replicate 32 8)) None None None.
Definition sample_body : BlockBody.t :=
  BlockBody.mk [Transaction.LegacyTransaction sample_legacy; Transaction.EIP1559Transaction sample_1559]
    [] (Some [Withdrawal.mk 0 1 sample_address 100]).

Lemma block_roundtrip_witness :
  decode (Block.decode_unfinished (H:=dev_profile)) (Block.encode (Block.mk sample_header sample_body)) =
  Ok (Block.mk sample_header sample_body).
Proof. apply block_roundtrip; by_decide. Defined.

Lemma canonical_roundtrip_witness :
  Transaction.decode_canonical (H:=dev_profile)
    (Transaction.encode_canonical (Transaction.EIP2930Transaction sample_short)) =
  Ok (Transaction.EIP2930Transaction sample_short).
Proof. apply canonical_roundtrip; by_decide. Defined.

Lemma transaction_roundtrip_witness :
  Transaction.decode_unfinished (H:=dev_profile)
    (Transaction.encode (Transaction.EIP1559Transaction sample_1559) ++ [1]) =
    Ok (Transaction.EIP1559Transaction sample_1559, [1]) ∧
  Transaction.decode_unfinished (H:=dev_profile)
    (Transaction.encode (Transaction.EIP2930Transaction sample_short) ++ [1]) = Err UnexpectedString.
Proof.
  split.
  - apply (transaction_roundtrip dev_profile (Transaction.EIP1559Transaction sample_1559)); by_decide.
  - apply (transaction_roundtrip dev_profile (Transaction.EIP2930Transaction sample_short)); by_decide.
Defined.

Lemma signed_message_injective_witness :
  unsigned_tx (Transaction.LegacyTransaction sample_legacy) =
  unsigned_tx (Transaction.LegacyTransaction
    (LegacyTransaction.mk 7 1000000000 21000 (TxKind.Call sample_address) 5 [] 38 3 4)).
Proof.
  eapply (signed_message_injective dev_profile);
    [by_decide|by_decide| |vm_compute; reflexivity|vm_compute; reflexivity]. by_decide.
Defined.

Lemma effective_gas_tip_spec_witness :
  Transaction.effective_gas_tip (Transaction.EIP1559Transaction sample_1559) (Some 10) = Some 20.
Proof.
  destruct (effective_gas_tip_spec (Transaction.EIP1559Transaction sample_1559) 10) as (_ & He & _);
    [lia|exact He].
Defined.
