(* ===== verification/Consensus.v ===== *)
(** * Block validation and fees

    Model of the second half of [crates/core/types/block.rs]: the base fee of
    EIP-1559, the blob fee of EIP-4844 and the validation of a header against its
    parent.  The theorems relate them to the specifications of the two EIPs, to the
    blob price of the virtual machine and to chains of validated headers. *)

From Stdlib Require Import Sorted.
From S2P Require Import Prelude Rlp RlpLaws U256 Exponential Vm.
From S2P Require Import Codec CoreTypes CoreLaws.

(** ** constants.rs *)
Definition ELASTICITY_MULTIPLIER : Z := 2.
Definition BASE_FEE_MAX_CHANGE_DENOMINATOR : Z := 8.
Definition GAS_LIMIT_ADJUSTMENT_FACTOR : Z := 1024.
Definition GAS_LIMIT_MINIMUM : Z := 5000.
Definition INITIAL_BASE_FEE : Z := 1000000000.
Definition MIN_BASE_FEE_PER_BLOB_GAS : Z := 1.
Definition BLOB_BASE_FEE_UPDATE_FRACTION : Z := 3338477.

(** Keccak256(RLP([])) as of EIP-3675. *)
Definition DEFAULT_OMMERS_HASH : list Z :=
  to_be 32 0x1dcc4de8dec75d7aab85b567b6ccd41ad312451b948a7413f0a142fd40d49347.

(** ** block.rs *)
Section Fees.
Context `{Profile}.

(** The operands of [&&] are evaluated from the left, as far as needed. *)
Definition check_gas_limit (gas_limit parent_gas_limit : Z) : pres bool :=
  let max_adjustment_delta := parent_gas_limit / GAS_LIMIT_ADJUSTMENT_FACTOR in
  hi ← uadd parent_gas_limit max_adjustment_delta;
  if gas_limit <? hi then
    lo ← usub parent_gas_limit max_adjustment_delta;
    Ok ((lo <? gas_limit) && (GAS_LIMIT_MINIMUM <=? gas_limit))
  else Ok false.

Definition calculate_base_fee_per_blob_gas (parent_header : BlockHeader.t) : pres Z :=
  fake_exponential_u64 MIN_BASE_FEE_PER_BLOB_GAS
    (default 0 (BlockHeader.excess_blob_gas parent_header)) BLOB_BASE_FEE_UPDATE_FRACTION.

Definition calculate_base_fee_per_gas
    (block_gas_limit parent_gas_limit parent_gas_used parent_base_fee_per_gas : Z) : pres (option Z) :=
  ok ← check_gas_limit block_gas_limit parent_gas_limit;
  if negb ok then Ok None
  else
    let parent_gas_target := parent_gas_limit / ELASTICITY_MULTIPLIER in
    match parent_gas_used ?= parent_gas_target with
    | Eq => Ok (Some parent_base_fee_per_gas)
    | Gt =>
      gas_used_delta ← usub parent_gas_used parent_gas_target;
      parent_fee_gas_delta ← umul parent_base_fee_per_gas gas_used_delta;
      target_fee_gas_delta ← udiv parent_fee_gas_delta parent_gas_target;
      let base_fee_per_gas_delta := Z.max (target_fee_gas_delta / BASE_FEE_MAX_CHANGE_DENOMINATOR) 1 in
      r ← uadd parent_base_fee_per_gas base_fee_per_gas_delta; Ok (Some r)
    | Lt =>
      gas_used_delta ← usub parent_gas_target parent_gas_used;
      parent_fee_gas_delta ← umul parent_base_fee_per_gas gas_used_delta;
      target_fee_gas_delta ← udiv parent_fee_gas_delta parent_gas_target;
      let base_fee_per_gas_delta := target_fee_gas_delta / BASE_FEE_MAX_CHANGE_DENOMINATOR in
      r ← usub parent_base_fee_per_gas base_fee_per_gas_delta; Ok (Some r)
    end.

Definition calc_excess_blob_gas (parent_header : BlockHeader.t) : pres Z :=
  let parent_excess_blob_gas := default 0 (BlockHeader.excess_blob_gas parent_header) in
  let parent_blob_gas_used := default 0 (BlockHeader.blob_gas_used parent_header) in
  parent_blob_gas ← uadd parent_excess_blob_gas parent_blob_gas_used;
  if parent_blob_gas <? 393216 then Ok 0 else usub parent_blob_gas 393216.

Definition validate_cancun_header_fields (header parent_header : BlockHeader.t) : pres bool :=
  match BlockHeader.excess_blob_gas header, BlockHeader.blob_gas_used header with
  | Some excess_blob_gas, Some _ =>
    e ← calc_excess_blob_gas parent_header;
    Ok ((excess_blob_gas =? e) && bool_decide (is_Some (BlockHeader.parent_beacon_block_root header)))
  | _, _ => Ok false
  end.

Definition validate_no_cancun_header_fields (header : BlockHeader.t) : bool :=
  match BlockHeader.excess_blob_gas header, BlockHeader.blob_gas_used header with
  | None, None => true
  | _, _ => false
  end.

Definition validate_block_header (keccak256 : list Z → list Z) (header parent_header : BlockHeader.t)
    : pres bool :=
  if BlockHeader.gas_limit header <? BlockHeader.gas_used header then Ok false
  else
    fee ← calculate_base_fee_per_gas (BlockHeader.gas_limit header)
      (BlockHeader.gas_limit parent_header) (BlockHeader.gas_used parent_header)
      (default INITIAL_BASE_FEE (BlockHeader.base_fee_per_gas parent_header));
    match fee with
    | None => Ok false
    | Some expected_base_fee_per_gas =>
      if negb ((expected_base_fee_per_gas =? default INITIAL_BASE_FEE (BlockHeader.base_fee_per_gas header))
               && (BlockHeader.timestamp parent_header <? BlockHeader.timestamp header))
      then Ok false
      else
        next ← uadd (BlockHeader.number parent_header) 1;
        Ok ((BlockHeader.number header =? next)
            && (zlen (BlockHeader.extra_data header) <=? 32)
            && (BlockHeader.difficulty header =? 0)
            && (BlockHeader.nonce header =? 0)
            && bool_decide (BlockHeader.ommers_hash header = DEFAULT_OMMERS_HASH)
            && bool_decide (BlockHeader.parent_hash header =
                 BlockHeader.compute_block_hash keccak256 parent_header))
    end.
End Fees.

(** ** The base fee of EIP-1559 *)

(** The bounds on the gas limit, and the fee, as the specification states them. *)
Definition gas_limit_ok (gas_limit parent_gas_limit : Z) : bool :=
  (parent_gas_limit - parent_gas_limit / 1024 <? gas_limit) &&
  (gas_limit <? parent_gas_limit + parent_gas_limit / 1024) && (5000 <=? gas_limit).
Definition eip1559_base_fee (limit used fee : Z) : Z :=
  let target := limit / 2 in
  if used =? target then fee
  else if target <? used then fee + Z.max (fee * (used - target) / target / 8) 1
  else fee - fee * (target - used) / target / 8.

Lemma check_gas_limit_spec `{Profile} gl pgl :
  0 <= pgl → pgl + pgl / 1024 < 2 ^ 64 → check_gas_limit gl pgl = Ok (gas_limit_ok gl pgl).
Proof.
  intros Hp Hmax. unfold check_gas_limit, gas_limit_ok, GAS_LIMIT_ADJUSTMENT_FACTOR, GAS_LIMIT_MINIMUM.
  assert (0 <= pgl / 1024 <= pgl) by divlia. cbv zeta. rewrite uadd_ok, bind_Ok_l by lia.
  destruct (gl <? _) eqn:Hg; [|by rewrite andb_false_r].
  rewrite usub_ok, bind_Ok_l by lia. by rewrite andb_true_r.
Qed.

(** A gas limit that passes the check leaves no zero divisor, even if it wraps. *)
Lemma check_gas_limit_parent `{Profile} gl pgl :
  0 <= gl → 0 <= pgl < 2 ^ 64 → check_gas_limit gl pgl = Ok true → 1 <= pgl / 2.
Proof.
  unfold check_gas_limit, GAS_LIMIT_ADJUSTMENT_FACTOR, GAS_LIMIT_MINIMUM. cbv zeta. intros Hg Hp Hc.
  destruct (decide (pgl < 2)) as [Hs|Hs]; [|divlia].
  assert (pgl / 1024 = 0) as Hz by divlia. rewrite Hz, uadd_ok, bind_Ok_l in Hc by lia.
  res_inv; bool_prop. lia.
Qed.

Lemma check_gas_limit_wraps `{Profile} gl pgl :
  overflow_checks = false → check_gas_limit gl pgl ≠ Panic.
Proof.
  intros Ho. unfold check_gas_limit. cbv zeta.
  apply bind_Panic; [by apply checked_wraps|]. intros hi _. case_match; [|done].
  by apply bind_Panic; [apply checked_wraps|].
Qed.

(** The arithmetic of the fee: a product below 2^64 keeps every step in range. *)
Lemma eip1559_step limit used fee :
  2 <= limit → 0 <= used <= limit → 0 <= fee →
  let target := limit / 2 in
  0 <= fee * (target - used) / target / 8 <= fee / 8 ∨ target < used.
Proof.
  intros Hl Hu Hf target. assert (1 <= target) by (unfold target; divlia).
  destruct (decide (target < used)); [by right|left].
  assert (0 <= fee * (target - used) / target <= fee).
  { split; [apply Z.div_pos; nia|]. apply Z.div_le_upper_bound; nia. }
  split; [apply Z.div_pos; lia|]. apply Z.div_le_mono; lia.
Qed.

Lemma eip1559_step_up limit used fee :
  2 <= limit → limit / 2 < used <= limit → 0 <= fee →
  0 <= fee * (used - limit / 2) / (limit / 2) <= 2 * fee ∧
  (Z.Even limit → fee * (used - limit / 2) / (limit / 2) <= fee).
Proof.
  intros Hl Hu Hf. assert (1 <= limit / 2) by divlia.
  assert (used - limit / 2 <= 2 * (limit / 2)) by divlia.
  split; [split; [apply Z.div_pos; nia|apply Z.div_le_upper_bound; nia]|].
  intros [k Hk]. assert (used - limit / 2 <= limit / 2) by (rewrite Hk in *; divlia).
  apply Z.div_le_upper_bound; nia.
Qed.

Lemma base_fee_computes `{Profile} gl limit used fee :
  0 <= gl → is_uint 64 limit → limit + limit / 1024 < 2 ^ 64 → 0 <= used <= limit → 0 <= fee →
  fee * limit + fee + 1 < 2 ^ 64 →
  calculate_base_fee_per_gas gl limit used fee =
  Ok (if gas_limit_ok gl limit then Some (eip1559_base_fee limit used fee) else None).
Proof.
  intros Hg Hl Hmax Hu Hf Hb. unfold is_uint in Hl. unfold calculate_base_fee_per_gas.
  pose proof (check_gas_limit_spec gl limit ltac:(lia) Hmax) as Hc. rewrite Hc, bind_Ok_l.
  destruct (gas_limit_ok gl limit); cbn [negb]; [|done].
  pose proof (check_gas_limit_parent _ _ Hg Hl Hc) as Ht.
  assert (2 <= limit) as Hl2 by divlia.
  unfold eip1559_base_fee, ELASTICITY_MULTIPLIER, BASE_FEE_MAX_CHANGE_DENOMINATOR, udiv. cbv zeta.
  assert (0 <= limit / 2 <= limit) by divlia.
  destruct (Z.compare_spec used (limit / 2)); [by decide_bools|..].
  - destruct (eip1559_step limit used fee) as [Hs|Hs]; [lia|lia|lia| |lia]. cbv zeta in Hs.
    rewrite usub_ok, bind_Ok_l, umul_ok, bind_Ok_l by nia. decide_bools. rewrite bind_Ok_l.
    assert (fee / 8 <= fee) by divlia. by rewrite usub_ok, bind_Ok_l by nia.
  - destruct (eip1559_step_up limit used fee) as [[Hs1 Hs2] _]; [lia..|].
    rewrite usub_ok, bind_Ok_l, umul_ok, bind_Ok_l by nia. decide_bools. rewrite bind_Ok_l.
    set (d := fee * (used - limit / 2) / (limit / 2)) in *. assert (0 <= d / 8 <= fee) by divlia.
    by rewrite uadd_ok, bind_Ok_l by nia.
Qed.

Lemma base_fee_bounds limit used fee :
  2 <= limit → 0 <= used <= limit → 0 <= fee →
  let new := eip1559_base_fee limit used fee in
  fee - fee / 8 <= new ∧ (0 < fee → 0 < new) ∧
  (Z.Even limit → new <= fee + Z.max (fee / 8) 1).
Proof.
  intros Hl Hu Hf new. unfold new, eip1559_base_fee. cbv zeta.
  assert (0 <= fee / 8 <= fee ∧ (0 < fee → fee / 8 < fee)) as [? ?] by divlia.
  destruct (used =? limit / 2) eqn:He; [lia|]. destruct (limit / 2 <? used) eqn:Hlt; bool_prop.
  - destruct (eip1559_step_up limit used fee) as [[Hs1 Hs2] Hs3]; [lia..|].
    set (d := fee * (used - limit / 2) / (limit / 2)) in *. split_and!; [lia..|].
    intros Hev. specialize (Hs3 Hev). assert (d / 8 <= fee / 8) by (apply Z.div_le_mono; lia). lia.
  - destruct (eip1559_step limit used fee) as [Hs|Hs]; [lia..| |lia]; cbv zeta in Hs; lia.
Qed.

(** C35: the base fee.  Where the product of the parent's fee and gas limit, plus the fee
    and one, and 1025/1024 of the gas limit fit 64 bits, and the parent's gas is within
    its limit, [calculate_base_fee_per_gas] accepts exactly the gas limits within 1/1024
    of the parent's and above the minimum, and computes the fee of EIP-1559. That fee
    falls by an eighth at most, stays positive, and, for even gas limits of the parent,
    rises by an eighth or by one at most. And the check of the gas limit rules out a
    division by zero for all arguments: in the profile without overflow checks the
    function never panics. *)
Theorem base_fee_correct (P : Profile) (gas_limit parent_limit parent_used parent_fee : Z) :
  is_uint 64 gas_limit → is_uint 64 parent_limit → is_uint 64 parent_used → is_uint 64 parent_fee →
  (parent_limit + parent_limit / 1024 < 2 ^ 64 → parent_used <= parent_limit →
   parent_fee * parent_limit + parent_fee + 1 < 2 ^ 64 →
   let fee := eip1559_base_fee parent_limit parent_used parent_fee in
   calculate_base_fee_per_gas gas_limit parent_limit parent_used parent_fee =
     Ok (if gas_limit_ok gas_limit parent_limit then Some fee else None) ∧
   (gas_limit_ok gas_limit parent_limit = true →
     parent_fee - parent_fee / 8 <= fee ∧ (0 < parent_fee → 0 < fee) ∧
     (Z.Even parent_limit → fee <= parent_fee + Z.max (parent_fee / 8) 1))) ∧
  (overflow_checks = false →
   calculate_base_fee_per_gas gas_limit parent_limit parent_used parent_fee ≠ Panic).
Proof.
  intros Hg Hl Hu Hf. split.
  - intros Hmax Hused Hb fee. unfold is_uint in *. split; [apply base_fee_computes; unfold is_uint; lia|]. intros Hok.
    apply base_fee_bounds; try lia.
    pose proof (check_gas_limit_spec gas_limit parent_limit ltac:(lia) Hmax) as Hc. rewrite Hok in Hc.
    pose proof (check_gas_limit_parent gas_limit parent_limit ltac:(lia) Hl Hc). divlia.
  - intros Ho. unfold calculate_base_fee_per_gas, is_uint in *.
    apply bind_Panic; [by apply check_gas_limit_wraps|]. intros [|] Hc; cbn [negb]; [|done].
    pose proof (check_gas_limit_parent gas_limit parent_limit ltac:(lia) Hl Hc).
    unfold ELASTICITY_MULTIPLIER, udiv. cbv zeta. decide_bools.
    case_match; [done|..]; repeat (apply bind_Panic; [by apply checked_wraps || done|]; intros ? ?); done.
Qed.

(** The product overflows within the range of real fees: after a full block of 30 million
    gas with a base fee of 2000 gwei, the next base fee is 2250 gwei. *)
Lemma base_fee_overflows :
  eip1559_base_fee 30000000 30000000 2000000000000 = 2250000000000 ∧
  calculate_base_fee_per_gas (H:=dev_profile) 30000000 30000000 30000000 2000000000000 = Panic ∧
  calculate_base_fee_per_gas (H:=release_profile) 30000000 30000000 30000000 2000000000000 =
    Ok (Some 2096277132719).
Proof. by vm_compute. Qed.

(** ** Validated headers *)
Section Headers.
Context `{Profile} (keccak256 : list Z → list Z).

Lemma validate_block_header_inv h p :
  validate_block_header keccak256 h p = Ok true →
  BlockHeader.gas_used h <= BlockHeader.gas_limit h ∧
  calculate_base_fee_per_gas (BlockHeader.gas_limit h) (BlockHeader.gas_limit p)
    (BlockHeader.gas_used p) (default INITIAL_BASE_FEE (BlockHeader.base_fee_per_gas p)) =
    Ok (Some (default INITIAL_BASE_FEE (BlockHeader.base_fee_per_gas h))) ∧
  BlockHeader.timestamp p < BlockHeader.timestamp h ∧
  BlockHeader.number h = (BlockHeader.number p + 1) mod 2 ^ 64 ∧
  zlen (BlockHeader.extra_data h) <= 32 ∧ BlockHeader.difficulty h = 0 ∧ BlockHeader.nonce h = 0 ∧
  BlockHeader.ommers_hash h = DEFAULT_OMMERS_HASH ∧
  BlockHeader.parent_hash h = keccak256 (BlockHeader.encode p).
Proof.
  unfold validate_block_header. intros Hv. res_inv. bool_prop.
  repeat match goal with
  | Hb : _ && _ = true |- _ => apply andb_true_iff in Hb as [? ?]
  | Hb : bool_decide _ = true |- _ => apply bool_decide_eq_true in Hb
  | Hb : uadd _ _ = Ok _ |- _ => apply checked_mod in Hb; [|done]
  end; bool_prop.
  split_and!; try done; try lia. by simplify_eq.
Qed.

(** A chain of headers, newest first, each validated against its parent. *)
Inductive chain : list BlockHeader.t → Prop :=
  | chain_one h : chain [h]
  | chain_cons h p l :
    validate_block_header keccak256 h p = Ok true → chain (p :: l) → chain (h :: p :: l).

Lemma chain_inv h p l : chain (h :: p :: l) → validate_block_header keccak256 h p = Ok true ∧ chain (p :: l).
Proof. inversion 1; auto. Qed.

Lemma wf_header_number h : wf_header h → is_uint 64 (BlockHeader.number h).
Proof. unfold wf_header. tauto. Qed.

Lemma chain_numbers n : ∀ h l x,
  chain (h :: l) → Forall wf_header (h :: l) → (h :: l) !! n = Some x →
  BlockHeader.number h = (BlockHeader.number x + Z.of_nat n) mod 2 ^ 64.
Proof.
  induction n as [|n IH]; intros h l x Hc Hw Hx; apply Forall_cons in Hw as [Hh Hw].
  - injection Hx as ->. rewrite Z.add_0_r, Z.mod_small; [done|by apply wf_header_number].
  - destruct l as [|p l]; [done|]. apply chain_inv in Hc as [Hv Hc].
    apply validate_block_header_inv in Hv as (_&_&_&Hn&_).
    rewrite Hn, (IH p l x) by done. rewrite Z.add_mod_idemp_l by lia. f_equal. lia.
Qed.

Lemma chain_link n : ∀ l x p,
  chain l → l !! n = Some x → l !! S n = Some p → validate_block_header keccak256 x p = Ok true.
Proof.
  induction n as [|n IH]; intros [|h [|q l]] x p Hc Hx Hp; try done;
    apply chain_inv in Hc as [Hv Hc].
  - cbn in Hx, Hp. by simplify_eq.
  - by eapply IH.
Qed.

Lemma chain_sorted l :
  chain l → Sorted (λ a b, BlockHeader.timestamp b < BlockHeader.timestamp a) l.
Proof.
  induction 1 as [h|h p l Hv Hc IH]; [by repeat constructor|].
  apply validate_block_header_inv in Hv as (_&_&Ht&_). constructor; [done|by constructor].
Qed.

(** The parent hash pins the parent down, up to a collision of the hash. *)
Definition collision : Prop := ∃ x y, x ≠ y ∧ keccak256 x = keccak256 y.

Lemma header_encode_inj h1 h2 :
  wf_header h1 ∧ fork_ordered h1 → wf_header h2 ∧ fork_ordered h2 →
  zlen (BlockHeader.encode h1) <= isize_max →
  BlockHeader.encode h1 = BlockHeader.encode h2 → h1 = h2.
Proof.
  intros Hw1 Hw2 Hmax He.
  apply (codec_inj _ _ _ (Hc := BlockHeader_codec (H:=dev_profile)) h1 h2 [] []);
    rewrite ?app_nil_r; auto.
Qed.

Lemma chain_unique l1 : ∀ h l2,
  chain (h :: l1) → chain (h :: l2) → length l1 = length l2 →
  Forall (λ x, (wf_header x ∧ fork_ordered x) ∧ zlen (BlockHeader.encode x) <= isize_max) (l1 ++ l2) →
  l1 = l2 ∨ collision.
Proof.
  induction l1 as [|p1 l1 IH]; intros h [|p2 l2] Hc1 Hc2 Hlen Hw; try done; [by left|].
  apply chain_inv in Hc1 as [Hv1 Hc1]. apply chain_inv in Hc2 as [Hv2 Hc2].
  apply validate_block_header_inv in Hv1 as (_&_&_&_&_&_&_&_&Hp1).
  apply validate_block_header_inv in Hv2 as (_&_&_&_&_&_&_&_&Hp2).
  apply Forall_app in Hw as [[[Hw1 Hm1] Hl1]%Forall_cons [[Hw2 Hm2] Hl2]%Forall_cons].
  destruct (decide (BlockHeader.encode p1 = BlockHeader.encode p2)) as [He|He].
  - apply header_encode_inj in He; [|done..]. subst p2.
    destruct (IH p1 l2) as [->|]; auto using Forall_app_2.
  - right. exists (BlockHeader.encode p1), (BlockHeader.encode p2). split; [done|congruence].
Qed.
End Headers.

(** C36: in a chain of validated headers, newest first, the numbers count up from the
    oldest header (as [u64]), the timestamps decrease strictly towards it, and every
    header but the oldest keeps its gas limit, carries the fee computed from its
    parent and names its parent's hash. *)
Theorem chain_correct (P : Profile) (keccak256 : list Z → list Z) (h : BlockHeader.t)
    (l : list BlockHeader.t) :
  chain keccak256 (h :: l) → Forall wf_header (h :: l) →
  (∀ n x, (h :: l) !! n = Some x →
    BlockHeader.number h = (BlockHeader.number x + Z.of_nat n) mod 2 ^ 64) ∧
  StronglySorted (λ a b, BlockHeader.timestamp b < BlockHeader.timestamp a) (h :: l) ∧
  (∀ n x p, (h :: l) !! n = Some x → (h :: l) !! S n = Some p →
    BlockHeader.gas_used x <= BlockHeader.gas_limit x ∧
    calculate_base_fee_per_gas (BlockHeader.gas_limit x) (BlockHeader.gas_limit p)
      (BlockHeader.gas_used p) (default INITIAL_BASE_FEE (BlockHeader.base_fee_per_gas p)) =
      Ok (Some (default INITIAL_BASE_FEE (BlockHeader.base_fee_per_gas x))) ∧
    BlockHeader.parent_hash x = BlockHeader.compute_block_hash keccak256 p).
Proof.
  intros Hc Hw. split_and!.
  - intros n x Hx. by apply (chain_numbers keccak256 n h l x).
  - apply Sorted_StronglySorted; [intros ???; lia|]. by eapply chain_sorted.
  - intros n x p Hx Hp. pose proof (chain_link _ _ _ _ _ Hc Hx Hp) as Hv.
    apply validate_block_header_inv in Hv as (?&?&_&_&_&_&_&_&?). done.
Qed.

(** A header pins down its whole ancestry: two validated chains of the same
    length with the same newest header are equal, or a collision of the hash
    function is known. *)
Theorem chain_ancestry_unique (P : Profile) (keccak256 : list Z → list Z) (h : BlockHeader.t)
    (l1 l2 : list BlockHeader.t) :
  chain keccak256 (h :: l1) → chain keccak256 (h :: l2) → length l1 = length l2 →
  Forall (λ x, (wf_header x ∧ fork_ordered x) ∧ zlen (BlockHeader.encode x) <= isize_max) (l1 ++ l2) →
  l1 = l2 ∨ ∃ x y, x ≠ y ∧ keccak256 x = keccak256 y.
Proof. apply chain_unique. Qed.

(** ** Blob gas *)

(** Blob gas.  A header that passes the Cancun checks carries as excess what is
    left of the parent's excess and use above the target of 393216; the virtual
    machine computes the same excess from the parent's fields; and the blob price
    that block building reads off the header is the price the virtual machine
    computes, when neither overflows. *)
Theorem blob_gas_agrees (P : Profile) (header parent : BlockHeader.t) (env : BlockEnv.t) :
  overflow_checks = true → wf_header parent →
  BlockEnv.excess_blob_gas env = BlockHeader.excess_blob_gas parent →
  BlockEnv.blob_gas_used env = BlockHeader.blob_gas_used parent →
  validate_cancun_header_fields header parent = Ok true →
  let excess := Z.max 0 (default 0 (BlockHeader.excess_blob_gas parent) +
                         default 0 (BlockHeader.blob_gas_used parent) - 393216) in
  BlockHeader.excess_blob_gas header = Some excess ∧
  BlockEnv.calc_excess_blob_gas env = Ok excess ∧
  (∀ price, calculate_base_fee_per_blob_gas header = Ok price →
    BlockEnv.calculate_blob_gas_price env = Ok price ∧ 1 <= price).
Proof.
  intros Ho Hw He Hu Hv excess. unfold validate_cancun_header_fields in Hv. res_inv. bool_prop.
  assert (calc_excess_blob_gas parent = Ok excess ∧ 0 <= excess < 2 ^ 64 ∧
    BlockEnv.calc_excess_blob_gas env = Ok excess) as (Hc & Hr & Henv).
  { unfold calc_excess_blob_gas, BlockEnv.calc_excess_blob_gas in *. rewrite He, Hu. cbv zeta in *.
    change TARGET_BLOB_GAS_PER_BLOCK with 393216.
    match goal with Hx : context [uadd ?a ?b] |- _ => destruct (uadd a b) as [s| | |] eqn:Hs end; try done.
    rewrite !bind_Ok_l in *. apply (checked_exact _ _ _ Ho) in Hs as [-> Hs].
    fold excess. split_and!; try done; try (unfold excess; lia).
    case_match; bool_prop; [f_equal; unfold excess; lia|]. rewrite usub_ok by lia. f_equal. unfold excess. lia. }
  rewrite Hc in *. simplify_eq. split_and!; try done.
  intros price Hp. unfold calculate_base_fee_per_blob_gas in Hp.
  match goal with Hx : BlockHeader.excess_blob_gas header = Some _ |- _ => rewrite Hx in Hp end.
  cbn [default] in Hp. split.
  - unfold BlockEnv.calculate_blob_gas_price. rewrite Henv, bind_Ok_l.
    by apply fake_exponential_agree.
  - eapply fake_exponential_u64_ge in Hp; done.
Qed.

(** On [u64] the series overflows long before the price does: at an excess of 46
    million (117 full blocks) the price is computed, at 47 million the computation
    panics, where the [u128] version gives a price of 1300521 wei. *)
Example blob_price_overflow :
  fake_exponential_u64 (H:=dev_profile) 1 46000000 BLOB_BASE_FEE_UPDATE_FRACTION = Ok 963895 ∧
  fake_exponential_u64 (H:=dev_profile) 1 47000000 BLOB_BASE_FEE_UPDATE_FRACTION = Panic ∧
  fake_exponential_u128 (H:=dev_profile) 1 47000000 BLOB_BASE_FEE_UPDATE_FRACTION = Ok 1300521.
Proof. by vm_compute. Qed.

(** ** Witnesses *)
Definition toy_hash (l : list Z) : list Z := to_be 32 (of_be l).
Definition sample_parent : BlockHeader.t :=
  BlockHeader.mk (replicate 32 1) (replicate 32 2) sample_address (replicate 32 3) (replicate 32 4)
    (replicate 32 5) (replicate 256 0) 0 41 30000000 30000000 1700000000 [] (replicate 32 6) 0
    (Some 1000) (Some (replicate 32 8)) (Some 786432) (Some 393216) (Some (replicate 32 9)).
Definition sample_child : BlockHeader.t :=
  BlockHeader.mk (toy_hash (BlockHeader.encode sample_parent)) DEFAULT_OMMERS_HASH sample_address
    (replicate 32 3) (replicate 32 4) (replicate 32 5) (replicate 256 0) 0 42 30000000 0 1700000012 []
    (replicate 32 6) 0
    (Some 1125) (Some (replicate 32 8)) (Some 0) (Some 786432) (Some (replicate 32 9)).

Lemma base_fee_correct_witness :
  calculate_base_fee_per_gas (H:=release_profile) 30000000 30000000 30000000 1000 = Ok (Some 1125).
Proof.
  destruct (base_fee_correct release_profile 30000000 30000000 30000000 1000) as [Hf _];
    [by_decide..|].
  destruct Hf as [Hf _]; [vm_compute; reflexivity|lia|lia|]. rewrite Hf. vm_compute. reflexivity.
Defined.

Lemma chain_correct_witness :
  BlockHeader.number sample_child = (BlockHeader.number sample_parent + 1) mod 2 ^ 64.
Proof.
  apply (chain_correct dev_profile toy_hash sample_child [sample_parent]) with (n := 1%nat).
  - apply chain_cons; [vm_compute; reflexivity|apply chain_one].
  - by_decide.
  - reflexivity.
Defined.

Lemma chain_ancestry_unique_witness :
  [sample_parent] = [sample_parent] ∨ ∃ x y, x ≠ y ∧ toy_hash x = toy_hash y.
Proof.
  apply (chain_ancestry_unique dev_profile toy_hash sample_child).
  1,2: apply chain_cons; [vm_compute; reflexivity|apply chain_one].
  - reflexivity.
  - by_decide.
Defined.

Lemma blob_gas_agrees_witness :
  BlockEnv.calc_excess_blob_gas (H:=dev_profile)
    (BlockEnv.mk 41 sample_address 1700000000 1000 30000000 1 None (Some 393216) (Some 786432)) =
  Ok 786432.
Proof.
  apply (blob_gas_agrees dev_profile sample_child sample_parent); by_decide || (vm_compute; reflexivity).
Defined.
