(* ===== verification/Genesis.v ===== *)
(** * Chain configuration, genesis block and fork identifier

    Model of [crates/core/types/genesis.rs], of [fork_id.rs] and of the parts of
    [account.rs] and [block.rs] that put data into tries.  The root of a trie (from
    its key-value pairs), [keccak256] and the checksum [crc32] of the bytes fed to
    the hasher are arguments. *)

From Stdlib Require Import Sorted.
From S2P Require Import Prelude Rlp RlpLaws U256 Exponential Vm.
From S2P Require Import Codec CoreTypes CoreLaws Consensus.

(** ** genesis.rs *)
Module ChainConfig.
Record t := mk {
  chain_id : Z;
  homestead_block : option Z;
  dao_fork_block : option Z;
  dao_fork_support : bool;
  eip150_block : option Z; eip155_block : option Z; eip158_block : option Z;
  byzantium_block : option Z; constantinople_block : option Z; petersburg_block : option Z;
  istanbul_block : option Z; muir_glacier_block : option Z; berlin_block : option Z;
  london_block : option Z; arrow_glacier_block : option Z; gray_glacier_block : option Z;
  merge_netsplit_block : option Z;
  shanghai_time : option Z; cancun_time : option Z; prague_time : option Z; verkle_time : option Z;
  terminal_total_difficulty : option Z;
  terminal_total_difficulty_passed : bool
}.

Inductive Fork := Paris | Shanghai | Cancun.

(** [Option::map_or(false, f)]. *)
Definition map_or_false (f : Z → bool) (o : option Z) : bool :=
  match o with Some x => f x | None => false end.
Definition is_shanghai_activated (self : t) (block_timestamp : Z) : bool :=
  map_or_false (λ time, time <=? block_timestamp) (shanghai_time self).
Definition is_cancun_activated (self : t) (block_timestamp : Z) : bool :=
  map_or_false (λ time, time <=? block_timestamp) (cancun_time self).
Definition is_istanbul_activated (self : t) (block_number : Z) : bool :=
  map_or_false (λ num, num <=? block_number) (istanbul_block self).

Definition get_fork (self : t) (block_timestamp : Z) : Fork :=
  if is_cancun_activated self block_timestamp then Cancun
  else if is_shanghai_activated self block_timestamp then Shanghai
  else Paris.

Definition gather_forks (self : t) : list (option Z) * list (option Z) :=
  let block_number_based_forks := [
    homestead_block self;
    (if dao_fork_support self then dao_fork_block self else None);
    eip150_block self; eip155_block self; eip158_block self; byzantium_block self;
    constantinople_block self; petersburg_block self; istanbul_block self;
    muir_glacier_block self; berlin_block self; london_block self; arrow_glacier_block self;
    gray_glacier_block self; merge_netsplit_block self ] in
  let timestamp_based_forks := [
    shanghai_time self; cancun_time self; prague_time self; verkle_time self ] in
  (block_number_based_forks, timestamp_based_forks).
End ChainConfig.

Module GenesisAccount.
Record t := mk { code : list Z; storage : gmap (list Z) Z; balance : Z; nonce : Z }.
End GenesisAccount.

Section Roots.
Variable keccak256 : list Z → list Z.
(** [Trie::compute_hash_from_unsorted_iter]. *)
Variable trie_root : list (list Z * list Z) → list Z.

Definition compute_transactions_root (transactions : list Transaction.t) : list Z :=
  trie_root (imap (λ idx tx, (usize_encode (Z.of_nat idx), Transaction.encode_canonical tx)) transactions).
Definition compute_receipts_root (receipts : list Receipt.t) : list Z :=
  trie_root (imap (λ idx receipt, (usize_encode (Z.of_nat idx), Receipt.encode receipt)) receipts).
Definition compute_withdrawals_root (withdrawals : list Withdrawal.t) : list Z :=
  trie_root (imap (λ idx withdrawal, (usize_encode (Z.of_nat idx), Withdrawal.encode withdrawal)) withdrawals).

(** account.rs *)
Definition code_hash (code : list Z) : list Z := keccak256 code.
Definition compute_storage_root (storage : gmap (list Z) Z) : list Z :=
  trie_root (omap (λ '(k, v), if v =? 0 then None else Some (keccak256 k, U256_encode v))
    (map_to_list storage)).
Definition account_state_from (value : GenesisAccount.t) : AccountState.t :=
  AccountState.mk (GenesisAccount.nonce value) (GenesisAccount.balance value)
    (compute_storage_root (GenesisAccount.storage value)) (code_hash (GenesisAccount.code value)).
End Roots.

Module Genesis.
Record t := mk {
  config : ChainConfig.t;
  alloc : gmap (list Z) GenesisAccount.t;
  coinbase : Address; difficulty : Z; extra_data : list Z; gas_limit : Z; nonce : Z;
  mix_hash : list Z; timestamp : Z;
  base_fee_per_gas : option Z; blob_gas_used : option Z; excess_blob_gas : option Z
}.

Section Block.
Variable keccak256 : list Z → list Z.
Variable trie_root : list (list Z * list Z) → list Z.

Definition compute_state_root (self : t) : list Z :=
  trie_root (map (λ '(addr, account),
    (keccak256 addr, AccountState.encode (account_state_from keccak256 trie_root account)))
    (map_to_list (alloc self))).

Definition zero_hash : list Z := replicate 32 0.

Definition get_block_header (self : t) : BlockHeader.t :=
  let cancun := match ChainConfig.cancun_time (config self) with
                | Some cancun_time => cancun_time <=? timestamp self
                | None => false
                end in
  let blob_gas_used := if cancun then Some (default 0 (blob_gas_used self)) else None in
  let excess_blob_gas := if cancun then Some (default 0 (excess_blob_gas self)) else None in
  BlockHeader.mk
    zero_hash
    DEFAULT_OMMERS_HASH
    (coinbase self)
    (compute_state_root self)
    (compute_transactions_root trie_root [])
    (compute_receipts_root trie_root [])
    (replicate 256 0)
    (difficulty self)
    0
    (gas_limit self)
    0
    (timestamp self)
    (extra_data self)
    (mix_hash self)
    (nonce self)
    (match base_fee_per_gas self with Some fee => Some fee | None => Some INITIAL_BASE_FEE end)
    (if ChainConfig.is_shanghai_activated (config self) (timestamp self)
     then Some (compute_withdrawals_root trie_root []) else None)
    blob_gas_used
    excess_blob_gas
    (if ChainConfig.is_cancun_activated (config self) (timestamp self)
     then Some zero_hash else None).

Definition get_block_body (self : t) : BlockBody.t := BlockBody.mk [] [] (Some []).

Definition get_block (self : t) : Block.t :=
  let header := get_block_header self in
  let body := get_block_body self in
  Block.mk header body.
End Block.
End Genesis.

(** ** fork_id.rs *)
Module ForkId.
Record t := mk { fork_hash : list Z; fork_next : Z }.

(** The loop of [update_checksum], over the activations that are set; [hasher] is
    what the hasher has been fed. *)
Fixpoint update_checksum_loop (activations : list Z) (hasher : list Z) (head last_included : Z)
    : Z * list Z :=
  match activations with
  | [] => (0, hasher)
  | activation :: rest =>
    if activation <=? head then
      if negb (activation =? last_included) then
        update_checksum_loop rest (hasher ++ to_be 8 activation) head activation
      else update_checksum_loop rest hasher head last_included
    else (activation, hasher)
  end.
(** [into_iter().flatten()]. *)
Definition update_checksum (forks : list (option Z)) (hasher : list Z) (head : Z) : Z * list Z :=
  update_checksum_loop (omap id forks) hasher head 0.

Definition new (crc32 : list Z → Z) (chain_config : ChainConfig.t) (genesis_hash : list Z)
    (head_timestamp head_block_number : Z) : t :=
  let '(block_number_based_forks, timestamp_based_forks) := ChainConfig.gather_forks chain_config in
  let hasher := genesis_hash in
  let '(fork_next, hasher) := update_checksum block_number_based_forks hasher head_block_number in
  if 0 <? fork_next then mk (to_be 4 (crc32 hasher)) fork_next
  else
    let '(fork_next, hasher) := update_checksum timestamp_based_forks hasher head_timestamp in
    mk (to_be 4 (crc32 hasher)) fork_next.

Definition encode (self : t) : list Z :=
  Encoder.new []
  |> field H32_encode (fork_hash self)
  |> field u64_encode (fork_next self)
  |> Encoder.finish.
Definition decode_unfinished `{Profile} (rlp : list Z) : dres (t * list Z) :=
  decoder ← Decoder.new rlp;
  '(fork_hash, decoder) ← Decoder.decode_field H32_decode "forkHash" decoder;
  '(fork_next, decoder) ← Decoder.decode_field u64_decode "forkNext" decoder;
  remaining ← Decoder.finish decoder;
  Ok (mk fork_hash fork_next, remaining).
End ForkId.

#[export] Instance ForkId_codec `{Profile} : Codec ForkId.encode ForkId.decode_unfinished
  (λ f, is_array 4 (ForkId.fork_hash f) ∧ is_uint 64 (ForkId.fork_next f)).
Proof. struct_codec ltac:(fun x Hwf => destruct Hwf). decode_fields. by destruct x. Qed.

(** ** The fork identifier of EIP-2124 *)

(** The distinct activations above [last] that are not above [head], in order. *)
Definition passed (acts : list Z) (last head : Z) (bs : list Z) : Prop :=
  StronglySorted Z.lt bs ∧ ∀ x, x ∈ bs ↔ x ∈ acts ∧ last < x <= head.
(** The next activation above [head], or 0. *)
Definition upcoming (acts : list Z) (head next : Z) : Prop :=
  (next = 0 ∧ ∀ x, x ∈ acts → x <= head) ∨
  (next ∈ acts ∧ head < next ∧ ∀ x, x ∈ acts → head < x → next <= x).

Lemma passed_skip a acts last head bs : a <= last → passed acts last head bs → passed (a :: acts) last head bs.
Proof.
  intros Ha [Hs Hx]. split; [done|]. intros x. rewrite Hx, elem_of_cons.
  split; [tauto|]. intros [[->|?] ?]; [lia|tauto].
Qed.
Lemma passed_take a acts last head bs :
  last < a <= head → Forall (Z.le a) acts → passed acts a head bs → passed (a :: acts) last head (a :: bs).
Proof.
  intros Ha Hle [Hs Hx]. split.
  - constructor; [done|]. apply Forall_forall. intros x Hin%Hx. lia.
  - intros x. rewrite !elem_of_cons, Hx. split; [intros [->|?]; [tauto|split; [tauto|lia]]|].
    intros [[->|Hin] Hr]; [by left|]. rewrite Forall_forall in Hle. specialize (Hle x Hin).
    destruct (decide (x = a)); [by left|]. right. split; [done|lia].
Qed.

Lemma upcoming_skip a acts head next : a <= head → upcoming acts head next → upcoming (a :: acts) head next.
Proof.
  intros Ha [[-> Hx]|(Hin & Hn & Hmin)]; [left|right]; split_and!; try done.
  - intros x [->|?]%elem_of_cons; auto.
  - by apply list_elem_of_further.
  - intros x [->|?]%elem_of_cons ?; [lia|auto].
Qed.

Lemma update_checksum_loop_spec head acts : ∀ hasher last next fed,
  StronglySorted Z.le acts → Forall (Z.le last) acts →
  ForkId.update_checksum_loop acts hasher head last = (next, fed) →
  upcoming acts head next ∧
  ∃ bs, passed acts last head bs ∧ fed = hasher ++ concat (map (to_be 8) bs).
Proof.
  induction acts as [|a acts IH]; intros hasher last next fed Hs Hl Hu; cbn in Hu.
  { simplify_eq. split; [left; split; [done|by intros ? ?%elem_of_nil]|].
    exists []. split; [|by rewrite app_nil_r]. split; [constructor|].
    intros x. rewrite elem_of_nil. tauto. }
  apply StronglySorted_inv in Hs as [Hs Ha]. apply Forall_cons in Hl as [Hla Hl].
  destruct (a <=? head) eqn:Hh; bool_prop.
  - destruct (negb (a =? last)) eqn:He; bool_prop;
      apply IH in Hu as [Hup (bs & Hp & ->)]; try done; (split; [by apply upcoming_skip|]).
    + exists (a :: bs). split; [apply passed_take; auto; lia|]. cbn. by rewrite <-app_assoc.
    + exists bs. split; [apply passed_skip; [lia|done]|done].
  - simplify_eq. rewrite Forall_forall in Ha. split.
    + right. split_and!; [by apply list_elem_of_here|lia|].
      intros x [->|Hx]%elem_of_cons ?; [done|auto].
    + exists []. split; [|by rewrite app_nil_r]. split; [constructor|].
      intros x. rewrite elem_of_nil. split; [done|].
      intros [[->|Hx]%elem_of_cons ?]; [lia|]. specialize (Ha x Hx). lia.
Qed.

(** The fork identifier is that of EIP-2124 when the activations are listed in
    order: the checksum covers the genesis hash, then each distinct block number
    already reached, then, once no block fork is pending, each distinct timestamp
    already reached; the next fork is the first pending block number, else the first
    pending timestamp, else 0. *)
Theorem fork_id_correct (crc32 : list Z → Z) (config : ChainConfig.t) (genesis_hash : list Z)
    (head_timestamp head_block_number : Z) :
  let blocks := omap id (ChainConfig.gather_forks config).1 in
  let times := omap id (ChainConfig.gather_forks config).2 in
  StronglySorted Z.le blocks → StronglySorted Z.le times →
  Forall (Z.le 0) blocks → Forall (Z.le 0) times →
  0 <= head_block_number → 0 <= head_timestamp →
  let id := ForkId.new crc32 config genesis_hash head_timestamp head_block_number in
  ∃ bs ts nb nt,
    passed blocks 0 head_block_number bs ∧ passed times 0 head_timestamp ts ∧
    upcoming blocks head_block_number nb ∧ upcoming times head_timestamp nt ∧
    ForkId.fork_next id = (if nb =? 0 then nt else nb) ∧
    ForkId.fork_hash id = to_be 4 (crc32 (genesis_hash ++ concat (map (to_be 8) bs) ++
      (if nb =? 0 then concat (map (to_be 8) ts) else []))).
Proof.
  intros blocks times Hsb Hst Hb Ht Hhb Hht id. unfold id, ForkId.new, ForkId.update_checksum.
  destruct (ChainConfig.gather_forks config) as [bforks tforks]. cbn [fst snd] in *.
  fold blocks times. destruct (ForkId.update_checksum_loop blocks genesis_hash _ _) as [nb fb] eqn:Eb.
  apply update_checksum_loop_spec in Eb as [Hub (bs & Hpb & ->)]; [|done..].
  destruct (ForkId.update_checksum_loop times (genesis_hash ++ _) _ _) as [nt ft] eqn:Et.
  apply update_checksum_loop_spec in Et as [Hut (ts & Hpt & ->)]; [|done..].
  exists bs, ts, nb, nt. do 4 (split; [done|]).
  assert (0 <= nb) as Hnb by (destruct Hub as [[-> _]|(_ & ? & _)]; lia).
  destruct (0 <? nb) eqn:Hn; bool_prop; decide_bools; cbn; rewrite ?app_nil_r, <-?app_assoc; done.
Qed.

Definition sample_config (shanghai cancun : option Z) : ChainConfig.t :=
  ChainConfig.mk 1 (Some 0) None false (Some 0) (Some 0) (Some 0) (Some 0) (Some 0) (Some 0) (Some 0)
    None (Some 5) (Some 5) None None (Some 9) shanghai cancun None None (Some 0) true.

Lemma fork_id_correct_witness :
  ∃ bs nb, passed [0; 0; 0; 0; 0; 0; 0; 0; 5; 5; 9] 0 7 bs ∧
    upcoming [0; 0; 0; 0; 0; 0; 0; 0; 5; 5; 9] 7 nb.
Proof.
  destruct (fork_id_correct (λ _, 0) (sample_config (Some 100) None) [] 50 7)
    as (bs & _ & nb & _ & Hp & _ & Hu & _).
  1,2: repeat constructor; lia. 1,2: repeat constructor; lia. 1,2: lia.
  exists bs, nb. split; [exact Hp|exact Hu].
Defined.

(** ** The genesis block *)
Definition wf_genesis (g : Genesis.t) : Prop :=
  is_array 20 (Genesis.coinbase g) ∧ is_uint 256 (Genesis.difficulty g) ∧
  bytes_ok (Genesis.extra_data g) ∧ is_uint 64 (Genesis.gas_limit g) ∧ is_uint 64 (Genesis.nonce g) ∧
  is_array 32 (Genesis.mix_hash g) ∧ is_uint 64 (Genesis.timestamp g) ∧
  from_option (is_uint 64) True (Genesis.base_fee_per_gas g) ∧
  from_option (is_uint 64) True (Genesis.blob_gas_used g) ∧
  from_option (is_uint 64) True (Genesis.excess_blob_gas g).
#[export] Instance wf_genesis_dec g : Decision (wf_genesis g).
Proof. unfold wf_genesis. apply _. Defined.

Lemma genesis_constants_wf :
  is_array 32 DEFAULT_OMMERS_HASH ∧ is_array 32 Genesis.zero_hash ∧ is_array 256 (replicate 256 0) ∧
  is_uint 64 0 ∧ is_uint 64 INITIAL_BASE_FEE.
Proof. split_and!; by_decide. Qed.
Lemma default_0_wf o : from_option (is_uint 64) True o → is_uint 64 (default 0 o).
Proof. destruct o; [done|]. intros _. apply genesis_constants_wf. Qed.

Lemma genesis_header_wf keccak256 trie_root g :
  (∀ l, is_array 32 (trie_root l)) → wf_genesis g →
  wf_header (Genesis.get_block_header keccak256 trie_root g).
Proof.
  intros Hroot Hg. unfold wf_genesis in Hg. destruct_and! Hg.
  destruct genesis_constants_wf as (? & ? & ? & ? & ?).
  unfold Genesis.get_block_header, wf_header.
  cbn [BlockHeader.parent_hash BlockHeader.ommers_hash BlockHeader.coinbase BlockHeader.state_root
    BlockHeader.transactions_root BlockHeader.receipts_root BlockHeader.logs_bloom
    BlockHeader.difficulty BlockHeader.number BlockHeader.gas_limit BlockHeader.gas_used
    BlockHeader.timestamp BlockHeader.extra_data BlockHeader.prev_randao BlockHeader.nonce
    BlockHeader.base_fee_per_gas BlockHeader.withdrawals_root BlockHeader.blob_gas_used
    BlockHeader.excess_blob_gas BlockHeader.parent_beacon_block_root].
  repeat (apply conj; [first [assumption|apply Hroot|idtac]|]).
  all: repeat case_match; cbn [from_option];
    first [assumption|apply Hroot|by apply default_0_wf|done|congruence].
Qed.

(** The genesis block.  When every fork before Cancun is active where Cancun is,
    the header has the fields of exactly the forks active at its timestamp, so that
    the block survives its RLP encoding and its hash covers what it was built from;
    its fields for blobs and beacon root appear together. *)
Theorem genesis_block_correct (P : Profile) (keccak256 : list Z → list Z)
    (trie_root : list (list Z * list Z) → list Z) (g : Genesis.t) :
  (∀ l, is_array 32 (trie_root l)) → wf_genesis g →
  let b := Genesis.get_block keccak256 trie_root g in
  let h := Block.header b in
  let config := Genesis.config g in
  let time := Genesis.timestamp g in
  (ChainConfig.is_cancun_activated config time = true → ChainConfig.is_shanghai_activated config time = true) →
  zlen (Block.encode b) <= isize_max →
  decode Block.decode_unfinished (Block.encode b) = Ok b ∧
  (is_Some (BlockHeader.withdrawals_root h) ↔ ChainConfig.get_fork config time ≠ ChainConfig.Paris) ∧
  (is_Some (BlockHeader.excess_blob_gas h) ↔ ChainConfig.get_fork config time = ChainConfig.Cancun) ∧
  (is_Some (BlockHeader.parent_beacon_block_root h) ↔ is_Some (BlockHeader.blob_gas_used h)) ∧
  validate_no_cancun_header_fields h = negb (ChainConfig.is_cancun_activated config time).
Proof.
  intros Hroot Hg b h config time Hforks Hmax.
  assert (BlockHeader.excess_blob_gas h =
    if ChainConfig.is_cancun_activated config time
    then Some (default 0 (Genesis.excess_blob_gas g)) else None) as He by done.
  assert (BlockHeader.blob_gas_used h =
    if ChainConfig.is_cancun_activated config time
    then Some (default 0 (Genesis.blob_gas_used g)) else None) as Hu by done.
  assert (fork_ordered h) as Hord.
  { unfold fork_ordered. rewrite He, Hu. unfold h, b, Genesis.get_block, Genesis.get_block_header.
    cbn. fold config time. split_and!; repeat case_match; try done; naive_solver. }
  split.
  - eapply (codec_decode _ _ _ (Hc := Block_codec)); [|done].
    split; [split; [by apply genesis_header_wf|done]|]. by_decide.
  - unfold validate_no_cancun_header_fields. rewrite He, Hu.
    unfold h, b, Genesis.get_block, Genesis.get_block_header, ChainConfig.get_fork. cbn. fold config time.
    destruct (ChainConfig.is_cancun_activated config time), (ChainConfig.is_shanghai_activated config time);
      rewrite ?is_Some_alt; naive_solver.
Qed.

Definition sample_genesis : Genesis.t :=
  Genesis.mk (sample_config (Some 10) (Some 20)) ∅ sample_address 1 [] 25000000 4660 (replicate 32 0) 1000
    None None None.
Lemma genesis_block_correct_witness :
  let b := Genesis.get_block toy_hash (λ _, replicate 32 7) sample_genesis in
  decode (Block.decode_unfinished (H:=release_profile)) (Block.encode b) = Ok b.
Proof.
  apply (genesis_block_correct release_profile toy_hash (λ _, replicate 32 7) sample_genesis).
  - intros l. by_decide.
  - by_decide.
  - reflexivity.
  - by_decide.
Defined.
