(* ===== verification/Store.v ===== *)
(** * The store

    Model of [crates/storage]: the [StoreEngine] trait ([engines/api.rs]) as a class
    of operations, the in-memory engine ([engines/in_memory.rs]) as its instance,
    the class of laws the rest of the client relies on, and the operations of the
    [Store] facade ([storage.rs]) that do not open a trie.

    An operation is a state transformer that returns a [Result]; a store behind an
    [Arc] keeps what was written before an error or a panic.  The tries and their
    nodes are added in [StateTries]. *)

From S2P Require Import Prelude Rlp RlpLaws U256 Exponential Vm.
From S2P Require Import Codec CoreTypes CoreLaws Consensus Genesis Effects.

Abbreviation BlockHash := (list Z) (only parsing).
Abbreviation BlockNumber := Z (only parsing).
Abbreviation Index := Z (only parsing).

(** ** error.rs

    The contents of the errors of the database and the trie are not modelled. *)
Inductive StoreError :=
  | DecodeError
  | LibmdbxError
  | StoreCustom (msg : string)
  | RLPDecode (err : RLPDecodeError)
  | TrieError.

(** ** engines/api.rs: the trait *)
Class StoreEngine (S : Type) := {
  add_block_header : BlockHash → BlockHeader.t → stm S StoreError unit;
  get_block_header : BlockNumber → stm S StoreError (option BlockHeader.t);
  add_block_body : BlockHash → BlockBody.t → stm S StoreError unit;
  get_block_body : BlockNumber → stm S StoreError (option BlockBody.t);
  get_block_body_by_hash : BlockHash → stm S StoreError (option BlockBody.t);
  get_block_header_by_hash : BlockHash → stm S StoreError (option BlockHeader.t);
  add_block_number : BlockHash → BlockNumber → stm S StoreError unit;
  get_block_number : BlockHash → stm S StoreError (option BlockNumber);
  add_block_total_difficulty : BlockHash → Z → stm S StoreError unit;
  get_block_total_difficulty : BlockHash → stm S StoreError (option Z);
  add_transaction_location : H256 → BlockNumber → BlockHash → Index → stm S StoreError unit;
  get_transaction_location : H256 → stm S StoreError (option (BlockNumber * BlockHash * Index));
  add_transaction_to_pool : H256 → Transaction.t → stm S StoreError unit;
  get_transaction_from_pool : H256 → stm S StoreError (option Transaction.t);
  add_receipt : BlockHash → Index → Receipt.t → stm S StoreError unit;
  get_receipt : BlockNumber → Index → stm S StoreError (option Receipt.t);
  add_account_code : H256 → list Z → stm S StoreError unit;
  get_account_code : H256 → stm S StoreError (option (list Z));
  get_canonical_block_hash : BlockNumber → stm S StoreError (option BlockHash);
  set_chain_config : ChainConfig.t → stm S StoreError unit;
  get_chain_config : stm S StoreError ChainConfig.t;
  update_earliest_block_number : BlockNumber → stm S StoreError unit;
  get_earliest_block_number : stm S StoreError (option BlockNumber);
  update_finalized_block_number : BlockNumber → stm S StoreError unit;
  get_finalized_block_number : stm S StoreError (option BlockNumber);
  update_safe_block_number : BlockNumber → stm S StoreError unit;
  get_safe_block_number : stm S StoreError (option BlockNumber);
  update_latest_block_number : BlockNumber → stm S StoreError unit;
  get_latest_block_number : stm S StoreError (option BlockNumber);
  update_latest_total_difficulty : Z → stm S StoreError unit;
  get_latest_total_difficulty : stm S StoreError (option Z);
  update_pending_block_number : BlockNumber → stm S StoreError unit;
  get_pending_block_number : stm S StoreError (option BlockNumber);
  set_canonical_block : BlockNumber → BlockHash → stm S StoreError unit;
  add_payload : Z → Block.t → stm S StoreError unit;
  get_payload : Z → stm S StoreError (option Block.t)
}.

(** The methods with a default body. *)
Section Defaults.
Context {S : Type} `{StoreEngine S}.

Definition get_transaction_by_location (block_hash : BlockHash) (index : Z)
    : stm S StoreError (option Transaction.t) :=
  body ← get_block_body_by_hash block_hash;
  match body with
  | Some block_body => mret (BlockBody.transactions block_body !! Z.to_nat index)
  | None => mret None
  end.

Definition get_transaction_by_hash (transaction_hash : H256) : stm S StoreError (option Transaction.t) :=
  loc ← get_transaction_location transaction_hash;
  match loc with
  | Some (_block_number, block_hash, index) => get_transaction_by_location block_hash index
  | None => mret None
  end.

Definition get_block_by_hash (block_hash : BlockHash) : stm S StoreError (option Block.t) :=
  header ← get_block_header_by_hash block_hash;
  match header with
  | None => mret None
  | Some header =>
    body ← get_block_body_by_hash block_hash;
    match body with
    | None => mret None
    | Some body => mret (Some (Block.mk header body))
    end
  end.
End Defaults.

(** ** engines/in_memory.rs *)
Module InMemory.
Record ChainData := mkChainData {
  chain_config : option ChainConfig.t;
  earliest_block_number : option Z;
  finalized_block_number : option Z;
  safe_block_number : option Z;
  latest_block_number : option Z;
  latest_total_difficulty : option Z;
  pending_block_number : option Z
}.
(** [StoreInner], without the nodes of the tries. *)
Record StoreInner := mkStore {
  chain_data : ChainData;
  block_numbers : gmap (list Z) Z;
  canonical_hashes : gmap Z (list Z);
  bodies : gmap (list Z) BlockBody.t;
  headers : gmap (list Z) BlockHeader.t;
  account_codes : gmap (list Z) (list Z);
  transaction_locations : gmap (list Z) (list (Z * list Z * Z));
  transaction_pool : gmap (list Z) Transaction.t;
  receipts : gmap (list Z) (gmap Z Receipt.t);
  block_total_difficulties : gmap (list Z) Z;
  payloads : gmap Z Block.t
}.

(** Assignment to a field. *)
Definition put_chain_config (x : option ChainConfig.t) (s : ChainData) : ChainData :=
  mkChainData x (earliest_block_number s) (finalized_block_number s) (safe_block_number s)
    (latest_block_number s) (latest_total_difficulty s) (pending_block_number s).
Definition put_earliest_block_number (x : option Z) (s : ChainData) : ChainData :=
  mkChainData (chain_config s) x (finalized_block_number s) (safe_block_number s)
    (latest_block_number s) (latest_total_difficulty s) (pending_block_number s).
Definition put_finalized_block_number (x : option Z) (s : ChainData) : ChainData :=
  mkChainData (chain_config s) (earliest_block_number s) x (safe_block_number s)
    (latest_block_number s) (latest_total_difficulty s) (pending_block_number s).
Definition put_safe_block_number (x : option Z) (s : ChainData) : ChainData :=
  mkChainData (chain_config s) (earliest_block_number s) (finalized_block_number s) x
    (latest_block_number s) (latest_total_difficulty s) (pending_block_number s).
Definition put_latest_block_number (x : option Z) (s : ChainData) : ChainData :=
  mkChainData (chain_config s) (earliest_block_number s) (finalized_block_number s)
    (safe_block_number s) x (latest_total_difficulty s) (pending_block_number s).
Definition put_latest_total_difficulty (x : option Z) (s : ChainData) : ChainData :=
  mkChainData (chain_config s) (earliest_block_number s) (finalized_block_number s)
    (safe_block_number s) (latest_block_number s) x (pending_block_number s).
Definition put_pending_block_number (x : option Z) (s : ChainData) : ChainData :=
  mkChainData (chain_config s) (earliest_block_number s) (finalized_block_number s)
    (safe_block_number s) (latest_block_number s) (latest_total_difficulty s) x.
Definition put_chain_data (x : ChainData) (s : StoreInner) : StoreInner :=
  mkStore x (block_numbers s) (canonical_hashes s) (bodies s) (headers s) (account_codes s)
    (transaction_locations s) (transaction_pool s) (receipts s) (block_total_difficulties s)
    (payloads s).
Definition put_block_numbers (x : gmap (list Z) Z) (s : StoreInner) : StoreInner :=
  mkStore (chain_data s) x (canonical_hashes s) (bodies s) (headers s) (account_codes s)
    (transaction_locations s) (transaction_pool s) (receipts s) (block_total_difficulties s)
    (payloads s).
Definition put_canonical_hashes (x : gmap Z (list Z)) (s : StoreInner) : StoreInner :=
  mkStore (chain_data s) (block_numbers s) x (bodies s) (headers s) (account_codes s)
    (transaction_locations s) (transaction_pool s) (receipts s) (block_total_difficulties s)
    (payloads s).
Definition put_bodies (x : gmap (list Z) BlockBody.t) (s : StoreInner) : StoreInner :=
  mkStore (chain_data s) (block_numbers s) (canonical_hashes s) x (headers s) (account_codes s)
    (transaction_locations s) (transaction_pool s) (receipts s) (block_total_difficulties s)
    (payloads s).
Definition put_headers (x : gmap (list Z) BlockHeader.t) (s : StoreInner) : StoreInner :=
  mkStore (chain_data s) (block_numbers s) (canonical_hashes s) (bodies s) x (account_codes s)
    (transaction_locations s) (transaction_pool s) (receipts s) (block_total_difficulties s)
    (payloads s).
Definition put_account_codes (x : gmap (list Z) (list Z)) (s : StoreInner) : StoreInner :=
  mkStore (chain_data s) (block_numbers s) (canonical_hashes s) (bodies s) (headers s) x
    (transaction_locations s) (transaction_pool s) (receipts s) (block_total_difficulties s)
    (payloads s).
Definition put_transaction_locations (x : gmap (list Z) (list (Z * list Z * Z))) (s : StoreInner) : StoreInner :=
  mkStore (chain_data s) (block_numbers s) (canonical_hashes s) (bodies s) (headers s)
    (account_codes s) x (transaction_pool s) (receipts s) (block_total_difficulties s)
    (payloads s).
Definition put_transaction_pool (x : gmap (list Z) Transaction.t) (s : StoreInner) : StoreInner :=
  mkStore (chain_data s) (block_numbers s) (canonical_hashes s) (bodies s) (headers s)
    (account_codes s) (transaction_locations s) x (receipts s) (block_total_difficulties s)
    (payloads s).
Definition put_receipts (x : gmap (list Z) (gmap Z Receipt.t)) (s : StoreInner) : StoreInner :=
  mkStore (chain_data s) (block_numbers s) (canonical_hashes s) (bodies s) (headers s)
    (account_codes s) (transaction_locations s) (transaction_pool s) x
    (block_total_difficulties s) (payloads s).
Definition put_block_total_difficulties (x : gmap (list Z) Z) (s : StoreInner) : StoreInner :=
  mkStore (chain_data s) (block_numbers s) (canonical_hashes s) (bodies s) (headers s)
    (account_codes s) (transaction_locations s) (transaction_pool s) (receipts s) x (payloads s).
Definition put_payloads (x : gmap Z Block.t) (s : StoreInner) : StoreInner :=
  mkStore (chain_data s) (block_numbers s) (canonical_hashes s) (bodies s) (headers s)
    (account_codes s) (transaction_locations s) (transaction_pool s) (receipts s)
    (block_total_difficulties s) x.

Definition new : StoreInner :=
  mkStore (mkChainData None None None None None None None) ∅ ∅ ∅ ∅ ∅ ∅ ∅ ∅ ∅ ∅.

Abbreviation op A := (stm StoreInner StoreError A).
Definition write (f : StoreInner → StoreInner) : op unit := λ s, (f s, Ok tt).
Definition read {A} (f : StoreInner → A) : op A := λ s, (s, Ok (f s)).
Definition write_chain_data (f : ChainData → ChainData) : op unit :=
  write (λ s, put_chain_data (f (chain_data s)) s).

(** A lookup through the canonical hash of a number. *)
Definition by_number {A} (s : StoreInner) (m : gmap (list Z) A) (block_number : Z) : option A :=
  match canonical_hashes s !! block_number with
  | Some hash => m !! hash
  | None => None
  end.

Definition add_block_header (block_hash : list Z) (block_header : BlockHeader.t) : op unit :=
  write (λ s, put_headers (<[block_hash := block_header]> (headers s)) s).
Definition get_block_header (block_number : Z) : op (option BlockHeader.t) :=
  read (λ s, by_number s (headers s) block_number).
Definition add_block_body (block_hash : list Z) (block_body : BlockBody.t) : op unit :=
  write (λ s, put_bodies (<[block_hash := block_body]> (bodies s)) s).
Definition get_block_body (block_number : Z) : op (option BlockBody.t) :=
  read (λ s, by_number s (bodies s) block_number).
Definition get_block_body_by_hash (block_hash : list Z) : op (option BlockBody.t) :=
  read (λ s, bodies s !! block_hash).
Definition get_block_header_by_hash (block_hash : list Z) : op (option BlockHeader.t) :=
  read (λ s, headers s !! block_hash).
Definition add_block_number (block_hash : list Z) (block_number : Z) : op unit :=
  write (λ s, put_block_numbers (<[block_hash := block_number]> (block_numbers s)) s).
Definition get_block_number (block_hash : list Z) : op (option Z) :=
  read (λ s, block_numbers s !! block_hash).
Definition add_block_total_difficulty (block_hash : list Z) (block_total_difficulty : Z) : op unit :=
  write (λ s, put_block_total_difficulties
    (<[block_hash := block_total_difficulty]> (block_total_difficulties s)) s).
Definition get_block_total_difficulty (block_hash : list Z) : op (option Z) :=
  read (λ s, block_total_difficulties s !! block_hash).

Definition add_transaction_location (transaction_hash : list Z) (block_number : Z)
    (block_hash : list Z) (index : Z) : op unit :=
  write (λ s, put_transaction_locations
    (<[transaction_hash := default [] (transaction_locations s !! transaction_hash) ++
         [(block_number, block_hash, index)]]> (transaction_locations s)) s).
(** The first location on the canonical chain. *)
Definition get_transaction_location (transaction_hash : list Z) : op (option (Z * list Z * Z)) :=
  read (λ s,
    v ← transaction_locations s !! transaction_hash;
    snd <$> list_find (λ '(number, hash, _), canonical_hashes s !! number = Some hash) v).

Definition add_transaction_to_pool (hash : list Z) (transaction : Transaction.t) : op unit :=
  write (λ s, put_transaction_pool (<[hash := transaction]> (transaction_pool s)) s).
Definition get_transaction_from_pool (hash : list Z) : op (option Transaction.t) :=
  read (λ s, transaction_pool s !! hash).

Definition add_receipt (block_hash : list Z) (index : Z) (receipt : Receipt.t) : op unit :=
  write (λ s, put_receipts
    (<[block_hash := <[index := receipt]> (default ∅ (receipts s !! block_hash))]> (receipts s)) s).
Definition get_receipt (block_number : Z) (index : Z) : op (option Receipt.t) :=
  read (λ s, entry ← by_number s (receipts s) block_number; entry !! index).

Definition add_account_code (code_hash code : list Z) : op unit :=
  write (λ s, put_account_codes (<[code_hash := code]> (account_codes s)) s).
Definition get_account_code (code_hash : list Z) : op (option (list Z)) :=
  read (λ s, account_codes s !! code_hash).


Definition set_chain_config (config : ChainConfig.t) : op unit :=
  write_chain_data (put_chain_config (Some config)).
(** [unwrap] of the configuration. *)
Definition get_chain_config : op ChainConfig.t := λ s, (s, unwrap (chain_config (chain_data s))).

Definition update_earliest_block_number (x : Z) : op unit :=
  write_chain_data (put_earliest_block_number (Some x)).
Definition get_earliest_block_number : op (option Z) :=
  read (λ s, earliest_block_number (chain_data s)).
Definition update_finalized_block_number (x : Z) : op unit :=
  write_chain_data (put_finalized_block_number (Some x)).
Definition get_finalized_block_number : op (option Z) :=
  read (λ s, finalized_block_number (chain_data s)).
Definition update_safe_block_number (x : Z) : op unit :=
  write_chain_data (put_safe_block_number (Some x)).
Definition get_safe_block_number : op (option Z) :=
  read (λ s, safe_block_number (chain_data s)).
Definition update_latest_block_number (x : Z) : op unit :=
  write_chain_data (put_latest_block_number (Some x)).
Definition get_latest_block_number : op (option Z) :=
  read (λ s, latest_block_number (chain_data s)).
Definition update_latest_total_difficulty (x : Z) : op unit :=
  write_chain_data (put_latest_total_difficulty (Some x)).
Definition get_latest_total_difficulty : op (option Z) :=
  read (λ s, latest_total_difficulty (chain_data s)).
Definition update_pending_block_number (x : Z) : op unit :=
  write_chain_data (put_pending_block_number (Some x)).
Definition get_pending_block_number : op (option Z) :=
  read (λ s, pending_block_number (chain_data s)).

Definition set_canonical_block (number : Z) (hash : list Z) : op unit :=
  write (λ s, put_canonical_hashes (<[number := hash]> (canonical_hashes s)) s).
Definition get_canonical_block_hash (block_number : Z) : op (option (list Z)) :=
  read (λ s, canonical_hashes s !! block_number).
Definition add_payload (payload_id : Z) (block : Block.t) : op unit :=
  write (λ s, put_payloads (<[payload_id := block]> (payloads s)) s).
Definition get_payload (payload_id : Z) : op (option Block.t) :=
  read (λ s, payloads s !! payload_id).

#[global] Instance engine : StoreEngine StoreInner := {|
  Store.add_block_header := add_block_header;
  Store.get_block_header := get_block_header;
  Store.add_block_body := add_block_body;
  Store.get_block_body := get_block_body;
  Store.get_block_body_by_hash := get_block_body_by_hash;
  Store.get_block_header_by_hash := get_block_header_by_hash;
  Store.add_block_number := add_block_number;
  Store.get_block_number := get_block_number;
  Store.add_block_total_difficulty := add_block_total_difficulty;
  Store.get_block_total_difficulty := get_block_total_difficulty;
  Store.add_transaction_location := add_transaction_location;
  Store.get_transaction_location := get_transaction_location;
  Store.add_transaction_to_pool := add_transaction_to_pool;
  Store.get_transaction_from_pool := get_transaction_from_pool;
  Store.add_receipt := add_receipt;
  Store.get_receipt := get_receipt;
  Store.add_account_code := add_account_code;
  Store.get_account_code := get_account_code;
  Store.get_canonical_block_hash := get_canonical_block_hash;
  Store.set_chain_config := set_chain_config;
  Store.get_chain_config := get_chain_config;
  Store.update_earliest_block_number := update_earliest_block_number;
  Store.get_earliest_block_number := get_earliest_block_number;
  Store.update_finalized_block_number := update_finalized_block_number;
  Store.get_finalized_block_number := get_finalized_block_number;
  Store.update_safe_block_number := update_safe_block_number;
  Store.get_safe_block_number := get_safe_block_number;
  Store.update_latest_block_number := update_latest_block_number;
  Store.get_latest_block_number := get_latest_block_number;
  Store.update_latest_total_difficulty := update_latest_total_difficulty;
  Store.get_latest_total_difficulty := get_latest_total_difficulty;
  Store.update_pending_block_number := update_pending_block_number;
  Store.get_pending_block_number := get_pending_block_number;
  Store.set_canonical_block := set_canonical_block;
  Store.add_payload := add_payload;
  Store.get_payload := get_payload
|}.
End InMemory.

(** ** storage.rs *)
Section Facade.
Context {S : Type} `{StoreEngine S}.
Variable keccak256 : list Z → list Z.

Definition add_transaction_locations (transactions : list Transaction.t) (block_number : BlockNumber)
    (block_hash : BlockHash) : stm S StoreError unit :=
  for_each (λ '(index, transaction),
    add_transaction_location (Transaction.compute_hash keccak256 transaction) block_number block_hash
      (Z.of_nat index)) (imap pair transactions).

(** [+] on [U256] panics on an overflow in both profiles. *)
Definition u256_add (a b : Z) : res StoreError Z :=
  if a + b <? U256_MOD then Ok (a + b) else Panic.

Definition add_block (block : Block.t) : stm S StoreError unit :=
  let header := Block.header block in
  let number := BlockHeader.number header in
  latest_total_difficulty ← get_latest_total_difficulty;
  block_total_difficulty ←
    lift (u256_add (default 0 latest_total_difficulty) (BlockHeader.difficulty header));
  let hash := BlockHeader.compute_block_hash keccak256 header in
  _ ← add_transaction_locations (BlockBody.transactions (Block.body block)) number hash;
  _ ← add_block_body hash (Block.body block);
  _ ← add_block_header hash header;
  _ ← add_block_number hash number;
  _ ← update_latest_block_number number;
  _ ← add_block_total_difficulty hash block_total_difficulty;
  update_latest_total_difficulty block_total_difficulty.

(** [setup_genesis_state_trie] works on the tries; it is an argument here, which
    [StateTries] defines, with the state root it returns ([debug_assert_eq!] compares it in the debug profile). *)
Definition add_initial_state `{Profile} (trie_root : list (list Z * list Z) → list Z)
    (setup_genesis_state_trie : gmap (list Z) GenesisAccount.t → stm S StoreError (list Z))
    (genesis : Genesis.t) : stm S StoreError unit :=
  let genesis_block := Genesis.get_block keccak256 trie_root genesis in
  let genesis_block_number := BlockHeader.number (Block.header genesis_block) in
  let genesis_hash := BlockHeader.compute_block_hash keccak256 (Block.header genesis_block) in
  stored ← get_block_header genesis_block_number;
  match stored with
  | Some header =>
    if bool_decide (BlockHeader.compute_block_hash keccak256 header = genesis_hash)
    then mret tt else lift Panic
  | None =>
    genesis_state_root ← setup_genesis_state_trie (Genesis.alloc genesis);
    _ ← lift (if overflow_checks &&
                 negb (bool_decide (genesis_state_root = BlockHeader.state_root (Block.header genesis_block)))
              then Panic else Ok tt);
    _ ← update_earliest_block_number genesis_block_number;
    _ ← add_block genesis_block;
    _ ← set_canonical_block genesis_block_number genesis_hash;
    set_chain_config (Genesis.config genesis)
  end.
End Facade.

(** ** The promise of an engine: it behaves like the in-memory engine

    [contents] is what a store holds; every operation must compute, on the
    contents, what the operation of the in-memory engine computes. *)
Section Simulation.
Context {S T : Type} (f : S → T).

Definition simulates {E A} (m : stm S E A) (m' : stm T E A) : Prop :=
  ∀ s, m' (f s) = (f (m s).1, (m s).2).

Lemma simulates_ret {E A} (a : A) : simulates (E:=E) (mret a) (mret a).
Proof. done. Qed.
Lemma simulates_lift {E A} (r : res E A) : simulates (lift r) (lift r).
Proof. done. Qed.
Lemma simulates_bind {E A B} (m : stm S E A) m' (k : A → stm S E B) k' :
  simulates m m' → (∀ a, simulates (k a) (k' a)) → simulates (m ≫= k) (m' ≫= k').
Proof.
  intros Hm Hk s. unfold mbind, stm_mbind. rewrite Hm.
  destruct (m s) as [s1 [a|e| |]]; cbn; [apply Hk|done..].
Qed.
Lemma simulates_map_err {E F A} (g : E → F) (m : stm S E A) m' :
  simulates m m' → simulates (stm_map_err g m) (stm_map_err g m').
Proof. intros Hm s. unfold stm_map_err. rewrite Hm. by destruct (m s). Qed.
Lemma simulates_for_each {E A} (g : A → stm S E unit) g' l :
  (∀ x, simulates (g x) (g' x)) → simulates (for_each g l) (for_each g' l).
Proof.
  intros Hg. induction l as [|x l IH]; cbn; [apply simulates_ret|]. by apply simulates_bind.
Qed.
End Simulation.

Class LawfulEngine (S : Type) `{StoreEngine S} := {
  contents : S → InMemory.StoreInner;
  lawful_add_block_header : ∀ a b, simulates contents (add_block_header a b) (InMemory.add_block_header a b);
  lawful_get_block_header : ∀ a, simulates contents (get_block_header a) (InMemory.get_block_header a);
  lawful_add_block_body : ∀ a b, simulates contents (add_block_body a b) (InMemory.add_block_body a b);
  lawful_get_block_body : ∀ a, simulates contents (get_block_body a) (InMemory.get_block_body a);
  lawful_get_block_body_by_hash : ∀ a, simulates contents (get_block_body_by_hash a) (InMemory.get_block_body_by_hash a);
  lawful_get_block_header_by_hash : ∀ a, simulates contents (get_block_header_by_hash a) (InMemory.get_block_header_by_hash a);
  lawful_add_block_number : ∀ a b, simulates contents (add_block_number a b) (InMemory.add_block_number a b);
  lawful_get_block_number : ∀ a, simulates contents (get_block_number a) (InMemory.get_block_number a);
  lawful_add_block_total_difficulty : ∀ a b, simulates contents (add_block_total_difficulty a b) (InMemory.add_block_total_difficulty a b);
  lawful_get_block_total_difficulty : ∀ a, simulates contents (get_block_total_difficulty a) (InMemory.get_block_total_difficulty a);
  lawful_add_transaction_location : ∀ a b c d, simulates contents (add_transaction_location a b c d) (InMemory.add_transaction_location a b c d);
  lawful_get_transaction_location : ∀ a, simulates contents (get_transaction_location a) (InMemory.get_transaction_location a);
  lawful_add_transaction_to_pool : ∀ a b, simulates contents (add_transaction_to_pool a b) (InMemory.add_transaction_to_pool a b);
  lawful_get_transaction_from_pool : ∀ a, simulates contents (get_transaction_from_pool a) (InMemory.get_transaction_from_pool a);
  lawful_add_receipt : ∀ a b c, simulates contents (add_receipt a b c) (InMemory.add_receipt a b c);
  lawful_get_receipt : ∀ a b, simulates contents (get_receipt a b) (InMemory.get_receipt a b);
  lawful_add_account_code : ∀ a b, simulates contents (add_account_code a b) (InMemory.add_account_code a b);
  lawful_get_account_code : ∀ a, simulates contents (get_account_code a) (InMemory.get_account_code a);
  lawful_get_canonical_block_hash : ∀ a, simulates contents (get_canonical_block_hash a) (InMemory.get_canonical_block_hash a);
  lawful_set_chain_config : ∀ a, simulates contents (set_chain_config a) (InMemory.set_chain_config a);
  lawful_get_chain_config : simulates contents (get_chain_config) (InMemory.get_chain_config);
  lawful_update_earliest_block_number : ∀ a, simulates contents (update_earliest_block_number a) (InMemory.update_earliest_block_number a);
  lawful_get_earliest_block_number : simulates contents (get_earliest_block_number) (InMemory.get_earliest_block_number);
  lawful_update_finalized_block_number : ∀ a, simulates contents (update_finalized_block_number a) (InMemory.update_finalized_block_number a);
  lawful_get_finalized_block_number : simulates contents (get_finalized_block_number) (InMemory.get_finalized_block_number);
  lawful_update_safe_block_number : ∀ a, simulates contents (update_safe_block_number a) (InMemory.update_safe_block_number a);
  lawful_get_safe_block_number : simulates contents (get_safe_block_number) (InMemory.get_safe_block_number);
  lawful_update_latest_block_number : ∀ a, simulates contents (update_latest_block_number a) (InMemory.update_latest_block_number a);
  lawful_get_latest_block_number : simulates contents (get_latest_block_number) (InMemory.get_latest_block_number);
  lawful_update_latest_total_difficulty : ∀ a, simulates contents (update_latest_total_difficulty a) (InMemory.update_latest_total_difficulty a);
  lawful_get_latest_total_difficulty : simulates contents (get_latest_total_difficulty) (InMemory.get_latest_total_difficulty);
  lawful_update_pending_block_number : ∀ a, simulates contents (update_pending_block_number a) (InMemory.update_pending_block_number a);
  lawful_get_pending_block_number : simulates contents (get_pending_block_number) (InMemory.get_pending_block_number);
  lawful_set_canonical_block : ∀ a b, simulates contents (set_canonical_block a b) (InMemory.set_canonical_block a b);
  lawful_add_payload : ∀ a b, simulates contents (add_payload a b) (InMemory.add_payload a b);
  lawful_get_payload : ∀ a, simulates contents (get_payload a) (InMemory.get_payload a)
}.

Create HintDb engine.
#[export] Hint Resolve simulates_ret simulates_lift simulates_bind simulates_map_err simulates_for_each
  lawful_add_block_header lawful_get_block_header lawful_add_block_body lawful_get_block_body
  lawful_get_block_body_by_hash lawful_get_block_header_by_hash lawful_add_block_number
  lawful_get_block_number lawful_add_block_total_difficulty lawful_get_block_total_difficulty
  lawful_add_transaction_location lawful_get_transaction_location lawful_add_transaction_to_pool
  lawful_get_transaction_from_pool lawful_add_receipt lawful_get_receipt lawful_add_account_code
  lawful_get_account_code lawful_get_canonical_block_hash lawful_set_chain_config
  lawful_get_chain_config lawful_update_earliest_block_number lawful_get_earliest_block_number
  lawful_update_finalized_block_number lawful_get_finalized_block_number
  lawful_update_safe_block_number lawful_get_safe_block_number lawful_update_latest_block_number
  lawful_get_latest_block_number lawful_update_latest_total_difficulty
  lawful_get_latest_total_difficulty lawful_update_pending_block_number
  lawful_get_pending_block_number lawful_set_canonical_block lawful_add_payload
  lawful_get_payload : engine.

(** Proves that a client of the store behaves alike on every engine. *)
Ltac simulate :=
  repeat first
    [ progress intros
    | apply simulates_ret | apply simulates_lift | apply simulates_bind | apply simulates_map_err
    | apply simulates_for_each | case_match | solve [eauto with engine] ].

#[global] Instance in_memory_lawful : LawfulEngine InMemory.StoreInner.
Proof. refine {| contents := id |}; intros; intros s; done. Defined.
