(* ===== verification/StoreLaws.v ===== *)
(** * The store: lookups and invariant

    What is written to the store is what is read back, for every engine that
    fulfils [LawfulEngine], and the invariant that ties the tables together. *)

From S2P Require Import Prelude Rlp RlpLaws U256 Exponential Vm.
From S2P Require Import Codec CoreTypes CoreLaws Consensus Genesis Effects Store.

(** ** What [add_block] writes *)
Section Contents.
Variable keccak256 : list Z → list Z.

Fixpoint add_locations (txs : list (nat * Transaction.t)) (number : Z) (hash : list Z)
    (m : gmap (list Z) (list (Z * list Z * Z))) : gmap (list Z) (list (Z * list Z * Z)) :=
  match txs with
  | [] => m
  | (i, tx) :: txs =>
    let h := Transaction.compute_hash keccak256 tx in
    add_locations txs number hash (<[h := default [] (m !! h) ++ [(number, hash, Z.of_nat i)]]> m)
  end.

(** The contents after [add_block]. *)
Definition with_block (b : Block.t) (s : InMemory.StoreInner) : InMemory.StoreInner :=
  let hdr := Block.header b in
  let hash := BlockHeader.compute_block_hash keccak256 hdr in
  let difficulty := default 0 (InMemory.latest_total_difficulty (InMemory.chain_data s)) +
                    BlockHeader.difficulty hdr in
  s |> InMemory.put_transaction_locations (add_locations (imap pair (BlockBody.transactions (Block.body b)))
         (BlockHeader.number hdr) hash (InMemory.transaction_locations s))
    |> InMemory.put_bodies (<[hash := Block.body b]> (InMemory.bodies s))
    |> InMemory.put_headers (<[hash := hdr]> (InMemory.headers s))
    |> InMemory.put_block_numbers (<[hash := BlockHeader.number hdr]> (InMemory.block_numbers s))
    |> InMemory.put_block_total_difficulties
         (<[hash := difficulty]> (InMemory.block_total_difficulties s))
    |> InMemory.put_chain_data
         (InMemory.put_latest_total_difficulty (Some difficulty)
           (InMemory.put_latest_block_number (Some (BlockHeader.number hdr)) (InMemory.chain_data s))).

(** The locations that a block adds for a transaction hash. *)
Fixpoint new_locations (txs : list (nat * Transaction.t)) (number : Z) (hash h : list Z)
    : list (Z * list Z * Z) :=
  match txs with
  | [] => []
  | (i, tx) :: txs =>
    if decide (Transaction.compute_hash keccak256 tx = h)
    then (number, hash, Z.of_nat i) :: new_locations txs number hash h
    else new_locations txs number hash h
  end.

Lemma add_locations_lookup txs number hash h : ∀ m,
  default [] (add_locations txs number hash m !! h) =
  default [] (m !! h) ++ new_locations txs number hash h.
Proof.
  induction txs as [|[i tx] txs IH]; intros m; cbn [add_locations new_locations]; cbv zeta;
    [by rewrite app_nil_r|]. rewrite IH.
  destruct (decide (Transaction.compute_hash keccak256 tx = h)) as [->|Hne].
  - rewrite lookup_insert_eq. cbn [from_option id]. by rewrite <-app_assoc.
  - by rewrite lookup_insert_ne.
Qed.

Lemma new_locations_first txs number hash (i : nat) tx :
  txs !! i = Some tx →
  (∀ j tx', (j < i)%nat → txs !! j = Some tx' →
    Transaction.compute_hash keccak256 tx' ≠ Transaction.compute_hash keccak256 tx) →
  ∀ k, ∃ l, new_locations (imap (λ j, pair (k + j)%nat) txs) number hash
              (Transaction.compute_hash keccak256 tx) = (number, hash, Z.of_nat (k + i)) :: l.
Proof.
  revert i. induction txs as [|x txs IH]; intros [|i] Hi Hfirst k; try done.
  - cbn in Hi. simplify_eq. cbn. rewrite decide_True by done. by eexists.
  - cbn. rewrite decide_False by (apply (Hfirst 0%nat); [lia|done]).
    destruct (IH i Hi) with (k := Datatypes.S k) as [l Hl].
    { intros j tx' Hj Htx. apply (Hfirst (Datatypes.S j)); [lia|done]. }
    exists l. rewrite <-Nat.add_succ_comm, <-Hl. f_equal. apply imap_ext. intros. cbn. f_equal. lia.
Qed.

Lemma add_transaction_locations_spec txs number hash (s : InMemory.StoreInner) :
  for_each (λ '(index, transaction),
    InMemory.add_transaction_location (Transaction.compute_hash keccak256 transaction) number hash
      (Z.of_nat index)) txs s =
  (InMemory.put_transaction_locations
     (add_locations txs number hash (InMemory.transaction_locations s)) s, Ok tt).
Proof.
  revert s. induction txs as [|[i tx] txs IH]; intros s; [by destruct s|].
  cbn [for_each]. erewrite stm_bind_Ok by reflexivity. rewrite IH. by destruct s.
Qed.

Lemma with_block_locations b m s :
  InMemory.transaction_locations (InMemory.put_canonical_hashes m (with_block b s)) =
  add_locations (imap pair (BlockBody.transactions (Block.body b)))
    (BlockHeader.number (Block.header b))
    (BlockHeader.compute_block_hash keccak256 (Block.header b)) (InMemory.transaction_locations s).
Proof. done. Qed.

Lemma add_block_contents b (s : InMemory.StoreInner) :
  default 0 (InMemory.latest_total_difficulty (InMemory.chain_data s)) +
    BlockHeader.difficulty (Block.header b) < U256_MOD →
  Store.add_block keccak256 b s = (with_block b s, Ok tt).
Proof.
  intros Hd. unfold Store.add_block. cbv zeta.
  erewrite stm_bind_Ok by reflexivity.
  erewrite stm_bind_Ok by (unfold lift, u256_add; rewrite (proj2 (Z.ltb_lt _ _) Hd); reflexivity).
  erewrite stm_bind_Ok by apply add_transaction_locations_spec.
  do 5 (erewrite stm_bind_Ok by reflexivity). unfold with_block. by destruct s as [[]].
Qed.

Lemma add_block_Ok b (s s' : InMemory.StoreInner) :
  Store.add_block keccak256 b s = (s', Ok tt) → s' = with_block b s.
Proof.
  intros Hs. destruct (decide (default 0 (InMemory.latest_total_difficulty (InMemory.chain_data s)) +
    BlockHeader.difficulty (Block.header b) < U256_MOD)) as [Hd|Hd].
  - rewrite add_block_contents in Hs by done. by simplify_eq.
  - unfold Store.add_block in Hs. cbv zeta in Hs. erewrite stm_bind_Ok in Hs by reflexivity.
    apply stm_bind_inv in Hs as (? & ? & Hl & _). unfold lift, u256_add in Hl.
    apply Z.ltb_nlt in Hd. by rewrite Hd in Hl.
Qed.
End Contents.

Lemma located_transaction s hash body (i : nat) tx :
  InMemory.bodies s !! hash = Some body → BlockBody.transactions body !! i = Some tx →
  get_transaction_by_location (S:=InMemory.StoreInner) hash (Z.of_nat i) s = (s, Ok (Some tx)).
Proof.
  intros Hb Hi. unfold get_transaction_by_location. erewrite stm_bind_Ok by reflexivity.
  rewrite Hb. unfold mret, stm_mret. by rewrite Nat2Z.id, Hi.
Qed.

Lemma first_location s h number hash index l :
  InMemory.canonical_hashes s !! number = Some hash →
  default [] (InMemory.transaction_locations s !! h) = (number, hash, index) :: l →
  InMemory.get_transaction_location h s = (s, Ok (Some (number, hash, index))).
Proof.
  intros Hc Hl. unfold InMemory.get_transaction_location, InMemory.read.
  destruct (InMemory.transaction_locations s !! h) as [v|]; [|done]. cbn in Hl. subst v.
  cbn. by rewrite decide_True.
Qed.

(** ** Every engine *)
Section Engines.
Context {S : Type} `{LawfulEngine S}.
Variable keccak256 : list Z → list Z.

Lemma simulates_eq {E A} (m : stm S E A) (m' : stm InMemory.StoreInner E A) s s' r :
  simulates contents m m' → m s = (s', r) → m' (contents s) = (contents s', r).
Proof. intros Hm Hs. by rewrite Hm, Hs. Qed.
(** A read of the in-memory engine gives the result of the read of any engine. *)
Lemma simulates_read {E A} (m : stm S E A) (m' : stm InMemory.StoreInner E A) s r :
  simulates contents m m' → m' (contents s) = (contents s, r) →
  ∃ s', m s = (s', r) ∧ contents s' = contents s.
Proof.
  intros Hm Hs. rewrite Hm in Hs. destruct (m s) as [s1 r1]. cbn in Hs. simplify_eq. eauto.
Qed.

Lemma add_block_simulates b :
  simulates contents (Store.add_block (S:=S) keccak256 b)
    (Store.add_block (S:=InMemory.StoreInner) keccak256 b).
Proof. unfold Store.add_block, add_transaction_locations. simulate. Qed.
Lemma get_transaction_by_location_simulates h i :
  simulates contents (get_transaction_by_location (S:=S) h i)
    (get_transaction_by_location (S:=InMemory.StoreInner) h i).
Proof. unfold get_transaction_by_location. simulate. Qed.
Lemma get_transaction_by_hash_simulates h :
  simulates contents (get_transaction_by_hash (S:=S) h)
    (get_transaction_by_hash (S:=InMemory.StoreInner) h).
Proof. unfold get_transaction_by_hash. simulate. Qed.
Lemma get_block_by_hash_simulates h :
  simulates contents (get_block_by_hash (S:=S) h) (get_block_by_hash (S:=InMemory.StoreInner) h).
Proof. unfold get_block_by_hash. simulate. Qed.
End Engines.

(** ** Lookups *)
Section Lookups.
Context {S : Type} `{LawfulEngine S}.

(** [m] reads [a] and leaves the contents alone. *)
Definition returns {A} (m : stm S StoreError A) (s : S) (a : A) : Prop :=
  ∃ s', m s = (s', Ok a) ∧ contents s' = contents s.

Lemma returns_read {A} (m : stm S StoreError A) m' s a :
  simulates contents m m' → m' (contents s) = (contents s, Ok a) → returns m s a.
Proof. apply simulates_read. Qed.
End Lookups.

(** C37: on every engine that keeps its promise, a block that was added and then made
    canonical is found again: header and body by number, the block and its number by
    hash, every transaction by its place, and by its hash when that hash is new to
    the store; and it is the latest block. *)
Theorem stored_block_found (S : Type) (E : StoreEngine S) (L : LawfulEngine S)
    (keccak256 : list Z → list Z) (b : Block.t) (s s1 s2 : S) :
  let hdr := Block.header b in
  let txs := BlockBody.transactions (Block.body b) in
  let number := BlockHeader.number hdr in
  let hash := BlockHeader.compute_block_hash keccak256 hdr in
  Store.add_block keccak256 b s = (s1, Ok tt) →
  set_canonical_block number hash s1 = (s2, Ok tt) →
  returns (get_block_header number) s2 (Some hdr) ∧
  returns (get_block_body number) s2 (Some (Block.body b)) ∧
  returns (get_block_by_hash hash) s2 (Some b) ∧
  returns (get_block_number hash) s2 (Some number) ∧
  returns get_latest_block_number s2 (Some number) ∧
  (∀ i tx, txs !! i = Some tx → returns (get_transaction_by_location hash (Z.of_nat i)) s2 (Some tx)) ∧
  (∀ i tx, txs !! i = Some tx →
    let h := Transaction.compute_hash keccak256 tx in
    InMemory.transaction_locations (contents s) !! h = None →
    (∀ j tx', (j < i)%nat → txs !! j = Some tx' → Transaction.compute_hash keccak256 tx' ≠ h) →
    returns (get_transaction_by_hash h) s2 (Some tx)).
Proof.
  intros hdr txs number hash Ha Hc.
  apply (simulates_eq _ _ _ _ _ (add_block_simulates keccak256 b)), add_block_Ok in Ha.
  apply (simulates_eq _ _ _ _ _ (lawful_set_canonical_block number hash)) in Hc.
  assert (contents s2 = InMemory.put_canonical_hashes
    (<[number := hash]> (InMemory.canonical_hashes (contents s1))) (contents s1)) as Hs2
    by (unfold InMemory.set_canonical_block, InMemory.write in Hc; by simplify_eq).
  rewrite Ha in Hs2. clear Hc Ha.
  split_and!.
  - eapply returns_read; [apply lawful_get_block_header|]. rewrite Hs2.
    unfold InMemory.get_block_header, InMemory.read, InMemory.by_number. cbn. by rewrite !lookup_insert_eq.
  - eapply returns_read; [apply lawful_get_block_body|]. rewrite Hs2.
    unfold InMemory.get_block_body, InMemory.read, InMemory.by_number. cbn. by rewrite !lookup_insert_eq.
  - eapply returns_read; [apply get_block_by_hash_simulates|]. rewrite Hs2.
    unfold get_block_by_hash. do 2 (erewrite stm_bind_Ok by reflexivity; cbn; rewrite lookup_insert_eq).
    by destruct b.
  - eapply returns_read; [apply lawful_get_block_number|]. rewrite Hs2.
    unfold InMemory.get_block_number, InMemory.read. cbn. by rewrite !lookup_insert_eq.
  - eapply returns_read; [apply lawful_get_latest_block_number|]. by rewrite Hs2.
  - intros i tx Hi. eapply returns_read; [apply get_transaction_by_location_simulates|]. rewrite Hs2.
    eapply located_transaction; [by apply lookup_insert_eq|done].
  - intros i tx Hi h Hnew Hfirst.
    eapply returns_read; [apply get_transaction_by_hash_simulates|]. rewrite Hs2.
    destruct (new_locations_first keccak256 txs number hash i tx Hi Hfirst 0) as [l Hl].
    unfold get_transaction_by_hash. erewrite stm_bind_Ok.
    2: { eapply first_location; [by apply lookup_insert_eq|].
      rewrite with_block_locations, add_locations_lookup, Hnew. exact Hl. }
    cbn iota. eapply located_transaction; [by apply lookup_insert_eq|exact Hi].
Qed.

(** ** The invariant *)

(** Headers are stored under their hash, with their number and a body; the canonical
    hash of a number is the hash of a stored header with that number. *)
Record wf_store (keccak256 : list Z → list Z) (s : InMemory.StoreInner) : Prop := {
  wf_hash : ∀ h hdr, InMemory.headers s !! h = Some hdr →
    h = BlockHeader.compute_block_hash keccak256 hdr ∧
    InMemory.block_numbers s !! h = Some (BlockHeader.number hdr) ∧
    is_Some (InMemory.bodies s !! h);
  wf_canonical : ∀ n h, InMemory.canonical_hashes s !! n = Some h →
    ∃ hdr, InMemory.headers s !! h = Some hdr ∧ BlockHeader.number hdr = n
}.

(** The part of the contents that the invariant is about. *)
Definition chain_tables (s : InMemory.StoreInner) :=
  (InMemory.headers s, InMemory.bodies s, InMemory.block_numbers s, InMemory.canonical_hashes s).
Lemma wf_store_tables keccak256 s s' :
  chain_tables s' = chain_tables s → wf_store keccak256 s → wf_store keccak256 s'.
Proof.
  unfold chain_tables. intros [= Hh Hb Hn Hc] [H1 H2]. split.
  - intros h hdr. rewrite Hh, Hn, Hb. apply H1.
  - intros n h. rewrite Hc, Hh. apply H2.
Qed.

Lemma wf_store_add_block keccak256 b s :
  let hash := BlockHeader.compute_block_hash keccak256 (Block.header b) in
  (∀ hdr, InMemory.headers s !! hash = Some hdr → hdr = Block.header b) →
  wf_store keccak256 s → wf_store keccak256 (with_block keccak256 b s).
Proof.
  intros hash Hnew [H1 H2]. split; cbn; fold hash.
  - intros h hdr. destruct (decide (h = hash)) as [->|Hne].
    + rewrite !lookup_insert_eq. intros [= <-]. split_and!; eauto.
    + rewrite !lookup_insert_ne by done. apply H1.
  - intros n h Hc. destruct (H2 n h Hc) as (hdr & Hh & Hn).
    destruct (decide (h = hash)) as [->|Hne].
    + rewrite lookup_insert_eq. eexists. split; [done|]. by rewrite <-(Hnew _ Hh).
    + rewrite lookup_insert_ne by done. eauto.
Qed.

Lemma wf_store_set_canonical keccak256 n h hdr s :
  InMemory.headers s !! h = Some hdr → BlockHeader.number hdr = n →
  wf_store keccak256 s →
  wf_store keccak256 (InMemory.put_canonical_hashes (<[n := h]> (InMemory.canonical_hashes s)) s).
Proof.
  intros Hh Hn [H1 H2]. split; cbn; [apply H1|]. intros n' h'.
  destruct (decide (n' = n)) as [->|Hne].
  - rewrite lookup_insert_eq. intros [= <-]. eauto.
  - rewrite lookup_insert_ne by done. apply H2.
Qed.

(** The store keeps its tables consistent, on every engine that keeps its promise:
    an empty store is consistent, adding a block keeps it so unless the block's hash
    belongs to a different header, so does making a stored header canonical at its
    number, and no other write touches the tables; and in a consistent store a header
    found by number has that number and is the header of its hash. *)
Theorem store_invariant (S : Type) (E : StoreEngine S) (L : LawfulEngine S)
    (keccak256 : list Z → list Z) (s s' : S) :
  (contents s = InMemory.new → wf_store keccak256 (contents s)) ∧
  (wf_store keccak256 (contents s) →
   (∀ b, Store.add_block keccak256 b s = (s', Ok tt) →
     (∀ hdr, InMemory.headers (contents s) !!
        BlockHeader.compute_block_hash keccak256 (Block.header b) = Some hdr → hdr = Block.header b) →
     wf_store keccak256 (contents s')) ∧
   (∀ hdr, set_canonical_block (BlockHeader.number hdr)
       (BlockHeader.compute_block_hash keccak256 hdr) s = (s', Ok tt) →
     InMemory.headers (contents s) !! BlockHeader.compute_block_hash keccak256 hdr = Some hdr →
     wf_store keccak256 (contents s')) ∧
   (∀ h i r, add_receipt h i r s = (s', Ok tt) → wf_store keccak256 (contents s')) ∧
   (∀ h tx, add_transaction_to_pool h tx s = (s', Ok tt) → wf_store keccak256 (contents s')) ∧
   (∀ id b, add_payload id b s = (s', Ok tt) → wf_store keccak256 (contents s')) ∧
   (∀ n hdr, get_block_header n s = (s', Ok (Some hdr)) →
     BlockHeader.number hdr = n ∧
     InMemory.canonical_hashes (contents s) !! n = Some (BlockHeader.compute_block_hash keccak256 hdr))).
Proof.
  split.
  { intros ->. split; cbn; intros ??; by rewrite lookup_empty. }
  intros Hwf. split_and!.
  - intros b Ha Hnew. apply (simulates_eq _ _ _ _ _ (add_block_simulates keccak256 b)), add_block_Ok in Ha.
    rewrite Ha. by apply wf_store_add_block.
  - intros hdr Hc Hh. apply (simulates_eq _ _ _ _ _ (lawful_set_canonical_block _ _)) in Hc.
    injection Hc as <-. by eapply wf_store_set_canonical.
  - intros h i r Hc. apply (simulates_eq _ _ _ _ _ (lawful_add_receipt _ _ _)) in Hc.
    injection Hc as <-. by apply (wf_store_tables _ (contents s)).
  - intros h tx Hc. apply (simulates_eq _ _ _ _ _ (lawful_add_transaction_to_pool _ _)) in Hc.
    injection Hc as <-. by apply (wf_store_tables _ (contents s)).
  - intros id b Hc. apply (simulates_eq _ _ _ _ _ (lawful_add_payload _ _)) in Hc.
    injection Hc as <-. by apply (wf_store_tables _ (contents s)).
  - intros n hdr Hg. apply (simulates_eq _ _ _ _ _ (lawful_get_block_header n)) in Hg.
    unfold InMemory.get_block_header, InMemory.read, InMemory.by_number in Hg.
    destruct (InMemory.canonical_hashes (contents s) !! n) as [h|] eqn:Hc; [|done].
    destruct (wf_canonical _ _ Hwf n h Hc) as (hdr' & Hh & Hn). rewrite Hh in Hg. injection Hg as _ <-.
    destruct (wf_hash _ _ Hwf h hdr' Hh) as (-> & _). done.
Qed.

(** ** Witness *)
Definition sample_block : Block.t := Block.mk sample_child sample_body.
Lemma stored_block_found_witness :
  returns (get_block_header 42)
    (set_canonical_block 42 (BlockHeader.compute_block_hash toy_hash sample_child)
      (Store.add_block toy_hash sample_block InMemory.new).1).1 (Some sample_child).
Proof.
  apply (stored_block_found InMemory.StoreInner InMemory.engine in_memory_lawful toy_hash sample_block
    InMemory.new (Store.add_block toy_hash sample_block InMemory.new).1); reflexivity.
Defined.
