(* ===== verification/StateTries.v ===== *)
(** * The state of the accounts in the store

    Model of the part of [crates/storage] that works on tries: the engine's
    [state_trie], [new_state_trie] and [open_storage_trie] ([engines/in_memory.rs]), and
    the operations of the [Store] facade ([storage.rs]) that read and write accounts.

    The nodes of the tries live in maps that the engine shares with every open trie (an
    [Arc<Mutex<HashMap>>]): one for the state tries of all blocks, one for the storage
    tries of each address.  An open trie is its root, its cache and the map it shares; an
    operation on it works on the nodes that the map has at that time. *)

From S2P Require Import Prelude Rlp RlpLaws U256 Exponential Vm Codec Effects.
From S2P Require Import Nibble TrieNode Trie CoreTypes CoreLaws Consensus Genesis Store.

Abbreviation NodeMap := (gmap (list Z) (list Z)).

(** ** The nodes an engine keeps *)
Inductive TrieHandle := StateNodes | StorageNodes (address : list Z).
#[export] Instance TrieHandle_eq_dec : EqDecision TrieHandle.
Proof. solve_decision. Defined.

Class TrieEngine (S : Type) := {
  trie_nodes : TrieHandle → S → NodeMap;
  set_trie_nodes : TrieHandle → NodeMap → S → S
}.
(** The maps are separate, and the rest of the store does not see them. *)
Class LawfulTrieEngine (S : Type) `{LawfulEngine S} `{TrieEngine S} := {
  nodes_set h d (s : S) : trie_nodes h (set_trie_nodes h d s) = d;
  nodes_set_ne h h' d (s : S) : h ≠ h' → trie_nodes h' (set_trie_nodes h d s) = trie_nodes h' s;
  contents_set h d (s : S) : contents (set_trie_nodes h d s) = contents s;
  nodes_add_account_code h c1 c2 (s : S) : trie_nodes h (add_account_code c1 c2 s).1 = trie_nodes h s;
  nodes_get_header h b (s : S) : trie_nodes h (get_block_header_by_hash b s).1 = trie_nodes h s
}.

(** A trie that was opened on a store. *)
Record OpenTrie := mkOpen { handle : TrieHandle; open_root : option NodeHash.t; open_cache : gmap NodeHash.t Node.t }.

Section Tries.
Context `{Profile} {S : Type} `{StoreEngine S} `{TrieEngine S}.
Variable keccak256 : list Z → list Z.
Abbreviation M A := (stm S StoreError A).

(** The trie with the nodes that the store has now. *)
Definition at_store (t : OpenTrie) (s : S) : Trie.t NodeMap :=
  Trie.mk (open_root t) (mkState (trie_nodes (handle t) s) (open_cache t)).
Definition trie_op {A} (m : stm (Trie.t NodeMap) Trie.TrieError A) (t : OpenTrie) : M (OpenTrie * A) := λ s,
  let '(t', r) := m (at_store t s) in
  (set_trie_nodes (handle t) (db (Trie.state t')) s,
   a ← map_err (λ _, TrieError) r; Ok (mkOpen (handle t) (Trie.root t') (cache (Trie.state t')), a)).
Definition trie_get (t : OpenTrie) (path : list Z) : M (option (list Z)) := λ s,
  (s, map_err (λ _, TrieError) (Trie.get (at_store t s) path)).
Definition trie_get_proof (t : OpenTrie) (path : list Z) : M (list (list Z)) := λ s,
  (s, map_err (λ _, TrieError) (Trie.get_proof (at_store t s) path)).

Definition open_trie (h : TrieHandle) (root : list Z) : OpenTrie :=
  mkOpen h (Trie.root (Trie.open keccak256 (∅ : NodeMap) root)) ∅.

(** ** engines/in_memory.rs *)
Definition state_trie (block_hash : BlockHash) : M (option OpenTrie) :=
  header ← get_block_header_by_hash block_hash;
  match header with
  | Some h => mret (Some (open_trie StateNodes (BlockHeader.state_root h)))
  | None => mret None
  end.
Definition new_state_trie : M OpenTrie := mret (mkOpen StateNodes None ∅).
(** An address that has no map yet gets an empty one. *)
Definition open_storage_trie (address : Address) (storage_root : list Z) : M OpenTrie := λ s,
  (set_trie_nodes (StorageNodes address) (trie_nodes (StorageNodes address) s) s,
   Ok (open_trie (StorageNodes address) storage_root)).

(** ** storage.rs *)
Definition hash_address (address : Address) : list Z := keccak256 address.
Definition hash_key (key : list Z) : list Z := keccak256 key.
(** [T::decode(&rlp)?]. *)
Definition decode_or {A} (d : list Z → dres (A * list Z)) (rlp : list Z) : M A :=
  lift (map_err RLPDecode (decode d rlp)).

(** [?] on the operations of a trie that is owned by the function. *)
Definition trie_insert (t : OpenTrie) (path value : list Z) : M OpenTrie :=
  '(t, _) ← trie_op (Trie.insert keccak256 path value) t; mret t.
Definition trie_remove (t : OpenTrie) (path : list Z) : M OpenTrie :=
  '(t, _) ← trie_op (Trie.remove keccak256 path) t; mret t.
Definition trie_hash (t : OpenTrie) : M (list Z) :=
  '(_, root) ← trie_op (Trie.hash keccak256) t; mret root.

Definition get_account_info_by_hash (block_hash : BlockHash) (address : Address) : M (option AccountInfo.t) :=
  state_trie ← state_trie block_hash;
  match state_trie with
  | None => mret None
  | Some state_trie =>
    encoded_state ← trie_get state_trie (hash_address address);
    match encoded_state with
    | None => mret None
    | Some encoded_state =>
      account_state ← decode_or AccountState.decode_unfinished encoded_state;
      mret (Some (AccountInfo.mk (AccountState.code_hash account_state) (AccountState.balance account_state)
        (AccountState.nonce account_state)))
    end
  end.
Definition get_account_info (block_number : BlockNumber) (address : Address) : M (option AccountInfo.t) :=
  block_hash ← get_canonical_block_hash block_number;
  match block_hash with
  | Some block_hash => get_account_info_by_hash block_hash address
  | None => mret None
  end.
Definition get_account_state (block_number : BlockNumber) (address : Address) : M (option AccountState.t) :=
  block_hash ← get_canonical_block_hash block_number;
  match block_hash with
  | None => mret None
  | Some block_hash =>
    state_trie ← state_trie block_hash;
    match state_trie with
    | None => mret None
    | Some state_trie =>
      encoded_state ← trie_get state_trie (hash_address address);
      match encoded_state with
      | None => mret None
      | Some encoded_state =>
        account_state ← decode_or AccountState.decode_unfinished encoded_state;
        mret (Some account_state)
      end
    end
  end.
Definition get_code_by_account_address (block_number : BlockNumber) (address : Address) : M (option (list Z)) :=
  block_hash ← get_canonical_block_hash block_number;
  match block_hash with
  | None => mret None
  | Some block_hash =>
    state_trie ← state_trie block_hash;
    match state_trie with
    | None => mret None
    | Some state_trie =>
      encoded_state ← trie_get state_trie (hash_address address);
      match encoded_state with
      | None => mret None
      | Some encoded_state =>
        account_state ← decode_or AccountState.decode_unfinished encoded_state;
        get_account_code (AccountState.code_hash account_state)
      end
    end
  end.
Definition get_nonce_by_account_address (block_number : BlockNumber) (address : Address) : M (option Z) :=
  block_hash ← get_canonical_block_hash block_number;
  match block_hash with
  | None => mret None
  | Some block_hash =>
    state_trie ← state_trie block_hash;
    match state_trie with
    | None => mret None
    | Some state_trie =>
      encoded_state ← trie_get state_trie (hash_address address);
      match encoded_state with
      | None => mret None
      | Some encoded_state =>
        account_state ← decode_or AccountState.decode_unfinished encoded_state;
        mret (Some (AccountState.nonce account_state))
      end
    end
  end.

Definition storage_trie (block_hash : BlockHash) (address : Address) : M (option OpenTrie) :=
  state_trie ← state_trie block_hash;
  match state_trie with
  | None => mret None
  | Some state_trie =>
    encoded_account ← trie_get state_trie (hash_address address);
    match encoded_account with
    | None => mret None
    | Some encoded_account =>
      account ← decode_or AccountState.decode_unfinished encoded_account;
      trie ← open_storage_trie address (AccountState.storage_root account);
      mret (Some trie)
    end
  end.
Definition get_storage_at_hash (block_hash : BlockHash) (address : Address) (storage_key : H256) : M (option Z) :=
  storage_trie ← storage_trie block_hash address;
  match storage_trie with
  | None => mret None
  | Some storage_trie =>
    rlp ← trie_get storage_trie (hash_key storage_key);
    match rlp with
    | None => mret None
    | Some rlp => value ← decode_or U256_decode rlp; mret (Some value)
    end
  end.
Definition get_storage_at (block_number : BlockNumber) (address : Address) (storage_key : H256) : M (option Z) :=
  block_hash ← get_canonical_block_hash block_number;
  match block_hash with
  | Some block_hash => get_storage_at_hash block_hash address storage_key
  | None => mret None
  end.

Definition get_account_proof (block_number : BlockNumber) (address : Address) : M (option (list (list Z))) :=
  block_hash ← get_canonical_block_hash block_number;
  match block_hash with
  | None => mret None
  | Some block_hash =>
    state_trie ← state_trie block_hash;
    match state_trie with
    | None => mret None
    | Some state_trie => proof ← trie_get_proof state_trie (hash_address address); mret (Some proof)
    end
  end.
Definition get_storage_proof (address : Address) (storage_root : H256) (storage_key : H256) : M (list (list Z)) :=
  trie ← open_storage_trie address storage_root;
  trie_get_proof trie (hash_key storage_key).

(** [AccountState::default] (account.rs); the hash of no code is written out. *)
Definition EMPTY_KECCACK_HASH : list Z :=
  [0xc5; 0xd2; 0x46; 0x01; 0x86; 0xf7; 0x23; 0x3c; 0x92; 0x7e; 0x7d; 0xb2; 0xdc; 0xc7; 0x03; 0xc0;
   0xe5; 0x00; 0xb6; 0x53; 0xca; 0x82; 0x27; 0x3b; 0x7b; 0xfa; 0xd8; 0x04; 0x5d; 0x85; 0xa4; 0x70].
Definition AccountState_default : AccountState.t :=
  AccountState.mk 0 0 (Trie.EMPTY_TRIE_HASH keccak256) EMPTY_KECCACK_HASH.

(** [for (storage_key, storage_value) in &update.added_storage]. *)
Fixpoint write_storage (l : list (list Z * Z)) (storage_trie : OpenTrie) : M OpenTrie :=
  match l with
  | [] => mret storage_trie
  | (storage_key, storage_value) :: l =>
    let hashed_key := hash_key storage_key in
    storage_trie ← (if storage_value =? 0 then trie_remove storage_trie hashed_key
                    else trie_insert storage_trie hashed_key (U256_encode storage_value));
    write_storage l storage_trie
  end.
End Tries.

Module AccountUpdate.
Record t := mk {
  address : Address; removed : bool; info : option AccountInfo.t; code : option (list Z);
  added_storage : gmap (list Z) Z
}.
Definition new (address : Address) : t := mk address false None None ∅.
Definition removal (address : Address) : t := mk address true None None ∅.
End AccountUpdate.

Section Updates.
Context `{Profile} {S : Type} `{StoreEngine S} `{TrieEngine S}.
Variable keccak256 : list Z → list Z.
Abbreviation M A := (stm S StoreError A).

(** The new state of an account: its info, with the code stored, and its storage. *)
Definition updated_info (update : AccountUpdate.t) (account_state : AccountState.t) : M AccountState.t :=
  match AccountUpdate.info update with
  | Some info =>
    let account_state := AccountState.mk (AccountInfo.nonce info) (AccountInfo.balance info)
      (AccountState.storage_root account_state) (AccountInfo.code_hash info) in
    _ ← match AccountUpdate.code update with
        | Some code => add_account_code (AccountInfo.code_hash info) code
        | None => mret tt
        end;
    mret account_state
  | None => mret account_state
  end.
Definition updated_storage (update : AccountUpdate.t) (account_state : AccountState.t) : M AccountState.t :=
  if bool_decide (AccountUpdate.added_storage update ≠ ∅) then
    storage_trie ← open_storage_trie keccak256 (AccountUpdate.address update) (AccountState.storage_root account_state);
    storage_trie ← write_storage keccak256 (map_to_list (AccountUpdate.added_storage update)) storage_trie;
    storage_root ← trie_hash keccak256 storage_trie;
    mret (AccountState.mk (AccountState.nonce account_state) (AccountState.balance account_state) storage_root
            (AccountState.code_hash account_state))
  else mret account_state.
Definition apply_update (update : AccountUpdate.t) (state_trie : OpenTrie) : M OpenTrie :=
  let hashed_address := hash_address keccak256 (AccountUpdate.address update) in
  if AccountUpdate.removed update then trie_remove keccak256 state_trie hashed_address
  else
    encoded_state ← trie_get state_trie hashed_address;
    account_state ← match encoded_state with
                    | Some encoded_state => decode_or AccountState.decode_unfinished encoded_state
                    | None => mret (AccountState_default keccak256)
                    end;
    account_state ← updated_info update account_state;
    account_state ← updated_storage update account_state;
    trie_insert keccak256 state_trie hashed_address (AccountState.encode account_state).
Fixpoint apply_updates (account_updates : list AccountUpdate.t) (state_trie : OpenTrie) : M OpenTrie :=
  match account_updates with
  | [] => mret state_trie
  | update :: account_updates =>
    state_trie ← apply_update update state_trie;
    apply_updates account_updates state_trie
  end.
Definition apply_account_updates (block_hash : BlockHash) (account_updates : list AccountUpdate.t)
    : M (option (list Z)) :=
  state_trie ← state_trie keccak256 block_hash;
  match state_trie with
  | None => mret None
  | Some state_trie =>
    state_trie ← apply_updates account_updates state_trie;
    root ← trie_hash keccak256 state_trie;
    mret (Some root)
  end.

(** The storage of a genesis account; zero values are left out. *)
Fixpoint write_genesis_storage (l : list (list Z * Z)) (storage_trie : OpenTrie) : M OpenTrie :=
  match l with
  | [] => mret storage_trie
  | (storage_key, storage_value) :: l =>
    storage_trie ← (if negb (storage_value =? 0)
                    then trie_insert keccak256 storage_trie (hash_key keccak256 storage_key) (U256_encode storage_value)
                    else mret storage_trie);
    write_genesis_storage l storage_trie
  end.
Fixpoint write_genesis_accounts (l : list (list Z * GenesisAccount.t)) (genesis_state_trie : OpenTrie) : M OpenTrie :=
  match l with
  | [] => mret genesis_state_trie
  | (address, account) :: l =>
    let code_hash := code_hash keccak256 (GenesisAccount.code account) in
    _ ← add_account_code code_hash (GenesisAccount.code account);
    storage_trie ← open_storage_trie keccak256 address (Trie.EMPTY_TRIE_HASH keccak256);
    storage_trie ← write_genesis_storage (map_to_list (GenesisAccount.storage account)) storage_trie;
    storage_root ← trie_hash keccak256 storage_trie;
    let account_state := AccountState.mk (GenesisAccount.nonce account) (GenesisAccount.balance account) storage_root code_hash in
    genesis_state_trie ← trie_insert keccak256 genesis_state_trie (hash_address keccak256 address) (AccountState.encode account_state);
    write_genesis_accounts l genesis_state_trie
  end.
Definition setup_genesis_state_trie (genesis_accounts : gmap (list Z) GenesisAccount.t) : M (list Z) :=
  genesis_state_trie ← new_state_trie;
  genesis_state_trie ← write_genesis_accounts (map_to_list genesis_accounts) genesis_state_trie;
  trie_hash keccak256 genesis_state_trie.
End Updates.

(** ** The in-memory engine with its nodes *)
Module InMemoryTries.
Record Store := mk { inner : InMemory.StoreInner; state_trie_nodes : NodeMap; storage_trie_nodes : gmap (list Z) NodeMap }.
Definition new : Store := mk InMemory.new ∅ ∅.

Definition on_inner {A} (m : stm InMemory.StoreInner StoreError A) : stm Store StoreError A := λ s,
  let '(i, r) := m (inner s) in (mk i (state_trie_nodes s) (storage_trie_nodes s), r).
#[global] Instance engine : StoreEngine Store := {|
  Store.add_block_header a b := on_inner (InMemory.add_block_header a b);
  Store.get_block_header a := on_inner (InMemory.get_block_header a);
  Store.add_block_body a b := on_inner (InMemory.add_block_body a b);
  Store.get_block_body a := on_inner (InMemory.get_block_body a);
  Store.get_block_body_by_hash a := on_inner (InMemory.get_block_body_by_hash a);
  Store.get_block_header_by_hash a := on_inner (InMemory.get_block_header_by_hash a);
  Store.add_block_number a b := on_inner (InMemory.add_block_number a b);
  Store.get_block_number a := on_inner (InMemory.get_block_number a);
  Store.add_block_total_difficulty a b := on_inner (InMemory.add_block_total_difficulty a b);
  Store.get_block_total_difficulty a := on_inner (InMemory.get_block_total_difficulty a);
  Store.add_transaction_location a b c d := on_inner (InMemory.add_transaction_location a b c d);
  Store.get_transaction_location a := on_inner (InMemory.get_transaction_location a);
  Store.add_transaction_to_pool a b := on_inner (InMemory.add_transaction_to_pool a b);
  Store.get_transaction_from_pool a := on_inner (InMemory.get_transaction_from_pool a);
  Store.add_receipt a b c := on_inner (InMemory.add_receipt a b c);
  Store.get_receipt a b := on_inner (InMemory.get_receipt a b);
  Store.add_account_code a b := on_inner (InMemory.add_account_code a b);
  Store.get_account_code a := on_inner (InMemory.get_account_code a);
  Store.get_canonical_block_hash a := on_inner (InMemory.get_canonical_block_hash a);
  Store.set_chain_config a := on_inner (InMemory.set_chain_config a);
  Store.get_chain_config := on_inner InMemory.get_chain_config;
  Store.update_earliest_block_number a := on_inner (InMemory.update_earliest_block_number a);
  Store.get_earliest_block_number := on_inner InMemory.get_earliest_block_number;
  Store.update_finalized_block_number a := on_inner (InMemory.update_finalized_block_number a);
  Store.get_finalized_block_number := on_inner InMemory.get_finalized_block_number;
  Store.update_safe_block_number a := on_inner (InMemory.update_safe_block_number a);
  Store.get_safe_block_number := on_inner InMemory.get_safe_block_number;
  Store.update_latest_block_number a := on_inner (InMemory.update_latest_block_number a);
  Store.get_latest_block_number := on_inner InMemory.get_latest_block_number;
  Store.update_latest_total_difficulty a := on_inner (InMemory.update_latest_total_difficulty a);
  Store.get_latest_total_difficulty := on_inner InMemory.get_latest_total_difficulty;
  Store.update_pending_block_number a := on_inner (InMemory.update_pending_block_number a);
  Store.get_pending_block_number := on_inner InMemory.get_pending_block_number;
  Store.set_canonical_block a b := on_inner (InMemory.set_canonical_block a b);
  Store.add_payload a b := on_inner (InMemory.add_payload a b);
  Store.get_payload a := on_inner (InMemory.get_payload a)
|}.
#[global] Instance tries : TrieEngine Store := {|
  trie_nodes h s :=
    match h with
    | StateNodes => state_trie_nodes s
    | StorageNodes address => default ∅ (storage_trie_nodes s !! address)
    end;
  set_trie_nodes h d s :=
    match h with
    | StateNodes => mk (inner s) d (storage_trie_nodes s)
    | StorageNodes address => mk (inner s) (state_trie_nodes s) (<[address := d]> (storage_trie_nodes s))
    end
|}.

Lemma on_inner_simulates {A} (m : stm InMemory.StoreInner StoreError A) : simulates inner (on_inner m) m.
Proof. intros s. unfold on_inner. by destruct (m (inner s)). Qed.
#[global] Instance lawful : LawfulEngine Store.
Proof. refine {| contents := inner |}; intros; apply on_inner_simulates. Defined.
#[global] Instance lawful_tries : LawfulTrieEngine Store.
Proof.
  split.
  - intros [|a] d s; cbn; [done|]. by rewrite lookup_insert_eq.
  - intros [|a] [|b] d s Hne; cbn; [done..|]. by rewrite lookup_insert_ne by congruence.
  - by intros [|a] d s.
  - by intros h c1 c2 s.
  - by intros h b s.
Qed.
End InMemoryTries.
