(* ===== verification/StateLaws.v ===== *)
(** * The accounts that a store holds

    The tries of a store represent the state of the accounts: a map from the hash of an
    address to the account, its storage a map from the hash of a slot.  Updates of
    accounts succeed, give the root of the yellow paper for the updated state and leave
    the states of the other blocks readable. *)

From S2P Require Import Prelude Rlp RlpLaws U256 Exponential Vm Codec Effects Nibble NibbleLaws.
From S2P Require Import TrieNode TrieCodec Trie TrieSpec TrieEncoding TrieRoot TrieLaws TrieRefine.
From S2P Require Import TrieLeaves TrieCommit TrieRemove TrieDelete TrieRooted.
From S2P Require Import CoreTypes CoreLaws Consensus Genesis Store StateTries.

Lemma stm_bind_assoc {S E A B C} (m : stm S E A) (f : A → stm S E B) (g : B → stm S E C) s :
  (m ≫= λ a, f a ≫= g) s = ((m ≫= f) ≫= g) s.
Proof. unfold mbind, stm_mbind. by destruct (m s) as [s1 [a| | |]]. Qed.

(** ** The abstract state *)
Record account := mkAccount { acc_info : AccountInfo.t; acc_storage : gmap (list Z) Z }.
Abbreviation world := (gmap (list Z) account).

Section World.
Variable keccak256 : list Z → list Z.

Definition storage_entries (st : gmap (list Z) Z) : pmap := U256_encode <$> st.
Definition state_of (a : account) : AccountState.t :=
  AccountState.mk (AccountInfo.nonce (acc_info a)) (AccountInfo.balance (acc_info a))
    (map_root keccak256 (paths (storage_entries (acc_storage a)))) (AccountInfo.code_hash (acc_info a)).
Definition state_entries (W : world) : pmap := (λ a, AccountState.encode (state_of a)) <$> W.
Definition world_root (W : world) : list Z := map_root keccak256 (paths (state_entries W)).

(** An update of the slots of an account; zero stands for no entry. *)
Definition write_slot (st : gmap (list Z) Z) (kv : list Z * Z) : gmap (list Z) Z :=
  if kv.2 =? 0 then delete (keccak256 kv.1) st else <[keccak256 kv.1 := kv.2]> st.
Definition write_slots (st : gmap (list Z) Z) (l : list (list Z * Z)) : gmap (list Z) Z := foldl write_slot st l.
Definition new_account : account := mkAccount (AccountInfo.mk EMPTY_KECCACK_HASH 0 0) ∅.
Definition account_at (W : world) (address : list Z) : account := default new_account (W !! keccak256 address).
Definition updated_account (u : AccountUpdate.t) (a : account) : account :=
  mkAccount (default (acc_info a) (AccountUpdate.info u))
    (write_slots (acc_storage a) (map_to_list (AccountUpdate.added_storage u))).
Definition update_world (W : world) (u : AccountUpdate.t) : world :=
  let h := keccak256 (AccountUpdate.address u) in
  if AccountUpdate.removed u then delete h W
  else <[h := updated_account u (account_at W (AccountUpdate.address u))]> W.
Definition update_worlds (W : world) (us : list AccountUpdate.t) : world := foldl update_world W us.

(** The operations on the tries that this takes. *)
Definition slot_op (kv : list Z * Z) : op :=
  if kv.2 =? 0 then Remove (keccak256 kv.1) else Insert (keccak256 kv.1) (U256_encode kv.2).
Definition slot_ops (u : AccountUpdate.t) : list op := map slot_op (map_to_list (AccountUpdate.added_storage u)).

Lemma slot_op_map st kv : op_map (slot_op kv) (storage_entries st) = storage_entries (write_slot st kv).
Proof.
  unfold slot_op, write_slot, storage_entries. destruct (kv.2 =? 0); cbn; [by rewrite fmap_delete|by rewrite fmap_insert].
Qed.
Lemma slots_final st l : final (storage_entries st) (map slot_op l) = storage_entries (write_slots st l).
Proof.
  revert st. induction l as [|kv l IH]; intros st; [done|]. cbn. by rewrite slot_op_map, IH.
Qed.
End World.

(** ** Well-formed states *)
Definition wf_storage (st : gmap (list Z) Z) : Prop := map_Forall (λ k v, is_array 32 k ∧ 0 < v < 2 ^ 256) st.
Definition wf_account (a : account) : Prop := wf_account_info (acc_info a) ∧ wf_storage (acc_storage a).
Definition wf_world (W : world) : Prop := map_Forall (λ k a, is_array 32 k ∧ wf_account a) W.

Lemma minimal_encode `{Profile} x t : minimal_be x t → zlen t <= 32 → bytes_ok (bytes_encode t) ∧ zlen (bytes_encode t) <= 41.
Proof.
  intros Hm Hz. change (bytes_encode t) with (Bytes_encode t). destruct (zlen_Bytes_encode t) as [_ Hle]; [unfold isize_max; lia|].
  split; [apply bytes_Bytes_encode; [apply Hm|unfold isize_max; lia]|lia].
Qed.
Lemma U256_bytes `{Profile} v : is_uint 256 v → bytes_ok (U256_encode v) ∧ zlen (U256_encode v) <= 41.
Proof. intros Hv. destruct (U256_encode_minimal v Hv) as (t & -> & Hm & Hz). by eapply minimal_encode. Qed.
Lemma u64_bytes `{Profile} v : is_uint 64 v → bytes_ok (u64_encode v) ∧ zlen (u64_encode v) <= 41.
Proof.
  intros Hv. destruct (uint_encode_bytes 8 v) as (t & Ht & Hm & Hz); [done|by unfold is_uint in Hv|].
  unfold u64_encode. rewrite Ht. eapply minimal_encode; [done|lia].
Qed.
Lemma H256_bytes `{Profile} x : is_array 32 x → bytes_ok (H256_encode x) ∧ zlen (H256_encode x) = 33.
Proof.
  intros Hx. change (H256_encode x) with (Bytes_encode x). split; [|by apply Bytes_encode_hash].
  destruct Hx as [Hb Hl]. apply bytes_Bytes_encode; [done|]. by rewrite Hl.
Qed.
Lemma account_state_bytes `{Profile} a :
  wf_account_state a → bytes_ok (AccountState.encode a) ∧ zlen (AccountState.encode a) < 200.
Proof.
  intros (Hn & Hb & Hr & Hc). unfold AccountState.encode. encode_fields.
  destruct (u64_bytes _ Hn), (U256_bytes _ Hb), (H256_bytes _ Hr), (H256_bytes _ Hc).
  assert (zlen (concat [u64_encode (AccountState.nonce a); U256_encode (AccountState.balance a);
    H256_encode (AccountState.storage_root a); H256_encode (AccountState.code_hash a)]) <= 150) as Hz
    by (cbn [concat]; zlen_simpl; lia).
  split; [apply bytes_struct_rlp; [by repeat constructor|unfold isize_max; lia]|].
  pose proof (zlen_struct_rlp _ ltac:(etrans; [exact Hz|done])). lia.
Qed.
Lemma U256_entry `{Profile} k v : is_array 32 k → is_uint 256 v → entry_ok 32 (k, U256_encode v).
Proof. intros [Hk Hl] Hv. destruct (U256_bytes v Hv). split_and!; cbn [fst snd]; [done|done|done|lia]. Qed.
Lemma account_entry `{Profile} k a : is_array 32 k → wf_account_state a → entry_ok 32 (k, AccountState.encode a).
Proof. intros [Hk Hl] Ha. destruct (account_state_bytes a Ha). split_and!; cbn [fst snd]; [done|done|done|lia]. Qed.
Lemma paths_keys_ok L b : map_Forall (λ k v, entry_ok L (k, v)) b → keys_ok (2 * L) (paths b).
Proof.
  intros Hb k v Hk. apply lookup_kmap_Some in Hk as (k' & -> & Hk'); [|apply _].
  destruct (Hb _ _ Hk') as (H1 & H2 & H3 & H4). cbn in *. split_and!; [by rewrite zlen_nibs, H2|by apply nibs_nibbles|done..].
Qed.
Lemma storage_keys_ok `{Profile} st : wf_storage st → keys_ok (2 * 32) (paths (storage_entries st)).
Proof.
  intros Hst. apply paths_keys_ok. intros k x. unfold storage_entries. rewrite lookup_fmap. intros (v & Hv & ->)%fmap_Some.
  destruct (Hst _ _ Hv). apply U256_entry; [done|]. unfold is_uint. lia.
Qed.
Lemma state_of_wf keccak256 a :
  (∀ x, is_array 32 (keccak256 x)) → wf_account a → wf_account_state (state_of keccak256 a).
Proof. intros Hk [(? & ? & ?) _]. split_and!; [done|done|apply Hk|done]. Qed.
Lemma state_keys_ok `{Profile} keccak256 W :
  (∀ x, is_array 32 (keccak256 x)) → wf_world W → keys_ok (2 * 32) (paths (state_entries keccak256 W)).
Proof.
  intros Hka HW. apply paths_keys_ok. intros k x. unfold state_entries. rewrite lookup_fmap. intros (a & Ha & ->)%fmap_Some.
  destruct (HW _ _ Ha). apply account_entry; [done|by apply state_of_wf].
Qed.

(** ** Tries that are open on a store *)
Section Opened.
Context `{Profile} {S : Type} `{LawfulTrieEngine S}.
Variable keccak256 : list Z → list Z.
Hypothesis keccak_array : ∀ x, is_array 32 (keccak256 x).
(** What is hashed, without a collision. *)
Variable U : list Z → Prop.
Hypothesis no_collision : collision_free keccak256 U.
Hypothesis U_empty : U (Bytes_encode []).
(** The keys that each map of nodes has seen. *)
Variable keys : TrieHandle → list (list Z).
#[local] Set Default Proof Using "All".

Abbreviation covered b := (covered keccak256 U (paths b)).
Abbreviation M A := (stm S StoreError A).

(** The nodes of a map in a database. *)
Definition kept (d : NodeMap) (b : pmap) : Prop :=
  paths b ≠ ∅ → stored keccak256 32 (on_disk d) (2 * 32) (paths b).
Definition nodes_ok (h : TrieHandle) (s : S) : Prop :=
  db_closed keccak256 U 32 (trie_nodes h s) ∧ origins (.∈ keys h) (on_disk (trie_nodes h s)).
Definition opened (t : OpenTrie) (s : S) (b : pmap) : Prop :=
  holds keccak256 32 (keys (handle t)) (at_store t s) b ∧ nodes_ok (handle t) s.
(** Nothing changes but the caches of the tries. *)
Definition same_store (s s' : S) : Prop := contents s' = contents s ∧ ∀ h, trie_nodes h s' = trie_nodes h s.
#[export] Instance same_store_preorder : PreOrder same_store.
Proof using Type. split; [by split|]. intros a b c [Hc Hn] [Hc' Hn']. split; [congruence|]. intros h. by rewrite Hn'. Qed.

Lemma same_set h s : same_store s (set_trie_nodes h (trie_nodes h s) s).
Proof.
  split; [apply contents_set|]. intros h'. destruct (decide (h = h')) as [<-|Hne]; [apply nodes_set|by apply nodes_set_ne].
Qed.
Lemma same_at t s s' : same_store s s' → at_store t s' = at_store t s.
Proof. intros [_ Hn]. unfold at_store. by rewrite Hn. Qed.
Lemma same_opened t s s' b : same_store s s' → opened t s b → opened t s' b.
Proof. intros Hs. unfold opened, nodes_ok. rewrite (same_at t s s' Hs). destruct Hs as [_ Hn]. by rewrite Hn. Qed.

Lemma trie_op_Ok {A} (m : stm (Trie.t NodeMap) Trie.TrieError A) t s t' a :
  m (at_store t s) = (t', Ok a) →
  trie_op m t s = (set_trie_nodes (handle t) (db (Trie.state t')) s,
                   Ok (mkOpen (handle t) (Trie.root t') (cache (Trie.state t')), a)).
Proof using Type. intros Hm. unfold trie_op. by rewrite Hm. Qed.
(** An operation that leaves the nodes alone. *)
Lemma op_opened {A} (m : stm (Trie.t NodeMap) Trie.TrieError A) t s b t' b' a :
  opened t s b → m (at_store t s) = (t', Ok a) → holds keccak256 32 (keys (handle t)) t' b' →
  db (Trie.state t') = db (Trie.state (at_store t s)) →
  ∃ s' ot, trie_op m t s = (s', Ok (ot, a)) ∧ same_store s s' ∧ handle ot = handle t ∧ opened ot s' b'.
Proof.
  intros [_ Hok] Hm Ht Hdb. do 2 eexists. split; [by apply trie_op_Ok|]. rewrite Hdb. cbn [at_store Trie.state db].
  pose proof (same_set (handle t) s) as Hs. split_and!; [done|done|]. split.
  - destruct t' as [root [d c]]. cbn in Hdb |- *. subst d. unfold at_store. cbn. destruct Hs as [_ Hn]. by rewrite Hn.
  - unfold nodes_ok in *. cbn [handle]. destruct Hs as [_ Hn]. by rewrite Hn.
Qed.
Lemma insert_opened t s b k v :
  opened t s b → covered b → covered (<[k := v]> b) → entry_ok 32 (k, v) → k ∈ keys (handle t) →
  ∃ s' ot, trie_insert keccak256 t k v s = (s', Ok ot) ∧ same_store s s' ∧ handle ot = handle t ∧ opened ot s' (<[k := v]> b).
Proof.
  intros Hop Hc Hc' Ho Hk. pose proof Hop as [Ht _].
  destruct (insert_holds keccak256 32 U (keys (handle t)) (at_store t s) b k v) as (t' & Hrun & Ht' & Hdb); [done..|].
  destruct (op_opened _ t s b t' (<[k := v]> b) tt Hop Hrun Ht' Hdb) as (s' & ot & Hrun' & Hrest).
  exists s', ot. split; [|done]. unfold trie_insert. by rewrite (stm_bind_Ok _ _ _ _ _ Hrun').
Qed.
Lemma remove_opened t s b k :
  opened t s b → covered b → covered (delete k b) → no_lookalikes (keys (handle t)) b → is_array 32 k →
  ∃ s' ot, trie_remove keccak256 t k s = (s', Ok ot) ∧ same_store s s' ∧ handle ot = handle t ∧ opened ot s' (delete k b).
Proof.
  intros Hop Hc Hc' Hn [Hk Hl]. pose proof Hop as [Ht _].
  destruct (remove_holds keccak256 32 U (keys (handle t)) (at_store t s) b k) as (t' & Hrun & Ht' & Hdb); [done..|].
  destruct (op_opened _ t s b t' (delete k b) (b !! k) Hop Hrun Ht' Hdb) as (s' & ot & Hrun' & Hrest).
  exists s', ot. split; [|done]. unfold trie_remove. by rewrite (stm_bind_Ok _ _ _ _ _ Hrun').
Qed.
Lemma get_opened t s b k : opened t s b → is_array 32 k → trie_get t k s = (s, Ok (b !! k)).
Proof.
  intros [[Ht _] _] [Hk Hl]. unfold trie_get. by rewrite (get_represents (D:=NodeMap) keccak256 keccak_array 32 ltac:(done) U (at_store t s) b).
Qed.

(** The nodes of the maps in a store stay there. *)
Definition extends (s s' : S) : Prop :=
  ∀ h, (nodes_ok h s → nodes_ok h s') ∧ ∀ b, covered b → kept (trie_nodes h s) b → kept (trie_nodes h s') b.
#[export] Instance extends_preorder : PreOrder extends.
Proof using Type.
  split; [by intros s h|]. intros a b c Hab Hbc h. destruct (Hab h) as [H1' H2'], (Hbc h) as [H3' H4']. split; auto.
Qed.
Lemma same_extends s s' : same_store s s' → extends s s'.
Proof. intros [_ Hn] h. unfold nodes_ok. by rewrite Hn. Qed.

Lemma hash_opened t s b :
  opened t s b → covered b →
  ∃ s', trie_hash keccak256 t s = (s', Ok (map_root keccak256 (paths b))) ∧ contents s' = contents s ∧ extends s s' ∧
    (∀ h, h ≠ handle t → trie_nodes h s' = trie_nodes h s) ∧ nodes_ok (handle t) s' ∧ kept (trie_nodes (handle t) s') b.
Proof.
  intros [[Ht Ho] [Hcl Hor]] Hc.
  destruct (hash_ok keccak256 keccak_array U no_collision 32 ltac:(done) (at_store t s) (paths b))
    as (t' & Hrun & Ht' & Hcl' & Hor' & Hcache & Hkeep); [done..|].
  set (s' := set_trie_nodes (handle t) (db (Trie.state t')) s).
  assert (trie_nodes (handle t) s' = db (Trie.state t')) as Hn by apply nodes_set.
  assert (∀ h, h ≠ handle t → trie_nodes h s' = trie_nodes h s) as Hne by (intros; by apply nodes_set_ne).
  assert (nodes_ok (handle t) s') as Hok.
  { split; rewrite Hn; [done|]. destruct (Hor' _ Ho) as [_ Hd]. by split. }
  exists s'. split_and!; [|apply contents_set| |done|done|].
  - unfold trie_hash. by rewrite (stm_bind_Ok _ _ _ _ _ (trie_op_Ok _ _ _ _ _ Hrun)).
  - intros h. destruct (decide (h = handle t)) as [->|Hh].
    + split; [done|]. intros b' Hc' Hk Hb'. rewrite Hn. apply Hkeep; [done|by apply Hk].
    + unfold nodes_ok. by rewrite Hne.
  - rewrite Hn. intros Hb. destruct Ht' as [[? _]|[Hroot Hst]]; [done|]. destruct Hcache as [Hnone|Hcache]; [congruence|].
    destruct (Trie.state t') as [d c]. cbn in Hcache |- *. by subst c.
Qed.
Lemma open_opened h s b :
  nodes_ok h s → kept (trie_nodes h s) b → covered b → keys_ok (2 * 32) (paths b) →
  opened (open_trie keccak256 h (map_root keccak256 (paths b))) s b.
Proof.
  intros [Hcl Hor] Hk Hc Hkeys. split; [|done]. split; [|by destruct Hor; split].
  apply (open_ok keccak256 keccak_array U no_collision 32 ltac:(done)); [done|done|by apply long_keys_rooted|done].
Qed.
Lemma open_storage_opened a s b :
  nodes_ok (StorageNodes a) s → kept (trie_nodes (StorageNodes a) s) b → covered b → keys_ok (2 * 32) (paths b) →
  ∃ s', open_storage_trie keccak256 a (map_root keccak256 (paths b)) s =
      (s', Ok (open_trie keccak256 (StorageNodes a) (map_root keccak256 (paths b)))) ∧ same_store s s' ∧
    opened (open_trie keccak256 (StorageNodes a) (map_root keccak256 (paths b))) s' b.
Proof.
  intros Hok Hk Hc Hkeys. pose proof (same_set (StorageNodes a) s) as Hs. eexists. split_and!; [done|done|].
  eapply same_opened; [done|]. by apply open_opened.
Qed.

(** ** Writing the storage of an account *)
Lemma write_storage_opened l t s st :
  opened t s (storage_entries st) → wf_storage st →
  Forall (λ kv, is_uint 256 kv.2 ∧ keccak256 kv.1 ∈ keys (handle t)) l →
  Forall (λ b, covered b ∧ no_lookalikes (keys (handle t)) b) (history (storage_entries st) (map (slot_op keccak256) l)) →
  ∃ s' ot, write_storage keccak256 l t s = (s', Ok ot) ∧ same_store s s' ∧ handle ot = handle t ∧
    opened ot s' (storage_entries (write_slots keccak256 st l)) ∧ wf_storage (write_slots keccak256 st l) ∧
    covered (storage_entries (write_slots keccak256 st l)).
Proof.
  revert t s st. induction l as [|[k v] l IH]; intros t s st Hop Hwf Hl Hh.
  { exists s, t. cbn in Hh. apply Forall_cons in Hh as [[? _] _]. by split_and!. }
  cbn [map history] in Hh. apply Forall_cons in Hh as [[Hc Hn] Hh]. apply Forall_cons in Hl as [[Hv Hk] Hl]. cbn in Hv, Hk.
  rewrite slot_op_map in Hh.
  assert (covered (storage_entries (write_slot keccak256 st (k, v)))) as Hc'.
  { destruct l; cbn [map history] in Hh; by apply Forall_cons in Hh as [[? _] _]. }
  assert (∃ s1 t1, (if v =? 0 then trie_remove keccak256 t (hash_key keccak256 k)
      else trie_insert keccak256 t (hash_key keccak256 k) (U256_encode v)) s = (s1, Ok t1) ∧ same_store s s1 ∧
    handle t1 = handle t ∧ opened t1 s1 (storage_entries (write_slot keccak256 st (k, v))) ∧ wf_storage (write_slot keccak256 st (k, v)))
    as (s1 & t1 & Hrun & Hs1 & Hh1 & Hop1 & Hwf1).
  { unfold write_slot, hash_key, storage_entries in *. cbn [fst snd] in *. destruct (v =? 0) eqn:E; bool_prop.
    - rewrite fmap_delete in *. destruct (remove_opened t s (U256_encode <$> st) (keccak256 k)) as (s1 & t1 & ? & ? & ? & ?); [done..|].
      exists s1, t1. split_and!; [done..|]. by apply map_Forall_delete.
    - rewrite fmap_insert in *. destruct (insert_opened t s (U256_encode <$> st) (keccak256 k) (U256_encode v)) as (s1 & t1 & ? & ? & ? & ?);
        [done..|by apply U256_entry|done|].
      exists s1, t1. split_and!; [done..|]. apply map_Forall_insert_2; [|done]. split; [done|]. unfold is_uint in Hv. lia. }
  rewrite <-Hh1 in Hl, Hh. destruct (IH t1 s1 _ Hop1 Hwf1 Hl Hh) as (s2 & t2 & Hrun2 & Hs2 & Hh2 & Hrest).
  exists s2, t2. split_and!; [|by etrans|congruence|apply Hrest..].
  cbn [write_storage]. by rewrite (stm_bind_Ok _ _ _ _ _ Hrun).
Qed.

(** ** Updates *)
Abbreviation address := AccountUpdate.address.
(** What the theorems ask of an update of a state. *)
Record update_ok (W : world) (u : AccountUpdate.t) : Prop := {
  upd_address : U (address u);
  upd_key : keccak256 (address u) ∈ keys StateNodes;
  upd_info : ∀ i, AccountUpdate.info u = Some i → wf_account_info i;
  upd_slots : Forall (λ kv, is_uint 256 kv.2 ∧ keccak256 kv.1 ∈ keys (StorageNodes (address u)))
    (map_to_list (AccountUpdate.added_storage u));
  upd_covered : covered (state_entries keccak256 (update_world keccak256 W u));
  upd_lookalikes : no_lookalikes (keys StateNodes) (state_entries keccak256 W);
  upd_storage : AccountUpdate.removed u = false →
    Forall (λ b, covered b ∧ no_lookalikes (keys (StorageNodes (address u))) b)
      (history (storage_entries (acc_storage (account_at keccak256 W (address u)))) (slot_ops keccak256 u))
}.
Fixpoint updates_ok (W : world) (us : list AccountUpdate.t) : Prop :=
  match us with
  | [] => True
  | u :: us => update_ok W u ∧ updates_ok (update_world keccak256 W u) us
  end.
(** The code that an update adds. *)
Definition add_code (codes : gmap (list Z) (list Z)) (u : AccountUpdate.t) : gmap (list Z) (list Z) :=
  match AccountUpdate.removed u, AccountUpdate.info u, AccountUpdate.code u with
  | false, Some info, Some code => <[AccountInfo.code_hash info := code]> codes
  | _, _, _ => codes
  end.
Definition with_codes (us : list AccountUpdate.t) (c : InMemory.StoreInner) : InMemory.StoreInner :=
  InMemory.put_account_codes (foldl add_code (InMemory.account_codes c) us) c.

(** The storage of the accounts is in the store. *)
Definition has_storage (s : S) (W : world) : Prop := ∀ a acc,
  U a → W !! keccak256 a = Some acc →
  kept (trie_nodes (StorageNodes a) s) (storage_entries (acc_storage acc)) ∧ covered (storage_entries (acc_storage acc)).
(** The open state trie stands for a state. *)
Record working (t : OpenTrie) (s : S) (W : world) : Prop := {
  work_handle : handle t = StateNodes;
  work_opened : opened t s (state_entries keccak256 W);
  work_wf : wf_world W;
  work_covered : covered (state_entries keccak256 W);
  work_storage : has_storage s W;
  work_nodes : ∀ h, nodes_ok h s
}.

Lemma extends_storage s s' W : extends s s' → has_storage s W → has_storage s' W.
Proof. intros He Hs a acc Ha HW. destruct (Hs a acc Ha HW) as [Hk Hc]. split; [|done]. by apply He. Qed.
Lemma account_code_ok h c s :
  ∃ s', add_account_code h c s = (s', Ok tt) ∧ (∀ h, trie_nodes h s' = trie_nodes h s) ∧
    contents s' = InMemory.put_account_codes (<[h := c]> (InMemory.account_codes (contents s))) (contents s).
Proof.
  pose proof (lawful_add_account_code h c s) as Hl. pose proof (λ x, nodes_add_account_code x h c s) as Hn.
  destruct (add_account_code h c s) as [s' r]. cbn in Hl, Hn. injection Hl as Hc <-. by exists s'.
Qed.
Lemma updated_info_ok u acc s :
  AccountUpdate.removed u = false →
  ∃ s', updated_info u (state_of keccak256 acc) s =
      (s', Ok (state_of keccak256 (mkAccount (default (acc_info acc) (AccountUpdate.info u)) (acc_storage acc)))) ∧
    (∀ h, trie_nodes h s' = trie_nodes h s) ∧ contents s' = with_codes [u] (contents s).
Proof.
  intros Hr. unfold updated_info, with_codes, add_code. cbn [foldl]. rewrite Hr.
  assert (contents s = InMemory.put_account_codes (InMemory.account_codes (contents s)) (contents s)) as Hid by (by destruct (contents s)).
  destruct (AccountUpdate.info u) as [info|]; cbn [default]; [|exists s; split_and!; [by destruct acc|done..]].
  destruct (AccountUpdate.code u) as [code|]; [|by exists s].
  destruct (account_code_ok (AccountInfo.code_hash info) code s) as (s' & Hrun & Hn & Hc).
  exists s'. split_and!; [|done..]. by rewrite (stm_bind_Ok _ _ _ _ _ Hrun).
Qed.
Lemma updated_storage_ok u acc s :
  let l := map_to_list (AccountUpdate.added_storage u) in let h := StorageNodes (address u) in
  let st := write_slots keccak256 (acc_storage acc) l in
  (∀ h, nodes_ok h s) → kept (trie_nodes h s) (storage_entries (acc_storage acc)) → covered (storage_entries (acc_storage acc)) →
  wf_storage (acc_storage acc) → Forall (λ kv, is_uint 256 kv.2 ∧ keccak256 kv.1 ∈ keys h) l →
  Forall (λ b, covered b ∧ no_lookalikes (keys h) b) (history (storage_entries (acc_storage acc)) (slot_ops keccak256 u)) →
  ∃ s', updated_storage keccak256 u (state_of keccak256 acc) s = (s', Ok (state_of keccak256 (mkAccount (acc_info acc) st))) ∧
    contents s' = contents s ∧ extends s s' ∧ (∀ h', h' ≠ h → trie_nodes h' s' = trie_nodes h' s) ∧
    kept (trie_nodes h s') (storage_entries st) ∧ covered (storage_entries st) ∧ wf_storage st.
Proof.
  intros l h st Hok Hk Hc Hwf Hl Hh. unfold updated_storage. fold l. case_bool_decide as Ha.
  2: { exists s. subst st l. rewrite Ha, map_to_list_empty. cbn. split_and!; [by destruct acc|done..]. }
  destruct (open_storage_opened (address u) s (storage_entries (acc_storage acc))) as (s1 & Hrun1 & Hs1 & Hop1);
    [apply Hok|done|done|by apply storage_keys_ok|].
  destruct (write_storage_opened l _ s1 (acc_storage acc) Hop1 Hwf Hl Hh) as (s2 & t2 & Hrun2 & Hs2 & Hh2 & Hop2 & Hwf2 & Hc2).
  destruct (hash_opened t2 s2 _ Hop2 Hc2) as (s3 & Hrun3 & Hcon3 & He3 & Hne3 & Hok3 & Hk3).
  cbn [handle open_trie] in Hh2. rewrite Hh2 in *.
  assert (same_store s s2) as Hs by (by etrans).
  exists s3. split_and!; [|destruct Hs; congruence|etrans; [by apply same_extends|done]| |done|done|done].
  - cbn [state_of AccountState.storage_root]. rewrite (stm_bind_Ok _ _ _ _ _ Hrun1), (stm_bind_Ok _ _ _ _ _ Hrun2),
      (stm_bind_Ok _ _ _ _ _ Hrun3). done.
  - intros h' Hne. rewrite Hne3 by done. by destruct Hs.
Qed.

Lemma storage_entries_empty : storage_entries ∅ = ∅.
Proof using Type. apply fmap_empty. Qed.
Lemma state_of_new : state_of keccak256 new_account = AccountState_default keccak256.
Proof using Type.
  unfold state_of, AccountState_default. change (acc_storage new_account) with (∅ : gmap (list Z) Z).
  rewrite storage_entries_empty. unfold map_root. by rewrite decide_True by apply paths_empty.
Qed.
Lemma kept_empty d : kept d ∅.
Proof using Type. intros Hne. destruct Hne. apply paths_empty. Qed.
Lemma covered_empty : covered ∅.
Proof using Type. intros p Hp. by rewrite paths_empty, sub_empty in Hp. Qed.
Lemma opened_nodes t s s' b : trie_nodes (handle t) s' = trie_nodes (handle t) s → opened t s b → opened t s' b.
Proof using Type. intros Hn [Hh Hok]. unfold opened, nodes_ok, at_store in *. by rewrite Hn. Qed.

(** The account that an update starts from. *)
Lemma account_at_ok t s W a :
  working t s W → U a →
  wf_account (account_at keccak256 W a) ∧
  kept (trie_nodes (StorageNodes a) s) (storage_entries (acc_storage (account_at keccak256 W a))) ∧
  covered (storage_entries (acc_storage (account_at keccak256 W a))) ∧
  (enc ← trie_get t (keccak256 a);
   match enc with
   | Some enc => decode_or AccountState.decode_unfinished enc
   | None => mret (AccountState_default keccak256)
   end) s = (s, Ok (state_of keccak256 (account_at keccak256 W a))).
Proof.
  intros Hw Ha. unfold account_at. pose proof (get_opened t s _ (keccak256 a) (work_opened _ _ _ Hw) (keccak_array a)) as Hget.
  rewrite (stm_bind_Ok _ _ _ _ _ Hget). unfold state_entries. rewrite lookup_fmap. destruct (W !! keccak256 a) as [acc|] eqn:E; cbn [fmap option_fmap option_map default].
  - destruct (work_wf _ _ _ Hw _ _ E) as [_ Hwf]. destruct (work_storage _ _ _ Hw a acc Ha E) as [Hk Hc].
    split_and!; [done..|]. unfold decode_or, lift. f_equal.
    rewrite (codec_decode AccountState.encode AccountState.decode_unfinished wf_account_state); [done|by apply state_of_wf|].
    destruct (account_state_bytes (state_of keccak256 acc)) as [_ Hz]; [by apply state_of_wf|]. unfold isize_max. lia.
  - split_and!; [| |unfold storage_entries; cbn; rewrite fmap_empty; apply covered_empty|by rewrite state_of_new].
    + split; [|apply map_Forall_empty]. split_and!; [|unfold is_uint; cbn; lia..]. split; [|done]. by repeat constructor.
    + unfold storage_entries. cbn. rewrite fmap_empty. apply kept_empty.
Qed.
Lemma apply_update_ok u t s W :
  working t s W → update_ok W u →
  ∃ s' t', apply_update keccak256 u t s = (s', Ok t') ∧ working t' s' (update_world keccak256 W u) ∧ extends s s' ∧
    contents s' = with_codes [u] (contents s).
Proof.
  intros Hw [Ha Hk Hi Hs Hc Hn Hh]. pose proof Hw as [Hhan Hop Hwf Hcov Hst Hok]. unfold apply_update, hash_address.
  unfold update_world in *. set (h := keccak256 (address u)) in *. rewrite <-Hhan in Hk, Hn.
  destruct (AccountUpdate.removed u) eqn:Er.
  - unfold state_entries in Hc. rewrite fmap_delete in Hc. fold (state_entries keccak256 W) in Hc.
    destruct (remove_opened t s _ h Hop Hcov Hc Hn (keccak_array _)) as (s' & t' & Hrun & Hsame & Hh' & Hop').
    exists s', t'. split_and!; [done| |by apply same_extends|].
    + split; [congruence| | | | |].
      * unfold state_entries. by rewrite fmap_delete.
      * by apply map_Forall_delete.
      * unfold state_entries. by rewrite fmap_delete.
      * intros a acc HU HW. apply lookup_delete_Some in HW as [_ HW]. eapply extends_storage; [by apply same_extends|done|done|done].
      * intros h'. apply (same_extends _ _ Hsame), Hok.
    + destruct Hsame as [-> _]. unfold with_codes, add_code. cbn. rewrite Er. by destruct (contents s).
  - specialize (Hh eq_refl). destruct (account_at_ok t s W (address u) Hw Ha) as (Hwfa & Hka & Hca & Hread). fold h in Hread.
    set (acc := account_at keccak256 W (address u)) in *.
    destruct (updated_info_ok u acc s Er) as (s1 & Hrun1 & Hn1 & Hc1).
    set (acc1 := mkAccount (default (acc_info acc) (AccountUpdate.info u)) (acc_storage acc)) in *.
    destruct (updated_storage_ok u acc1 s1) as (s2 & Hrun2 & Hc2 & He2 & Hne2 & Hk2 & Hcov2 & Hwf2);
      [intros h'; unfold nodes_ok; rewrite Hn1; apply Hok|by rewrite Hn1|done|apply Hwfa|done|done|].
    set (acc2 := mkAccount (acc_info acc1) _) in Hrun2. fold (updated_account keccak256 u acc) in acc2. subst acc2.
    set (acc2 := updated_account keccak256 u acc) in *.
    assert (wf_account acc2) as Hwfa2.
    { split; [|done]. unfold acc2, updated_account. cbn. destruct (AccountUpdate.info u) eqn:E; [by apply Hi|apply Hwfa]. }
    assert (opened t s2 (state_entries keccak256 W)) as Hop2.
    { eapply opened_nodes; [|done]. rewrite Hhan, Hne2 by done. apply Hn1. }
    unfold state_entries in Hc. rewrite fmap_insert in Hc. fold (state_entries keccak256 W) in Hc.
    destruct (insert_opened t s2 _ h (AccountState.encode (state_of keccak256 acc2)) Hop2 Hcov Hc) as (s3 & t3 & Hrun3 & Hs3 & Hh3 & Hop3);
      [apply account_entry; [apply keccak_array|by apply state_of_wf]|done|].
    assert (extends s s3) as He3.
    { etrans; [|by apply same_extends]. etrans; [|done]. intros h'. unfold nodes_ok. by rewrite Hn1. }
    exists s3, t3. split_and!; [|split; [congruence| | | | |]|done|].
    + rewrite stm_bind_assoc, (stm_bind_Ok _ _ _ _ _ Hread), (stm_bind_Ok _ _ _ _ _ Hrun1), (stm_bind_Ok _ _ _ _ _ Hrun2). done.
    + unfold state_entries. by rewrite fmap_insert.
    + apply map_Forall_insert_2; [split; [apply keccak_array|done]|done].
    + unfold state_entries. by rewrite fmap_insert.
    + intros a acc' HU HW. destruct (decide (a = address u)) as [->|Hne].
      * unfold h in HW. rewrite lookup_insert_eq in HW. injection HW as <-. split; [|done].
        destruct Hs3 as [_ ->]. done.
      * rewrite lookup_insert_ne in HW; [by eapply extends_storage|]. intros He. by apply Hne, eq_sym, (no_collision _ _ Ha HU).
    + intros h'. apply He3, Hok.
    + destruct Hs3 as [-> _]. by rewrite Hc2.
Qed.
Lemma with_codes_cons u us c : with_codes us (with_codes [u] c) = with_codes (u :: us) c.
Proof using Type. by destruct c. Qed.
Lemma apply_updates_ok us : ∀ t s W,
  working t s W → updates_ok W us →
  ∃ s' t', apply_updates keccak256 us t s = (s', Ok t') ∧ working t' s' (update_worlds keccak256 W us) ∧ extends s s' ∧
    contents s' = with_codes us (contents s).
Proof.
  induction us as [|u us IH]; intros t s W Hw Hus.
  { exists s, t. split_and!; [done..|]. unfold with_codes. by destruct (contents s). }
  destruct Hus as [Hu Hus]. destruct (apply_update_ok u t s W Hw Hu) as (s1 & t1 & Hrun1 & Hw1 & He1 & Hc1).
  destruct (IH t1 s1 _ Hw1 Hus) as (s2 & t2 & Hrun2 & Hw2 & He2 & Hc2).
  exists s2, t2. split_and!; [|done|by etrans|by rewrite Hc2, Hc1, with_codes_cons].
  cbn [apply_updates]. by rewrite (stm_bind_Ok _ _ _ _ _ Hrun1).
Qed.

(** ** States of a store *)
Record has_world (s : S) (W : world) : Prop := {
  world_wf : wf_world W;
  world_covered : covered (state_entries keccak256 W);
  world_state : kept (trie_nodes StateNodes s) (state_entries keccak256 W);
  world_storage : has_storage s W
}.
Definition header_root (s : S) (block_hash root : list Z) : Prop :=
  BlockHeader.state_root <$> InMemory.headers (contents s) !! block_hash = Some root.

Lemma extends_world s s' W : extends s s' → has_world s W → has_world s' W.
Proof.
  intros He [Hw Hc Hs Hst]. split; [done|done|by apply He|by eapply extends_storage].
Qed.
Lemma world_opened s W :
  (∀ h, nodes_ok h s) → has_world s W → working (open_trie keccak256 StateNodes (world_root keccak256 W)) s W.
Proof.
  intros Hok [Hw Hc Hs Hst]. split; [done| |done..]. apply open_opened; [done..|by apply state_keys_ok].
Qed.
Lemma state_trie_ok s block_hash root :
  header_root s block_hash root →
  ∃ s', state_trie keccak256 block_hash s = (s', Ok (Some (open_trie keccak256 StateNodes root))) ∧ same_store s s'.
Proof.
  unfold header_root. intros (hd & Hh & ->)%fmap_Some.
  pose proof (lawful_get_block_header_by_hash block_hash s) as Hl. pose proof (λ x, nodes_get_header x block_hash s) as Hn.
  unfold state_trie, mbind, stm_mbind. destruct (get_block_header_by_hash block_hash s) as [s' r]. cbn in Hl, Hn.
  unfold InMemory.get_block_header_by_hash, InMemory.read in Hl. injection Hl as Hc Hr. rewrite Hh in Hr. subst r. by exists s'.
Qed.
Lemma same_store_world s s' W : same_store s s' → (∀ h, nodes_ok h s) → has_world s W → (∀ h, nodes_ok h s') ∧ has_world s' W.
Proof. intros Hs%same_extends Hok HW. split; [intros h; by apply Hs|by eapply extends_world]. Qed.
Lemma apply_account_updates_ok s W block_hash us :
  (∀ h, nodes_ok h s) → has_world s W → header_root s block_hash (world_root keccak256 W) → updates_ok W us →
  ∃ s', apply_account_updates keccak256 block_hash us s = (s', Ok (Some (world_root keccak256 (update_worlds keccak256 W us)))) ∧
    (∀ h, nodes_ok h s') ∧ has_world s' (update_worlds keccak256 W us) ∧ extends s s' ∧ contents s' = with_codes us (contents s).
Proof.
  intros Hok HW Hr Hus. destruct (state_trie_ok s block_hash _ Hr) as (s0 & Hrun0 & Hs0).
  destruct (same_store_world s s0 W Hs0 Hok HW) as [Hok0 HW0].
  destruct (apply_updates_ok us _ s0 W (world_opened s0 W Hok0 HW0) Hus) as (s1 & t1 & Hrun1 & [Hh1 Hop1 Hwf1 Hcov1 Hst1 Hok1] & He1 & Hc1).
  destruct (hash_opened t1 s1 _ Hop1 Hcov1) as (s2 & Hrun2 & Hc2 & He2 & _ & _ & Hk2).
  exists s2. split_and!.
  - unfold apply_account_updates. rewrite (stm_bind_Ok _ _ _ _ _ Hrun0). cbv beta iota.
    rewrite (stm_bind_Ok _ _ _ _ _ Hrun1), (stm_bind_Ok _ _ _ _ _ Hrun2). done.
  - intros h. apply He2, Hok1.
  - rewrite Hh1 in Hk2. split; [done..|by eapply extends_storage].
  - etrans; [by apply same_extends|]. by etrans.
  - rewrite Hc2, Hc1. by destruct Hs0 as [-> _].
Qed.

(** ** Reading a state *)
Section Reads.
Variables (s : S) (W : world) (block_hash : list Z).
Hypothesis nodes_hold : ∀ h, nodes_ok h s.
Hypothesis world_held : has_world s W.
Hypothesis header_held : header_root s block_hash (world_root keccak256 W).

Lemma read_account {A} (f : option (list Z) → M A) :
  ∃ s0 t, same_store s s0 ∧ working t s0 W ∧ ∀ a,
    (t ← state_trie keccak256 block_hash;
     match t with None => f None | Some t => trie_get t (keccak256 a) ≫= f end) s =
    f (AccountState.encode ∘ state_of keccak256 <$> W !! keccak256 a) s0.
Proof.
  destruct (state_trie_ok s block_hash _ header_held) as (s0 & Hrun0 & Hs0).
  destruct (same_store_world s s0 W Hs0 nodes_hold world_held) as [Hok0 HW0].
  exists s0, (open_trie keccak256 StateNodes (world_root keccak256 W)). pose proof (world_opened s0 W Hok0 HW0) as Hw.
  split_and!; [done..|]. intros a. rewrite (stm_bind_Ok _ _ _ _ _ Hrun0). cbv beta iota.
  rewrite (stm_bind_Ok _ _ _ _ _ (get_opened _ s0 _ (keccak256 a) (work_opened _ _ _ Hw) (keccak_array a))).
  unfold state_entries. by rewrite lookup_fmap.
Qed.
Lemma decode_state acc : wf_account acc →
  decode_or AccountState.decode_unfinished (AccountState.encode (state_of keccak256 acc)) = λ s : S, (s, Ok (state_of keccak256 acc)).
Proof.
  intros Hwf. unfold decode_or, lift.
  rewrite (codec_decode AccountState.encode AccountState.decode_unfinished wf_account_state); [done|by apply state_of_wf|].
  destruct (account_state_bytes (state_of keccak256 acc)) as [_ Hz]; [by apply state_of_wf|]. unfold isize_max. lia.
Qed.
Lemma account_info_read a :
  ∃ s', get_account_info_by_hash keccak256 block_hash a s = (s', Ok (acc_info <$> W !! keccak256 a)) ∧ same_store s s'.
Proof.
  destruct (read_account (λ e, match e with None => mret None | Some e =>
    st ← decode_or AccountState.decode_unfinished e;
    mret (Some (AccountInfo.mk (AccountState.code_hash st) (AccountState.balance st) (AccountState.nonce st))) end))
    as (s0 & t & Hs0 & Hw & Hr).
  exists s0. split; [|done]. etrans; [apply Hr|]. destruct (W !! keccak256 a) as [acc|] eqn:E; cbn [fmap option_fmap option_map compose]; [|done].
  rewrite decode_state by apply (work_wf _ _ _ Hw _ _ E). by destruct acc as [[] ?].
Qed.
Lemma storage_read a k :
  U a →
  ∃ s', get_storage_at_hash keccak256 block_hash a k s = (s', Ok (W !! keccak256 a ≫= λ acc, acc_storage acc !! keccak256 k)) ∧
    same_store s s'.
Proof.
  intros Ha. destruct (read_account (λ e, match e with None => mret None | Some e =>
    st ← decode_or AccountState.decode_unfinished e;
    t ← open_storage_trie keccak256 a (AccountState.storage_root st); mret (Some t) end)) as (s0 & t & Hs0 & Hw & Hr).
  specialize (Hr a). fold (storage_trie keccak256 block_hash a) in Hr.
  destruct (W !! keccak256 a) as [acc|] eqn:E; cbn [fmap option_fmap option_map compose] in Hr.
  - destruct (work_wf _ _ _ Hw _ _ E) as [_ Hwf]. rewrite (stm_bind_Ok _ _ _ s0 (state_of keccak256 acc)) in Hr by (by rewrite decode_state).
    destruct (work_storage _ _ _ Hw a acc Ha E) as [Hk Hc].
    destruct (open_storage_opened a s0 (storage_entries (acc_storage acc))) as (s1 & Hrun1 & Hs1 & Hop1);
      [apply Hw|done|done|by apply storage_keys_ok, Hwf|].
    cbn [state_of AccountState.storage_root] in Hr. rewrite (stm_bind_Ok _ _ _ _ _ Hrun1) in Hr.
    exists s1. split; [|by etrans]. unfold get_storage_at_hash. rewrite (stm_bind_Ok _ _ _ _ _ Hr). cbv beta iota.
    rewrite (stm_bind_Ok _ _ _ _ _ (get_opened _ s1 _ (keccak256 k) Hop1 (keccak_array k))).
    unfold storage_entries. rewrite lookup_fmap. change (Some acc ≫= _) with (acc_storage acc !! keccak256 k).
    destruct (acc_storage acc !! keccak256 k) as [v|] eqn:Ev; cbn [fmap option_fmap option_map]; [|done].
    destruct Hwf as [_ Hwf]. destruct (Hwf _ _ Ev) as [_ Hv]. assert (is_uint 256 v) by (unfold is_uint; lia).
    unfold decode_or, lift, mbind, stm_mbind. rewrite (codec_decode U256_encode U256_decode (is_uint 256)); [done..|].
    destruct (U256_bytes v) as [_ Hz]; [done|]. unfold isize_max. lia.
  - exists s0. split; [|done]. unfold get_storage_at_hash. by rewrite (stm_bind_Ok _ _ _ _ _ Hr).
Qed.
End Reads.
End Opened.

(** ** The theorem *)

(** What the store answers about a state in a block. *)
Definition answers `{Profile} {S} `{LawfulTrieEngine S} (keccak256 : list Z → list Z) (s : S) (block_hash : list Z) (W : world)
    (a : list Z) : Prop :=
  (∃ s', get_account_info_by_hash keccak256 block_hash a s = (s', Ok (acc_info <$> W !! keccak256 a))) ∧
  ∀ k, ∃ s', get_storage_at_hash keccak256 block_hash a k s =
    (s', Ok (W !! keccak256 a ≫= λ acc, acc_storage acc !! keccak256 k)).
Definition same_nodes {S} `{TrieEngine S} (s s' : S) : Prop := ∀ h, trie_nodes h s' = trie_nodes h s.
Lemma world_answers `{Profile} {S} `{LawfulTrieEngine S} keccak256 U keys (s : S) W block_hash a :
  (∀ x, is_array 32 (keccak256 x)) → collision_free keccak256 U → U (Bytes_encode []) →
  (∀ h, nodes_ok keccak256 U keys h s) → has_world keccak256 U s W → header_root s block_hash (world_root keccak256 W) →
  U a → answers keccak256 s block_hash W a.
Proof.
  intros Hka Hn Hu Hok HW Hr Ha. split.
  - destruct (account_info_read keccak256 Hka U Hn Hu keys s W block_hash Hok HW Hr a) as (s' & ? & _). by exists s'.
  - intros k. destruct (storage_read keccak256 Hka U Hn Hu keys s W block_hash Hok HW Hr a k Ha) as (s' & ? & _). by exists s'.
Qed.
Lemma same_nodes_world `{Profile} {S} `{LawfulTrieEngine S} keccak256 U keys (s s' : S) W :
  same_nodes s s' → (∀ h, nodes_ok keccak256 U keys h s) → has_world keccak256 U s W →
  (∀ h, nodes_ok keccak256 U keys h s') ∧ has_world keccak256 U s' W.
Proof.
  intros Hs Hok [Hw Hc Hk Hst]. split; [intros h; unfold nodes_ok; rewrite Hs; apply Hok|].
  split; [done|done|by rewrite Hs|]. intros a acc Ha HW. rewrite Hs. by apply Hst.
Qed.

(** C29: [apply_account_updates] on a block whose state the store has: every account and
    slot is updated as the updates say, in order, the root that is returned is the one
    of the yellow paper for the updated state, the store otherwise only gains the code of
    the accounts, and from then on the store answers with the updated state for a block
    with that root and, for the blocks it had, with their states as before.  Assumed:
    digests of 32 bytes, no collision among [ns], which has the addresses and the nodes
    of the tries on the way, and no keys that end alike. *)
Theorem account_updates_correct (P : Profile) {S} `{LawfulTrieEngine S} (keccak256 : list Z → list Z)
    (ns : list (list Z)) (keys : TrieHandle → list (list Z)) (s : S) (W : world) (block_hash : list Z)
    (us : list AccountUpdate.t) :
  (∀ x, is_array 32 (keccak256 x)) → no_collisions keccak256 ns → Bytes_encode [] ∈ ns →
  (∀ h, nodes_ok keccak256 (.∈ ns) keys h s) → has_world keccak256 (.∈ ns) s W →
  header_root s block_hash (world_root keccak256 W) → updates_ok keccak256 (.∈ ns) keys W us →
  let W' := update_worlds keccak256 W us in
  ∃ s', apply_account_updates keccak256 block_hash us s = (s', Ok (Some (world_root keccak256 W'))) ∧
    contents s' = with_codes us (contents s) ∧
    ∀ s2 W2 block, same_nodes s' s2 → W2 = W' ∨ has_world keccak256 (.∈ ns) s W2 →
      header_root s2 block (world_root keccak256 W2) → ∀ a, a ∈ ns → answers keccak256 s2 block W2 a.
Proof.
  intros Hka Hn Hu Hok HW Hr Hus W'. apply no_collisions_free in Hn.
  destruct (apply_account_updates_ok keccak256 Hka (.∈ ns) Hn Hu keys s W block_hash us Hok HW Hr Hus)
    as (s' & Hrun & Hok' & HW' & He & Hc).
  exists s'. split_and!; [done..|]. intros s2 W2 block Hs2 Hor Hr2 a Ha.
  assert (has_world keccak256 (.∈ ns) s' W2) as HW2 by (destruct Hor as [->|Hor]; [done|by eapply extends_world]).
  destruct (same_nodes_world keccak256 _ keys s' s2 W2 Hs2 Hok' HW2) as [Hok2 HW2']. by eapply (world_answers keccak256 (.∈ ns)).
Qed.

(** ** Witness: the first account of an empty state *)
Definition poly_digest (x : list Z) : list Z := to_be 32 (foldl (λ a b, Z.land (257 * a + b + 1) (2 ^ 61 - 1)) 7 x).
Lemma poly_digest_array x : is_array 32 (poly_digest x).
Proof. split; [apply to_be_bytes|apply (to_be_zlen 32)]. Qed.
Lemma no_collisions_NoDup keccak256 (ns : list (list Z)) : NoDup (map keccak256 ns) → no_collisions keccak256 ns.
Proof.
  intros Hn. apply Forall_forall. intros x Hx. apply Forall_forall. intros y Hy He.
  apply list_elem_of_lookup in Hx as [i Hi], Hy as [j Hj].
  assert (i = j) as ->; [|congruence]. eapply NoDup_lookup; [exact Hn|..]; rewrite list_lookup_fmap; [by rewrite Hi|by rewrite Hj, He].
Qed.
Lemma covered_list keccak256 (ns : list (list Z)) b :
  Forall (.∈ ns) (nodes keccak256 (paths b)) → covered keccak256 (.∈ ns) (paths b).
Proof. intros Hf. apply covered_nodes. by apply Forall_forall. Qed.
Lemma history_list keccak256 (ns ks : list (list Z)) l :
  Forall (λ b, Forall (.∈ ns) (nodes keccak256 (paths b)) ∧ no_lookalikes ks b) l →
  Forall (λ b, covered keccak256 (.∈ ns) (paths b) ∧ no_lookalikes ks b) l.
Proof. intros Hl. eapply Forall_impl; [exact Hl|]. intros b [Hb ?]. split; [by apply covered_list|done]. Qed.

Lemma update_ok_list keccak256 (ns : list (list Z)) keys W u :
  AccountUpdate.address u ∈ ns → keccak256 (AccountUpdate.address u) ∈ keys StateNodes →
  (∀ i, AccountUpdate.info u = Some i → wf_account_info i) →
  Forall (λ kv, is_uint 256 kv.2 ∧ keccak256 kv.1 ∈ keys (StorageNodes (AccountUpdate.address u))) (map_to_list (AccountUpdate.added_storage u)) →
  Forall (.∈ ns) (nodes keccak256 (paths (state_entries keccak256 (update_world keccak256 W u)))) →
  no_lookalikes (keys StateNodes) (state_entries keccak256 W) →
  Forall (λ b, Forall (.∈ ns) (nodes keccak256 (paths b)) ∧ no_lookalikes (keys (StorageNodes (AccountUpdate.address u))) b)
    (history (storage_entries (acc_storage (account_at keccak256 W (AccountUpdate.address u)))) (slot_ops keccak256 u)) →
  update_ok keccak256 (.∈ ns) keys W u.
Proof. intros Ha Hk Hi Hs Hc Hn Hh. split; [done..|by apply covered_list|done|]. intros _. by apply history_list. Qed.

Definition sample_address : list Z := 7 :: replicate 19 1.
Definition sample_slot : list Z := 9 :: replicate 31 2.
Definition sample_updates : list AccountUpdate.t :=
  [AccountUpdate.mk sample_address false (Some (AccountInfo.mk (replicate 32 3) 1000 1)) (Some [0x60; 0x00]) {[sample_slot := 5]};
   AccountUpdate.mk sample_address false None None {[sample_slot := 0]}].
Definition sample_state_header : BlockHeader.t :=
  BlockHeader.mk [] [] [] (world_root poly_digest ∅) [] [] [] 0 0 0 0 0 [] [] 0 None None None None None.
Definition sample_state_store : InMemoryTries.Store :=
  InMemoryTries.mk (InMemory.put_headers {[[1] := sample_state_header]} InMemory.new) ∅ ∅.
Definition sample_state_keys (h : TrieHandle) : list (list Z) :=
  match h with StateNodes => [poly_digest sample_address] | StorageNodes _ => [poly_digest sample_slot] end.
Definition sample_worlds : list world :=
  [∅; update_worlds poly_digest ∅ (take 1 sample_updates); update_worlds poly_digest ∅ sample_updates].
Definition sample_universe : list (list Z) :=
  remove_dups (Bytes_encode [] :: sample_address ::
    concat (map (λ W, nodes poly_digest (paths (state_entries poly_digest W)) ++
      concat (map (λ '(_, acc), nodes poly_digest (paths (storage_entries (acc_storage acc)))) (map_to_list W))) sample_worlds)).

Lemma sample_updates_ok : updates_ok poly_digest (.∈ sample_universe) sample_state_keys ∅ sample_updates.
Proof.
  assert (∀ i, AccountUpdate.info (AccountUpdate.mk sample_address false (Some (AccountInfo.mk (replicate 32 3) 1000 1)) (Some [0x60; 0x00]) {[sample_slot := 5]}) = Some i →
    wf_account_info i) as Hi by (intros i [= <-]; by_decide).
  split; [|split; [|exact I]]; apply update_ok_list; first [exact Hi | (intros i Hx; discriminate Hx) | by_decide].
Qed.
Lemma account_updates_correct_witness :
  let W' := update_worlds poly_digest ∅ sample_updates in
  ∃ s', apply_account_updates (H:=dev_profile) poly_digest [1] sample_updates sample_state_store =
      (s', Ok (Some (world_root poly_digest W'))) ∧
    contents s' = with_codes sample_updates (contents sample_state_store).
Proof.
  destruct (@account_updates_correct dev_profile InMemoryTries.Store InMemoryTries.engine InMemoryTries.lawful InMemoryTries.tries
    InMemoryTries.lawful_tries poly_digest sample_universe sample_state_keys sample_state_store ∅ [1] sample_updates)
    as (s' & Hrun & Hc & _).
  - exact poly_digest_array.
  - apply no_collisions_NoDup. by_decide.
  - by_decide.
  - intros h. split; [destruct h; apply db_closed_empty|]. by destruct h; split.
  - split; [apply map_Forall_empty| | |done].
    + apply covered_list. by_decide.
    + intros Hne. destruct Hne. vm_compute. reflexivity.
  - vm_compute. reflexivity.
  - exact sample_updates_ok.
  - exists s'. exact (conj Hrun Hc).
Defined.
