(* ===== verification/GenesisState.v ===== *)
(** * The state of the genesis block

    [setup_genesis_state_trie] writes the accounts of the genesis file to the tries; its
    root is the one in the genesis header, and [add_initial_state] leaves a store from
    which the genesis block and its accounts are read back. *)

From S2P Require Import Prelude Rlp RlpLaws U256 Exponential Vm Codec Effects Nibble NibbleLaws.
From S2P Require Import TrieNode TrieCodec Trie TrieSpec TrieEncoding TrieRoot TrieLaws TrieRefine.
From S2P Require Import TrieLeaves TrieCommit TrieRemove TrieDelete TrieRooted.
From S2P Require Import CoreTypes CoreLaws Consensus Genesis Store StoreLaws StateTries StateLaws.

(** ** The abstract state *)
Section World.
Variable keccak256 : list Z → list Z.

Definition genesis_slot (st : gmap (list Z) Z) (kv : list Z * Z) : gmap (list Z) Z :=
  if kv.2 =? 0 then st else <[keccak256 kv.1 := kv.2]> st.
Definition genesis_slots (storage : gmap (list Z) Z) : gmap (list Z) Z := foldl genesis_slot ∅ (map_to_list storage).
Definition genesis_account (g : GenesisAccount.t) : account :=
  mkAccount (AccountInfo.mk (code_hash keccak256 (GenesisAccount.code g)) (GenesisAccount.balance g) (GenesisAccount.nonce g))
    (genesis_slots (GenesisAccount.storage g)).
Definition add_account (W : world) (kv : list Z * GenesisAccount.t) : world := <[keccak256 kv.1 := genesis_account kv.2]> W.
Definition genesis_world (alloc : gmap (list Z) GenesisAccount.t) : world := foldl add_account ∅ (map_to_list alloc).

(** The roots that the genesis block is made of are the roots of this state. *)
Lemma slots_inserted l : ∀ st,
  inserted_into (storage_entries st) (omap (λ '(k, v), if v =? 0 then None else Some (keccak256 k, U256_encode v)) l) =
  storage_entries (foldl genesis_slot st l).
Proof.
  induction l as [|[k v] l IH]; intros st; [done|]. cbn [foldl]. unfold genesis_slot at 2. cbn [fst snd omap list_omap].
  destruct (v =? 0); [apply IH|]. unfold inserted_into in *. cbn [foldl]. rewrite <-IH. f_equal.
  unfold storage_entries. by rewrite fmap_insert.
Qed.
Lemma genesis_storage_root storage :
  compute_storage_root keccak256 (entries_root keccak256) storage = map_root keccak256 (paths (storage_entries (genesis_slots storage))).
Proof.
  unfold compute_storage_root, entries_root, inserted. f_equal. f_equal.
  replace (∅ : pmap) with (storage_entries ∅) by apply fmap_empty. apply slots_inserted.
Qed.
Lemma genesis_state_of g : account_state_from keccak256 (entries_root keccak256) g = state_of keccak256 (genesis_account g).
Proof. unfold account_state_from, state_of. by rewrite genesis_storage_root. Qed.
Lemma accounts_inserted l : ∀ W,
  inserted_into (state_entries keccak256 W)
    (map (λ '(addr, account), (keccak256 addr, AccountState.encode (account_state_from keccak256 (entries_root keccak256) account))) l) =
  state_entries keccak256 (foldl add_account W l).
Proof.
  induction l as [|[a g] l IH]; intros W; [done|]. cbn [foldl map]. unfold inserted_into in *. cbn [foldl]. rewrite <-IH. f_equal.
  unfold add_account, state_entries. by rewrite fmap_insert, genesis_state_of.
Qed.
Lemma genesis_root g :
  Genesis.compute_state_root keccak256 (entries_root keccak256) g = world_root keccak256 (genesis_world (Genesis.alloc g)).
Proof.
  unfold Genesis.compute_state_root, entries_root, inserted, world_root. f_equal. f_equal.
  replace (∅ : pmap) with (state_entries keccak256 ∅) by apply fmap_empty. apply accounts_inserted.
Qed.
End World.

(** ** Writing it *)
Section Setup.
Context `{Profile} {S : Type} `{LawfulTrieEngine S}.
Variable keccak256 : list Z → list Z.
Hypothesis keccak_array : ∀ x, is_array 32 (keccak256 x).
Variable U : list Z → Prop.
Hypothesis no_collision : collision_free keccak256 U.
Hypothesis U_empty : U (Bytes_encode []).
Variable keys : TrieHandle → list (list Z).
#[local] Set Default Proof Using "All".
Abbreviation covered b := (covered keccak256 U (paths b)).
Abbreviation law f := (f keccak256 keccak_array U no_collision U_empty keys) (only parsing).

(** The states of the storage on the way. *)
Fixpoint slots_ok (h : TrieHandle) (st : gmap (list Z) Z) (l : list (list Z * Z)) : Prop :=
  covered (storage_entries st) ∧
  match l with
  | [] => True
  | kv :: l => is_uint 256 kv.2 ∧ keccak256 kv.1 ∈ keys h ∧ slots_ok h (genesis_slot keccak256 st kv) l
  end.
Fixpoint accounts_ok (W : world) (l : list (list Z * GenesisAccount.t)) : Prop :=
  covered (state_entries keccak256 W) ∧
  match l with
  | [] => True
  | (a, g) :: l =>
    U a ∧ keccak256 a ∈ keys StateNodes ∧ is_uint 64 (GenesisAccount.nonce g) ∧ is_uint 256 (GenesisAccount.balance g) ∧
    slots_ok (StorageNodes a) ∅ (map_to_list (GenesisAccount.storage g)) ∧ accounts_ok (add_account keccak256 W (a, g)) l
  end.
Lemma slots_ok_covered h st l : slots_ok h st l → covered (storage_entries st).
Proof using Type. by destruct l as [|kv l]; intros [? _]. Qed.
Lemma accounts_ok_covered W l : accounts_ok W l → covered (state_entries keccak256 W).
Proof using Type. by destruct l as [|[a g] l]; intros [? _]. Qed.

Lemma write_genesis_storage_ok l : ∀ t s st,
  opened keccak256 U keys t s (storage_entries st) → wf_storage st → slots_ok (handle t) st l →
  ∃ s' ot, write_genesis_storage keccak256 l t s = (s', Ok ot) ∧ same_store s s' ∧ handle ot = handle t ∧
    opened keccak256 U keys ot s' (storage_entries (foldl (genesis_slot keccak256) st l)) ∧
    wf_storage (foldl (genesis_slot keccak256) st l) ∧ covered (storage_entries (foldl (genesis_slot keccak256) st l)).
Proof.
  induction l as [|[k v] l IH]; intros t s st Hop Hwf Hl.
  { exists s, t. split_and!; [done..|apply Hl]. }
  destruct Hl as (Hc & Hv & Hk & Hl). cbn [fst snd] in Hv, Hk. cbn [foldl write_genesis_storage].
  pose proof (slots_ok_covered _ _ _ Hl) as Hc'. 
  assert (genesis_slot keccak256 st (k, v) = if v =? 0 then st else <[keccak256 k := v]> st) as Hg by done.
  rewrite Hg in Hc', Hl |- *.
  destruct (v =? 0) eqn:E; cbn [negb]; bool_prop.
  - erewrite stm_bind_Ok by done. by apply IH.
  - unfold storage_entries in Hc'. rewrite fmap_insert in Hc'. fold (storage_entries st) in Hc'.
    destruct (law insert_opened t s _ (keccak256 k) (U256_encode v) Hop Hc Hc') as (s1 & t1 & Hrun & Hs1 & Hh1 & Hop1);
      [by apply U256_entry|done|].
    rewrite <-Hh1 in Hl. destruct (IH t1 s1 (<[keccak256 k := v]> st)) as (s2 & t2 & Hrun2 & Hs2 & Hh2 & Hrest); [| |done|].
    + unfold storage_entries. by rewrite fmap_insert.
    + apply map_Forall_insert_2; [|done]. split; [done|]. unfold is_uint in Hv. lia.
    + exists s2, t2. split_and!; [|destruct Hs1, Hs2; split; [congruence|intros; congruence]|congruence|apply Hrest..].
      unfold hash_key. by rewrite (stm_bind_Ok _ _ _ _ _ Hrun).
Qed.

Lemma add_account_code_extends h c s s' :
  add_account_code h c s = (s', Ok tt) → (∀ h, trie_nodes h s' = trie_nodes h s) → extends keccak256 U keys s s'.
Proof using Type. intros _ Hn h'. unfold nodes_ok. by rewrite Hn. Qed.
(** The code of the genesis accounts. *)
Definition genesis_code (c : InMemory.StoreInner) (kv : list Z * GenesisAccount.t) : InMemory.StoreInner :=
  InMemory.put_account_codes
    (<[code_hash keccak256 (GenesisAccount.code kv.2) := GenesisAccount.code kv.2]> (InMemory.account_codes c)) c.
Lemma genesis_account_wf g st :
  is_uint 64 (GenesisAccount.nonce g) → is_uint 256 (GenesisAccount.balance g) → wf_storage st →
  wf_account (mkAccount (acc_info (genesis_account keccak256 g)) st).
Proof. intros. split; [|done]. split_and!; [apply keccak_array|done..]. Qed.

Lemma write_genesis_accounts_ok l : ∀ t s W,
  working keccak256 U keys t s W → accounts_ok W l →
  ∃ s' ot, write_genesis_accounts keccak256 l t s = (s', Ok ot) ∧
    working keccak256 U keys ot s' (foldl (add_account keccak256) W l) ∧
    contents s' = foldl genesis_code (contents s) l.
Proof.
  induction l as [|[a g] l IH]; intros t s W Hw Hl; [by exists s, t|].
  destruct Hl as (Hc & Ha & Hk & Hn & Hb & Hs & Hl). pose proof (accounts_ok_covered _ _ Hl) as Hc'.
  pose proof Hw as [Hhan Hop Hwf Hcov Hst Hok]. cbn [foldl write_genesis_accounts]. cbv zeta.
  destruct (law account_code_ok (code_hash keccak256 (GenesisAccount.code g)) (GenesisAccount.code g) s) as (s1 & Hrun1 & Hn1 & Hcon1).
  assert (nodes_ok keccak256 U keys (StorageNodes a) s1) as Hok1 by (unfold nodes_ok; rewrite Hn1; apply Hok).
  destruct (law open_storage_opened a s1 (storage_entries ∅)) as (s2 & Hrun2 & Hs2 & Hop2);
    [done|unfold storage_entries; rewrite fmap_empty; apply kept_empty|by eapply slots_ok_covered|by apply storage_keys_ok, map_Forall_empty|].
  assert (map_root keccak256 (paths (storage_entries ∅)) = Trie.EMPTY_TRIE_HASH keccak256) as Hempty.
  { unfold map_root. rewrite decide_True; [done|]. replace (storage_entries ∅) with (∅ : pmap) by (symmetry; apply fmap_empty). apply paths_empty. }
  rewrite Hempty in Hrun2, Hop2.
  destruct (write_genesis_storage_ok (map_to_list (GenesisAccount.storage g)) _ s2 ∅ Hop2 (map_Forall_empty _)) as (s3 & t3 & Hrun3 & Hs3 & Hh3 & Hop3 & Hwf3 & Hc3);
    [done|]. fold (genesis_slots keccak256 (GenesisAccount.storage g)) in Hop3, Hwf3, Hc3.
  destruct (law hash_opened t3 s3 _ Hop3 Hc3) as (s4 & Hrun4 & Hcon4 & He4 & Hne4 & _ & Hk4).
  cbn [handle open_trie] in Hh3. rewrite Hh3 in Hne4, Hk4.
  assert (∀ h, trie_nodes h s3 = trie_nodes h s) as Hn3 by (intros h; destruct Hs2 as [_ H2'], Hs3 as [_ H3']; by rewrite H3', H2').
  assert (opened keccak256 U keys t s4 (state_entries keccak256 W)) as Hop4.
  { eapply opened_nodes; [|done]. rewrite Hhan, Hne4 by done. apply Hn3. }
  pose proof (genesis_account_wf g _ Hn Hb Hwf3) as Hwfa. change (mkAccount _ _) with (genesis_account keccak256 g) in Hwfa.
  unfold state_entries, add_account in Hc'. rewrite fmap_insert in Hc'. fold (state_entries keccak256 W) in Hc'. cbn [fst snd] in Hc'.
  destruct (law insert_opened t s4 _ (keccak256 a) (AccountState.encode (state_of keccak256 (genesis_account keccak256 g))) Hop4 Hcov Hc')
    as (s5 & t5 & Hrun5 & Hs5 & Hh5 & Hop5); [apply account_entry; [apply keccak_array|by apply state_of_wf]|by rewrite Hhan|].
  assert (extends keccak256 U keys s s5) as He5.
  { etrans; [|by apply (law same_extends)]. etrans; [|done]. intros h'. unfold nodes_ok. by rewrite Hn3. }
  destruct (IH t5 s5 (add_account keccak256 W (a, g))) as (s6 & t6 & Hrun6 & Hw6 & Hcon6); [|done|].
  - split; [congruence| | | | |].
    + unfold state_entries, add_account. by rewrite fmap_insert.
    + apply map_Forall_insert_2; [split; [apply keccak_array|done]|done].
    + by eapply accounts_ok_covered.
    + intros a' acc HU HW. unfold add_account in HW. cbn [fst snd] in HW. destruct (decide (a' = a)) as [->|Hne].
      * rewrite lookup_insert_eq in HW. injection HW as <-. split; [|done]. destruct Hs5 as [_ ->]. done.
      * rewrite lookup_insert_ne in HW; [by eapply (law extends_storage)|]. intros Heq. by apply Hne, eq_sym, (no_collision _ _ Ha HU).
    + intros h'. apply He5, Hok.
  - exists s6, t6. split_and!; [|done|].
    + rewrite (stm_bind_Ok _ _ _ _ _ Hrun1), (stm_bind_Ok _ _ _ _ _ Hrun2), (stm_bind_Ok _ _ _ _ _ Hrun3), (stm_bind_Ok _ _ _ _ _ Hrun4).
      by rewrite (stm_bind_Ok _ _ _ _ _ Hrun5).
    + rewrite Hcon6. f_equal. destruct Hs5 as [-> _]. rewrite Hcon4. destruct Hs3 as [-> _], Hs2 as [-> _]. done.
Qed.
Lemma setup_genesis_ok s alloc :
  (∀ h, nodes_ok keccak256 U keys h s) → accounts_ok ∅ (map_to_list alloc) →
  ∃ s', setup_genesis_state_trie keccak256 alloc s = (s', Ok (world_root keccak256 (genesis_world keccak256 alloc))) ∧
    (∀ h, nodes_ok keccak256 U keys h s') ∧ has_world keccak256 U s' (genesis_world keccak256 alloc) ∧
    contents s' = foldl genesis_code (contents s) (map_to_list alloc).
Proof.
  intros Hok Hl. assert (working keccak256 U keys (mkOpen StateNodes None ∅) s ∅) as Hw.
  { split; [done| |apply map_Forall_empty|by eapply accounts_ok_covered|done|done].
    split; [|apply Hok]. split; [|by destruct (Hok StateNodes) as [_ []]; split]. left. split; [|done].
    unfold state_entries. replace ((λ a, AccountState.encode (state_of keccak256 a)) <$> ∅) with (∅ : pmap) by (symmetry; apply fmap_empty).
    apply paths_empty. }
  destruct (write_genesis_accounts_ok (map_to_list alloc) _ s ∅ Hw Hl) as (s1 & t1 & Hrun1 & [Hh1 Hop1 Hwf1 Hcov1 Hst1 Hok1] & Hc1).
  destruct (law hash_opened t1 s1 _ Hop1 Hcov1) as (s2 & Hrun2 & Hc2 & He2 & _ & _ & Hk2). rewrite Hh1 in Hk2.
  exists s2. split_and!; [|intros h; apply He2, Hok1|split; [done..|by eapply (law extends_storage)]|congruence].
  unfold setup_genesis_state_trie. erewrite stm_bind_Ok by done. by rewrite (stm_bind_Ok _ _ _ _ _ Hrun1).
Qed.
End Setup.

(** ** Lookups in the genesis state *)
Definition put_hashed {A B} (f : list Z → list Z) (g : A → option B) (m : gmap (list Z) B) (kv : list Z * A) : gmap (list Z) B :=
  match g kv.2 with Some y => <[f kv.1 := y]> m | None => m end.
Lemma put_hashed_lookup {A B} f (g : A → option B) a l : ∀ m,
  NoDup l.*1 → (∀ x, x ∈ l.*1 → f x = f a → x = a) →
  foldl (put_hashed f g) m l !! f a =
  match list_to_map (M:=gmap (list Z) A) l !! a ≫= g with Some y => Some y | None => m !! f a end.
Proof.
  induction l as [|[x v] l IH]; intros m Hn Hf; [done|]. cbn [fmap list_fmap fst] in Hn, Hf. apply NoDup_cons in Hn as [Hx Hn].
  cbn [foldl]. rewrite IH; [|done|intros y Hy; apply Hf; by constructor]. cbn [list_to_map foldr curry fst snd].
  destruct (decide (x = a)) as [->|Hne].
  - rewrite lookup_insert_eq. rewrite not_elem_of_list_to_map_1 by done. cbn [mbind option_bind]. unfold put_hashed. cbn [fst snd].
    destruct (g v); [by rewrite lookup_insert_eq|done].
  - rewrite lookup_insert_ne by done. unfold put_hashed. cbn [fst snd]. destruct (g v); [|done].
    rewrite lookup_insert_ne; [done|]. intros He. apply Hne, Hf; [constructor|done].
Qed.
Lemma put_hashed_map {A B} f (g : A → option B) (m : gmap (list Z) A) a :
  (∀ x v, m !! x = Some v → f x = f a → x = a) → foldl (put_hashed f g) ∅ (map_to_list m) !! f a = m !! a ≫= g.
Proof.
  intros Hf. rewrite put_hashed_lookup.
  - rewrite list_to_map_to_list, lookup_empty. by destruct (m !! a ≫= g).
  - apply NoDup_fst_map_to_list.
  - intros x ([? v] & -> & Hx)%list_elem_of_fmap. apply elem_of_map_to_list in Hx. by eapply Hf.
Qed.
(** The values that are kept. *)
Definition nonzero (v : Z) : option Z := if v =? 0 then None else Some v.
Lemma genesis_world_lookup keccak256 (alloc : gmap (list Z) GenesisAccount.t) a :
  (∀ x v, alloc !! x = Some v → keccak256 x = keccak256 a → x = a) →
  genesis_world keccak256 alloc !! keccak256 a = genesis_account keccak256 <$> alloc !! a.
Proof.
  intros Hf. pose proof (put_hashed_map keccak256 (Some ∘ genesis_account keccak256) alloc a Hf) as Hp.
  unfold genesis_world. etrans; [exact Hp|]. by destruct (alloc !! a).
Qed.
Lemma genesis_slots_lookup keccak256 (st : gmap (list Z) Z) k :
  (∀ x v, st !! x = Some v → keccak256 x = keccak256 k → x = k) → genesis_slots keccak256 st !! keccak256 k = st !! k ≫= nonzero.
Proof.
  intros Hf. rewrite <-(put_hashed_map keccak256 nonzero st k Hf). unfold genesis_slots. f_equal.
  generalize (∅ : gmap (list Z) Z). induction (map_to_list st) as [|kv l IH]; intros m; [done|]. cbn [foldl]. rewrite IH. f_equal.
  unfold genesis_slot, put_hashed, nonzero. by destruct (kv.2 =? 0).
Qed.

(** ** The in-memory store *)
Section InMemory.
Import InMemoryTries.
Definition inner_only {A} (m : stm Store StoreError A) : Prop := ∀ s, same_nodes s (m s).1.
Lemma inner_ret {A} (a : A) : inner_only (mret a).
Proof. by intros s h. Qed.
Lemma inner_lift {A} (r : res StoreError A) : inner_only (lift r).
Proof. by intros s h. Qed.
Lemma inner_on {A} (m : stm InMemory.StoreInner StoreError A) : inner_only (on_inner m).
Proof. intros s h. unfold on_inner. destruct (m (inner s)). by destruct h. Qed.
Lemma inner_bind {A B} (m : stm Store StoreError A) (f : A → stm Store StoreError B) :
  inner_only m → (∀ a, inner_only (f a)) → inner_only (m ≫= f).
Proof.
  intros Hm Hf s h. unfold mbind, stm_mbind. pose proof (Hm s h) as H1. destruct (m s) as [s1 [a| | |]]; cbn [fst] in *; [|done..].
  etrans; [apply (Hf a s1 h)|done].
Qed.
Lemma inner_for_each {A} (f : A → stm Store StoreError unit) l : (∀ a, inner_only (f a)) → inner_only (for_each f l).
Proof. intros Hf. induction l as [|x l IH]; cbn; [apply inner_ret|]. by apply inner_bind. Qed.
Lemma add_block_inner keccak256 b : inner_only (Store.add_block keccak256 b).
Proof.
  unfold Store.add_block, add_transaction_locations.
  repeat first [apply inner_on | apply inner_lift | apply inner_ret | apply inner_for_each; intros [? ?] | apply inner_bind; [|intros ?]].
Qed.

(** What is in the store after the genesis block. *)
Definition genesis_contents (keccak256 : list Z → list Z) (g : Genesis.t) : InMemory.StoreInner :=
  let b := Genesis.get_block keccak256 (entries_root keccak256) g in
  let hash := BlockHeader.compute_block_hash keccak256 (Block.header b) in
  let c := foldl (genesis_code keccak256) InMemory.new (map_to_list (Genesis.alloc g)) in
  let c := InMemory.put_chain_data (InMemory.put_earliest_block_number (Some 0) (InMemory.chain_data c)) c in
  let c := with_block keccak256 b c in
  let c := InMemory.put_canonical_hashes (<[0 := hash]> (InMemory.canonical_hashes c)) c in
  InMemory.put_chain_data (InMemory.put_chain_config (Some (Genesis.config g)) (InMemory.chain_data c)) c.
Lemma genesis_code_data keccak256 l c :
  InMemory.chain_data (foldl (genesis_code keccak256) c l) = InMemory.chain_data c.
Proof. revert c. induction l as [|kv l IH]; intros c; [done|]. cbn. by rewrite IH. Qed.

Lemma add_initial_state_ok `{Profile} keccak256 U keys g :
  (∀ x, is_array 32 (keccak256 x)) → collision_free keccak256 U → U (Bytes_encode []) →
  accounts_ok keccak256 U keys ∅ (map_to_list (Genesis.alloc g)) → 0 <= Genesis.difficulty g < U256_MOD →
  ∃ s, add_initial_state keccak256 (entries_root keccak256) (setup_genesis_state_trie keccak256) g InMemoryTries.new = (s, Ok tt) ∧
    (∀ h, nodes_ok keccak256 U keys h s) ∧ has_world keccak256 U s (genesis_world keccak256 (Genesis.alloc g)) ∧
    inner s = genesis_contents keccak256 g.
Proof.
  intros Hka Hn Hu Hl Hd. set (b := Genesis.get_block keccak256 (entries_root keccak256) g).
  destruct (setup_genesis_ok keccak256 Hka U Hn Hu keys InMemoryTries.new (Genesis.alloc g)) as (s1 & Hrun1 & Hok1 & HW1 & Hc1).
  { intros h. split; [destruct h; apply db_closed_empty|]. by destruct h; split. }
  { done. }
  cbn [contents lawful] in Hc1. change (inner InMemoryTries.new) with InMemory.new in Hc1. set (s2 := (update_earliest_block_number 0 s1).1).
  assert (same_nodes s1 s2) as Hs2 by apply inner_on.
  assert (inner s2 = InMemory.put_chain_data (InMemory.put_earliest_block_number (Some 0) (InMemory.chain_data (inner s1))) (inner s1)) as Hc2 by done.
  pose proof (add_block_simulates keccak256 b s2) as Hsim. cbn [contents lawful] in Hsim.
  rewrite add_block_contents in Hsim.
  2: { rewrite Hc2, Hc1. unfold InMemory.put_chain_data. cbn [InMemory.chain_data InMemory.latest_total_difficulty InMemory.put_earliest_block_number].
       rewrite genesis_code_data. cbn -[U256_MOD]. lia. }
  pose proof (add_block_inner keccak256 b s2) as Hs3. destruct (Store.add_block keccak256 b s2) as [s3 r3] eqn:E3. cbn [fst snd] in Hsim, Hs3.
  injection Hsim as Hc3 <-.
  set (hash := BlockHeader.compute_block_hash keccak256 (Block.header b)).
  set (s4 := (set_canonical_block 0 hash s3).1). set (s5 := (set_chain_config (Genesis.config g) s4).1).
  assert (same_nodes s1 s5) as Hs5.
  { intros h. etrans; [apply (inner_on _ s4 h)|]. etrans; [apply (inner_on _ s3 h)|]. etrans; [exact (Hs3 h)|exact (Hs2 h)]. }
  destruct (same_nodes_world keccak256 U keys s1 s5 _ Hs5 Hok1 HW1) as [Hok5 HW5].
  exists s5. split_and!; [|done|done|].
  - unfold add_initial_state. cbv zeta. fold b.
    erewrite (stm_bind_Ok _ _ _ InMemoryTries.new None) by done. cbv beta iota. rewrite (stm_bind_Ok _ _ _ _ _ Hrun1). erewrite stm_bind_Ok.
    2: { unfold lift. rewrite bool_decide_true; [by rewrite andb_false_r|]. symmetry. apply genesis_root. }
    erewrite (stm_bind_Ok _ _ _ s2 tt) by done. rewrite (stm_bind_Ok _ _ _ _ _ E3).
    erewrite (stm_bind_Ok _ _ _ s4 tt) by done. done.
  - unfold genesis_contents. fold b. cbv zeta. fold hash. rewrite <-Hc1, Hc3. done.
Qed.
End InMemory.

(** C30: [add_initial_state] on a new in-memory store succeeds in both profiles (the state
    root that [setup_genesis_state_trie] computes is the one in the genesis header), and
    then the genesis block is canonical at number 0, every account of the genesis file is
    read back with its balance, nonce, code hash and nonzero slots, other addresses have
    no account, and running it again changes nothing.  Assumed: digests of 32 bytes and
    no collision among [ns], which has the addresses and slots in question and the nodes
    of the tries on the way. *)
Theorem genesis_state_stored (P : Profile) (keccak256 : list Z → list Z) (ns : list (list Z))
    (keys : TrieHandle → list (list Z)) (g : Genesis.t) :
  (∀ x, is_array 32 (keccak256 x)) → no_collisions keccak256 ns → Bytes_encode [] ∈ ns →
  accounts_ok keccak256 (.∈ ns) keys ∅ (map_to_list (Genesis.alloc g)) → 0 <= Genesis.difficulty g < U256_MOD →
  map_Forall (λ a acc, a ∈ ns ∧ map_Forall (λ k _, k ∈ ns) (GenesisAccount.storage acc)) (Genesis.alloc g) →
  let start := add_initial_state (S:=InMemoryTries.Store) keccak256 (entries_root keccak256) (setup_genesis_state_trie keccak256) g in
  let b := Genesis.get_block keccak256 (entries_root keccak256) g in
  ∃ s, start InMemoryTries.new = (s, Ok tt) ∧ start s = (s, Ok tt) ∧
    get_block_header 0 s = (s, Ok (Some (Block.header b))) ∧
    ∀ a, a ∈ ns →
      (∃ s', get_account_info keccak256 0 a s = (s', Ok (acc_info ∘ genesis_account keccak256 <$> Genesis.alloc g !! a))) ∧
      ∀ k, k ∈ ns → ∃ s', get_storage_at keccak256 0 a k s =
        (s', Ok (Genesis.alloc g !! a ≫= λ acc, GenesisAccount.storage acc !! k ≫= nonzero)).
Proof.
  intros Hka Hn Hu Hl Hd Hin start b. apply no_collisions_free in Hn.
  destruct (add_initial_state_ok keccak256 (.∈ ns) keys g) as (s & Hrun & Hok & HW & Hc); [done..|].
  set (hash := BlockHeader.compute_block_hash keccak256 (Block.header b)).
  assert (InMemory.canonical_hashes (InMemoryTries.inner s) !! 0 = Some hash) as Hcan by (rewrite Hc; apply lookup_insert_eq).
  assert (InMemory.headers (InMemoryTries.inner s) !! hash = Some (Block.header b)) as Hh by (rewrite Hc; apply lookup_insert_eq).
  assert (get_block_header 0 s = (s, Ok (Some (Block.header b)))) as Hget.
  { cbn. unfold InMemoryTries.on_inner, InMemory.get_block_header, InMemory.read, InMemory.by_number. rewrite Hcan, Hh. by destruct s. }
  assert (get_canonical_block_hash 0 s = (s, Ok (Some hash))) as Hgetc.
  { cbn. unfold InMemoryTries.on_inner, InMemory.get_canonical_block_hash, InMemory.read. rewrite Hcan. by destruct s. }
  assert (header_root s hash (world_root keccak256 (genesis_world keccak256 (Genesis.alloc g)))) as Hr.
  { unfold header_root. cbn [contents InMemoryTries.lawful]. rewrite Hh. cbn. f_equal. apply genesis_root. }
  exists s. split_and!; [exact Hrun| |done|].
  { unfold start, add_initial_state. cbv zeta. fold b. erewrite stm_bind_Ok by exact Hget. cbv beta iota. by rewrite bool_decide_true. }
  intros a Ha. destruct (world_answers keccak256 (.∈ ns) keys s _ hash a Hka Hn Hu Hok HW Hr Ha) as [Hinfo Hslots].
  rewrite genesis_world_lookup in Hinfo, Hslots by (intros x v Hx; apply Hn; [by apply (Hin _ _ Hx)|done]). split.
  - destruct Hinfo as (s' & Hi). exists s'. unfold get_account_info. rewrite (stm_bind_Ok _ _ _ _ _ Hgetc). cbv beta iota.
    rewrite Hi. by destruct (Genesis.alloc g !! a).
  - intros k Hk. destruct (Hslots k) as (s' & Hi). exists s'. unfold get_storage_at. rewrite (stm_bind_Ok _ _ _ _ _ Hgetc). cbv beta iota.
    rewrite Hi. destruct (Genesis.alloc g !! a) as [acc|] eqn:E; [|done]. cbn [fmap option_fmap option_map mbind option_bind genesis_account acc_storage].
    rewrite genesis_slots_lookup; [done|]. intros x v Hx. apply Hn; [by apply (proj2 (Hin _ _ E) _ _ Hx)|done].
Qed.

(** ** Witness *)
Definition genesis_key : list Z := 8 :: replicate 31 4.
Definition one_account_genesis : Genesis.t :=
  let g := sample_genesis in
  Genesis.mk (Genesis.config g) {[sample_address := GenesisAccount.mk [0x60; 0x01] {[sample_slot := 5]} 77 1]}
    (Genesis.coinbase g) (Genesis.difficulty g) (Genesis.extra_data g) (Genesis.gas_limit g) (Genesis.nonce g)
    (Genesis.mix_hash g) (Genesis.timestamp g) (Genesis.base_fee_per_gas g) (Genesis.blob_gas_used g) (Genesis.excess_blob_gas g).
Definition genesis_universe : list (list Z) :=
  remove_dups ([Bytes_encode []; sample_address; sample_slot; genesis_key] ++
    nodes poly_digest (paths (state_entries poly_digest (genesis_world poly_digest (Genesis.alloc one_account_genesis)))) ++
    nodes poly_digest (paths (storage_entries (genesis_slots poly_digest {[sample_slot := 5]})))).
(** The conditions on the accounts, as a computation. *)
Fixpoint slots_check keccak256 (ns : list (list Z)) (keys : TrieHandle → list (list Z)) (h : TrieHandle) (st : gmap (list Z) Z) (l : list (list Z * Z)) : bool :=
  bool_decide (Forall (.∈ ns) (nodes keccak256 (paths (storage_entries st)))) &&
  match l with
  | [] => true
  | kv :: l => bool_decide (is_uint 256 kv.2) && bool_decide (keccak256 kv.1 ∈ keys h) && slots_check keccak256 ns keys h (genesis_slot keccak256 st kv) l
  end.
Lemma slots_check_ok keccak256 ns keys h l : ∀ st, slots_check keccak256 ns keys h st l = true → slots_ok keccak256 (.∈ ns) keys h st l.
Proof.
  induction l as [|kv l IH]; intros st Hc; cbn [slots_check slots_ok] in *; apply andb_true_iff in Hc as [Hc Hr];
    apply bool_decide_eq_true in Hc; (split; [by apply covered_list|]); [done|].
  apply andb_true_iff in Hr as [[H1 H2]%andb_true_iff Hr]. apply bool_decide_eq_true in H1, H2. split_and!; [done..|by apply IH].
Qed.
Lemma one_account_ok : accounts_ok poly_digest (.∈ genesis_universe) sample_state_keys ∅ (map_to_list (Genesis.alloc one_account_genesis)).
Proof.
  change (map_to_list (Genesis.alloc one_account_genesis)) with [(sample_address, GenesisAccount.mk [0x60; 0x01] {[sample_slot := 5]} 77 1)].
  refine (conj _ (conj _ (conj _ (conj _ (conj _ (conj _ (conj _ I))))))).
  - apply covered_list. by_decide.
  - by_decide.
  - by_decide.
  - by_decide.
  - by_decide.
  - apply slots_check_ok. by vm_compute.
  - apply covered_list. by_decide.
Qed.
Lemma genesis_state_stored_witness :
  let start := add_initial_state (H0:=dev_profile) (S:=InMemoryTries.Store) poly_digest (entries_root poly_digest)
    (setup_genesis_state_trie (H:=dev_profile) poly_digest) one_account_genesis in
  ∃ s s' s'', start InMemoryTries.new = (s, Ok tt) ∧
    get_account_info (H:=dev_profile) poly_digest 0 sample_address s = (s', Ok (Some (AccountInfo.mk (poly_digest [0x60; 0x01]) 77 1))) ∧
    get_storage_at (H:=dev_profile) poly_digest 0 sample_address sample_slot s = (s'', Ok (Some 5)).
Proof.
  destruct (genesis_state_stored dev_profile poly_digest genesis_universe sample_state_keys one_account_genesis) as (s & Hrun & _ & _ & Hread).
  - exact poly_digest_array.
  - apply no_collisions_NoDup. by_decide.
  - by_decide.
  - exact one_account_ok.
  - done.
  - by_decide.
  - destruct (Hread sample_address ltac:(by_decide)) as [(s' & Hi) Hs]. destruct (Hs sample_slot ltac:(by_decide)) as (s'' & Hv).
    exists s, s', s''. exact (conj Hrun (conj Hi Hv)).
Defined.
