(* ===== verification/Blockchain.v ===== *)
(** * Block import, transaction pool and payload building

    Model of [crates/blockchain] and of the block execution loop of
    [crates/evm/evm.rs].  The store is any engine of [Store].  What runs on revm or
    on the tries is an argument: the execution of one transaction, the beacon root
    call, the withdrawals, the state transitions and [apply_account_updates], which
    [StateTries] defines. *)

From S2P Require Import Prelude Rlp RlpLaws U256 Exponential Vm.
From S2P Require Import Codec CoreTypes CoreLaws Consensus Genesis Effects Store.

(** ** constants.rs *)
Definition TX_GAS_COST : Z := 21000.
Definition TX_CREATE_GAS_COST : Z := 53000.
Definition TX_DATA_ZERO_GAS_COST : Z := 4.
Definition TX_INIT_CODE_WORD_GAS_COST : Z := 2.
Definition TX_ACCESS_LIST_ADDRESS_GAS : Z := 2400.
Definition TX_ACCESS_LIST_STORAGE_KEY_GAS : Z := 1900.
Definition TX_DATA_NON_ZERO_GAS : Z := 68.
Definition MAX_CODE_SIZE : Z := 0x6000.
Definition MAX_INITCODE_SIZE : Z := 2 * MAX_CODE_SIZE.
Definition TX_DATA_NON_ZERO_GAS_EIP2028 : Z := 16.
Definition GAS_PER_BLOB : Z := 2 ^ 17.
Definition TARGET_BLOB_GAS_PER_BLOCK : Z := 393216.
Definition TARGET_BLOB_NUMBER_PER_BLOCK : Z := 3.
Definition MAX_BLOB_NUMBER_PER_BLOCK : Z := 2 * TARGET_BLOB_NUMBER_PER_BLOCK.
Definition MAX_BLOB_GAS_PER_BLOCK : Z := MAX_BLOB_NUMBER_PER_BLOCK * GAS_PER_BLOB.
Definition GAS_LIMIT_BOUND_DIVISOR : Z := 1024.
Definition MIN_GAS_LIMIT : Z := 5000.

(** ** error.rs *)
Inductive EvmError :=
  | EvmTransaction (msg : string)
  | EvmHeader (msg : string)
  | EvmDB (err : StoreError)
  | EvmCustom (msg : string)
  | EvmPrecompile (msg : string).
Inductive InvalidBlockError :=
  | StateRootMismatch
  | InvalidHeader
  | ExceededMaxBlobGasPerBlock
  | ExceededMaxBlobNumberPerBlock
  | GasUsedMismatch
  | BlobGasUsedMismatch.
Inductive ChainError :=
  | InvalidBlock (err : InvalidBlockError)
  | ParentNotFound
  | NonCanonicalParent
  | ChainStoreError (err : StoreError)
  | ChainEvmError (err : EvmError).
Inductive MempoolError :=
  | NoBlockHeaderError
  | MempoolStoreError (err : StoreError)
  | TxMaxInitCodeSizeError
  | TxGasLimitExceededError
  | TxGasOverflowError
  | TxTipAboveFeeCapError
  | TxIntrinsicGasCostAboveLimitError
  | TxBlobBaseFeeTooLowError.

(** [payload.header.state_root = root]. *)
Definition set_state_root (root : list Z) (h : BlockHeader.t) : BlockHeader.t :=
  BlockHeader.mk (BlockHeader.parent_hash h) (BlockHeader.ommers_hash h) (BlockHeader.coinbase h) root
    (BlockHeader.transactions_root h) (BlockHeader.receipts_root h) (BlockHeader.logs_bloom h)
    (BlockHeader.difficulty h) (BlockHeader.number h) (BlockHeader.gas_limit h) (BlockHeader.gas_used h)
    (BlockHeader.timestamp h) (BlockHeader.extra_data h) (BlockHeader.prev_randao h) (BlockHeader.nonce h)
    (BlockHeader.base_fee_per_gas h) (BlockHeader.withdrawals_root h) (BlockHeader.blob_gas_used h)
    (BlockHeader.excess_blob_gas h) (BlockHeader.parent_beacon_block_root h).

(** ** evm/execution_result.rs *)
Inductive SuccessReason := Stop | Return | SelfDestruct | EofReturnContract.
Inductive Output := OutputCall (b : list Z) | OutputCreate (b : list Z) (address : option (list Z)).
Module ExecutionResult.
Inductive t :=
  | Success (reason : SuccessReason) (gas_used gas_refunded : Z) (logs : list CoreTypes.Log.t) (output : Output)
  | Revert (gas_used : Z) (output : list Z)
  | Halt (reason : string) (gas_used : Z).
Definition is_success (self : t) : bool := match self with Success _ _ _ _ _ => true | _ => false end.
Definition gas_used (self : t) : Z :=
  match self with
  | Success _ gas_used _ _ _ => gas_used
  | Revert gas_used _ => gas_used
  | Halt _ gas_used => gas_used
  end.
Definition logs (self : t) : list CoreTypes.Log.t :=
  match self with Success _ _ _ logs _ => logs | _ => [] end.
End ExecutionResult.

Inductive SpecId := CANCUN | SHANGHAI | MERGE.
#[global] Instance SpecId_eq_dec : EqDecision SpecId.
Proof. solve_decision. Defined.

(** ** evm/evm.rs: executing a block *)
Section Execution.
Context `{Profile} {S : Type} `{StoreEngine S}.

Definition spec_id (block_timestamp : Z) : stm S StoreError SpecId :=
  chain_config ← get_chain_config;
  mret match ChainConfig.get_fork chain_config block_timestamp with
       | ChainConfig.Cancun => CANCUN
       | ChainConfig.Shanghai => SHANGHAI
       | ChainConfig.Paris => MERGE
       end.

(** [EvmState], and what revm does with it. *)
Variable EvmState : Type.
Variable accrue : list Z → list Z → list Z.
Variable execute_tx : Transaction.t → BlockHeader.t → SpecId → EvmState →
  stm S EvmError (ExecutionResult.t * EvmState).
Variable beacon_root_contract_call : BlockHeader.t → SpecId → EvmState → stm S EvmError EvmState.
Variable process_withdrawals : list Withdrawal.t → EvmState → stm S StoreError EvmState.

(** The loop over the transactions. *)
Fixpoint execute_transactions (transactions : list Transaction.t) (block_header : BlockHeader.t)
    (spec_id : SpecId) (receipts : list Receipt.t) (cumulative_gas_used : Z) (state : EvmState)
    : stm S EvmError (list Receipt.t * EvmState) :=
  match transactions with
  | [] => mret (receipts, state)
  | transaction :: transactions =>
    '(result, state) ← execute_tx transaction block_header spec_id state;
    cumulative_gas_used ← lift (uadd cumulative_gas_used (ExecutionResult.gas_used result));
    let receipt := Receipt.new accrue (Transaction.tx_type transaction)
      (ExecutionResult.is_success result) cumulative_gas_used (ExecutionResult.logs result) in
    execute_transactions transactions block_header spec_id (receipts ++ [receipt])
      cumulative_gas_used state
  end.

Definition execute_block (block : Block.t) (state : EvmState)
    : stm S EvmError (list Receipt.t * EvmState) :=
  let block_header := Block.header block in
  spec_id ← stm_map_err EvmDB (spec_id (BlockHeader.timestamp block_header));
  state ← (if bool_decide (is_Some (BlockHeader.parent_beacon_block_root block_header)) &&
              bool_decide (spec_id = CANCUN)
           then beacon_root_contract_call block_header spec_id state else mret state);
  '(receipts, state) ← execute_transactions (BlockBody.transactions (Block.body block)) block_header
    spec_id [] 0 state;
  state ← match BlockBody.withdrawals (Block.body block) with
          | Some withdrawals => stm_map_err EvmDB (process_withdrawals withdrawals state)
          | None => mret state
          end;
  mret (receipts, state).
End Execution.

(** ** blockchain.rs *)
Section BlockImport.
Context `{Profile} {S : Type} `{StoreEngine S}.
Variable keccak256 : list Z → list Z.

Definition validate_parent_canonical (block : Block.t) : stm S ChainError unit :=
  let header := Block.header block in
  hash ← stm_map_err ChainStoreError
    (get_canonical_block_hash (Z.max 0 (BlockHeader.number header - 1)));
  match hash with
  | Some hash =>
    if bool_decide (hash = BlockHeader.parent_hash header) then mret tt else lift (Err NonCanonicalParent)
  | None => lift (Err NonCanonicalParent)
  end.

Definition store_block (block : Block.t) : stm S ChainError unit :=
  stm_map_err ChainStoreError (Store.add_block keccak256 block).

Definition store_receipts (receipts : list Receipt.t) (block_hash : list Z) : stm S ChainError unit :=
  for_each (λ '(index, receipt),
    stm_map_err ChainStoreError (add_receipt block_hash (Z.of_nat index) receipt)) (imap pair receipts).

Definition validate_state_root (block_header : BlockHeader.t) (new_state_root : list Z)
    : res ChainError unit :=
  if bool_decide (new_state_root = BlockHeader.state_root block_header) then Ok tt
  else Err (InvalidBlock StateRootMismatch).

Definition latest_valid_hash : stm S ChainError (list Z) :=
  latest_block_number ← stm_map_err ChainStoreError get_latest_block_number;
  let not_found := lift (Err (ChainStoreError (StoreCustom "Could not find latest valid hash"))) in
  match latest_block_number with
  | Some latest_block_number =>
    latest_valid_header ← stm_map_err ChainStoreError (get_block_header latest_block_number);
    match latest_valid_header with
    | Some latest_valid_header => mret (BlockHeader.compute_block_hash keccak256 latest_valid_header)
    | None => not_found
    end
  | None => not_found
  end.

Definition find_parent_header (block_header : BlockHeader.t) : stm S ChainError BlockHeader.t :=
  let parent_hash := BlockHeader.parent_hash block_header in
  parent_number ← stm_map_err ChainStoreError (get_block_number parent_hash);
  match parent_number with
  | Some parent_number =>
    parent_header ← stm_map_err ChainStoreError (get_block_header parent_number);
    match parent_header with
    | Some parent_header => mret parent_header
    | None => lift (Err ParentNotFound)
    end
  | None => lift (Err ParentNotFound)
  end.

Definition get_total_blob_gas (tx : EIP4844Transaction.t) : res ChainError Z :=
  umul GAS_PER_BLOB (zlen (EIP4844Transaction.blob_versioned_hashes tx)).

(** The loop of [verify_blob_gas_usage]. *)
Fixpoint blob_usage (transactions : list Transaction.t) (blob_gas_used blobs_in_block : Z)
    : res ChainError (Z * Z) :=
  match transactions with
  | [] => Ok (blob_gas_used, blobs_in_block)
  | Transaction.EIP4844Transaction tx :: transactions =>
    g ← get_total_blob_gas tx;
    blob_gas_used ← uadd blob_gas_used g;
    blobs_in_block ← uadd blobs_in_block (zlen (EIP4844Transaction.blob_versioned_hashes tx));
    blob_usage transactions blob_gas_used blobs_in_block
  | _ :: transactions => blob_usage transactions blob_gas_used blobs_in_block
  end.

Definition verify_blob_gas_usage (block : Block.t) : res ChainError unit :=
  '(blob_gas_used, blobs_in_block) ← blob_usage (BlockBody.transactions (Block.body block)) 0 0;
  if MAX_BLOB_GAS_PER_BLOCK <? blob_gas_used then Err (InvalidBlock ExceededMaxBlobGasPerBlock)
  else if MAX_BLOB_NUMBER_PER_BLOCK <? blobs_in_block then
    Err (InvalidBlock ExceededMaxBlobNumberPerBlock)
  else match BlockHeader.blob_gas_used (Block.header block) with
  | Some header_blob_gas_used =>
    if negb (header_blob_gas_used =? blob_gas_used) then Err (InvalidBlock BlobGasUsedMismatch) else Ok tt
  | None => Ok tt
  end.

Definition validate_block (block : Block.t) (parent_header : BlockHeader.t) : stm S ChainError unit :=
  spec ← stm_unwrap (spec_id (BlockHeader.timestamp (Block.header block)));
  valid_header ← lift (no_err (validate_block_header keccak256 (Block.header block) parent_header));
  valid_header ←
    match spec with
    | CANCUN =>
      if valid_header : bool
      then lift (no_err (validate_cancun_header_fields (Block.header block) parent_header))
      else mret false
    | _ => mret (valid_header && validate_no_cancun_header_fields (Block.header block))
    end;
  if negb valid_header then lift (Err (InvalidBlock InvalidHeader))
  else if bool_decide (spec = CANCUN) then lift (verify_blob_gas_usage block)
  else mret tt.

Definition validate_gas_used (receipts : list Receipt.t) (block_header : BlockHeader.t)
    : res ChainError unit :=
  match last receipts with
  | Some last =>
    if negb (Receipt.cumulative_gas_used last =? BlockHeader.gas_used block_header)
    then Err (InvalidBlock GasUsedMismatch) else Ok tt
  | None => Ok tt
  end.

(** What revm and the tries do. *)
Variables EvmState AccountUpdate : Type.
Variable evm_state : list Z → EvmState.
Variable accrue : list Z → list Z → list Z.
Variable execute_tx : Transaction.t → BlockHeader.t → SpecId → EvmState →
  stm S EvmError (ExecutionResult.t * EvmState).
Variable beacon_root_contract_call : BlockHeader.t → SpecId → EvmState → stm S EvmError EvmState.
Variable process_withdrawals : list Withdrawal.t → EvmState → stm S StoreError EvmState.
Variable get_state_transitions : EvmState → list AccountUpdate.
Variable apply_account_updates : list Z → list AccountUpdate → stm S StoreError (option (list Z)).

Definition add_block (block : Block.t) : stm S ChainError unit :=
  let header := Block.header block in
  _ ← validate_parent_canonical block;
  parent_header ← find_parent_header header;
  let state := evm_state (BlockHeader.parent_hash header) in
  _ ← validate_block block parent_header;
  '(receipts, state) ← stm_map_err ChainEvmError
    (execute_block EvmState accrue execute_tx beacon_root_contract_call process_withdrawals block state);
  _ ← lift (validate_gas_used receipts header);
  let account_updates := get_state_transitions state in
  new_state_root ← stm_map_err ChainStoreError
    (apply_account_updates (BlockHeader.parent_hash header) account_updates);
  let new_state_root := default (replicate 32 0) new_state_root in
  _ ← lift (validate_state_root header new_state_root);
  let block_hash := BlockHeader.compute_block_hash keccak256 header in
  _ ← store_block block;
  store_receipts receipts block_hash.
End BlockImport.

(** ** mempool.rs *)
Section Mempool.
Context `{Profile} {S : Type} `{StoreEngine S}.
Variable keccak256 : list Z → list Z.

Definition checked_add (a b : Z) : res MempoolError Z :=
  if a + b <? 2 ^ 64 then Ok (a + b) else Err TxGasOverflowError.

Definition transaction_intrinsic_gas (tx : Transaction.t) (header : BlockHeader.t)
    (config : ChainConfig.t) : res MempoolError Z :=
  let is_contract_creation := Transaction.is_contract_creation tx in
  let gas := if is_contract_creation then TX_CREATE_GAS_COST else TX_GAS_COST in
  let data_len := zlen (Transaction.data tx) in
  gas ← (if 0 <? data_len then
    let non_zero_gas_cost :=
      if ChainConfig.is_istanbul_activated config (BlockHeader.number header)
      then TX_DATA_NON_ZERO_GAS_EIP2028 else TX_DATA_NON_ZERO_GAS in
    let non_zero_count := zlen (filter (λ x, x ≠ 0) (Transaction.data tx)) in
    c ← umul non_zero_count non_zero_gas_cost;
    gas ← checked_add gas c;
    zero_count ← usub data_len non_zero_count;
    c ← umul zero_count TX_DATA_ZERO_GAS_COST;
    gas ← checked_add gas c;
    if is_contract_creation &&
       ChainConfig.is_shanghai_activated config (BlockHeader.timestamp header) then
      let len_in_words := Z.min (data_len + 31) (2 ^ 64 - 1) / 32 in
      c ← umul len_in_words TX_INIT_CODE_WORD_GAS_COST;
      checked_add gas c
    else Ok gas
  else Ok gas);
  storage_keys_count ←
    foldl (λ acc '(_, keys), acc ← acc; uadd acc (zlen keys)) (Ok 0) (Transaction.access_list tx);
  c ← umul (zlen (Transaction.access_list tx)) TX_ACCESS_LIST_ADDRESS_GAS;
  gas ← checked_add gas c;
  c ← umul storage_keys_count TX_ACCESS_LIST_STORAGE_KEY_GAS;
  checked_add gas c.

Definition validate_transaction (tx : Transaction.t) : stm S MempoolError unit :=
  header_no ← stm_map_err MempoolStoreError get_latest_block_number;
  header_no ← lift (ok_or NoBlockHeaderError header_no);
  header ← stm_map_err MempoolStoreError (get_block_header header_no);
  header ← lift (ok_or NoBlockHeaderError header);
  config ← stm_map_err MempoolStoreError get_chain_config;
  if ChainConfig.is_shanghai_activated config (BlockHeader.timestamp header) &&
     Transaction.is_contract_creation tx && (MAX_INITCODE_SIZE <? zlen (Transaction.data tx))
  then lift (Err TxMaxInitCodeSizeError)
  else if BlockHeader.gas_limit header <? Transaction.gas_limit tx
  then lift (Err TxGasLimitExceededError)
  else if default 0 (Transaction.max_fee_per_gas tx) <? default 0 (Transaction.max_priority_fee tx)
  then lift (Err TxTipAboveFeeCapError)
  else
    intrinsic ← lift (transaction_intrinsic_gas tx header config);
    if Transaction.gas_limit tx <? intrinsic then lift (Err TxIntrinsicGasCostAboveLimitError)
    else match Transaction.max_fee_per_blob_gas tx with
    | Some fee =>
      if fee <? MIN_BASE_FEE_PER_BLOB_GAS then lift (Err TxBlobBaseFeeTooLowError) else mret tt
    | None => mret tt
    end.

Definition add_transaction (transaction : Transaction.t) : stm S MempoolError (list Z) :=
  _ ← validate_transaction transaction;
  let hash := Transaction.compute_hash keccak256 transaction in
  _ ← stm_map_err MempoolStoreError (add_transaction_to_pool hash transaction);
  mret hash.

Definition get_transaction (hash : list Z) : stm S MempoolError (option Transaction.t) :=
  stm_map_err MempoolStoreError (get_transaction_from_pool hash).
End Mempool.

(** ** payload.rs *)
Module BuildPayloadArgs.
Record t := mk {
  parent : list Z; timestamp : Z; fee_recipient : Address; random : list Z;
  withdrawals : list Withdrawal.t; beacon_root : option (list Z); version : Z
}.
(** [res[0] = self.version] on the first 8 bytes of the hash. *)
Definition id (keccak256 : list Z → list Z) (self : t) : pres Z :=
  let hashed := keccak256 (parent self ++ to_be 8 (timestamp self) ++ random self ++
    fee_recipient self ++ vec_encode Withdrawal.encode (withdrawals self) ++
    default [] (beacon_root self)) in
  res ← slice_to hashed 8;
  Ok (of_be (<[0%nat := version self]> res)).
End BuildPayloadArgs.

Section Payload.
Context `{Profile} {S : Type} `{StoreEngine S}.
Variable keccak256 : list Z → list Z.
Variable trie_root : list (list Z * list Z) → list Z.

Definition calc_gas_limit (parent_gas_limit desired_limit : Z) : pres Z :=
  delta ← usub (parent_gas_limit / GAS_LIMIT_BOUND_DIVISOR) 1;
  let limit := parent_gas_limit in
  let desired_limit := Z.min desired_limit MIN_GAS_LIMIT in
  if limit <? desired_limit then
    limit ← uadd parent_gas_limit delta;
    if desired_limit <? limit then Ok desired_limit else Ok limit
  else if desired_limit <? limit then
    limit ← usub parent_gas_limit delta;
    if limit <? desired_limit then Ok desired_limit else Ok limit
  else Ok limit.

Definition calc_excess_blob_gas (parent_excess_blob_gas parent_blob_gas_used : Z) : pres Z :=
  excess_blob_gas ← uadd parent_excess_blob_gas parent_blob_gas_used;
  if excess_blob_gas <? TARGET_BLOB_GAS_PER_BLOCK then Ok 0
  else usub excess_blob_gas TARGET_BLOB_GAS_PER_BLOCK.

Definition DEFAULT_BUILDER_GAS_CEIL : Z := 30000000.

(** The header of the new payload, before its state root is set; the argument of
    [then_some] is evaluated on both branches. *)
Definition payload_header (args : BuildPayloadArgs.t) (parent_block : BlockHeader.t)
    (chain_config : ChainConfig.t) : pres BlockHeader.t :=
  gas_limit ← calc_gas_limit (BlockHeader.gas_limit parent_block) DEFAULT_BUILDER_GAS_CEIL;
  base_fee_per_gas ← calculate_base_fee_per_gas gas_limit (BlockHeader.gas_limit parent_block)
    (BlockHeader.gas_used parent_block) (default 0 (BlockHeader.base_fee_per_gas parent_block));
  excess_blob_gas ← calc_excess_blob_gas (default 0 (BlockHeader.excess_blob_gas parent_block))
    (default 0 (BlockHeader.blob_gas_used parent_block));
  Ok (BlockHeader.mk
    (BuildPayloadArgs.parent args)
    DEFAULT_OMMERS_HASH
    (BuildPayloadArgs.fee_recipient args)
    (BlockHeader.state_root parent_block)
    (compute_transactions_root trie_root [])
    (compute_receipts_root trie_root [])
    (replicate 256 0)
    0
    (Z.min (BlockHeader.number parent_block + 1) (2 ^ 64 - 1))
    gas_limit
    0
    (BuildPayloadArgs.timestamp args)
    []
    (BuildPayloadArgs.random args)
    0
    base_fee_per_gas
    (if ChainConfig.is_shanghai_activated chain_config (BuildPayloadArgs.timestamp args)
     then Some (compute_withdrawals_root trie_root (BuildPayloadArgs.withdrawals args)) else None)
    (Some 0)
    (if ChainConfig.is_cancun_activated chain_config (BuildPayloadArgs.timestamp args)
     then Some excess_blob_gas else None)
    (BuildPayloadArgs.beacon_root args)).

(** What revm and the tries do. *)
Variables EvmState AccountUpdate : Type.
Variable evm_state : list Z → EvmState.
Variable beacon_root_contract_call : BlockHeader.t → SpecId → EvmState → stm S EvmError EvmState.
Variable process_withdrawals : list Withdrawal.t → EvmState → stm S StoreError EvmState.
Variable get_state_transitions : EvmState → list AccountUpdate.
Variable apply_account_updates : list Z → list AccountUpdate → stm S StoreError (option (list Z)).

Definition build_payload (args : BuildPayloadArgs.t) : stm S ChainError Block.t :=
  parent_block ← stm_map_err ChainStoreError (get_block_header_by_hash (BuildPayloadArgs.parent args));
  parent_block ← lift (ok_or ParentNotFound parent_block);
  chain_config ← stm_map_err ChainStoreError get_chain_config;
  header ← lift (no_err (payload_header args parent_block chain_config));
  let body := BlockBody.mk [] [] (Some (BuildPayloadArgs.withdrawals args)) in
  spec_id ← stm_map_err ChainStoreError (spec_id (BuildPayloadArgs.timestamp args));
  let evm_state := evm_state (BuildPayloadArgs.parent args) in
  evm_state ← (if bool_decide (is_Some (BuildPayloadArgs.beacon_root args)) && bool_decide (spec_id = CANCUN)
               then stm_map_err ChainEvmError (beacon_root_contract_call header spec_id evm_state)
               else mret evm_state);
  evm_state ← stm_map_err ChainStoreError
    (process_withdrawals (BuildPayloadArgs.withdrawals args) evm_state);
  let account_updates := get_state_transitions evm_state in
  state_root ← stm_map_err ChainStoreError
    (apply_account_updates (BuildPayloadArgs.parent args) account_updates);
  mret (Block.mk (set_state_root (default (replicate 32 0) state_root) header) body).

(** Sum of the tips, weighted with the gas of each transaction; [None] when a tip
    or a receipt is missing. *)
Fixpoint block_value_loop (base_fee_per_gas : option Z) (number : Z) (index : nat)
    (transactions : list Transaction.t) (total_fee last_cummulative_gas_used : Z)
    : stm S StoreError (option Z) :=
  match transactions with
  | [] => mret (Some total_fee)
  | tx :: transactions =>
    match Transaction.effective_gas_tip tx base_fee_per_gas with
    | None => mret None
    | Some fee => λ s,
      match get_receipt number (Z.of_nat index) s with
      | (s, Ok (Some receipt)) =>
        (d ← lift (usub (Receipt.cumulative_gas_used receipt) last_cummulative_gas_used);
         total_fee ← lift (u256_add total_fee (fee * d));
         block_value_loop base_fee_per_gas number (Datatypes.S index) transactions total_fee
           (Receipt.cumulative_gas_used receipt)) s
      | (s, Ok None) => (s, Ok None)
      | (s, Err _) => (s, Ok None)
      | (s, Panic) => (s, Panic)
      | (s, OutOfFuel) => (s, OutOfFuel)
      end
    end
  end.
Definition payload_block_value (block : Block.t) : stm S StoreError (option Z) :=
  block_value_loop (BlockHeader.base_fee_per_gas (Block.header block))
    (BlockHeader.number (Block.header block)) 0 (BlockBody.transactions (Block.body block)) 0 0.
End Payload.
