(* ===== verification/PayloadLaws.v ===== *)
(** * Transaction pool and payload building: laws

    The intrinsic gas is the formula of the yellow paper; the pool holds only
    transactions that passed its checks; a payload built on a parent passes the
    validation of its header. *)

From S2P Require Import Prelude Rlp RlpLaws U256 Exponential Vm.
From S2P Require Import Codec CoreTypes CoreLaws Consensus Genesis Effects Store StoreLaws Blockchain.

(** ** Payloads *)

Lemma calc_gas_limit_spec `{Profile} parent desired :
  1024 <= parent < 2 ^ 64 → MIN_GAS_LIMIT <= desired →
  calc_gas_limit parent desired =
  Ok (if parent <? 5000 then Z.min (parent + (parent / 1024 - 1)) 5000
      else Z.max (parent - (parent / 1024 - 1)) 5000).
Proof.
  intros Hp Hd. unfold calc_gas_limit, GAS_LIMIT_BOUND_DIVISOR, MIN_GAS_LIMIT in *.
  assert (1 <= parent / 1024 <= parent / 2) as Hq by divlia.
  assert (parent / 2 < parent) by divlia.
  rewrite usub_ok, bind_Ok_l by lia. rewrite Z.min_r by lia. cbv zeta.
  destruct (parent <? 5000) eqn:Hlt; bool_prop.
  - rewrite uadd_ok, bind_Ok_l by lia. case_match; bool_prop; f_equal; lia.
  - destruct (5000 <? parent) eqn:Hgt; bool_prop.
    + rewrite usub_ok, bind_Ok_l by lia. case_match; bool_prop; f_equal; lia.
    + f_equal. lia.
Qed.

(** The gas limit of a payload passes the check against the parent. *)
Lemma calc_gas_limit_ok parent :
  5000 <= parent → gas_limit_ok (Z.max (parent - (parent / 1024 - 1)) 5000) parent = true.
Proof.
  intros Hp. unfold gas_limit_ok. assert (4 <= parent / 1024 <= parent) by divlia. by decide_bools.
Qed.

(** Both computations of the excess blob gas give the same value. *)
Lemma excess_blob_gas_spec `{Profile} parent :
  wf_header parent →
  default 0 (BlockHeader.excess_blob_gas parent) + default 0 (BlockHeader.blob_gas_used parent) < 2 ^ 64 →
  let excess := Z.max 0 (default 0 (BlockHeader.excess_blob_gas parent) +
                         default 0 (BlockHeader.blob_gas_used parent) - 393216) in
  Blockchain.calc_excess_blob_gas (default 0 (BlockHeader.excess_blob_gas parent))
    (default 0 (BlockHeader.blob_gas_used parent)) = Ok excess ∧
  Consensus.calc_excess_blob_gas parent = Ok excess.
Proof.
  intros Hw Hb excess. unfold Blockchain.calc_excess_blob_gas, Consensus.calc_excess_blob_gas.
  assert (0 <= default 0 (BlockHeader.excess_blob_gas parent) ∧
          0 <= default 0 (BlockHeader.blob_gas_used parent)) as [He Hu].
  { unfold wf_header, is_uint in Hw. destruct_and! Hw.
    destruct (BlockHeader.excess_blob_gas parent), (BlockHeader.blob_gas_used parent); cbn in *; lia. }
  unfold TARGET_BLOB_GAS_PER_BLOCK. rewrite uadd_ok, !bind_Ok_l by lia. subst excess.
  set (x := _ + _) in *. assert (0 <= x) by lia.
  destruct (x <? 393216) eqn:Hx; bool_prop; [|rewrite usub_ok by lia]; (split; f_equal; lia).
Qed.

(** Payload building.  On a parent with a gas limit of at least 5000, a base fee,
    a later timestamp and no overflow in sight, [build_payload] makes a header that
    [validate_block_header] accepts, whatever state root is put in.  With Cancun
    active it also passes the Cancun checks exactly when a beacon root is given;
    before Cancun it never passes the checks of that fork, because it always carries
    a [blob_gas_used].  The gas limit never rises and falls towards 5000. *)
Theorem payload_header_valid (P : Profile) (keccak256 : list Z → list Z)
    (trie_root : list (list Z * list Z) → list Z) (args : BuildPayloadArgs.t)
    (parent : BlockHeader.t) (config : ChainConfig.t) (fee : Z) (root : list Z) :
  wf_header parent → 5000 <= BlockHeader.gas_limit parent →
  BlockHeader.gas_limit parent + BlockHeader.gas_limit parent / 1024 < 2 ^ 64 →
  BlockHeader.gas_used parent <= BlockHeader.gas_limit parent →
  BlockHeader.base_fee_per_gas parent = Some fee →
  fee * BlockHeader.gas_limit parent + fee + 1 < 2 ^ 64 →
  default 0 (BlockHeader.excess_blob_gas parent) + default 0 (BlockHeader.blob_gas_used parent) < 2 ^ 64 →
  BlockHeader.number parent < 2 ^ 64 - 1 →
  BuildPayloadArgs.parent args = BlockHeader.compute_block_hash keccak256 parent →
  BlockHeader.timestamp parent < BuildPayloadArgs.timestamp args →
  ∃ h, payload_header trie_root args parent config = Ok h ∧
    validate_block_header keccak256 (set_state_root root h) parent = Ok true ∧
    (if ChainConfig.is_cancun_activated config (BuildPayloadArgs.timestamp args)
     then validate_cancun_header_fields (set_state_root root h) parent =
          Ok (bool_decide (is_Some (BuildPayloadArgs.beacon_root args)))
     else validate_no_cancun_header_fields (set_state_root root h) = false) ∧
    5000 <= BlockHeader.gas_limit h <= BlockHeader.gas_limit parent.
Proof.
  intros Hw Hmin Hlim Hused Hfee Hprod Hblob Hnum Hpar Htime.
  pose proof Hw as Hw'. unfold wf_header, is_uint in Hw'. destruct_and! Hw'.
  destruct (excess_blob_gas_spec parent Hw Hblob) as [Hx1 Hx2]. cbv zeta in *.
  assert (0 <= fee) by (rewrite Hfee in *; cbn in *; lia).
  set (limit := Z.max (BlockHeader.gas_limit parent - (BlockHeader.gas_limit parent / 1024 - 1)) 5000).
  assert (calc_gas_limit (BlockHeader.gas_limit parent) DEFAULT_BUILDER_GAS_CEIL = Ok limit) as Hg.
  { rewrite calc_gas_limit_spec by (unfold DEFAULT_BUILDER_GAS_CEIL, MIN_GAS_LIMIT; lia). by decide_bools. }
  assert (calculate_base_fee_per_gas limit (BlockHeader.gas_limit parent) (BlockHeader.gas_used parent) fee =
    Ok (Some (eip1559_base_fee (BlockHeader.gas_limit parent) (BlockHeader.gas_used parent) fee))) as Hb.
  { rewrite base_fee_computes by (unfold is_uint; lia). unfold limit. by rewrite calc_gas_limit_ok by lia. }
  assert (4 <= BlockHeader.gas_limit parent / 1024 <= BlockHeader.gas_limit parent) by divlia.
  eexists. split; [|split; [|split]].
  - unfold payload_header. rewrite Hg, bind_Ok_l, Hfee. cbn [from_option id]. rewrite Hb, bind_Ok_l, Hx1, bind_Ok_l.
    reflexivity.
  - unfold validate_block_header. cbn -[DEFAULT_OMMERS_HASH calculate_base_fee_per_gas uadd].
    decide_bools. rewrite Hfee. cbn [from_option id]. rewrite Hb, bind_Ok_l. cbn [from_option id].
    decide_bools. rewrite uadd_ok, bind_Ok_l by lia. decide_bools.
    by rewrite bool_decide_true, Hpar, bool_decide_true.
  - unfold validate_cancun_header_fields, validate_no_cancun_header_fields.
    cbn -[Consensus.calc_excess_blob_gas]. case_match; [|done].
    rewrite Hx2, bind_Ok_l. by decide_bools.
  - cbn. lia.
Qed.

(** ** Intrinsic gas *)
Definition zero_bytes (l : list Z) : Z := zlen (filter (λ x, x = 0) l).
Definition storage_keys (l : AccessList) : Z := foldr (λ e n, zlen e.2 + n) 0 l.

(** [g_0] of the yellow paper, with EIP-2028, EIP-2930 and EIP-3860. *)
Definition intrinsic_gas (tx : Transaction.t) (istanbul shanghai : bool) : Z :=
  let data := Transaction.data tx in
  let create := Transaction.is_contract_creation tx in
  (if create then 53000 else 21000) +
  4 * zero_bytes data + (if istanbul then 16 else 68) * (zlen data - zero_bytes data) +
  (if create && shanghai then 2 * ((zlen data + 31) / 32) else 0) +
  2400 * zlen (Transaction.access_list tx) + 1900 * storage_keys (Transaction.access_list tx).

Lemma filter_complement l : zlen (filter (λ x, x ≠ 0) l) = zlen l - zero_bytes l.
Proof.
  unfold zero_bytes. induction l as [|x l IH]; [done|].
  rewrite !filter_cons. repeat case_decide; try tauto; rewrite ?zlen_cons; lia.
Qed.
Lemma zero_bytes_range l : 0 <= zero_bytes l <= zlen l.
Proof.
  pose proof (filter_complement l). pose proof (zlen_nonneg (filter (λ x, x ≠ 0) l)).
  pose proof (zlen_nonneg (filter (λ x, x = 0) l)). unfold zero_bytes in *. lia.
Qed.
Lemma storage_keys_nonneg l : 0 <= storage_keys l.
Proof.
  unfold storage_keys. induction l as [|[a k] l IH]; cbn [foldr snd]; [done|].
  pose proof (zlen_nonneg k). lia.
Qed.

Lemma count_keys `{Profile} l : ∀ acc,
  0 <= acc → acc + storage_keys l < 2 ^ 64 →
  foldl (λ acc '(_, keys), acc ← acc; uadd (E:=MempoolError) acc (zlen keys)) (Ok acc) l =
  Ok (acc + storage_keys l).
Proof.
  induction l as [|[a k] l IH]; intros acc Ha Hb; cbn [foldl storage_keys foldr] in *;
    [by rewrite Z.add_0_r|].
  change (foldr _ 0 l) with (storage_keys l) in *. cbn [snd] in *.
  pose proof (zlen_nonneg k). pose proof (storage_keys_nonneg l).
  rewrite bind_Ok_l, uadd_ok, IH by lia. f_equal. lia.
Qed.

Lemma checked_add_ok a b : a + b < 2 ^ 64 → checked_add a b = Ok (a + b).
Proof. intros. unfold checked_add. by decide_bools. Qed.

(** For a transaction whose data, access list and storage keys are not absurdly
    long, the intrinsic gas is computed without an overflow, in both build profiles,
    and is [g_0] of the yellow paper. *)
Theorem intrinsic_gas_correct (P : Profile) (tx : Transaction.t) (header : BlockHeader.t)
    (config : ChainConfig.t) :
  zlen (Transaction.data tx) < 2 ^ 50 → zlen (Transaction.access_list tx) < 2 ^ 50 →
  storage_keys (Transaction.access_list tx) < 2 ^ 50 →
  transaction_intrinsic_gas tx header config =
  Ok (intrinsic_gas tx (ChainConfig.is_istanbul_activated config (BlockHeader.number header))
        (ChainConfig.is_shanghai_activated config (BlockHeader.timestamp header))).
Proof.
  intros Hd Ha Hk. unfold transaction_intrinsic_gas, intrinsic_gas.
  unfold TX_CREATE_GAS_COST, TX_GAS_COST, TX_DATA_NON_ZERO_GAS, TX_DATA_NON_ZERO_GAS_EIP2028,
    TX_DATA_ZERO_GAS_COST, TX_INIT_CODE_WORD_GAS_COST, TX_ACCESS_LIST_ADDRESS_GAS,
    TX_ACCESS_LIST_STORAGE_KEY_GAS. cbv zeta.
  rewrite filter_complement, count_keys by lia. rewrite Z.add_0_l.
  pose proof (zero_bytes_range (Transaction.data tx)) as Hz.
  pose proof (storage_keys_nonneg (Transaction.access_list tx)).
  pose proof (zlen_nonneg (Transaction.access_list tx)).
  set (data := Transaction.data tx) in *. set (al := Transaction.access_list tx) in *.
  set (create := Transaction.is_contract_creation tx) in *.
  set (istanbul := ChainConfig.is_istanbul_activated _ _). set (shanghai := ChainConfig.is_shanghai_activated _ _).
  set (g0 := if create then 53000 else 21000).
  assert (21000 <= g0 <= 53000) by (unfold g0; case_match; lia).
  set (c := if istanbul then 16 else 68). assert (16 <= c <= 68) by (unfold c; case_match; lia).
  assert (0 <= (zlen data + 31) / 32 <= zlen data + 31) by divlia. clearbody g0 c.
  assert (0 <= (zlen data - zero_bytes data) * c <= 68 * (2 ^ 50)) as Hc by nia.
  match goal with |- ?m ≫= _ = _ =>
    assert (m = Ok (g0 + 4 * zero_bytes data + c * (zlen data - zero_bytes data) +
      (if create && shanghai then 2 * ((zlen data + 31) / 32) else 0))) as -> end.
  { destruct (0 <? zlen data) eqn:Hl; bool_prop.
    - rewrite (umul_ok (zlen data - zero_bytes data)), bind_Ok_l, checked_add_ok, bind_Ok_l by lia.
      rewrite usub_ok, bind_Ok_l, (umul_ok (zlen data - (zlen data - zero_bytes data))), bind_Ok_l,
        checked_add_ok, bind_Ok_l by lia.
      destruct (create && shanghai).
      + rewrite Z.min_l, umul_ok, bind_Ok_l, checked_add_ok by lia. f_equal. ring.
      + f_equal. ring.
    - assert (zlen data = 0) as Hl0 by lia. rewrite Hl0. f_equal.
      assert (zero_bytes data = 0) as -> by lia. case_match; [change ((0 + 31) / 32) with 0|]; lia. }
  assert (0 <= (if create && shanghai then 2 * ((zlen data + 31) / 32) else 0) <= 2 * (zlen data + 31))
    by (case_match; lia).
  rewrite !bind_Ok_l, (umul_ok (zlen al)), bind_Ok_l, checked_add_ok, bind_Ok_l by lia.
  rewrite (umul_ok (storage_keys al)), bind_Ok_l, checked_add_ok by lia.
  f_equal. ring.
Qed.

(** ** The pool *)
Section Pool.
Context `{Profile} (keccak256 : list Z → list Z).

Lemma add_transaction_simulates {S} `{LawfulEngine S} tx :
  simulates contents (add_transaction (S:=S) keccak256 tx)
    (add_transaction (S:=InMemory.StoreInner) keccak256 tx).
Proof. unfold add_transaction, validate_transaction. simulate. Qed.

(** What an accepted transaction satisfies. *)
Definition admissible (tx : Transaction.t) (header : BlockHeader.t) (config : ChainConfig.t) : Prop :=
  (ChainConfig.is_shanghai_activated config (BlockHeader.timestamp header) = true →
   Transaction.is_contract_creation tx = true → zlen (Transaction.data tx) <= 49152) ∧
  Transaction.gas_limit tx <= BlockHeader.gas_limit header ∧
  default 0 (Transaction.max_priority_fee tx) <= default 0 (Transaction.max_fee_per_gas tx) ∧
  (∃ g, transaction_intrinsic_gas tx header config = Ok g ∧ g <= Transaction.gas_limit tx) ∧
  (∀ fee, Transaction.max_fee_per_blob_gas tx = Some fee → 1 <= fee).

Lemma validate_transaction_reads tx (c : InMemory.StoreInner) : (validate_transaction tx c).1 = c.
Proof.
  unfold validate_transaction, mbind, stm_mbind, mret, stm_mret, lift, stm_map_err, ok_or.
  cbn. repeat (case_match; simplify_eq); try done.
Qed.

(** The header and the configuration the checks are made against. *)
Definition pool_context (c : InMemory.StoreInner) (header : BlockHeader.t) (config : ChainConfig.t) : Prop :=
  InMemory.latest_block_number (InMemory.chain_data c) ≫= InMemory.by_number c (InMemory.headers c) =
    Some header ∧
  InMemory.chain_config (InMemory.chain_data c) = Some config.

(** With a head and a configuration, the outcome depends on the transaction alone. *)
Lemma validate_transaction_context tx (c : InMemory.StoreInner) header config :
  pool_context c header config →
  validate_transaction (S:=InMemory.StoreInner) tx c =
  (if ChainConfig.is_shanghai_activated config (BlockHeader.timestamp header) &&
      Transaction.is_contract_creation tx && (MAX_INITCODE_SIZE <? zlen (Transaction.data tx))
   then lift (Err TxMaxInitCodeSizeError)
   else if BlockHeader.gas_limit header <? Transaction.gas_limit tx
   then lift (Err TxGasLimitExceededError)
   else if default 0 (Transaction.max_fee_per_gas tx) <? default 0 (Transaction.max_priority_fee tx)
   then lift (Err TxTipAboveFeeCapError)
   else
     intrinsic ← lift (transaction_intrinsic_gas tx header config);
     if Transaction.gas_limit tx <? intrinsic then lift (Err TxIntrinsicGasCostAboveLimitError)
     else match Transaction.max_fee_per_blob_gas tx with
     | Some fee =>
       if fee <? MIN_BASE_FEE_PER_BLOB_GAS then lift (Err TxBlobBaseFeeTooLowError) else mret tt
     | None => mret tt
     end) c.
Proof.
  intros [Hh Hc]. destruct (InMemory.latest_block_number (InMemory.chain_data c)) as [n|] eqn:Hn; [|done].
  cbn in Hh. unfold validate_transaction.
  erewrite stm_bind_Ok by (cbn; rewrite Hn; reflexivity). cbn [ok_or].
  erewrite stm_bind_Ok by reflexivity.
  erewrite stm_bind_Ok by (cbn; rewrite Hh; reflexivity). cbn [ok_or].
  erewrite stm_bind_Ok by reflexivity.
  by erewrite stm_bind_Ok by (cbn; unfold InMemory.get_chain_config; rewrite Hc; reflexivity).
Qed.

Lemma validate_transaction_needs tx (c c' : InMemory.StoreInner) :
  validate_transaction tx c = (c', Ok tt) → ∃ header config, pool_context c header config.
Proof.
  intros Hv.
  apply stm_bind_inv in Hv as (? & n & Hn & Hv). apply stm_bind_inv in Hv as (? & n' & Hn' & Hv).
  apply stm_bind_inv in Hv as (? & h & Hh & Hv). apply stm_bind_inv in Hv as (? & h' & Hh' & Hv).
  apply stm_bind_inv in Hv as (? & cfg & Hcfg & Hv).
  cbn in Hn, Hh, Hcfg. unfold lift, InMemory.get_chain_config, stm_map_err in *.
  destruct n, h; simplify_eq/=. destruct (InMemory.chain_config _) eqn:Hc; simplify_eq/=.
  exists h', cfg. split; [|done]. by simplify_option_eq.
Qed.

(** The checks decide [admissible]. *)
Lemma validate_transaction_admits tx (c : InMemory.StoreInner) header config :
  pool_context c header config →
  validate_transaction tx c = (c, Ok tt) ↔ admissible tx header config.
Proof.
  intros Hctx. rewrite (validate_transaction_context _ _ _ _ Hctx). unfold admissible.
  change MAX_INITCODE_SIZE with 49152. change MIN_BASE_FEE_PER_BLOB_GAS with 1.
  unfold mbind, stm_mbind, lift, mret, stm_mret.
  destruct (_ && _ && _) eqn:Hinit.
  { apply andb_true_iff in Hinit as [[Hs Hc]%andb_true_iff Hd%Z.ltb_lt]. split; [done|].
    intros (Hi & _). specialize (Hi Hs Hc). lia. }
  assert (ChainConfig.is_shanghai_activated config (BlockHeader.timestamp header) = true →
    Transaction.is_contract_creation tx = true → zlen (Transaction.data tx) <= 49152) as Hi.
  { intros Hs Hc. rewrite Hs, Hc in Hinit. cbn in Hinit. bool_prop. lia. }
  destruct (_ <? Transaction.gas_limit tx) eqn:Hg; bool_prop; [split; [done|naive_solver lia]|].
  destruct (_ <? default 0 (Transaction.max_priority_fee tx)) eqn:Hf; bool_prop;
    [split; [done|naive_solver lia]|].
  destruct (transaction_intrinsic_gas tx header config) as [g| | |]; cbn; [|split; naive_solver..].
  destruct (Transaction.gas_limit tx <? g) eqn:Hl; bool_prop; [split; [done|naive_solver lia]|].
  destruct (Transaction.max_fee_per_blob_gas tx) as [fee|]; [|naive_solver lia].
  destruct (fee <? 1) eqn:Hb; bool_prop; [|naive_solver lia].
  split; [done|]. intros (_ & _ & _ & _ & Hfee). specialize (Hfee fee eq_refl). lia.
Qed.

Lemma validate_transaction_iff tx (c : InMemory.StoreInner) :
  validate_transaction tx c = (c, Ok tt) ↔
  ∃ header config, pool_context c header config ∧ admissible tx header config.
Proof.
  split.
  - intros Hv. destruct (validate_transaction_needs _ _ _ Hv) as (header & config & Hctx).
    exists header, config. by rewrite <-validate_transaction_admits.
  - intros (header & config & Hctx & Ha). by rewrite validate_transaction_admits.
Qed.

Lemma add_transaction_cases tx (c : InMemory.StoreInner) :
  add_transaction keccak256 tx c =
  let hash := Transaction.compute_hash keccak256 tx in
  match validate_transaction tx c with
  | (c, Ok _) => (InMemory.put_transaction_pool (<[hash := tx]> (InMemory.transaction_pool c)) c, Ok hash)
  | (c, Err e) => (c, Err e)
  | (c, Panic) => (c, Panic)
  | (c, OutOfFuel) => (c, OutOfFuel)
  end.
Proof.
  unfold add_transaction, mbind, stm_mbind. by destruct (validate_transaction tx c) as [c' [[]| | |]].
Qed.

Lemma pool_lookup {S} `{LawfulEngine S} h (s : S) :
  (get_transaction h s).2 = Ok (InMemory.transaction_pool (contents s) !! h).
Proof.
  assert (simulates contents (get_transaction (S:=S) h)
    (get_transaction (S:=InMemory.StoreInner) h)) as Hs by (unfold get_transaction; simulate).
  specialize (Hs s). cbn in Hs. by simplify_eq.
Qed.
End Pool.

(** C38: the transaction pool, on every engine that keeps its promise.  A transaction
    enters exactly when there is a head and a configuration and it is [admissible]
    with respect to them; then its hash is returned and looks it up again, and the
    rest of the pool is kept.  Otherwise the store is left as it was. *)
Theorem pool_admission (P : Profile) (S : Type) (E : StoreEngine S) (L : LawfulEngine S)
    (keccak256 : list Z → list Z) (tx : Transaction.t) (s s' : S) (r : res MempoolError (list Z)) :
  add_transaction keccak256 tx s = (s', r) →
  let hash := Transaction.compute_hash keccak256 tx in
  ((∃ h, r = Ok h) ↔
   ∃ header config, pool_context (contents s) header config ∧ admissible tx header config) ∧
  (∀ h, r = Ok h →
     h = hash ∧
     contents s' = InMemory.put_transaction_pool
       (<[hash := tx]> (InMemory.transaction_pool (contents s))) (contents s) ∧
     (get_transaction hash s').2 = Ok (Some tx) ∧
     ∀ h', h' ≠ hash → (get_transaction h' s').2 = (get_transaction h' s).2) ∧
  ((∀ h, r ≠ Ok h) → contents s' = contents s).
Proof.
  intros Hadd hash.
  apply (simulates_eq _ _ _ _ _ (add_transaction_simulates keccak256 tx)) in Hadd.
  rewrite add_transaction_cases in Hadd. fold hash in Hadd.
  pose proof (validate_transaction_reads tx (contents s)) as Hr.
  destruct (validate_transaction tx (contents s)) as [c v] eqn:Hv. cbn in Hr, Hadd. subst c.
  split_and!.
  - rewrite <-validate_transaction_iff, Hv. destruct v as [[]| | |]; cbn in Hadd; simplify_eq; naive_solver.
  - intros h ->. destruct v as [[]| | |]; cbn in Hadd; simplify_eq/=.
    split_and!; [done|done|..].
    + rewrite pool_lookup. rewrite <-H. cbn. by rewrite lookup_insert_eq.
    + intros h' Hne. rewrite !pool_lookup, <-H. cbn. by rewrite lookup_insert_ne.
  - intros Hno. destruct v as [[]| | |]; cbn in Hadd; simplify_eq/=; naive_solver.
Qed.

(** ** Witnesses *)
Definition sample_store : InMemory.StoreInner :=
  InMemory.put_canonical_hashes
    {[ 42 := BlockHeader.compute_block_hash toy_hash sample_child ]}
    (InMemory.put_chain_data (InMemory.put_chain_config (Some (sample_config (Some 0) (Some 0)))
        (InMemory.chain_data (with_block toy_hash sample_block InMemory.new)))
      (with_block toy_hash sample_block InMemory.new)).
Definition sample_transfer : Transaction.t :=
  Transaction.LegacyTransaction (LegacyTransaction.mk 3 7 25000 (TxKind.Call sample_address) 5 [1; 0; 2] 27 1 1).
Definition sample_args : BuildPayloadArgs.t :=
  BuildPayloadArgs.mk (BlockHeader.compute_block_hash toy_hash sample_child)
    (BlockHeader.timestamp sample_child + 12) sample_address (replicate 32 7) []
    (Some (replicate 32 9)) 3.

Lemma intrinsic_gas_correct_witness :
  transaction_intrinsic_gas (H:=dev_profile) sample_transfer sample_child (sample_config (Some 0) (Some 0)) =
  Ok 21036.
Proof.
  rewrite (intrinsic_gas_correct dev_profile sample_transfer sample_child (sample_config (Some 0) (Some 0)));
    reflexivity.
Defined.

Lemma pool_admission_witness :
  let run := add_transaction (H:=dev_profile) toy_hash sample_transfer sample_store in
  (get_transaction (Transaction.compute_hash toy_hash sample_transfer) run.1).2 = Ok (Some sample_transfer).
Proof.
  set (run := add_transaction _ _ _).
  assert (run.2 = Ok (Transaction.compute_hash toy_hash sample_transfer)) as Hr by (vm_compute; reflexivity).
  apply (proj1 (proj2 (pool_admission dev_profile InMemory.StoreInner InMemory.engine in_memory_lawful
    toy_hash sample_transfer sample_store run.1 run.2 (surjective_pairing run)))
    (Transaction.compute_hash toy_hash sample_transfer) Hr).
Defined.

Lemma payload_header_valid_witness :
  ∃ h, payload_header (H:=dev_profile) (λ _, replicate 32 1) sample_args sample_child
         (sample_config (Some 0) (Some 0)) = Ok h ∧
    5000 <= BlockHeader.gas_limit h <= BlockHeader.gas_limit sample_child.
Proof.
  destruct (payload_header_valid dev_profile toy_hash (λ _, replicate 32 1) sample_args sample_child
    (sample_config (Some 0) (Some 0)) (default 0 (BlockHeader.base_fee_per_gas sample_child))
    (replicate 32 2)) as (h & Hh & _ & _ & Hg); [by_decide|by_decide..|].
  by exists h.
Defined.
