(* ===== verification/ImportLaws.v ===== *)
(** * Block import: laws

    What [add_block] of [crates/blockchain/blockchain.rs] guarantees about the store
    when it accepts a block and when it does not, for every engine that keeps its
    promise and every execution back end that leaves the tables of the chain alone. *)

From S2P Require Import Prelude Rlp RlpLaws U256 Exponential Vm.
From S2P Require Import Codec CoreTypes CoreLaws Consensus Genesis Effects Store StoreLaws Blockchain.

(** ** Blob usage *)
Definition blobs (tx : Transaction.t) : Z :=
  match tx with
  | Transaction.EIP4844Transaction tx => zlen (EIP4844Transaction.blob_versioned_hashes tx)
  | _ => 0
  end.
Definition total_blobs (txs : list Transaction.t) : Z := foldr (λ tx n, blobs tx + n) 0 txs.

Lemma blobs_nonneg tx : 0 <= blobs tx.
Proof. destruct tx; cbn; [lia..|apply zlen_nonneg]. Qed.
Lemma total_blobs_nonneg txs : 0 <= total_blobs txs.
Proof. induction txs as [|tx txs IH]; cbn; [done|]. pose proof (blobs_nonneg tx). fold (total_blobs txs). lia. Qed.

Lemma blob_usage_spec `{Profile} txs : ∀ n,
  0 <= n → n + total_blobs txs < 2 ^ 40 →
  blob_usage txs (131072 * n) n = Ok (131072 * (n + total_blobs txs), n + total_blobs txs).
Proof.
  induction txs as [|tx txs IH]; intros n Hn Hb; cbn [total_blobs foldr] in *.
  { cbn. by rewrite Z.add_0_r. }
  fold (total_blobs txs) in *.
  pose proof (blobs_nonneg tx). pose proof (total_blobs_nonneg txs).
  destruct tx as [t|t|t|t]; cbn [blob_usage blobs] in *;
    [rewrite Z.add_0_l in Hb; rewrite (IH n) by lia; by rewrite Z.add_0_l..|].
  unfold get_total_blob_gas, GAS_PER_BLOB. change (2 ^ 17) with 131072.
  rewrite umul_ok, bind_Ok_l, (uadd_ok (131072 * n)), bind_Ok_l, (uadd_ok n), bind_Ok_l by lia.
  rewrite <-Z.mul_add_distr_l, IH by lia. by rewrite Z.add_assoc.
Qed.

(** The blob check of a Cancun block.  A block passes exactly when it carries at
    most six blobs and its header, if it states a blob gas, states the gas of those
    blobs; the error for too many blobs is never returned, since more than six blobs
    already exceed the gas limit. *)
Theorem blob_limit_correct (P : Profile) (b : Block.t) :
  let n := total_blobs (BlockBody.transactions (Block.body b)) in
  n < 2 ^ 40 →
  (verify_blob_gas_usage b = Ok tt ↔
   n <= 6 ∧ ∀ g, BlockHeader.blob_gas_used (Block.header b) = Some g → g = 131072 * n) ∧
  verify_blob_gas_usage b ≠ Panic ∧
  verify_blob_gas_usage b ≠ Err (InvalidBlock ExceededMaxBlobNumberPerBlock).
Proof.
  intros n Hn. pose proof (total_blobs_nonneg (BlockBody.transactions (Block.body b))).
  unfold verify_blob_gas_usage.
  rewrite (blob_usage_spec (BlockBody.transactions (Block.body b)) 0) by lia. rewrite bind_Ok_l, Z.add_0_l.
  fold n. change MAX_BLOB_GAS_PER_BLOCK with 786432. change MAX_BLOB_NUMBER_PER_BLOCK with 6.
  destruct (786432 <? 131072 * n) eqn:Hg; bool_prop; [by split_and!; [naive_solver lia|..]|].
  decide_bools. destruct (BlockHeader.blob_gas_used (Block.header b)) as [g|]; [|naive_solver lia].
  destruct (g =? 131072 * n) eqn:He; bool_prop; cbn [negb]; split_and!; naive_solver lia.
Qed.

(** ** What a back end may change *)

(** Equal up to the code table, the only table that the execution of a block writes
    before the block is stored. *)
Definition same_chain (c c' : InMemory.StoreInner) : Prop :=
  InMemory.put_account_codes ∅ c = InMemory.put_account_codes ∅ c'.
#[global] Instance same_chain_equivalence : Equivalence same_chain.
Proof. split; unfold same_chain; [done|intros ??; done|intros ???; congruence]. Qed.

(** A function of the contents that does not look at the codes. *)
Lemma same_chain_ext {A} (f : InMemory.StoreInner → A) c c' :
  (∀ m c, f (InMemory.put_account_codes m c) = f c) → same_chain c c' → f c = f c'.
Proof. intros Hf Hc. rewrite <-(Hf ∅ c), Hc. apply Hf. Qed.
#[global] Instance with_block_proper keccak256 b :
  Proper (same_chain ==> same_chain) (with_block keccak256 b).
Proof.
  intros c c' Hc. unfold same_chain.
  apply (same_chain_ext (λ c, InMemory.put_account_codes ∅ (with_block keccak256 b c))); [|done].
  by intros m [].
Qed.
#[global] Instance wf_store_proper keccak256 : Proper (same_chain ==> iff) (wf_store keccak256).
Proof.
  intros c c' Hc. assert (chain_tables c = chain_tables c') as Ht
    by (by apply (same_chain_ext chain_tables)).
  split; by apply wf_store_tables.
Qed.

Section Keeps.
Context {S : Type} `{LawfulEngine S}.

(** A computation that leaves the chain alone. *)
Definition keeps {E A} (m : stm S E A) : Prop := ∀ s, same_chain (contents (m s).1) (contents s).
(** A computation that leaves the chain alone unless it succeeds. *)
Definition atomic {E A} (m : stm S E A) : Prop :=
  ∀ s, (∃ a, (m s).2 = Ok a) ∨ same_chain (contents (m s).1) (contents s).

Lemma keep_ret {E A} (a : A) : keeps (E:=E) (mret a).
Proof. by intros s. Qed.
Lemma keep_lift {E A} (r : res E A) : keeps (lift r).
Proof. by intros s. Qed.
Lemma keep_bind {E A B} (m : stm S E A) (k : A → stm S E B) :
  keeps m → (∀ a, keeps (k a)) → keeps (m ≫= k).
Proof.
  intros Hm Hk s. specialize (Hm s). unfold mbind, stm_mbind.
  destruct (m s) as [s1 [a|e| |]]; cbn in *; [|done..]. etrans; [apply Hk|done].
Qed.
Lemma keeps_map_err {E F A} (f : E → F) (m : stm S E A) : keeps m → keeps (stm_map_err f m).
Proof. intros Hm s. specialize (Hm s). unfold stm_map_err. by destruct (m s). Qed.
Lemma keeps_unwrap {E F A} (m : stm S E A) : keeps m → keeps (stm_unwrap (F:=F) m).
Proof. intros Hm s. specialize (Hm s). unfold stm_unwrap. by destruct (m s) as [? []]. Qed.
(** Reads of the engine. *)
Lemma keeps_read {E A} (m : stm S E A) m' :
  simulates contents m m' → (∀ c, (m' c).1 = c) → keeps m.
Proof. intros Hm Hr s. specialize (Hm s). specialize (Hr (contents s)). rewrite Hm in Hr. cbn in Hr. by rewrite Hr. Qed.

Lemma atomic_bind {E A B} (m : stm S E A) (k : A → stm S E B) :
  keeps m → (∀ a, atomic (k a)) → atomic (m ≫= k).
Proof.
  intros Hm Hk s. specialize (Hm s). unfold mbind, stm_mbind.
  destruct (m s) as [s1 [a|e| |]]; cbn in *; [|by right..].
  destruct (Hk a s1) as [?|Hs]; [by left|right]. by etrans.
Qed.
(** Nothing fails after the last write. *)
Lemma atomic_total {E A B} (m : stm S E A) (k : A → stm S E B) :
  atomic m → (∀ a s, ∃ b, (k a s).2 = Ok b) → atomic (m ≫= k).
Proof.
  intros Hm Hk s. specialize (Hm s). unfold mbind, stm_mbind.
  destruct (m s) as [s1 [a|e| |]]; cbn in *; [by left|destruct Hm as [[? [=]]|?]; by right..].
Qed.
Lemma keeps_Ok {E A} (m : stm S E A) s s' a :
  keeps m → m s = (s', Ok a) → same_chain (contents s') (contents s).
Proof. intros Hm Hs. specialize (Hm s). by rewrite Hs in Hm. Qed.
End Keeps.

Create HintDb keeps.
#[export] Hint Resolve keep_ret keep_lift keep_bind keeps_map_err keeps_unwrap : keeps.
(** Proves [keeps] of a client that only reads. *)
Ltac keep :=
  repeat first
    [ progress intros
    | apply keep_ret | apply keep_lift | apply keep_bind | apply keeps_map_err | apply keeps_unwrap
    | case_match | assumption
    | solve [eapply keeps_read; [eauto with engine|done]] ].

(** ** Receipts *)
Definition put_receipt (hash : list Z) (c : InMemory.StoreInner) (e : nat * Receipt.t) : InMemory.StoreInner :=
  InMemory.put_receipts
    (<[hash := <[Z.of_nat e.1 := e.2]> (default ∅ (InMemory.receipts c !! hash))]> (InMemory.receipts c)) c.
(** The contents after [store_receipts]. *)
Definition with_receipts (hash : list Z) (l : list (nat * Receipt.t)) (c : InMemory.StoreInner)
    : InMemory.StoreInner := foldl (put_receipt hash) c l.

#[global] Instance with_receipts_proper hash l : Proper (same_chain ==> same_chain) (with_receipts hash l).
Proof.
  intros c c' Hc. unfold same_chain.
  apply (same_chain_ext (λ c, InMemory.put_account_codes ∅ (with_receipts hash l c))); [|done].
  intros m. clear. induction l as [|e l IH]; intros c; [done|].
  apply (IH (put_receipt hash c e)).
Qed.

Lemma with_receipts_tables hash l : ∀ c, chain_tables (with_receipts hash l c) = chain_tables c.
Proof. induction l as [|e l IH]; intros c; [done|]. apply (IH (put_receipt hash c e)). Qed.

Lemma with_receipts_chain_data hash l : ∀ c,
  InMemory.chain_data (with_receipts hash l c) = InMemory.chain_data c.
Proof. induction l as [|e l IH]; intros c; [done|]. apply (IH (put_receipt hash c e)). Qed.

Lemma with_receipts_other hash l (i : nat) : ∀ c,
  (∀ e, e ∈ l → e.1 ≠ i) →
  InMemory.receipts (with_receipts hash l c) !! hash ≫= lookup (Z.of_nat i) =
  InMemory.receipts c !! hash ≫= lookup (Z.of_nat i).
Proof.
  induction l as [|e l IH]; intros c Hl; [done|].
  change (with_receipts hash (e :: l) c) with (with_receipts hash l (put_receipt hash c e)).
  rewrite IH by (intros e' He; apply Hl; by right).
  cbn. rewrite lookup_insert_eq. cbn. rewrite lookup_insert_ne.
  - by destruct (InMemory.receipts c !! hash).
  - intros He. apply (Hl e); [by left|lia].
Qed.

Lemma with_receipts_app hash l1 e l2 c :
  with_receipts hash (l1 ++ e :: l2) c = with_receipts hash l2 (put_receipt hash (with_receipts hash l1 c) e).
Proof. unfold with_receipts. by rewrite foldl_app. Qed.

Lemma with_receipts_lookup hash l (i : nat) r c :
  l !! i = Some r →
  InMemory.receipts (with_receipts hash (imap pair l) c) !! hash ≫= lookup (Z.of_nat i) = Some r.
Proof.
  intros Hi. assert (imap pair l !! i = Some (i, r)) as Hp by (by rewrite list_lookup_imap, Hi).
  rewrite <-(take_drop_middle _ _ _ Hp). rewrite with_receipts_app, with_receipts_other.
  - cbn. rewrite lookup_insert_eq. cbn. by rewrite lookup_insert_eq.
  - intros e [j Hj]%list_elem_of_lookup. rewrite lookup_drop, list_lookup_imap in Hj.
    destruct (l !! (Datatypes.S i + j)%nat); simplify_eq/=. lia.
Qed.

Section BlockImport.
Context `{Profile} {S : Type} `{LawfulEngine S}.
Variable keccak256 : list Z → list Z.

Lemma keeps_validate_parent b : keeps (validate_parent_canonical (S:=S) b).
Proof. unfold validate_parent_canonical. keep. Qed.
Lemma keeps_find_parent h : keeps (find_parent_header (S:=S) h).
Proof. unfold find_parent_header. keep. Qed.
Lemma keeps_spec_id t : keeps (spec_id (S:=S) t).
Proof. unfold spec_id. keep. Qed.
Lemma keeps_validate_block b p : keeps (validate_block (S:=S) keccak256 b p).
Proof. unfold validate_block. keep; apply keeps_spec_id. Qed.

(** ** The parent *)
Lemma validate_parent_Ok b (s s' : S) :
  validate_parent_canonical b s = (s', Ok tt) →
  InMemory.canonical_hashes (contents s) !! Z.max 0 (BlockHeader.number (Block.header b) - 1) =
    Some (BlockHeader.parent_hash (Block.header b)).
Proof.
  intros Hv.
  assert (simulates contents (validate_parent_canonical (S:=S) b)
    (validate_parent_canonical (S:=InMemory.StoreInner) b)) as Hs
    by (unfold validate_parent_canonical; simulate).
  apply (simulates_eq _ _ _ _ _ Hs) in Hv. unfold validate_parent_canonical in Hv.
  erewrite stm_bind_Ok in Hv by reflexivity. repeat case_match; simplify_eq/=.
  f_equal. by eapply bool_decide_eq_true_1.
Qed.

(** In a consistent store the header that is found is the header of the parent hash. *)
Lemma find_parent_Ok hdr (s s' : S) parent :
  wf_store keccak256 (contents s) →
  InMemory.canonical_hashes (contents s) !! Z.max 0 (BlockHeader.number hdr - 1) =
    Some (BlockHeader.parent_hash hdr) →
  find_parent_header hdr s = (s', Ok parent) →
  InMemory.headers (contents s) !! BlockHeader.parent_hash hdr = Some parent.
Proof.
  intros Hwf Hc Hf.
  assert (simulates contents (find_parent_header (S:=S) hdr)
    (find_parent_header (S:=InMemory.StoreInner) hdr)) as Hs by (unfold find_parent_header; simulate).
  apply (simulates_eq _ _ _ _ _ Hs) in Hf. unfold find_parent_header in Hf.
  destruct (wf_canonical _ _ Hwf _ _ Hc) as (p & Hp & Hn).
  destruct (wf_hash _ _ Hwf _ _ Hp) as (_ & Hnum & _).
  erewrite stm_bind_Ok in Hf by (cbn; rewrite Hnum; reflexivity). cbn iota in Hf.
  erewrite stm_bind_Ok in Hf
    by (cbn; unfold InMemory.by_number; rewrite Hn, Hc, Hp; reflexivity).
  unfold mret, stm_mret in Hf. by simplify_eq.
Qed.

(** ** The header *)

(** The checks that the fork of the block asks for. *)
Definition fork_checks (config : ChainConfig.t) (b : Block.t) (parent : BlockHeader.t) : Prop :=
  let hdr := Block.header b in
  validate_block_header keccak256 hdr parent = Ok true ∧
  match ChainConfig.get_fork config (BlockHeader.timestamp hdr) with
  | ChainConfig.Cancun =>
    validate_cancun_header_fields hdr parent = Ok true ∧ verify_blob_gas_usage b = Ok tt
  | _ => validate_no_cancun_header_fields hdr = true
  end.

Lemma validate_block_Ok b parent (s s' : S) :
  validate_block keccak256 b parent s = (s', Ok tt) →
  ∃ config, InMemory.chain_config (InMemory.chain_data (contents s)) = Some config ∧
    fork_checks config b parent.
Proof.
  intros Hv. apply stm_bind_inv in Hv as (s1 & spec & Hspec & Hv).
  apply stm_bind_inv in Hv as (s2 & v & Hv1 & Hv). apply stm_bind_inv in Hv as (s3 & v' & Hv2 & Hv).
  unfold lift in Hv1. injection Hv1 as <- Hv1. apply no_err_Ok in Hv1.
  assert (simulates contents (spec_id (S:=S) (BlockHeader.timestamp (Block.header b)))
    (spec_id (S:=InMemory.StoreInner) (BlockHeader.timestamp (Block.header b)))) as Hs
    by (unfold spec_id; simulate).
  unfold stm_unwrap in Hspec. destruct (spec_id _ s) as [s0 r] eqn:Hr.
  apply (simulates_eq _ _ _ _ _ Hs) in Hr. unfold spec_id, mbind, stm_mbind in Hr.
  cbn [Store.get_chain_config InMemory.engine] in Hr. unfold InMemory.get_chain_config in Hr.
  destruct (InMemory.chain_config (InMemory.chain_data (contents s))) as [config|]; cbn in Hr; [|by simplify_eq].
  exists config. split; [done|]. injection Hr as _ Hr. subst r. injection Hspec as _ <-.
  unfold fork_checks, lift in *.
  destruct (ChainConfig.get_fork config _), v; cbn in Hv2;
    try (injection Hv2 as <- Hv2); try apply no_err_Ok in Hv2; destruct v'; simplify_eq/=; auto.
Qed.

(** ** Execution *)
Variables EvmState AccountUpdate : Type.
Variable evm_state : list Z → EvmState.
Variable accrue : list Z → list Z → list Z.
Variable execute_tx : Transaction.t → BlockHeader.t → SpecId → EvmState →
  stm S EvmError (ExecutionResult.t * EvmState).
Variable beacon_root_contract_call : BlockHeader.t → SpecId → EvmState → stm S EvmError EvmState.
Variable process_withdrawals : list Withdrawal.t → EvmState → stm S StoreError EvmState.
Variable get_state_transitions : EvmState → list AccountUpdate.
Variable apply_account_updates : list Z → list AccountUpdate → stm S StoreError (option (list Z)).

(** The transactions run one after the other, each on the state the previous one left. *)
Inductive runs (hdr : BlockHeader.t) (spec : SpecId) :
    list Transaction.t → EvmState → S → list ExecutionResult.t → EvmState → S → Prop :=
  | runs_nil st s : runs hdr spec [] st s [] st s
  | runs_cons tx txs st s r st1 s1 rs st2 s2 :
    execute_tx tx hdr spec st s = (s1, Ok (r, st1)) →
    runs hdr spec txs st1 s1 rs st2 s2 →
    runs hdr spec (tx :: txs) st s (r :: rs) st2 s2.

Definition gas_of (rs : list ExecutionResult.t) : Z := foldr (λ r n, ExecutionResult.gas_used r + n) 0 rs.

(** One receipt per transaction, with the running sum of the gas. *)
Fixpoint receipts_of (txs : list Transaction.t) (rs : list ExecutionResult.t) (gas : Z) : list Receipt.t :=
  match txs, rs with
  | tx :: txs, r :: rs =>
    let gas := (gas + ExecutionResult.gas_used r) mod 2 ^ 64 in
    Receipt.new accrue (Transaction.tx_type tx) (ExecutionResult.is_success r) gas (ExecutionResult.logs r)
      :: receipts_of txs rs gas
  | _, _ => []
  end.

Lemma execute_transactions_Ok hdr spec txs : ∀ acc gas st s s' receipts st',
  execute_transactions EvmState accrue execute_tx txs hdr spec acc gas st s = (s', Ok (receipts, st')) →
  ∃ rs, runs hdr spec txs st s rs st' s' ∧ receipts = acc ++ receipts_of txs rs gas.
Proof.
  induction txs as [|tx txs IH]; intros acc gas st s s' receipts st' He; cbn [execute_transactions] in He.
  { injection He as <- <- <-. exists []. rewrite app_nil_r. split; [constructor|done]. }
  apply stm_bind_inv in He as (s1 & [r st1] & Hx & He).
  apply stm_bind_inv in He as (s2 & gas' & Hg & He). unfold lift in Hg. injection Hg as <- Hg.
  apply checked_mod in Hg as ->; [|done].
  apply IH in He as (rs & Hrs & ->). exists (r :: rs). split; [by econstructor|].
  cbn [receipts_of]. by rewrite <-app_assoc.
Qed.

Lemma runs_length hdr spec txs st s rs st' s' : runs hdr spec txs st s rs st' s' → length rs = length txs.
Proof. induction 1; cbn; congruence. Qed.

Lemma receipts_of_length txs : ∀ rs gas, length rs = length txs → length (receipts_of txs rs gas) = length txs.
Proof. induction txs as [|tx txs IH]; intros [|r rs] gas Hl; simplify_eq/=; [done|]. by rewrite IH. Qed.

Lemma receipts_of_lookup txs : ∀ rs gas i tx r,
  txs !! i = Some tx → rs !! i = Some r →
  receipts_of txs rs gas !! i = Some (Receipt.new accrue (Transaction.tx_type tx)
    (ExecutionResult.is_success r) ((gas + gas_of (take (Datatypes.S i) rs)) mod 2 ^ 64)
    (ExecutionResult.logs r)).
Proof.
  induction txs as [|x txs IH]; intros [|y rs] gas [|i] tx r Ht Hr; simplify_eq/=.
  - do 3 f_equal. lia.
  - erewrite IH by done. do 2 f_equal. rewrite Zplus_mod_idemp_l. cbn. f_equal. lia.
Qed.

Lemma last_receipt txs rs gas :
  length rs = length txs → txs ≠ [] →
  Receipt.cumulative_gas_used <$> last (receipts_of txs rs gas) = Some ((gas + gas_of rs) mod 2 ^ 64).
Proof.
  intros Hl Hne. rewrite last_lookup, receipts_of_length by done.
  destruct (lookup_lt_is_Some_2 txs (pred (length txs))) as [tx Htx]; [destruct txs; cbn; [done|lia]|].
  destruct (lookup_lt_is_Some_2 rs (pred (length txs))) as [r Hr]; [destruct txs; cbn in *; [done|lia]|].
  erewrite receipts_of_lookup by done. cbn. do 3 f_equal. f_equal. apply take_ge.
  destruct txs; cbn in *; lia.
Qed.

(** ** Storing *)
Lemma store_block_simulates b :
  simulates contents (store_block (S:=S) keccak256 b) (store_block (S:=InMemory.StoreInner) keccak256 b).
Proof. apply simulates_map_err, add_block_simulates. Qed.
Lemma store_receipts_simulates l h :
  simulates contents (store_receipts (S:=S) l h) (store_receipts (S:=InMemory.StoreInner) l h).
Proof. unfold store_receipts. simulate. Qed.

Lemma store_receipts_contents l h (s : S) :
  contents (store_receipts l h s).1 = with_receipts h (imap pair l) (contents s) ∧
  (store_receipts l h s).2 = Ok tt.
Proof.
  pose proof (store_receipts_simulates l h s) as Hs.
  assert (store_receipts l h (contents s) = (with_receipts h (imap pair l) (contents s), Ok tt)) as Hc.
  { unfold store_receipts. generalize (imap pair l) (contents s). clear.
    induction l as [|[i r] l IH]; intros c; [done|]. cbn [for_each].
    erewrite stm_bind_Ok by reflexivity. rewrite IH. done. }
  rewrite Hc in Hs. by simplify_eq.
Qed.

Lemma store_block_Ok b (s s' : S) :
  store_block keccak256 b s = (s', Ok tt) → contents s' = with_block keccak256 b (contents s).
Proof.
  intros Hs. apply (simulates_eq _ _ _ _ _ (store_block_simulates b)) in Hs.
  unfold store_block, stm_map_err in Hs. destruct (Store.add_block keccak256 b (contents s)) as [c r] eqn:Ha.
  destruct r as [[]| | |]; simplify_eq/=. by apply add_block_Ok.
Qed.

Lemma store_block_atomic b : atomic (store_block (S:=S) keccak256 b).
Proof.
  intros s. pose proof (store_block_simulates b s) as Hs.
  destruct (store_block keccak256 b s) as [s' r]. cbn in *.
  unfold store_block, stm_map_err in Hs. destruct (decide (
    default 0 (InMemory.latest_total_difficulty (InMemory.chain_data (contents s))) +
    BlockHeader.difficulty (Block.header b) < U256_MOD)) as [Hd|Hd].
  - rewrite add_block_contents in Hs by done. left. exists tt. by simplify_eq/=.
  - right. unfold Store.add_block in Hs. cbv zeta in Hs. erewrite stm_bind_Ok in Hs by reflexivity.
    unfold mbind, stm_mbind in Hs. cbn in Hs. unfold lift, u256_add in Hs.
    apply Z.ltb_nlt in Hd. rewrite Hd in Hs. injection Hs as <- _. reflexivity.
Qed.

(** ** The whole import *)
Hypothesis execute_tx_keeps : ∀ tx hdr spec st, keeps (execute_tx tx hdr spec st).
Hypothesis beacon_root_keeps : ∀ hdr spec st, keeps (beacon_root_contract_call hdr spec st).
Hypothesis withdrawals_keep : ∀ l st, keeps (process_withdrawals l st).
Hypothesis account_updates_keep : ∀ h l, keeps (apply_account_updates h l).

Lemma keeps_execute_transactions hdr spec txs : ∀ acc gas st,
  keeps (execute_transactions EvmState accrue execute_tx txs hdr spec acc gas st).
Proof using Type*. induction txs as [|tx txs IH]; intros; cbn; keep; auto. Qed.
Lemma keeps_execute_block b st :
  keeps (execute_block EvmState accrue execute_tx beacon_root_contract_call process_withdrawals b st).
Proof using Type*. unfold execute_block. keep; auto using keeps_spec_id, keeps_execute_transactions. Qed.

Lemma execute_block_Ok b st (s s' : S) receipts st' :
  execute_block EvmState accrue execute_tx beacon_root_contract_call process_withdrawals b st s =
    (s', Ok (receipts, st')) →
  ∃ spec st1 s1 rs st2 s2,
    runs (Block.header b) spec (BlockBody.transactions (Block.body b)) st1 s1 rs st2 s2 ∧
    receipts = receipts_of (BlockBody.transactions (Block.body b)) rs 0.
Proof.
  intros He. apply stm_bind_inv in He as (s1 & spec & _ & He).
  apply stm_bind_inv in He as (s2 & st2 & _ & He). apply stm_bind_inv in He as (s3 & [l st3] & Ht & He).
  apply stm_bind_inv in He as (s4 & st4 & _ & He). injection He as _ <- _.
  apply execute_transactions_Ok in Ht as (rs & Hr & ->). by exists spec, st2, s2, rs, st3, s3.
Qed.

Abbreviation import := (Blockchain.add_block keccak256 EvmState AccountUpdate evm_state accrue execute_tx
  beacon_root_contract_call process_withdrawals get_state_transitions apply_account_updates).

Lemma import_atomic b : atomic (import b).
Proof using Type*.
  unfold Blockchain.add_block.
  apply atomic_bind; [apply keeps_validate_parent|intros _].
  apply atomic_bind; [apply keeps_find_parent|intros parent].
  apply atomic_bind; [apply keeps_validate_block|intros _].
  apply atomic_bind; [apply keeps_map_err, keeps_execute_block|intros [receipts st]].
  apply atomic_bind; [apply keep_lift|intros _].
  apply atomic_bind; [apply keeps_map_err, account_updates_keep|intros root].
  apply atomic_bind; [apply keep_lift|intros _].
  apply atomic_total; [apply store_block_atomic|intros _ s].
  exists tt. apply store_receipts_contents.
Qed.

Lemma validate_gas_used_Ok txs rs hdr :
  length rs = length txs → validate_gas_used (receipts_of txs rs 0) hdr = Ok tt → txs ≠ [] →
  BlockHeader.gas_used hdr = gas_of rs mod 2 ^ 64.
Proof.
  intros Hl Hv Hne. pose proof (last_receipt txs rs 0 Hl Hne) as Hr. rewrite Z.add_0_l in Hr. unfold validate_gas_used in Hv.
  destruct (last (receipts_of txs rs 0)) as [r|]; [|done]. apply (inj Some) in Hr.
  destruct (_ =? _) eqn:He; [|done]. apply Z.eqb_eq in He. by rewrite <-He.
Qed.

(** What an accepted block satisfies, in the store it was accepted in. *)
Definition accepted (c : InMemory.StoreInner) (b : Block.t) (rs : list ExecutionResult.t) : Prop :=
  let hdr := Block.header b in
  let txs := BlockBody.transactions (Block.body b) in
  (∃ parent config,
    InMemory.canonical_hashes c !! Z.max 0 (BlockHeader.number hdr - 1) = Some (BlockHeader.parent_hash hdr) ∧
    InMemory.headers c !! BlockHeader.parent_hash hdr = Some parent ∧
    InMemory.chain_config (InMemory.chain_data c) = Some config ∧
    fork_checks config b parent) ∧
  (∃ spec st1 s1 st2 s2, runs hdr spec txs st1 s1 rs st2 s2) ∧
  (txs ≠ [] → BlockHeader.gas_used hdr = gas_of rs mod 2 ^ 64).

Lemma import_Ok b (s s' : S) :
  wf_store keccak256 (contents s) → import b s = (s', Ok tt) →
  ∃ rs, accepted (contents s) b rs ∧
    same_chain (contents s')
      (with_receipts (BlockHeader.compute_block_hash keccak256 (Block.header b))
        (imap pair (receipts_of (BlockBody.transactions (Block.body b)) rs 0))
        (with_block keccak256 b (contents s))).
Proof using Type*.
  intros Hwf Hi.
  apply stm_bind_inv in Hi as (s1 & [] & Hp & Hi).
  pose proof (keeps_Ok _ _ _ _ (keeps_validate_parent b) Hp) as H1'.
  apply validate_parent_Ok in Hp.
  apply stm_bind_inv in Hi as (s2 & parent & Hf & Hi).
  pose proof (keeps_Ok _ _ _ _ (keeps_find_parent (Block.header b)) Hf) as H2'.
  assert (wf_store keccak256 (contents s1)) as Hwf1 by (by rewrite H1').
  apply find_parent_Ok in Hf;
    [|done|by rewrite (same_chain_ext InMemory.canonical_hashes _ _ (λ _ _, eq_refl) H1')].
  rewrite (same_chain_ext InMemory.headers _ _ (λ _ _, eq_refl) H1') in Hf.
  apply stm_bind_inv in Hi as (s3 & [] & Hv & Hi).
  pose proof (keeps_Ok _ _ _ _ (keeps_validate_block b parent) Hv) as H3'.
  apply validate_block_Ok in Hv as (config & Hc & Hchk).
  rewrite (same_chain_ext InMemory.chain_data _ _ (λ _ _, eq_refl) H2') in Hc.
  rewrite (same_chain_ext InMemory.chain_data _ _ (λ _ _, eq_refl) H1') in Hc.
  apply stm_bind_inv in Hi as (s4 & [receipts st] & He & Hi).
  pose proof (keeps_Ok _ _ _ _ (keeps_map_err ChainEvmError _ (keeps_execute_block b _)) He) as H4'.
  unfold stm_map_err in He. destruct (execute_block _ _ _ _ _ b _ s3) as [s4' r4] eqn:He'.
  destruct r4; simplify_eq/=.
  apply execute_block_Ok in He' as (spec & st1 & t1 & rs & st2 & t2 & Hruns & ->).
  apply stm_bind_inv in Hi as (s5 & [] & Hg & Hi). unfold lift in Hg. injection Hg as <- Hg.
  apply stm_bind_inv in Hi as (s6 & root & Ha & Hi).
  pose proof (keeps_Ok _ _ _ _ (keeps_map_err ChainStoreError _ (account_updates_keep _ _)) Ha) as H6'.
  apply stm_bind_inv in Hi as (s7 & [] & Hroot & Hi). unfold lift in Hroot. injection Hroot as <- _.
  apply stm_bind_inv in Hi as (s8 & [] & Hst & Hi). apply store_block_Ok in Hst.
  pose proof (store_receipts_contents (receipts_of (BlockBody.transactions (Block.body b)) rs 0)
    (BlockHeader.compute_block_hash keccak256 (Block.header b)) s8) as [Hs' _].
  rewrite Hi in Hs'. cbn in Hs'. exists rs. split.
  - split_and!; [by eauto 10..|]. by apply validate_gas_used_Ok; [eapply runs_length|].
  - by rewrite Hs', Hst, H6', H4', H3', H2', H1'.
Qed.
End BlockImport.

(** C27: importing a block, on every engine that keeps its promise and every back end
    that leaves the tables of the chain alone.  An accepted block extends the parent
    that is canonical at the previous number, passes the header checks of its fork
    against it, was executed transaction by transaction, and states the gas they
    used (modulo 2^64) if it has any; then exactly its header and body are added, the
    canonical chain is left alone, it becomes the latest block, the receipt of each
    transaction is stored with the running sum of the gas, and the store stays
    consistent.  A block that is not accepted leaves all tables but the codes alone. *)
Theorem block_import (P : Profile) (S : Type) (E : StoreEngine S) (L : LawfulEngine S)
    (keccak256 : list Z → list Z) (EvmState AccountUpdate : Type) (evm_state : list Z → EvmState)
    (accrue : list Z → list Z → list Z)
    (execute_tx : Transaction.t → BlockHeader.t → SpecId → EvmState →
      stm S EvmError (ExecutionResult.t * EvmState))
    (beacon_root_contract_call : BlockHeader.t → SpecId → EvmState → stm S EvmError EvmState)
    (process_withdrawals : list Withdrawal.t → EvmState → stm S StoreError EvmState)
    (get_state_transitions : EvmState → list AccountUpdate)
    (apply_account_updates : list Z → list AccountUpdate → stm S StoreError (option (list Z)))
    (execute_tx_keeps : ∀ tx hdr spec st, keeps (execute_tx tx hdr spec st))
    (beacon_root_keeps : ∀ hdr spec st, keeps (beacon_root_contract_call hdr spec st))
    (withdrawals_keep : ∀ l st, keeps (process_withdrawals l st))
    (account_updates_keep : ∀ h l, keeps (apply_account_updates h l))
    (b : Block.t) (s s' : S) (r : res ChainError unit) :
  let hdr := Block.header b in
  let txs := BlockBody.transactions (Block.body b) in
  let hash := BlockHeader.compute_block_hash keccak256 hdr in
  wf_store keccak256 (contents s) →
  Blockchain.add_block keccak256 EvmState AccountUpdate evm_state accrue execute_tx
    beacon_root_contract_call process_withdrawals get_state_transitions apply_account_updates b s = (s', r) →
  (r = Ok tt → ∃ rs,
    accepted keccak256 EvmState execute_tx (contents s) b rs ∧
    InMemory.headers (contents s') = <[hash := hdr]> (InMemory.headers (contents s)) ∧
    InMemory.bodies (contents s') = <[hash := Block.body b]> (InMemory.bodies (contents s)) ∧
    InMemory.canonical_hashes (contents s') = InMemory.canonical_hashes (contents s) ∧
    InMemory.latest_block_number (InMemory.chain_data (contents s')) = Some (BlockHeader.number hdr) ∧
    (∀ i tx res, txs !! i = Some tx → rs !! i = Some res →
      InMemory.receipts (contents s') !! hash ≫= lookup (Z.of_nat i) =
      Some (Receipt.new accrue (Transaction.tx_type tx) (ExecutionResult.is_success res)
        (gas_of (take (Datatypes.S i) rs) mod 2 ^ 64) (ExecutionResult.logs res))) ∧
    ((∀ h, InMemory.headers (contents s) !! hash = Some h → h = hdr) → wf_store keccak256 (contents s'))) ∧
  (r ≠ Ok tt → same_chain (contents s') (contents s)).
Proof.
  intros hdr txs hash Hwf Hi. split.
  - intros ->. apply import_Ok in Hi as (rs & Hacc & Hs); [|done..]. exists rs. split; [done|].
    fold hdr txs hash in Hs. set (c := with_block keccak256 b (contents s)) in *.
    pose proof (with_receipts_tables hash (imap pair (receipts_of accrue txs rs 0)) c) as Ht.
    rewrite <-(same_chain_ext chain_tables _ _ (λ _ _, eq_refl) Hs) in Ht. injection Ht as Hh Hb _ Hc.
    split_and!; [done..| | |].
    + rewrite (same_chain_ext InMemory.chain_data _ _ (λ _ _, eq_refl) Hs).
      by rewrite with_receipts_chain_data.
    + intros i tx res Htx Hres. rewrite (same_chain_ext InMemory.receipts _ _ (λ _ _, eq_refl) Hs).
      apply with_receipts_lookup. by apply receipts_of_lookup.
    + intros Hnew. rewrite Hs. apply (wf_store_tables _ c); [apply with_receipts_tables|].
      by apply wf_store_add_block.
  - intros Hr.
    destruct (import_atomic keccak256 EvmState AccountUpdate evm_state accrue execute_tx
      beacon_root_contract_call process_withdrawals get_state_transitions apply_account_updates
      execute_tx_keeps beacon_root_keeps withdrawals_keep account_updates_keep b s) as [[[] Ha]|Hs];
      rewrite Hi in *; cbn in *; [by destruct Hr|done].
Qed.

(** ** Witnesses *)
Definition import_header : BlockHeader.t :=
  BlockHeader.mk (toy_hash (BlockHeader.encode sample_parent)) DEFAULT_OMMERS_HASH sample_address
    (replicate 32 3) (replicate 32 4) (replicate 32 5) (replicate 256 0) 0 42 30000000 42000 1700000012 []
    (replicate 32 6) 0
    (Some 1125) (Some (replicate 32 8)) (Some 0) (Some 786432) (Some (replicate 32 9)).
Definition import_block : Block.t := Block.mk import_header sample_body.
(** A store with one canonical block. *)
Definition head_store (keccak256 : list Z → list Z) (b : Block.t) (config : ChainConfig.t)
    : InMemory.StoreInner :=
  let c := with_block keccak256 b InMemory.new in
  let c := InMemory.put_chain_data (InMemory.put_chain_config (Some config) (InMemory.chain_data c)) c in
  InMemory.put_canonical_hashes (<[ BlockHeader.number (Block.header b) :=
    BlockHeader.compute_block_hash keccak256 (Block.header b) ]> (InMemory.canonical_hashes c)) c.
Lemma head_store_wf keccak256 b config : wf_store keccak256 (head_store keccak256 b config).
Proof.
  apply (wf_store_set_canonical _ _ _ (Block.header b)); [apply lookup_insert_eq|done|].
  apply (wf_store_tables _ (with_block keccak256 b InMemory.new)); [done|].
  apply wf_store_add_block; [|split]; cbn; intros ?; [by rewrite lookup_empty|..];
    intros ?; by rewrite lookup_empty.
Qed.
Definition import_store : InMemory.StoreInner :=
  head_store toy_hash (Block.mk sample_parent sample_body) (sample_config (Some 0) (Some 0)).

(** A back end whose transactions all succeed with 21000 gas. *)
Definition toy_execute (tx : Transaction.t) (hdr : BlockHeader.t) (spec : SpecId) (st : unit)
    : stm InMemory.StoreInner EvmError (ExecutionResult.t * unit) :=
  mret (ExecutionResult.Success Stop 21000 0 [] (OutputCall []), tt).

Lemma block_import_witness :
  let run := Blockchain.add_block (H:=dev_profile) toy_hash unit unit (λ _, tt) (λ b _, b) toy_execute
    (λ _ _ st, mret st) (λ _ st, mret st) (λ _, []) (λ _ _, mret (Some (replicate 32 3)))
    import_block import_store in
  InMemory.latest_block_number (InMemory.chain_data run.1) = Some 42.
Proof.
  set (run := Blockchain.add_block _ _ _ _ _ _ _ _ _ _ _ _).
  assert (run.2 = Ok tt) as Hr by (vm_compute; reflexivity).
  destruct (block_import dev_profile InMemory.StoreInner InMemory.engine in_memory_lawful toy_hash unit unit
    (λ _, tt) (λ b _, b) toy_execute (λ _ _ st, mret st) (λ _ st, mret st) (λ _, [])
    (λ _ _, mret (Some (replicate 32 3)))) with (b := import_block) (s := import_store)
    (s' := run.1) (r := run.2) as [Hok _]; try (intros; apply keep_ret).
  - apply head_store_wf.
  - apply surjective_pairing.
  - destruct (Hok Hr) as (rs & _ & _ & _ & _ & Hl & _). exact Hl.
Defined.

Lemma blob_limit_correct_witness : verify_blob_gas_usage (H:=dev_profile) import_block = Ok tt.
Proof.
  apply (blob_limit_correct dev_profile import_block); [reflexivity|].
  split; [by vm_compute|]. by intros g [= <-].
Defined.
