(* ===== verification/EvmDb.v ===== *)
(** * The database of the executor

    Model of [crates/evm/db.rs]: the state of a block in the store, as the database from
    which revm reads accounts, codes, slots and block hashes. *)

From S2P Require Import Prelude Rlp RlpLaws U256 Exponential Vm Codec Effects.
From S2P Require Import Nibble TrieNode Trie CoreTypes CoreLaws Consensus Genesis Store StateTries.

(** [revm::primitives::AccountInfo]; a [Bytecode] is revm's, made by [Bytecode::new_raw]. *)
Module RevmAccountInfo.
Record t {Bytecode : Type} := mk { balance : Z; nonce : Z; code_hash : list Z; code : option Bytecode }.
Arguments t : clear implicits.
End RevmAccountInfo.

(** The store of the wrapper is the state of the monad. *)
Module StoreWrapper.
Record t := mk { block_hash : BlockHash }.

Section Database.
Context `{Profile} {S : Type} `{StoreEngine S} `{TrieEngine S}.
Variable keccak256 : list Z → list Z.
Variable Bytecode : Type.
Variable new_raw : list Z → Bytecode.
(** [format!] of a hash and of a number. *)
Variable display_hash : list Z → string.
Variable display_number : Z → string.
Abbreviation M A := (stm S StoreError A).

Definition basic (self : t) (address : list Z) : M (option (RevmAccountInfo.t Bytecode)) :=
  acc_info ← get_account_info_by_hash keccak256 (block_hash self) address;
  match acc_info with
  | None => mret None
  | Some acc_info =>
    code ← get_account_code (AccountInfo.code_hash acc_info);
    mret (Some (RevmAccountInfo.mk _ (AccountInfo.balance acc_info) (AccountInfo.nonce acc_info)
      (AccountInfo.code_hash acc_info) (new_raw <$> code)))
  end.
Definition code_by_hash (self : t) (code_hash : list Z) : M Bytecode :=
  code ← get_account_code code_hash;
  lift (ok_or (StoreCustom ("No code for hash " +:+ display_hash code_hash)) (new_raw <$> code)).
Definition storage (self : t) (address : list Z) (index : Z) : M Z :=
  value ← get_storage_at_hash keccak256 (block_hash self) address (to_be 32 index);
  mret (default 0 value).
(** [number.to()] panics on a number above 64 bits. *)
Definition get_block_hash (self : t) (number : Z) : M (list Z) :=
  n ← lift (if number <? 2 ^ 64 then Ok number else Panic);
  header ← get_block_header n;
  lift (ok_or (StoreCustom ("Block " +:+ display_number number +:+ " not found"))
    (BlockHeader.compute_block_hash keccak256 <$> header)).
End Database.
End StoreWrapper.
