(* ===== verification/ImportState.v ===== *)
(** * The state of an imported block

    Block import ([Blockchain]) on the in-memory store with its tries ([StateTries]): the
    state transitions that the execution reports are written to the tries of the parent's
    state, and the block is accepted only with the root they give.  The states of accepted
    blocks, the new one and those before it, can be read from the store. *)

From S2P Require Import Prelude Rlp RlpLaws U256 Exponential Vm Codec Effects.
From S2P Require Import Nibble TrieNode Trie TrieSpec TrieRoot TrieLaws TrieRefine TrieCommit TrieDelete.
From S2P Require Import CoreTypes CoreLaws Consensus Genesis Store StoreLaws Blockchain ImportLaws.
From S2P Require Import StateTries StateLaws EvmDb.

(** ** Computations that only read, and that leave the nodes alone *)
Section Leaves.
Context {S : Type} (R : relation S) `{!PreOrder R}.
#[local] Set Default Proof Using "Type*".
(** Whatever comes out, the store after is related to the store before. *)
Definition leaves {E A} (m : stm S E A) : Prop := ∀ s, R s (m s).1.
Lemma leaves_ret {E A} (a : A) : leaves (E:=E) (mret a).
Proof. by intros s. Qed.
Lemma leaves_lift {E A} (r : res E A) : leaves (lift r).
Proof. by intros s. Qed.
Lemma leaves_bind {E A B} (m : stm S E A) (k : A → stm S E B) : leaves m → (∀ a, leaves (k a)) → leaves (m ≫= k).
Proof.
  intros Hm Hk s. specialize (Hm s). unfold mbind, stm_mbind.
  destruct (m s) as [s1 [a|e| |]]; cbn in *; [|done..]. etrans; [exact Hm|apply Hk].
Qed.
Lemma leaves_map_err {E F A} (f : E → F) (m : stm S E A) : leaves m → leaves (stm_map_err f m).
Proof. intros Hm s. specialize (Hm s). unfold stm_map_err. by destruct (m s). Qed.
Lemma leaves_unwrap {E F A} (m : stm S E A) : leaves m → leaves (stm_unwrap (F:=F) m).
Proof. intros Hm s. specialize (Hm s). unfold stm_unwrap. by destruct (m s) as [? []]. Qed.
Lemma leaves_Ok {E A} (m : stm S E A) s s' r : leaves m → m s = (s', r) → R s s'.
Proof. intros Hm Hs. specialize (Hm s). by rewrite Hs in Hm. Qed.
End Leaves.

(** The store looks the same after, though an address may have got an empty map of nodes. *)
Abbreviation reads := (leaves same_store).

Section Quiet.
Context {S : Type}.
Context `{TrieEngine S}.
Definition quiet {E A} (m : stm S E A) : Prop := ∀ s, same_nodes s (m s).1.
Lemma quiet_bind {E A B} (m : stm S E A) (k : A → stm S E B) : quiet m → (∀ a, quiet (k a)) → quiet (m ≫= k).
Proof.
  intros Hm Hk s h. specialize (Hm s h). unfold mbind, stm_mbind.
  destruct (m s) as [s1 [a|e| |]]; cbn in *; [by rewrite Hk|done..].
Qed.
Lemma quiet_map_err {E F A} (f : E → F) (m : stm S E A) : quiet m → quiet (stm_map_err f m).
Proof. intros Hm s. specialize (Hm s). unfold stm_map_err. by destruct (m s). Qed.
Lemma quiet_ret {E A} (a : A) : quiet (E:=E) (mret a).
Proof. by intros s. Qed.
Lemma quiet_lift {E A} (r : res E A) : quiet (lift r).
Proof. by intros s. Qed.
Lemma quiet_for_each {E A} (f : A → stm S E unit) l : (∀ a, quiet (f a)) → quiet (for_each f l).
Proof. intros Hf. induction l as [|a l IH]; [by intros s|]. apply quiet_bind; [done|by intros _]. Qed.
End Quiet.

(** ** The in-memory engine *)
Lemma leaves_inner R `{!PreOrder R} {A} (m : stm InMemory.StoreInner StoreError A) :
  (∀ c, (m c).1 = c) → leaves R (InMemoryTries.on_inner m).
Proof. intros Hm [c x y]. specialize (Hm c). unfold InMemoryTries.on_inner. cbn. destruct (m c). cbn in *. by subst. Qed.
Lemma quiet_inner {A} (m : stm InMemory.StoreInner StoreError A) : quiet (InMemoryTries.on_inner m).
Proof. intros [c x y] h. unfold InMemoryTries.on_inner. cbn. by destruct (m c), h. Qed.

Ltac leave :=
  repeat first
    [ progress intros
    | apply leaves_ret | apply leaves_lift | apply leaves_bind | apply leaves_map_err | apply leaves_unwrap
    | case_match | assumption | apply _
    | solve [apply leaves_inner; first [done | apply _]] ].

(** *** The database of the executor *)
Section Wrapper.
Context `{Profile}.
Variable keccak256 : list Z → list Z.
Abbreviation S := InMemoryTries.Store.

Lemma reads_trie_get t path : reads (trie_get (S:=S) t path).
Proof. by intros s. Qed.
Lemma reads_state_trie block_hash : reads (state_trie (S:=S) keccak256 block_hash).
Proof. unfold state_trie. leave. Qed.
Lemma reads_open_storage_trie address root : reads (open_storage_trie (S:=S) keccak256 address root).
Proof.
  intros s. split; [done|]. intros h. unfold open_storage_trie. cbn [fst].
  destruct (decide (StorageNodes address = h)) as [<-|Hne]; [apply nodes_set|by apply nodes_set_ne].
Qed.
Lemma reads_account_info block_hash address : reads (get_account_info_by_hash (S:=S) keccak256 block_hash address).
Proof. unfold get_account_info_by_hash, decode_or. leave; auto using reads_state_trie, reads_trie_get. Qed.
Lemma reads_storage_at block_hash address key : reads (get_storage_at_hash (S:=S) keccak256 block_hash address key).
Proof.
  unfold get_storage_at_hash, storage_trie, decode_or.
  leave; auto using reads_state_trie, reads_trie_get, reads_open_storage_trie.
Qed.

(** What the executor asks of the database leaves the store as it looked. *)
Lemma wrapper_reads (Bytecode : Type) (new_raw : list Z → Bytecode) display_hash display_number (self : StoreWrapper.t) :
  (∀ address, reads (StoreWrapper.basic (S:=S) keccak256 Bytecode new_raw self address)) ∧
  (∀ code_hash, reads (StoreWrapper.code_by_hash (S:=S) Bytecode new_raw display_hash self code_hash)) ∧
  (∀ address index, reads (StoreWrapper.storage (S:=S) keccak256 self address index)) ∧
  ∀ number, reads (StoreWrapper.get_block_hash (S:=S) keccak256 display_number self number).
Proof.
  split_and!; intros; unfold StoreWrapper.basic, StoreWrapper.code_by_hash, StoreWrapper.storage, StoreWrapper.get_block_hash;
    leave; auto using reads_trie_get, reads_open_storage_trie.
Qed.
End Wrapper.

Section OnTries.
Context `{Profile}.
Variable keccak256 : list Z → list Z.
Abbreviation S := InMemoryTries.Store.
Variable EvmState : Type.
Variable evm_state : list Z → EvmState.
Variable accrue : list Z → list Z → list Z.
Variable execute_tx : Transaction.t → BlockHeader.t → SpecId → EvmState → stm S EvmError (ExecutionResult.t * EvmState).
Variable beacon_root_contract_call : BlockHeader.t → SpecId → EvmState → stm S EvmError EvmState.
Variable process_withdrawals : list Withdrawal.t → EvmState → stm S StoreError EvmState.
Variable get_state_transitions : EvmState → list AccountUpdate.t.
Hypothesis execute_tx_reads : ∀ tx hdr spec st, reads (execute_tx tx hdr spec st).
Hypothesis beacon_root_reads : ∀ hdr spec st, reads (beacon_root_contract_call hdr spec st).
Hypothesis withdrawals_read : ∀ l st, reads (process_withdrawals l st).

Lemma leaves_spec_id R `{!PreOrder R} t : leaves R (spec_id (S:=S) t).
Proof. unfold spec_id. leave. Qed.
Lemma leaves_validate_parent b : leaves eq (validate_parent_canonical (S:=S) b).
Proof. unfold validate_parent_canonical. leave. Qed.
Lemma leaves_find_parent h : leaves eq (find_parent_header (S:=S) h).
Proof. unfold find_parent_header. leave. Qed.
Lemma leaves_validate_block b p : leaves eq (validate_block (S:=S) keccak256 b p).
Proof. unfold validate_block. leave; by apply leaves_spec_id. Qed.
Lemma reads_execute_transactions hdr spec txs : ∀ acc gas st,
  reads (execute_transactions EvmState accrue execute_tx txs hdr spec acc gas st).
Proof using Type*. induction txs as [|tx txs IH]; intros; cbn; leave; auto. Qed.
Lemma reads_execute_block b st :
  reads (execute_block EvmState accrue execute_tx beacon_root_contract_call process_withdrawals b st).
Proof using Type*. unfold execute_block. leave; auto using leaves_spec_id, reads_execute_transactions with typeclass_instances. Qed.

Lemma quiet_store_block b : quiet (store_block (S:=S) keccak256 b).
Proof.
  apply quiet_map_err. unfold Store.add_block, add_transaction_locations.
  repeat first [progress intros | apply quiet_bind | apply quiet_inner | apply quiet_for_each | case_match | apply quiet_ret | apply quiet_lift].
Qed.
Lemma quiet_store_receipts l hash : quiet (store_receipts (S:=S) l hash).
Proof. apply quiet_for_each. intros [i r]. apply quiet_map_err, quiet_inner. Qed.

Abbreviation import := (Blockchain.add_block keccak256 EvmState AccountUpdate.t evm_state accrue execute_tx
  beacon_root_contract_call process_withdrawals get_state_transitions (apply_account_updates keccak256)).
Abbreviation run_block b := (execute_block EvmState accrue execute_tx beacon_root_contract_call process_withdrawals b
  (evm_state (BlockHeader.parent_hash (Block.header b)))).

(** An accepted block: the transactions ran on the store as it was, the updates were
    applied to the parent's state and gave the stated root, and only tables changed after. *)
Lemma import_steps b s s' :
  import b s = (s', Ok tt) →
  ∃ receipts st s0 s1 root,
    run_block b s = (s0, Ok (receipts, st)) ∧ same_store s s0 ∧
    apply_account_updates keccak256 (BlockHeader.parent_hash (Block.header b)) (get_state_transitions st) s0 = (s1, Ok root) ∧
    BlockHeader.state_root (Block.header b) = default (replicate 32 0) root ∧
    same_nodes s1 s' ∧
    InMemory.headers (contents s') = <[BlockHeader.compute_block_hash keccak256 (Block.header b) := Block.header b]>
      (InMemory.headers (contents s1)).
Proof using Type*.
  intros Hi.
  apply stm_bind_inv in Hi as (s1 & [] & Hp & Hi). apply (leaves_Ok eq) in Hp as <-; [|apply leaves_validate_parent].
  apply stm_bind_inv in Hi as (s2 & parent & Hf & Hi). apply (leaves_Ok eq) in Hf as <-; [|apply leaves_find_parent].
  apply stm_bind_inv in Hi as (s3 & [] & Hv & Hi). apply (leaves_Ok eq) in Hv as <-; [|apply leaves_validate_block].
  apply stm_bind_inv in Hi as (s4 & [receipts st] & He & Hi).
  pose proof (leaves_Ok _ _ _ _ _ (leaves_map_err _ ChainEvmError _ (reads_execute_block b _)) He) as Hsame.
  unfold stm_map_err in He. destruct (run_block b s) as [s4' r4] eqn:He'. destruct r4; simplify_eq/=.
  apply stm_bind_inv in Hi as (s5 & [] & Hg & Hi). apply (leaves_Ok eq) in Hg as <-; [|apply leaves_lift; apply _].
  apply stm_bind_inv in Hi as (s6 & root & Ha & Hi).
  unfold stm_map_err in Ha. destruct (apply_account_updates _ _ _ s4) as [s6' r6] eqn:Ha'. destruct r6; simplify_eq/=.
  apply stm_bind_inv in Hi as (s7 & [] & Hroot & Hi). unfold lift in Hroot. injection Hroot as <- Hroot.
  apply stm_bind_inv in Hi as (s8 & [] & Hst & Hi).
  pose proof (quiet_store_block b s6) as Hq1. rewrite Hst in Hq1. cbn in Hq1.
  pose proof (quiet_store_receipts receipts (BlockHeader.compute_block_hash keccak256 (Block.header b)) s8) as Hq2.
  rewrite Hi in Hq2. cbn in Hq2. apply store_block_Ok in Hst.
  pose proof (store_receipts_contents receipts (BlockHeader.compute_block_hash keccak256 (Block.header b)) s8) as [Hs' _].
  rewrite Hi in Hs'. cbn in Hs'. exists receipts, st, s4, s6, root. split_and!; [done|done|done|..].
  - unfold validate_state_root in Hroot. by case_bool_decide.
  - intros h. by rewrite Hq2, Hq1.
  - rewrite Hs'. pose proof (with_receipts_tables (BlockHeader.compute_block_hash keccak256 (Block.header b))
      (imap pair receipts) (contents s8)) as Ht. injection Ht as Ht _ _ _.
    etrans; [exact Ht|exact (f_equal InMemory.headers Hst)].
Qed.
End OnTries.

(** C28: a block that the client accepts states the root of the parent's state after the
    updates that the execution reported, and afterwards the store answers with that
    state for the new block and with the states it had for every other block.  Assumed:
    the execution only reads the store (it may leave an empty map of nodes for an address
    that had none, as the slot reads of the database of the executor do); digests of 32 bytes, no collision among [ns],
    which has the addresses and the nodes of the tries on the way, and no keys that end
    alike. *)
Theorem imported_state (P : Profile) (keccak256 : list Z → list Z) (EvmState : Type)
    (evm_state : list Z → EvmState) (accrue : list Z → list Z → list Z)
    (execute_tx : Transaction.t → BlockHeader.t → SpecId → EvmState →
      stm InMemoryTries.Store EvmError (ExecutionResult.t * EvmState))
    (beacon_root_contract_call : BlockHeader.t → SpecId → EvmState → stm InMemoryTries.Store EvmError EvmState)
    (process_withdrawals : list Withdrawal.t → EvmState → stm InMemoryTries.Store StoreError EvmState)
    (get_state_transitions : EvmState → list AccountUpdate.t)
    (ns : list (list Z)) (keys : TrieHandle → list (list Z)) (b : Block.t) (s s' : InMemoryTries.Store) (W : world) :
  (∀ tx hdr spec st, reads (execute_tx tx hdr spec st)) →
  (∀ hdr spec st, reads (beacon_root_contract_call hdr spec st)) →
  (∀ l st, reads (process_withdrawals l st)) →
  (∀ x, is_array 32 (keccak256 x)) → no_collisions keccak256 ns → Bytes_encode [] ∈ ns →
  (∀ h, nodes_ok keccak256 (.∈ ns) keys h s) → has_world keccak256 (.∈ ns) s W →
  let hdr := Block.header b in
  let hash := BlockHeader.compute_block_hash keccak256 hdr in
  let run := execute_block EvmState accrue execute_tx beacon_root_contract_call process_withdrawals b
    (evm_state (BlockHeader.parent_hash hdr)) in
  header_root s (BlockHeader.parent_hash hdr) (world_root keccak256 W) →
  (∀ s0 receipts st, run s = (s0, Ok (receipts, st)) → updates_ok keccak256 (.∈ ns) keys W (get_state_transitions st)) →
  Blockchain.add_block keccak256 EvmState AccountUpdate.t evm_state accrue execute_tx beacon_root_contract_call
    process_withdrawals get_state_transitions (apply_account_updates keccak256) b s = (s', Ok tt) →
  ∃ s0 receipts st, run s = (s0, Ok (receipts, st)) ∧ same_store s s0 ∧
    let W' := update_worlds keccak256 W (get_state_transitions st) in
    BlockHeader.state_root hdr = world_root keccak256 W' ∧
    ∀ a, a ∈ ns → answers keccak256 s' hash W' a ∧
      ∀ block W2, block ≠ hash → has_world keccak256 (.∈ ns) s W2 →
        header_root s block (world_root keccak256 W2) → answers keccak256 s' block W2 a.
Proof.
  intros Hx Hb Hw Hka Hn Hu Hok HW hdr hash run Hr Hus Hi. apply no_collisions_free in Hn.
  apply import_steps in Hi as (receipts & st & s0 & s1 & root & Hrun & Hsame & Ha & Hroot & Hq & Hh); [|done..].
  exists s0, receipts, st. split; [done|]. split; [done|]. intros W'. specialize (Hus _ _ _ Hrun).
  destruct (same_store_world keccak256 Hka (.∈ ns) Hn Hu keys s s0 W Hsame Hok HW) as [Hok0 HW0].
  assert (header_root s0 (BlockHeader.parent_hash hdr) (world_root keccak256 W)) as Hr0
    by (unfold header_root in *; by rewrite (proj1 Hsame)).
  destruct (apply_account_updates_ok keccak256 Hka (.∈ ns) Hn Hu keys s0 W _ _ Hok0 HW0 Hr0 Hus)
    as (s2 & Hap & Hok2 & HW2 & He & Hc).
  pose proof (eq_trans (eq_sym Ha) Hap) as Heq. injection Heq as -> ->. cbn in Hroot. split; [done|].
  assert (InMemory.headers (contents s2) = InMemory.headers (contents s)) as Hh2
    by (rewrite Hc; by rewrite <-(proj1 Hsame)).
  assert (∀ V block, has_world keccak256 (.∈ ns) s2 V → header_root s' block (world_root keccak256 V) →
    ∀ a, a ∈ ns → answers keccak256 s' block V a) as Hans.
  { intros V block HV HVr a Hans. destruct (same_nodes_world keccak256 _ keys s2 s' V Hq Hok2 HV) as [Hok' HV'].
    exact (world_answers keccak256 (.∈ ns) keys s' V block a Hka Hn Hu Hok' HV' HVr Hans). }
  intros a Hna. split; [|intros block W2 Hne HW2' Hr2]; (apply Hans; [| |exact Hna]).
  - exact HW2.
  - unfold header_root. rewrite Hh. fold hdr hash. rewrite lookup_insert_eq. exact (f_equal Some Hroot).
  - eapply extends_world; [exact Hka|exact Hn|exact Hu|exact He|].
    by apply (same_store_world keccak256 Hka (.∈ ns) Hn Hu keys s s0 W2 Hsame Hok).
  - unfold header_root. rewrite Hh, Hh2. rewrite lookup_insert_ne by (intros e; apply Hne; by rewrite <-e). exact Hr2.
Qed.

(** ** Witness: a block that creates an account and sets and clears a slot *)
Definition state_parent : BlockHeader.t :=
  BlockHeader.mk (replicate 32 0) DEFAULT_OMMERS_HASH StateLaws.sample_address
    (world_root poly_digest ∅) (replicate 32 4) (replicate 32 5) (replicate 256 0) 0 41 30000000 15000000 1700000000 []
    (replicate 32 6) 0 (Some 1000) (Some (replicate 32 8)) (Some 0) (Some 0) (Some (replicate 32 9)).
Definition state_header : BlockHeader.t :=
  BlockHeader.mk (poly_digest (BlockHeader.encode state_parent)) DEFAULT_OMMERS_HASH StateLaws.sample_address
    (world_root poly_digest (update_worlds poly_digest ∅ sample_updates)) (replicate 32 4) (replicate 32 5) (replicate 256 0)
    0 42 30000000 0 1700000012 [] (replicate 32 6) 0
    (Some 1000) (Some (replicate 32 8)) (Some 0) (Some 0) (Some (replicate 32 9)).
Definition state_block : Block.t := Block.mk state_header (BlockBody.mk [] [] (Some [])).
Definition state_import_store : InMemoryTries.Store :=
  InMemoryTries.mk (head_store poly_digest (Block.mk state_parent (BlockBody.mk [] [] (Some [])))
    (sample_config (Some 0) (Some 0))) ∅ ∅.
(** A system call that reads a slot through the database of the executor, and opens the
    storage trie of an address that has no nodes. *)
Definition reading_call (hdr : BlockHeader.t) (_ : SpecId) (st : unit) : stm InMemoryTries.Store EvmError unit :=
  stm_map_err EvmDB
    (_ ← StoreWrapper.storage (H:=dev_profile) poly_digest (StoreWrapper.mk (BlockHeader.parent_hash hdr)) StateLaws.sample_address 7;
     _ ← open_storage_trie poly_digest StateLaws.sample_address (Trie.EMPTY_TRIE_HASH poly_digest);
     mret st).
Lemma reading_call_reads hdr spec st : reads (reading_call hdr spec st).
Proof.
  destruct (wrapper_reads (H:=dev_profile) poly_digest unit (λ _, tt) (λ _, "") (λ _, "")
    (StoreWrapper.mk (BlockHeader.parent_hash hdr))) as (_ & _ & Hs & _).
  apply leaves_map_err, leaves_bind; [apply _..|apply Hs|].
  intros _. apply leaves_bind; [apply _|apply reads_open_storage_trie|]. intros _. apply leaves_ret, _.
Qed.
(** It leaves the store different, but looking the same. *)
Lemma reading_call_inserts : ∃ hdr spec st s, (reading_call hdr spec st s).1 ≠ s.
Proof. exists state_header, CANCUN, tt, state_import_store. by vm_compute. Qed.
Abbreviation state_import := (Blockchain.add_block (H:=dev_profile) poly_digest unit AccountUpdate.t (λ _, tt) (λ b _, b)
    (λ _ _ _ st, mret (ExecutionResult.Success Stop 21000 0 [] (OutputCall []), st)) reading_call (λ _ st, mret st)
    (λ _, sample_updates) (apply_account_updates (H:=dev_profile) poly_digest) state_block state_import_store).
Lemma pair_of_second {A B} (x : A * B) b : x.2 = b → x = (x.1, b).
Proof. intros <-. apply surjective_pairing. Qed.

Lemma imported_state_witness :
  state_import.2 = Ok tt ∧
  answers (H:=dev_profile) poly_digest state_import.1 (BlockHeader.compute_block_hash poly_digest state_header)
    (update_worlds poly_digest ∅ sample_updates) StateLaws.sample_address.
Proof.
  assert (state_import.2 = Ok tt) as Hr by (vm_compute; reflexivity). split; [exact Hr|].
  destruct (imported_state dev_profile poly_digest unit (λ _, tt) (λ b _, b)
    (λ _ _ _ st, mret (ExecutionResult.Success Stop 21000 0 [] (OutputCall []), st)) reading_call (λ _ st, mret st)
    (λ _, sample_updates) sample_universe sample_state_keys state_block state_import_store state_import.1 ∅)
    as (s0 & receipts & st & _ & _ & _ & Ha).
  - intros. apply leaves_ret, _.
  - exact reading_call_reads.
  - intros. apply leaves_ret, _.
  - exact poly_digest_array.
  - apply no_collisions_NoDup. by_decide.
  - by_decide.
  - intros h. split; [destruct h; apply db_closed_empty|]. by destruct h; split.
  - split; [apply map_Forall_empty| | |done].
    + apply covered_list. by_decide.
    + intros Hne. destruct Hne. vm_compute. reflexivity.
  - vm_compute. reflexivity.
  - intros _ _ _ _. exact sample_updates_ok.
  - exact (pair_of_second _ _ Hr).
  - destruct (Ha StateLaws.sample_address) as [Hnew _]; [by_decide|exact Hnew].
Defined.
