(* ===== verification/SerdeUtils.v ===== *)
(** * JSON: values, and numbers and bytes as strings

    Model of [crates/core/serde_utils.rs]: the hand-written conversions between numbers,
    bytes and booleans and the strings that stand for them in JSON, with the functions of
    the standard library that they use ([from_str_radix], [trim_start_matches], [format!]).
    The parsers of [U256] and of bytes in hexadecimal are code of other crates and are
    arguments.

    What is printed is read back, with one exception: a [u128] is printed with 16 and read
    with 32 as base. *)

From Stdlib Require Import Ascii.
From stdpp Require Import pretty.
From S2P Require Import Prelude.

(** ** JSON *)

(** [serde_json::Value]; a number is kept as its text. *)
#[warnings="-register-all"]
Inductive Value :=
  | Null
  | Bool (b : bool)
  | Number (text : string)
  | VString (s : string)
  | Array (l : list Value)
  | Object (l : list (string * Value)).

(** ** Strings of the standard library *)
Fixpoint strip_prefix (p s : string) : option string :=
  match p, s with
  | EmptyString, _ => Some s
  | String.String a p, String.String b s => if bool_decide (a = b) then strip_prefix p s else None
  | _, EmptyString => None
  end.
(** [s.starts_with("0x")]. *)
Definition starts_0x (s : string) : bool := match s with String.String "0" (String.String "x" _) => true | _ => false end.
(** [s.trim_start_matches("0x")]. *)
Fixpoint trim_0x (s : string) : string :=
  match s with
  | String.String "0" (String.String "x" s') => trim_0x s'
  | _ => s
  end.
(** [char::to_digit]. *)
Definition to_digit (radix : Z) (c : ascii) : option Z :=
  let n := Z.of_N (N_of_ascii c) in
  let d := if (48 <=? n) && (n <=? 57) then n - 48
           else if (97 <=? n) && (n <=? 122) then n - 87
           else if (65 <=? n) && (n <=? 90) then n - 55
           else radix in
  if d <? radix then Some d else None.
(** The loop stops at the first character that is no digit and at the first overflow. *)
Fixpoint parse_digits (width radix : Z) (s : string) (acc : Z) : option Z :=
  match s with
  | EmptyString => Some acc
  | String.String c s =>
    d ← to_digit radix c;
    let acc := radix * acc + d in
    if acc <? 2 ^ width then parse_digits width radix s acc else None
  end.
(** [from_str_radix] of the unsigned type of the width, which takes a leading plus. *)
Definition from_str_radix (width radix : Z) (s : string) : option Z :=
  match s with
  | EmptyString => None
  | String.String "+" s' => if bool_decide (s' = EmptyString) then None else parse_digits width radix s' 0
  | _ => parse_digits width radix s 0
  end.
Abbreviation from_str_radix_16 := (from_str_radix 64 16).

(** [n.to_string()]. *)
Definition decimal (n : Z) : string := pretty (Z.to_N n).
Definition hex_digit (d : Z) : ascii := ascii_of_N (Z.to_N (if d <? 10 then 48 + d else 87 + d)).
(** [hex::encode]. *)
Fixpoint hex_encode (l : list Z) : string :=
  match l with
  | [] => EmptyString
  | b :: l => String.String (hex_digit (b / 16)) (String.String (hex_digit (b mod 16)) (hex_encode l))
  end.
(** [format!("{:x}", n)], of at most [fuel] digits; 64 are enough for every type. *)
Fixpoint hex_digits (fuel : nat) (n : Z) (acc : string) : string :=
  match fuel with
  | O => acc
  | Datatypes.S fuel =>
    let acc := String.String (hex_digit (n mod 16)) acc in
    if n <? 16 then acc else hex_digits fuel (n / 16) acc
  end.
Definition lower_hex (n : Z) : string := hex_digits 64 n EmptyString.
(** [format!("{:#x}", n)]. *)
Definition hex_prefixed (n : Z) : string := "0x" +:+ lower_hex n.
(** [format!("0x{}", hex::encode(b))], and what [Bytes] and [H256] print. *)
Definition hex_bytes (b : list Z) : string := "0x" +:+ hex_encode b.
Fixpoint zeros (n : nat) : string := match n with O => EmptyString | Datatypes.S n => String.String "0" (zeros n) end.
(** [format!("{:#018x}", n)]. *)
Definition hex_padded (n : Z) : string := let s := lower_hex n in "0x" +:+ zeros (16 - String.length s) +:+ s.

(** ** serde_utils.rs *)

(** [D::Error]: a value of another type, or a message. *)
Inductive DeError := InvalidType | Custom (msg : string).
Definition String_deserialize (v : Value) : res DeError string := match v with VString s => Ok s | _ => Err InvalidType end.
(** [Option::<String>::deserialize]. *)
Definition String_opt_deserialize (v : Value) : res DeError (option string) :=
  match v with Null => Ok None | _ => Some <$> String_deserialize v end.
Definition String_opt_serialize (o : option string) : Value := match o with Some s => VString s | None => Null end.
Definition Number_deserialize (v : Value) : res DeError string := match v with Number s => Ok s | _ => Err InvalidType end.

Module U256Serde.
Section Parsers.
(** [U256::from_dec_str], with the text of its error, and [U256::from_str_radix] at 16. *)
Variable from_dec_str : string → res string Z.
Variable from_str_radix_16 : string → option Z.

Definition parse_dec (value : string) : res DeError Z := map_err Custom (from_dec_str value).
Definition parse_hex (value : string) : res DeError Z :=
  ok_or (Custom "Failed to deserialize u256 value") (from_str_radix_16 (trim_0x value)).
Definition deser_number (d : Value) : res DeError Z := value ← Number_deserialize d; parse_dec value.
Definition deser_number_opt (d : Value) : res DeError (option Z) :=
  match d with
  | Null => Ok None
  | _ => value ← Number_deserialize d; Some <$> parse_dec value
  end.
Definition deser_dec_str (d : Value) : res DeError Z := value ← String_deserialize d; parse_dec value.
Definition deser_hex_str (d : Value) : res DeError Z := value ← String_deserialize d; parse_hex value.
Definition deser_hex_or_dec_str (d : Value) : res DeError Z :=
  value ← String_deserialize d;
  if starts_0x value then parse_hex value else parse_dec value.
End Parsers.
Definition serialize_number (value : Z) : Value := VString (decimal value).
End U256Serde.

Module U64Serde.
Definition error : DeError := Custom "Failed to deserialize u64 value".
Definition parse_hex (value : string) : res DeError Z := ok_or error (from_str_radix 64 16 (trim_0x value)).
Definition hex_str_deserialize (d : Value) : res DeError Z := value ← String_deserialize d; parse_hex value.
Definition hex_str_serialize (value : Z) : Value := VString (hex_prefixed value).
Definition hex_str_padding_deserialize (d : Value) : res DeError Z := hex_str_deserialize d.
Definition hex_str_padding_serialize (value : Z) : Value := VString (hex_padded value).
Definition hex_str_opt_serialize (value : option Z) : Value := String_opt_serialize (hex_prefixed <$> value).
Definition hex_str_opt_deserialize (d : Value) : res DeError (option Z) :=
  value ← String_opt_deserialize d;
  match value with
  | Some s => if bool_decide (s = EmptyString) then Ok None else Some <$> parse_hex s
  | None => Ok None
  end.
Definition hex_str_opt_padded_serialize (value : option Z) : Value := String_opt_serialize (hex_padded <$> value).
Definition hex_str_opt_padded_deserialize (d : Value) : res DeError (option Z) := hex_str_opt_deserialize d.
Definition parse_dec (value : string) : res DeError Z := ok_or error (from_str_radix 64 10 value).
Definition deser_dec_str (d : Value) : res DeError Z := value ← String_deserialize d; parse_dec value.
Definition deser_hex_or_dec_str (d : Value) : res DeError Z :=
  value ← String_deserialize d;
  if starts_0x value then parse_hex value else parse_dec value.
End U64Serde.

Module U128Serde.
(** The base is 32 in the source. *)
Definition hex_str_deserialize (d : Value) : res DeError Z :=
  value ← String_deserialize d;
  ok_or (Custom "Failed to deserialize u128 value") (from_str_radix 128 32 (trim_0x value)).
Definition hex_str_serialize (value : Z) : Value := VString (hex_prefixed value).
End U128Serde.

Module BytesSerde.
Section Decoder.
(** [hex::decode], with the text of its error. *)
Variable decode : string → res string (list Z).
Definition parse (value : string) : res DeError (list Z) := map_err Custom (decode (trim_0x value)).
Definition deserialize (d : Value) : res DeError (list Z) := value ← String_deserialize d; parse value.
(** [Vec::<String>::deserialize], then one item after the other. *)
Fixpoint strings (l : list Value) : res DeError (list string) :=
  match l with
  | [] => Ok []
  | v :: l => s ← String_deserialize v; rest ← strings l; Ok (s :: rest)
  end.
Fixpoint parse_all (l : list string) : res DeError (list (list Z)) :=
  match l with
  | [] => Ok []
  | s :: l => bytes ← parse s; rest ← parse_all l; Ok (bytes :: rest)
  end.
Definition vec_deserialize (d : Value) : res DeError (list (list Z)) :=
  match d with
  | Array l => value ← strings l; parse_all value
  | _ => Err InvalidType
  end.
End Decoder.
Definition serialize (value : list Z) : Value := VString (hex_bytes value).
Definition vec_serialize (value : list (list Z)) : Value := Array (map (λ encoded, VString (hex_bytes encoded)) value).
End BytesSerde.

Module BoolSerde.
Definition deserialize (d : Value) : res DeError bool :=
  value ← String_deserialize d;
  n ← ok_or (Custom "Failed to deserialize hex string to boolean value") (from_str_radix 8 16 (trim_0x value));
  Ok (negb (n =? 0)).
Definition serialize (value : bool) : Value := VString (hex_prefixed (if value then 1 else 0)).
End BoolSerde.

(** ** What is printed is read back *)

(** A digit reads back in every base from 16 on, and starts neither a prefix nor a sign. *)
Lemma hex_digit_facts d radix :
  0 <= d < 16 → 16 <= radix <= 36 →
  to_digit radix (hex_digit d) = Some d ∧ hex_digit d ≠ "x"%char ∧ hex_digit d ≠ "+"%char.
Proof.
  intros Hd Hr. unfold to_digit.
  assert (d ∈ [0; 1; 2; 3; 4; 5; 6; 7; 8; 9; 10; 11; 12; 13; 14; 15]) as Hin.
  { rewrite !elem_of_cons. lia. }
  split; [|rewrite !elem_of_cons, elem_of_nil in Hin; split; naive_solver].
  replace (Z.of_N (N_of_ascii (hex_digit d))) with (if d <? 10 then 48 + d else 87 + d)
    by (rewrite !elem_of_cons, elem_of_nil in Hin; naive_solver).
  destruct (Z.ltb_spec d 10); repeat (case_match; try lia); f_equal; lia.
Qed.
Lemma hex_digits_read fuel width n acc :
  0 <= n < 16 ^ Z.of_nat fuel → n < 2 ^ width →
  parse_digits width 16 (hex_digits fuel n acc) 0 = parse_digits width 16 acc n.
Proof.
  revert n acc. induction fuel as [|fuel IH]; intros n acc Hn Hw; [by replace n with 0 by (simpl in Hn; lia)|].
  rewrite Nat2Z.inj_succ, Z.pow_succ_r in Hn by lia. cbn [hex_digits]. pose proof (Z.mod_pos_bound n 16).
  destruct (hex_digit_facts (n mod 16) 16) as (Hd & _); [lia..|]. case_match.
  - cbn [parse_digits]. rewrite Hd. cbn [mbind option_bind]. rewrite Z.mod_small by lia.
    replace (16 * 0 + n) with n by lia. by rewrite (proj2 (Z.ltb_lt _ _)) by lia.
  - rewrite IH; [|split; [apply Z.div_pos; lia|apply Z.div_lt_upper_bound; lia]|
      eapply Z.le_lt_trans; [apply Z.div_le_upper_bound with (q := n); lia|done]].
    cbn [parse_digits]. rewrite Hd. cbn [mbind option_bind]. rewrite <-Z.div_mod by lia.
    by rewrite (proj2 (Z.ltb_lt _ _)) by lia.
Qed.

(** A printed number starts with a digit and has no prefix. *)
Fixpoint no_x (s : string) : bool :=
  match s with EmptyString => true | String.String c s => negb (bool_decide (c = "x"%char)) && no_x s end.
Lemma trim_no_x s : no_x s = true → trim_0x s = s.
Proof.
  destruct s as [|c [|d s]]; cbn; [done|by destruct c as [[] [] [] [] [] [] [] []]|].
  intros [_ [Hx%negb_true_iff%bool_decide_eq_false _]%andb_true_iff]%andb_true_iff.
  destruct c as [[] [] [] [] [] [] [] []]; try done. by destruct d as [[] [] [] [] [] [] [] []].
Qed.
Lemma hex_digits_no_x fuel n acc : 0 <= n → no_x acc = true → no_x (hex_digits fuel n acc) = true.
Proof.
  revert n acc. induction fuel as [|fuel IH]; intros n acc Hn Ha; [done|]. cbn [hex_digits]. pose proof (Z.mod_pos_bound n 16).
  destruct (hex_digit_facts (n mod 16) 16) as (_ & Hx & _); [lia..|].
  assert (no_x (String.String (hex_digit (n mod 16)) acc) = true) by (cbn [no_x]; by rewrite bool_decide_eq_false_2, Ha).
  case_match; [done|]. apply IH; [apply Z.div_pos; lia|done].
Qed.
Lemma hex_digits_head fuel n acc :
  0 <= n → ∃ d s, 0 <= d < 16 ∧ hex_digits (Datatypes.S fuel) n acc = String.String (hex_digit d) s.
Proof.
  revert n acc. induction fuel as [|fuel IH]; intros n acc Hn; pose proof (Z.mod_pos_bound n 16).
  - exists (n mod 16), acc. split; [lia|]. cbn [hex_digits]. by case_match.
  - cbn [hex_digits]. case_match; [by exists (n mod 16), acc; split; [lia|]|].
    apply (IH (n / 16)). apply Z.div_pos; lia.
Qed.
Lemma radix_digit width radix d s :
  0 <= d < 16 → from_str_radix width radix (String.String (hex_digit d) s) = parse_digits width radix (String.String (hex_digit d) s) 0.
Proof.
  intros Hd. destruct (hex_digit_facts d 16) as (_ & _ & Hp); [lia..|]. unfold from_str_radix.
  generalize dependent (hex_digit d). intros c Hp. by destruct c as [[] [] [] [] [] [] [] []].
Qed.
Lemma append_cons c s s' : String.String c s +:+ s' = String.String c (s +:+ s').
Proof. reflexivity. Qed.
Lemma trim_prefix s : trim_0x ("0x" +:+ s) = trim_0x s.
Proof. reflexivity. Qed.
Lemma lower_hex_read width n : 0 <= n < 2 ^ width → n < 16 ^ 64 → from_str_radix width 16 (trim_0x (lower_hex n)) = Some n.
Proof.
  intros Hn Hm. unfold lower_hex. rewrite trim_no_x by (by apply hex_digits_no_x; [lia|]).
  destruct (hex_digits_head 63 n EmptyString) as (d & s & Hd & He); [lia|].
  rewrite He, radix_digit by done. rewrite <-He. by rewrite hex_digits_read by lia.
Qed.
Lemma zeros_read width n s : 0 < width → parse_digits width 16 (zeros n +:+ s) 0 = parse_digits width 16 s 0.
Proof.
  intros Hw. induction n as [|n IH]; [done|]. cbn [zeros]. rewrite append_cons. cbn [parse_digits].
  change (to_digit 16 "0"%char) with (Some 0). cbn [mbind option_bind].
  by rewrite (proj2 (Z.ltb_lt _ _)) by (apply Z.pow_pos_nonneg; lia).
Qed.
Lemma no_x_app s s' : no_x (s +:+ s') = no_x s && no_x s'.
Proof. induction s as [|c s IH]; [done|]. rewrite append_cons. cbn [no_x]. by rewrite <-andb_assoc, <-IH. Qed.
Lemma no_x_zeros n : no_x (zeros n) = true.
Proof. by induction n. Qed.
Lemma padded_hex_read width n k :
  0 <= n < 2 ^ width → n < 16 ^ 64 → 0 < width → from_str_radix width 16 (trim_0x (zeros k +:+ lower_hex n)) = Some n.
Proof.
  intros Hn Hm Hw. destruct k as [|k]; [by apply lower_hex_read|].
  rewrite trim_no_x by (rewrite no_x_app, no_x_zeros; cbn [andb]; by apply hex_digits_no_x; [lia|]).
  cbn [zeros]. rewrite append_cons, (radix_digit width 16 0) by lia.
  etrans; [apply (zeros_read width (Datatypes.S k)); lia|]. unfold lower_hex. by rewrite hex_digits_read by lia.
Qed.
Lemma padded_hex_parse n : 0 <= n < 2 ^ 64 → ∃ s, strip_prefix "0x" (hex_padded n) = Some s ∧ from_str_radix_16 s = Some n.
Proof.
  intros Hn. eexists. split; [reflexivity|]. rewrite <-(padded_hex_read 64 n (16 - String.length (lower_hex n))) by lia.
  rewrite trim_no_x; [done|]. rewrite no_x_app, no_x_zeros. by apply hex_digits_no_x; [lia|].
Qed.
Lemma hex_encode_no_x l : Forall is_byte l → no_x (hex_encode l) = true.
Proof.
  induction 1 as [|b l Hb _ IH]; [done|]. cbn [hex_encode no_x].
  destruct (hex_digit_facts (b / 16) 16) as (_ & H1 & _); [unfold is_byte in Hb; split; [apply Z.div_pos|apply Z.div_lt_upper_bound]; lia|lia|].
  destruct (hex_digit_facts (b mod 16) 16) as (_ & H2 & _); [apply Z.mod_pos_bound; lia|lia|].
  by rewrite !bool_decide_eq_false_2, IH.
Qed.

(** A number that is printed with base 16 and read with a larger base [radix] grows. *)
Lemma hex_digits_grow fuel width n acc :
  0 <= n < 16 ^ Z.of_nat fuel →
  parse_digits width 32 (hex_digits fuel n acc) 0 = None ∨
  ∃ v, n <= v ∧ (16 <= n → n < v) ∧ parse_digits width 32 (hex_digits fuel n acc) 0 = parse_digits width 32 acc v.
Proof.
  revert n acc. induction fuel as [|fuel IH]; intros n acc Hn.
  { right. exists 0. replace n with 0 by (simpl in Hn; lia). split_and!; [lia..|done]. }
  rewrite Nat2Z.inj_succ, Z.pow_succ_r in Hn by lia. cbn [hex_digits]. pose proof (Z.mod_pos_bound n 16).
  destruct (hex_digit_facts (n mod 16) 32) as (Hd & _); [lia..|]. destruct (Z.ltb_spec n 16).
  - cbn [parse_digits]. rewrite Hd. cbn [mbind option_bind]. rewrite Z.mod_small by lia.
    destruct (Z.ltb_spec (32 * 0 + n) (2 ^ width)); [|by left]. right. exists (32 * 0 + n). split_and!; [lia..|done].
  - pose proof (Z.div_mod n 16). assert (1 <= n / 16) by (apply Z.div_le_lower_bound; lia).
    destruct (IH (n / 16) (String.String (hex_digit (n mod 16)) acc)) as [->|(v & Hv & _ & ->)]; [|by left|].
    { split; [lia|apply Z.div_lt_upper_bound; lia]. }
    cbn [parse_digits]. rewrite Hd. cbn [mbind option_bind].
    destruct (Z.ltb_spec (32 * v + n mod 16) (2 ^ width)); [|by left]. right. exists (32 * v + n mod 16). split_and!; [lia..|done].
Qed.

(** What the conversions print they read back: numbers of 64 bits with and without
    padding, optional numbers, booleans, byte strings and lists of byte strings (for every
    decoder that inverts [hex::encode]); a printed number is also read by the conversion
    that takes hexadecimal or decimal strings, and by the parser of block identifiers. *)
Theorem json_conversions_round_trip (decode : string → res string (list Z)) (n : Z) (o : option Z) (b : bool)
    (l : list Z) (ls : list (list Z)) :
  0 <= n < 2 ^ 64 → from_option (λ m, 0 <= m < 2 ^ 64) True o → Forall is_byte l → Forall (Forall is_byte) ls →
  (∀ l, Forall is_byte l → decode (hex_encode l) = Ok l) →
  U64Serde.hex_str_deserialize (U64Serde.hex_str_serialize n) = Ok n ∧
  U64Serde.hex_str_padding_deserialize (U64Serde.hex_str_padding_serialize n) = Ok n ∧
  U64Serde.hex_str_opt_deserialize (U64Serde.hex_str_opt_serialize o) = Ok o ∧
  U64Serde.hex_str_opt_padded_deserialize (U64Serde.hex_str_opt_padded_serialize o) = Ok o ∧
  U64Serde.deser_hex_or_dec_str (U64Serde.hex_str_serialize n) = Ok n ∧
  BoolSerde.deserialize (BoolSerde.serialize b) = Ok b ∧
  BytesSerde.deserialize decode (BytesSerde.serialize l) = Ok l ∧
  BytesSerde.vec_deserialize decode (BytesSerde.vec_serialize ls) = Ok ls ∧
  from_str_radix_16 (lower_hex n) = Some n.
Proof.
  intros Hn Ho Hl Hls Hdec.
  assert (∀ m, 0 <= m < 2 ^ 64 → U64Serde.parse_hex (hex_prefixed m) = Ok m) as Hp.
  { intros m Hm. unfold U64Serde.parse_hex, hex_prefixed. by rewrite trim_prefix, lower_hex_read by lia. }
  assert (∀ m, 0 <= m < 2 ^ 64 → U64Serde.parse_hex (hex_padded m) = Ok m) as Hq.
  { intros m Hm. unfold U64Serde.parse_hex, hex_padded. by rewrite trim_prefix, padded_hex_read by lia. }
  assert (∀ l, Forall is_byte l → BytesSerde.parse decode (hex_bytes l) = Ok l) as Hb.
  { intros l' Hl'. unfold BytesSerde.parse, hex_bytes. by rewrite trim_prefix, trim_no_x, Hdec by (done || by apply hex_encode_no_x). }
  split_and!.
  - by apply Hp.
  - by apply Hq.
  - destruct o as [m|]; [|done]. cbn in Ho. unfold U64Serde.hex_str_opt_deserialize. cbn -[hex_prefixed U64Serde.parse_hex].
    by rewrite Hp.
  - destruct o as [m|]; [|done]. cbn in Ho.
    unfold U64Serde.hex_str_opt_padded_deserialize, U64Serde.hex_str_opt_deserialize. cbn -[hex_padded U64Serde.parse_hex].
    by rewrite Hq.
  - by apply Hp.
  - by destruct b.
  - by apply Hb.
  - unfold BytesSerde.vec_deserialize, BytesSerde.vec_serialize.
    assert (BytesSerde.strings (map (λ e, VString (hex_bytes e)) ls) = Ok (map hex_bytes ls)) as ->.
    { clear Hls. induction ls as [|e ls IH]; [done|]. cbn -[hex_bytes]. by rewrite IH. }
    cbn [mbind]. cbn. induction Hls as [|e ls He _ IH]; [done|]. cbn -[hex_bytes BytesSerde.parse]. by rewrite Hb, IH.
  - rewrite <-(lower_hex_read 64 n) by lia. by rewrite trim_no_x by (by apply hex_digits_no_x; [lia|]).
Qed.

(** A [u128] does not survive: it is printed with base 16 and read with base 32, so it
    is read back as itself only below 16. *)
Theorem u128_round_trip_below_16 (n : Z) :
  0 <= n < 2 ^ 128 → U128Serde.hex_str_deserialize (U128Serde.hex_str_serialize n) = Ok n ↔ n < 16.
Proof.
  intros Hn. unfold U128Serde.hex_str_serialize, U128Serde.hex_str_deserialize, hex_prefixed, lower_hex.
  cbn [String_deserialize mbind]. cbn -[String.append trim_0x hex_digits from_str_radix].
  rewrite trim_prefix, trim_no_x by (by apply hex_digits_no_x; [lia|]).
  destruct (hex_digits_head 63 n EmptyString) as (d & s & Hd & He); [lia|].
  rewrite He, radix_digit by done. rewrite <-He.
  split.
  - destruct (hex_digits_grow 64 128 n EmptyString) as [->|(v & _ & Hv & ->)]; [lia|done|]. cbn. intros [= ->].
    destruct (Z.lt_ge_cases n 16); [done|]. specialize (Hv ltac:(done)). lia.
  - intros Hlt. cbn [hex_digits]. rewrite (proj2 (Z.ltb_lt _ _)) by done. cbn [parse_digits].
    destruct (hex_digit_facts (n mod 16) 32) as (-> & _); [apply Z.mod_pos_bound; lia|lia|]. cbn [mbind option_bind].
    rewrite Z.mod_small by lia. by rewrite (proj2 (Z.ltb_lt _ _)) by lia.
Qed.

(** ** Witnesses *)
Fixpoint pairs_decode (s : string) : res string (list Z) :=
  match s with
  | EmptyString => Ok []
  | String.String c (String.String d s) =>
    match to_digit 16 c, to_digit 16 d with
    | Some x, Some y => l ← pairs_decode s; Ok (16 * x + y :: l)
    | _, _ => Err "Invalid character"
    end
  | _ => Err "Odd number of digits"
  end.
Lemma pairs_decode_encode l : Forall is_byte l → pairs_decode (hex_encode l) = Ok l.
Proof.
  induction 1 as [|b l Hb _ IH]; [done|]. cbn [hex_encode pairs_decode].
  destruct (hex_digit_facts (b / 16) 16) as (-> & _); [unfold is_byte in Hb; split; [apply Z.div_pos|apply Z.div_lt_upper_bound]; lia|lia|].
  destruct (hex_digit_facts (b mod 16) 16) as (-> & _); [apply Z.mod_pos_bound; lia|lia|].
  rewrite IH. cbn. by rewrite <-Z.div_mod by lia.
Qed.
Lemma json_conversions_round_trip_witness :
  U64Serde.hex_str_padding_serialize 48879 = VString "0x000000000000beef" ∧
  U64Serde.hex_str_padding_deserialize (U64Serde.hex_str_padding_serialize 48879) = Ok 48879 ∧
  BytesSerde.vec_deserialize pairs_decode (BytesSerde.vec_serialize [[222; 173]; []]) = Ok [[222; 173]; []].
Proof.
  split; [vm_compute; reflexivity|].
  destruct (json_conversions_round_trip pairs_decode 48879 (Some 7) true [1; 2] [[222; 173]; []])
    as (_ & Hp & _ & _ & _ & _ & _ & Hv & _); [done|done|repeat constructor; done|repeat constructor; done|exact pairs_decode_encode|].
  exact (conj Hp Hv).
Defined.
Lemma u128_round_trip_below_16_witness :
  U128Serde.hex_str_serialize 16 = VString "0x10" ∧ U128Serde.hex_str_deserialize (VString "0x10") = Ok 32 ∧
  U128Serde.hex_str_deserialize (U128Serde.hex_str_serialize 16) ≠ Ok 16.
Proof.
  split; [reflexivity|split; [reflexivity|]]. intros Hx.
  apply (u128_round_trip_below_16 16) in Hx; lia.
Defined.
