(* ===== verification/RpcTypes.v ===== *)
(** * JSON-RPC: values, errors, block identifiers and replies

    Model of [crates/rpc]: the parts that all handlers share ([utils.rs],
    [types/block_identifier.rs], [authentication.rs]) and the types of the replies
    ([types/]).  A handler is a state transformer of the store.

    Requests hold JSON values.  How serde builds a Rust value from JSON is generated code
    or code of other crates, so it is an argument (class [Serde]), except for strings,
    booleans, numbers in hexadecimal strings and lists, which the handlers take apart
    themselves.  A reply is the value that the handler passes to [serde_json::to_value];
    its conversion to JSON is not modelled. *)

From Stdlib Require Import Ascii.
From S2P Require Import Prelude Rlp RlpLaws U256 Exponential Vm Codec Effects.
From S2P Require Import CoreTypes CoreLaws Consensus Genesis Store StateTries Blockchain NetTypes SerdeUtils.

(** ** utils.rs and authentication.rs: errors *)
Inductive AuthenticationError := InvalidIssuedAtClaim | TokenDecodingError | MissingAuthentication.
Inductive RpcErr :=
  | MethodNotFound
  | WrongParam (field : string)
  | BadParams
  | MissingParam (parameter_name : string)
  | BadHexFormat (arg_number : Z)
  | UnsuportedFork
  | Internal
  | RpcVm
  | RpcRevert (data : string)
  | RpcHalt (reason : string) (gas_used : Z)
  | RpcAuthenticationError (e : AuthenticationError)
  | InvalidForkChoiceState (data : string)
  | UnknownPayload.

Record RpcErrorMetadata := mkMetadata { code : Z; data : option string; message : string }.
Definition get_message_from_revert_data (_ : string) : string := "".
(** [From<RpcErr> for RpcErrorMetadata]. *)
Definition error_metadata (value : RpcErr) : RpcErrorMetadata :=
  match value with
  | MethodNotFound => mkMetadata (-32601) None "Method not found"
  | WrongParam field => mkMetadata (-32602) None ("Field '" +:+ field +:+ "' is incorrect or has an unknown format")
  | BadParams => mkMetadata (-32000) None "Invalid params"
  | MissingParam parameter_name => mkMetadata (-32000) None ("Expected parameter: " +:+ parameter_name +:+ " is missing")
  | UnsuportedFork => mkMetadata (-38005) None "Unsupported fork"
  | BadHexFormat arg_number =>
    mkMetadata (-32602) None ("invalid argument " +:+ decimal arg_number +:+ " : hex string without 0x prefix")
  | Internal => mkMetadata (-32603) None "Internal Error"
  | RpcVm => mkMetadata (-32015) None "Vm execution error"
  | RpcRevert data => mkMetadata 3 (Some data) ("execution reverted: " +:+ get_message_from_revert_data data)
  | RpcHalt reason gas_used =>
    mkMetadata 3 None ("execution halted: reason=" +:+ reason +:+ ", gas_used=" +:+ decimal gas_used)
  | RpcAuthenticationError auth_error =>
    match auth_error with
    | InvalidIssuedAtClaim => mkMetadata (-32000) None "Auth failed: Invalid iat claim"
    | TokenDecodingError => mkMetadata (-32000) None "Auth failed: Invalid or missing token"
    | MissingAuthentication => mkMetadata (-32000) None "Auth failed: Missing authentication header"
    end
  | InvalidForkChoiceState data => mkMetadata (-38002) (Some data) "Invalid forkchoice state"
  | UnknownPayload => mkMetadata (-38001) None "Unknown payload"
  end.

(** ** utils.rs: requests *)
Inductive RpcNamespace := Engine | Eth | Admin | Debug_.
Inductive RpcRequestId := IdNumber (n : Z) | IdString (s : string).
Module RpcRequest.
Record t := mk { id : RpcRequestId; jsonrpc : string; method : string; params : option (list Value) }.
End RpcRequest.

(** The first part of [s.split('_')]. *)
Fixpoint first_part (s : string) : string :=
  match s with
  | EmptyString => EmptyString
  | String.String c s => if bool_decide (c = "_"%char) then EmptyString else String.String c (first_part s)
  end.
Definition namespace (self : RpcRequest.t) : res RpcErr RpcNamespace :=
  let n := first_part (RpcRequest.method self) in
  if bool_decide (n = "engine") then Ok Engine
  else if bool_decide (n = "eth") then Ok Eth
  else if bool_decide (n = "admin") then Ok Admin
  else if bool_decide (n = "debug") then Ok Debug_
  else Err MethodNotFound.

(** ** types/block_identifier.rs *)
Inductive BlockTag := Earliest | Finalized | Safe | Latest | Pending.
#[export] Instance BlockTag_eq_dec : EqDecision BlockTag.
Proof. solve_decision. Defined.
Inductive BlockIdentifier := IdentNumber (n : Z) | IdentTag (tag : BlockTag).
Inductive BlockIdentifierOrHash := IdHash (hash : BlockHash) | Identifier (id : BlockIdentifier).
Definition BlockIdentifier_default : BlockIdentifier := IdentTag Latest.

(** ** core/types/transaction.rs *)
Module GenericTransaction.
Record t := mk {
  type : TxType.t; nonce : Z; to : TxKind.t; from : Address; gas : option Z; value : Z;
  input : list Z; gas_price : Z; max_priority_fee_per_gas : option Z; max_fee_per_gas : option Z;
  max_fee_per_blob_gas : option Z; access_list : list (Address * list H256);
  blob_versioned_hashes : list H256; blobs : list (list Z); chain_id : option Z
}.
End GenericTransaction.

(** ** types/: replies *)
Module RpcTransaction.
Record t := mk {
  tx : Transaction.t; block_number : BlockNumber; block_hash : BlockHash; from : Address; hash : H256;
  transaction_index : Z
}.
End RpcTransaction.
Inductive BlockBodyWrapper :=
  | Full (transactions : list RpcTransaction.t) (uncles : list BlockHeader.t) (withdrawals : list Withdrawal.t)
  | OnlyHashes (transactions : list H256) (uncles : list BlockHeader.t) (withdrawals : list Withdrawal.t).
Module RpcBlock.
Record t := mk { hash : H256; size : Z; total_difficulty : Z; header : BlockHeader.t; body : BlockBodyWrapper }.
End RpcBlock.

Module RpcLog.
Record t := mk {
  log : Log.t; log_index : Z; removed : bool; transaction_hash : H256; transaction_index : Z;
  block_hash : BlockHash; block_number : BlockNumber
}.
#[global] Instance eq_dec : EqDecision t.
Proof. assert (EqDecision Log.t) by solve_decision. solve_decision. Defined.
End RpcLog.
Module RpcReceiptInfo.
Record t := mk { tx_type : TxType.t; status : bool; cumulative_gas_used : Z; logs_bloom : list Z }.
Definition from (receipt : Receipt.t) : t :=
  mk (Receipt.tx_type receipt) (Receipt.succeeded receipt) (Receipt.cumulative_gas_used receipt) (Receipt.bloom receipt).
End RpcReceiptInfo.
Module RpcReceiptBlockInfo.
Record t := mk { block_hash : BlockHash; block_number : BlockNumber; blob_gas_used : option Z }.
Definition from_block_header (keccak256 : list Z → list Z) (h : BlockHeader.t) : t :=
  mk (BlockHeader.compute_block_hash keccak256 h) (BlockHeader.number h)
    (val ← BlockHeader.blob_gas_used h; if val =? 0 then None else Some val).
End RpcReceiptBlockInfo.
Module RpcReceiptTxInfo.
Record t := mk {
  transaction_hash : H256; transaction_index : Z; from : Address; to : option Address;
  contract_address : option Address; gas_used : Z; effective_gas_price : Z; blob_gas_price : option Z
}.
End RpcReceiptTxInfo.
Module RpcReceipt.
Record t := mk {
  receipt : RpcReceiptInfo.t; logs : list RpcLog.t; tx_info : RpcReceiptTxInfo.t; block_info : RpcReceiptBlockInfo.t
}.
End RpcReceipt.

Module StorageProof.
Record t := mk { key : Z; proof : list (list Z); value : Z }.
End StorageProof.
Module AccountProof.
Record t := mk {
  account_proof : list (list Z); address : Address; balance : Z; code_hash : H256; nonce : Z;
  storage_hash : H256; storage_proof : list StorageProof.t
}.
End AccountProof.

(** [a as f64 / b as f64]. *)
Record Ratio := mkRatio { numerator : Z; denominator : Z }.
Module FeeHistoryResponse.
Record t := mk {
  oldest_block : string; base_fee_per_gas : list string; base_fee_per_blob_gas : list string;
  gas_used_ratio : list Ratio; blob_gas_used_ratio : list Ratio; reward : list (list string)
}.
Definition default : t := mk "" [] [] [] [] [].
End FeeHistoryResponse.
Module AccessListResult.
Record t := mk { access_list : list (Address * list H256); error : option string; gas_used : Z }.
End AccessListResult.

(** *** types/payload.rs and types/fork_choice.rs *)
Module ExecutionPayloadV3.
Record t := mk {
  parent_hash : H256; fee_recipient : Address; state_root : H256; receipts_root : H256; logs_bloom : list Z;
  prev_randao : H256; block_number : Z; gas_limit : Z; gas_used : Z; timestamp : Z; extra_data : list Z;
  base_fee_per_gas : Z; block_hash : H256; transactions : list (list Z); withdrawals : list Withdrawal.t;
  blob_gas_used : Z; excess_blob_gas : Z
}.
End ExecutionPayloadV3.
Inductive PayloadValidationStatus := Valid | Invalid | StatusSyncing | Accepted.
Module PayloadStatus.
Record t := mk { status : PayloadValidationStatus; latest_valid_hash : option H256; validation_error : option string }.
Definition invalid_with_err (error : string) : t := mk Invalid None (Some error).
Definition invalid_with_hash (hash : BlockHash) : t := mk Invalid (Some hash) None.
Definition syncing : t := mk StatusSyncing None None.
Definition valid_with_hash (hash : BlockHash) : t := mk Valid (Some hash) None.
Definition valid : t := mk Valid None None.
End PayloadStatus.
Module ForkChoiceResponse.
Record t := mk { payload_status : PayloadStatus.t; payload_id : option Z }.
Definition from (value : PayloadStatus.t) : t := mk value None.
Definition set_id (id : Z) (self : t) : t := mk (payload_status self) (Some id).
End ForkChoiceResponse.
Record ForkChoiceState := mkForkChoiceState { head_block_hash : H256; safe_block_hash : H256; finalized_block_hash : H256 }.
Module PayloadAttributesV3.
Record t := mk {
  timestamp : Z; prev_randao : H256; suggested_fee_recipient : Address; withdrawals : list Withdrawal.t;
  parent_beacon_block_root : H256
}.
End PayloadAttributesV3.
Record BlobsBundle := mkBundle { commitments : list (list Z); proofs : list (list Z); blobs : list (list Z) }.
Module ExecutionPayloadResponse.
Record t := mk { execution_payload : ExecutionPayloadV3.t; block_value : Z; blobs_bundle : BlobsBundle }.
Definition new (payload : ExecutionPayloadV3.t) (block_value : Z) : t := mk payload block_value (mkBundle [] [] []).
End ExecutionPayloadResponse.
Module ExchangeTransitionConfigPayload.
Record t := mk { terminal_total_difficulty : Z; terminal_block_hash : H256; terminal_block_number : Z }.
End ExchangeTransitionConfigPayload.

(** *** admin/mod.rs *)
Module NodeInfo.
Record t := mk {
  enode : string; id : string; ip : string; name : string; discovery : Z; listener : Z;
  protocols : list (string * ChainConfig.t)
}.
End NodeInfo.

(** What a handler passes to [serde_json::to_value]. *)
Inductive Reply :=
  | ReplyNull
  | ReplyBool (b : bool)
  | ReplyString (s : string)
  | ReplyStrings (l : list string)
  | ReplyBlock (b : RpcBlock.t)
  | ReplyTransaction (tx : RpcTransaction.t)
  | ReplyReceipts (l : list RpcReceipt.t)
  | ReplyReceipt (r : option RpcReceipt.t)
  | ReplyAccountProof (p : AccountProof.t)
  | ReplyLogs (l : list RpcLog.t)
  | ReplyFeeHistory (r : FeeHistoryResponse.t)
  | ReplyAccessList (r : AccessListResult.t)
  | ReplyPayloadStatus (s : PayloadStatus.t)
  | ReplyForkChoice (r : ForkChoiceResponse.t)
  | ReplyPayload (r : ExecutionPayloadResponse.t)
  | ReplyTransitionConfig (p : ExchangeTransitionConfigPayload.t)
  | ReplyNodeInfo (i : NodeInfo.t).

(** ** What comes from other crates *)

(** The parts of a filter of logs (eth/logs.rs). *)
Inductive AddressFilter := Single (a : Address) | Many (l : list Address).
Inductive TopicFilter := Topic (t : option H256) | Topics (l : list (option H256)).

(** Deserializers that serde generates or that belong to other crates, messages of
    errors, and numbers with a fraction. *)
Class Serde := {
  from_value_H256 : Value → option H256;
  from_value_H256s : Value → option (list H256);
  from_value_Address : Value → option Address;
  from_value_U256s : Value → option (list Z);
  from_value_BlockTag : Value → option BlockTag;
  from_value_GenericTransaction : Value → option GenericTransaction.t;
  from_value_AddressFilter : Value → option (option AddressFilter);
  from_value_TopicFilters : Value → option (option (list TopicFilter));
  from_value_ExecutionPayloadV3 : Value → option ExecutionPayloadV3.t;
  from_value_ForkChoiceState : Value → option ForkChoiceState;
  from_value_PayloadAttributesV3 : Value → option (option PayloadAttributesV3.t);
  from_value_ExchangeTransitionConfigPayload : Value → option ExchangeTransitionConfigPayload.t;
  from_value_Strings : Value → option (list string);
  H256_from_str : string → option H256;
  hex_decode : string → option (list Z);
  RLPDecodeError_to_string : RLPDecodeError → string;
  EvmError_to_string : EvmError → string;
  IpAddr_to_string : IpAddr → string;
  (** [f32]: the parsed percentiles, [a <= b], [0.0 <= a && a <= 100.0],
      [(x * len as f32 / 100_f32) as usize]. *)
  f32 : Type;
  from_value_f32s : Value → option (list f32);
  f32_le : f32 → f32 → bool;
  f32_is_percentage : f32 → bool;
  f32_percentile : f32 → nat → nat;
  (** [(highest - lowest) as f64 / highest as f64 < ESTIMATE_ERROR_RATIO]. *)
  below_error_ratio : Z → Z → bool
}.
(** Hashes and signatures; [create_address] is [RevmAddress::create]. *)
Class Crypto := {
  keccak256 : list Z → list Z;
  Signature : Type;
  from_compact : list Z → Z → option Signature;
  recover_ecdsa : list Z → Signature → option (list Z);
  create_address : Address → Z → Address;
  trie_root : list (list Z * list Z) → list Z
}.
(** The execution of transactions on revm. *)
Class Backend (S : Type) := {
  EvmState : Type;
  evm_state : list Z → EvmState;
  accrue : list Z → list Z → list Z;
  execute_tx : Transaction.t → BlockHeader.t → SpecId → EvmState → stm S EvmError (ExecutionResult.t * EvmState);
  beacon_root_contract_call : BlockHeader.t → SpecId → EvmState → stm S EvmError EvmState;
  process_withdrawals : list Withdrawal.t → EvmState → stm S StoreError EvmState;
  get_state_transitions : EvmState → list AccountUpdate.t;
  simulate_tx_from_generic : GenericTransaction.t → BlockHeader.t → EvmState → SpecId → stm S EvmError ExecutionResult.t;
  create_access_list : GenericTransaction.t → BlockHeader.t → EvmState → SpecId →
    stm S EvmError (ExecutionResult.t * list (Address * list H256))
}.

(** ** Shared steps of the handlers *)

(** A result whose error is matched instead of returned. *)
Definition attempt {S E F A} (m : stm S E A) : stm S F (option A) := λ s,
  match m s with
  | (s, Ok a) => (s, Ok (Some a))
  | (s, Err _) => (s, Ok None)
  | (s, Panic) => (s, Panic)
  | (s, OutOfFuel) => (s, OutOfFuel)
  end.

Section Shared.
Context `{Profile} `{Serde} {S : Type} `{StoreEngine S}.
Abbreviation M A := (stm S RpcErr A).

(** [?] on a result of the store. *)
Definition query {A} (m : stm S StoreError A) : M A := stm_map_err (λ _, Internal) m.
(** [?] on [serde_json::from_value]. *)
Definition from_value_or {A} (f : Value → option A) (v : Value) : res RpcErr A := ok_or BadParams (f v).
Definition from_value_String (v : Value) : option string := match v with VString s => Some s | _ => None end.
Definition from_value_bool (v : Value) : option bool := match v with Bool b => Some b | _ => None end.
(** [params.as_ref().ok_or(BadParams)?] and the check of the number of parameters. *)
Definition take_params (n : nat) (params : option (list Value)) : res RpcErr (list Value) :=
  params ← ok_or BadParams params;
  if negb (Nat.eqb (length params) n) then Err BadParams else Ok params.
(** [params[i]], which panics when out of range. *)
Definition param (params : list Value) (i : nat) : res RpcErr Value := unwrap (params !! i).

Definition resolve_block_number (self : BlockIdentifier) : stm S StoreError (option BlockNumber) :=
  match self with
  | IdentNumber num => mret (Some num)
  | IdentTag tag =>
    match tag with
    | Earliest => get_earliest_block_number
    | Finalized => get_finalized_block_number
    | Safe => get_safe_block_number
    | Latest => get_latest_block_number
    | Pending => get_pending_block_number
    end
  end.
Definition resolve_block_header (self : BlockIdentifier) : stm S StoreError (option BlockHeader.t) :=
  number ← resolve_block_number self;
  match number with
  | Some block_number => get_block_header block_number
  | None => mret None
  end.
Definition resolve_block_number_or_hash (self : BlockIdentifierOrHash) : stm S StoreError (option BlockNumber) :=
  match self with
  | Identifier id => resolve_block_number id
  | IdHash block_hash => get_block_number block_hash
  end.
Definition is_latest (self : BlockIdentifierOrHash) : stm S StoreError bool :=
  match self with
  | Identifier (IdentTag Latest) => mret true
  | _ =>
    result ← resolve_block_number_or_hash self;
    latest ← get_latest_block_number;
    match result, latest with
    | Some result, Some latest => mret (result =? latest)
    | _, _ => mret false
    end
  end.
End Shared.

Section Parse.
Context `{Serde}.
Definition parse_identifier (serde_value : Value) (arg_index : Z) : res RpcErr BlockIdentifier :=
  match from_value_BlockTag serde_value with
  | Some tag => Ok (IdentTag tag)
  | None =>
    match from_value_String serde_value with
    | None => Err BadParams
    | Some hex_str =>
      match strip_prefix "0x" hex_str with
      | None => Err (BadHexFormat arg_index)
      | Some hex_str =>
        match from_str_radix_16 hex_str with
        | None => Err (BadHexFormat arg_index)
        | Some block_number => Ok (IdentNumber block_number)
        end
      end
    end
  end.
Definition parse_identifier_or_hash (serde_value : Value) (arg_index : Z) : res RpcErr BlockIdentifierOrHash :=
  match s ← from_value_String serde_value; H256_from_str s with
  | Some block_hash => Ok (IdHash block_hash)
  | None => Identifier <$> parse_identifier serde_value arg_index
  end.
End Parse.
