(* ===== verification/RpcEth.v ===== *)
(** * JSON-RPC: blocks, accounts, logs and fees

    Model of [block.rs], [account.rs], [client.rs], [logs.rs] and [fee_market.rs] in
    [crates/rpc/eth] and of the constructors of its replies ([types/]).  Each
    request has its [parse] and its [handle], as in the trait [RpcHandler].  What is
    printed to the log is left out. *)

From stdpp Require Import sorting.
From S2P Require Import Prelude Rlp RlpLaws U256 Exponential Vm Codec Effects.
From S2P Require Import CoreTypes CoreLaws Consensus Genesis Store StateTries Blockchain NetTypes SerdeUtils RpcTypes.

(** ** types/: constructors *)
Section Build.
Context `{Profile} `{Crypto}.

Definition tx_sender (tx : Transaction.t) : res RpcErr Address :=
  no_err (Transaction.sender keccak256 Signature from_compact recover_ecdsa tx).
Definition tx_hash (tx : Transaction.t) : H256 := Transaction.compute_hash keccak256 tx.
Definition block_hash_of (h : BlockHeader.t) : BlockHash := BlockHeader.compute_block_hash keccak256 h.

Definition RpcTransaction_build (tx : Transaction.t) (block_number : BlockNumber) (block_hash : BlockHash)
    (transaction_index : Z) : res RpcErr RpcTransaction.t :=
  from ← tx_sender tx;
  Ok (RpcTransaction.mk tx block_number block_hash from (tx_hash tx) transaction_index).

(** The loop of [FullBlockBody::from_body]. *)
Fixpoint full_transactions (transactions : list Transaction.t) (index : Z) (block_number : BlockNumber)
    (block_hash : BlockHash) : res RpcErr (list RpcTransaction.t) :=
  match transactions with
  | [] => Ok []
  | tx :: transactions =>
    tx ← RpcTransaction_build tx block_number block_hash index;
    rest ← full_transactions transactions (index + 1) block_number block_hash;
    Ok (tx :: rest)
  end.
Definition RpcBlock_build (header : BlockHeader.t) (body : BlockBody.t) (hash : H256) (hydrated : bool)
    (total_difficulty : Z) : res RpcErr RpcBlock.t :=
  let size := zlen (Block.encode (Block.mk header body)) in
  body_wrapper ←
    (if hydrated then
       txs ← full_transactions (BlockBody.transactions body) 0 (BlockHeader.number header) hash;
       Ok (Full txs (BlockBody.ommers body) (default [] (BlockBody.withdrawals body)))
     else Ok (OnlyHashes (map tx_hash (BlockBody.transactions body)) (BlockBody.ommers body)
                (default [] (BlockBody.withdrawals body))));
  Ok (RpcBlock.mk hash size total_difficulty header body_wrapper).

Definition RpcLog_new (log : Log.t) (log_index : Z) (tx_info : RpcReceiptTxInfo.t)
    (block_info : RpcReceiptBlockInfo.t) : RpcLog.t :=
  RpcLog.mk log log_index false (RpcReceiptTxInfo.transaction_hash tx_info)
    (RpcReceiptTxInfo.transaction_index tx_info) (RpcReceiptBlockInfo.block_hash block_info)
    (RpcReceiptBlockInfo.block_number block_info).
Fixpoint number_logs (logs : list Log.t) (log_index : Z) (tx_info : RpcReceiptTxInfo.t)
    (block_info : RpcReceiptBlockInfo.t) : res RpcErr (list RpcLog.t) :=
  match logs with
  | [] => Ok []
  | log :: logs =>
    next ← uadd log_index 1;
    rest ← number_logs logs next tx_info block_info;
    Ok (RpcLog_new log log_index tx_info block_info :: rest)
  end.
Definition RpcReceipt_new (receipt : Receipt.t) (tx_info : RpcReceiptTxInfo.t) (block_info : RpcReceiptBlockInfo.t)
    (init_log_index : Z) : res RpcErr RpcReceipt.t :=
  logs ← number_logs (Receipt.logs receipt) init_log_index tx_info block_info;
  Ok (RpcReceipt.mk (RpcReceiptInfo.from receipt) logs tx_info block_info).

(** [RpcReceiptTxInfo::from_transaction]. *)
Definition from_transaction (transaction : Transaction.t) (index gas_used block_blob_gas_price : Z)
    : res RpcErr RpcReceiptTxInfo.t :=
  let nonce := Transaction.nonce transaction in
  from ← tx_sender transaction;
  let blob_gas_price := if bool_decide (Transaction.tx_type transaction = TxType.EIP4844)
    then Some block_blob_gas_price else None in
  let '(contract_address, to) :=
    match Transaction.to transaction with
    | TxKind.Create => (Some (create_address from nonce), None)
    | TxKind.Call addr => (None, Some addr)
    end in
  Ok (RpcReceiptTxInfo.mk (tx_hash transaction) index from to contract_address gas_used
        (Transaction.gas_price transaction) blob_gas_price).
End Build.

(** ** eth/block.rs *)
Section Blocks.
Context `{Profile} `{Serde} `{Crypto} {S : Type} `{StoreEngine S}.
Abbreviation M A := (stm S RpcErr A).

(** [let header = ...; let body = ...; match (header, body)]. *)
Definition header_and_body (block_number : BlockNumber) : M (option (BlockHeader.t * BlockBody.t)) :=
  header ← query (get_block_header block_number);
  body ← query (get_block_body block_number);
  match header, body with
  | Some header, Some body => mret (Some (header, body))
  | _, _ => mret None
  end.

Definition parse_block_by_number (params : option (list Value)) : res RpcErr (BlockIdentifier * bool) :=
  params ← take_params 2 params;
  p0 ← param params 0; block ← parse_identifier p0 0;
  p1 ← param params 1; hydrated ← from_value_or from_value_bool p1;
  Ok (block, hydrated).
(** The rest of both handlers, once the number is known. *)
Definition block_reply (block_number : BlockNumber) (hydrated : bool) : M Reply :=
  hb ← header_and_body block_number;
  match hb with
  | None => mret ReplyNull
  | Some (header, body) =>
    let hash := block_hash_of header in
    total_difficulty ← query (get_block_total_difficulty hash);
    block ← lift (RpcBlock_build header body hash hydrated (default 0 total_difficulty));
    mret (ReplyBlock block)
  end.
Definition get_block_by_number (request : BlockIdentifier * bool) : M Reply :=
  let '(block, hydrated) := request in
  block_number ← query (resolve_block_number block);
  match block_number with
  | None => mret ReplyNull
  | Some block_number => block_reply block_number hydrated
  end.
Definition parse_block_by_hash (params : option (list Value)) : res RpcErr (BlockHash * bool) :=
  params ← take_params 2 params;
  p0 ← param params 0; block ← from_value_or from_value_H256 p0;
  p1 ← param params 1; hydrated ← from_value_or from_value_bool p1;
  Ok (block, hydrated).
Definition get_block_by_hash_request (request : BlockHash * bool) : M Reply :=
  let '(block, hydrated) := request in
  block_number ← query (get_block_number block);
  match block_number with
  | None => mret ReplyNull
  | Some block_number => block_reply block_number hydrated
  end.

(** Requests with one parameter that names a block. *)
Definition parse_one_identifier (params : option (list Value)) : res RpcErr BlockIdentifier :=
  params ← take_params 1 params; p0 ← param params 0; parse_identifier p0 0.
Definition parse_one_identifier_or_hash (params : option (list Value)) : res RpcErr BlockIdentifierOrHash :=
  params ← take_params 1 params; p0 ← param params 0; parse_identifier_or_hash p0 0.

Definition get_block_transaction_count (block : BlockIdentifierOrHash) : M Reply :=
  block_number ← query (resolve_block_number_or_hash block);
  match block_number with
  | None => mret ReplyNull
  | Some block_number =>
    block_body ← query (get_block_body block_number);
    match block_body with
    | None => mret ReplyNull
    | Some block_body => mret (ReplyString (hex_prefixed (zlen (BlockBody.transactions block_body))))
    end
  end.

(** The loop of [get_all_block_rpc_receipts]. *)
Fixpoint rpc_receipts_loop (transactions : list Transaction.t) (index : nat) (block_number : BlockNumber)
    (blob_gas_price : Z) (block_info : RpcReceiptBlockInfo.t) (last_cumulative_gas_used current_log_index : Z)
    : M (list RpcReceipt.t) :=
  match transactions with
  | [] => mret []
  | tx :: transactions =>
    receipt ← query (get_receipt block_number (Z.of_nat index));
    match receipt with
    | None => lift (Err Internal)
    | Some receipt =>
      gas_used ← lift (usub (Receipt.cumulative_gas_used receipt) last_cumulative_gas_used);
      tx_info ← lift (from_transaction tx (Z.of_nat index) gas_used blob_gas_price);
      receipt ← lift (RpcReceipt_new receipt tx_info block_info current_log_index);
      last_cumulative_gas_used ← lift (uadd last_cumulative_gas_used gas_used);
      current_log_index ← lift (uadd current_log_index (zlen (RpcReceipt.logs receipt)));
      rest ← rpc_receipts_loop transactions (Datatypes.S index) block_number blob_gas_price block_info
        last_cumulative_gas_used current_log_index;
      mret (receipt :: rest)
    end
  end.
Definition get_all_block_rpc_receipts (block_number : BlockNumber) (header : BlockHeader.t) (body : BlockBody.t)
    : M (list RpcReceipt.t) :=
  if bool_decide (BlockHeader.parent_hash header = replicate 32 0) then mret []
  else
    parent_header ← stm_map_err (λ _, Internal) (find_parent_header header);
    blob_gas_price ← lift (no_err (calculate_base_fee_per_blob_gas parent_header));
    let block_info := RpcReceiptBlockInfo.from_block_header keccak256 header in
    rpc_receipts_loop (BlockBody.transactions body) 0 block_number blob_gas_price block_info 0 0.
Fixpoint receipts_loop (transactions : list Transaction.t) (index : nat) (block_number : BlockNumber) : M (list Receipt.t) :=
  match transactions with
  | [] => mret []
  | _ :: transactions =>
    receipt ← query (get_receipt block_number (Z.of_nat index));
    match receipt with
    | None => lift (Err Internal)
    | Some receipt =>
      rest ← receipts_loop transactions (Datatypes.S index) block_number;
      mret (receipt :: rest)
    end
  end.
Definition get_all_block_receipts (block_number : BlockNumber) (header : BlockHeader.t) (body : BlockBody.t)
    : M (list Receipt.t) :=
  if bool_decide (BlockHeader.parent_hash header = replicate 32 0) then mret []
  else receipts_loop (BlockBody.transactions body) 0 block_number.

Definition get_block_receipts (block : BlockIdentifierOrHash) : M Reply :=
  block_number ← query (resolve_block_number_or_hash block);
  match block_number with
  | None => mret ReplyNull
  | Some block_number =>
    hb ← header_and_body block_number;
    match hb with
    | None => mret ReplyNull
    | Some (header, body) =>
      receipts ← get_all_block_rpc_receipts block_number header body;
      mret (ReplyReceipts receipts)
    end
  end.
Definition get_raw_header (block : BlockIdentifier) : M Reply :=
  block_number ← query (resolve_block_number block);
  match block_number with
  | None => mret ReplyNull
  | Some block_number =>
    header ← query (get_block_header block_number);
    header ← lift (ok_or BadParams header);
    mret (ReplyString (hex_bytes (BlockHeader.encode header)))
  end.
Definition get_raw_block (block : BlockIdentifier) : M Reply :=
  block_number ← query (resolve_block_number block);
  match block_number with
  | None => mret ReplyNull
  | Some block_number =>
    hb ← header_and_body block_number;
    match hb with
    | None => mret ReplyNull
    | Some (header, body) => mret (ReplyString (hex_bytes (Block.encode (Block.mk header body))))
    end
  end.
Definition get_raw_receipts (block : BlockIdentifier) : M Reply :=
  block_number ← query (resolve_block_number block);
  match block_number with
  | None => mret ReplyNull
  | Some block_number =>
    hb ← header_and_body block_number;
    match hb with
    | None => mret ReplyNull
    | Some (header, body) =>
      receipts ← get_all_block_receipts block_number header body;
      mret (ReplyStrings (map (λ receipt, hex_bytes (Receipt.encode receipt)) receipts))
    end
  end.
Definition block_number_request : M Reply :=
  number ← query get_latest_block_number;
  match number with
  | Some block_number => mret (ReplyString (hex_prefixed block_number))
  | None => lift (Err Internal)
  end.
Definition get_blob_base_fee : M Reply :=
  number ← query get_latest_block_number;
  match number with
  | Some block_number =>
    header ← query (get_block_header block_number);
    match header with
    | None => lift (Err Internal)
    | Some header =>
      parent_header ← stm_map_err (λ _, Internal) (find_parent_header header);
      blob_base_fee ← lift (no_err (calculate_base_fee_per_blob_gas parent_header));
      mret (ReplyString (hex_prefixed blob_base_fee))
    end
  | None => lift (Err Internal)
  end.

(** ** eth/client.rs *)
Definition chain_id_request : M Reply :=
  chain_spec ← query get_chain_config;
  mret (ReplyString (hex_prefixed (ChainConfig.chain_id chain_spec))).
Definition syncing_request : M Reply := mret (ReplyBool false).
End Blocks.

(** ** eth/account.rs *)
Section Accounts.
Context `{Profile} `{Serde} `{Crypto} {S : Type} `{StoreEngine S} `{TrieEngine S}.
Abbreviation M A := (stm S RpcErr A).

Definition parse_account (params : option (list Value)) : res RpcErr (Address * BlockIdentifierOrHash) :=
  params ← take_params 2 params;
  p0 ← param params 0; address ← from_value_or from_value_Address p0;
  p1 ← param params 1; block ← parse_identifier_or_hash p1 1;
  Ok (address, block).
(** [let Some(block_number) = ... else return Err(Internal)]. *)
Definition required_block_number (block : BlockIdentifierOrHash) : M BlockNumber :=
  block_number ← query (resolve_block_number_or_hash block);
  lift (ok_or Internal block_number).

Definition get_balance (request : Address * BlockIdentifierOrHash) : M Reply :=
  let '(address, block) := request in
  block_number ← required_block_number block;
  account ← query (get_account_info keccak256 block_number address);
  mret (ReplyString (hex_prefixed (default 0 (AccountInfo.balance <$> account)))).
Definition get_code (request : Address * BlockIdentifierOrHash) : M Reply :=
  let '(address, block) := request in
  block_number ← required_block_number block;
  code ← query (get_code_by_account_address keccak256 block_number address);
  mret (ReplyString (hex_bytes (default [] code))).
Definition get_transaction_count (request : Address * BlockIdentifierOrHash) : M Reply :=
  let '(address, block) := request in
  block_number ← required_block_number block;
  nonce ← query (get_nonce_by_account_address keccak256 block_number address);
  mret (ReplyString (hex_prefixed (default 0 nonce))).
Definition parse_storage_at (params : option (list Value)) : res RpcErr (Address * H256 * BlockIdentifierOrHash) :=
  params ← take_params 3 params;
  p0 ← param params 0; address ← from_value_or from_value_Address p0;
  p1 ← param params 1; storage_slot ← from_value_or from_value_H256 p1;
  p2 ← param params 2; block ← parse_identifier_or_hash p2 2;
  Ok (address, storage_slot, block).
Definition get_storage_at_request (request : Address * H256 * BlockIdentifierOrHash) : M Reply :=
  let '(address, storage_slot, block) := request in
  block_number ← required_block_number block;
  storage_value ← query (get_storage_at keccak256 block_number address storage_slot);
  mret (ReplyString (hex_bytes (to_be 32 (default 0 storage_value)))).

(** [H256::from_uint] on every key. *)
Definition parse_proof (params : option (list Value)) : res RpcErr (Address * list H256 * BlockIdentifierOrHash) :=
  params ← take_params 3 params;
  p1 ← param params 1; storage_keys ← from_value_or from_value_U256s p1;
  let storage_keys := map (to_be 32) storage_keys in
  p0 ← param params 0; address ← from_value_or from_value_Address p0;
  p2 ← param params 2; block ← parse_identifier_or_hash p2 2;
  Ok (address, storage_keys, block).
Fixpoint storage_proofs (storage_keys : list H256) (block_number : BlockNumber) (address : Address)
    (storage_root : H256) : M (list StorageProof.t) :=
  match storage_keys with
  | [] => mret []
  | storage_key :: storage_keys =>
    value ← query (get_storage_at keccak256 block_number address storage_key);
    proof ← query (get_storage_proof keccak256 address storage_root storage_key);
    rest ← storage_proofs storage_keys block_number address storage_root;
    mret (StorageProof.mk (of_be storage_key) proof (default 0 value) :: rest)
  end.
Definition get_proof_request (request : Address * list H256 * BlockIdentifierOrHash) : M Reply :=
  let '(address, storage_keys, block) := request in
  block_number ← query (resolve_block_number_or_hash block);
  match block_number with
  | None => mret ReplyNull
  | Some block_number =>
    account ← query (get_account_state keccak256 block_number address);
    match account with
    | None => mret ReplyNull
    | Some account =>
      account_proof ← query (get_account_proof keccak256 block_number address);
      match account_proof with
      | None => lift (Err Internal)
      | Some account_proof =>
        storage_proofs ← storage_proofs storage_keys block_number address (AccountState.storage_root account);
        mret (ReplyAccountProof (AccountProof.mk account_proof address (AccountState.balance account)
          (AccountState.code_hash account) (AccountState.nonce account) (AccountState.storage_root account)
          storage_proofs))
      end
    end
  end.
End Accounts.

(** ** eth/logs.rs *)
Section Logs.
Context `{Profile} `{Serde} `{Crypto} {S : Type} `{StoreEngine S}.
Abbreviation M A := (stm S RpcErr A).

Record LogsRequest := mkLogsRequest {
  from_block : BlockIdentifier; to_block : BlockIdentifier; address_filters : option AddressFilter;
  topics_filter : list TopicFilter
}.
(** [map.get(key)] of an object. *)
Definition object_get (key : string) (l : list (string * Value)) : option Value :=
  snd <$> List.find (λ '(k, _), bool_decide (k = key)) l.
Definition parse_logs (params : option (list Value)) : res RpcErr LogsRequest :=
  match params with
  | Some [Object param] =>
    v ← ok_or (MissingParam "fromBlock") (object_get "fromBlock" param);
    from_block ← parse_identifier v 0;
    v ← ok_or (MissingParam "toBlock") (object_get "toBlock" param);
    to_block ← parse_identifier v 0;
    v ← ok_or (MissingParam "address") (object_get "address" param);
    address_filters ← ok_or (WrongParam "address") (from_value_AddressFilter v);
    v ← ok_or (MissingParam "topics") (object_get "topics" param);
    topics_filters ← ok_or (WrongParam "topics") (from_value_TopicFilters v);
    Ok (mkLogsRequest from_block to_block address_filters (default [] topics_filters))
  | _ => Err BadParams
  end.

(** [address_filter.is_empty() || address_filter.contains(&log.address)]. *)
Definition filter_addresses (f : option AddressFilter) : list Address :=
  match f with Some (Single a) => [a] | Some (Many l) => l | None => [] end.
Definition address_passes (f : option AddressFilter) (address : Address) : bool :=
  bool_decide (filter_addresses f = []) || bool_decide (address ∈ filter_addresses f).
(** The loop over the logs of one receipt: the logs that pass, and the next index. *)
Fixpoint receipt_logs (logs : list Log.t) (f : option AddressFilter) (block_log_index : Z) (tx_hash : H256)
    (tx_index : Z) (block_num : BlockNumber) (block_hash : BlockHash) : res RpcErr (list RpcLog.t * Z) :=
  match logs with
  | [] => Ok ([], block_log_index)
  | log :: logs =>
    next ← uadd block_log_index 1;
    '(rest, last) ← receipt_logs logs f next tx_hash tx_index block_num block_hash;
    Ok ((if address_passes f (Log.address log)
         then RpcLog.mk log block_log_index false tx_hash tx_index block_hash block_num :: rest else rest), last)
  end.
Fixpoint block_logs (transactions : list Transaction.t) (tx_index : nat) (f : option AddressFilter)
    (block_log_index : Z) (block_num : BlockNumber) (block_hash : BlockHash) : M (list RpcLog.t) :=
  match transactions with
  | [] => mret []
  | tx :: transactions =>
    receipt ← query (get_receipt block_num (Z.of_nat tx_index));
    receipt ← lift (ok_or Internal receipt);
    '(logs, block_log_index) ←
      (if Receipt.succeeded receipt
       then lift (receipt_logs (Receipt.logs receipt) f block_log_index (tx_hash tx) (Z.of_nat tx_index) block_num block_hash)
       else mret ([], block_log_index));
    rest ← block_logs transactions (Datatypes.S tx_index) f block_log_index block_num block_hash;
    mret (logs ++ rest)
  end.
(** [for block_num in from..=to], which has [n] rounds. *)
Fixpoint range_logs (n : nat) (block_num : BlockNumber) (f : option AddressFilter) : M (list RpcLog.t) :=
  match n with
  | O => mret []
  | Datatypes.S n =>
    block_body ← query (get_block_body block_num);
    block_body ← lift (ok_or Internal block_body);
    block_header ← query (get_block_header block_num);
    block_header ← lift (ok_or Internal block_header);
    logs ← block_logs (BlockBody.transactions block_body) 0 f 0 block_num (block_hash_of block_header);
    rest ← range_logs n (block_num + 1) f;
    mret (logs ++ rest)
  end.

Definition topic_passes (f : TopicFilter) (topic : H256) : bool :=
  match f with
  | Topic (Some t) => bool_decide (topic = t)
  | Topic None => true
  | Topics sub_topics =>
    bool_decide (sub_topics = []) ||
    existsb (λ st, match st with None => true | Some t => bool_decide (topic = t) end) sub_topics
  end.
(** [rpc_log.log.topics[i]] is in range: there are at least as many topics as filters. *)
Fixpoint topics_pass (filters : list TopicFilter) (topics : list H256) : bool :=
  match filters, topics with
  | [], _ => true
  | f :: filters, topic :: topics => topic_passes f topic && topics_pass filters topics
  | _ :: _, [] => false
  end.
Definition log_passes (filters : list TopicFilter) (log : RpcLog.t) : bool :=
  let topics := Log.topics (RpcLog.log log) in
  if (length topics <? length filters)%nat then false else topics_pass filters topics.
Definition get_logs (self : LogsRequest) : M Reply :=
  from ← query (resolve_block_number (from_block self));
  from ← lift (ok_or (WrongParam "fromBlock") from);
  to ← query (resolve_block_number (to_block self));
  to ← lift (ok_or (WrongParam "toBlock") to);
  logs ← range_logs (Z.to_nat (to - from + 1)) from (address_filters self);
  let filtered_logs :=
    match topics_filter self with
    | [] => logs
    | _ :: _ => List.filter (log_passes (topics_filter self)) logs
    end in
  mret (ReplyLogs filtered_logs).
End Logs.

(** ** eth/fee_market.rs *)
Section FeeHistory.
Context `{Profile} `{Serde} `{Crypto} {S : Type} `{StoreEngine S}.
Abbreviation M A := (stm S RpcErr A).

Record FeeHistoryRequest := mkFeeHistoryRequest {
  block_count : Z; newest_block : BlockIdentifier; reward_percentiles : option (list f32)
}.
(** [rp.windows(2).all(..)]. *)
Fixpoint percentiles_ok (rp : list f32) : bool :=
  match rp with
  | a :: ((b :: _) as rest) => (f32_le a b || f32_is_percentage a) && percentiles_ok rest
  | _ => true
  end.
Definition parse_fee_history (params : option (list Value)) : res RpcErr FeeHistoryRequest :=
  params ← ok_or BadParams params;
  if (length params <? 2)%nat || (3 <? length params)%nat then Err BadParams
  else
    reward_percentiles ←
      match params !! 2%nat with
      | Some rp =>
        rp ← from_value_or from_value_f32s rp;
        if percentiles_ok rp then Ok (Some rp) else Err BadParams
      | None => Ok None
      end;
    p0 ← param params 0;
    block_count_str ← from_value_or from_value_String p0;
    block_count_str ← ok_or BadParams (strip_prefix "0x" block_count_str);
    block_count ← ok_or BadParams (from_str_radix_16 block_count_str);
    newest_block ← parse_identifier p0 0;
    Ok (mkFeeHistoryRequest block_count newest_block reward_percentiles).

Definition get_range (block_num : Z) (finish_block : BlockIdentifier) : M (Z * Z) :=
  earliest_block_num ← query get_earliest_block_number;
  earliest_block_num ← lift (ok_or Internal earliest_block_num);
  latest_block_num ← query get_latest_block_number;
  latest_block_num ← lift (ok_or Internal latest_block_num);
  finish_block ← query (resolve_block_number finish_block);
  finish_block ← lift (ok_or Internal finish_block);
  finish_block ← lift (uadd finish_block 1);
  let finish_block := Z.min finish_block latest_block_num in
  let start_block := Z.max earliest_block_num (Z.max 0 (finish_block - block_num)) in
  mret (start_block, finish_block).

Definition priority_fee (base_fee_per_gas : Z) (t : Transaction.t) : Z :=
  match t with
  | Transaction.LegacyTransaction _ | Transaction.EIP2930Transaction _ => 0
  | Transaction.EIP1559Transaction t =>
    Z.min (EIP1559Transaction.max_priority_fee_per_gas t) (Z.max 0 (EIP1559Transaction.max_fee_per_gas t - base_fee_per_gas))
  | Transaction.EIP4844Transaction t =>
    Z.min (EIP4844Transaction.max_priority_fee_per_gas t) (Z.max 0 (EIP4844Transaction.max_fee_per_gas t - base_fee_per_gas))
  end.
Definition calculate_percentiles_for_block (block : Block.t) (percentiles : list f32) : list Z :=
  let base_fee_per_gas := default 0 (BlockHeader.base_fee_per_gas (Block.header block)) in
  let effective_priority_fees :=
    merge_sort Z.le (map (priority_fee base_fee_per_gas) (BlockBody.transactions (Block.body block))) in
  let t_len := length effective_priority_fees in
  map (λ x, default 0 (effective_priority_fees !! f32_percentile x t_len)) percentiles.

(** What the loop over the blocks collects. *)
Record Collected := mkCollected {
  fees : list Z; blob_fees : list Z; ratios : list Ratio; blob_ratios : list Ratio; rewards : list (list Z)
}.
Fixpoint collect_fees (n : nat) (block_number : BlockNumber) (percentiles : option (list f32)) : M Collected :=
  match n with
  | O => mret (mkCollected [] [] [] [] [])
  | Datatypes.S n =>
    header ← query (get_block_header block_number);
    header ← lift (ok_or Internal header);
    body ← query (get_block_body block_number);
    body ← lift (ok_or Internal body);
    blob_base_fee ← lift (no_err (calculate_base_fee_per_blob_gas header));
    rest ← collect_fees n (block_number + 1) percentiles;
    mret (mkCollected
      (default 0 (BlockHeader.base_fee_per_gas header) :: fees rest)
      (blob_base_fee :: blob_fees rest)
      (mkRatio (BlockHeader.gas_used header) (BlockHeader.gas_limit header) :: ratios rest)
      (mkRatio (default 0 (BlockHeader.blob_gas_used header)) MAX_BLOB_GAS_PER_BLOCK :: blob_ratios rest)
      (match percentiles with
       | Some percentiles => calculate_percentiles_for_block (Block.mk header body) percentiles :: rewards rest
       | None => rewards rest
       end))
  end.
Definition fee_history (self : FeeHistoryRequest) : M Reply :=
  if block_count self =? 0 then mret (ReplyFeeHistory FeeHistoryResponse.default)
  else
    '(start_block, end_block) ← get_range (block_count self) (newest_block self);
    let oldest_block := start_block in
    block_count ← lift (usub end_block start_block);
    _ ← lift (uadd block_count 1);
    c ← collect_fees (Z.to_nat (end_block - start_block)) start_block (reward_percentiles self);
    header ← query (get_block_header end_block);
    header ← lift (ok_or Internal header);
    blob_base_fee ← lift (no_err (calculate_base_fee_per_blob_gas header));
    let base_fee_per_gas := fees c ++ [default 0 (BlockHeader.base_fee_per_gas header)] in
    let base_fee_per_blob_gas := blob_fees c ++ [blob_base_fee] in
    mret (ReplyFeeHistory (FeeHistoryResponse.mk (hex_prefixed oldest_block) (map hex_prefixed base_fee_per_gas)
      (map hex_prefixed base_fee_per_blob_gas) (ratios c) (blob_ratios c) (map (map hex_prefixed) (rewards c)))).
End FeeHistory.
