(* ===== verification/RpcTx.v ===== *)
(** * JSON-RPC: transactions

    Model of [crates/rpc/eth/transaction.rs]: lookups of transactions and receipts, calls,
    access lists, the estimate of gas and the submission of signed transactions
    ([types/transaction.rs]). *)

From S2P Require Import Prelude Rlp RlpLaws U256 Exponential Vm Codec Effects.
From S2P Require Import CoreTypes CoreLaws Consensus Genesis Store StateTries Blockchain NetTypes SerdeUtils RpcTypes RpcEth.

(** ** eth/transaction.rs *)
Definition CALL_STIPEND : Z := 2300.
Definition TRANSACTION_GAS : Z := 21000.

(** evm/execution_result.rs. *)
Definition result_output (self : ExecutionResult.t) : list Z :=
  match self with
  | ExecutionResult.Success _ _ _ _ output =>
    match output with OutputCall bytes => bytes | OutputCreate bytes _ => bytes end
  | ExecutionResult.Revert _ output => output
  | ExecutionResult.Halt _ _ => []
  end.
Definition gas_refunded (self : ExecutionResult.t) : Z :=
  match self with ExecutionResult.Success _ _ gas_refunded _ _ => gas_refunded | _ => 0 end.

Definition with_gas (gas : option Z) (t : GenericTransaction.t) : GenericTransaction.t :=
  let '(GenericTransaction.mk ty nonce to from _ value input gas_price tip fee blob_fee access hashes blobs chain) := t in
  GenericTransaction.mk ty nonce to from gas value input gas_price tip fee blob_fee access hashes blobs chain.

(** ** types/transaction.rs *)
Definition BYTES_PER_BLOB : Z := 32 * 4096.
Record WrappedEIP4844Transaction := mkWrapped {
  wrapped_tx : EIP4844Transaction.t; wrapped_blobs : list (list Z); wrapped_commitments : list (list Z);
  wrapped_proofs : list (list Z)
}.
Definition wrapped_decode_unfinished `{Profile} (rlp : list Z) : dres (WrappedEIP4844Transaction * list Z) :=
  decoder ← Decoder.new rlp;
  '(tx, decoder) ← Decoder.decode_field EIP4844Transaction.decode_unfinished "tx" decoder;
  '(blobs, decoder) ← Decoder.decode_field (vec_decode (array_decode BYTES_PER_BLOB)) "blobs" decoder;
  '(commitments, decoder) ← Decoder.decode_field (vec_decode (array_decode 48)) "commitments" decoder;
  '(proofs, decoder) ← Decoder.decode_field (vec_decode (array_decode 48)) "proofs" decoder;
  let wrapped := mkWrapped tx blobs commitments proofs in
  remaining ← Decoder.finish decoder;
  Ok (wrapped, remaining).
Inductive SendRawTransactionRequest :=
  | RawLegacy (t : LegacyTransaction.t)
  | RawEIP2930 (t : EIP2930Transaction.t)
  | RawEIP1559 (t : EIP1559Transaction.t)
  | RawEIP4844 (t : WrappedEIP4844Transaction).
Definition to_transaction (self : SendRawTransactionRequest) : Transaction.t :=
  match self with
  | RawLegacy t => Transaction.LegacyTransaction t
  | RawEIP1559 t => Transaction.EIP1559Transaction t
  | RawEIP2930 t => Transaction.EIP2930Transaction t
  | RawEIP4844 t => Transaction.EIP4844Transaction (wrapped_tx t)
  end.
Definition raw_decode_canonical `{Profile} (bytes : list Z) : dres SendRawTransactionRequest :=
  let legacy := RawLegacy <$> decode LegacyTransaction.decode_unfinished bytes in
  match head bytes with
  | Some tx_type =>
    if tx_type <? 0x7f then
      tx_bytes ← slice_from bytes 1;
      if tx_type =? 0x0 then RawLegacy <$> decode LegacyTransaction.decode_unfinished tx_bytes
      else if tx_type =? 0x1 then RawEIP2930 <$> decode EIP2930Transaction.decode_unfinished tx_bytes
      else if tx_type =? 0x2 then RawEIP1559 <$> decode EIP1559Transaction.decode_unfinished tx_bytes
      else if tx_type =? 0x3 then RawEIP4844 <$> decode wrapped_decode_unfinished tx_bytes
      else Transaction.invalid_type tx_type
    else legacy
  | None => legacy
  end.

Section Transactions.
Context `{Profile} `{Serde} `{Crypto} {S : Type} `{StoreEngine S} `{TrieEngine S} `{Backend S}.
Abbreviation M A := (stm S RpcErr A).

(** Requests with a transaction and an optional block. *)
Definition parse_call (params : option (list Value)) : res RpcErr (GenericTransaction.t * option BlockIdentifier) :=
  params ← ok_or BadParams params;
  if bool_decide (params = []) || (2 <? length params)%nat then Err BadParams
  else
    block ← match params !! 1%nat with
            | Some value => Some <$> parse_identifier value 1
            | None => Ok None
            end;
    p0 ← param params 0; transaction ← from_value_or from_value_GenericTransaction p0;
    Ok (transaction, block).

Definition simulate_tx (transaction : GenericTransaction.t) (block_header : BlockHeader.t) (spec_id : SpecId)
    : M ExecutionResult.t :=
  result ← stm_map_err (λ _, RpcVm)
    (simulate_tx_from_generic transaction block_header (evm_state (block_hash_of block_header)) spec_id);
  match result with
  | ExecutionResult.Revert _ output => lift (Err (RpcRevert (hex_bytes output)))
  | ExecutionResult.Halt reason gas_used => lift (Err (RpcHalt reason gas_used))
  | success => mret success
  end.
Definition eth_call (request : GenericTransaction.t * option BlockIdentifier) : M Reply :=
  let '(transaction, block) := request in
  let block := default BlockIdentifier_default block in
  header ← query (resolve_block_header block);
  match header with
  | None => mret ReplyNull
  | Some header =>
    result ← simulate_tx transaction header CANCUN;
    mret (ReplyString (hex_bytes (result_output result)))
  end.

Definition parse_index (v : Value) : res RpcErr string := from_value_or from_value_String v.
Definition parse_transaction_by_number_and_index (params : option (list Value)) : res RpcErr (BlockIdentifier * Z) :=
  params ← take_params 2 params;
  p1 ← param params 1; index_as_string ← parse_index p1;
  p0 ← param params 0; block ← parse_identifier p0 0;
  transaction_index ← ok_or BadParams (from_str_radix_16 (trim_0x index_as_string));
  Ok (block, transaction_index).
Definition get_transaction_by_number_and_index (request : BlockIdentifier * Z) : M Reply :=
  let '(block, transaction_index) := request in
  block_number ← query (resolve_block_number block);
  match block_number with
  | None => mret ReplyNull
  | Some block_number =>
    block_body ← query (get_block_body block_number);
    match block_body with
    | None => mret ReplyNull
    | Some block_body =>
      block_header ← query (get_block_header block_number);
      match block_header with
      | None => mret ReplyNull
      | Some block_header =>
        match BlockBody.transactions block_body !! Z.to_nat transaction_index with
        | None => mret ReplyNull
        | Some tx =>
          tx ← lift (RpcTransaction_build tx block_number (block_hash_of block_header) transaction_index);
          mret (ReplyTransaction tx)
        end
      end
    end
  end.
Definition parse_transaction_by_hash_and_index (params : option (list Value)) : res RpcErr (BlockHash * Z) :=
  params ← take_params 2 params;
  p1 ← param params 1; index_as_string ← parse_index p1;
  p0 ← param params 0; block ← from_value_or from_value_H256 p0;
  transaction_index ← ok_or BadParams (from_str_radix_16 (trim_0x index_as_string));
  Ok (block, transaction_index).
Definition get_transaction_by_hash_and_index (request : BlockHash * Z) : M Reply :=
  let '(block, transaction_index) := request in
  block_number ← query (get_block_number block);
  match block_number with
  | None => mret ReplyNull
  | Some block_number =>
    block_body ← query (get_block_body block_number);
    match block_body with
    | None => mret ReplyNull
    | Some block_body =>
      match BlockBody.transactions block_body !! Z.to_nat transaction_index with
      | None => mret ReplyNull
      | Some tx =>
        tx ← lift (RpcTransaction_build tx block_number block transaction_index);
        mret (ReplyTransaction tx)
      end
    end
  end.

Definition parse_one_hash (params : option (list Value)) : res RpcErr H256 :=
  params ← take_params 1 params; p0 ← param params 0; from_value_or from_value_H256 p0.
Definition get_transaction_by_hash_request (transaction_hash : H256) : M Reply :=
  location ← query (get_transaction_location transaction_hash);
  match location with
  | None => mret ReplyNull
  | Some (block_number, block_hash, index) =>
    transaction ← query (get_transaction_by_location block_hash index);
    match transaction with
    | None => mret ReplyNull
    | Some transaction =>
      transaction ← lift (RpcTransaction_build transaction block_number block_hash index);
      mret (ReplyTransaction transaction)
    end
  end.
Definition get_transaction_receipt (transaction_hash : H256) : M Reply :=
  location ← query (get_transaction_location transaction_hash);
  match location with
  | None => mret ReplyNull
  | Some (block_number, block_hash, index) =>
    block ← query (get_block_by_hash block_hash);
    match block with
    | None => mret ReplyNull
    | Some block =>
      receipts ← get_all_block_rpc_receipts block_number (Block.header block) (Block.body block);
      mret (ReplyReceipt (receipts !! Z.to_nat index))
    end
  end.
(** The hash is read from the same parameter that was checked for its prefix. *)
Definition parse_raw_transaction (params : option (list Value)) : res RpcErr H256 :=
  params ← take_params 1 params;
  p0 ← param params 0; transaction_str ← from_value_or from_value_String p0;
  if bool_decide (strip_prefix "0x" transaction_str = None) then Err (BadHexFormat 0)
  else from_value_or from_value_H256 p0.
Definition get_raw_transaction (transaction_hash : H256) : M Reply :=
  tx ← query (get_transaction_by_hash transaction_hash);
  match tx with
  | None => mret ReplyNull
  | Some tx => mret (ReplyString (hex_bytes (Transaction.encode tx)))
  end.

Definition create_access_list_request (request : GenericTransaction.t * option BlockIdentifier) : M Reply :=
  let '(transaction, block) := request in
  let block := default BlockIdentifier_default block in
  block_number ← query (resolve_block_number block);
  match block_number with
  | None => mret ReplyNull
  | Some block_number =>
    header ← query (get_block_header block_number);
    match header with
    | None => mret ReplyNull
    | Some header =>
      '(result, access_list) ← stm_map_err (λ _, RpcVm)
        (create_access_list transaction header (evm_state (block_hash_of header)) CANCUN);
      let '(gas_used, error) :=
        match result with
        | ExecutionResult.Success _ gas_used _ _ _ => (gas_used, None)
        | ExecutionResult.Revert gas_used _ => (gas_used, Some "Transaction Reverted")
        | ExecutionResult.Halt reason gas_used => (gas_used, Some reason)
        end in
      mret (ReplyAccessList (AccessListResult.mk access_list error gas_used))
    end
  end.

(** *** eth_estimateGas *)

(** [as_u64] panics on larger values. *)
Definition recap_with_account_balances (highest_gas_limit : Z) (transaction : GenericTransaction.t)
    (block_number : BlockNumber) : M Z :=
  account ← query (get_account_info keccak256 block_number (GenericTransaction.from transaction));
  let account_balance := default 0 (AccountInfo.balance <$> account) in
  account_gas ← lift (udiv (Z.max 0 (account_balance - GenericTransaction.value transaction))
    (GenericTransaction.gas_price transaction));
  account_gas ← lift (if account_gas <? 2 ^ 64 then Ok account_gas else Panic);
  mret (Z.min highest_gas_limit account_gas).

(** A simulation that only matters when it succeeds. *)
Definition simulates_successfully (transaction : GenericTransaction.t) (header : BlockHeader.t) (spec_id : SpecId) : M bool :=
  result ← attempt (simulate_tx transaction header spec_id);
  mret (match result with Some (ExecutionResult.Success _ _ _ _ _) => true | _ => false end).
(** The binary search. *)
Fixpoint search_gas (fuel : nat) (transaction : GenericTransaction.t) (header : BlockHeader.t) (spec_id : SpecId)
    (lowest_gas_limit highest_gas_limit middle_gas_limit : Z) : M Z :=
  match fuel with
  | O => λ s, (s, OutOfFuel)
  | Datatypes.S fuel =>
    next ← lift (uadd lowest_gas_limit 1);
    if next <? highest_gas_limit then
      distance ← lift (usub highest_gas_limit lowest_gas_limit);
      if below_error_ratio distance highest_gas_limit then mret highest_gas_limit
      else
        double ← lift (umul lowest_gas_limit 2);
        let middle_gas_limit := if double <? middle_gas_limit then double else middle_gas_limit in
        success ← simulates_successfully (with_gas (Some middle_gas_limit) transaction) header spec_id;
        let '(lowest_gas_limit, highest_gas_limit) :=
          if success : bool then (lowest_gas_limit, middle_gas_limit) else (middle_gas_limit, highest_gas_limit) in
        sum ← lift (uadd highest_gas_limit lowest_gas_limit);
        search_gas fuel transaction header spec_id lowest_gas_limit highest_gas_limit (sum / 2)
    else mret highest_gas_limit
  end.
Definition SEARCH_FUEL : nat := 200.
(** A transfer to an address without account takes the gas of a plain transaction. *)
Definition plain_transfer (transaction : GenericTransaction.t) (header : BlockHeader.t) (spec_id : SpecId) : M bool :=
  match GenericTransaction.to transaction with
  | TxKind.Create => mret false
  | TxKind.Call address =>
    account_info ← query (get_account_info keccak256 (BlockHeader.number header) address);
    match account_info with
    | Some info => _ ← attempt (get_account_code (AccountInfo.code_hash info)); mret false
    | None => simulates_successfully (with_gas (Some TRANSACTION_GAS) transaction) header spec_id
    end
  end.
Definition estimate_gas (request : GenericTransaction.t * option BlockIdentifier) : M Reply :=
  let '(transaction, block) := request in
  let block := default BlockIdentifier_default block in
  block_header ← query (resolve_block_header block);
  match block_header with
  | None => mret ReplyNull
  | Some block_header =>
    spec_id ← query (spec_id (BlockHeader.timestamp block_header));
    plain ← plain_transfer transaction block_header spec_id;
    if plain : bool then mret (ReplyString (hex_prefixed TRANSACTION_GAS))
    else
      let highest_gas_limit :=
        match GenericTransaction.gas transaction with
        | Some gas => Z.min gas (BlockHeader.gas_limit block_header)
        | None => BlockHeader.gas_limit block_header
        end in
      highest_gas_limit ←
        (if GenericTransaction.gas_price transaction =? 0 then mret highest_gas_limit
         else recap_with_account_balances highest_gas_limit transaction (BlockHeader.number block_header));
      result ← simulate_tx (with_gas (Some highest_gas_limit) transaction) block_header spec_id;
      let gas_used := ExecutionResult.gas_used result in
      sum ← lift (uadd gas_used (gas_refunded result));
      sum ← lift (uadd sum CALL_STIPEND);
      product ← lift (umul sum 64);
      let optimistic_limit := product / 63 in
      let lowest_gas_limit := Z.max 0 (gas_used - 1) in
      sum ← lift (uadd optimistic_limit lowest_gas_limit);
      gas ← search_gas SEARCH_FUEL transaction block_header spec_id lowest_gas_limit highest_gas_limit (sum / 2);
      mret (ReplyString (hex_prefixed gas))
  end.

(** *** eth_sendRawTransaction, with types/transaction.rs *)
Definition parse_send_raw (params : option (list Value)) : res RpcErr SendRawTransactionRequest :=
  params ← take_params 1 params;
  p0 ← param params 0; str_data ← from_value_or from_value_String p0;
  str_data ← ok_or BadParams (strip_prefix "0x" str_data);
  data ← ok_or BadParams (hex_decode str_data);
  map_err (λ _, BadParams) (raw_decode_canonical data).
Definition send_raw_transaction (self : SendRawTransactionRequest) : M Reply :=
  hash ← stm_map_err (λ _, BadParams) (add_transaction keccak256 (to_transaction self));
  mret (ReplyString (hex_bytes hash)).
End Transactions.
