(* ===== verification/RpcEngine.v ===== *)
(** * JSON-RPC: the engine API

    Model of [crates/rpc/engine] and [types/payload.rs]: the requests with which a
    consensus client delivers blocks, sets the head of the chain and asks for payloads. *)

From S2P Require Import Prelude Rlp RlpLaws U256 Exponential Vm Codec Effects.
From S2P Require Import CoreTypes CoreLaws Consensus Genesis Store StateTries Blockchain NetTypes SerdeUtils RpcTypes RpcEth.

(** ** types/payload.rs *)
Section Payloads.
Context `{Profile} `{Crypto}.

(** [EncodedTransaction::decode] on every transaction, up to the first error. *)
Fixpoint decode_transactions (l : list (list Z)) : dres (list Transaction.t) :=
  match l with
  | [] => Ok []
  | encoded_tx :: l =>
    tx ← Transaction.decode_canonical encoded_tx;
    txs ← decode_transactions l;
    Ok (tx :: txs)
  end.
Definition into_block (self : ExecutionPayloadV3.t) (parent_beacon_block_root : H256) : dres Block.t :=
  transactions ← decode_transactions (ExecutionPayloadV3.transactions self);
  let body := BlockBody.mk transactions [] (Some (ExecutionPayloadV3.withdrawals self)) in
  Ok (Block.mk (BlockHeader.mk
    (ExecutionPayloadV3.parent_hash self)
    DEFAULT_OMMERS_HASH
    (ExecutionPayloadV3.fee_recipient self)
    (ExecutionPayloadV3.state_root self)
    (compute_transactions_root trie_root (BlockBody.transactions body))
    (ExecutionPayloadV3.receipts_root self)
    (ExecutionPayloadV3.logs_bloom self)
    0
    (ExecutionPayloadV3.block_number self)
    (ExecutionPayloadV3.gas_limit self)
    (ExecutionPayloadV3.gas_used self)
    (ExecutionPayloadV3.timestamp self)
    (ExecutionPayloadV3.extra_data self)
    (ExecutionPayloadV3.prev_randao self)
    0
    (Some (ExecutionPayloadV3.base_fee_per_gas self))
    (Some (compute_withdrawals_root trie_root (default [] (BlockBody.withdrawals body))))
    (Some (ExecutionPayloadV3.blob_gas_used self))
    (Some (ExecutionPayloadV3.excess_blob_gas self))
    (Some parent_beacon_block_root)) body).
Definition from_block (block : Block.t) : ExecutionPayloadV3.t :=
  let header := Block.header block in
  let body := Block.body block in
  ExecutionPayloadV3.mk
    (BlockHeader.parent_hash header)
    (BlockHeader.coinbase header)
    (BlockHeader.state_root header)
    (BlockHeader.receipts_root header)
    (BlockHeader.logs_bloom header)
    (BlockHeader.prev_randao header)
    (BlockHeader.number header)
    (BlockHeader.gas_limit header)
    (BlockHeader.gas_used header)
    (BlockHeader.timestamp header)
    (BlockHeader.extra_data header)
    (default 0 (BlockHeader.base_fee_per_gas header))
    (block_hash_of header)
    (map Transaction.encode_canonical (BlockBody.transactions body))
    (default [] (BlockBody.withdrawals body))
    (default 0 (BlockHeader.blob_gas_used header))
    (default 0 (BlockHeader.excess_blob_gas header)).
End Payloads.

Section EngineApi.
Context `{Profile} `{Serde} `{Crypto} {S : Type} `{StoreEngine S} `{TrieEngine S} `{Backend S}.
Abbreviation M A := (stm S RpcErr A).

(** Block import and payload building with the tries of the store. *)
Definition import_block (block : Block.t) : stm S ChainError unit :=
  Blockchain.add_block keccak256 EvmState AccountUpdate.t evm_state accrue execute_tx beacon_root_contract_call
    process_withdrawals get_state_transitions (apply_account_updates keccak256) block.
Definition build (args : BuildPayloadArgs.t) : stm S ChainError Block.t :=
  build_payload trie_root EvmState AccountUpdate.t evm_state beacon_root_contract_call
    process_withdrawals get_state_transitions (apply_account_updates keccak256) args.

(** ** engine/payload.rs *)
Record NewPayloadV3Request := mkNewPayload {
  payload : ExecutionPayloadV3.t; expected_blob_versioned_hashes : list H256; parent_beacon_block_root : H256
}.
Definition parse_new_payload (params : option (list Value)) : res RpcErr NewPayloadV3Request :=
  params ← take_params 3 params;
  p0 ← param params 0; payload ← from_value_or from_value_ExecutionPayloadV3 p0;
  p1 ← param params 1; hashes ← from_value_or from_value_H256s p1;
  p2 ← param params 2; root ← from_value_or from_value_H256 p2;
  Ok (mkNewPayload payload hashes root).

(** The status that an import ends with, and [set_canonical_block] after a success. *)
Definition import_status (block : Block.t) (block_hash latest_valid_hash : BlockHash) : M PayloadStatus.t := λ s,
  match import_block block s with
  | (s, Err NonCanonicalParent) => (s, Ok PayloadStatus.syncing)
  | (s, Err ParentNotFound) =>
    (s, Ok (PayloadStatus.invalid_with_err "Could not reference parent block with parent_hash"))
  | (s, Err (InvalidBlock _)) => (s, Ok (PayloadStatus.invalid_with_hash latest_valid_hash))
  | (s, Err (ChainEvmError error)) => (s, Ok (PayloadStatus.invalid_with_err (EvmError_to_string error)))
  | (s, Err (ChainStoreError _)) => (s, Err Internal)
  | (s, Ok _) =>
    (_ ← query (set_canonical_block (BlockHeader.number (Block.header block)) block_hash);
     mret (PayloadStatus.valid_with_hash block_hash)) s
  | (s, Panic) => (s, Panic)
  | (s, OutOfFuel) => (s, OutOfFuel)
  end.
(** [fork < Fork::Cancun]. *)
Definition before_cancun (fork : ChainConfig.Fork) : bool := match fork with ChainConfig.Cancun => false | _ => true end.
Definition new_payload (self : NewPayloadV3Request) : M Reply :=
  let block_hash := ExecutionPayloadV3.block_hash (payload self) in
  let status s : M Reply := mret (ReplyPayloadStatus s) in
  match into_block (payload self) (parent_beacon_block_root self) with
  | Err error => status (PayloadStatus.invalid_with_err (RLPDecodeError_to_string error))
  | Panic => lift Panic
  | OutOfFuel => lift OutOfFuel
  | Ok block =>
    chain_config ← query get_chain_config;
    if before_cancun (ChainConfig.get_fork chain_config (BlockHeader.timestamp (Block.header block)))
    then lift (Err UnsuportedFork)
    else
      let actual_block_hash := block_hash_of (Block.header block) in
      if bool_decide (block_hash ≠ actual_block_hash) then status (PayloadStatus.invalid_with_err "Invalid block hash")
      else
        let blob_versioned_hashes :=
          concat (map Transaction.blob_versioned_hashes (BlockBody.transactions (Block.body block))) in
        if bool_decide (expected_blob_versioned_hashes self ≠ blob_versioned_hashes)
        then status (PayloadStatus.invalid_with_err "Invalid blob_versioned_hashes")
        else
          last_block_number ← query get_latest_block_number;
          last_block_number ← lift (ok_or Internal last_block_number);
          let number := BlockHeader.number (Block.header block) in
          if number <=? last_block_number then
            stored ← query (get_block_number block_hash);
            if bool_decide (stored = Some number) then status (PayloadStatus.valid_with_hash block_hash)
            else lift (Err Internal)
          else
            next ← lift (uadd last_block_number 1);
            if negb (number =? next) then status PayloadStatus.syncing
            else
              latest_valid_hash ← stm_map_err (λ _, Internal) (latest_valid_hash keccak256);
              payload_status ← import_status block block_hash latest_valid_hash;
              status payload_status
  end.

Definition parse_get_payload (params : option (list Value)) : res RpcErr Z :=
  params ← take_params 1 params;
  p0 ← param params 0;
  match from_value_String p0 with
  | None => Err BadParams
  | Some hex_str =>
    match strip_prefix "0x" hex_str with
    | None => Err (BadHexFormat 0)
    | Some hex_str =>
      match from_str_radix_16 hex_str with
      | None => Err (BadHexFormat 0)
      | Some payload_id => Ok payload_id
      end
    end
  end.
Definition get_payload_request (payload_id : Z) : M Reply :=
  payload ← query (get_payload payload_id);
  match payload with
  | None => lift (Err UnknownPayload)
  | Some payload =>
    block_value ← query (payload_block_value payload);
    block_value ← lift (ok_or Internal block_value);
    mret (ReplyPayload (ExecutionPayloadResponse.new (from_block payload) block_value))
  end.

(** ** engine/fork_choice.rs *)
Record ForkChoiceUpdatedV3 := mkForkChoice {
  fork_choice_state : ForkChoiceState; payload_attributes : option PayloadAttributesV3.t
}.
Definition parse_fork_choice (params : option (list Value)) : res RpcErr ForkChoiceUpdatedV3 :=
  params ← take_params 2 params;
  p0 ← param params 0; state ← from_value_or from_value_ForkChoiceState p0;
  p1 ← param params 1; attributes ← from_value_or from_value_PayloadAttributesV3 p1;
  Ok (mkForkChoice state attributes).

Definition zero_hash (h : H256) : bool := bool_decide (h = replicate 32 0).
(** [parent_total_difficulty.unwrap() >= U256::zero()] holds of every number. *)
Definition total_difficulty_check (head_block_hash : H256) (head_block : BlockHeader.t) : stm S StoreError (option string) :=
  if negb (BlockHeader.difficulty head_block =? 0) || (BlockHeader.number head_block =? 0) then
    total_difficulty ← get_block_total_difficulty head_block_hash;
    parent_total_difficulty ← get_block_total_difficulty (BlockHeader.parent_hash head_block);
    config ← get_chain_config;
    match ChainConfig.terminal_total_difficulty config, total_difficulty with
    | Some terminal, Some total =>
      if (0 <? BlockHeader.number head_block) && bool_decide (parent_total_difficulty = None)
      then mret (Some "total difficulties unavailable for terminal total difficulty check")
      else if total <? terminal then mret (Some "refusing beacon update to pre-merge")
      else if 0 <? BlockHeader.number head_block then
        parent ← lift (unwrap parent_total_difficulty);
        if 0 <=? parent then mret (Some "parent block is already post terminal total difficulty") else mret None
      else mret None
    | _, _ => mret (Some "total difficulties unavailable for terminal total difficulty check")
    end
  else mret None.

Definition set_finalized_block (finalized_block_hash : H256) : M unit :=
  if zero_hash finalized_block_hash then mret tt
  else
    finalized_block ← query (get_block_by_hash finalized_block_hash);
    match finalized_block with
    | None => lift (Err (InvalidForkChoiceState "final block not available in database"))
    | Some finalized_block =>
      let number := BlockHeader.number (Block.header finalized_block) in
      canonical ← query (get_canonical_block_hash number);
      if bool_decide (canonical = Some finalized_block_hash) then query (update_finalized_block_number number)
      else lift (Err (InvalidForkChoiceState "final block not in canonical chain"))
    end.
Definition set_safe_block (safe_block_hash : H256) : M unit :=
  if zero_hash safe_block_hash then mret tt
  else
    safe_block ← query (get_block_by_hash safe_block_hash);
    match safe_block with
    | None => lift (Err (InvalidForkChoiceState "safe block not available in database"))
    | Some safe_block =>
      let number := BlockHeader.number (Block.header safe_block) in
      canonical ← query (get_canonical_block_hash number);
      if bool_decide (canonical = Some safe_block_hash) then query (update_safe_block_number number)
      else lift (Err (InvalidForkChoiceState "safe block not in canonical chain"))
    end.

(** [build_payload] and [add_payload] for the attributes; the id goes into the response. *)
Definition start_payload (head : H256) (attributes : PayloadAttributesV3.t) (response : ForkChoiceResponse.t)
    : M ForkChoiceResponse.t :=
  let args := BuildPayloadArgs.mk head (PayloadAttributesV3.timestamp attributes)
    (PayloadAttributesV3.suggested_fee_recipient attributes) (PayloadAttributesV3.prev_randao attributes)
    (PayloadAttributesV3.withdrawals attributes) (Some (PayloadAttributesV3.parent_beacon_block_root attributes)) 3 in
  payload_id ← lift (no_err (BuildPayloadArgs.id keccak256 args));
  let response := ForkChoiceResponse.set_id payload_id response in
  payload ← stm_map_err (λ e, match e with ChainEvmError _ => RpcVm | _ => Internal end) (build args);
  _ ← query (add_payload payload_id payload);
  mret response.

Definition fork_choice_updated (self : ForkChoiceUpdatedV3) : M Reply :=
  let head := head_block_hash (fork_choice_state self) in
  let error_response err_msg : M Reply := mret (ReplyForkChoice (ForkChoiceResponse.from (PayloadStatus.invalid_with_err err_msg))) in
  if zero_hash head then error_response "forkchoice requested update to zero hash"
  else
    head_block ← query (get_block_header_by_hash head);
    match head_block with
    | None => lift (Err Internal)
    | Some head_block =>
      error ← query (total_difficulty_check head head_block);
      match error with
      | Some error => error_response error
      | None =>
        canonical_block ← query (get_canonical_block_hash (BlockHeader.number head_block));
        current_block_number ← query get_latest_block_number;
        current_block_number ← lift (ok_or Internal current_block_number);
        current_block_hash ← query (get_canonical_block_hash current_block_number);
        let proceed : M Reply :=
          _ ← set_finalized_block (finalized_block_hash (fork_choice_state self));
          _ ← set_safe_block (safe_block_hash (fork_choice_state self));
          let response := ForkChoiceResponse.from (PayloadStatus.valid_with_hash head) in
          response ← match payload_attributes self with
                     | Some attributes => start_payload head attributes response
                     | None => mret response
                     end;
          mret (ReplyForkChoice response) in
        if bool_decide (is_Some canonical_block ∧ canonical_block ≠ Some head) then
          parent ← query (get_canonical_block_hash (Z.max 0 (BlockHeader.number head_block - 1)));
          _ ← (if bool_decide (parent = Some (BlockHeader.parent_hash head_block))
               then query (set_canonical_block (BlockHeader.number head_block) head) else mret tt);
          proceed
        else if bool_decide (is_Some current_block_hash ∧ current_block_hash ≠ Some head)
        then mret (ReplyPayloadStatus PayloadStatus.valid)
        else proceed
      end
    end.

(** ** engine/exchange_transition_config.rs and engine/mod.rs *)
Definition parse_transition_config (params : option (list Value)) : res RpcErr ExchangeTransitionConfigPayload.t :=
  params ← take_params 1 params;
  p0 ← param params 0; from_value_or from_value_ExchangeTransitionConfigPayload p0.
Definition exchange_transition_config (payload : ExchangeTransitionConfigPayload.t) : M Reply :=
  chain_config ← query get_chain_config;
  let terminal_total_difficulty := default 0 (ChainConfig.terminal_total_difficulty chain_config) in
  let number := ExchangeTransitionConfigPayload.terminal_block_number payload in
  block ← query (get_block_header number);
  let terminal_block_hash := match block with None => replicate 32 0 | Some block => block_hash_of block end in
  mret (ReplyTransitionConfig (ExchangeTransitionConfigPayload.mk terminal_total_difficulty terminal_block_hash number)).
Definition parse_capabilities (params : option (list Value)) : res RpcErr (list string) :=
  params ← ok_or BadParams params;
  v ← ok_or BadParams (head params);
  from_value_or from_value_Strings v.
Definition exchange_capabilities (self : list string) : M Reply := mret (ReplyStrings self).
End EngineApi.
