(* ===== verification/Rpc.v ===== *)
(** * JSON-RPC: authentication and dispatch

    Model of [crates/rpc/rpc.rs], [authentication.rs] and [admin/mod.rs]: how a request of
    either server reaches its handler, and the response it gets.  The servers themselves,
    sockets and routes, are not modelled; neither is the log. *)

From Stdlib Require Import Ascii.
From S2P Require Import Prelude Rlp RlpLaws U256 Exponential Vm Codec Effects.
From S2P Require Import CoreTypes CoreLaws Consensus Genesis Store StateTries Blockchain NetTypes.
From S2P Require Import SerdeUtils RpcTypes RpcEth RpcTx RpcEngine.

(** ** authentication.rs *)

(** [jsonwebtoken::decode] with HS256: the [iat] claim of a token that the secret signs. *)
Class Jwt := jwt_decode : string → list Z → option Z.

Section Authentication.
Context `{Profile} `{Jwt}.
(** [x as isize], and a result of [isize] arithmetic. *)
Definition as_isize (x : Z) : Z := if x <? 2 ^ 63 then x else x - 2 ^ 64.
Definition isize {E} (x : Z) : res E Z :=
  if (- 2 ^ 63 <=? x) && (x <? 2 ^ 63) then Ok x
  else if overflow_checks then Panic else Ok (as_isize (x mod 2 ^ 64)).
Definition invalid_issued_at_claim (now iat : Z) : pres bool :=
  d ← isize (as_isize now - as_isize iat);
  d ← isize (Z.abs d);
  Ok (60 <? d).
Definition validate_jwt_authentication (now : Z) (token : string) (secret : list Z) : res AuthenticationError unit :=
  match jwt_decode token secret with
  | Some iat =>
    invalid ← no_err (invalid_issued_at_claim now iat);
    if invalid : bool then Err InvalidIssuedAtClaim else Ok tt
  | None => Err TokenDecodingError
  end.
Definition authenticate (now : Z) (secret : list Z) (auth_header : option string) : res RpcErr unit :=
  match auth_header with
  | Some token => map_err RpcAuthenticationError (validate_jwt_authentication now token secret)
  | None => Err (RpcAuthenticationError MissingAuthentication)
  end.
End Authentication.

(** ** rpc.rs *)
Module RpcApiContext.
Record t := mk { jwt_secret : list Z; local_p2p_node : Node.t }.
End RpcApiContext.
Inductive Response :=
  | RpcSuccessResponse (id : RpcRequestId) (result : Reply)
  | RpcErrorResponse (id : RpcRequestId) (error : RpcErrorMetadata).

Section Dispatch.
Context `{Profile} `{Serde} `{Crypto} `{Jwt} {S : Type} `{StoreEngine S} `{TrieEngine S} `{Backend S}.
Abbreviation M A := (stm S RpcErr A).

(** [RpcHandler::call]. *)
Definition call {R} (parse : option (list Value) → res RpcErr R) (handle : R → M Reply) (req : RpcRequest.t) : M Reply :=
  request ← lift (parse (RpcRequest.params req));
  handle request.
(** [parse] of the requests that ignore their parameters. *)
Definition no_params (_ : option (list Value)) : res RpcErr unit := Ok tt.

(** The arms of the [match] on the method. *)
Definition eth_methods : list (string * (RpcRequest.t → M Reply)) :=
  [("eth_chainId", call no_params (λ _, chain_id_request));
   ("eth_syncing", call no_params (λ _, syncing_request));
   ("eth_getBlockByNumber", call parse_block_by_number get_block_by_number);
   ("eth_getBlockByHash", call parse_block_by_hash get_block_by_hash_request);
   ("eth_getBalance", call parse_account get_balance);
   ("eth_getCode", call parse_account get_code);
   ("eth_getStorageAt", call parse_storage_at get_storage_at_request);
   ("eth_getBlockTransactionCountByNumber", call parse_one_identifier_or_hash get_block_transaction_count);
   ("eth_getBlockTransactionCountByHash", call parse_one_identifier_or_hash get_block_transaction_count);
   ("eth_getTransactionByBlockNumberAndIndex", call parse_transaction_by_number_and_index get_transaction_by_number_and_index);
   ("eth_getTransactionByBlockHashAndIndex", call parse_transaction_by_hash_and_index get_transaction_by_hash_and_index);
   ("eth_getBlockReceipts", call parse_one_identifier_or_hash get_block_receipts);
   ("eth_getTransactionByHash", call parse_one_hash get_transaction_by_hash_request);
   ("eth_getTransactionReceipt", call parse_one_hash get_transaction_receipt);
   ("eth_createAccessList", call parse_call create_access_list_request);
   ("eth_blockNumber", call no_params (λ _, block_number_request));
   ("eth_call", call parse_call eth_call);
   ("eth_blobBaseFee", call no_params (λ _, get_blob_base_fee));
   ("eth_getTransactionCount", call parse_account get_transaction_count);
   ("eth_feeHistory", call parse_fee_history fee_history);
   ("eth_estimateGas", call parse_call estimate_gas);
   ("eth_getLogs", call parse_logs get_logs);
   ("eth_sendRawTransaction", call parse_send_raw send_raw_transaction);
   ("eth_getProof", call parse_proof get_proof_request)].
Definition debug_methods : list (string * (RpcRequest.t → M Reply)) :=
  [("debug_getRawHeader", call parse_one_identifier get_raw_header);
   ("debug_getRawBlock", call parse_one_identifier get_raw_block);
   ("debug_getRawTransaction", call parse_raw_transaction get_raw_transaction);
   ("debug_getRawReceipts", call parse_one_identifier get_raw_receipts)].
Definition engine_methods : list (string * (RpcRequest.t → M Reply)) :=
  [("engine_exchangeCapabilities", call parse_capabilities exchange_capabilities);
   ("engine_forkchoiceUpdatedV3", call parse_fork_choice fork_choice_updated);
   ("engine_newPayloadV3", call parse_new_payload new_payload);
   ("engine_exchangeTransitionConfigurationV1", call parse_transition_config exchange_transition_config);
   ("engine_getPayloadV3", call parse_get_payload get_payload_request)].
Definition dispatch (methods : list (string * (RpcRequest.t → M Reply))) (req : RpcRequest.t) : M Reply :=
  match List.find (λ '(name, _), bool_decide (name = RpcRequest.method req)) methods with
  | Some (_, handler) => handler req
  | None => lift (Err MethodNotFound)
  end.
Definition map_eth_requests : RpcRequest.t → M Reply := dispatch eth_methods.
Definition map_debug_requests : RpcRequest.t → M Reply := dispatch debug_methods.
Definition map_engine_requests : RpcRequest.t → M Reply := dispatch engine_methods.

(** *** admin/mod.rs, with [Node::enode_url] of net/types.rs *)
Definition enode_url (self : Node.t) : string :=
  "enode://" +:+ hex_encode (Node.node_id self) +:+ "@" +:+ IpAddr_to_string (Node.ip self) +:+ ":" +:+
  decimal (Node.udp_port self) +:+ "?discport=" +:+ decimal (Node.tcp_port self).
Definition node_info (local_node : Node.t) : M Reply :=
  chain_config ← query get_chain_config;
  mret (ReplyNodeInfo (NodeInfo.mk (enode_url local_node) (hex_encode (Node.node_id local_node))
    (IpAddr_to_string (Node.ip local_node)) "ethereum_rust/0.1.0/rust1.80" (Node.udp_port local_node)
    (Node.tcp_port local_node) [("eth", chain_config)])).
Definition map_admin_requests (req : RpcRequest.t) (local_p2p_node : Node.t) : M Reply :=
  if bool_decide (RpcRequest.method req = "admin_nodeInfo") then node_info local_p2p_node
  else lift (Err MethodNotFound).

Definition map_http_requests (req : RpcRequest.t) (local_p2p_node : Node.t) : M Reply :=
  match namespace req with
  | Ok Eth => map_eth_requests req
  | Ok Admin => map_admin_requests req local_p2p_node
  | Ok Debug_ => map_debug_requests req
  | _ => lift (Err MethodNotFound)
  end.
Definition map_authrpc_requests (req : RpcRequest.t) : M Reply :=
  match namespace req with
  | Ok Engine => map_engine_requests req
  | Ok Eth => map_eth_requests req
  | _ => lift (Err MethodNotFound)
  end.

(** A response for every result; a panic ends the task of the request without one. *)
Definition rpc_response {E} (id : RpcRequestId) (r : res RpcErr Reply) : res E Response :=
  match r with
  | Ok result => Ok (RpcSuccessResponse id result)
  | Err error => Ok (RpcErrorResponse id (error_metadata error))
  | Panic => Panic
  | OutOfFuel => OutOfFuel
  end.
(** [parse_request] is [serde_json::from_str], whose error is unwrapped. *)
Definition handle_http_request (parse_request : string → option RpcRequest.t) (ctx : RpcApiContext.t) (body : string)
    : stm S never Response := λ s,
  match parse_request body with
  | None => (s, Panic)
  | Some req =>
    let '(s, r) := map_http_requests req (RpcApiContext.local_p2p_node ctx) s in
    (s, rpc_response (RpcRequest.id req) r)
  end.
Definition handle_authrpc_request (parse_request : string → option RpcRequest.t) (now : Z) (ctx : RpcApiContext.t)
    (auth_header : option string) (body : string) : stm S never Response := λ s,
  match parse_request body with
  | None => (s, Panic)
  | Some req =>
    match authenticate now (RpcApiContext.jwt_secret ctx) auth_header with
    | Ok _ =>
      let '(s, r) := map_authrpc_requests req s in
      (s, rpc_response (RpcRequest.id req) r)
    | Err error => (s, rpc_response (RpcRequest.id req) (Err error))
    | Panic => (s, Panic)
    | OutOfFuel => (s, OutOfFuel)
    end
  end.
End Dispatch.
