(* ===== verification/RpcLaws.v ===== *)
(** * JSON-RPC: what requests can do to the store

    Every request of the public server and every request that is not authenticated leaves
    the chain and the state as they are; only [eth_sendRawTransaction] changes anything,
    and it only adds to the pool.  The theorems hold for every engine whose operations on
    tables leave the nodes of tries alone ([QuietEngine]) and every back end whose
    simulations leave the store, and whose executions the chain, alone ([LawfulBackend]). *)

From S2P Require Import Prelude Rlp RlpLaws U256 Exponential Vm Codec Effects.
From S2P Require Import CoreTypes CoreLaws Consensus Genesis Store StoreLaws StateTries StateLaws Blockchain PayloadLaws ImportLaws ImportState.
From S2P Require Import NetTypes SerdeUtils RpcTypes RpcEth RpcTx RpcEngine Rpc.

#[local] Set Default Proof Using "Type*".

(** ** Engines and back ends *)

(** The operations on tables that the handlers use. *)
Inductive table_op {S} `{StoreEngine S} : ∀ {A}, stm S StoreError A → Prop :=
  | op_header n : table_op (get_block_header n)
  | op_body n : table_op (get_block_body n)
  | op_body_by_hash h : table_op (get_block_body_by_hash h)
  | op_header_by_hash h : table_op (get_block_header_by_hash h)
  | op_number h : table_op (get_block_number h)
  | op_difficulty h : table_op (get_block_total_difficulty h)
  | op_location h : table_op (get_transaction_location h)
  | op_receipt n i : table_op (get_receipt n i)
  | op_code h : table_op (get_account_code h)
  | op_canonical n : table_op (get_canonical_block_hash n)
  | op_config : table_op get_chain_config
  | op_earliest : table_op get_earliest_block_number
  | op_finalized : table_op get_finalized_block_number
  | op_safe : table_op get_safe_block_number
  | op_latest : table_op get_latest_block_number
  | op_pending : table_op get_pending_block_number
  | op_payload i : table_op (get_payload i)
  | op_pool h t : table_op (add_transaction_to_pool h t).
#[export] Hint Constructors table_op : core.
Class QuietEngine (S : Type) `{StoreEngine S} `{TrieEngine S} :=
  quiet_op : ∀ A (m : stm S StoreError A), table_op m → quiet m.
#[export] Instance in_memory_quiet : QuietEngine InMemoryTries.Store.
Proof. intros A m Hm. destruct Hm; apply quiet_inner. Qed.

Section Serves.
Context {S : Type} `{LawfulTrieEngine S} `{!QuietEngine S}.

(** A computation that leaves tables and nodes alone. *)
Definition serves {E A} (m : stm S E A) : Prop := ∀ s, contents (m s).1 = contents s ∧ same_nodes s (m s).1.

Lemma serves_ret {E A} (a : A) : serves (E:=E) (mret a).
Proof. by intros s. Qed.
Lemma serves_lift {E A} (r : res E A) : serves (lift r).
Proof. by intros s. Qed.
Lemma serves_bind {E A B} (m : stm S E A) (k : A → stm S E B) : serves m → (∀ a, serves (k a)) → serves (m ≫= k).
Proof.
  intros Hm Hk s. destruct (Hm s) as [Hc Hn]. unfold mbind, stm_mbind.
  destruct (m s) as [s1 [a|e| |]]; cbn in *; [|done..]. destruct (Hk a s1) as [Hc' Hn'].
  split; [by rewrite Hc'|]. intros h. by rewrite Hn'.
Qed.
Lemma serves_map_err {E F A} (f : E → F) (m : stm S E A) : serves m → serves (stm_map_err f m).
Proof. intros Hm s. specialize (Hm s). unfold stm_map_err. by destruct (m s). Qed.
Lemma serves_attempt {E F A} (m : stm S E A) : serves m → serves (E:=F) (attempt m).
Proof. intros Hm s. specialize (Hm s). unfold attempt. by destruct (m s) as [? []]. Qed.
Lemma serves_op {A} (m : stm S StoreError A) m' :
  table_op m → simulates contents m m' → (∀ c, (m' c).1 = c) → serves m.
Proof.
  intros Ho Hm Hr s. split; [|by apply quiet_op].
  specialize (Hm s). specialize (Hr (contents s)). rewrite Hm in Hr. by cbn in Hr.
Qed.
Lemma serves_trie_get `{Profile} t k : serves (trie_get (S:=S) t k).
Proof. by intros s. Qed.
Lemma serves_trie_get_proof `{Profile} t k : serves (trie_get_proof (S:=S) t k).
Proof. by intros s. Qed.
Lemma serves_open `{Profile} keccak a r : serves (open_storage_trie (S:=S) keccak a r).
Proof.
  intros s. split; [apply contents_set|]. intros h. cbn.
  destruct (decide (h = StorageNodes a)) as [->|Hne]; [apply nodes_set|by rewrite nodes_set_ne].
Qed.
End Serves.

(** Proves [serves] of a handler. *)
Ltac serve :=
  repeat first
    [ progress intros
    | apply serves_ret | apply serves_lift | apply serves_bind | apply serves_map_err | apply serves_attempt
    | apply serves_trie_get | apply serves_trie_get_proof | apply serves_open
    | case_match | assumption
    | solve [eapply serves_op; [constructor|eauto with engine|done]]
    | solve [eauto with serves] ].
Create HintDb serves.

Class LawfulBackend (S : Type) `{LawfulTrieEngine S} `{Backend S} := {
  simulate_serves : ∀ t h st spec, serves (simulate_tx_from_generic t h st spec);
  access_list_serves : ∀ t h st spec, serves (create_access_list t h st spec);
  execute_tx_keeps : ∀ tx hdr spec st, keeps (execute_tx tx hdr spec st);
  beacon_root_keeps : ∀ hdr spec st, keeps (beacon_root_contract_call hdr spec st);
  withdrawals_keep : ∀ l st, keeps (process_withdrawals l st)
}.
#[export] Hint Resolve simulate_serves access_list_serves : serves.

Section Handlers.
Context `{Profile} `{Serde} `{Crypto} {S : Type} `{LawfulTrieEngine S} `{!QuietEngine S} `{Backend S} `{!LawfulBackend S}.

Lemma resolve_serves b : serves (resolve_block_number (S:=S) b).
Proof. unfold resolve_block_number. serve. Qed.
Hint Resolve resolve_serves : serves.
Lemma resolve_header_serves b : serves (resolve_block_header (S:=S) b).
Proof. unfold resolve_block_header. serve. Qed.
Lemma resolve_or_hash_serves b : serves (resolve_block_number_or_hash (S:=S) b).
Proof. unfold resolve_block_number_or_hash. serve. Qed.
Lemma state_trie_serves h : serves (state_trie (S:=S) keccak256 h).
Proof. unfold state_trie. serve. Qed.
Lemma find_parent_serves h : serves (find_parent_header (S:=S) h).
Proof. unfold find_parent_header. serve. Qed.
Lemma spec_id_serves t : serves (spec_id (S:=S) t).
Proof. unfold spec_id. serve. Qed.
Lemma by_location_serves h i : serves (get_transaction_by_location (S:=S) h i).
Proof. unfold get_transaction_by_location. serve. Qed.
Hint Resolve resolve_header_serves resolve_or_hash_serves state_trie_serves find_parent_serves spec_id_serves
  by_location_serves : serves.
Lemma by_hash_serves h : serves (get_transaction_by_hash (S:=S) h).
Proof. unfold get_transaction_by_hash. serve. Qed.
Lemma block_by_hash_serves h : serves (get_block_by_hash (S:=S) h).
Proof. unfold get_block_by_hash. serve. Qed.
Lemma header_and_body_serves n : serves (header_and_body (S:=S) n).
Proof. unfold header_and_body, query. serve. Qed.
Lemma storage_trie_serves h a : serves (storage_trie (S:=S) keccak256 h a).
Proof. unfold storage_trie, decode_or. serve. Qed.
Hint Resolve by_hash_serves block_by_hash_serves header_and_body_serves storage_trie_serves : serves.
Lemma account_info_serves n a : serves (get_account_info (S:=S) keccak256 n a).
Proof. unfold get_account_info, get_account_info_by_hash, decode_or. serve. Qed.
Lemma account_state_serves n a : serves (get_account_state (S:=S) keccak256 n a).
Proof. unfold get_account_state, decode_or. serve. Qed.
Lemma code_serves n a : serves (get_code_by_account_address (S:=S) keccak256 n a).
Proof. unfold get_code_by_account_address, decode_or. serve. Qed.
Lemma nonce_serves n a : serves (get_nonce_by_account_address (S:=S) keccak256 n a).
Proof. unfold get_nonce_by_account_address, decode_or. serve. Qed.
Lemma storage_at_serves n a k : serves (get_storage_at (S:=S) keccak256 n a k).
Proof. unfold get_storage_at, get_storage_at_hash, decode_or. serve. Qed.
Lemma account_proof_serves n a : serves (get_account_proof (S:=S) keccak256 n a).
Proof. unfold get_account_proof. serve. Qed.
Lemma storage_proof_serves a r k : serves (get_storage_proof (S:=S) keccak256 a r k).
Proof. unfold get_storage_proof. serve. Qed.
Lemma required_serves b : serves (required_block_number (S:=S) b).
Proof. unfold required_block_number, query. serve. Qed.
Hint Resolve account_info_serves account_state_serves code_serves nonce_serves storage_at_serves
  account_proof_serves storage_proof_serves required_serves : serves.

(** The loops. *)
Lemma storage_proofs_serve l : ∀ n a r, serves (storage_proofs (S:=S) l n a r).
Proof. induction l as [|k l IH]; intros; cbn; unfold query; serve. Qed.
Lemma rpc_receipts_serve l : ∀ i n p b g j, serves (rpc_receipts_loop (S:=S) l i n p b g j).
Proof. induction l as [|t l IH]; intros; cbn; unfold query; serve. Qed.
Lemma receipts_serve l : ∀ i n, serves (receipts_loop (S:=S) l i n).
Proof. induction l as [|t l IH]; intros; cbn; unfold query; serve. Qed.
Lemma block_logs_serve l : ∀ i f j n h, serves (block_logs (S:=S) l i f j n h).
Proof. induction l as [|t l IH]; intros; cbn; unfold query; serve. Qed.
Hint Resolve storage_proofs_serve rpc_receipts_serve receipts_serve block_logs_serve : serves.
Lemma range_logs_serve k : ∀ n f, serves (range_logs (S:=S) k n f).
Proof. induction k as [|k IH]; intros; cbn; unfold query; serve. Qed.
Lemma collect_fees_serve k : ∀ n p, serves (collect_fees (S:=S) k n p).
Proof. induction k as [|k IH]; intros; cbn; unfold query; serve. Qed.
Lemma simulate_tx_serves t h spec : serves (simulate_tx (S:=S) t h spec).
Proof. unfold simulate_tx. serve. Qed.
Hint Resolve range_logs_serve collect_fees_serve simulate_tx_serves : serves.
Lemma simulates_successfully_serves t h spec : serves (simulates_successfully (S:=S) t h spec).
Proof. unfold simulates_successfully. serve. Qed.
Hint Resolve simulates_successfully_serves : serves.
Lemma search_gas_serves n : ∀ t h spec a b c, serves (search_gas (S:=S) n t h spec a b c).
Proof. induction n as [|n IH]; intros; cbn; [by intros s|]. serve. Qed.
Hint Resolve search_gas_serves : serves.
Lemma plain_transfer_serves t h spec : serves (plain_transfer (S:=S) t h spec).
Proof. unfold plain_transfer, query. serve. Qed.
Lemma recap_serves g t n : serves (recap_with_account_balances (S:=S) g t n).
Proof. unfold recap_with_account_balances, query. serve. Qed.
Lemma get_range_serves n b : serves (get_range (S:=S) n b).
Proof. unfold get_range, query. serve. Qed.
Lemma rpc_receipts_all_serve n h b : serves (get_all_block_rpc_receipts (S:=S) n h b).
Proof. unfold get_all_block_rpc_receipts. serve. Qed.
Lemma receipts_all_serve n h b : serves (get_all_block_receipts (S:=S) n h b).
Proof. unfold get_all_block_receipts. serve. Qed.
Hint Resolve plain_transfer_serves recap_serves get_range_serves rpc_receipts_all_serve receipts_all_serve : serves.

(** *** The handlers *)
Lemma call_serves {R} (parse : option (list Value) → res RpcErr R) (handle : R → stm S RpcErr Reply) req :
  (∀ r, serves (handle r)) → serves (call parse handle req).
Proof. intros Hh. unfold call. serve. Qed.

#[local] Opaque SEARCH_FUEL search_gas.
Definition read_only (e : string * (RpcRequest.t → stm S RpcErr Reply)) : Prop :=
  e.1 = "eth_sendRawTransaction" ∨ ∀ req, serves (e.2 req).
Create HintDb handlers.
Hint Unfold chain_id_request syncing_request get_block_by_number get_block_by_hash_request block_reply get_balance get_code
  get_storage_at_request get_block_transaction_count get_transaction_by_number_and_index get_transaction_by_hash_and_index
  get_block_receipts get_transaction_by_hash_request get_transaction_receipt create_access_list_request block_number_request
  eth_call get_blob_base_fee get_transaction_count fee_history estimate_gas get_logs get_proof_request get_raw_header
  get_raw_block get_raw_transaction get_raw_receipts query : handlers.
Ltac handler := first [left; reflexivity | right; intros req; apply call_serves; intros r; autounfold with handlers; serve].
Lemma eth_methods_serve : Forall read_only eth_methods.
Proof. unfold eth_methods. repeat (constructor; [handler|]). constructor. Qed.
Lemma debug_methods_serve : Forall read_only debug_methods.
Proof. unfold debug_methods. repeat (constructor; [handler|]). constructor. Qed.
Lemma node_info_serves n : serves (node_info (S:=S) n).
Proof. unfold node_info, query. serve. Qed.

Lemma dispatch_serves methods req :
  Forall read_only methods → RpcRequest.method req ≠ "eth_sendRawTransaction" → serves (dispatch methods req).
Proof.
  intros Hm Hne. unfold dispatch. destruct (List.find _ methods) as [[name h]|] eqn:Hf; [|apply serves_lift].
  apply List.find_some in Hf as [Hin He]. apply bool_decide_eq_true in He.
  rewrite Forall_forall in Hm. apply list_elem_of_In in Hin. destruct (Hm _ Hin) as [Hs|Hs]; cbn in *; [congruence|done].
Qed.
Lemma http_serves req node :
  RpcRequest.method req ≠ "eth_sendRawTransaction" → serves (map_http_requests req node).
Proof.
  intros Hne. unfold map_http_requests, map_admin_requests.
  repeat first [apply serves_lift | apply node_info_serves | case_match].
  - by apply dispatch_serves; [apply eth_methods_serve|].
  - by apply dispatch_serves; [apply debug_methods_serve|].
Qed.

(** *** Submission of a transaction *)
Lemma add_transaction_nodes tx (s : S) : same_nodes s (add_transaction keccak256 tx s).1.
Proof.
  assert (quiet (add_transaction (S:=S) keccak256 tx)) as Hq; [|apply Hq].
  unfold add_transaction. apply quiet_bind.
  - intros s'. assert (serves (validate_transaction (S:=S) tx)) as Hv; [|apply Hv].
    unfold validate_transaction. serve.
  - intros _. apply quiet_bind; [|intros _; apply quiet_ret]. apply quiet_map_err, quiet_op. constructor.
Qed.
(** What a submission does: nothing, or the pool has one more admissible transaction. *)
Definition submitted (tx : Transaction.t) (c c' : InMemory.StoreInner) : Prop :=
  ∃ header config, pool_context c header config ∧ admissible tx header config ∧
    c' = InMemory.put_transaction_pool (<[Transaction.compute_hash keccak256 tx := tx]> (InMemory.transaction_pool c)) c.
Lemma add_transaction_effect tx (s : S) :
  let s' := (add_transaction keccak256 tx s).1 in contents s' = contents s ∨ submitted tx (contents s) (contents s').
Proof.
  cbn. pose proof (add_transaction_simulates keccak256 tx s) as Hs.
  pose proof (add_transaction_cases keccak256 tx (contents s)) as Hc. rewrite Hs in Hc.
  pose proof (validate_transaction_reads tx (contents s)) as Hr.
  pose proof (validate_transaction_iff tx (contents s)) as Hi.
  destruct (validate_transaction tx (contents s)) as [c v]. cbn in Hr. subst c.
  destruct v as [[]| | |]; cbn in Hc; injection Hc as Hc _; rewrite Hc; [|by left..].
  right. destruct (proj1 Hi) as (header & config & Hctx & Ha); [done|]. by exists header, config.
Qed.
Lemma send_raw_effect req (s : S) :
  let s' := (call parse_send_raw send_raw_transaction req s).1 in
  same_nodes s s' ∧ (contents s' = contents s ∨ ∃ tx, submitted tx (contents s) (contents s')).
Proof.
  unfold call, lift, mbind, stm_mbind. destruct (parse_send_raw _) as [r| | |]; cbn; [|split; [done|by left]..].
  unfold send_raw_transaction, stm_map_err, mbind, stm_mbind.
  pose proof (add_transaction_nodes (to_transaction r) s) as Hn. pose proof (add_transaction_effect (to_transaction r) s) as He.
  cbn in He. destruct (add_transaction keccak256 (to_transaction r) s) as [s1 [| | |]]; cbn in *;
    (split; [exact Hn|]; destruct He; [by left|right; eauto]).
Qed.
End Handlers.

(** ** Requests of both servers *)

(** C12: a request to the public server, whatever it says, changes neither a table of the
    store nor a node of a trie, with one exception: [eth_sendRawTransaction] adds at most
    one transaction to the pool, which passed the checks of the pool.  For every engine
    and back end that keep their promises. *)
Theorem public_requests_only_fill_pool (P : Profile) (V : Serde) (C : Crypto) {S : Type} `{LawfulTrieEngine S}
    `{!QuietEngine S} `{Backend S} `{!LawfulBackend S} (parse_request : string → option RpcRequest.t)
    (ctx : RpcApiContext.t) (body : string) (s : S) :
  let s' := (handle_http_request parse_request ctx body s).1 in
  same_nodes s s' ∧
  (contents s' = contents s ∨
   ∃ req tx, parse_request body = Some req ∧ RpcRequest.method req = "eth_sendRawTransaction" ∧
     submitted tx (contents s) (contents s')).
Proof.
  unfold handle_http_request. destruct (parse_request body) as [req|]; cbn; [|split; [done|by left]].
  assert (same_nodes s (map_http_requests req (RpcApiContext.local_p2p_node ctx) s).1 ∧
    let s' := (map_http_requests req (RpcApiContext.local_p2p_node ctx) s).1 in
    (contents s' = contents s ∨ ∃ tx, RpcRequest.method req = "eth_sendRawTransaction" ∧ submitted tx (contents s) (contents s')))
    as [Hn He].
  - destruct (decide (RpcRequest.method req = "eth_sendRawTransaction")) as [Hm|Hm].
    + assert (map_http_requests req (RpcApiContext.local_p2p_node ctx) = call parse_send_raw send_raw_transaction req)
        as -> by (unfold map_http_requests, namespace, map_eth_requests, dispatch; rewrite Hm; reflexivity).
      destruct (send_raw_effect req s) as [Hn [He|[tx He]]]; (split; [exact Hn|]); [by left|right; eauto].
    + destruct (http_serves req (RpcApiContext.local_p2p_node ctx) Hm s) as [Hc Hn]. split; [exact Hn|by left].
  - destruct (map_http_requests _ _ s) as [s' r]. cbn in *. split; [exact Hn|].
    destruct He as [He|[tx [Hm He]]]; [by left|right; eauto].
Qed.

(** *** Authentication *)

(** Without overflow checks the distance to [now + 2^63] wraps to the least number, whose
    absolute value is itself. *)
Definition fresh `{Profile} (now iat : Z) : Prop :=
  Z.abs (now - iat) <= 60 ∨ (overflow_checks = false ∧ iat = now + 2 ^ 63).
Lemma isize_ok {E} `{Profile} x : - 2 ^ 63 <= x < 2 ^ 63 → isize (E:=E) x = Ok x.
Proof. intros. unfold isize. by rewrite (proj2 (Z.leb_le _ _)), (proj2 (Z.ltb_lt _ _)) by lia. Qed.
Lemma isize_over {E} `{Profile} x : 2 ^ 63 <= x < 2 ^ 64 → isize (E:=E) x = if overflow_checks then Panic else Ok (x - 2 ^ 64).
Proof.
  intros. unfold isize, as_isize. rewrite (proj2 (Z.leb_le _ _)), (proj2 (Z.ltb_ge x _)) by lia. cbn [andb].
  rewrite Z.mod_small by lia. by rewrite (proj2 (Z.ltb_ge x _)) by lia.
Qed.
Lemma issued_at_valid `{Profile} now iat :
  61 <= now < 2 ^ 62 → 0 <= iat < 2 ^ 64 → (invalid_issued_at_claim now iat = Ok false ↔ fresh now iat).
Proof.
  intros Hn Hi. unfold invalid_issued_at_claim, fresh, as_isize. rewrite (proj2 (Z.ltb_lt now (2 ^ 63))) by lia.
  assert (∀ d, 0 <= d < 2 ^ 63 → (d ← isize d; Ok (60 <? d) : pres bool) = Ok false ↔ d <= 60) as Habs.
  { intros d Hd. rewrite isize_ok by lia. cbn [mbind res_mbind]. destruct (Z.ltb_spec 60 d); split; intros; simplify_eq; done || lia. }
  destruct (Z.ltb_spec iat (2 ^ 63)) as [Hlt|Hge].
  - rewrite isize_ok by lia. cbn [mbind res_mbind]. rewrite Habs by lia. lia.
  - destruct (Z.lt_ge_cases (now - (iat - 2 ^ 64)) (2 ^ 63)) as [Hd|Hd].
    + rewrite isize_ok by lia. cbn [mbind res_mbind]. rewrite Habs by lia. lia.
    + rewrite isize_over by lia. destruct overflow_checks eqn:Ho; cbn [mbind res_mbind].
      { split; [done|]. intros [?|[[=] _]]. lia. }
      destruct (Z.eq_dec iat (now + 2 ^ 63)) as [->|Hne].
      * replace (Z.abs (now - (now + 2 ^ 63 - 2 ^ 64) - 2 ^ 64)) with (2 ^ 63) by lia.
        rewrite isize_over by lia. rewrite Ho. split; [by right|done].
      * rewrite Habs by lia. lia.
Qed.

(** With overflow checks the distance to a time 2^63 seconds away or more panics. *)
Definition overflows `{Profile} (now iat : Z) : Prop :=
  overflow_checks = true ∧ 2 ^ 63 <= iat <= now + 2 ^ 63.
Lemma issued_at_overflows `{Profile} now iat :
  61 <= now < 2 ^ 62 → 0 <= iat < 2 ^ 64 → (invalid_issued_at_claim now iat = Panic ↔ overflows now iat).
Proof.
  intros Hn Hi. unfold invalid_issued_at_claim, overflows, as_isize. rewrite (proj2 (Z.ltb_lt now (2 ^ 63))) by lia.
  assert (∀ d, 0 <= d < 2 ^ 63 → (d ← isize d; Ok (60 <? d) : pres bool) ≠ Panic) as Habs.
  { intros d Hd. by rewrite isize_ok by lia. }
  destruct (Z.ltb_spec iat (2 ^ 63)) as [Hlt|Hge].
  - rewrite isize_ok by lia. cbn [mbind res_mbind]. split; [|lia]. intros []%Habs. lia.
  - destruct (Z.lt_ge_cases (now - (iat - 2 ^ 64)) (2 ^ 63)) as [Hd|Hd].
    + rewrite isize_ok by lia. cbn [mbind res_mbind]. split; [|lia]. intros []%Habs. lia.
    + rewrite isize_over by lia. destruct overflow_checks eqn:Ho; cbn [mbind res_mbind]; [split; [lia|done]|].
      split; [|by intros [[=] _]]. unfold isize. rewrite Ho. by repeat case_match.
Qed.

Lemma authenticate_Panic `{Profile} `{Jwt} now secret h :
  61 <= now < 2 ^ 62 → (∀ token iat, jwt_decode token secret = Some iat → 0 <= iat < 2 ^ 64) →
  authenticate now secret h = Panic ↔
  ∃ token iat, h = Some token ∧ jwt_decode token secret = Some iat ∧ overflows now iat.
Proof.
  intros Hn Hj. unfold authenticate, validate_jwt_authentication. destruct h as [token|]; [|naive_solver].
  destruct (jwt_decode token secret) as [iat|] eqn:Hd; [|naive_solver].
  pose proof (issued_at_overflows now iat Hn (Hj _ _ Hd)) as Hv. split.
  - intros Ha. exists token, iat. split_and!; [done..|]. apply Hv.
    destruct (invalid_issued_at_claim now iat) as [[|]|[]| |]; done.
  - intros (token' & iat' & [= <-] & Hd' & Hf). rewrite Hd in Hd'. injection Hd' as <-. apply Hv in Hf. by rewrite Hf.
Qed.
Lemma authenticate_fuel `{Profile} `{Jwt} now secret h : authenticate now secret h ≠ OutOfFuel.
Proof.
  intros He. unfold authenticate, validate_jwt_authentication in He. destruct h; [|done].
  destruct (jwt_decode _ _); [|done]. unfold invalid_issued_at_claim, isize in He.
  repeat (case_match; simplify_eq/=).
Qed.

Lemma authenticate_Ok `{Profile} `{Jwt} now secret h :
  61 <= now < 2 ^ 62 → (∀ token iat, jwt_decode token secret = Some iat → 0 <= iat < 2 ^ 64) →
  authenticate now secret h = Ok tt ↔ ∃ token iat, h = Some token ∧ jwt_decode token secret = Some iat ∧ fresh now iat.
Proof.
  intros Hn Hj. unfold authenticate, validate_jwt_authentication. destruct h as [token|]; [|naive_solver].
  destruct (jwt_decode token secret) as [iat|] eqn:Hd; [|naive_solver].
  pose proof (issued_at_valid now iat Hn (Hj _ _ Hd)) as Hv. split.
  - intros Ha. exists token, iat. split_and!; [done..|]. apply Hv.
    destruct (invalid_issued_at_claim now iat) as [[|]|[]| |]; done.
  - intros (token' & iat' & [= <-] & Hd' & Hf). rewrite Hd in Hd'. injection Hd' as <-. apply Hv in Hf. by rewrite Hf.
Qed.
(** The errors of the authentication all have one code. *)
Lemma authenticate_error `{Profile} `{Jwt} now secret h e :
  authenticate now secret h = Err e → ∃ m, error_metadata e = mkMetadata (-32000) None m.
Proof.
  unfold authenticate. destruct h as [token|]; [|intros [= <-]; by eexists].
  unfold validate_jwt_authentication. destruct (jwt_decode token secret) as [iat|]; [|intros [= <-]; by eexists].
  destruct (invalid_issued_at_claim now iat) as [[|]|[]| |]; intros He; simplify_eq/=; by eexists.
Qed.

(** C13: the authenticated server handles a request exactly when it comes with a token
    that the secret signs and that was issued within a minute of now (or, without
    overflow checks, at the one time [2^63] seconds away). Any other request changes
    nothing and is answered with error -32000, but for one case: with overflow checks,
    the task panics on a signed token whose time of issue, in seconds, is at least [2^63]
    and at most [now + 2^63]. *)
Theorem unauthenticated_requests_rejected (P : Profile) (V : Serde) (C : Crypto) (J : Jwt) {S : Type} `{StoreEngine S}
    `{TrieEngine S} `{Backend S} (parse_request : string → option RpcRequest.t) (ctx : RpcApiContext.t)
    (now : Z) (h : option string) (body : string) (req : RpcRequest.t) (s : S) :
  let secret := RpcApiContext.jwt_secret ctx in
  61 <= now < 2 ^ 62 → (∀ token iat, jwt_decode token secret = Some iat → 0 <= iat < 2 ^ 64) →
  parse_request body = Some req →
  let run := handle_authrpc_request parse_request now ctx h body s in
  let authentic := ∃ token iat, h = Some token ∧ jwt_decode token secret = Some iat ∧ fresh now iat in
  let overflowing := ∃ token iat, h = Some token ∧ jwt_decode token secret = Some iat ∧ overflows now iat in
  (authentic → run = ((map_authrpc_requests req s).1, rpc_response (RpcRequest.id req) (map_authrpc_requests req s).2)) ∧
  (¬ authentic → ¬ overflowing →
    ∃ m, run = (s, Ok (RpcErrorResponse (RpcRequest.id req) (mkMetadata (-32000) None m)))) ∧
  (overflowing → run = (s, Panic)).
Proof.
  intros secret Hn Hj Hp run authentic overflowing. pose proof (authenticate_Ok now secret h Hn Hj) as Ha. fold authentic in Ha.
  pose proof (authenticate_Panic now secret h Hn Hj) as Hov. fold overflowing in Hov.
  unfold run, handle_authrpc_request. rewrite Hp. fold secret. split_and!.
  - intros Hauth. apply Ha in Hauth. rewrite Hauth. by destruct (map_authrpc_requests req s).
  - intros Hno Hnov. destruct (authenticate now secret h) as [[]|e| |] eqn:He.
    + by destruct Hno; apply Ha.
    + destruct (authenticate_error _ _ _ _ He) as [m Hm]. exists m. cbn. by rewrite Hm.
    + by destruct Hnov; apply Hov.
    + by apply authenticate_fuel in He.
  - intros Hover. apply Hov in Hover. by rewrite Hover.
Qed.

(** ** Witnesses *)

(** A deserializer whose hashes are strings of one digit and whose requests are fixed. *)
Definition toy_H256 (v : Value) : option H256 := match v with VString "0x1" => Some (replicate 32 1) | _ => None end.
Definition toy_serde : Serde := {|
  from_value_H256 := toy_H256;
  from_value_H256s := λ _, Some [];
  from_value_Address := λ _, Some (replicate 20 1);
  from_value_U256s := λ _, Some [];
  from_value_BlockTag := λ v, match v with VString "latest" => Some Latest | _ => None end;
  from_value_GenericTransaction := λ _, None;
  from_value_AddressFilter := λ _, Some None;
  from_value_TopicFilters := λ _, Some None;
  from_value_ExecutionPayloadV3 := λ _, None;
  from_value_ForkChoiceState := λ _, None;
  from_value_PayloadAttributesV3 := λ _, None;
  from_value_ExchangeTransitionConfigPayload := λ _, None;
  from_value_Strings := λ _, None;
  H256_from_str := λ _, None;
  hex_decode := λ s, if bool_decide (s = "f8") then Some (Transaction.encode_canonical sample_transfer) else None;
  RLPDecodeError_to_string := λ _, "";
  EvmError_to_string := λ _, "";
  IpAddr_to_string := λ _, "127.0.0.1";
  f32 := Z;
  from_value_f32s := λ _, None;
  f32_le := Z.leb;
  f32_is_percentage := λ x, (0 <=? x) && (x <=? 100);
  f32_percentile := λ x n, Z.to_nat (x * Z.of_nat n / 100);
  below_error_ratio := λ a b, 1000 * a <? 15 * b
|}.
Definition toy_crypto : Crypto := {|
  keccak256 := toy_hash;
  Signature := unit;
  from_compact := λ _ _, Some tt;
  recover_ecdsa := λ d _, Some (4 :: d);
  create_address := λ a _, a;
  trie_root := λ _, replicate 32 1
|}.
Definition toy_jwt : Jwt := λ token secret, if bool_decide (token = "token" ∧ secret = [1; 2; 3]) then Some 1700000000 else None.
Definition toy_backend (S : Type) : Backend S := {|
  EvmState := unit;
  evm_state := λ _, tt;
  accrue := λ b _, b;
  execute_tx := λ _ _ _ st, mret (ExecutionResult.Success Stop 21000 0 [] (OutputCall []), st);
  beacon_root_contract_call := λ _ _ st, mret st;
  process_withdrawals := λ _ st, mret st;
  get_state_transitions := λ _, [];
  simulate_tx_from_generic := λ _ _ _ _, mret (ExecutionResult.Success Stop 21000 0 [] (OutputCall []));
  create_access_list := λ _ _ _ _, mret (ExecutionResult.Success Stop 21000 0 [] (OutputCall []), [])
|}.
#[export] Instance toy_backend_lawful {S} `{LawfulTrieEngine S} : LawfulBackend (H3:=toy_backend S) S.
Proof. split; by intros ** s. Qed.

Definition rpc_context : RpcApiContext.t := RpcApiContext.mk [1; 2; 3] (Node.mk (V4 [127; 0; 0; 1]) 30303 30303 (replicate 64 1)).
Definition rpc_request (method : string) (params : list Value) : RpcRequest.t :=
  RpcRequest.mk (IdNumber 1) "2.0" method (Some params).
Definition pool_store : InMemoryTries.Store := InMemoryTries.mk PayloadLaws.sample_store ∅ ∅.

Lemma public_requests_only_fill_pool_witness :
  let s' := (handle_http_request (H:=dev_profile) (H0:=toy_serde) (H1:=toy_crypto) (H5:=toy_backend InMemoryTries.Store)
    (λ _, Some (rpc_request "eth_sendRawTransaction" [VString "0xf8"])) rpc_context "" pool_store).1 in
  InMemory.transaction_pool (contents s') !! Transaction.compute_hash toy_hash sample_transfer = Some sample_transfer ∧
  same_nodes pool_store s'.
Proof.
  split; [vm_compute; reflexivity|].
  apply (@public_requests_only_fill_pool dev_profile toy_serde toy_crypto InMemoryTries.Store InMemoryTries.engine
    InMemoryTries.lawful InMemoryTries.tries InMemoryTries.lawful_tries in_memory_quiet (toy_backend _) toy_backend_lawful).
Defined.

(** One request with a fresh token, one without a token and one with a token from the
    far future. *)
Definition far_jwt : Jwt := λ token secret, Some (2 ^ 63).
Definition syncing (J : Jwt) (h : option string) :=
  handle_authrpc_request (H:=dev_profile) (H0:=toy_serde) (H1:=toy_crypto) (H2:=J) (H5:=toy_backend InMemoryTries.Store)
    (λ _, Some (rpc_request "eth_syncing" [])) 1700000030 rpc_context h "" pool_store.

Lemma unauthenticated_requests_rejected_witness :
  (syncing toy_jwt (Some "token")).2 = Ok (RpcSuccessResponse (IdNumber 1) (ReplyBool false)) ∧
  (∃ m, syncing toy_jwt None = (pool_store, Ok (RpcErrorResponse (IdNumber 1) (mkMetadata (-32000) None m)))) ∧
  syncing far_jwt (Some "token") = (pool_store, Panic).
Proof.
  assert (∀ token iat, jwt_decode (Jwt:=toy_jwt) token (RpcApiContext.jwt_secret rpc_context) = Some iat → 0 <= iat < 2 ^ 64)
    as Hj by (intros token iat; unfold jwt_decode, toy_jwt; case_bool_decide; intros [= <-]; lia).
  assert (∀ token iat, jwt_decode (Jwt:=far_jwt) token (RpcApiContext.jwt_secret rpc_context) = Some iat → 0 <= iat < 2 ^ 64)
    as Hf by (intros token iat [= <-]; lia).
  assert (∀ J h, (∀ token iat, jwt_decode (Jwt:=J) token (RpcApiContext.jwt_secret rpc_context) = Some iat → 0 <= iat < 2 ^ 64) → _)
    as Hrun by exact (λ J h Hj, @unauthenticated_requests_rejected dev_profile toy_serde toy_crypto J InMemoryTries.Store
      InMemoryTries.engine InMemoryTries.tries (toy_backend _) (λ _, Some (rpc_request "eth_syncing" [])) rpc_context 1700000030 h ""
      (rpc_request "eth_syncing" []) pool_store ltac:(lia) Hj eq_refl).
  split_and!.
  - destruct (Hrun toy_jwt (Some "token") Hj) as [Hok _]. unfold syncing.
    rewrite Hok; [reflexivity|]. exists "token", 1700000000. split_and!; [reflexivity..|]. left. lia.
  - destruct (Hrun toy_jwt None Hj) as (_ & Hno & _). apply Hno; by intros (? & ? & [=] & _).
  - destruct (Hrun far_jwt (Some "token") Hf) as (_ & _ & Hover). apply Hover.
    exists "token", (2 ^ 63). split_and!; [reflexivity..|]. split; [reflexivity|lia].
Defined.
