(* ===== verification/EngineLaws.v ===== *)
(** * JSON-RPC: the chain under requests

    The engine API delivers blocks and moves the head.  [chain_ok] says that the canonical
    blocks form one chain from number 0 to the latest block and that the safe and the
    finalized block lie on it; every sequence of requests to either server keeps it. *)

From S2P Require Import Prelude Rlp RlpLaws U256 Exponential Vm Codec Effects Nibble TrieNode Trie.
From S2P Require Import CoreTypes CoreLaws Consensus Genesis Store StoreLaws StateTries StateLaws Blockchain PayloadLaws ImportLaws ImportState.
From S2P Require Import NetTypes SerdeUtils RpcTypes RpcEth RpcTx RpcEngine Rpc RpcLaws.

#[local] Set Default Proof Using "Type*".

(** ** What the tries do to the chain: nothing *)
Section Keeps.
Context `{Profile} {S : Type} `{LawfulTrieEngine S}.
Variable keccak : list Z → list Z.

Lemma keeps_trie_op {A} (m : stm (Trie.t NodeMap) Trie.TrieError A) t : keeps (trie_op (S:=S) m t).
Proof. intros s. unfold trie_op. destruct (m (at_store t s)) as [t' r]. cbn. by rewrite contents_set. Qed.
Lemma keeps_trie_get t k : keeps (trie_get (S:=S) t k).
Proof. by intros s. Qed.
Lemma keeps_open_storage a r : keeps (open_storage_trie (S:=S) keccak a r).
Proof. intros s. cbn. by rewrite contents_set. Qed.
Lemma keeps_add_code h c : keeps (add_account_code (S:=S) h c).
Proof. intros s. pose proof (lawful_add_account_code h c s) as Hs. apply (f_equal fst) in Hs. cbn in Hs. by rewrite <-Hs. Qed.

Ltac keep_tries := repeat first
  [ progress intros | apply keep_ret | apply keep_lift | apply keep_bind | apply keeps_trie_op | apply keeps_trie_get
  | apply keeps_open_storage | apply keeps_add_code | case_match | assumption
  | solve [eapply keeps_read; [eauto with engine|done]] | solve [eauto] ].
Lemma keeps_write_storage l : ∀ t, keeps (write_storage (S:=S) keccak l t).
Proof. induction l as [|[k v] l IH]; intros t; cbn; unfold trie_remove, trie_insert; keep_tries. Qed.
Lemma keeps_apply_update u t : keeps (apply_update (S:=S) keccak u t).
Proof.
  unfold apply_update, updated_info, updated_storage, trie_remove, trie_insert, trie_hash, decode_or.
  keep_tries; apply keeps_write_storage.
Qed.
Lemma keeps_apply_updates us : ∀ t, keeps (apply_updates (S:=S) keccak us t).
Proof. induction us as [|u us IH]; intros t; cbn; [apply keep_ret|]. apply keep_bind; [apply keeps_apply_update|apply IH]. Qed.
Lemma keeps_apply_account_updates h us : keeps (apply_account_updates (S:=S) keccak h us).
Proof. unfold apply_account_updates, state_trie, trie_hash. keep_tries. apply keeps_apply_updates. Qed.
End Keeps.

(** ** engine_newPayloadV3 *)
Section Engine.
Context `{Profile} `{Serde} `{Crypto} {S : Type} `{LawfulTrieEngine S} `{!QuietEngine S} `{Backend S} `{!LawfulBackend S}.

(** A computation that keeps the chain, followed by another. *)
Lemma bind_keeps_cases {E A B} (m : stm S E A) (k : A → stm S E B) s s' r :
  keeps m → (m ≫= k) s = (s', r) →
  (∃ s1 a, m s = (s1, Ok a) ∧ same_chain (contents s1) (contents s) ∧ k a s1 = (s', r)) ∨
  (same_chain (contents s') (contents s) ∧ ∀ b, r ≠ Ok b).
Proof.
  intros Hm. specialize (Hm s). unfold mbind, stm_mbind.
  destruct (m s) as [s1 [a|e| |]]; cbn in Hm; intros Hk; [left; eauto|right; simplify_eq; done..].
Qed.
(** Reads of the store through [query]. *)
Lemma query_Ok {A} (m : stm S StoreError A) m' s s' a :
  simulates contents m m' → query m s = (s', Ok a) → m' (contents s) = (contents s', Ok a).
Proof.
  intros Hm Hq. unfold query, stm_map_err in Hq. specialize (Hm s). destruct (m s) as [s1 r]. cbn in Hm.
  destruct r; simplify_eq/=. done.
Qed.
Lemma query_latest s s' a : query get_latest_block_number s = (s', Ok a) →
  a = InMemory.latest_block_number (InMemory.chain_data (contents s)).
Proof. intros Hq. apply (query_Ok _ InMemory.get_latest_block_number) in Hq; [|eauto with engine]. by injection Hq. Qed.
Lemma query_number h s s' a : query (get_block_number h) s = (s', Ok a) → a = InMemory.block_numbers (contents s) !! h.
Proof. intros Hq. apply (query_Ok _ (InMemory.get_block_number h)) in Hq; [|eauto with engine]. by injection Hq. Qed.

(** The block that a payload carries, when its hash and its blob hashes are as stated. *)
Definition carries (req : NewPayloadV3Request) (b : Block.t) : Prop :=
  into_block (payload req) (parent_beacon_block_root req) = Ok b ∧
  ExecutionPayloadV3.block_hash (payload req) = block_hash_of (Block.header b) ∧
  expected_blob_versioned_hashes req = concat (map Transaction.blob_versioned_hashes (BlockBody.transactions (Block.body b))).
(** The contents after a block was imported and made canonical. *)
Definition delivered (b : Block.t) (rs : list ExecutionResult.t) (c : InMemory.StoreInner) : InMemory.StoreInner :=
  let hash := block_hash_of (Block.header b) in
  let c := with_receipts hash (imap pair (receipts_of accrue (BlockBody.transactions (Block.body b)) rs 0)) (with_block keccak256 b c) in
  InMemory.put_canonical_hashes (<[BlockHeader.number (Block.header b) := hash]> (InMemory.canonical_hashes c)) c.

Lemma import_effect b (s s' : S) r :
  wf_store keccak256 (contents s) → import_block b s = (s', r) →
  (r = Ok tt ∧ ∃ rs, accepted keccak256 EvmState execute_tx (contents s) b rs ∧
     same_chain (contents s') (with_receipts (block_hash_of (Block.header b))
       (imap pair (receipts_of accrue (BlockBody.transactions (Block.body b)) rs 0)) (with_block keccak256 b (contents s)))) ∨
  ((∀ a, r ≠ Ok a) ∧ same_chain (contents s') (contents s)).
Proof.
  intros Hwf Hi. unfold import_block in Hi. destruct r as [[]|e| |].
  1: { left. split; [done|]. eapply import_Ok in Hi;
    eauto using execute_tx_keeps, beacon_root_keeps, withdrawals_keep, keeps_apply_account_updates. }
  all: right; (split; [done|]).
  all: edestruct (import_atomic (S:=S) keccak256 EvmState AccountUpdate.t evm_state accrue execute_tx
      beacon_root_contract_call process_withdrawals get_state_transitions (apply_account_updates keccak256))
      with (b := b) (s := s) as [[a Ha]|Hs];
      eauto using execute_tx_keeps, beacon_root_keeps, withdrawals_keep, keeps_apply_account_updates;
      rewrite Hi in *; done.
Qed.

Lemma set_canonical_Ok n h (s : S) :
  ∃ s', set_canonical_block n h s = (s', Ok tt) ∧
    contents s' = InMemory.put_canonical_hashes (<[n := h]> (InMemory.canonical_hashes (contents s))) (contents s).
Proof.
  pose proof (lawful_set_canonical_block n h s) as Hs. destruct (set_canonical_block n h s) as [s' r]. cbn in Hs.
  injection Hs as Hc Hr. exists s'. by rewrite <-Hr, <-Hc.
Qed.
#[local] Instance put_canonical_proper n h :
  Proper (same_chain ==> same_chain) (λ c, InMemory.put_canonical_hashes (<[n := h]> (InMemory.canonical_hashes c)) c).
Proof.
  intros c c' Hc. unfold same_chain.
  apply (same_chain_ext (λ c, InMemory.put_account_codes ∅ (InMemory.put_canonical_hashes (<[n := h]> (InMemory.canonical_hashes c)) c)));
    [by intros m []|done].
Qed.

(** The end of [new_payload]: a valid status exactly when the block was added. *)
Lemma import_status_effect b latest (s s' : S) r :
  wf_store keccak256 (contents s) → import_status b (block_hash_of (Block.header b)) latest s = (s', r) →
  (r = Ok (PayloadStatus.valid_with_hash (block_hash_of (Block.header b))) ∧
   ∃ rs, accepted keccak256 EvmState execute_tx (contents s) b rs ∧ same_chain (contents s') (delivered b rs (contents s))) ∨
  ((∀ st, r = Ok st → PayloadStatus.status st ≠ Valid) ∧ same_chain (contents s') (contents s)).
Proof.
  intros Hwf. unfold import_status. destruct (import_block b s) as [s1 r1] eqn:Hi.
  destruct (import_effect b s s1 r1 Hwf Hi) as [[-> (rs & Ha & Hs)]|[Hno Hs]].
  - destruct (set_canonical_Ok (BlockHeader.number (Block.header b)) (block_hash_of (Block.header b)) s1) as (s2 & Hc & Hs2).
    unfold query, stm_map_err, mbind, stm_mbind. rewrite Hc. intros [= <- <-]. left. split; [done|]. exists rs. split; [done|].
    unfold delivered. rewrite Hs2. by apply put_canonical_proper.
  - right. destruct r1 as [[]|[]| |]; try (by destruct (Hno tt)); simplify_eq/=; (split; [|done]); naive_solver.
Qed.

Lemma keeps_latest_valid_hash : keeps (latest_valid_hash (S:=S) keccak256).
Proof. unfold latest_valid_hash. keep. Qed.
Ltac keeps_query := first [apply keep_lift | apply keeps_map_err; first [apply keeps_latest_valid_hash | eapply keeps_read; [eauto with engine|done]]].
(** The request ends here without a word about the chain. *)
Ltac ended Hr := left; injection Hr as <- <-; split; [reflexivity|intros ???; simplify_eq/=].
(** What a delivered payload does: nothing to the chain, or its block is the next one. *)
Lemma new_payload_effect req (s s' : S) r :
  wf_store keccak256 (contents s) → new_payload req s = (s', r) →
  let hash := ExecutionPayloadV3.block_hash (payload req) in
  (same_chain (contents s') (contents s) ∧
   ∀ st, r = Ok (ReplyPayloadStatus st) → PayloadStatus.status st = Valid →
     st = PayloadStatus.valid_with_hash hash ∧
     ∃ b, carries req b ∧ InMemory.block_numbers (contents s) !! hash = Some (BlockHeader.number (Block.header b))) ∨
  (∃ b rs last, carries req b ∧ r = Ok (ReplyPayloadStatus (PayloadStatus.valid_with_hash hash)) ∧
     InMemory.latest_block_number (InMemory.chain_data (contents s)) = Some last ∧
     last < BlockHeader.number (Block.header b) ∧ Ok (BlockHeader.number (Block.header b)) = uadd (E:=RpcErr) last 1 ∧
     accepted keccak256 EvmState execute_tx (contents s) b rs ∧ same_chain (contents s') (delivered b rs (contents s))).
Proof.
  intros Hwf. unfold new_payload. cbv zeta. intros Hr.
  destruct (into_block _ _) as [b|e| |] eqn:Hb; [|ended Hr..].
  apply bind_keeps_cases in Hr as [(s1 & config & _ & H1' & Hr)|[Hs Hno]]; [|left; split; [done|naive_solver]|keeps_query].
  assert (∀ st', (s', r) = (s1, Ok (ReplyPayloadStatus st')) → PayloadStatus.status st' ≠ Valid →
    same_chain (contents s') (contents s) ∧ ∀ st, r = Ok (ReplyPayloadStatus st) → PayloadStatus.status st = Valid → False) as Hend.
  { intros st' [= -> ->] Hst. split; [done|]. naive_solver. }
  destruct (before_cancun _); [left; injection Hr as <- <-; (split; [done|naive_solver])|].
  case_bool_decide as Hh; [left; destruct (Hend _ (eq_sym Hr)); naive_solver|].
  case_bool_decide as Hv; [left; destruct (Hend _ (eq_sym Hr)); naive_solver|]. clear Hend.
  assert (carries req b) as Hcar by done.
  apply bind_keeps_cases in Hr as [(s2 & last & Hl & H2' & Hr)|[Hs Hno]]; [|left; split; [by rewrite Hs|naive_solver]|keeps_query].
  apply query_latest in Hl. rewrite (same_chain_ext InMemory.chain_data _ _ (λ _ _, eq_refl) H1') in Hl. rewrite H1' in H2'.
  apply bind_keeps_cases in Hr as [(s3 & last' & Hl' & H3' & Hr)|[Hs Hno]]; [|left; split; [by rewrite Hs|naive_solver]|keeps_query].
  destruct last as [last|]; [|done]. injection Hl' as <- <-.
  destruct (Z.leb_spec (BlockHeader.number (Block.header b)) last) as [Hle|Hgt].
  - apply bind_keeps_cases in Hr as [(s4 & stored & Hst & H4' & Hr)|[Hs Hno]]; [|left; split; [by rewrite Hs|naive_solver]|keeps_query].
    apply query_number in Hst. rewrite (same_chain_ext InMemory.block_numbers _ _ (λ _ _, eq_refl) H2') in Hst.
    left. case_bool_decide as He; injection Hr as <- <-; (split; [by rewrite H4'|]); [|done].
    intros st [= <-] _. split; [done|]. exists b. split; [done|]. congruence.
  - apply bind_keeps_cases in Hr as [(s4 & next & Hnx & H4' & Hr)|[Hs Hno]]; [|left; split; [by rewrite Hs|naive_solver]|keeps_query].
    injection Hnx as <- Hnx. destruct (Z.eqb_spec (BlockHeader.number (Block.header b)) next) as [He|Hne]; cbn [negb] in Hr.
    2: { injection Hr as <- <-. left. split; [done|]. intros st [= <-] [=]. }
    rewrite <-He in Hnx.
    apply bind_keeps_cases in Hr as [(s5 & lvh & _ & H5' & Hr)|[Hs Hno]]; [|left; split; [by rewrite Hs|naive_solver]|keeps_query].
    rewrite H2' in H5'. unfold mbind, stm_mbind in Hr. rewrite Hh in Hr.
    destruct (import_status b _ lvh s5) as [s6 r6] eqn:Him. apply import_status_effect in Him; [|by rewrite H5'].
    rewrite Hh. destruct Him as [[-> (rs & Ha & Hs)]|[Hno Hs]].
    + right. injection Hr as <- <-. exists b, rs, last. split_and!; try done.
      * destruct Ha as (Hp & Hx & Hg). split_and!; [|done..]. destruct Hp as (parent & cfg & Hcan & Hhd & Hcf & Hfk). exists parent, cfg.
        by rewrite <-(same_chain_ext InMemory.canonical_hashes _ _ (λ _ _, eq_refl) H5'), <-(same_chain_ext InMemory.headers _ _ (λ _ _, eq_refl) H5'),
          <-(same_chain_ext InMemory.chain_data _ _ (λ _ _, eq_refl) H5').
      * rewrite Hs. unfold delivered. apply put_canonical_proper. by rewrite H5'.
    + left. destruct r6 as [st|e| |]; injection Hr as <- <-; (split; [by rewrite Hs|]); try done.
      intros st' [= <-] Hst. by destruct (Hno st).
Qed.
End Engine.

(** C10: the answer to a delivered payload.  A valid status names the hash of the payload,
    the payload carries a block with that hash and the stated blob hashes, and either the
    store had the block at its number and nothing changed, or the block followed the
    latest one, passed every check of block import, and now it and its receipts are
    stored and it is canonical.  Any other answer leaves all tables but the codes as they
    were.  For every lawful engine and back end, on a consistent store. *)
Theorem new_payload_correct (P : Profile) (V : Serde) (C : Crypto) {S : Type} `{LawfulTrieEngine S}
    `{!QuietEngine S} `{Backend S} `{!LawfulBackend S} (req : NewPayloadV3Request) (s s' : S) (r : res RpcErr Reply) :
  wf_store keccak256 (contents s) → new_payload req s = (s', r) →
  let hash := ExecutionPayloadV3.block_hash (payload req) in
  (∀ st, r = Ok (ReplyPayloadStatus st) → PayloadStatus.status st = Valid →
    st = PayloadStatus.valid_with_hash hash ∧
    ∃ b, carries req b ∧
      InMemory.block_numbers (contents s') !! hash = Some (BlockHeader.number (Block.header b)) ∧
      (same_chain (contents s') (contents s) ∨
       ∃ rs last, InMemory.latest_block_number (InMemory.chain_data (contents s)) = Some last ∧
         last < BlockHeader.number (Block.header b) ∧ Ok (BlockHeader.number (Block.header b)) = uadd (E:=RpcErr) last 1 ∧
         accepted keccak256 EvmState execute_tx (contents s) b rs ∧
         same_chain (contents s') (delivered b rs (contents s)))) ∧
  ((∀ st, r = Ok (ReplyPayloadStatus st) → PayloadStatus.status st ≠ Valid) → same_chain (contents s') (contents s)).
Proof.
  intros Hwf Hr hash. destruct (new_payload_effect req s s' r Hwf Hr) as [[Hs Hv]|(b & rs & last & Hb & -> & Hl & Hlt & Hn & Ha & Hs)].
  - split; [|done]. intros st Hst Hval. destruct (Hv st Hst Hval) as (-> & b & Hb & Hnum). split; [done|]. exists b.
    split_and!; [done| |by left]. by rewrite (same_chain_ext InMemory.block_numbers _ _ (λ _ _, eq_refl) Hs).
  - split; [|intros Hno; by destruct (Hno _ eq_refl)]. intros st [= <-] _. split; [done|]. exists b. split; [done|]. split; [|right; eauto 10].
    rewrite (same_chain_ext InMemory.block_numbers _ _ (λ _ _, eq_refl) Hs). unfold delivered. cbn.
    destruct Hb as (_ & Hh & _). fold hash in Hh. rewrite Hh.
    match goal with |- InMemory.block_numbers (with_receipts ?h ?l ?c) !! _ = _ => pose proof (with_receipts_tables h l c) as Ht end.
    injection Ht as _ _ -> _. apply lookup_insert_eq.
Qed.

(** ** Payloads and blocks *)
Section Payloads.
Context `{Profile} `{Crypto}.

(** Blocks of the engine API: no ommers, no proof of work, and all fields of Cancun. *)
Definition engine_block (b : Block.t) (root : H256) : Prop :=
  let h := Block.header b in
  BlockBody.ommers (Block.body b) = [] ∧ is_Some (BlockBody.withdrawals (Block.body b)) ∧
  BlockHeader.ommers_hash h = DEFAULT_OMMERS_HASH ∧ BlockHeader.difficulty h = 0 ∧ BlockHeader.nonce h = 0 ∧
  BlockHeader.transactions_root h = compute_transactions_root trie_root (BlockBody.transactions (Block.body b)) ∧
  BlockHeader.withdrawals_root h = Some (compute_withdrawals_root trie_root (default [] (BlockBody.withdrawals (Block.body b)))) ∧
  is_Some (BlockHeader.base_fee_per_gas h) ∧ is_Some (BlockHeader.blob_gas_used h) ∧ is_Some (BlockHeader.excess_blob_gas h) ∧
  BlockHeader.parent_beacon_block_root h = Some root.

Lemma decode_transactions_encode l :
  Forall (λ tx, wf_transaction tx ∧ zlen (Transaction.encode_canonical tx) <= isize_max) l →
  decode_transactions (map Transaction.encode_canonical l) = Ok l.
Proof.
  induction 1 as [|tx l [Hwf Hsz] _ IH]; [done|]. cbn. rewrite canonical_roundtrip by done.
  rewrite bind_Ok_l, IH. done.
Qed.
Lemma from_into_block b root :
  engine_block b root →
  Forall (λ tx, wf_transaction tx ∧ zlen (Transaction.encode_canonical tx) <= isize_max) (BlockBody.transactions (Block.body b)) →
  into_block (from_block b) root = Ok b.
Proof.
  intros (Ho & [w Hw] & Hoh & Hd & Hn & Htr & Hwr & [f Hf] & [bg Hbg] & [eb Heb] & Hr) Ht.
  destruct b as [h [txs om wd]]. cbn in *. unfold into_block, from_block. cbn.
  rewrite (decode_transactions_encode txs Ht), bind_Ok_l. f_equal. subst wd om. cbn in *. destruct h. cbn in *. by subst.
Qed.
End Payloads.

Section Built.
Context `{Profile} `{Crypto} {S : Type} `{LawfulTrieEngine S} `{Backend S}.
Lemma build_engine_block args root config (s s' : S) b :
  build args s = (s', Ok b) → BuildPayloadArgs.beacon_root args = Some root →
  InMemory.chain_config (InMemory.chain_data (contents s)) = Some config →
  ChainConfig.is_shanghai_activated config (BuildPayloadArgs.timestamp args) = true →
  ChainConfig.is_cancun_activated config (BuildPayloadArgs.timestamp args) = true →
  is_Some (BlockHeader.base_fee_per_gas (Block.header b)) →
  engine_block b root ∧ BlockBody.transactions (Block.body b) = [].
Proof.
  intros Hb Hroot Hcfg Hsh Hca Hfee. unfold build, build_payload in Hb.
  apply stm_bind_inv in Hb as (s1 & parent & Hp & Hb).
  assert (contents s1 = contents s) as Hc1.
  { pose proof (lawful_get_block_header_by_hash (BuildPayloadArgs.parent args) s) as Hl. unfold stm_map_err in Hp.
    destruct (get_block_header_by_hash _ s) as [t r]. cbn in Hl. injection Hl as Hl _. destruct r; by simplify_eq. }
  apply stm_bind_inv in Hb as (s2 & hdr & Hh & Hb). injection Hh as <- _.
  apply stm_bind_inv in Hb as (s3 & config' & Hc & Hb).
  assert (config' = config) as ->.
  { pose proof (lawful_get_chain_config s1) as Hl. unfold stm_map_err in Hc. destruct (get_chain_config s1) as [t r]. cbn in Hl.
    unfold InMemory.get_chain_config in Hl. rewrite Hc1, Hcfg in Hl. injection Hl as _ <-. by injection Hc. }
  apply stm_bind_inv in Hb as (s4 & header & Hhd & Hb). injection Hhd as _ Hhd. apply no_err_Ok in Hhd.
  unfold payload_header in Hhd. apply bind_Ok in Hhd as (gl & _ & Hhd). apply bind_Ok in Hhd as (bf & _ & Hhd).
  apply bind_Ok in Hhd as (eb & _ & Hhd). rewrite Hsh, Hca, Hroot in Hhd. injection Hhd as Hhd.
  do 4 (apply stm_bind_inv in Hb as (? & ? & _ & Hb)). injection Hb as _ Hb. subst b header. cbn in *.
  split; [|done]. unfold engine_block. cbn. split_and!; try done; by eexists.
Qed.
End Built.
