(* ===== verification/ChainLaws.v ===== *)
(** * JSON-RPC: one chain

    [chain_ok]: the canonical blocks form one chain from number 0 to the latest block, no
    other block is stored, and the safe and the finalized block lie on the chain.  The
    store has it after the genesis block and every request to either server keeps it. *)

From S2P Require Import Prelude Rlp RlpLaws U256 Exponential Vm Codec Effects Nibble TrieNode Trie TrieRefine.
From S2P Require Import CoreTypes CoreLaws Consensus Genesis Store StoreLaws StateTries StateLaws GenesisState Blockchain PayloadLaws.
From S2P Require Import ImportLaws ImportState NetTypes SerdeUtils RpcTypes RpcEth RpcTx RpcEngine Rpc RpcLaws EngineLaws.

#[local] Set Default Proof Using "Type*".

(** ** The invariant *)
Record chain_ok (keccak : list Z → list Z) (c : InMemory.StoreInner) (last : Z) : Prop := {
  ok_wf : wf_store keccak c;
  ok_nonneg : 0 <= last;
  ok_latest : InMemory.latest_block_number (InMemory.chain_data c) = Some last;
  ok_range : ∀ n, is_Some (InMemory.canonical_hashes c !! n) ↔ 0 <= n <= last;
  ok_single : ∀ h hdr, InMemory.headers c !! h = Some hdr → InMemory.canonical_hashes c !! BlockHeader.number hdr = Some h;
  ok_linked : ∀ n h hdr, 0 < n → InMemory.canonical_hashes c !! n = Some h → InMemory.headers c !! h = Some hdr →
    InMemory.canonical_hashes c !! (n - 1) = Some (BlockHeader.parent_hash hdr);
  ok_marks : ∀ n, InMemory.safe_block_number (InMemory.chain_data c) = Some n ∨
    InMemory.finalized_block_number (InMemory.chain_data c) = Some n → 0 <= n <= last
}.
Lemma chain_ok_ext keccak c c' last :
  chain_tables c' = chain_tables c → InMemory.chain_data c' = InMemory.chain_data c → chain_ok keccak c last → chain_ok keccak c' last.
Proof.
  intros Ht Hd [H1 H0 H2 H3 H4 H5 H6]. pose proof (wf_store_tables _ _ _ Ht H1). injection Ht as Hh Hb Hn Hc.
  split; rewrite ?Hd, ?Hc, ?Hh; auto.
Qed.
#[export] Instance chain_ok_proper keccak : Proper (same_chain ==> eq ==> iff) (chain_ok keccak).
Proof.
  intros c c' Hc last ? <-. pose proof (same_chain_ext chain_tables _ _ (λ _ _, eq_refl) Hc).
  pose proof (same_chain_ext InMemory.chain_data _ _ (λ _ _, eq_refl) Hc). split; by apply chain_ok_ext.
Qed.

(** The first block. *)
Lemma genesis_chain_ok keccak g : chain_ok keccak (genesis_contents keccak g) 0.
Proof.
  assert (∀ l c, chain_tables (foldl (genesis_code keccak) c l) = chain_tables c) as Hcode.
  { intros l. induction l as [|kv l IH]; intros c; [done|]. cbn. by rewrite IH. }
  unfold genesis_contents. cbv zeta. set (b := Genesis.get_block _ _ _).
  set (hash := BlockHeader.compute_block_hash keccak (Block.header b)).
  assert (BlockHeader.number (Block.header b) = 0) as Hb0 by done.
  set (c0 := foldl _ _ _). pose proof (Hcode (map_to_list (Genesis.alloc g)) InMemory.new) as Hc0. fold c0 in Hc0.
  pose proof (genesis_code_data keccak (map_to_list (Genesis.alloc g)) InMemory.new) as Hd0. fold c0 in Hd0.
  injection Hc0 as Hh Hbo Hn Hcan. split; cbn -[b]; fold hash; rewrite ?Hh, ?Hcan, ?Hd0; cbn -[b].
  - split; cbn -[b]; fold hash; rewrite ?Hh, ?Hcan, ?Hn, ?Hbo.
    + intros h hdr. destruct (decide (h = hash)) as [->|Hne]; [|by rewrite lookup_insert_ne, lookup_empty by done].
      rewrite !lookup_insert_eq. intros [= <-]. split_and!; [done..|by eexists].
    + intros n h. destruct (decide (n = 0)) as [->|Hne]; [|by rewrite lookup_insert_ne, lookup_empty by done].
      rewrite lookup_insert_eq. intros [= <-]. rewrite lookup_insert_eq. eauto.
  - done.
  - done.
  - intros n. destruct (decide (n = 0)) as [->|Hne]; [rewrite lookup_insert_eq; split; [lia|eauto]|].
    rewrite lookup_insert_ne, lookup_empty by done. split; [by intros []|lia].
  - intros h hdr. destruct (decide (h = hash)) as [->|Hne]; [|by rewrite lookup_insert_ne, lookup_empty by done].
    rewrite lookup_insert_eq. intros [= <-]. apply lookup_insert_eq.
  - intros n h hdr Hn0. rewrite lookup_insert_ne, lookup_empty by lia. done.
  - by intros n [?|?].
Qed.

Section Requests.
Context `{Profile} `{Serde} `{Crypto} {S : Type} `{LawfulTrieEngine S} `{!QuietEngine S} `{Backend S} `{!LawfulBackend S}.

(** A block that is delivered becomes the end of the chain. *)
Lemma delivered_ok b rs c last :
  chain_ok keccak256 c last → BlockHeader.number (Block.header b) = last + 1 →
  accepted keccak256 EvmState execute_tx c b rs →
  (∀ hdr, InMemory.headers c !! block_hash_of (Block.header b) = Some hdr → hdr = Block.header b) →
  chain_ok keccak256 (delivered b rs c) (last + 1).
Proof.
  intros [Hwf H0l Hlat Hran Hsin Hlin Hmar] Hnum Hacc Hcol. set (hash := block_hash_of (Block.header b)) in *.
  assert (InMemory.headers c !! hash = None) as Hfresh.
  { destruct (InMemory.headers c !! hash) as [hdr|] eqn:Hx; [|done]. pose proof (Hcol _ eq_refl) as He.
    apply Hsin in Hx. rewrite He, Hnum in Hx. assert (is_Some (InMemory.canonical_hashes c !! (last + 1))) as Hs by eauto. apply Hran in Hs. lia. }
  unfold delivered. fold hash. cbv zeta. rewrite Hnum. set (rcs := imap pair _).
  set (c1 := with_receipts hash rcs (with_block keccak256 b c)).
  pose proof (with_receipts_tables hash rcs (with_block keccak256 b c)) as Ht.
  pose proof (with_receipts_chain_data hash rcs (with_block keccak256 b c)) as Hd. fold c1 in Ht, Hd.
  assert (wf_store keccak256 c1) as Hwf1 by (eapply wf_store_tables; [exact Ht|]; by apply wf_store_add_block).
  injection Ht as Hh _ _ Hc. fold hash in Hh. split; cbn -[c1 Z.add]; rewrite ?Hd, ?Hh, ?Hc.
  - rewrite <-Hc. apply wf_store_set_canonical with (hdr := Block.header b); [rewrite Hh; apply lookup_insert_eq|done|done].
  - lia.
  - cbn. by rewrite Hnum.
  - intros n. destruct (decide (n = last + 1)) as [->|Hne]; [rewrite lookup_insert_eq; split; [lia|eauto]|].
    rewrite lookup_insert_ne by done. rewrite Hran. lia.
  - intros h hdr. destruct (decide (h = hash)) as [->|Hne].
    + rewrite lookup_insert_eq. intros [= <-]. rewrite Hnum. apply lookup_insert_eq.
    + rewrite lookup_insert_ne by done. intros Hx. apply Hsin in Hx. rewrite lookup_insert_ne; [done|].
      intros He. assert (is_Some (InMemory.canonical_hashes c !! (last + 1))) as Hs by (rewrite He; eauto). apply Hran in Hs. lia.
  - intros n h hdr Hn0. destruct (decide (n = last + 1)) as [->|Hne].
    + rewrite lookup_insert_eq. intros [= <-]. rewrite lookup_insert_eq. intros [= <-].
      rewrite lookup_insert_ne by lia. destruct Hacc as [(parent & cfg & Hcan & _) _].
      replace (Z.max 0 (BlockHeader.number (Block.header b) - 1)) with (last + 1 - 1) in Hcan by lia. done.
    + rewrite lookup_insert_ne by done. intros Hcn. assert (is_Some (InMemory.canonical_hashes c !! n)) as Hs by eauto.
      apply Hran in Hs. rewrite lookup_insert_ne. 2: { intros He. rewrite <-He in Hcn. destruct (wf_canonical _ _ Hwf _ _ Hcn) as (? & Hx & _). by pose proof (eq_trans (eq_sym Hfresh) Hx). }
      intros Hhd. rewrite lookup_insert_ne by lia. by eapply Hlin.
  - cbn. intros n Hm. apply Hmar in Hm. lia.
Qed.

(** ** Requests that leave the invariant alone *)
Definition keeps_ok {E A} (m : stm S E A) : Prop :=
  ∀ s last, chain_ok keccak256 (contents s) last → chain_ok keccak256 (contents (m s).1) last.
Lemma keeps_keeps_ok {E A} (m : stm S E A) : keeps m → keeps_ok m.
Proof. intros Hm s last Hs. by rewrite (Hm s). Qed.
Lemma keeps_ok_bind {E A B} (m : stm S E A) (k : A → stm S E B) : keeps_ok m → (∀ a, keeps_ok (k a)) → keeps_ok (m ≫= k).
Proof.
  intros Hm Hk s last Hs. specialize (Hm s last Hs). unfold mbind, stm_mbind.
  destruct (m s) as [s1 [a|e| |]]; cbn in *; [by apply Hk|done..].
Qed.
(** As above, where the rest may rely on what was read. *)
Lemma read_ok {E A B} (m : stm S E A) (k : A → stm S E B) s last :
  keeps m → chain_ok keccak256 (contents s) last →
  (∀ s1 a, m s = (s1, Ok a) → same_chain (contents s1) (contents s) → chain_ok keccak256 (contents (k a s1).1) last) →
  chain_ok keccak256 (contents ((m ≫= k) s).1) last.
Proof.
  intros Hm Hs Hk. pose proof (Hm s) as Hc. unfold mbind, stm_mbind.
  destruct (m s) as [s1 [a|e| |]] eqn:Hr; cbn in *; [by apply Hk|by rewrite Hc..].
Qed.
Lemma serves_keeps {E A} (m : stm S E A) : serves m → keeps m.
Proof. intros Hm s. by rewrite (proj1 (Hm s)). Qed.
Lemma keeps_build args : keeps (build (S:=S) args).
Proof.
  unfold build, build_payload. keep.
  all: first [apply keeps_spec_id | apply beacon_root_keeps | apply withdrawals_keep
    | apply keeps_apply_updates | apply keeps_trie_op].
Qed.
Lemma query_canonical n (s s' : S) a : query (get_canonical_block_hash n) s = (s', Ok a) → a = InMemory.canonical_hashes (contents s) !! n.
Proof. intros Hq. apply (query_Ok _ (InMemory.get_canonical_block_hash n)) in Hq; [|eauto with engine]. by injection Hq. Qed.
Lemma query_header h (s s' : S) a : query (get_block_header_by_hash h) s = (s', Ok a) → a = InMemory.headers (contents s) !! h.
Proof. intros Hq. apply (query_Ok _ (InMemory.get_block_header_by_hash h)) in Hq; [|eauto with engine]. by injection Hq. Qed.

(** A mark is set on a number of the chain. *)
Lemma marked_ok c last d :
  chain_ok keccak256 c last →
  InMemory.latest_block_number d = InMemory.latest_block_number (InMemory.chain_data c) →
  (∀ n, InMemory.safe_block_number d = Some n ∨ InMemory.finalized_block_number d = Some n → 0 <= n <= last) →
  chain_ok keccak256 (InMemory.put_chain_data d c) last.
Proof.
  intros [H1' H0' H2' H3' H4' H5' H6'] Hl Hm. split; cbn; [|done|by rewrite Hl|done..].
  by apply (wf_store_tables _ c).
Qed.
Lemma update_finalized_ok n : ∀ s last, chain_ok keccak256 (contents s) last → 0 <= n <= last →
  chain_ok keccak256 (contents (query (update_finalized_block_number (S:=S) n) s).1) last.
Proof.
  intros s last Hs Hn. pose proof (lawful_update_finalized_block_number n s) as Hl. unfold query, stm_map_err.
  destruct (update_finalized_block_number n s) as [s' r]. cbn in *. injection Hl as Hl _. rewrite <-Hl.
  apply marked_ok; [done..|]. cbn. intros m [?|[= <-]]; [|done]. apply (ok_marks _ _ _ Hs). by left.
Qed.
Lemma update_safe_ok n : ∀ s last, chain_ok keccak256 (contents s) last → 0 <= n <= last →
  chain_ok keccak256 (contents (query (update_safe_block_number (S:=S) n) s).1) last.
Proof.
  intros s last Hs Hn. pose proof (lawful_update_safe_block_number n s) as Hl. unfold query, stm_map_err.
  destruct (update_safe_block_number n s) as [s' r]. cbn in *. injection Hl as Hl _. rewrite <-Hl.
  apply marked_ok; [done..|]. cbn. intros m [[= <-]|?]; [done|]. apply (ok_marks _ _ _ Hs). by right.
Qed.
(** Both setters check that the block is canonical first. *)
Lemma canonical_mark n h s last (k : stm S RpcErr unit) e :
  chain_ok keccak256 (contents s) last →
  (∀ s1, chain_ok keccak256 (contents s1) last → 0 <= n <= last → chain_ok keccak256 (contents (k s1).1) last) →
  chain_ok keccak256 (contents ((canonical ← query (get_canonical_block_hash (S:=S) n);
    if bool_decide (canonical = Some h) then k else lift (Err e)) s).1) last.
Proof.
  intros Hs Hk. apply read_ok; [unfold query; keep|done|]. intros s1 a Ha H1'. apply query_canonical in Ha.
  case_bool_decide as Hc; [|by rewrite H1']. apply Hk; [by rewrite H1'|]. apply (ok_range _ _ _ Hs). rewrite <-Ha, Hc. eauto.
Qed.
Lemma set_finalized_ok h : keeps_ok (set_finalized_block (S:=S) h).
Proof.
  intros s last Hs. unfold set_finalized_block. destruct (zero_hash h); [done|].
  apply read_ok; [apply serves_keeps; unfold query; serve; apply block_by_hash_serves|done|]. intros s1 [b|] _ H1'; [|by rewrite H1'].
  apply canonical_mark; [by rewrite H1'|]. intros. by apply update_finalized_ok.
Qed.
Lemma set_safe_ok h : keeps_ok (set_safe_block (S:=S) h).
Proof.
  intros s last Hs. unfold set_safe_block. destruct (zero_hash h); [done|].
  apply read_ok; [apply serves_keeps; unfold query; serve; apply block_by_hash_serves|done|]. intros s1 [b|] _ H1'; [|by rewrite H1'].
  apply canonical_mark; [by rewrite H1'|]. intros. by apply update_safe_ok.
Qed.
Lemma add_payload_ok i b : keeps_ok (query (add_payload (S:=S) i b)).
Proof.
  intros s last Hs. pose proof (lawful_add_payload i b s) as Hl. unfold query, stm_map_err.
  destruct (add_payload i b s) as [s' r]. cbn in *. injection Hl as Hl _. rewrite <-Hl. by apply (chain_ok_ext _ (contents s)).
Qed.
Lemma start_payload_ok h a r : keeps_ok (start_payload (S:=S) h a r).
Proof.
  unfold start_payload. apply keeps_ok_bind; [apply keeps_keeps_ok, keep_lift|intros i].
  apply keeps_ok_bind; [apply keeps_keeps_ok, keeps_map_err, keeps_build|intros b].
  apply keeps_ok_bind; [apply add_payload_ok|intros _]. apply keeps_keeps_ok, keep_ret.
Qed.
Lemma difficulty_keeps h hdr : keeps (total_difficulty_check (S:=S) h hdr).
Proof. unfold total_difficulty_check. keep. Qed.

(** On one chain the head that is asked for is canonical already, so a fork choice only
    sets marks and builds a payload. *)
Lemma fork_choice_ok req : keeps_ok (fork_choice_updated (S:=S) req).
Proof.
  intros s last Hs. unfold fork_choice_updated. destruct (zero_hash _); [done|].
  apply read_ok; [unfold query; keep|done|]. intros s1 hb Hb H1'. apply query_header in Hb. destruct hb as [hdr|]; [|by rewrite H1'].
  apply read_ok; [unfold query; apply keeps_map_err, difficulty_keeps|by rewrite H1'|]. intros s2 [err|] _ H2'; rewrite H1' in H2'; [by rewrite H2'|].
  apply read_ok; [unfold query; keep|by rewrite H2'|]. intros s3 can Hcan H3'. apply query_canonical in Hcan. rewrite H2' in H3'.
  rewrite (same_chain_ext InMemory.canonical_hashes _ _ (λ _ _, eq_refl) H2') in Hcan.
  rewrite (ok_single _ _ _ Hs _ _ (eq_sym Hb)) in Hcan. subst can.
  apply read_ok; [unfold query; keep|by rewrite H3'|]. intros s4 num _ H4'. rewrite H3' in H4'.
  apply read_ok; [apply keep_lift|by rewrite H4'|]. intros s5 num' _ H5'. rewrite H4' in H5'.
  apply read_ok; [unfold query; keep|by rewrite H5'|]. intros s6 cur _ H6'. rewrite H5' in H6'. cbv zeta.
  rewrite bool_decide_eq_false_2 by naive_solver.
  assert (chain_ok keccak256 (contents s6) last) as Hs6 by (by rewrite H6').
  case_bool_decide; [done|]. revert Hs6. generalize s6 last.
  apply keeps_ok_bind; [apply set_finalized_ok|intros _]. apply keeps_ok_bind; [apply set_safe_ok|intros _].
  apply keeps_ok_bind; [case_match; [apply start_payload_ok|apply keeps_keeps_ok, keep_ret]|intros r]. apply keeps_keeps_ok, keep_ret.
Qed.

(** ** All requests *)
Lemma call_ok {R} (parse : option (list Value) → res RpcErr R) (handle : R → stm S RpcErr Reply) req :
  (∀ r, keeps_ok (handle r)) → keeps_ok (call parse handle req).
Proof. intros Hh. apply keeps_ok_bind; [apply keeps_keeps_ok, keep_lift|done]. Qed.
Lemma serves_ok {E A} (m : stm S E A) : serves m → keeps_ok m.
Proof. intros Hm. by apply keeps_keeps_ok, serves_keeps. Qed.
Lemma block_value_serves l : ∀ f n i t g, serves (block_value_loop (S:=S) f n i l t g).
Proof.
  induction l as [|tx l IH]; intros f n i t g; cbn; [serve|]. destruct (Transaction.effective_gas_tip tx f) as [fee|]; [|serve].
  assert (serves (get_receipt (S:=S) n (Z.of_nat i))) as Hr by serve.
  intros s. specialize (Hr s). destruct (get_receipt n (Z.of_nat i) s) as [s1 [[r|]| | |]]; cbn in Hr; try exact Hr.
  assert (serves (d ← lift (usub (Receipt.cumulative_gas_used r) g); total_fee ← lift (u256_add t (fee * d));
    block_value_loop (S:=S) f n (Datatypes.S i) l total_fee (Receipt.cumulative_gas_used r))) as Hk by serve.
  destruct (Hk s1) as [Hc Hn], Hr as [Hc1 Hn1]. split; [by rewrite Hc|]. intros h. by rewrite Hn.
Qed.
Lemma get_payload_serves i : serves (get_payload_request (S:=S) i).
Proof. unfold get_payload_request, query, payload_block_value. serve; apply block_value_serves. Qed.

Lemma send_raw_ok req : keeps_ok (call parse_send_raw (send_raw_transaction (S:=S)) req).
Proof.
  intros s last Hs. destruct (send_raw_effect req s) as [_ [He|[tx (hdr & config & _ & _ & He)]]]; rewrite He; [done|].
  by apply (chain_ok_ext _ (contents s)).
Qed.
Lemma http_ok req node : keeps_ok (map_http_requests req node).
Proof.
  destruct (decide (RpcRequest.method req = "eth_sendRawTransaction")) as [Hm|Hm]; [|by apply serves_ok, http_serves].
  unfold map_http_requests, namespace, map_eth_requests, dispatch. rewrite Hm. apply send_raw_ok.
Qed.
Lemma eth_ok req : keeps_ok (map_eth_requests req).
Proof.
  unfold map_eth_requests. destruct (decide (RpcRequest.method req = "eth_sendRawTransaction")) as [Hm|Hm].
  - unfold dispatch. rewrite Hm. apply send_raw_ok.
  - by apply serves_ok, dispatch_serves; [apply eth_methods_serve|].
Qed.

(** A delivered block does not collide with a stored one. *)
Definition no_clash (req : RpcRequest.t) (c : InMemory.StoreInner) : Prop :=
  ∀ r b hdr, parse_new_payload (RpcRequest.params req) = Ok r → into_block (payload r) (parent_beacon_block_root r) = Ok b →
    InMemory.headers c !! block_hash_of (Block.header b) = Some hdr → hdr = Block.header b.
Lemma new_payload_ok r (s : S) last :
  chain_ok keccak256 (contents s) last →
  (∀ b hdr, into_block (payload r) (parent_beacon_block_root r) = Ok b →
    InMemory.headers (contents s) !! block_hash_of (Block.header b) = Some hdr → hdr = Block.header b) →
  ∃ last', last <= last' ∧ chain_ok keccak256 (contents (new_payload r s).1) last'.
Proof.
  intros Hs Hcl. destruct (new_payload r s) as [s' rep] eqn:Hr.
  destruct (new_payload_effect r s s' rep (ok_wf _ _ _ Hs) Hr) as [[Hc _]|(b & rs & l & [Hb _] & _ & Hl & Hlt & Hnext & Ha & Hc)].
  - exists last. split; [lia|]. cbn. by rewrite Hc.
  - rewrite (ok_latest _ _ _ Hs) in Hl. injection Hl as <-. exists (last + 1). split; [lia|]. cbn. rewrite Hc.
    pose proof (ok_nonneg _ _ _ Hs).
    apply delivered_ok; [done| |done|intros hdr; by apply Hcl].
    unfold uadd, checked, in_width in Hnext. repeat case_match; simplify_eq; [done|].
    pose proof (Z.mod_le (last + 1) (2 ^ 64)). lia.
Qed.
Lemma engine_methods_ok : Forall (λ e, e.1 = "engine_newPayloadV3" ∨ ∀ req, keeps_ok (e.2 req)) (engine_methods (S:=S)).
Proof.
  unfold engine_methods.
  constructor; [right; intros req; apply call_ok; intros r; apply serves_ok, serves_ret|].
  constructor; [right; intros req; apply call_ok; intros r; apply fork_choice_ok|].
  constructor; [by left|].
  constructor; [right; intros req; apply call_ok; intros r; apply serves_ok; unfold exchange_transition_config, query; serve|].
  constructor; [right; intros req; apply call_ok; intros r; apply serves_ok, get_payload_serves|constructor].
Qed.
Lemma engine_ok req (s : S) last :
  chain_ok keccak256 (contents s) last → no_clash req (contents s) →
  ∃ last', last <= last' ∧ chain_ok keccak256 (contents (map_engine_requests req s).1) last'.
Proof.
  intros Hs Hcl. unfold map_engine_requests.
  destruct (decide (RpcRequest.method req = "engine_newPayloadV3")) as [Hm|Hm].
  - assert (dispatch (engine_methods (S:=S)) req = call parse_new_payload new_payload req) as -> by (unfold dispatch; rewrite Hm; reflexivity).
    unfold call, lift, mbind, stm_mbind.
    destruct (parse_new_payload (RpcRequest.params req)) as [r| | |] eqn:Hp; [|exists last; (split; [lia|exact Hs])..].
    apply new_payload_ok; [done|]. intros b hdr. by apply Hcl.
  - exists last. split; [lia|]. revert s last Hs Hcl. cut (keeps_ok (dispatch (engine_methods (S:=S)) req)); [by intros Hk s last Hs _; apply Hk|].
    unfold dispatch. destruct (List.find _ _) as [[name h]|] eqn:Hf; [|apply keeps_keeps_ok, keep_lift].
    apply List.find_some in Hf as [Hin He]. apply bool_decide_eq_true in He. subst name. apply list_elem_of_In in Hin.
    destruct (proj1 (Forall_forall _ _) engine_methods_ok _ Hin) as [Hx|Hx]; [done|apply Hx].
Qed.

(** ** Sequences of requests *)

(** The states of a store that starts with a genesis block and serves requests. *)
Inductive reachable (g : Genesis.t) (node : Node.t) : S → Prop :=
  | reach_start s : contents s = genesis_contents keccak256 g → reachable g node s
  | reach_http s req : reachable g node s → reachable g node (map_http_requests req node s).1
  | reach_authrpc s req : reachable g node s → no_clash req (contents s) → reachable g node (map_authrpc_requests req s).1.

Lemma reachable_ok g node s : reachable g node s → ∃ last, chain_ok keccak256 (contents s) last.
Proof.
  induction 1 as [s Hs|s req _ [last IH]|s req _ [last IH] Hcl].
  - exists 0. rewrite Hs. apply genesis_chain_ok.
  - exists last. by apply http_ok.
  - unfold map_authrpc_requests. destruct (namespace req) as [[]| | |]; try (by exists last).
    + destruct (engine_ok req s last IH Hcl) as (last' & _ & Hok). by exists last'.
    + exists last. by apply eth_ok.
Qed.
End Requests.

(** C9: the client keeps one chain.  From a store with the genesis block on, after any
    requests to the two servers in any order, the blocks in the store are exactly the
    canonical ones: one for every number up to the latest, each naming its predecessor as
    parent, and the safe and finalized numbers are among them.  For every lawful engine
    and back end; assumed of the hash: no delivered block collides with a stored one. *)
Theorem requests_keep_one_chain (P : Profile) (V : Serde) (C : Crypto) {S : Type} `{LawfulTrieEngine S}
    `{!QuietEngine S} `{Backend S} `{!LawfulBackend S} (g : Genesis.t) (node : Node.t) (s : S) :
  reachable g node s →
  let c := contents s in
  ∃ last, InMemory.latest_block_number (InMemory.chain_data c) = Some last ∧ 0 <= last ∧
    (∀ n, 0 <= n <= last → ∃ hdr,
      let hash := BlockHeader.compute_block_hash keccak256 hdr in
      InMemory.canonical_hashes c !! n = Some hash ∧ InMemory.headers c !! hash = Some hdr ∧
      is_Some (InMemory.bodies c !! hash) ∧ BlockHeader.number hdr = n ∧
      (0 < n → InMemory.canonical_hashes c !! (n - 1) = Some (BlockHeader.parent_hash hdr))) ∧
    (∀ h hdr, InMemory.headers c !! h = Some hdr →
      0 <= BlockHeader.number hdr <= last ∧ InMemory.canonical_hashes c !! BlockHeader.number hdr = Some h) ∧
    (∀ n, InMemory.safe_block_number (InMemory.chain_data c) = Some n ∨
      InMemory.finalized_block_number (InMemory.chain_data c) = Some n → 0 <= n <= last).
Proof.
  intros Hr c. apply reachable_ok in Hr as [last Hok]. fold c in Hok. destruct Hok as [Hwf Hpos Hl Hran Hsin Hlin Hm].
  exists last. split_and!; [done|done| | |exact Hm].
  - intros n Hn. apply Hran in Hn as [h Hc]. destruct (wf_canonical _ _ Hwf _ _ Hc) as (hdr & Hh & Hnum).
    destruct (wf_hash _ _ Hwf _ _ Hh) as (-> & _ & Hb). exists hdr. split_and!; [done..|]. intros Hn0. by eapply Hlin.
  - intros h hdr Hh. pose proof (Hsin _ _ Hh) as Hc. split; [|done]. apply Hran. by eexists.
Qed.

(** ** Witnesses: a payload on top of a genesis block *)
Definition engine_crypto : Crypto := {|
  keccak256 := poly_digest; Signature := unit; from_compact := λ _ _, Some tt; recover_ecdsa := λ d _, Some (4 :: d);
  create_address := λ a _, a; trie_root := entries_root poly_digest
|}.
Definition engine_start : InMemoryTries.Store :=
  (add_initial_state (H0:=dev_profile) (S:=InMemoryTries.Store) poly_digest (entries_root poly_digest)
    (setup_genesis_state_trie (H:=dev_profile) poly_digest) one_account_genesis InMemoryTries.new).1.
Lemma engine_start_contents : contents engine_start = genesis_contents poly_digest one_account_genesis.
Proof. vm_compute. reflexivity. Qed.
Definition genesis_header : BlockHeader.t :=
  Block.header (Genesis.get_block poly_digest (entries_root poly_digest) one_account_genesis).
Definition next_header : BlockHeader.t :=
  BlockHeader.mk (poly_digest (BlockHeader.encode genesis_header)) DEFAULT_OMMERS_HASH (replicate 20 1)
    (BlockHeader.state_root genesis_header) (compute_transactions_root (entries_root poly_digest) []) (replicate 32 5)
    (replicate 256 0) 0 1 25000000 0 1012 [] (replicate 32 6) 0 (Some 875000000)
    (Some (compute_withdrawals_root (entries_root poly_digest) [])) (Some 0) (Some 0) (Some (replicate 32 1)).
Definition next_block : Block.t := Block.mk next_header (BlockBody.mk [] [] (Some [])).
Definition next_payload : ExecutionPayloadV3.t := from_block (H0:=engine_crypto) next_block.
Definition engine_serde : Serde := {|
  from_value_H256 := λ _, Some (replicate 32 1);
  from_value_H256s := λ _, Some [];
  from_value_Address := λ _, None;
  from_value_U256s := λ _, None;
  from_value_BlockTag := λ _, None;
  from_value_GenericTransaction := λ _, None;
  from_value_AddressFilter := λ _, None;
  from_value_TopicFilters := λ _, None;
  from_value_ExecutionPayloadV3 := λ _, Some next_payload;
  from_value_ForkChoiceState := λ _, None;
  from_value_PayloadAttributesV3 := λ _, None;
  from_value_ExchangeTransitionConfigPayload := λ _, None;
  from_value_Strings := λ _, None;
  H256_from_str := λ _, None;
  hex_decode := λ _, None;
  RLPDecodeError_to_string := λ _, "";
  EvmError_to_string := λ _, "";
  IpAddr_to_string := λ _, "";
  f32 := Z;
  from_value_f32s := λ _, None;
  f32_le := Z.leb;
  f32_is_percentage := λ x, (0 <=? x) && (x <=? 100);
  f32_percentile := λ x n, Z.to_nat (x * Z.of_nat n / 100);
  below_error_ratio := λ a b, 1000 * a <? 15 * b
|}.
Definition deliver_next : NewPayloadV3Request := mkNewPayload next_payload [] (replicate 32 1).
Abbreviation run_next := (new_payload (H:=dev_profile) (H0:=engine_serde) (H1:=engine_crypto) (H4:=toy_backend InMemoryTries.Store)
  deliver_next engine_start).
Lemma engine_start_wf : wf_store poly_digest (contents engine_start).
Proof. rewrite engine_start_contents. exact (ok_wf _ _ _ (genesis_chain_ok poly_digest one_account_genesis)). Qed.

Lemma new_payload_correct_witness :
  run_next.2 = Ok (ReplyPayloadStatus (PayloadStatus.valid_with_hash (poly_digest (BlockHeader.encode next_header)))) ∧
  InMemory.block_numbers (contents run_next.1) !! ExecutionPayloadV3.block_hash next_payload = Some 1.
Proof.
  assert (run_next.2 = Ok (ReplyPayloadStatus (PayloadStatus.valid_with_hash (poly_digest (BlockHeader.encode next_header)))))
    as Hr by (vm_compute; reflexivity).
  split; [exact Hr|].
  destruct (@new_payload_correct dev_profile engine_serde engine_crypto InMemoryTries.Store InMemoryTries.engine
    InMemoryTries.lawful InMemoryTries.tries InMemoryTries.lawful_tries in_memory_quiet (toy_backend _) toy_backend_lawful
    deliver_next engine_start run_next.1 run_next.2 engine_start_wf (surjective_pairing _)) as [Hv _].
  destruct (Hv _ Hr eq_refl) as (_ & b & [Hb _] & Hn & _).
  assert (into_block (H:=dev_profile) (H0:=engine_crypto) next_payload (replicate 32 1) = Ok next_block) as Hb' by (vm_compute; reflexivity).
  pose proof (eq_trans (eq_sym Hb) Hb') as [= ->]. exact Hn.
Defined.

Definition next_request : RpcRequest.t := RpcRequest.mk (IdNumber 1) "2.0" "engine_newPayloadV3" (Some [Null; Null; Null]).
Abbreviation serve_next := (map_authrpc_requests (H:=dev_profile) (H0:=engine_serde) (H1:=engine_crypto)
  (H5:=toy_backend InMemoryTries.Store) next_request engine_start).
Lemma next_no_clash : no_clash (H:=dev_profile) (H0:=engine_serde) (H1:=engine_crypto) next_request (contents engine_start).
Proof.
  intros r b hdr Hp Hb Hh. exfalso.
  assert (parse_new_payload (H0:=engine_serde) (RpcRequest.params next_request) = Ok deliver_next) as Hp' by reflexivity.
  pose proof (eq_trans (eq_sym Hp) Hp') as Hr. apply Ok_inj in Hr. subst r.
  assert (into_block (H:=dev_profile) (H0:=engine_crypto) next_payload (replicate 32 1) = Ok next_block) as Hb' by (vm_compute; reflexivity).
  pose proof (eq_trans (eq_sym Hb) Hb') as He. apply Ok_inj in He. subst b.
  assert (InMemory.headers (contents engine_start) !! block_hash_of (H0:=engine_crypto) (Block.header next_block) = None)
    as Hn by (vm_compute; reflexivity).
  pose proof (eq_trans (eq_sym Hn) Hh) as Hx. discriminate Hx.
Qed.
Lemma requests_keep_one_chain_witness :
  ∃ hdr, InMemory.canonical_hashes (contents serve_next.1) !! 1 = Some (poly_digest (BlockHeader.encode hdr)) ∧
    InMemory.canonical_hashes (contents serve_next.1) !! 0 = Some (BlockHeader.parent_hash hdr).
Proof.
  destruct (@requests_keep_one_chain dev_profile engine_serde engine_crypto InMemoryTries.Store InMemoryTries.engine
    InMemoryTries.lawful InMemoryTries.tries InMemoryTries.lawful_tries in_memory_quiet (toy_backend _) toy_backend_lawful
    one_account_genesis (Node.mk (V4 [127; 0; 0; 1]) 30303 30303 (replicate 64 1)) serve_next.1) as (last & Hl & _ & Hn & _).
  - apply reach_authrpc; [apply reach_start; exact engine_start_contents|exact next_no_clash].
  - assert (InMemory.latest_block_number (InMemory.chain_data (contents serve_next.1)) = Some 1) as Hl' by (vm_compute; reflexivity).
    pose proof (eq_trans (eq_sym Hl) Hl') as Hx. injection Hx as ->.
    destruct (Hn 1 ltac:(lia)) as (hdr & Hc & _ & _ & _ & Hp). exists hdr. split; [exact Hc|]. apply Hp. lia.
Defined.
