(* ===== verification/EnginePayloads.v ===== *)
(** * JSON-RPC: payloads that the client builds

    A fork choice with payload attributes announces a payload; the payload can be fetched
    under its id, has what the attributes ask for, and, delivered back, is the block that
    was built. *)

From S2P Require Import Prelude Rlp RlpLaws U256 Exponential Vm Codec Effects Nibble TrieNode Trie TrieRefine.
From S2P Require Import CoreTypes CoreLaws Consensus Genesis Store StoreLaws StateTries StateLaws GenesisState Blockchain PayloadLaws.
From S2P Require Import ImportLaws ImportState NetTypes SerdeUtils RpcTypes RpcEth RpcTx RpcEngine Rpc RpcLaws EngineLaws ChainLaws.

#[local] Set Default Proof Using "Type*".

Section Announced.
Context `{Profile} `{Serde} `{Crypto} {S : Type} `{LawfulTrieEngine S} `{!QuietEngine S} `{Backend S} `{!LawfulBackend S}.

(** The arguments that a fork choice passes on. *)
Definition payload_args (head : H256) (a : PayloadAttributesV3.t) : BuildPayloadArgs.t :=
  BuildPayloadArgs.mk head (PayloadAttributesV3.timestamp a) (PayloadAttributesV3.suggested_fee_recipient a)
    (PayloadAttributesV3.prev_randao a) (PayloadAttributesV3.withdrawals a)
    (Some (PayloadAttributesV3.parent_beacon_block_root a)) 3.
(** What the attributes ask of a block. *)
Definition as_requested (head : H256) (a : PayloadAttributesV3.t) (b : Block.t) : Prop :=
  let h := Block.header b in
  BlockHeader.parent_hash h = head ∧ BlockHeader.timestamp h = PayloadAttributesV3.timestamp a ∧
  BlockHeader.coinbase h = PayloadAttributesV3.suggested_fee_recipient a ∧
  BlockHeader.prev_randao h = PayloadAttributesV3.prev_randao a ∧
  BlockHeader.parent_beacon_block_root h = Some (PayloadAttributesV3.parent_beacon_block_root a) ∧
  Block.body b = BlockBody.mk [] [] (Some (PayloadAttributesV3.withdrawals a)).

Lemma build_as_requested head a (s s' : S) b : build (payload_args head a) s = (s', Ok b) → as_requested head a b.
Proof.
  intros Hb. unfold build, build_payload in Hb. do 3 (apply stm_bind_inv in Hb as (? & ? & _ & Hb)).
  apply stm_bind_inv in Hb as (s4 & header & Hhd & Hb). injection Hhd as _ Hhd. apply no_err_Ok in Hhd.
  unfold payload_header in Hhd. do 3 (apply bind_Ok in Hhd as (? & _ & Hhd)). injection Hhd as Hhd.
  do 4 (apply stm_bind_inv in Hb as (? & ? & _ & Hb)). injection Hb as _ Hb. subst b header. done.
Qed.

Lemma start_payload_Ok head a resp (s s' : S) resp' :
  start_payload head a resp s = (s', Ok resp') →
  ∃ id b s1, ForkChoiceResponse.payload_id resp' = Some id ∧ build (payload_args head a) s = (s1, Ok b) ∧
    InMemory.payloads (contents s') !! id = Some b ∧ InMemory.chain_data (contents s') = InMemory.chain_data (contents s).
Proof.
  intros Hs. unfold start_payload in Hs. fold (payload_args head a) in Hs.
  apply stm_bind_inv in Hs as (s1 & id & Hid & Hs). injection Hid as <- _.
  apply stm_bind_inv in Hs as (s2 & b & Hb & Hs). unfold stm_map_err in Hb.
  destruct (build (payload_args head a) s) as [t [|e| |]] eqn:Hbu; simplify_eq/=.
  apply stm_bind_inv in Hs as (s3 & [] & Hp & Hs). injection Hs as <- <-.
  pose proof (keeps_build (payload_args head a) s) as Hk. rewrite Hbu in Hk. cbn in Hk.
  apply (query_Ok _ (InMemory.add_payload id b)) in Hp; [|eauto with engine]. injection Hp as Hp.
  exists id, b, s2. rewrite <-Hp. split; [done|split; [done|split; [apply lookup_insert_eq|]]].
  exact (same_chain_ext InMemory.chain_data _ _ (λ _ _, eq_refl) Hk).
Qed.

(** Only the end of a fork choice announces a payload. *)
Lemma fork_choice_announces req (s s' : S) resp id :
  fork_choice_updated req s = (s', Ok (ReplyForkChoice resp)) → ForkChoiceResponse.payload_id resp = Some id →
  ∃ a s0 resp0, payload_attributes req = Some a ∧
    start_payload (head_block_hash (fork_choice_state req)) a resp0 s0 = (s', Ok resp).
Proof.
  intros Hf Hid. unfold fork_choice_updated in Hf. destruct (zero_hash _); [by injection Hf as _ <-|].
  apply stm_bind_inv in Hf as (s1 & [hdr|] & _ & Hf); [|done].
  apply stm_bind_inv in Hf as (s2 & [e|] & _ & Hf); [by injection Hf as _ <-|].
  do 4 (apply stm_bind_inv in Hf as (? & ? & _ & Hf)). cbv zeta in Hf.
  assert (∀ t, (_ ← set_finalized_block (finalized_block_hash (fork_choice_state req));
    _ ← set_safe_block (safe_block_hash (fork_choice_state req));
    response ← match payload_attributes req with
               | Some attributes => start_payload (head_block_hash (fork_choice_state req)) attributes
                   (ForkChoiceResponse.from (PayloadStatus.valid_with_hash (head_block_hash (fork_choice_state req))))
               | None => mret (ForkChoiceResponse.from (PayloadStatus.valid_with_hash (head_block_hash (fork_choice_state req))))
               end;
    mret (ReplyForkChoice response)) t = (s', Ok (ReplyForkChoice resp)) →
    ∃ a s0 resp0, payload_attributes req = Some a ∧
      start_payload (head_block_hash (fork_choice_state req)) a resp0 s0 = (s', Ok resp)) as Hend.
  { intros t Ht. do 2 (apply stm_bind_inv in Ht as (? & ? & _ & Ht)). apply stm_bind_inv in Ht as (t3 & r & Hr & Ht).
    injection Ht as -> ->. destruct (payload_attributes req) as [a|]; [by eauto|]. injection Hr as _ <-. done. }
  case_bool_decide; [|case_bool_decide; [done|by eapply Hend]].
  do 2 (apply stm_bind_inv in Hf as (? & ? & _ & Hf)). by eapply Hend.
Qed.

Lemma get_payload_served id b (s : S) :
  InMemory.payloads (contents s) !! id = Some b → BlockBody.transactions (Block.body b) = [] →
  ∃ s', get_payload_request id s = (s', Ok (ReplyPayload (ExecutionPayloadResponse.new (from_block b) 0))).
Proof.
  intros Hb Ht. unfold get_payload_request, query, stm_map_err, mbind, stm_mbind.
  pose proof (lawful_get_payload id s) as Hl. destruct (get_payload id s) as [s1 r]. cbn in Hl.
  unfold InMemory.get_payload, InMemory.read in Hl. rewrite Hb in Hl. injection Hl as _ <-.
  cbn. unfold payload_block_value. rewrite Ht. cbn. by eexists.
Qed.
End Announced.

(** C11: a payload that a fork choice announces is there: [getPayload], whose parser reads
    the announced id as the reply prints it, returns a payload that builds on the head, with the timestamp, fee recipient,
    randomness, withdrawals and beacon root of the attributes and no transactions; and
    when Cancun is active and the header has a base fee, delivering the payload back
    decodes to exactly the block that was built, with the hash it states. *)
Theorem announced_payload_served (P : Profile) (V : Serde) (C : Crypto) {S : Type} `{LawfulTrieEngine S}
    `{!QuietEngine S} `{Backend S} `{!LawfulBackend S} (req : ForkChoiceUpdatedV3) (s s' : S)
    (resp : ForkChoiceResponse.t) (id : Z) :
  fork_choice_updated req s = (s', Ok (ReplyForkChoice resp)) → ForkChoiceResponse.payload_id resp = Some id →
  ∃ a b, payload_attributes req = Some a ∧ as_requested (head_block_hash (fork_choice_state req)) a b ∧
    (0 <= id < 2 ^ 64 → parse_get_payload (Some [U64Serde.hex_str_opt_padded_serialize (Some id)]) = Ok id) ∧
    (∃ s'', get_payload_request id s' = (s'', Ok (ReplyPayload (ExecutionPayloadResponse.new (from_block b) 0)))) ∧
    ExecutionPayloadV3.block_hash (from_block b) = block_hash_of (Block.header b) ∧
    ∀ config, InMemory.chain_config (InMemory.chain_data (contents s')) = Some config →
      ChainConfig.is_shanghai_activated config (PayloadAttributesV3.timestamp a) = true →
      ChainConfig.is_cancun_activated config (PayloadAttributesV3.timestamp a) = true →
      is_Some (BlockHeader.base_fee_per_gas (Block.header b)) →
      into_block (from_block b) (PayloadAttributesV3.parent_beacon_block_root a) = Ok b.
Proof.
  intros Hf Hid. destruct (fork_choice_announces req s s' resp id Hf Hid) as (a & s0 & resp0 & Ha & Hs).
  apply start_payload_Ok in Hs as (id' & b & s1 & Hid' & Hb & Hp & Hd). rewrite Hid in Hid'. injection Hid' as <-.
  pose proof (build_as_requested _ _ _ _ _ Hb) as Hreq. pose proof Hreq as (_ & _ & _ & _ & _ & Hbody).
  exists a, b. split_and!; [done|done| | |done|].
  - intros Hr. destruct (padded_hex_parse id Hr) as (x & Hx & Hn). unfold parse_get_payload. cbn -[hex_padded strip_prefix from_str_radix].
    by rewrite Hx, Hn.
  - apply get_payload_served; [done|]. by rewrite Hbody.
  - intros config Hc Hsh Hca Hfee. rewrite Hd in Hc.
    destruct (build_engine_block _ _ config _ _ _ Hb eq_refl Hc Hsh Hca Hfee) as [He Ht].
    apply from_into_block; [done|]. rewrite Ht. constructor.
Qed.

(** ** Witness: a payload on top of the delivered block *)
Definition next_attributes : PayloadAttributesV3.t :=
  PayloadAttributesV3.mk 1024 (replicate 32 7) (replicate 20 2) [] (replicate 32 3).
Definition choose_next : ForkChoiceUpdatedV3 :=
  mkForkChoice (mkForkChoiceState (poly_digest (BlockHeader.encode next_header)) (replicate 32 0) (replicate 32 0)) (Some next_attributes).
Abbreviation run_choice := (fork_choice_updated (H:=dev_profile) (H1:=engine_crypto) (H4:=toy_backend InMemoryTries.Store)
  choose_next run_next.1).
Definition choice_reply : ForkChoiceResponse.t :=
  ForkChoiceResponse.set_id 216172782113783808
    (ForkChoiceResponse.from (PayloadStatus.valid_with_hash (poly_digest (BlockHeader.encode next_header)))).
Lemma announced_payload_served_witness :
  ∃ b, as_requested (poly_digest (BlockHeader.encode next_header)) next_attributes b ∧
    ∃ s'', get_payload_request (H:=dev_profile) (H1:=engine_crypto) 216172782113783808 run_choice.1 =
      (s'', Ok (ReplyPayload (ExecutionPayloadResponse.new (from_block (H0:=engine_crypto) b) 0))).
Proof.
  assert (run_choice.2 = Ok (ReplyForkChoice choice_reply)) as Hr by (vm_compute; reflexivity).
  destruct (@announced_payload_served dev_profile engine_serde engine_crypto InMemoryTries.Store InMemoryTries.engine
    InMemoryTries.lawful InMemoryTries.tries InMemoryTries.lawful_tries in_memory_quiet (toy_backend _) toy_backend_lawful
    choose_next run_next.1 run_choice.1 choice_reply 216172782113783808) as (a & b & Ha & Hb & _ & Hg & _).
  - exact (pair_of_second _ _ Hr).
  - reflexivity.
  - injection Ha as <-. exists b. exact (conj Hb Hg).
Defined.
