(* ===== verification/GasLaws.v ===== *)
(** * JSON-RPC: the estimate of gas

    [eth_estimateGas] searches for a gas limit with simulations.  The search ends, within
    [SEARCH_FUEL] rounds, whatever the simulations answer, and the limit that it returns
    is one at which the transaction was seen to succeed. *)

From S2P Require Import Prelude Rlp RlpLaws U256 Exponential Vm Codec Effects.
From S2P Require Import CoreTypes CoreLaws Consensus Genesis Store StoreLaws StateTries StateLaws Blockchain PayloadLaws ImportLaws ImportState.
From S2P Require Import GenesisState NetTypes SerdeUtils RpcTypes RpcEth RpcTx RpcEngine Rpc RpcLaws EngineLaws ChainLaws.

#[local] Set Default Proof Using "Type*".

(** ** The measure of the search *)

(** Rounds that the search needs at most from the bounds [lo] and [hi]: every round doubles
    [lo], or halves the distance, or cuts the distance from more than [2 * lo] to [lo]. *)
Definition rounds (lo hi : Z) : Z := 64 - Z.log2 lo + Z.log2_up (hi - lo).
Lemma rounds_bound lo hi : 1 <= lo < hi → hi < 2 ^ 63 → 0 <= rounds lo hi <= 127.
Proof.
  intros Hl Hh. unfold rounds. pose proof (Z.log2_nonneg lo). pose proof (Z.log2_up_nonneg (hi - lo)).
  assert (Z.log2 lo < 63) by (apply Z.log2_lt_pow2; lia).
  assert (Z.log2_up (hi - lo) <= 63) by (apply Z.log2_up_le_pow2; lia). lia.
Qed.
Lemma log2_up_half a d : 1 <= a → 2 <= d → 2 * a <= d + 1 → Z.log2_up a < Z.log2_up d.
Proof.
  intros Ha Hd Hh. rewrite (Z.log2_up_eqn d) by lia. pose proof (Z.log2_nonneg (Z.pred d)).
  destruct (decide (a = 1)) as [->|]; [cbn; lia|]. rewrite (Z.log2_up_eqn a) by lia.
  pose proof (Z.log2_le_mono (2 * Z.pred a) (Z.pred d)). rewrite Z.log2_double in * by lia. lia.
Qed.
Lemma rounds_fail lo hi mid :
  1 <= lo → lo < mid < hi → mid = 2 * lo ∨ 2 * (hi - mid) <= hi - lo + 1 → rounds mid hi < rounds lo hi.
Proof.
  intros Hl Hm Hc. unfold rounds. destruct Hc as [->|Hc].
  - rewrite Z.log2_double by lia. pose proof (Z.log2_up_le_mono (hi - 2 * lo) (hi - lo)). lia.
  - pose proof (Z.log2_le_mono lo mid). pose proof (log2_up_half (hi - mid) (hi - lo)). lia.
Qed.
Lemma rounds_succeed lo hi mid : 1 <= lo → lo < mid < hi → 2 * (mid - lo) <= hi - lo + 1 → rounds lo mid < rounds lo hi.
Proof. intros Hl Hm Hc. unfold rounds. pose proof (log2_up_half (mid - lo) (hi - lo)). lia. Qed.

(** ** The search *)
Section Search.
Context `{Profile} `{Serde} `{Crypto} {S : Type} `{LawfulTrieEngine S} `{!QuietEngine S} `{Backend S} `{!LawfulBackend S}.
Variable transaction : GenericTransaction.t.
Variable header : BlockHeader.t.
Variable spec : SpecId.

(** A simulation with a gas limit, from a store like [s], answered [b]. *)
Definition seen (s : S) (b : bool) (gas : Z) : Prop :=
  ∃ s1, contents s1 = contents s ∧ same_nodes s s1 ∧
    (simulates_successfully (with_gas (Some gas) transaction) header spec s1).2 = Ok b.
Lemma seen_like s s1 b gas : contents s1 = contents s → same_nodes s s1 → seen s1 b gas → seen s b gas.
Proof.
  intros Hc Hn (s2 & Hc' & Hn' & Hr). exists s2. split_and!; [by rewrite Hc'| |done]. intros h. by rewrite Hn'.
Qed.

(** The result [g] of a search from [lo] and [hi]: a success or [hi] itself, and next to, or
    within the error ratio of, a limit that failed or [lo]. *)
Definition good_limit (s : S) (lo hi g : Z) : Prop :=
  (g = hi ∨ seen s true g) ∧
  ∃ l, (l = lo ∨ seen s false l) ∧ (g <= l + 1 ∨ below_error_ratio (g - l) g = true).

(** Simulations end, with a result or an error. *)
Hypothesis simulations_return : ∀ gas (s : S), ∃ s' b,
  simulates_successfully (with_gas (Some gas) transaction) header spec s = (s', Ok b).

Lemma simulation_seen gas s : ∃ s' b, simulates_successfully (with_gas (Some gas) transaction) header spec s = (s', Ok b) ∧
  seen s b gas ∧ contents s' = contents s ∧ same_nodes s s'.
Proof.
  destruct (simulations_return gas s) as (s' & b & Hr). exists s', b. split; [done|].
  assert (serves (S:=S) (simulates_successfully (with_gas (Some gas) transaction) header spec)) as Hs.
  { unfold simulates_successfully, simulate_tx. serve. }
  destruct (Hs s) as [Hc Hn]. rewrite Hr in Hc, Hn. split; [|done]. exists s. by rewrite Hr.
Qed.

(** One round, from any middle. *)
Lemma search_round fuel lo hi mid s :
  1 <= lo < 2 ^ 63 → 0 <= hi < 2 ^ 63 → 0 <= mid < 2 ^ 63 →
  let m := Z.min (2 * lo) mid in
  let run := search_gas (Datatypes.S fuel) transaction header spec lo hi mid s in
  (run = (s, Ok hi) ∧ good_limit s lo hi hi) ∨
  lo + 1 < hi ∧ ∃ s1 b, seen s b m ∧ contents s1 = contents s ∧ same_nodes s s1 ∧
    run = if b : bool then search_gas fuel transaction header spec lo m ((m + lo) / 2) s1
          else search_gas fuel transaction header spec m hi ((hi + m) / 2) s1.
Proof.
  intros Hl Hh Hm m run. subst run. cbn [search_gas]. unfold mbind, stm_mbind, lift.
  rewrite uadd_ok by lia. cbn beta iota. destruct (Z.ltb_spec (lo + 1) hi).
  2:{ left. split; [done|]. split; [by left|]. exists lo. split; [by left|]. left. lia. }
  rewrite usub_ok by lia. cbn beta iota. destruct (below_error_ratio (hi - lo) hi) eqn:He.
  { left. split; [done|]. split; [by left|]. exists lo. split; [by left|]. by right. }
  rewrite umul_ok by lia. cbn beta iota. right. split; [done|].
  replace (if lo * 2 <? mid then lo * 2 else mid) with m by (subst m; case_match; lia).
  destruct (simulation_seen m s) as (s1 & b & Hr & Hs & Hc & Hn). exists s1, b. split_and!; [done..|].
  rewrite Hr. destruct b; cbn beta iota; rewrite uadd_ok by lia; done.
Qed.

Lemma good_limit_succeed s s1 lo hi m g :
  contents s1 = contents s → same_nodes s s1 → seen s true m → good_limit s1 lo m g → good_limit s lo hi g.
Proof.
  intros Hc Hn Hm [Hg (l & Hl & Hd)]. split.
  - right. destruct Hg as [->|Hg]; [done|]. by eapply seen_like.
  - exists l. split; [|done]. destruct Hl as [->|Hl]; [by left|]. right. by eapply seen_like.
Qed.
Lemma good_limit_fail s s1 lo hi m g :
  contents s1 = contents s → same_nodes s s1 → seen s false m → good_limit s1 m hi g → good_limit s lo hi g.
Proof.
  intros Hc Hn Hm [Hg (l & Hl & Hd)]. split.
  - destruct Hg as [->|Hg]; [by left|]. right. by eapply seen_like.
  - exists l. split; [|done]. right. destruct Hl as [->|Hl]; [done|]. by eapply seen_like.
Qed.

(** From the middle between the bounds on, the measure bounds the rounds. *)
Lemma search_ends fuel lo hi s :
  1 <= lo < 2 ^ 63 → 0 <= hi < 2 ^ 63 → (lo < hi → rounds lo hi < Z.of_nat fuel) → (0 < fuel)%nat →
  ∃ s' g, search_gas fuel transaction header spec lo hi ((hi + lo) / 2) s = (s', Ok g) ∧ good_limit s lo hi g.
Proof.
  revert lo hi s. induction fuel as [|fuel IH]; intros lo hi s Hl Hh Hr Hf; [lia|].
  pose proof (Z.div_mod (hi + lo) 2). pose proof (Z.mod_pos_bound (hi + lo) 2).
  destruct (search_round fuel lo hi ((hi + lo) / 2) s) as [(-> & Hg)|(Hlt & s1 & b & Hs & Hc & Hn & ->)]; [lia..|by eauto|].
  set (m := Z.min (2 * lo) ((hi + lo) / 2)) in *. pose proof (rounds_bound lo hi). specialize (Hr ltac:(lia)).
  assert (lo < m < hi) by lia. destruct b.
  - pose proof (rounds_succeed lo hi m). pose proof (rounds_bound lo m).
    destruct (IH lo m s1) as (s' & g & -> & Hg); [lia..|]. exists s', g. split; [done|]. by eapply good_limit_succeed.
  - pose proof (rounds_fail lo hi m). pose proof (rounds_bound m hi).
    destruct (IH m hi s1) as (s' & g & -> & Hg); [lia..|]. exists s', g. split; [done|]. by eapply good_limit_fail.
Qed.
Lemma search_ends_from fuel lo hi mid s :
  1 <= lo < 2 ^ 63 → 0 <= hi < 2 ^ 63 → 1 <= mid < 2 ^ 63 → (128 < fuel)%nat →
  ∃ s' g, search_gas fuel transaction header spec lo hi mid s = (s', Ok g) ∧ good_limit s lo hi g.
Proof.
  intros Hl Hh Hm Hf. destruct fuel as [|fuel]; [lia|].
  destruct (search_round fuel lo hi mid s) as [(-> & Hg)|(Hlt & s1 & b & Hs & Hc & Hn & ->)]; [lia..|by eauto|].
  set (m := Z.min (2 * lo) mid) in *. destruct b.
  - pose proof (rounds_bound lo m).
    destruct (search_ends fuel lo m s1) as (s' & g & -> & Hg); [lia..|]. exists s', g. split; [done|]. by eapply good_limit_succeed.
  - pose proof (rounds_bound m hi).
    destruct (search_ends fuel m hi s1) as (s' & g & -> & Hg); [lia..|]. exists s', g. split; [done|]. by eapply good_limit_fail.
Qed.
End Search.

(** C14: the search of [eth_estimateGas] ends: for every transaction and every behaviour of
    the simulations that lets them return, from positive bounds below [2 ^ 63] the loop
    leaves after at most [SEARCH_FUEL] rounds, without overflow, with a limit that was
    seen to succeed (or is the upper bound it started with) and that is one more than, or
    within the error ratio of, a limit that was seen to fail (or the lower bound). *)
Theorem gas_search_ends (P : Profile) (V : Serde) (C : Crypto) {S : Type} `{LawfulTrieEngine S}
    `{!QuietEngine S} `{Backend S} `{!LawfulBackend S} (transaction : GenericTransaction.t) (header : BlockHeader.t)
    (spec : SpecId) (lo hi mid : Z) (s : S) :
  (∀ gas s, ∃ s' b, simulates_successfully (with_gas (Some gas) transaction) header spec s = (s', Ok b)) →
  1 <= lo < 2 ^ 63 → 0 <= hi < 2 ^ 63 → 1 <= mid < 2 ^ 63 →
  ∃ s' g, search_gas SEARCH_FUEL transaction header spec lo hi mid s = (s', Ok g) ∧
    (g = hi ∨ seen transaction header spec s true g) ∧
    ∃ l, (l = lo ∨ seen transaction header spec s false l) ∧ (g <= l + 1 ∨ below_error_ratio (g - l) g = true).
Proof. intros Hs Hl Hh Hm. apply search_ends_from; [done..|]. unfold SEARCH_FUEL. lia. Qed.

Section Estimate.
Context `{Profile} `{Serde} `{Crypto} {S : Type} `{LawfulTrieEngine S} `{!QuietEngine S} `{Backend S} `{!LawfulBackend S}.
#[local] Opaque search_gas SEARCH_FUEL.
#[local] Hint Resolve resolve_serves resolve_header_serves spec_id_serves account_info_serves : serves.

Lemma bind_serves {E A B} (m : stm S E A) (k : A → stm S E B) s s' b :
  serves m → (m ≫= k) s = (s', Ok b) →
  ∃ s1 a, m s = (s1, Ok a) ∧ contents s1 = contents s ∧ same_nodes s s1 ∧ k a s1 = (s', Ok b).
Proof.
  intros Hm Hk. apply stm_bind_inv in Hk as (s1 & a & Hr & Hk). destruct (Hm s) as [Hc Hn]. rewrite Hr in Hc, Hn.
  exists s1, a. by split_and!.
Qed.
Lemma simulate_success transaction header spec (s s' : S) r :
  simulate_tx transaction header spec s = (s', Ok r) →
  (simulates_successfully transaction header spec s).2 = Ok true.
Proof.
  intros Hr. unfold simulates_successfully, attempt, mbind, stm_mbind. rewrite Hr. cbn.
  unfold simulate_tx in Hr. apply stm_bind_inv in Hr as (s1 & [] & _ & Hr); simplify_eq/=; [by injection Hr as _ <-|done..].
Qed.
Lemma plain_transfer_seen transaction header spec (s s' : S) :
  plain_transfer transaction header spec s = (s', Ok true) → seen transaction header spec s true TRANSACTION_GAS.
Proof.
  unfold plain_transfer. destruct (GenericTransaction.to transaction); [|by intros [=]]. intros Hp.
  apply bind_serves in Hp as (s1 & [info|] & _ & Hc & Hn & Hp); [| |unfold query; serve].
  - by apply stm_bind_inv in Hp as (s2 & a & _ & Hp).
  - exists s1. by rewrite Hp.
Qed.
#[local] Transparent search_gas.
Lemma search_sound fuel transaction header spec : ∀ lo hi mid (s s' : S) g,
  search_gas fuel transaction header spec lo hi mid s = (s', Ok g) → g = hi ∨ seen transaction header spec s true g.
Proof.
  induction fuel as [|fuel IH]; intros lo hi mid s s' g Hg; [done|]. cbn [search_gas] in Hg.
  apply stm_bind_inv in Hg as (? & next & [= <- _] & Hg). destruct (next <? hi); [|injection Hg; auto].
  apply stm_bind_inv in Hg as (? & distance & [= <- _] & Hg). destruct (below_error_ratio _ _); [injection Hg; auto|].
  apply stm_bind_inv in Hg as (? & double & [= <- _] & Hg). cbv zeta in Hg. set (m := if double <? mid then double else mid) in Hg.
  apply bind_serves in Hg as (s1 & b & Hr & Hc & Hn & Hg); [|unfold simulates_successfully, simulate_tx; serve].
  assert (seen transaction header spec s b m) as Hm by (exists s; by rewrite Hr).
  destruct b; apply stm_bind_inv in Hg as (? & sum & [= <- _] & Hg); apply IH in Hg as [->|Hg]; eauto using seen_like.
Qed.
#[local] Opaque search_gas.

(** What an estimate goes through: the plain transfer, or a search below a limit that was
    seen to succeed, from what that simulation used. *)
Lemma estimate_steps transaction block (s s' : S) x :
  estimate_gas (transaction, block) s = (s', Ok (ReplyString x)) →
  ∃ header spec,
    (x = hex_prefixed TRANSACTION_GAS ∧ seen transaction header spec s true TRANSACTION_GAS) ∨
    ∃ lo hi mid g s1, contents s1 = contents s ∧ same_nodes s s1 ∧ x = hex_prefixed g ∧ seen transaction header spec s true hi ∧
      search_gas SEARCH_FUEL transaction header spec lo hi mid s1 = (s', Ok g).
Proof.
  intros He. unfold estimate_gas in He.
  apply bind_serves in He as (s1 & [header|] & _ & Hc1 & Hn1 & He); [|done|unfold query; serve].
  apply bind_serves in He as (s2 & spec & _ & Hc2 & Hn2 & He); [|unfold query; serve].
  apply bind_serves in He as (s3 & [] & Hp & Hc3 & Hn3 & He); [| |unfold plain_transfer, query, simulates_successfully, simulate_tx; serve].
  { injection He as <- <-. exists header, spec. left. split; [done|].
    apply plain_transfer_seen in Hp. by eapply seen_like, seen_like. }
  exists header, spec. right. cbv zeta in He.
  apply bind_serves in He as (s4 & hi & _ & Hc4 & Hn4 & He); [|case_match; [apply serves_ret|apply recap_serves]].
  assert (contents s4 = contents s ∧ same_nodes s s4) as [Hc Hn].
  { split; [congruence|]. intros h. by rewrite Hn4, Hn3, Hn2, Hn1. }
  apply bind_serves in He as (s5 & r & Hr & Hc5 & Hn5 & He); [|unfold simulate_tx; serve].
  do 4 (apply stm_bind_inv in He as (? & ? & [= <- _] & He)).
  apply stm_bind_inv in He as (s6 & g & Hg & He). injection He as <- <-.
  do 4 eexists. exists s5. split_and!; [congruence| |done| |exact Hg].
  - intros h. by rewrite Hn5.
  - apply simulate_success in Hr. by exists s4.
Qed.
End Estimate.

(** C15: an estimate of [eth_estimateGas] is enough: the answer is the number of a gas limit
    at which a simulation of the transaction, on the state of the block, was seen to
    succeed.  For every lawful engine and back end. *)
Theorem estimated_gas_succeeds (P : Profile) (V : Serde) (C : Crypto) {S : Type} `{LawfulTrieEngine S}
    `{!QuietEngine S} `{Backend S} `{!LawfulBackend S} (transaction : GenericTransaction.t) (block : option BlockIdentifier)
    (s s' : S) (x : string) :
  estimate_gas (transaction, block) s = (s', Ok (ReplyString x)) →
  ∃ g header spec s1, x = hex_prefixed g ∧ contents s1 = contents s ∧ same_nodes s s1 ∧
    (simulates_successfully (with_gas (Some g) transaction) header spec s1).2 = Ok true.
Proof.
  intros He. apply estimate_steps in He as (header & spec & [(-> & s1 & Hc & Hn & Hr)|He]); [by exists TRANSACTION_GAS, header, spec, s1|].
  destruct He as (lo & hi & mid & g & s1 & Hc & Hn & -> & Hhi & Hg).
  apply search_sound in Hg as [->|Hg].
  - destruct Hhi as (s2 & Hc2 & Hn2 & Hr). by exists hi, header, spec, s2.
  - eapply seen_like in Hg as (s2 & Hc2 & Hn2 & Hr); [|done..]. by exists g, header, spec, s2.
Qed.

(** ** Witnesses: a transaction that needs a limit of 30000 and uses 25000 *)
Definition gas_backend (S : Type) : Backend S := {|
  EvmState := unit;
  evm_state := λ _, tt;
  accrue := λ b _, b;
  execute_tx := λ _ _ _ st, mret (ExecutionResult.Success Stop 21000 0 [] (OutputCall []), st);
  beacon_root_contract_call := λ _ _ st, mret st;
  process_withdrawals := λ _ st, mret st;
  get_state_transitions := λ _, [];
  simulate_tx_from_generic := λ t _ _ _,
    mret (if 30000 <=? default 0 (GenericTransaction.gas t) then ExecutionResult.Success Stop 25000 0 [] (OutputCall [])
          else ExecutionResult.Halt "OutOfGas" 25000);
  create_access_list := λ _ _ _ _, mret (ExecutionResult.Success Stop 21000 0 [] (OutputCall []), [])
|}.
#[export] Instance gas_backend_lawful {S} `{LawfulTrieEngine S} : LawfulBackend (H3:=gas_backend S) S.
Proof. split; by intros ** s. Qed.
Definition call_transaction : GenericTransaction.t :=
  GenericTransaction.mk TxType.Legacy 0 (TxKind.Call (replicate 20 1)) (replicate 20 2) None 0 [1] 0 None None None [] [] [] None.

Abbreviation run_search := (search_gas (H:=dev_profile) (H0:=engine_serde) (H1:=engine_crypto)
  (H4:=gas_backend InMemoryTries.Store) SEARCH_FUEL call_transaction genesis_header CANCUN 24999 25000000 26367 engine_start).
Lemma gas_search_ends_witness :
  ∃ g, run_search.2 = Ok g ∧ 30000 <= g <= 30500.
Proof.
  destruct (@gas_search_ends dev_profile engine_serde engine_crypto InMemoryTries.Store InMemoryTries.engine
    InMemoryTries.lawful InMemoryTries.tries InMemoryTries.lawful_tries in_memory_quiet (gas_backend _) gas_backend_lawful
    call_transaction genesis_header CANCUN 24999 25000000 26367 engine_start) as (s' & g & Hg & _).
  - intros gas s. exists s, (30000 <=? gas). cbv -[Z.leb block_hash_of]. by destruct (Z.leb 30000 gas).
  - lia.
  - lia.
  - lia.
  - exists g. split; [exact (f_equal snd Hg)|].
    assert (run_search.2 = Ok 30074) as Hc by (vm_compute; reflexivity).
    pose proof (eq_trans (eq_sym (f_equal snd Hg)) Hc) as Hx. injection Hx as ->. lia.
Defined.

Abbreviation run_estimate := (estimate_gas (H:=dev_profile) (H0:=engine_serde) (H1:=engine_crypto)
  (H4:=gas_backend InMemoryTries.Store) (call_transaction, None) engine_start).
Lemma estimated_gas_succeeds_witness :
  run_estimate.2 = Ok (ReplyString "0x7579") ∧
  ∃ g header spec s1, "0x7579" = hex_prefixed g ∧ contents s1 = contents engine_start ∧
    (simulates_successfully (H1:=engine_crypto) (H4:=gas_backend InMemoryTries.Store) (with_gas (Some g) call_transaction) header spec s1).2 = Ok true.
Proof.
  assert (run_estimate.2 = Ok (ReplyString "0x7579")) as Hr by (vm_compute; reflexivity). split; [exact Hr|].
  destruct (@estimated_gas_succeeds dev_profile engine_serde engine_crypto InMemoryTries.Store InMemoryTries.engine
    InMemoryTries.lawful InMemoryTries.tries InMemoryTries.lawful_tries in_memory_quiet (gas_backend _) gas_backend_lawful
    call_transaction None engine_start run_estimate.1 "0x7579" (pair_of_second _ _ Hr)) as (g & header & spec & s1 & Hx & Hc & _ & Hs).
  exists g, header, spec, s1. exact (conj Hx (conj Hc Hs)).
Defined.
