(* ===== verification/Libmdbx.v ===== *)
(** * The engine on libmdbx

    Model of [crates/storage/engines/libmdbx.rs], [crates/storage/rlp.rs] and the node
    databases of [crates/trie/db/libmdbx.rs] and [libmdbx_dupsort.rs]: the engine that
    keeps every table in a database file, as RLP.  The database itself, with its
    transactions, its tables of byte strings and its encoding of integers, is the
    libmdbx library and an argument (class [Mdbx]); so is the conversion of the chain
    configuration to JSON ([ConfigJson]). *)

From S2P Require Import Prelude Rlp RlpLaws U256 Exponential Vm Codec Effects.
From S2P Require Import CoreTypes CoreLaws Consensus Genesis Store TrieNode Trie.

(** ** The tables *)
Inductive Table :=
  | CanonicalBlockHashes | BlockNumbers | BlockTotalDifficulties | Headers | Bodies | AccountCodes | Receipts
  | StorageTriesNodes | TransactionLocations | TransactionPool | ChainData | StateTrieNodes | Payloads.
#[export] Instance Table_eq_dec : EqDecision Table.
Proof. solve_decision. Defined.
(** Declared with [dupsort!]: a key has a sorted set of values. *)
Definition dupsort (t : Table) : bool :=
  match t with Receipts | StorageTriesNodes | TransactionLocations => true | _ => false end.
(** The tables that [init_db] creates. *)
Definition tables : list Table :=
  [BlockNumbers; BlockTotalDifficulties; Headers; Bodies; AccountCodes; Receipts; TransactionLocations; TransactionPool;
   ChainData; StateTrieNodes; StorageTriesNodes; CanonicalBlockHashes; Payloads].

(** [libmdbx::orm]: databases [D] and transactions; any step may fail. *)
Class Mdbx (D : Type) := {
  Txn : Type;
  db_create : list Table → res unit D;
  begin_read : D → res unit Txn;
  begin_readwrite : D → res unit Txn;
  txn_upsert : Table → list Z → list Z → Txn → res unit Txn;
  txn_commit : Txn → D → D * res unit unit;
  txn_get : Table → list Z → Txn → res unit (option (list Z));
  cursor_walk_key : Table → list Z → Txn → res unit (list (res unit (list Z)));
  encode_u64 : Z → list Z;
  decode_u64 : list Z → option Z;
  encode_u32 : Z → list Z
}.
(** [serde_json::to_string] and [from_str] at [ChainConfig]; a [String] is its bytes. *)
Class ConfigJson := {
  config_to_string : ChainConfig.t → option (list Z);
  config_from_str : list Z → option ChainConfig.t
}.

(** ** rlp.rs *)

(** [Rlp::to]: decoding is unwrapped. *)
Definition Rlp_to {E A} (dec : list Z → dres (A * list Z)) (rlp : list Z) : res E A :=
  match decode dec rlp with
  | Ok a => Ok a
  | OutOfFuel => OutOfFuel
  | _ => Panic
  end.

(** ** libmdbx.rs *)

(** Fixed-size keys and values of account storage. *)
Record AccountStorageKeyBytes := mkKeyBytes { key_bytes : list Z }.
Record AccountStorageValueBytes := mkValueBytes { value_bytes : list Z }.
Definition AccountStorageKeyBytes_decode (b : list Z) : option AccountStorageKeyBytes :=
  if zlen b =? 32 then Some (mkKeyBytes b) else None.
Definition AccountStorageValueBytes_decode (b : list Z) : option AccountStorageValueBytes :=
  if zlen b =? 32 then Some (mkValueBytes b) else None.
Definition AccountStorageValueBytes_from (value : Z) : AccountStorageValueBytes := mkValueBytes (to_be 32 value).
Definition U256_from_value_bytes (value : AccountStorageValueBytes) : Z := of_be (value_bytes value).

Module ChainDataIndex.
Inductive t :=
  | ChainConfig | EarliestBlockNumber | FinalizedBlockNumber | SafeBlockNumber | LatestBlockNumber | PendingBlockNumber
  | LatestTotalDifficulty.
#[global] Instance t_eq_dec : EqDecision t.
Proof. solve_decision. Defined.
Definition as_u32 (i : t) : Z :=
  match i with
  | ChainConfig => 0
  | EarliestBlockNumber => 1
  | FinalizedBlockNumber => 2
  | SafeBlockNumber => 3
  | LatestBlockNumber => 4
  | PendingBlockNumber => 5
  | LatestTotalDifficulty => 6
  end.
Definition encode `{Mdbx D} (i : t) : list Z := encode_u32 (as_u32 i).
End ChainDataIndex.

Module LibmdbxStore.
Section Engine.
Context `{Profile} {D : Type} `{Mdbx D} `{ConfigJson}.
Abbreviation op A := (stm D StoreError A).
Definition mdbx {A} (r : res unit A) : res StoreError A := map_err (λ _, Store.LibmdbxError) r.

Definition init_db : pres D := match db_create tables with Ok d => Ok d | OutOfFuel => OutOfFuel | _ => Panic end.

(** A write transaction that fails before its commit leaves the database as it was. *)
Definition write (t : Table) (key value : list Z) : op unit := λ d,
  match mdbx (begin_readwrite d) with
  | Ok txn =>
    match mdbx (txn_upsert t key value txn) with
    | Ok txn => let '(d, r) := txn_commit txn d in (d, mdbx r)
    | Err e => (d, Err e)
    | Panic => (d, Panic)
    | OutOfFuel => (d, OutOfFuel)
    end
  | Err e => (d, Err e)
  | Panic => (d, Panic)
  | OutOfFuel => (d, OutOfFuel)
  end.
Definition read (t : Table) (key : list Z) : op (option (list Z)) := λ d,
  (d, txn ← mdbx (begin_read d); mdbx (txn_get t key txn)).
(** [.map(|b| b.to())] on what was read. *)
Definition read_rlp {A} (t : Table) (dec : list Z → dres (A * list Z)) (key : list Z) : op (option A) :=
  b ← read t key;
  match b with
  | Some b => lift (Some <$> Rlp_to dec b)
  | None => mret None
  end.

Definition get_block_hash_by_block_number (number : BlockNumber) : op (option BlockHash) :=
  read_rlp CanonicalBlockHashes H256_decode (encode_u64 number).

Definition add_block_header (block_hash : BlockHash) (block_header : BlockHeader.t) : op unit :=
  write Headers (H256_encode block_hash) (BlockHeader.encode block_header).
Definition get_block_header (block_number : BlockNumber) : op (option BlockHeader.t) :=
  hash ← get_block_hash_by_block_number block_number;
  match hash with
  | Some hash => read_rlp Headers BlockHeader.decode_unfinished (H256_encode hash)
  | None => mret None
  end.
Definition add_block_body (block_hash : BlockHash) (block_body : BlockBody.t) : op unit :=
  write Bodies (H256_encode block_hash) (BlockBody.encode block_body).
Definition get_block_body_by_hash (block_hash : BlockHash) : op (option BlockBody.t) :=
  read_rlp Bodies BlockBody.decode_unfinished (H256_encode block_hash).
Definition get_block_body (block_number : BlockNumber) : op (option BlockBody.t) :=
  hash ← get_block_hash_by_block_number block_number;
  match hash with
  | Some hash => get_block_body_by_hash hash
  | None => mret None
  end.
Definition get_block_header_by_hash (block_hash : BlockHash) : op (option BlockHeader.t) :=
  read_rlp Headers BlockHeader.decode_unfinished (H256_encode block_hash).
Definition add_block_number (block_hash : BlockHash) (block_number : BlockNumber) : op unit :=
  write BlockNumbers (H256_encode block_hash) (encode_u64 block_number).
Definition get_block_number (block_hash : BlockHash) : op (option BlockNumber) :=
  b ← read BlockNumbers (H256_encode block_hash);
  match b with
  | Some b => lift (Some <$> ok_or Store.LibmdbxError (decode_u64 b))
  | None => mret None
  end.
Definition add_block_total_difficulty (block_hash : BlockHash) (block_total_difficulty : Z) : op unit :=
  write BlockTotalDifficulties (H256_encode block_hash) (U256_encode block_total_difficulty).
Definition get_block_total_difficulty (block_hash : BlockHash) : op (option Z) :=
  read_rlp BlockTotalDifficulties U256_decode (H256_encode block_hash).
Definition add_account_code (code_hash : H256) (code : list Z) : op unit :=
  write AccountCodes (H256_encode code_hash) (Bytes_encode code).
Definition get_account_code (code_hash : H256) : op (option (list Z)) :=
  read_rlp AccountCodes Bytes_decode (H256_encode code_hash).
Definition receipt_key (block_hash : BlockHash) (index : Index) : list Z :=
  pair_encode H256_encode u64_encode (block_hash, index).
Definition add_receipt (block_hash : BlockHash) (index : Index) (receipt : Receipt.t) : op unit :=
  write Receipts (receipt_key block_hash index) (Receipt.encode receipt).
Definition get_receipt (block_number : BlockNumber) (index : Index) : op (option Receipt.t) :=
  hash ← get_block_hash_by_block_number block_number;
  match hash with
  | Some hash => read_rlp Receipts Receipt.decode_unfinished (receipt_key hash index)
  | None => mret None
  end.

Definition location_encode : BlockNumber * BlockHash * Index → list Z := triple_encode u64_encode H256_encode u64_encode.
Definition location_decode : list Z → dres (BlockNumber * BlockHash * Index * list Z) :=
  triple_decode u64_decode H256_decode u64_decode.
Definition add_transaction_location (transaction_hash : H256) (block_number : BlockNumber) (block_hash : BlockHash)
    (index : Index) : op unit :=
  write TransactionLocations (H256_encode transaction_hash) (location_encode (block_number, block_hash, index)).
(** [map_while] ends at the first error of the cursor; [find] decodes one value at a time
    and reads the canonical hash of its number. *)
Fixpoint find_location (values : list (res unit (list Z))) : op (option (BlockNumber * BlockHash * Index)) :=
  match values with
  | Ok b :: values =>
    location ← lift (Rlp_to location_decode b);
    (let '(number, hash, index) := location in λ d,
       match get_block_hash_by_block_number number d with
       | (d, Ok o) => if bool_decide (o = Some hash) then (d, Ok (Some location)) else find_location values d
       | (d, Err _) => find_location values d
       | (d, Panic) => (d, Panic)
       | (d, OutOfFuel) => (d, OutOfFuel)
       end) : op (option (BlockNumber * BlockHash * Index))
  | _ => mret None
  end.
Definition get_transaction_location (transaction_hash : H256) : op (option (BlockNumber * BlockHash * Index)) := λ d,
  match txn ← mdbx (begin_read d); mdbx (cursor_walk_key TransactionLocations (H256_encode transaction_hash) txn) with
  | Ok values => find_location values d
  | Err e => (d, Err e)
  | Panic => (d, Panic)
  | OutOfFuel => (d, OutOfFuel)
  end.
Definition add_transaction_to_pool (hash : H256) (transaction : Transaction.t) : op unit :=
  write TransactionPool (H256_encode hash) (Transaction.encode transaction).
Definition get_transaction_from_pool (hash : H256) : op (option Transaction.t) :=
  read_rlp TransactionPool Transaction.decode_unfinished (H256_encode hash).

Definition set_chain_config (chain_config : ChainConfig.t) : op unit :=
  json ← lift (ok_or DecodeError (config_to_string chain_config));
  write ChainData (ChainDataIndex.encode ChainDataIndex.ChainConfig) json.
Definition get_chain_config : op ChainConfig.t :=
  b ← read ChainData (ChainDataIndex.encode ChainDataIndex.ChainConfig);
  match b with
  | None => lift (Err (StoreCustom "Chain config not found"))
  | Some bytes =>
    if utf8_valid bytes then lift (ok_or DecodeError (config_from_str bytes)) else lift (Err DecodeError)
  end.

(** The numbers of the chain, each under its own index. *)
Definition update_chain_data (index : ChainDataIndex.t) (rlp : list Z) : op unit :=
  write ChainData (ChainDataIndex.encode index) rlp.
Definition get_chain_data (index : ChainDataIndex.t) (dec : list Z → dres (Z * list Z)) : op (option Z) :=
  b ← read ChainData (ChainDataIndex.encode index);
  match b with
  | None => mret None
  | Some rlp => lift (Some <$> map_err (λ _, DecodeError) (decode dec rlp))
  end.
Definition update_earliest_block_number (n : BlockNumber) : op unit := update_chain_data ChainDataIndex.EarliestBlockNumber (u64_encode n).
Definition get_earliest_block_number : op (option BlockNumber) := get_chain_data ChainDataIndex.EarliestBlockNumber u64_decode.
Definition update_finalized_block_number (n : BlockNumber) : op unit := update_chain_data ChainDataIndex.FinalizedBlockNumber (u64_encode n).
Definition get_finalized_block_number : op (option BlockNumber) := get_chain_data ChainDataIndex.FinalizedBlockNumber u64_decode.
Definition update_safe_block_number (n : BlockNumber) : op unit := update_chain_data ChainDataIndex.SafeBlockNumber (u64_encode n).
Definition get_safe_block_number : op (option BlockNumber) := get_chain_data ChainDataIndex.SafeBlockNumber u64_decode.
Definition update_latest_block_number (n : BlockNumber) : op unit := update_chain_data ChainDataIndex.LatestBlockNumber (u64_encode n).
Definition get_latest_block_number : op (option BlockNumber) := get_chain_data ChainDataIndex.LatestBlockNumber u64_decode.
Definition update_latest_total_difficulty (n : Z) : op unit := update_chain_data ChainDataIndex.LatestTotalDifficulty (U256_encode n).
Definition get_latest_total_difficulty : op (option Z) := get_chain_data ChainDataIndex.LatestTotalDifficulty U256_decode.
Definition update_pending_block_number (n : BlockNumber) : op unit := update_chain_data ChainDataIndex.PendingBlockNumber (u64_encode n).
Definition get_pending_block_number : op (option BlockNumber) := get_chain_data ChainDataIndex.PendingBlockNumber u64_decode.

Definition set_canonical_block (number : BlockNumber) (hash : BlockHash) : op unit :=
  write CanonicalBlockHashes (encode_u64 number) (H256_encode hash).
Definition get_canonical_block_hash (number : BlockNumber) : op (option BlockHash) :=
  read_rlp CanonicalBlockHashes H256_decode (encode_u64 number).
Definition add_payload (payload_id : Z) (block : Block.t) : op unit :=
  write Payloads (encode_u64 payload_id) (Block.encode block).
Definition get_payload (payload_id : Z) : op (option Block.t) :=
  read_rlp Payloads Block.decode_unfinished (encode_u64 payload_id).

#[global] Instance engine : StoreEngine D := {|
  Store.add_block_header := add_block_header;
  Store.get_block_header := get_block_header;
  Store.add_block_body := add_block_body;
  Store.get_block_body := get_block_body;
  Store.get_block_body_by_hash := get_block_body_by_hash;
  Store.get_block_header_by_hash := get_block_header_by_hash;
  Store.add_block_number := add_block_number;
  Store.get_block_number := get_block_number;
  Store.add_block_total_difficulty := add_block_total_difficulty;
  Store.get_block_total_difficulty := get_block_total_difficulty;
  Store.add_transaction_location := add_transaction_location;
  Store.get_transaction_location := get_transaction_location;
  Store.add_transaction_to_pool := add_transaction_to_pool;
  Store.get_transaction_from_pool := get_transaction_from_pool;
  Store.add_receipt := add_receipt;
  Store.get_receipt := get_receipt;
  Store.add_account_code := add_account_code;
  Store.get_account_code := get_account_code;
  Store.get_canonical_block_hash := get_canonical_block_hash;
  Store.set_chain_config := set_chain_config;
  Store.get_chain_config := get_chain_config;
  Store.update_earliest_block_number := update_earliest_block_number;
  Store.get_earliest_block_number := get_earliest_block_number;
  Store.update_finalized_block_number := update_finalized_block_number;
  Store.get_finalized_block_number := get_finalized_block_number;
  Store.update_safe_block_number := update_safe_block_number;
  Store.get_safe_block_number := get_safe_block_number;
  Store.update_latest_block_number := update_latest_block_number;
  Store.get_latest_block_number := get_latest_block_number;
  Store.update_latest_total_difficulty := update_latest_total_difficulty;
  Store.get_latest_total_difficulty := get_latest_total_difficulty;
  Store.update_pending_block_number := update_pending_block_number;
  Store.get_pending_block_number := get_pending_block_number;
  Store.set_canonical_block := set_canonical_block;
  Store.add_payload := add_payload;
  Store.get_payload := get_payload
|}.
End Engine.
End LibmdbxStore.

(** ** The node databases of the trie *)
Section NodeDatabases.
Context `{Profile} {D : Type} `{Mdbx D}.
Definition node_mdbx {A} (r : res unit A) : res Trie.TrieError A := map_err (λ _, Trie.LibmdbxError) r.
Definition node_read (t : Table) (key : list Z) (d : D) : res Trie.TrieError (option (list Z)) :=
  txn ← node_mdbx (begin_read d); node_mdbx (txn_get t key txn).
Definition node_write (t : Table) (key value : list Z) : stm D Trie.TrieError unit := λ d,
  match txn ← node_mdbx (begin_readwrite d); node_mdbx (txn_upsert t key value txn) with
  | Ok txn => let '(d, r) := txn_commit txn d in (d, node_mdbx r)
  | Err e => (d, Err e)
  | Panic => (d, Panic)
  | OutOfFuel => (d, OutOfFuel)
  end.
(** [LibmdbxTrieDB] on the table of the state trie. *)
Definition state_trie_db : TrieDB D := {|
  db_get := node_read StateTrieNodes;
  db_put := node_write StateTrieNodes
|}.

(** The length, then the hash padded with zeros ([resize] also cuts what is longer). *)
Definition node_hash_to_fixed_size (node_hash : list Z) : res Trie.TrieError (list Z) :=
  let original_len := zlen node_hash in
  if overflow_checks && negb (original_len <=? 32) then Panic
  else Ok (original_len mod 256 :: take 32 (node_hash ++ replicate 32 0)).
(** [LibmdbxDupsortTrieDB] on the table of the storage tries: the address is the fixed part
    of the key ([Encodable] of a pair is an argument). *)
Definition storage_trie_db (encode_key : list Z * list Z → list Z) (fixed_key : Address) : TrieDB D := {|
  db_get key d := k ← node_hash_to_fixed_size key; node_read StorageTriesNodes (encode_key (fixed_key, k)) d;
  db_put key value := k ← lift (node_hash_to_fixed_size key); node_write StorageTriesNodes (encode_key (fixed_key, k)) value
|}.
End NodeDatabases.
