(* ===== verification/LibmdbxLaws.v ===== *)
(** * The two engines agree

    A database that keeps what is written to it makes the libmdbx engine answer like the
    in-memory engine, call by call, for every sequence of calls with well-formed
    arguments.  The exceptions are conditions of the calls: a second, different receipt for
    the same transaction (a table with duplicates keeps both), several canonical locations
    of one transaction (the engines pick different ones), and reading the configuration of
    a chain that has none (one engine panics, the other returns an error).  A value above
    the size limit of its table is refused by the database only. *)

From S2P Require Import Prelude Rlp RlpLaws U256 Exponential Vm Codec Effects.
From S2P Require Import CoreTypes CoreLaws Consensus Genesis Store StoreLaws TrieNode Trie StateTries StateLaws Libmdbx.

#[local] Set Default Proof Using "All".

(** ** The promises of the database *)

(** What a write does to the values under the keys. *)
Definition stored (e e' : Table → list Z → list (list Z)) (t : Table) (k v : list Z) : Prop :=
  (∀ t' k', (t', k') ≠ (t, k) → e' t' k' = e t' k') ∧
  if dupsort t then (v ∈ e t k → e' t k = e t k) ∧ (v ∉ e t k → e' t k ≡ₚ v :: e t k)
  else e' t k = [v].
(** A value has a largest size, which depends on the table: for a table with duplicates it
    is that of a key, about half a page.  Keys and values up to 64 bytes are within it. *)
Class LawfulMdbx (D : Type) `{Mdbx D} := {
  entries : D → Table → list Z → list (list Z);
  create_law : ∃ d, db_create tables = Ok d ∧ ∀ t k, entries d t k = [];
  read_law : ∀ d, ∃ txn, begin_read d = Ok txn ∧ ∀ t k,
    txn_get t k txn = Ok (head (entries d t k)) ∧ cursor_walk_key t k txn = Ok (map Ok (entries d t k));
  max_value : Table → Z;
  max_value_ge : ∀ t, 64 <= max_value t;
  write_law : ∀ d t k v, zlen k <= 64 → zlen v <= max_value t → ∃ txn txn' d', begin_readwrite d = Ok txn ∧ txn_upsert t k v txn = Ok txn' ∧
    txn_commit txn' d = (d', Ok tt) ∧ stored (entries d) (entries d') t k v;
  limit_law : ∀ d t k v, max_value t < zlen v → ∃ txn e, begin_readwrite d = Ok txn ∧ txn_upsert t k v txn = Err e;
  u64_size : ∀ n, is_uint 64 n → zlen (encode_u64 n) <= 64;
  u32_size : ∀ n, is_uint 32 n → zlen (encode_u32 n) <= 64;
  u64_law : ∀ n, is_uint 64 n → decode_u64 (encode_u64 n) = Some n;
  u32_law : ∀ i j, is_uint 32 i → is_uint 32 j → encode_u32 i = encode_u32 j → i = j
}.
Class LawfulJson `{ConfigJson} := json_law : ∀ config, ∃ json,
  config_to_string config = Some json ∧ utf8_valid json = true ∧ config_from_str json = Some config.

(** ** Calls *)
Definition storable {A} (enc : A → list Z) (wf : A → Prop) (x : A) : Prop := wf x ∧ zlen (enc x) <= isize_max.
Definition wf_location (l : BlockNumber * BlockHash * Index) : Prop := is_uint 64 l.1.1 ∧ is_array 32 l.1.2 ∧ is_uint 64 l.2.
Definition locations (t : H256) (c : InMemory.StoreInner) : list (BlockNumber * BlockHash * Index) :=
  default [] (InMemory.transaction_locations c !! t).
Definition canonical (c : InMemory.StoreInner) (l : BlockNumber * BlockHash * Index) : Prop :=
  InMemory.canonical_hashes c !! l.1.1 = Some l.1.2.
(** At most one location of the transaction is on the canonical chain. *)
Definition one_location (t : H256) (c : InMemory.StoreInner) : Prop :=
  ∀ l l', l ∈ locations t c → l' ∈ locations t c → canonical c l → canonical c l' → l = l'.
Definition receipt_of (c : InMemory.StoreInner) (h : BlockHash) (i : Index) : option Receipt.t :=
  m ← InMemory.receipts c !! h; m !! i.
Definition no_other_receipt (h : BlockHash) (i : Index) (x : Receipt.t) (c : InMemory.StoreInner) : Prop :=
  receipt_of c h i = None ∨ receipt_of c h i = Some x.

(** The calls of the trait, and what is asked of their arguments. *)
Inductive call : Type → Type :=
  | AddBlockHeader (h : BlockHash) (x : BlockHeader.t) : call unit
  | GetBlockHeader (n : BlockNumber) : call (option BlockHeader.t)
  | AddBlockBody (h : BlockHash) (x : BlockBody.t) : call unit
  | GetBlockBody (n : BlockNumber) : call (option BlockBody.t)
  | GetBlockBodyByHash (h : BlockHash) : call (option BlockBody.t)
  | GetBlockHeaderByHash (h : BlockHash) : call (option BlockHeader.t)
  | AddBlockNumber (h : BlockHash) (n : BlockNumber) : call unit
  | GetBlockNumber (h : BlockHash) : call (option BlockNumber)
  | AddBlockTotalDifficulty (h : BlockHash) (x : Z) : call unit
  | GetBlockTotalDifficulty (h : BlockHash) : call (option Z)
  | AddTransactionLocation (t : H256) (n : BlockNumber) (h : BlockHash) (i : Index) : call unit
  | GetTransactionLocation (t : H256) : call (option (BlockNumber * BlockHash * Index))
  | AddTransactionToPool (h : H256) (x : Transaction.t) : call unit
  | GetTransactionFromPool (h : H256) : call (option Transaction.t)
  | AddReceipt (h : BlockHash) (i : Index) (x : Receipt.t) : call unit
  | GetReceipt (n : BlockNumber) (i : Index) : call (option Receipt.t)
  | AddAccountCode (h : H256) (x : list Z) : call unit
  | GetAccountCode (h : H256) : call (option (list Z))
  | GetCanonicalBlockHash (n : BlockNumber) : call (option BlockHash)
  | SetChainConfig (x : ChainConfig.t) : call unit
  | GetChainConfig : call ChainConfig.t
  | UpdateEarliestBlockNumber (n : Z) : call unit
  | GetEarliestBlockNumber : call (option Z)
  | UpdateFinalizedBlockNumber (n : Z) : call unit
  | GetFinalizedBlockNumber : call (option Z)
  | UpdateSafeBlockNumber (n : Z) : call unit
  | GetSafeBlockNumber : call (option Z)
  | UpdateLatestBlockNumber (n : Z) : call unit
  | GetLatestBlockNumber : call (option Z)
  | UpdateLatestTotalDifficulty (n : Z) : call unit
  | GetLatestTotalDifficulty : call (option Z)
  | UpdatePendingBlockNumber (n : Z) : call unit
  | GetPendingBlockNumber : call (option Z)
  | SetCanonicalBlock (n : BlockNumber) (h : BlockHash) : call unit
  | AddPayload (n : Z) (x : Block.t) : call unit
  | GetPayload (n : Z) : call (option Block.t).
Definition run {S} `{StoreEngine S} {A} (k : call A) : stm S StoreError A :=
  match k with
  | AddBlockHeader h x => add_block_header h x
  | GetBlockHeader n => get_block_header n
  | AddBlockBody h x => add_block_body h x
  | GetBlockBody n => get_block_body n
  | GetBlockBodyByHash h => get_block_body_by_hash h
  | GetBlockHeaderByHash h => get_block_header_by_hash h
  | AddBlockNumber h n => add_block_number h n
  | GetBlockNumber h => get_block_number h
  | AddBlockTotalDifficulty h x => add_block_total_difficulty h x
  | GetBlockTotalDifficulty h => get_block_total_difficulty h
  | AddTransactionLocation t n h i => add_transaction_location t n h i
  | GetTransactionLocation t => get_transaction_location t
  | AddTransactionToPool h x => add_transaction_to_pool h x
  | GetTransactionFromPool h => get_transaction_from_pool h
  | AddReceipt h i x => add_receipt h i x
  | GetReceipt n i => get_receipt n i
  | AddAccountCode h x => add_account_code h x
  | GetAccountCode h => get_account_code h
  | GetCanonicalBlockHash n => get_canonical_block_hash n
  | SetChainConfig x => set_chain_config x
  | GetChainConfig => get_chain_config
  | UpdateEarliestBlockNumber n => update_earliest_block_number n
  | GetEarliestBlockNumber => get_earliest_block_number
  | UpdateFinalizedBlockNumber n => update_finalized_block_number n
  | GetFinalizedBlockNumber => get_finalized_block_number
  | UpdateSafeBlockNumber n => update_safe_block_number n
  | GetSafeBlockNumber => get_safe_block_number
  | UpdateLatestBlockNumber n => update_latest_block_number n
  | GetLatestBlockNumber => get_latest_block_number
  | UpdateLatestTotalDifficulty n => update_latest_total_difficulty n
  | GetLatestTotalDifficulty => get_latest_total_difficulty
  | UpdatePendingBlockNumber n => update_pending_block_number n
  | GetPendingBlockNumber => get_pending_block_number
  | SetCanonicalBlock n h => set_canonical_block n h
  | AddPayload n x => add_payload n x
  | GetPayload n => get_payload n
  end.
Definition admissible {A} (k : call A) (c : InMemory.StoreInner) : Prop :=
  match k with
  | AddBlockHeader h x => is_array 32 h ∧ storable BlockHeader.encode (λ x, wf_header x ∧ fork_ordered x) x
  | GetBlockHeader n => is_uint 64 n
  | AddBlockBody h x => is_array 32 h ∧ storable BlockBody.encode wf_body x
  | GetBlockBody n => is_uint 64 n
  | GetBlockBodyByHash h => is_array 32 h
  | GetBlockHeaderByHash h => is_array 32 h
  | AddBlockNumber h n => is_array 32 h ∧ is_uint 64 n
  | GetBlockNumber h => is_array 32 h
  | AddBlockTotalDifficulty h x => is_array 32 h ∧ is_uint 256 x
  | GetBlockTotalDifficulty h => is_array 32 h
  | AddTransactionLocation t n h i => is_array 32 t ∧ wf_location (n, h, i)
  | GetTransactionLocation t => is_array 32 t ∧ one_location t c
  | AddTransactionToPool h x => is_array 32 h ∧ storable Transaction.encode (λ x, wf_transaction x ∧ recognised x) x
  | GetTransactionFromPool h => is_array 32 h
  | AddReceipt h i x => is_array 32 h ∧ is_uint 64 i ∧ storable Receipt.encode wf_receipt x ∧ no_other_receipt h i x c
  | GetReceipt n i => is_uint 64 n ∧ is_uint 64 i
  | AddAccountCode h x => is_array 32 h ∧ storable Bytes_encode (Forall is_byte) x
  | GetAccountCode h => is_array 32 h
  | GetCanonicalBlockHash n => is_uint 64 n
  | SetChainConfig _ => True
  | GetChainConfig => is_Some (InMemory.chain_config (InMemory.chain_data c))
  | UpdateEarliestBlockNumber n => is_uint 64 n
  | GetEarliestBlockNumber => True
  | UpdateFinalizedBlockNumber n => is_uint 64 n
  | GetFinalizedBlockNumber => True
  | UpdateSafeBlockNumber n => is_uint 64 n
  | GetSafeBlockNumber => True
  | UpdateLatestBlockNumber n => is_uint 64 n
  | GetLatestBlockNumber => True
  | UpdateLatestTotalDifficulty n => is_uint 256 n
  | GetLatestTotalDifficulty => True
  | UpdatePendingBlockNumber n => is_uint 64 n
  | GetPendingBlockNumber => True
  | SetCanonicalBlock n h => is_uint 64 n ∧ is_array 32 h
  | AddPayload n x => is_uint 64 n ∧ storable Block.encode (λ b, (wf_header (Block.header b) ∧ fork_ordered (Block.header b)) ∧ wf_body (Block.body b)) x
  | GetPayload n => is_uint 64 n
  end.

(** The values of the calls that may be longer than 64 bytes, with their tables. *)
Definition written `{ConfigJson} {A} (k : call A) : option (Table * list Z) :=
  match k with
  | AddBlockHeader _ x => Some (Headers, BlockHeader.encode x)
  | AddBlockBody _ x => Some (Bodies, BlockBody.encode x)
  | AddTransactionToPool _ x => Some (TransactionPool, Transaction.encode x)
  | AddReceipt _ _ x => Some (Receipts, Receipt.encode x)
  | AddAccountCode _ x => Some (AccountCodes, Bytes_encode x)
  | SetChainConfig x => pair ChainData <$> config_to_string x
  | AddPayload _ x => Some (Payloads, Block.encode x)
  | _ => None
  end.
Definition fits `{ConfigJson} {D} `{LawfulMdbx D} {A} (k : call A) : bool :=
  match written k with Some (t, v) => zlen v <=? max_value t | None => true end.

(** Every call whose value fits its table is answered alike by both engines, if it is
    admissible; a call whose value does not fit is refused by the database, and the calls
    after it are answered as if it had not been made. *)
Fixpoint agree `{Profile} {D : Type} `{LawfulMdbx D} `{ConfigJson} (calls : list {A & call A}) (d : D)
    (c : InMemory.StoreInner) : Prop :=
  match calls with
  | [] => True
  | existT _ k :: calls =>
    if fits k then admissible k c → (run k d).2 = (run k c).2 ∧ agree calls (run k d).1 (run k c).1
    else run k d = (d, Err Store.LibmdbxError) ∧ agree calls d c
  end.

(** ** What a database stands for *)
Section Represents.
Context `{Profile} {D : Type} `{LawfulMdbx D} `{LawfulJson}.
Abbreviation Entries := (Table → list Z → list (list Z)).

(** A table holds the function [m]: the values of a key are those of [m], encoded. *)
Definition holds {K V} (e : Entries) (t : Table) (ek : K → list Z) (ev : V → list Z) (wk : K → Prop) (wv : V → Prop)
    (m : K → option V) : Prop :=
  ∀ k, wk k → match m k with Some v => wv v ∧ e t (ek k) = [ev v] | None => e t (ek k) = [] end.
Definition chain_field (c : InMemory.ChainData) (i : ChainDataIndex.t) : option (list Z) :=
  match i with
  | ChainDataIndex.ChainConfig => config ← InMemory.chain_config c; config_to_string config
  | ChainDataIndex.EarliestBlockNumber => u64_encode <$> InMemory.earliest_block_number c
  | ChainDataIndex.FinalizedBlockNumber => u64_encode <$> InMemory.finalized_block_number c
  | ChainDataIndex.SafeBlockNumber => u64_encode <$> InMemory.safe_block_number c
  | ChainDataIndex.LatestBlockNumber => u64_encode <$> InMemory.latest_block_number c
  | ChainDataIndex.PendingBlockNumber => u64_encode <$> InMemory.pending_block_number c
  | ChainDataIndex.LatestTotalDifficulty => U256_encode <$> InMemory.latest_total_difficulty c
  end.
Definition wf_chain_data (c : InMemory.ChainData) : Prop :=
  let ok w := from_option (is_uint w) True in
  ok 64 (InMemory.earliest_block_number c) ∧ ok 64 (InMemory.finalized_block_number c) ∧
  ok 64 (InMemory.safe_block_number c) ∧ ok 64 (InMemory.latest_block_number c) ∧
  ok 64 (InMemory.pending_block_number c) ∧ ok 256 (InMemory.latest_total_difficulty c).

Record represents (e : Entries) (c : InMemory.StoreInner) : Prop := {
  rep_canonical : holds e CanonicalBlockHashes encode_u64 H256_encode (is_uint 64) (is_array 32) (λ n, InMemory.canonical_hashes c !! n);
  rep_numbers : holds e BlockNumbers H256_encode encode_u64 (is_array 32) (is_uint 64) (λ h, InMemory.block_numbers c !! h);
  rep_difficulties : holds e BlockTotalDifficulties H256_encode U256_encode (is_array 32) (is_uint 256) (λ h, InMemory.block_total_difficulties c !! h);
  rep_headers : holds e Headers H256_encode BlockHeader.encode (is_array 32)
    (storable BlockHeader.encode (λ x, wf_header x ∧ fork_ordered x)) (λ h, InMemory.headers c !! h);
  rep_bodies : holds e Bodies H256_encode BlockBody.encode (is_array 32) (storable BlockBody.encode wf_body) (λ h, InMemory.bodies c !! h);
  rep_codes : holds e AccountCodes H256_encode Bytes_encode (is_array 32) (storable Bytes_encode (Forall is_byte)) (λ h, InMemory.account_codes c !! h);
  rep_receipts : holds e Receipts (pair_encode H256_encode u64_encode) Receipt.encode (λ k, is_array 32 k.1 ∧ is_uint 64 k.2)
    (storable Receipt.encode wf_receipt) (λ k, receipt_of c k.1 k.2);
  rep_pool : holds e TransactionPool H256_encode Transaction.encode (is_array 32)
    (storable Transaction.encode (λ x, wf_transaction x ∧ recognised x)) (λ h, InMemory.transaction_pool c !! h);
  rep_payloads : holds e Payloads encode_u64 Block.encode (is_uint 64)
    (storable Block.encode (λ b, (wf_header (Block.header b) ∧ fork_ordered (Block.header b)) ∧ wf_body (Block.body b)))
    (λ i, InMemory.payloads c !! i);
  rep_chain_data : holds e ChainData ChainDataIndex.encode id (λ _, True) (λ _, True) (chain_field (InMemory.chain_data c));
  rep_ranges : wf_chain_data (InMemory.chain_data c);
  rep_locations : ∀ t, is_array 32 t → Forall wf_location (locations t c) ∧
    ∀ x, x ∈ e TransactionLocations (H256_encode t) ↔ ∃ l, l ∈ locations t c ∧ x = LibmdbxStore.location_encode l
}.

(** *** Keys and values *)
Lemma H256_decode_encode h : is_array 32 h → decode H256_decode (H256_encode h) = Ok h.
Proof.
  intros Hh. apply (codec_decode H256_encode H256_decode (is_array 32)); [done|].
  destruct (H256_bytes h Hh) as [_ ->]. done.
Qed.
Lemma u64_decode_encode n : is_uint 64 n → decode u64_decode (u64_encode n) = Ok n.
Proof.
  intros Hn. apply (codec_decode u64_encode u64_decode (is_uint 64)); [done|].
  destruct (u64_bytes n Hn) as [_ Hl]. unfold isize_max. lia.
Qed.
Lemma U256_decode_encode n : is_uint 256 n → decode U256_decode (U256_encode n) = Ok n.
Proof.
  intros Hn. apply (codec_decode U256_encode U256_decode (is_uint 256)); [done|].
  destruct (U256_bytes n Hn) as [_ Hl]. unfold isize_max. lia.
Qed.
Lemma storable_decode {A} (enc : A → list Z) dec wf `{!Codec enc dec wf} x : storable enc wf x → decode dec (enc x) = Ok x.
Proof. intros [Hw Hl]. by apply codec_decode with (wf := wf). Qed.
Lemma encode_length_size n : zlen (encode_length n) <= 9.
Proof.
  unfold encode_length. case_match; [unfold zlen; cbn [length]; lia|]. cbv zeta. unfold zlen. cbn [length].
  pose proof (to_be_zlen 8 n) as Hl. unfold zlen in Hl. unfold be_trim. case_match; [rewrite length_drop|cbn [length]]; lia.
Qed.
Lemma receipt_key_decode k : is_array 32 k.1 ∧ is_uint 64 k.2 →
  decode (pair_decode H256_decode u64_decode) (pair_encode H256_encode u64_encode k) = Ok k.
Proof.
  intros Hk. apply (codec_decode _ _ _ (Hc := pair_codec H256_encode H256_decode u64_encode u64_decode (is_array 32) (is_uint 64) _ _)); [done|].
  destruct Hk as [Hh Hi]. unfold pair_encode. cbv zeta. rewrite !zlen_app.
  destruct (H256_bytes _ Hh) as [_ ->]. destruct (u64_bytes _ Hi) as [_ Hl].
  pose proof (encode_length_size (33 + zlen (u64_encode k.2))). unfold isize_max. lia.
Qed.
Lemma location_decode_encode l : wf_location l → decode LibmdbxStore.location_decode (LibmdbxStore.location_encode l) = Ok l.
Proof.
  intros Hl. assert (Codec LibmdbxStore.location_encode LibmdbxStore.location_decode wf_location) as Hc.
  { apply (@triple_laws _ _ _ _ (mkRlp u64_encode u64_decode) (mkRlp H256_encode H256_decode)
      (mkRlp u64_encode u64_decode) (is_uint 64) (is_array 32) (is_uint 64)); [exact u64_codec|exact H256_codec|exact u64_codec]. }
  apply (codec_decode _ _ wf_location); [done|].
  destruct l as [[n h] i], Hl as (Hn & Hh & Hi). cbn in *. unfold LibmdbxStore.location_encode, triple_encode. cbv zeta. rewrite !zlen_app.
  destruct (H256_bytes _ Hh) as [_ ->]. destruct (u64_bytes _ Hn) as [_ Hl1], (u64_bytes _ Hi) as [_ Hl2].
  pose proof (encode_length_size (zlen (u64_encode n) + 33 + zlen (u64_encode i))). unfold isize_max. lia.
Qed.
Lemma decode_inj {A} (enc : A → list Z) dec (wf : A → Prop) :
  (∀ x, wf x → decode dec (enc x) = Ok x) → ∀ x y, wf x → wf y → enc x = enc y → x = y.
Proof. intros Hd x y Hx Hy He. apply Hd in Hx, Hy. rewrite He in Hx. rewrite Hx in Hy. by simplify_eq. Qed.
Lemma encode_u64_inj n n' : is_uint 64 n → is_uint 64 n' → encode_u64 n = encode_u64 n' → n = n'.
Proof. intros Hn Hn' He. apply u64_law in Hn, Hn'. rewrite He in Hn. by simplify_eq. Qed.
Lemma index_inj i j : ChainDataIndex.encode i = ChainDataIndex.encode j → i = j.
Proof. intros He. apply u32_law in He; [by destruct i, j|by destruct i|by destruct j]. Qed.

(** *** Reading and writing *)
Lemma read_run d t k : LibmdbxStore.read t k d = (d, Ok (head (entries d t k))).
Proof. unfold LibmdbxStore.read. destruct (read_law d) as (txn & -> & Hr). cbn. by rewrite (proj1 (Hr t k)). Qed.
Lemma write_run d t k v : zlen k <= 64 → zlen v <= max_value t →
  ∃ d', LibmdbxStore.write t k v d = (d', Ok tt) ∧ stored (entries d) (entries d') t k v.
Proof.
  intros Hk Hv. unfold LibmdbxStore.write. destruct (write_law d t k v Hk Hv) as (txn & txn' & d' & -> & Hu & Hc & Hs).
  cbn. rewrite Hu. cbn. rewrite Hc. by exists d'.
Qed.
Lemma write_refused d t k v : max_value t < zlen v → LibmdbxStore.write t k v d = (d, Err Store.LibmdbxError).
Proof.
  intros Hv. unfold LibmdbxStore.write. destruct (limit_law d t k v Hv) as (txn & e & -> & Hu). cbn. by rewrite Hu.
Qed.

(** The sizes of keys and of short values. *)
Lemma hash_size h : is_array 32 h → zlen (H256_encode h) <= 64.
Proof. intros Hh. destruct (H256_bytes h Hh) as [_ ->]. lia. Qed.
Lemma u64_short n : is_uint 64 n → zlen (u64_encode n) <= 9.
Proof.
  intros Hn. destruct (uint_encode_bytes 8 n) as (t & Ht & _ & Hz); [done|by unfold is_uint in Hn|].
  unfold u64_encode. rewrite Ht. unfold bytes_encode. cbv zeta.
  rewrite (proj2 (Z.ltb_lt (zlen t) 56)) by lia. case_match; zlen_simpl; lia.
Qed.
Lemma receipt_key_size h i : is_array 32 h → is_uint 64 i → zlen (LibmdbxStore.receipt_key h i) <= 64.
Proof.
  intros Hh Hi. unfold LibmdbxStore.receipt_key, pair_encode. cbn. rewrite !zlen_app.
  destruct (H256_bytes _ Hh) as [_ ->]. pose proof (u64_short _ Hi).
  pose proof (encode_length_size (33 + zlen (u64_encode i))). lia.
Qed.
Lemma index_size i : zlen (ChainDataIndex.encode i) <= 64.
Proof. apply u32_size. by destruct i. Qed.
Lemma short_fits t (v : list Z) : zlen v <= 64 → zlen v <= max_value t.
Proof. pose proof (max_value_ge t). lia. Qed.
Lemma u64_value_size n : is_uint 64 n → zlen (u64_encode n) <= 64.
Proof. intros Hn. pose proof (u64_short n Hn). lia. Qed.
Lemma U256_value_size n : is_uint 256 n → zlen (U256_encode n) <= 64.
Proof. intros Hn. destruct (U256_bytes n Hn) as [_ ?]. lia. Qed.
Lemma location_size l : wf_location l → zlen (LibmdbxStore.location_encode l) <= 64.
Proof.
  destruct l as [[n h] i]. intros (Hn & Hh & Hi). cbn in *. unfold LibmdbxStore.location_encode, triple_encode. cbv zeta. rewrite !zlen_app.
  destruct (H256_bytes _ Hh) as [_ ->]. pose proof (u64_short _ Hn). pose proof (u64_short _ Hi).
  pose proof (encode_length_size (zlen (u64_encode n) + 33 + zlen (u64_encode i))). lia.
Qed.
Lemma read_rlp_run {K V} d t ek (ev : V → list Z) dec (wk : K → Prop) wv m k :
  holds (entries d) t ek ev wk wv m → (∀ v, wv v → decode dec (ev v) = Ok v) → wk k →
  LibmdbxStore.read_rlp t dec (ek k) d = (d, Ok (m k)).
Proof.
  intros Hh Hd Hk. unfold LibmdbxStore.read_rlp, mbind, stm_mbind. rewrite read_run. specialize (Hh k Hk).
  destruct (m k) as [v|]; [destruct Hh as [Hv ->]|by rewrite Hh]. cbn. unfold lift, Rlp_to. by rewrite Hd.
Qed.

Lemma stored_other e e' t k v t' : stored e e' t k v → t' ≠ t → ∀ k', e' t' k' = e t' k'.
Proof. intros [Hs _] Hne k'. apply Hs. congruence. Qed.
Lemma holds_frame {K V} e e' t ek (ev : V → list Z) (wk : K → Prop) wv m :
  (∀ k', e' t k' = e t k') → holds e t ek ev wk wv m → holds e' t ek ev wk wv m.
Proof. intros He Hh k Hk. specialize (Hh k Hk). by rewrite He. Qed.
Lemma holds_write {K V} `{EqDecision K} e e' t ek (ev : V → list Z) (wk : K → Prop) wv m m' k v :
  (∀ x y, wk x → wk y → ek x = ek y → x = y) → stored e e' t (ek k) (ev v) → dupsort t = false ∨ m k = None ∨ m k = Some v →
  wk k → wv v → (∀ k', m' k' = if decide (k' = k) then Some v else m k') →
  holds e t ek ev wk wv m → holds e' t ek ev wk wv m'.
Proof.
  intros Hinj [Ho Hs] Hdup Hk Hv Hm Hh k' Hk'. rewrite Hm. destruct (decide (k' = k)) as [->|Hne].
  - split; [done|]. destruct (dupsort t) eqn:Ht; [|done]. destruct Hs as [Hs1 Hs2]. pose proof (Hh k Hk) as Hold.
    destruct Hdup as [[=]|[Hn|Hn]]; rewrite Hn in Hold.
    + rewrite Hold in Hs2. apply Permutation_singleton_r. apply Hs2. by apply not_elem_of_nil.
    + destruct Hold as [_ Hold]. rewrite Hold in Hs1. apply Hs1. by apply list_elem_of_singleton.
  - rewrite Ho by (intros [= He]; by apply Hne, Hinj). by apply Hh.
Qed.

Lemma insert_cases {K V} `{Countable K} (m : gmap K V) k v k' : <[k := v]> m !! k' = if decide (k' = k) then Some v else m !! k'.
Proof. destruct (decide (k' = k)) as [->|Hne]; [apply lookup_insert_eq|by apply lookup_insert_ne]. Qed.
Lemma receipt_cases c h i x k : receipt_of (InMemory.add_receipt h i x c).1 k.1 k.2 =
  if decide (k = (h, i)) then Some x else receipt_of c k.1 k.2.
Proof.
  destruct k as [h' i']. unfold receipt_of. cbn. rewrite insert_cases. destruct (decide (h' = h)) as [->|Hh].
  - cbn. rewrite insert_cases. repeat case_decide; simplify_eq; [done..|]. by destruct (InMemory.receipts c !! h).
  - rewrite decide_False by congruence. done.
Qed.

(** A write to one table leaves the others as they are. *)
Ltac frame Hs := first
  [ eapply holds_frame; [intros ?; eapply stored_other; [exact Hs|done]|eassumption]
  | eassumption
  | let t := fresh in let Ht := fresh in intros t Ht;
    rewrite (stored_other _ _ _ _ _ TransactionLocations Hs) by done;
    match goal with Hl : ∀ t, is_array 32 t → Forall wf_location _ ∧ _ |- _ => exact (Hl t Ht) end ].
Ltac framed Hs Hrep := destruct Hrep; constructor; try (by frame Hs).

Definition kept (t : Table) (key value : list Z) (f : InMemory.StoreInner → InMemory.StoreInner) (c : InMemory.StoreInner) : Prop :=
  ∀ e e', stored e e' t key value → represents e c → represents e' (f c).
Lemma write_kept t key value f c d : kept t key value f c → represents (entries d) c →
  zlen key <= 64 → zlen value <= max_value t →
  ∃ d', LibmdbxStore.write t key value d = (d', Ok tt) ∧ represents (entries d') (f c).
Proof. intros Hk Hr Hks Hvs. destruct (write_run d t key value Hks Hvs) as (d' & Hw & Hs). exists d'. split; [done|by eapply Hk]. Qed.

Ltac keep_map inj :=
  intros; intros e e' Hs Hr; framed Hs Hr;
  eapply holds_write; [|exact Hs|by left|done|done|apply insert_cases|eassumption]; exact inj.
Lemma hash_inj x y : is_array 32 x → is_array 32 y → H256_encode x = H256_encode y → x = y.
Proof. exact (decode_inj _ _ _ H256_decode_encode x y). Qed.
Lemma kept_header h x c : is_array 32 h → storable BlockHeader.encode (λ x, wf_header x ∧ fork_ordered x) x →
  kept Headers (H256_encode h) (BlockHeader.encode x) (λ c, (InMemory.add_block_header h x c).1) c.
Proof. keep_map hash_inj. Qed.
Lemma kept_body h x c : is_array 32 h → storable BlockBody.encode wf_body x →
  kept Bodies (H256_encode h) (BlockBody.encode x) (λ c, (InMemory.add_block_body h x c).1) c.
Proof. keep_map hash_inj. Qed.
Lemma kept_number h n c : is_array 32 h → is_uint 64 n →
  kept BlockNumbers (H256_encode h) (encode_u64 n) (λ c, (InMemory.add_block_number h n c).1) c.
Proof. keep_map hash_inj. Qed.
Lemma kept_difficulty h x c : is_array 32 h → is_uint 256 x →
  kept BlockTotalDifficulties (H256_encode h) (U256_encode x) (λ c, (InMemory.add_block_total_difficulty h x c).1) c.
Proof. keep_map hash_inj. Qed.
Lemma kept_code h x c : is_array 32 h → storable Bytes_encode (Forall is_byte) x →
  kept AccountCodes (H256_encode h) (Bytes_encode x) (λ c, (InMemory.add_account_code h x c).1) c.
Proof. keep_map hash_inj. Qed.
Lemma kept_pool h x c : is_array 32 h → storable Transaction.encode (λ x, wf_transaction x ∧ recognised x) x →
  kept TransactionPool (H256_encode h) (Transaction.encode x) (λ c, (InMemory.add_transaction_to_pool h x c).1) c.
Proof. keep_map hash_inj. Qed.
Lemma kept_canonical n h c : is_uint 64 n → is_array 32 h →
  kept CanonicalBlockHashes (encode_u64 n) (H256_encode h) (λ c, (InMemory.set_canonical_block n h c).1) c.
Proof. keep_map encode_u64_inj. Qed.
Lemma kept_payload n x c : is_uint 64 n →
  storable Block.encode (λ b, (wf_header (Block.header b) ∧ fork_ordered (Block.header b)) ∧ wf_body (Block.body b)) x →
  kept Payloads (encode_u64 n) (Block.encode x) (λ c, (InMemory.add_payload n x c).1) c.
Proof. keep_map encode_u64_inj. Qed.
Lemma kept_receipt h i x c : is_array 32 h → is_uint 64 i → storable Receipt.encode wf_receipt x → no_other_receipt h i x c →
  kept Receipts (LibmdbxStore.receipt_key h i) (Receipt.encode x) (λ c, (InMemory.add_receipt h i x c).1) c.
Proof.
  intros Hh Hi Hx Hno e e' Hs Hr. framed Hs Hr.
  eapply (holds_write _ _ _ _ _ _ _ (λ k, receipt_of c k.1 k.2) _ (h, i)); [|exact Hs|right; exact Hno|done|done|apply receipt_cases|eassumption].
  exact (decode_inj _ _ _ receipt_key_decode).
Qed.
Lemma kept_location t n h i c : is_array 32 t → wf_location (n, h, i) →
  kept TransactionLocations (H256_encode t) (LibmdbxStore.location_encode (n, h, i)) (λ c, (InMemory.add_transaction_location t n h i c).1) c.
Proof.
  intros Ht Hl e e' Hs Hr. framed Hs Hr. intros t' Ht'.
  assert (locations t' (InMemory.add_transaction_location t n h i c).1 =
    if decide (t' = t) then locations t c ++ [(n, h, i)] else locations t' c) as ->.
  { unfold locations. cbn. rewrite insert_cases. by case_decide. }
  destruct (rep_locations0 t' Ht') as [Hw Hin]. destruct Hs as [Ho [Hs1 Hs2]]. case_decide as Heq.
  - subst t'. split; [by apply Forall_app; split; [|constructor]|]. intros x.
    destruct (decide (LibmdbxStore.location_encode (n, h, i) ∈ e TransactionLocations (H256_encode t))) as [Hold|Hnew].
    + rewrite Hs1, Hin by done. apply Hin in Hold as (l & Hl' & He). setoid_rewrite elem_of_app. setoid_rewrite list_elem_of_singleton. naive_solver.
    + rewrite (Hs2 Hnew), elem_of_cons, Hin. setoid_rewrite elem_of_app. setoid_rewrite list_elem_of_singleton. naive_solver.
  - rewrite Ho by (intros [= He]; apply Heq; by apply hash_inj). done.
Qed.

(** The chain data. *)
Lemma kept_chain_data (f : InMemory.ChainData → InMemory.ChainData) i v c :
  (∀ j, chain_field (f (InMemory.chain_data c)) j = if decide (j = i) then Some v else chain_field (InMemory.chain_data c) j) →
  (wf_chain_data (InMemory.chain_data c) → wf_chain_data (f (InMemory.chain_data c))) →
  kept ChainData (ChainDataIndex.encode i) v (λ c, (InMemory.write_chain_data f c).1) c.
Proof.
  intros Hf Hw e e' Hs Hr. framed Hs Hr; [|by apply Hw].
  eapply holds_write; [|exact Hs|by left|done|done|exact Hf|eassumption]. intros x y _ _. apply index_inj.
Qed.

(** *** Every call *)
Lemma get_chain_data_run d c i dec enc w (o : option Z) :
  represents (entries d) c → chain_field (InMemory.chain_data c) i = enc <$> o → from_option (is_uint w) True o →
  (∀ n, is_uint w n → decode dec (enc n) = Ok n) → LibmdbxStore.get_chain_data i dec d = (d, Ok o).
Proof.
  intros Hr Hf Ho Hd. unfold LibmdbxStore.get_chain_data, mbind, stm_mbind. rewrite read_run.
  pose proof (rep_chain_data _ _ Hr i I) as Hi. rewrite Hf in Hi. destruct o as [n|]; cbn in Hi.
  - destruct Hi as [_ ->]. cbn. unfold lift. by rewrite Hd.
  - by rewrite Hi.
Qed.
Lemma by_number_run {V} d c t (dec : list Z → dres (V * list Z)) enc wv n (m : gmap (list Z) V) :
  represents (entries d) c → is_uint 64 n → holds (entries d) t H256_encode enc (is_array 32) wv (λ h, m !! h) →
  (∀ v, wv v → decode dec (enc v) = Ok v) →
  (hash ← LibmdbxStore.get_block_hash_by_block_number n;
   match hash with Some hash => LibmdbxStore.read_rlp t dec (H256_encode hash) | None => mret None end) d =
  (d, Ok (InMemory.by_number c m n)).
Proof.
  intros Hr Hn Hh Hd. unfold InMemory.by_number, LibmdbxStore.get_block_hash_by_block_number.
  rewrite (stm_bind_Ok _ _ _ d (InMemory.canonical_hashes c !! n))
    by exact (read_rlp_run _ _ _ _ _ _ _ _ _ (rep_canonical _ _ Hr) H256_decode_encode Hn).
  pose proof (rep_canonical _ _ Hr n Hn) as Hc. cbn in Hc. destruct (InMemory.canonical_hashes c !! n) as [h|]; [|done].
  apply (read_rlp_run _ _ _ _ _ _ _ _ _ Hh Hd). apply Hc.
Qed.

(** The canonical location is found, in whatever order the values come. *)
Lemma find_location_run d c ls :
  represents (entries d) c → Forall wf_location ls →
  (∀ l l', l ∈ ls → l' ∈ ls → canonical c l → canonical c l' → l = l') →
  ∃ o, LibmdbxStore.find_location (map (Ok ∘ LibmdbxStore.location_encode) ls) d = (d, Ok o) ∧
    ∀ l, o = Some l ↔ l ∈ ls ∧ canonical c l.
Proof.
  intros Hr. induction ls as [|[[n h] i] ls IH]; intros Hw Hone.
  { exists None. split; [done|]. intros l. split; [done|]. by intros [?%not_elem_of_nil _]. }
  inversion_clear Hw as [|?? Hl Hw']. cbn [map LibmdbxStore.find_location compose].
  unfold mbind, stm_mbind, lift, Rlp_to. rewrite location_decode_encode by done. cbn beta iota.
  unfold LibmdbxStore.get_block_hash_by_block_number.
  rewrite (read_rlp_run _ _ _ _ _ _ _ _ _ (rep_canonical _ _ Hr) H256_decode_encode (proj1 Hl : is_uint 64 n)). cbn beta iota.
  case_bool_decide as Hcan.
  - exists (Some (n, h, i)). split; [done|]. intros l. split.
    + intros [= <-]. split; [by left|done].
    + intros [Hin Hc]. f_equal. apply Hone; [by left|done|done|done].
  - destruct IH as (o & Ho & Hspec); [done|intros; apply Hone; by try right|].
    exists o. split; [done|]. intros l. rewrite Hspec, elem_of_cons. split; [by intros []; auto|].
    intros [[->|Hin] Hc]; [done|by split].
Qed.

Lemma get_location_run d c t :
  represents (entries d) c → is_array 32 t → one_location t c →
  LibmdbxStore.get_transaction_location t d = (d, (InMemory.get_transaction_location t c).2).
Proof.
  intros Hr Ht Hone. destruct (rep_locations _ _ Hr t Ht) as [Hw Hin].
  assert (∃ ls, entries d TransactionLocations (H256_encode t) = map LibmdbxStore.location_encode ls ∧ ∀ l, l ∈ ls ↔ l ∈ locations t c)
    as (ls & Hls & Heq).
  { assert (Forall (λ x, ∃ l, l ∈ locations t c ∧ x = LibmdbxStore.location_encode l) (entries d TransactionLocations (H256_encode t))) as Hf
      by (apply Forall_forall; intros x; apply Hin).
    assert (∃ ls, entries d TransactionLocations (H256_encode t) = map LibmdbxStore.location_encode ls ∧ Forall (.∈ locations t c) ls)
      as (ls & He & Hall).
    { clear Hin. induction Hf as [|x xs (l & Hl & ->) _ (ls & -> & Hall)]; [by exists []|]. exists (l :: ls). by split; [|constructor]. }
    exists ls. split; [done|]. intros l. rewrite Forall_forall in Hall. split; [apply Hall|]. intros Hl.
    assert (LibmdbxStore.location_encode l ∈ entries d TransactionLocations (H256_encode t)) as Hx by (apply Hin; eauto).
    rewrite He, list_elem_of_fmap in Hx. destruct Hx as (l' & Hl' & Hm). rewrite Forall_forall in Hw.
    by rewrite (decode_inj _ _ _ location_decode_encode l l') by auto. }
  destruct (find_location_run d c ls) as (o & Ho & Hspec); [done| |intros l l'; rewrite !Heq; apply Hone|].
  { apply Forall_forall. intros l Hl. rewrite Forall_forall in Hw. by apply Hw, Heq. }
  unfold LibmdbxStore.get_transaction_location. destruct (read_law d) as (txn & -> & Htx). cbn.
  rewrite (proj2 (Htx _ _)). cbn. rewrite Hls, map_map. etrans; [exact Ho|]. f_equal. f_equal.
  setoid_rewrite Heq in Hspec. unfold locations in Hspec. destruct (InMemory.transaction_locations c !! t) as [v|]; cbn in *.
  2:{ destruct o as [l|]; [|done]. destruct (proj1 (Hspec l) eq_refl) as [?%not_elem_of_nil _]. done. }
  destruct (list_find _ v) as [[j l]|] eqn:Hf; cbn.
  - apply list_find_Some in Hf as (Hj & Hp & _). apply Hspec. split; [by apply list_elem_of_lookup_2 in Hj|by destruct l as [[??]?]].
  - apply list_find_None in Hf. rewrite Forall_forall in Hf. destruct o as [l|]; [|done].
    destruct (proj1 (Hspec l) eq_refl) as [Hl Hc]. by destruct (Hf l Hl); destruct l as [[??]?].
Qed.

(** Each call on both engines. *)
Ltac sizes :=
  first [ assumption | by apply hash_size | by apply receipt_key_size | by apply u64_size | by apply index_size
        | apply short_fits; first [ by apply hash_size | by apply u64_size | by apply u64_value_size
                                  | by apply U256_value_size | by apply location_size ] ].
Ltac mirror_write K Hr := refine (write_kept _ _ _ _ _ _ K Hr _ _); sizes.
Ltac mirror_read R := eexists; split; [exact R|done].
Ltac mirror_chain f Hr :=
  refine (write_kept _ _ _ _ _ _ (kept_chain_data f _ _ _ _ _) Hr _ _);
    [by intros []|unfold wf_chain_data; cbn; tauto|sizes|sizes].
Ltac mirror_field Hr w laws :=
  eexists; split; [refine (get_chain_data_run _ _ _ _ _ w _ Hr _ _ laws); [reflexivity|apply (rep_ranges _ _ Hr)]|exact Hr].
Abbreviation read_map Hm law Hk := (read_rlp_run _ _ _ _ _ _ _ _ _ Hm law Hk).

Lemma get_number_run d c h : represents (entries d) c → is_array 32 h →
  LibmdbxStore.get_block_number h d = (d, Ok (InMemory.block_numbers c !! h)).
Proof.
  intros Hr Hh. unfold LibmdbxStore.get_block_number, mbind, stm_mbind. rewrite read_run. pose proof (rep_numbers _ _ Hr h Hh) as Hn. cbn in Hn.
  destruct (InMemory.block_numbers c !! h) as [n|]; [destruct Hn as [Hn ->]|by rewrite Hn]. cbn. unfold lift. by rewrite u64_law.
Qed.
Lemma get_receipt_run d c n i : represents (entries d) c → is_uint 64 n → is_uint 64 i →
  LibmdbxStore.get_receipt n i d = (d, (InMemory.get_receipt n i c).2).
Proof.
  intros Hr Hn Hi. unfold LibmdbxStore.get_receipt, LibmdbxStore.get_block_hash_by_block_number.
  rewrite (stm_bind_Ok _ _ _ d (InMemory.canonical_hashes c !! n)) by exact (read_map (rep_canonical _ _ Hr) H256_decode_encode Hn).
  pose proof (rep_canonical _ _ Hr n Hn) as Hc. cbn in *. unfold InMemory.by_number.
  destruct (InMemory.canonical_hashes c !! n) as [h|]; [|done].
  apply (read_map (rep_receipts _ _ Hr) (storable_decode _ _ _) (conj (proj1 Hc) Hi : is_array 32 (h, i).1 ∧ is_uint 64 (h, i).2)).
Qed.
Lemma get_config_run d c config : represents (entries d) c → InMemory.chain_config (InMemory.chain_data c) = Some config →
  LibmdbxStore.get_chain_config d = (d, Ok config).
Proof.
  intros Hr Hc. unfold LibmdbxStore.get_chain_config, mbind, stm_mbind. rewrite read_run.
  pose proof (rep_chain_data _ _ Hr ChainDataIndex.ChainConfig I) as Hi. cbn in Hi. rewrite Hc in Hi.
  destruct (json_law config) as (json & Hj & Hu & Hf). cbn in Hi. rewrite Hj in Hi. destruct Hi as [_ ->]. cbn. by rewrite Hu, Hf.
Qed.
Lemma set_config_run d c config : represents (entries d) c → fits (SetChainConfig config) = true →
  ∃ d', LibmdbxStore.set_chain_config config d = (d', Ok tt) ∧ represents (entries d') (InMemory.set_chain_config config c).1.
Proof.
  intros Hr Hfit. unfold LibmdbxStore.set_chain_config. destruct (json_law config) as (json & Hj & _). rewrite Hj.
  unfold fits in Hfit. cbn in Hfit. rewrite Hj in Hfit. cbn in Hfit. apply Z.leb_le in Hfit.
  refine (write_kept _ _ _ _ _ _ (kept_chain_data (InMemory.put_chain_config (Some config)) _ _ _ _ _) Hr _ _); [..|sizes|sizes].
  - by intros []; cbn; rewrite ?Hj.
  - unfold wf_chain_data. cbn. tauto.
Qed.

Lemma call_mirrored {A} (k : call A) c d : fits k = true → admissible k c → represents (entries d) c →
  ∃ d', run k d = (d', (run k c).2) ∧ represents (entries d') (run k c).1.
Proof.
  intros Hfit Ha Hr. destruct k; cbn [admissible run] in *;
    try (unfold fits in Hfit; cbn [written] in Hfit; apply Z.leb_le in Hfit).
  - destruct Ha as [Hh Hx]. mirror_write (kept_header h x c Hh Hx) Hr.
  - mirror_read (by_number_run _ _ _ _ _ _ _ _ Hr Ha (rep_headers _ _ Hr) (storable_decode _ _ _)).
  - destruct Ha as [Hh Hx]. mirror_write (kept_body h x c Hh Hx) Hr.
  - mirror_read (by_number_run _ _ _ _ _ _ _ _ Hr Ha (rep_bodies _ _ Hr) (storable_decode _ _ _)).
  - mirror_read (read_map (rep_bodies _ _ Hr) (storable_decode _ _ _) Ha).
  - mirror_read (read_map (rep_headers _ _ Hr) (storable_decode _ _ _) Ha).
  - destruct Ha as [Hh Hn]. mirror_write (kept_number h n c Hh Hn) Hr.
  - mirror_read (get_number_run d c h Hr Ha).
  - destruct Ha as [Hh Hx]. mirror_write (kept_difficulty h x c Hh Hx) Hr.
  - mirror_read (read_map (rep_difficulties _ _ Hr) U256_decode_encode Ha).
  - destruct Ha as [Ht Hl]. mirror_write (kept_location t n h i c Ht Hl) Hr.
  - destruct Ha as [Ht Hone]. mirror_read (get_location_run d c t Hr Ht Hone).
  - destruct Ha as [Hh Hx]. mirror_write (kept_pool h x c Hh Hx) Hr.
  - mirror_read (read_map (rep_pool _ _ Hr) (storable_decode _ _ _) Ha).
  - destruct Ha as (Hh & Hi & Hx & Hno). mirror_write (kept_receipt h i x c Hh Hi Hx Hno) Hr.
  - destruct Ha as [Hn Hi]. mirror_read (get_receipt_run d c n i Hr Hn Hi).
  - destruct Ha as [Hh Hx]. mirror_write (kept_code h x c Hh Hx) Hr.
  - mirror_read (read_map (rep_codes _ _ Hr) (storable_decode _ _ _) Ha).
  - mirror_read (read_map (rep_canonical _ _ Hr) H256_decode_encode Ha).
  - exact (set_config_run d c x Hr Hfit).
  - destruct Ha as [config Hc]. exists d. split; [|done]. etrans; [exact (get_config_run d c config Hr Hc)|]. cbn. by rewrite Hc.
  - mirror_chain (InMemory.put_earliest_block_number (Some n)) Hr.
  - mirror_field Hr 64 u64_decode_encode.
  - mirror_chain (InMemory.put_finalized_block_number (Some n)) Hr.
  - mirror_field Hr 64 u64_decode_encode.
  - mirror_chain (InMemory.put_safe_block_number (Some n)) Hr.
  - mirror_field Hr 64 u64_decode_encode.
  - mirror_chain (InMemory.put_latest_block_number (Some n)) Hr.
  - mirror_field Hr 64 u64_decode_encode.
  - mirror_chain (InMemory.put_latest_total_difficulty (Some n)) Hr.
  - mirror_field Hr 256 U256_decode_encode.
  - mirror_chain (InMemory.put_pending_block_number (Some n)) Hr.
  - mirror_field Hr 64 u64_decode_encode.
  - destruct Ha as [Hn Hh]. mirror_write (kept_canonical n h c Hn Hh) Hr.
  - destruct Ha as [Hn Hx]. mirror_write (kept_payload n x c Hn Hx) Hr.
  - mirror_read (read_map (rep_payloads _ _ Hr) (storable_decode _ _ _) Ha).
Qed.
Lemma oversized_refused {A} (k : call A) (d : D) : fits k = false → run k d = (d, Err Store.LibmdbxError).
Proof.
  unfold fits. destruct k; cbn [written]; try done;
    try (intros Hf; apply Z.leb_gt in Hf; exact (write_refused _ _ _ _ Hf)).
  cbn. unfold LibmdbxStore.set_chain_config. destruct (config_to_string x) as [json|]; cbn; [|done].
  intros Hf. apply Z.leb_gt in Hf. exact (write_refused _ _ _ _ Hf).
Qed.
End Represents.

Section Agreement.
Context `{Profile} {D : Type} `{LawfulMdbx D} `{LawfulJson}.
Lemma represents_empty e : (∀ t k, e t k = []) → represents e InMemory.new.
Proof.
  intros He. constructor.
  all: try (intros [] _; cbn; exact (He _ _)).
  all: try (intros k _; cbn; exact (He _ _)).
  - done.
  - intros t _. split; [constructor|]. intros x. rewrite He. unfold locations. cbn. split; [by intros ?%not_elem_of_nil|].
    by intros (l & ?%not_elem_of_nil & _).
Qed.
Lemma represents_agree calls : ∀ d c, represents (entries d) c → agree calls d c.
Proof.
  induction calls as [|[A k] calls IH]; intros d c Hr; [done|]. cbn [agree].
  destruct (fits k) eqn:Hfit; [|split; [by apply oversized_refused|by apply IH]]. intros Ha.
  destruct (call_mirrored k c d Hfit Ha Hr) as (d' & Hk & Hr'). rewrite Hk. split; [done|]. by apply IH.
Qed.
End Agreement.

(** C18: the engine on libmdbx and the in-memory engine cannot be told apart by values that
    fit: from a new database on, for every sequence of calls of the engine trait, both give
    the same answer to every call, as long as the arguments are well-formed, no receipt is
    replaced by a different one, no transaction has two canonical locations when its location
    is asked for, and the chain configuration is set when it is read.  A call with a value
    above the size limit of its table, which the in-memory engine accepts, fails on libmdbx
    and leaves the database as it was.  Assumed of the database: what is written under a key
    is read under it, other keys keep their values, values above the limit are refused, and
    nothing else fails (the file is not full); of serde: a configuration survives the way to
    JSON and back. *)
Theorem engines_agree (P : Profile) {D : Type} `{LawfulMdbx D} `{LawfulJson} (calls : list {A & call A}) :
  ∃ d, LibmdbxStore.init_db = Ok d ∧ agree calls d InMemory.new.
Proof.
  destruct create_law as (d & Hd & He). exists d. unfold LibmdbxStore.init_db. rewrite Hd. split; [done|].
  apply represents_agree, represents_empty, He.
Qed.

(** ** Witness: a database as a map *)
Abbreviation MapDb := (gmap (Z * list Z) (list (list Z))).
Definition table_number (t : Table) : Z :=
  match t with
  | CanonicalBlockHashes => 0 | BlockNumbers => 1 | BlockTotalDifficulties => 2 | Headers => 3 | Bodies => 4 | AccountCodes => 5
  | Receipts => 6 | StorageTriesNodes => 7 | TransactionLocations => 8 | TransactionPool => 9 | ChainData => 10
  | StateTrieNodes => 11 | Payloads => 12
  end.
Definition map_values (d : MapDb) (t : Table) (k : list Z) : list (list Z) := default [] (d !! (table_number t, k)).
Definition map_upsert (t : Table) (k v : list Z) (d : MapDb) : MapDb :=
  <[(table_number t, k) := if dupsort t then if decide (v ∈ map_values d t k) then map_values d t k else v :: map_values d t k
                           else [v]]> d.
Definition map_limit (t : Table) : Z := if dupsort t then 1980 else 2 ^ 31.
#[export] Instance map_mdbx : Mdbx MapDb := {|
  Txn := MapDb;
  db_create _ := Ok ∅;
  begin_read d := Ok d;
  begin_readwrite d := Ok d;
  txn_upsert t k v d := if zlen v <=? map_limit t then Ok (map_upsert t k v d) else Err tt;
  txn_commit d _ := (d, Ok tt);
  txn_get t k d := Ok (head (map_values d t k));
  cursor_walk_key t k d := Ok (map Ok (map_values d t k));
  encode_u64 := to_be 8;
  decode_u64 b := if zlen b =? 8 then Some (of_be b) else None;
  encode_u32 := to_be 4
|}.
Lemma table_number_inj t t' : table_number t = table_number t' → t = t'.
Proof. by destruct t, t'. Qed.
#[export] Instance map_mdbx_lawful : LawfulMdbx MapDb.
Proof.
  refine {| entries := map_values; max_value := map_limit |}.
  - by exists (∅ : MapDb).
  - intros d. by exists d.
  - by intros [].
  - intros d t k v _ Hv. exists d, (map_upsert t k v d), (map_upsert t k v d). split_and!; [done| |done|].
    { cbn. by rewrite (proj2 (Z.leb_le _ _) Hv). }
    split.
    + intros t' k' Hne. unfold map_values, map_upsert. rewrite lookup_insert_ne; [done|].
      intros [= Ht%table_number_inj Hk]. congruence.
    + assert (∀ l, map_values (<[(table_number t, k) := l]> d) t k = l) as Hl by (intros l; unfold map_values; by rewrite lookup_insert_eq).
      unfold map_upsert. rewrite Hl. destruct (dupsort t); [|done]. split; intros Hin; by case_decide.
  - intros d t k v Hv. exists d, tt. split; [done|]. cbn. by rewrite (proj2 (Z.leb_gt _ _) Hv).
  - intros n _. change (zlen (to_be 8 n) <= 64). by rewrite to_be_zlen.
  - intros n _. change (zlen (to_be 4 n) <= 64). by rewrite to_be_zlen.
  - intros n Hn. change ((if zlen (to_be 8 n) =? 8 then Some (of_be (to_be 8 n)) else None) = Some n).
    rewrite to_be_zlen. cbn [Z.eqb Pos.eqb Z.of_nat Pos.of_succ_nat Pos.succ]. f_equal. apply of_be_to_be_small. unfold is_uint in Hn. lia.
  - intros i j Hi Hj He. unfold is_uint in *. rewrite <-(of_be_to_be_small 4 i), <-(of_be_to_be_small 4 j) by lia. exact (f_equal of_be He).
Defined.

(** A text for configurations: the binary digits of a number. *)
Fixpoint digits (p : positive) : list Z :=
  match p with xH => [] | xO p => 48 :: digits p | xI p => 49 :: digits p end.
Fixpoint of_digits (l : list Z) : positive :=
  match l with [] => xH | b :: l => if b =? 48 then xO (of_digits l) else xI (of_digits l) end.
Lemma of_digits_digits p : of_digits (digits p) = p.
Proof. induction p as [p IH|p IH|]; cbn; by rewrite ?IH. Qed.
Lemma digits_utf8 p : utf8_valid (digits p) = true.
Proof. by induction p. Qed.
Definition config_fields (c : ChainConfig.t) : list (option Z) :=
  let '(ChainConfig.mk a1 a2 a3 a4 a5 a6 a7 a8 a9 a10 a11 a12 a13 a14 a15 a16 a17 a18 a19 a20 a21 a22 a23) := c in
  [Some a1; a2; a3; Some (Z.b2z a4); a5; a6; a7; a8; a9; a10; a11; a12; a13; a14; a15; a16; a17; a18; a19; a20; a21; a22; Some (Z.b2z a23)].
Definition config_of_fields (l : list (option Z)) : option ChainConfig.t :=
  match l with
  | [Some a1; a2; a3; Some a4; a5; a6; a7; a8; a9; a10; a11; a12; a13; a14; a15; a16; a17; a18; a19; a20; a21; a22; Some a23] =>
    Some (ChainConfig.mk a1 a2 a3 (a4 =? 1) a5 a6 a7 a8 a9 a10 a11 a12 a13 a14 a15 a16 a17 a18 a19 a20 a21 a22 (a23 =? 1))
  | _ => None
  end.
#[export] Instance digits_json : ConfigJson := {|
  config_to_string c := Some (digits (countable.encode (config_fields c)));
  config_from_str l := f ← countable.decode (of_digits l); config_of_fields f
|}.
#[export] Instance digits_json_lawful : LawfulJson.
Proof.
  intros c. eexists. split; [done|]. split; [apply digits_utf8|]. cbn. rewrite of_digits_digits, decode_encode. cbn.
  destruct c. cbn. by repeat match goal with b : bool |- _ => destruct b end.
Qed.
Definition some_hash : H256 := replicate 32 5.
(** A receipt whose encoding is longer than a value of a table with duplicates can be. *)
Definition large_receipt : Receipt.t :=
  Receipt.mk TxType.EIP1559 true 50000 (replicate 256 0) [Log.mk (replicate 20 1) [] (replicate 2000 7)].
Lemma large_receipt_too_long : fits (D:=MapDb) (AddReceipt some_hash 0 large_receipt) = false.
Proof. by vm_compute. Qed.

Lemma engines_agree_witness :
  ∃ d : MapDb, LibmdbxStore.init_db = Ok d ∧
    let d := (run (H:=LibmdbxStore.engine (H:=dev_profile)) (AddBlockNumber some_hash 7) d).1 in
    run (H:=LibmdbxStore.engine (H:=dev_profile)) (AddReceipt some_hash 0 large_receipt) d = (d, Err Store.LibmdbxError) ∧
    (run (H:=LibmdbxStore.engine (H:=dev_profile)) (GetBlockNumber some_hash) d).2 = Ok (Some 7).
Proof.
  destruct (engines_agree dev_profile (D:=MapDb) [existT (unit : Type) (AddBlockNumber some_hash 7);
      existT (unit : Type) (AddReceipt some_hash 0 large_receipt); existT (option Z : Type) (GetBlockNumber some_hash)])
    as (d & Hd & Ha).
  exists d. split; [exact Hd|]. destruct Ha as [_ Ha]; [split; by_decide|].
  cbn [agree] in Ha. rewrite large_receipt_too_long in Ha. destruct Ha as [Hrefused Ha].
  split; [exact Hrefused|]. destruct Ha as [Ha _]; [by_decide|]. exact Ha.
Defined.
