(* ===== verification/Rlpx.v ===== *)
(** * RLPx connections

    Model of [crates/net/rlpx]: the handshake ([handshake.rs], [utils.rs]), the encrypted
    and authenticated frames ([frame.rs]), the messages of the base protocol and the status
    message ([p2p.rs], [eth.rs], [message.rs]) and the connection ([connection.rs]).

    Keys on secp256k1, AES, SHA-256, Keccak and Snappy are code of other crates and
    arguments (class [Ciphers]); a hasher is the bytes that it absorbed.  A stream is the
    bytes that were written to it and not yet read; reading more than there is fails, as
    on a closed stream.  Random choices are arguments. *)

From S2P Require Import Prelude Rlp RlpLaws U256 Exponential Vm Codec Effects.
From S2P Require Import CoreTypes CoreLaws Consensus Genesis Store.

Class Ciphers := {
  PublicKey : Type;
  SecretKey : Type;
  public_key : SecretKey → PublicKey;
  to_encoded_point : PublicKey → list Z;
  from_sec1_bytes : list Z → option PublicKey;
  from_untagged_bytes : list Z → option PublicKey;
  diffie_hellman : SecretKey → PublicKey → list Z;
  sign_prehash_recoverable : SecretKey → list Z → option (list Z * Z);
  sha256_digest : list Z → list Z;
  hmac_sha256 : list Z → list Z → list Z;
  concat_kdf : list Z → nat → option (list Z);
  aes128_ctr : list Z → list Z → option (list Z → list Z);
  Ctr : Type;
  ctr_new : list Z → list Z → Ctr;
  apply_keystream : Ctr → list Z → Ctr * list Z;
  aes256_encrypt : list Z → list Z → list Z;
  keccak : list Z → list Z;
  max_compress_len : Z → Z;
  snappy_compress : list Z → Z → option (list Z);
  snappy_decompress : list Z → option (list Z)
}.
(** [^] of hashes. *)
Definition xor : list Z → list Z → list Z := zip_with Z.lxor.
(** [Vec::resize] with zeros. *)
Definition resize_zero (l : list Z) (n : Z) : list Z := take (Z.to_nat n) l ++ replicate (Z.to_nat n - length l) 0.
(** [Result::unwrap] on every step of a decoder. *)
Definition unwrapped {A} (r : dres A) : dres A := match r with Err _ => Panic | _ => r end.

(** ** utils.rs *)
Section Utils.
Context `{Profile} `{Ciphers}.
Definition sha256 (data : list Z) : list Z := sha256_digest data.
Definition sha256_hmac (key : list Z) (inputs : list (list Z)) (auth_data : list Z) : list Z :=
  hmac_sha256 key (concat inputs ++ auth_data).
Definition ecdh_xchng (secret_key : SecretKey) (public_key : PublicKey) : list Z :=
  take 32 (diffie_hellman secret_key public_key).
Definition kdf (secret : list Z) (output_len : nat) : pres (list Z) := unwrap (concat_kdf secret output_len).
(** [H512::from_slice] panics on another length. *)
Definition pubkey2id (pk : PublicKey) : pres (list Z) :=
  let bytes := to_encoded_point pk in
  if overflow_checks && negb (bool_decide (head bytes = Some 4)) then Panic
  else if zlen (drop 1 bytes) =? 64 then Ok (drop 1 bytes) else Panic.
Definition id2pubkey (id : list Z) : option PublicKey := from_untagged_bytes id.

End Utils.

(** ** handshake.rs *)
Module AuthMessage.
Record t := mk { signature : list Z; node_id : list Z; nonce : list Z; version : Z }.
Definition new (signature node_id nonce : list Z) : t := mk signature node_id nonce 5.
Definition encode (self : t) : list Z :=
  Encoder.new []
  |> field Signature_encode (signature self)
  |> field H512_encode (node_id self)
  |> field H256_encode (nonce self)
  |> field u8_encode (version self)
  |> Encoder.finish.
Definition decode_unfinished `{Profile} (rlp : list Z) : dres (t * list Z) := unwrapped (
  decoder ← Decoder.new rlp;
  '(signature, decoder) ← Decoder.decode_field Signature_decode "signature" decoder;
  '(node_id, decoder) ← Decoder.decode_field H512_decode "node_id" decoder;
  '(nonce, decoder) ← Decoder.decode_field H256_decode "nonce" decoder;
  '(version, decoder) ← Decoder.decode_field u8_decode "version" decoder;
  Ok (mk signature node_id nonce version, Decoder.finish_unchecked decoder)).
End AuthMessage.
Module AckMessage.
Record t := mk { ephemeral_pubkey : list Z; nonce : list Z; version : Z }.
Definition get_ephemeral_pubkey `{Ciphers} (self : t) : option PublicKey := id2pubkey (ephemeral_pubkey self).
Definition encode (self : t) : list Z :=
  Encoder.new []
  |> field H512_encode (ephemeral_pubkey self)
  |> field H256_encode (nonce self)
  |> field u8_encode (version self)
  |> Encoder.finish.
Definition decode_unfinished `{Profile} (rlp : list Z) : dres (t * list Z) := unwrapped (
  decoder ← Decoder.new rlp;
  '(ephemeral_pubkey, decoder) ← Decoder.decode_field H512_decode "ephemeral_pubkey" decoder;
  '(nonce, decoder) ← Decoder.decode_field H256_decode "nonce" decoder;
  '(version, decoder) ← Decoder.decode_field u8_decode "version" decoder;
  Ok (mk ephemeral_pubkey nonce version, Decoder.finish_unchecked decoder)).
End AckMessage.

(** ** connection.rs: the state of a connection *)
Module RLPxState.
Record t `{Ciphers} := mk {
  mac_key : list Z; ingress_mac : list Z; egress_mac : list Z; ingress_aes : Ctr; egress_aes : Ctr
}.
Definition new `{Ciphers} (aes_key mac_key local_nonce local_init_message remote_nonce remote_init_message : list Z) : t :=
  let egress_mac := xor mac_key remote_nonce ++ local_init_message in
  let ingress_mac := xor mac_key local_nonce ++ remote_init_message in
  let ingress_aes := ctr_new aes_key (replicate 16 0) in
  mk _ mac_key ingress_mac egress_mac ingress_aes ingress_aes.
End RLPxState.

Module RLPxLocalClient.
Record t `{Ciphers} := mk { nonce : list Z; ephemeral_key : SecretKey; auth_message : option (list Z) }.
Section Client.
Context `{Profile} `{Ciphers}.
Definition new (nonce : list Z) (ephemeral_key : SecretKey) : t := mk _ nonce ephemeral_key None.
Definition sign_shared_secret (self : t) (shared_secret : list Z) : pres (list Z) :=
  let signature_prehash := xor shared_secret (nonce self) in
  '(signature, rid) ← unwrap (sign_prehash_recoverable (ephemeral_key self) signature_prehash);
  if zlen signature =? 64 then Ok (signature ++ [rid]) else Panic.

(** The encryption of a handshake message for the holder of a static key (ECIES), with the
    size in front: [size || public-key || iv || ciphertext || mac]. *)
Definition seal (remote_static_pubkey : PublicKey) (message_secret_key : SecretKey) (iv message : list Z) : pres (list Z) :=
  let auth_size := zlen message + (65 + 16 + 32) in
  auth_size ← (if auth_size <? 2 ^ 16 then Ok auth_size else Panic);
  let auth_size_bytes := to_be 2 auth_size in
  let message_secret := ecdh_xchng message_secret_key remote_static_pubkey in
  secret_keys ← kdf message_secret 32;
  let aes_key := take 16 secret_keys in
  let mac_key := sha256 (drop 16 secret_keys) in
  aes_cipher ← unwrap (aes128_ctr aes_key iv);
  let encrypted := aes_cipher message in
  let r_public_key := to_encoded_point (public_key message_secret_key) in
  let mac_footer := sha256_hmac mac_key [iv; encrypted] auth_size_bytes in
  Ok (auth_size_bytes ++ r_public_key ++ iv ++ encrypted ++ mac_footer).
(** [padding_length] (100 to 300), [message_secret_key] and [iv] are drawn at random; the
    message is kept and written out. *)
Definition encode_auth_message (static_key : SecretKey) (remote_static_pubkey : PublicKey) (padding_length : Z)
    (message_secret_key : SecretKey) (iv : list Z) (self : t) : pres (t * list Z) :=
  node_id ← pubkey2id (public_key static_key);
  let static_shared_secret := ecdh_xchng static_key remote_static_pubkey in
  signature ← sign_shared_secret self static_shared_secret;
  let encoded_auth_msg := AuthMessage.encode (AuthMessage.new signature node_id (nonce self)) in
  let encoded_auth_msg := resize_zero encoded_auth_msg (zlen encoded_auth_msg + padding_length) in
  auth_message ← seal remote_static_pubkey message_secret_key iv encoded_auth_msg;
  Ok (mk _ (nonce self) (ephemeral_key self) (Some auth_message), auth_message).

Definition derive_secrets (self : t) (ack : AckMessage.t) : pres (list Z * list Z) :=
  ephemeral_pubkey ← unwrap (AckMessage.get_ephemeral_pubkey ack);
  let ephemeral_key_secret := ecdh_xchng (ephemeral_key self) ephemeral_pubkey in
  _ ← pubkey2id (public_key (ephemeral_key self));
  let hashed_nonces := keccak (AckMessage.nonce ack ++ nonce self) in
  let shared_secret := keccak (ephemeral_key_secret ++ hashed_nonces) in
  let aes_key := keccak (ephemeral_key_secret ++ shared_secret) in
  let mac_key := keccak (ephemeral_key_secret ++ aes_key) in
  Ok (aes_key, mac_key).
(** The decryption of a handshake message without its size, which [auth_data] is. *)
Definition unseal (static_key : SecretKey) (msg auth_data : list Z) : pres (list Z) :=
  if negb (65 + 16 + 32 <? zlen msg) then Panic
  else
    let pk := take 65 msg in
    let rest := drop 65 msg in
    let iv := take 16 rest in
    let rest := drop 16 rest in
    let c := take (length rest - 32) rest in
    let d := drop (length rest - 32) rest in
    public_key ← unwrap (from_sec1_bytes pk);
    let shared_secret := ecdh_xchng static_key public_key in
    buf ← kdf shared_secret 32;
    let aes_key := take 16 buf in
    let mac_key := sha256 (drop 16 buf) in
    let expected_d := sha256_hmac mac_key [iv; c] auth_data in
    if bool_decide (d = expected_d) then
      stream_cipher ← unwrap (aes128_ctr aes_key iv);
      Ok (stream_cipher c)
    else Panic.
Definition decode_ack_message (self : t) (static_key : SecretKey) (msg auth_data : list Z) : pres RLPxState.t :=
  match auth_message self with
  | None => Panic
  | Some auth_message =>
    decoded_payload ← unseal static_key msg auth_data;
    match AckMessage.decode_unfinished decoded_payload with
    | Ok (ack, _padding) =>
      '(aes_key, mac_key) ← derive_secrets self ack;
      let ack_message := auth_data ++ msg in
      Ok (RLPxState.new aes_key mac_key (nonce self) auth_message (AckMessage.nonce ack) ack_message)
    | OutOfFuel => OutOfFuel
    | _ => Panic
    end
  end.
End Client.
End RLPxLocalClient.

(** ** frame.rs *)
Section Frames.
Context `{Profile} `{Ciphers}.

(** The first half of a digest, and the seeds of the two MACs of a frame. *)
Definition mac_digest (mac : list Z) : list Z := take 16 (keccak mac).
Definition header_mac_seed (mac_key mac header : list Z) : list Z := xor (aes256_encrypt mac_key (mac_digest mac)) header.
Definition frame_mac_seed (mac_key mac : list Z) : list Z := xor (aes256_encrypt mac_key (mac_digest mac)) (mac_digest mac).
Definition header_data : list Z := pair_encode u8_encode u8_encode (0, 0).
Definition padded (n : Z) : Z := (n + 15) / 16 * 16.

(** [write]: the bytes go to the stream; an error of the stream is not modelled. *)
Definition frame_write (frame_data : list Z) (state : RLPxState.t) : RLPxState.t * list Z :=
  let mac_key := RLPxState.mac_key state in
  let frame_size := to_be 8 (zlen frame_data) in
  let header := resize_zero (drop 5 frame_size ++ header_data) 16 in
  let '(egress_aes, header) := apply_keystream (RLPxState.egress_aes state) header in
  let egress_mac := RLPxState.egress_mac state ++ header_mac_seed mac_key (RLPxState.egress_mac state) header in
  let header_mac := mac_digest egress_mac in
  let frame_data := resize_zero frame_data (padded (zlen frame_data)) in
  let '(egress_aes, frame_ciphertext) := apply_keystream egress_aes frame_data in
  let egress_mac := egress_mac ++ frame_ciphertext in
  let egress_mac := egress_mac ++ frame_mac_seed mac_key egress_mac in
  let frame_mac := mac_digest egress_mac in
  (RLPxState.mk _ mac_key (RLPxState.ingress_mac state) egress_mac (RLPxState.ingress_aes state) egress_aes,
   header ++ header_mac ++ frame_ciphertext ++ frame_mac).

(** [read_exact(..).unwrap()]. *)
Definition read_exact (n : Z) (stream : list Z) : pres (list Z * list Z) :=
  if n <=? zlen stream then Ok (take (Z.to_nat n) stream, drop (Z.to_nat n) stream) else Panic.
Definition frame_read (state : RLPxState.t) (stream : list Z) : pres (RLPxState.t * list Z * list Z) :=
  let mac_key := RLPxState.mac_key state in
  '(frame_header, stream) ← read_exact 32 stream;
  let header_ciphertext := take 16 frame_header in
  let header_mac := drop 16 frame_header in
  let ingress_mac := RLPxState.ingress_mac state ++ header_mac_seed mac_key (RLPxState.ingress_mac state) header_ciphertext in
  if negb (bool_decide (header_mac = mac_digest ingress_mac)) then Panic
  else
    let '(ingress_aes, header_text) := apply_keystream (RLPxState.ingress_aes state) header_ciphertext in
    if negb (bool_decide (take 3 (drop 3 header_text) = header_data)) then Panic
    else
      let frame_size := of_be (take 3 header_text) in
      let padded_size := padded frame_size in
      '(frame_data, stream) ← read_exact (padded_size + 16) stream;
      let frame_ciphertext := take (Z.to_nat padded_size) frame_data in
      let frame_mac := drop (Z.to_nat padded_size) frame_data in
      let ingress_mac := ingress_mac ++ frame_ciphertext in
      let ingress_mac := ingress_mac ++ frame_mac_seed mac_key ingress_mac in
      if negb (bool_decide (frame_mac = mac_digest ingress_mac)) then Panic
      else
        let '(ingress_aes, frame_text) := apply_keystream ingress_aes frame_ciphertext in
        let state := RLPxState.mk _ mac_key ingress_mac (RLPxState.egress_mac state) ingress_aes (RLPxState.egress_aes state) in
        Ok (state, stream, take (Z.to_nat frame_size) frame_text).
End Frames.

(** ** message.rs, p2p.rs and eth.rs *)

(** The text of the client id. *)
Definition CLIENT_ID : list Z := [69; 116; 104; 101; 114; 101; 117; 109; 40; 43; 43; 41; 47; 49; 46; 48; 46; 48].
Section Compression.
Context `{Ciphers}.
(** Compression into a buffer of the largest size, cut to what was written. *)
Definition compressed (encoded_data : list Z) : pres (list Z) :=
  unwrap (snappy_compress encoded_data (max_compress_len (zlen encoded_data) + 1)).
Definition decompressed (msg_data : list Z) : dres (list Z) := unwrap (snappy_decompress msg_data).
End Compression.

Module HelloMessage.
Record t `{Ciphers} := mk { capabilities : list (list Z * Z); node_id : PublicKey }.
Section Codec.
Context `{Profile} `{Ciphers}.
Definition new (capabilities : list (list Z * Z)) (node_id : PublicKey) : t := mk _ capabilities node_id.
Definition encode (self : t) : pres (list Z) :=
  id ← pubkey2id (node_id self);
  Ok (u8_encode 0 ++
    (Encoder.new []
     |> field u8_encode 5
     |> field str_encode CLIENT_ID
     |> field (vec_encode (pair_encode str_encode u8_encode)) (capabilities self)
     |> field u8_encode 0
     |> field H512_encode id
     |> Encoder.finish)).
Definition decode (msg_data : list Z) : dres t := unwrapped (
  decoder ← Decoder.new msg_data;
  '(protocol_version, decoder) ← Decoder.decode_field u64_decode "protocolVersion" decoder;
  if negb (protocol_version =? 5) then Panic
  else
    '(_client_id, decoder) ← Decoder.decode_field String_decode "clientId" decoder;
    '(capabilities, decoder) ← Decoder.decode_field (vec_decode (pair_decode String_decode u8_decode)) "capabilities" decoder;
    '(_listen_port, decoder) ← Decoder.decode_field u16_decode "listenPort" decoder;
    '(node_id, decoder) ← Decoder.decode_field H512_decode "nodeId" decoder;
    node_id ← unwrap (id2pubkey node_id);
    Ok (mk _ capabilities node_id)).
End Codec.
End HelloMessage.

Module DisconnectMessage.
Record t := mk { reason : option Z }.
Section Codec.
Context `{Profile} `{Ciphers}.
Definition encode (self : t) : pres (list Z) :=
  let encoded_data := match reason self with
    | Some value => Encoder.new [] |> field u8_encode value |> Encoder.finish
    | None => vec_encode u8_encode []
    end in
  msg_data ← compressed encoded_data;
  Ok (u8_encode 1 ++ msg_data).
Definition decode (msg_data : list Z) : dres t :=
  decompressed_data ← decompressed msg_data;
  match decompressed_data with
  | [] => Ok (mk None)
  | [b] => Ok (mk (Some b))
  | _ =>
    decoder ← Decoder.new decompressed_data;
    '(reason, _) ← Decoder.decode_optional_field u8_decode decoder;
    Ok (mk reason)
  end.
End Codec.
End DisconnectMessage.

(** Ping and pong: an empty list; both are written with the id of a ping. *)
Section PingPong.
Context `{Profile} `{Ciphers}.
Definition ping_encode : pres (list Z) := msg_data ← compressed (vec_encode u8_encode []); Ok (u8_encode 2 ++ msg_data).
Definition pong_encode : pres (list Z) := msg_data ← compressed (vec_encode u8_encode []); Ok (u8_encode 2 ++ msg_data).
(** The assertion is on what follows the list. *)
Definition empty_decode (msg_data : list Z) : dres unit :=
  decompressed_data ← decompressed msg_data;
  decoder ← Decoder.new decompressed_data;
  if bool_decide (Decoder.finish_unchecked decoder = []) then Ok tt else Panic.
End PingPong.

Definition ETH_VERSION : Z := 68.
Module StatusMessage.
Record t := mk { eth_version : Z; network_id : Z; total_difficulty : Z; block_hash : list Z; genesis : list Z; fork_id : ForkId.t }.
Section Codec.
Context `{Profile} `{Ciphers}.
Definition payload (self : t) : list Z :=
  Encoder.new []
  |> field u32_encode (eth_version self)
  |> field u64_encode (network_id self)
  |> field U256_encode (total_difficulty self)
  |> field H256_encode (block_hash self)
  |> field H256_encode (genesis self)
  |> field ForkId.encode (fork_id self)
  |> Encoder.finish.
Definition encode (self : t) : pres (list Z) := msg_data ← compressed (payload self); Ok (u8_encode 16 ++ msg_data).
Definition decode (msg_data : list Z) : dres t :=
  decompressed_data ← decompressed msg_data;
  decoder ← Decoder.new decompressed_data;
  unwrapped (
    '(eth_version, decoder) ← Decoder.decode_field u32_decode "protocolVersion" decoder;
    if negb (eth_version =? 68) then Panic
    else
      '(network_id, decoder) ← Decoder.decode_field u64_decode "networkId" decoder;
      '(total_difficulty, decoder) ← Decoder.decode_field U256_decode "totalDifficulty" decoder;
      '(block_hash, decoder) ← Decoder.decode_field H256_decode "blockHash" decoder;
      '(genesis, decoder) ← Decoder.decode_field H256_decode "genesis" decoder;
      '(fork_id, decoder) ← Decoder.decode_field ForkId.decode_unfinished "forkId" decoder;
      Ok (mk eth_version network_id total_difficulty block_hash genesis fork_id)).
(** What the store says about the chain; [crc32] is the checksum of fork ids. *)
Definition build_from {S} `{StoreEngine S} (keccak256 : list Z → list Z) (crc32 : list Z → Z) : stm S StoreError t :=
  chain_config ← get_chain_config;
  let total_difficulty := default 0 (ChainConfig.terminal_total_difficulty chain_config) in
  let network_id := ChainConfig.chain_id chain_config in
  genesis_header ← get_block_header 0;
  genesis_header ← lift (unwrap genesis_header);
  block_number ← get_latest_block_number;
  block_number ← lift (unwrap block_number);
  block_header ← get_block_header block_number;
  block_header ← lift (unwrap block_header);
  let genesis := BlockHeader.compute_block_hash keccak256 genesis_header in
  let block_hash := BlockHeader.compute_block_hash keccak256 block_header in
  let fork_id := ForkId.new crc32 chain_config genesis (BlockHeader.timestamp block_header) block_number in
  mret (mk ETH_VERSION network_id total_difficulty block_hash genesis fork_id).
End Codec.
End StatusMessage.

Module Message.
Inductive t `{Ciphers} :=
  | Hello (m : HelloMessage.t)
  | Disconnect (m : DisconnectMessage.t)
  | Ping
  | Pong
  | Status (m : StatusMessage.t).
Section Codec.
Context `{Profile} `{Ciphers}.
Definition decode (msg_id : Z) (msg_data : list Z) : dres t :=
  if msg_id =? 0 then Hello <$> HelloMessage.decode msg_data
  else if msg_id =? 1 then Disconnect <$> DisconnectMessage.decode msg_data
  else if msg_id =? 2 then (λ _, Ping) <$> empty_decode msg_data
  else if msg_id =? 3 then (λ _, Pong) <$> empty_decode msg_data
  else if msg_id =? 16 then Status <$> StatusMessage.decode msg_data
  else Err MalformedData.
Definition encode (self : t) : pres (list Z) :=
  match self with
  | Hello m => HelloMessage.encode m
  | Disconnect m => DisconnectMessage.encode m
  | Ping => ping_encode
  | Pong => pong_encode
  | Status m => StatusMessage.encode m
  end.
End Codec.
End Message.

(** ** connection.rs *)

(** p2p version 5 and eth version 68. *)
Definition SUPPORTED_CAPABILITIES : list (list Z * Z) := [([112; 50; 112], 5); ([101; 116; 104], 68)].
Module RLPxConnection.
Record t `{Ciphers} := mk { state : RLPxState.t; established : bool }.
Section Connection.
Context `{Profile} `{Ciphers}.
Definition new (state : RLPxState.t) : t := mk _ state false.
(** The connection after a message, and the bytes that went to the stream. *)
Definition send (message : Message.t) (self : t) : pres (t * list Z) :=
  frame_buffer ← Message.encode message;
  let '(state, bytes) := frame_write frame_buffer (state self) in
  Ok (mk _ state (established self), bytes).
Definition receive (self : t) (stream : list Z) : pres (t * list Z * Message.t) :=
  '(state, stream, frame_data) ← frame_read (state self) stream;
  match u8_decode frame_data with
  | Ok (msg_id, msg_data) =>
    if negb (established self) && negb (msg_id =? 0) then Panic
    else
      match Message.decode msg_id msg_data with
      | Ok message =>
        if negb (established self) && negb (match message with Message.Hello _ => true | _ => false end) then Panic
        else Ok (mk _ state true, stream, message)
      | OutOfFuel => OutOfFuel
      | _ => Panic
      end
  | OutOfFuel => OutOfFuel
  | _ => Panic
  end.
End Connection.
End RLPxConnection.
