(* ===== verification/RlpxLaws.v ===== *)
(** * RLPx: what is sent arrives

    Two connections that share their secrets: every frame that one writes the other reads,
    every message that one sends the other receives, in order, until the peers part; and
    the handshake gives both ends such connections. *)

From S2P Require Import Prelude Rlp RlpLaws U256 Exponential Vm Codec Effects.
From S2P Require Import CoreTypes CoreLaws Consensus Genesis Store Discv4Laws Rlpx.

#[local] Set Default Proof Using "Type*".

(** What the code relies on of the other crates: applying a keystream twice restores the
    text and keeps its length, digests and keys have their sizes, both ends of a key exchange get
    the same secret, points survive encoding, compression is inverted. *)
Class LawfulCiphers `{Ciphers} := {
  keystream_law : ∀ c l, length (apply_keystream c l).2 = length l ∧
    apply_keystream c (apply_keystream c l).2 = ((apply_keystream c l).1, l);
  keccak_law : ∀ l, length (keccak l) = 32%nat;
  snappy_law : ∀ l, zlen l < 2 ^ 20 → ∃ c, snappy_compress l (max_compress_len (zlen l) + 1) = Some c ∧
    zlen c <= 32 + zlen l + zlen l / 6 ∧ snappy_decompress c = Some l;
  point_law : ∀ pk, ∃ id, to_encoded_point pk = 4 :: id ∧ is_array 64 id ∧ from_untagged_bytes id = Some pk ∧
    from_sec1_bytes (4 :: id) = Some pk;
  exchange_law : ∀ a b, diffie_hellman a (public_key b) = diffie_hellman b (public_key a);
  aes128_law : ∀ key iv, length key = 16%nat → length iv = 16%nat → ∃ f, aes128_ctr key iv = Some f ∧
    ∀ l, f (f l) = l ∧ length (f l) = length l;
  kdf_law : ∀ s n, ∃ o, concat_kdf s n = Some o ∧ length o = n;
  hmac_law : ∀ k d, length (hmac_sha256 k d) = 32%nat;
  secret_law : ∀ a b, length (diffie_hellman a b) = 32%nat;
  sign_law : ∀ k d, length d = 32%nat → ∃ s r, sign_prehash_recoverable k d = Some (s, r) ∧ is_array 64 s ∧ is_byte r
}.

(** ** Frames *)
Section Frames.
Context `{Profile} `{LawfulCiphers}.

(** What [a] writes [b] can read. *)
Definition in_sync (a b : RLPxState.t) : Prop :=
  RLPxState.mac_key a = RLPxState.mac_key b ∧ RLPxState.egress_mac a = RLPxState.ingress_mac b ∧
  RLPxState.egress_aes a = RLPxState.ingress_aes b.

Lemma length_digest m : length (mac_digest m) = 16%nat.
Proof. unfold mac_digest. rewrite length_take, keccak_law. lia. Qed.
Lemma zlen_digest m : zlen (mac_digest m) = 16.
Proof. unfold zlen. by rewrite length_digest. Qed.
Lemma take_exact {A} n (l k : list A) : length l = n → take n (l ++ k) = l ∧ drop n (l ++ k) = k.
Proof. intros <-. by rewrite take_app_length, drop_app_length. Qed.
Lemma read_exact_app n l k : zlen l = n → read_exact n (l ++ k) = Ok (l, k).
Proof.
  intros Hl. unfold read_exact. rewrite zlen_app. pose proof (zlen_nonneg k). pose proof (zlen_nonneg l).
  rewrite (proj2 (Z.leb_le _ _)) by lia. destruct (take_exact (Z.to_nat n) l k) as [-> ->]; [unfold zlen in Hl; lia|done].
Qed.
Lemma length_resize l n : 0 <= n → zlen (resize_zero l n) = n.
Proof. intros Hn. unfold resize_zero, zlen. rewrite length_app, length_take, length_replicate. lia. Qed.
Lemma resize_prefix l n : zlen l <= n → resize_zero l n = l ++ replicate (Z.to_nat (n - zlen l)) 0.
Proof.
  intros Hl. unfold resize_zero, zlen in *. rewrite take_ge by lia. do 2 f_equal. lia.
Qed.
Lemma padded_bounds n : 0 <= n → n <= padded n < n + 16 ∧ 0 <= padded n.
Proof. intros Hn. unfold padded. pose proof (Z.div_mod (n + 15) 16). pose proof (Z.mod_pos_bound (n + 15) 16). lia. Qed.

Lemma frame_header n : 0 <= n < 2 ^ 24 →
  let h := resize_zero (drop 5 (to_be 8 n) ++ header_data) 16 in
  length h = 16%nat ∧ of_be (take 3 h) = n ∧ take 3 (drop 3 h) = header_data.
Proof.
  intros Hn h. assert (h = to_be 3 n ++ header_data ++ replicate 10 0) as -> by reflexivity. split; [reflexivity|split; [|reflexivity]].
  destruct (take_exact 3 (to_be 3 n) (header_data ++ replicate 10 0)) as [-> _]; [apply to_be_length|]. apply of_be_to_be_small. lia.
Qed.

(** A frame that was written is read, and both ends agree afterwards. *)
Lemma frame_roundtrip data a b : zlen data < 2 ^ 24 → in_sync a b →
  ∃ b', (∀ rest, frame_read b ((frame_write data a).2 ++ rest) = Ok (b', rest, data)) ∧ in_sync (frame_write data a).1 b'.
Proof.
  intros Hd (Hk & Hm & Ha). pose proof (zlen_nonneg data) as Hz.
  destruct (frame_header (zlen data)) as (Hlen & Hsize & Hdata); [lia|].
  unfold frame_write. set (h := resize_zero (drop 5 (to_be 8 (zlen data)) ++ header_data) 16) in *.
  destruct (keystream_law (RLPxState.egress_aes a) h) as [Hl1 Hb1].
  destruct (apply_keystream (RLPxState.egress_aes a) h) as [c1 hc]. cbn [fst snd] in Hl1, Hb1.
  set (text := resize_zero data (padded (zlen data))).
  destruct (keystream_law c1 text) as [Hl2 Hb2]. destruct (apply_keystream c1 text) as [c2 fc]. cbn [fst snd] in *.
  destruct (padded_bounds (zlen data)) as [Hp Hp0]; [lia|].
  assert (zlen fc = padded (zlen data)) as Hfc by (unfold zlen at 1; rewrite Hl2; by apply length_resize).
  set (m1 := RLPxState.egress_mac a ++ header_mac_seed (RLPxState.mac_key a) (RLPxState.egress_mac a) hc) in *.
  set (m2 := m1 ++ fc) in *. set (m3 := m2 ++ frame_mac_seed (RLPxState.mac_key a) m2) in *.
  exists (RLPxState.mk _ (RLPxState.mac_key b) m3 (RLPxState.egress_mac b) c2 (RLPxState.egress_aes b)).
  split; [intros rest|by split].
  unfold frame_read. replace ((hc ++ mac_digest m1 ++ fc ++ mac_digest m3) ++ rest) with
    ((hc ++ mac_digest m1) ++ (fc ++ mac_digest m3) ++ rest) by (by rewrite !app_assoc).
  rewrite (read_exact_app 32 (hc ++ mac_digest m1)) by (unfold zlen; by rewrite length_app, length_digest, Hl1, Hlen). cbn [mbind res_mbind].
  destruct (take_exact 16 hc (mac_digest m1)) as [-> ->]; [congruence|]. rewrite <-Hk, <-Hm, <-Ha. fold m1.
  rewrite bool_decide_eq_true_2 by done. cbn [negb]. rewrite Hb1. rewrite bool_decide_eq_true_2 by done. cbn [negb]. rewrite Hsize.
  rewrite (read_exact_app (padded (zlen data) + 16) (fc ++ mac_digest m3)) by (by rewrite zlen_app, Hfc, zlen_digest). cbn [mbind res_mbind].
  destruct (take_exact (Z.to_nat (padded (zlen data))) fc (mac_digest m3)) as [-> ->]; [rewrite <-Hfc; unfold zlen; lia|].
  fold m2. fold m3. rewrite bool_decide_eq_true_2 by done. cbn [negb]. rewrite Hb2. do 2 f_equal.
  unfold text. rewrite resize_prefix by lia. unfold zlen at 1. rewrite Nat2Z.id. by rewrite take_app_length.
Qed.
End Frames.

(** ** Messages *)
#[export] Typeclasses Opaque u32_encode u32_decode str_encode String_decode.
#[export] Instance u32_codec `{Profile} : Codec u32_encode u32_decode (is_uint 32) := u32_laws.
#[export] Instance String_codec `{Profile} : Codec str_encode String_decode (λ l, bytes_ok l ∧ utf8_valid l = true) := String_laws.

Section Messages.
Context `{Profile} `{LawfulCiphers}.

Definition wf_status (m : StatusMessage.t) : Prop :=
  StatusMessage.eth_version m = ETH_VERSION ∧ is_uint 64 (StatusMessage.network_id m) ∧
  is_uint 256 (StatusMessage.total_difficulty m) ∧ is_array 32 (StatusMessage.block_hash m) ∧
  is_array 32 (StatusMessage.genesis m) ∧ is_array 4 (ForkId.fork_hash (StatusMessage.fork_id m)) ∧
  is_uint 64 (ForkId.fork_next (StatusMessage.fork_id m)).
Definition wf_capability (c : list Z * Z) : Prop := (bytes_ok c.1 ∧ utf8_valid c.1 = true) ∧ is_uint 8 c.2.
(** What the types guarantee, and capabilities that fit a frame. *)
Definition wf_message (m : Message.t) : Prop :=
  match m with
  | Message.Hello h => Forall wf_capability (HelloMessage.capabilities h) ∧
      zlen (vec_encode (pair_encode str_encode u8_encode) (HelloMessage.capabilities h)) < 2 ^ 23
  | Message.Disconnect d => from_option (is_uint 8) True (DisconnectMessage.reason d)
  | Message.Status s => wf_status s
  | _ => True
  end.
Definition is_hello (m : Message.t) : bool := match m with Message.Hello _ => true | _ => false end.
(** What the other end gets: a pong is written as a ping, and the empty list of a
    disconnect without a reason is read as the reason 192. *)
Definition received (m : Message.t) : Message.t :=
  match m with
  | Message.Pong => Message.Ping
  | Message.Disconnect (DisconnectMessage.mk None) => Message.Disconnect (DisconnectMessage.mk (Some 192))
  | _ => m
  end.

Lemma compressed_ok l : 0 <= zlen l < 2 ^ 20 → ∃ c, compressed l = Ok c ∧ zlen c < 2 ^ 22 ∧ decompressed c = Ok l.
Proof.
  intros Hl. destruct (snappy_law l) as (c & Hc & Hn & Hd); [lia|]. exists c. unfold compressed, decompressed.
  rewrite Hc, Hd. split; [done|split; [|done]]. pose proof (Z.div_le_upper_bound (zlen l) 6 (zlen l)). lia.
Qed.

Lemma status_size m : wf_status m → zlen (StatusMessage.payload m) <= 200.
Proof.
  intros (Hv & Hn & Ht & Hb & Hg & Hf & Hx). unfold StatusMessage.payload. encode_fields. unfold ForkId.encode. encode_fields.
  destruct (U256_encode_minimal _ Ht) as (t & -> & _ & Hz).
  assert (zlen (bytes_encode t) <= 1 + zlen t) by (apply bytes_encode_size; lia).
  assert (zlen (u32_encode (StatusMessage.eth_version m)) <= 5) by (rewrite Hv; vm_compute; congruence).
  assert (zlen (u64_encode (StatusMessage.network_id m)) <= 9) by (by apply (uint_size 8)).
  assert (zlen (u64_encode (ForkId.fork_next (StatusMessage.fork_id m))) <= 9) by (by apply (uint_size 8)).
  assert (zlen (H256_encode (StatusMessage.block_hash m)) <= 33) by (by apply (array_size 32)).
  assert (zlen (H256_encode (StatusMessage.genesis m)) <= 33) by (by apply (array_size 32)).
  assert (zlen (H32_encode (ForkId.fork_hash (StatusMessage.fork_id m))) <= 5) by (by apply (array_size 4)).
  set (f := struct_rlp [H32_encode _; _]). assert (zlen f <= 9 + 14).
  { unfold f. etrans; [apply struct_rlp_size|]; cbn [concat]; zlen_simpl; unfold isize_max; lia. }
  etrans; [apply struct_rlp_size|]; cbn [concat]; zlen_simpl; unfold isize_max; lia.
Qed.

(** A message that was encoded is decoded from its id and its data. *)
Definition decodes (m : Message.t) : Prop := ∃ id data,
  Message.encode m = Ok (u8_encode id ++ data) ∧ is_uint 8 id ∧ (id =? 0) = is_hello m ∧
  zlen (u8_encode id ++ data) < 2 ^ 24 ∧ Message.decode id data = Ok (received m).

Lemma compressed_decodes m id payload : is_uint 8 id → id ≠ 0 → is_hello m = false → zlen (u8_encode id) = 1 → zlen payload < 2 ^ 20 →
  Message.encode m = (msg_data ← compressed payload; Ok (u8_encode id ++ msg_data)) →
  (∀ data, decompressed data = Ok payload → Message.decode id data = Ok (received m)) → decodes m.
Proof.
  intros Hid Hne Hh Hz Hp He Hd. pose proof (zlen_nonneg payload). destruct (compressed_ok payload) as (c & Hc & Hl & Hb); [lia|].
  exists id, c. rewrite He, Hc. split; [done|split; [done|split; [|split]]]; [rewrite Hh; by apply Z.eqb_neq| |by apply Hd].
  rewrite zlen_app. lia.
Qed.

Lemma fmap_ok {E A B} (f : A → B) (r : res E A) x : r = Ok x → f <$> r = Ok (f x).
Proof. by intros ->. Qed.
Lemma unwrapped_ok {A} (r : dres A) x : r = Ok x → unwrapped r = Ok x.
Proof. by intros ->. Qed.
Lemma status_decodes m : wf_status m → decodes (Message.Status m).
Proof.
  intros Hm. pose proof (status_size m Hm) as Hs. apply (compressed_decodes _ 16 (StatusMessage.payload m)); try done; [lia|].
  intros data Hd. unfold Message.decode. cbn [Z.eqb]. unfold StatusMessage.decode. rewrite Hd, bind_Ok_l.
  assert (zlen (StatusMessage.payload m) <= isize_max) as Hmax by (unfold isize_max; lia). clear Hs Hd.
  revert Hmax. rewrite <-(app_nil_r (StatusMessage.payload m)) at 2. unfold StatusMessage.payload. encode_fields. intros Hmax.
  apply (fmap_ok Message.Status).
  destruct Hm as (Hv & Hn & Ht & Hb & Hg & Hf & Hx).
  apply decode_new; [done|]. intros Hmax'. apply unwrapped_ok. decode_field_step; [by rewrite Hv|]. rewrite Hv. cbn [Z.eqb negb].
  repeat decode_field_step. rewrite <-Hv. by destruct m.
Qed.

Lemma empty_decodes data : decompressed data = Ok (vec_encode u8_encode []) → empty_decode data = Ok tt.
Proof. intros Hd. unfold empty_decode. rewrite Hd, bind_Ok_l. done. Qed.
Lemma disconnect_decodes m : from_option (is_uint 8) True (DisconnectMessage.reason m) → decodes (Message.Disconnect m).
Proof.
  destruct m as [[r|]]; cbn; intros Hr.
  - assert (zlen (u8_encode r) <= 2) as Hz by (by apply (uint_size 1); [lia|]).
    pose proof (codec_pos u8_encode u8_decode _ r Hr) as Hp. set (l := struct_rlp [u8_encode r]).
    assert (zlen l <= 9 + 2) as Hl by (etrans; [apply struct_rlp_size|]; cbn [concat]; zlen_simpl; unfold isize_max; lia).
    apply (compressed_decodes _ 1 l); try done; [lia|unfold Message.encode, DisconnectMessage.encode; cbn [DisconnectMessage.reason]; by encode_fields|].
    intros data Hd. unfold Message.decode. cbn [Z.eqb]. unfold DisconnectMessage.decode. rewrite Hd, bind_Ok_l.
    assert (2 <= zlen l) as Hl2.
    { unfold l, struct_rlp. destruct (struct_rlp_head [u8_encode r]) as (b & t & Hb & _). unfold struct_rlp in Hb. cbn [concat] in *.
      rewrite app_nil_r in *. rewrite encode_length_prefix, zlen_app. unfold item_prefix. rewrite (proj2 (Z.ltb_lt _ _)) by lia. zlen_simpl. cbn. lia. }
    destruct l as [|b [|b' l']] eqn:E; [by cbn in Hl2|by cbn in Hl2|]. rewrite <-E.
    apply (fmap_ok Message.Disconnect _ (DisconnectMessage.mk (Some r))).
    assert (zlen (struct_rlp [u8_encode r]) <= isize_max) by (fold l; rewrite E; unfold isize_max; lia).
    rewrite <-(app_nil_r l). unfold l. by decode_fields.
  - apply (compressed_decodes _ 1 (vec_encode u8_encode [])); try done.
    intros data Hd. unfold Message.decode. cbn [Z.eqb]. unfold DisconnectMessage.decode. by rewrite Hd.
Qed.

Lemma pubkey_id pk : ∃ id, pubkey2id pk = Ok id ∧ is_array 64 id ∧ to_encoded_point pk = 4 :: id ∧ id2pubkey id = Some pk.
Proof.
  destruct (point_law pk) as (id & Hp & Hid & Hpk & _). exists id. split_and!; try done. unfold pubkey2id. rewrite Hp. cbn [head drop].
  rewrite bool_decide_eq_true_2 by done. cbn [negb]. rewrite andb_false_r. by rewrite (proj2 (Z.eqb_eq _ _)) by apply Hid.
Qed.
Lemma hello_decodes m : wf_message (Message.Hello m) → decodes (Message.Hello m).
Proof.
  intros [Hc Hl]. destruct (pubkey_id (HelloMessage.node_id m)) as (id & Hkey & Hid & _ & Hpk).
  set (caps := vec_encode (pair_encode str_encode u8_encode) (HelloMessage.capabilities m)) in *.
  set (l := [u64_encode 5; str_encode CLIENT_ID; caps; u16_encode 0; H512_encode id]).
  assert (zlen (struct_rlp l) <= 2 ^ 23 + 200) as Hz.
  { etrans; [apply struct_rlp_size|]; unfold l; cbn [concat]; zlen_simpl; rewrite (H512_size id) by done; unfold isize_max;
      change (zlen (u64_encode 5)) with 1; change (zlen (u16_encode 0)) with 1; change (zlen (str_encode CLIENT_ID)) with 19; lia. }
  exists 0, (struct_rlp l). split; [|split; [done|split; [done|split]]].
  - unfold Message.encode, HelloMessage.encode. rewrite Hkey, bind_Ok_l. by encode_fields.
  - rewrite zlen_app. change (zlen (u8_encode 0)) with 1. lia.
  - unfold Message.decode. cbn [Z.eqb]. apply (fmap_ok Message.Hello _ m), unwrapped_ok.
    assert (zlen (struct_rlp l) <= isize_max) by (unfold isize_max; lia). rewrite <-(app_nil_r (struct_rlp l)).
    unfold l. decode_fields; [split; [by_decide|reflexivity]|]. unfold caps in *. repeat decode_field_step.
    rewrite Hpk. by destruct m.
Qed.

Lemma rlpx_message_decodes m : wf_message m → decodes m.
Proof.
  destruct m as [m|m| | |m].
  - apply hello_decodes.
  - apply disconnect_decodes.
  - intros _. apply (compressed_decodes _ 2 (vec_encode u8_encode [])); try done.
    intros data Hd. unfold Message.decode. cbn [Z.eqb]. by rewrite empty_decodes.
  - intros _. apply (compressed_decodes _ 2 (vec_encode u8_encode [])); try done.
    intros data Hd. unfold Message.decode. cbn [Z.eqb]. by rewrite empty_decodes.
  - apply status_decodes.
Qed.
End Messages.

(** ** Connections *)

(** Two ends of a connection, the bytes on their way in each direction, and what
    each end sent and received so far. *)
Module Channel.
Record t `{Ciphers} := mk {
  here : RLPxConnection.t; there : RLPxConnection.t; out : list Z; back : list Z;
  sent_here : list Message.t; sent_there : list Message.t; got_here : list Message.t; got_there : list Message.t
}.
Definition start `{Ciphers} (a b : RLPxState.t) : t :=
  mk _ (RLPxConnection.new a) (RLPxConnection.new b) [] [] [] [] [] [].
End Channel.

Section Channels.
Context `{Profile} `{LawfulCiphers}.

(** A hello comes first; either end may send or receive at any time. *)
Inductive channel_step : Channel.t → Channel.t → Prop :=
  | send_here a b ab ba sa sb ga gb m a' bytes : wf_message m → (sa = [] → is_hello m = true) →
      RLPxConnection.send m a = Ok (a', bytes) →
      channel_step (Channel.mk _ a b ab ba sa sb ga gb) (Channel.mk _ a' b (ab ++ bytes) ba (sa ++ [m]) sb ga gb)
  | send_there a b ab ba sa sb ga gb m b' bytes : wf_message m → (sb = [] → is_hello m = true) →
      RLPxConnection.send m b = Ok (b', bytes) →
      channel_step (Channel.mk _ a b ab ba sa sb ga gb) (Channel.mk _ a b' ab (ba ++ bytes) sa (sb ++ [m]) ga gb)
  | receive_there a b ab ba sa sb ga gb b' ab' m : RLPxConnection.receive b ab = Ok (b', ab', m) →
      channel_step (Channel.mk _ a b ab ba sa sb ga gb) (Channel.mk _ a b' ab' ba sa sb ga (gb ++ [m]))
  | receive_here a b ab ba sa sb ga gb a' ba' m : RLPxConnection.receive a ba = Ok (a', ba', m) →
      channel_step (Channel.mk _ a b ab ba sa sb ga gb) (Channel.mk _ a' b ab ba' sa sb (ga ++ [m]) gb).

(** The bytes on their way to [b] are frames of [ms] that [b] will read one by one; after
    them [b] is in step with the sender's state [a]. *)
Inductive flight (a : RLPxState.t) : RLPxConnection.t → list Z → list Message.t → bool → Prop :=
  | flight_nil b : in_sync a (RLPxConnection.state b) → flight a b [] [] (RLPxConnection.established b)
  | flight_cons b b' frame bytes m ms e : (∀ rest, RLPxConnection.receive b (frame ++ rest) = Ok (b', rest, received m)) →
      flight a b' bytes ms e → flight a b (frame ++ bytes) (m :: ms) e.

(** Only its outgoing half tells a sender, only its incoming half a receiver. *)
Definition same_out (a a' : RLPxState.t) : Prop :=
  RLPxState.mac_key a = RLPxState.mac_key a' ∧ RLPxState.egress_mac a = RLPxState.egress_mac a' ∧ RLPxState.egress_aes a = RLPxState.egress_aes a'.
Definition state_with_out (mac : list Z) (aes : Ctr) (a : RLPxState.t) : RLPxState.t :=
  RLPxState.mk _ (RLPxState.mac_key a) (RLPxState.ingress_mac a) mac (RLPxState.ingress_aes a) aes.
Definition with_out (mac : list Z) (aes : Ctr) (c : RLPxConnection.t) : RLPxConnection.t :=
  RLPxConnection.mk _ (state_with_out mac aes (RLPxConnection.state c)) (RLPxConnection.established c).

Lemma read_with_out mac aes st stream : frame_read (state_with_out mac aes st) stream =
  (λ '(st', rest, data), (state_with_out mac aes st', rest, data)) <$> frame_read st stream.
Proof.
  unfold frame_read. cbn [state_with_out RLPxState.mac_key RLPxState.ingress_mac RLPxState.ingress_aes].
  destruct (read_exact 32 stream) as [[h s1]| | |]; try done. cbn [mbind res_mbind]. case_match; [done|].
  destruct (apply_keystream _ _) as [k t]. case_match; [done|]. destruct (read_exact _ s1) as [[d s2]| | |]; try done. cbn [mbind res_mbind].
  case_match; [done|]. by destruct (apply_keystream _ _).
Qed.
Lemma receive_with_out mac aes c stream : RLPxConnection.receive (with_out mac aes c) stream =
  (λ '(c', rest, m), (with_out mac aes c', rest, m)) <$> RLPxConnection.receive c stream.
Proof.
  unfold RLPxConnection.receive. cbn [with_out RLPxConnection.state RLPxConnection.established]. rewrite read_with_out.
  destruct (frame_read _ stream) as [[[st' rest] data]| | |]; try done. cbn [mbind res_mbind fmap res_fmap].
  destruct (u8_decode data) as [[id d]| | |]; try done. case_match; [done|]. destruct (Message.decode id d); try done. by case_match.
Qed.
Lemma read_same_out st stream st' rest data : frame_read st stream = Ok (st', rest, data) → same_out st st'.
Proof.
  unfold frame_read. destruct (read_exact 32 stream) as [[h s1]| | |]; try done. cbn [mbind res_mbind]. case_match; [done|].
  destruct (apply_keystream _ _) as [k t]. case_match; [done|]. destruct (read_exact _ s1) as [[d s2]| | |]; try done. cbn [mbind res_mbind].
  case_match; [done|]. destruct (apply_keystream _ _). intros [= <- _ _]. done.
Qed.
Lemma receive_same_out c stream c' rest m : RLPxConnection.receive c stream = Ok (c', rest, m) →
  same_out (RLPxConnection.state c) (RLPxConnection.state c').
Proof.
  unfold RLPxConnection.receive. destruct (frame_read _ stream) as [[[st' r] data]| | |] eqn:Hr; try done. cbn [mbind res_mbind].
  apply read_same_out in Hr. destruct (u8_decode data) as [[id d]| | |]; try done. case_match; [done|].
  destruct (Message.decode id d); try done. case_match; [done|]. by intros [= <- _ _].
Qed.
Lemma send_with_out m a a' bytes : RLPxConnection.send m a = Ok (a', bytes) → ∃ mac aes, a' = with_out mac aes a.
Proof.
  unfold RLPxConnection.send. destruct (Message.encode m); try done. cbn [mbind res_mbind]. unfold frame_write.
  destruct (apply_keystream _ _) as [c1 h]. destruct (apply_keystream c1 _) as [c2 f]. intros [= <- _]. by eexists _, _.
Qed.

Lemma flight_same_out a a' b bytes ms e : same_out a a' → flight a b bytes ms e → flight a' b bytes ms e.
Proof.
  intros (Hk & Hm & Hs). induction 1 as [b Hb|]; [|by econstructor].
  constructor. destruct Hb as (?&?&?). split_and!; congruence.
Qed.
Lemma flight_with_out mac aes a b bytes ms e : flight a b bytes ms e → flight a (with_out mac aes b) bytes ms e.
Proof.
  induction 1 as [b Hb|b b' frame bytes m ms e Hr Hf IH]; [by apply (flight_nil a (with_out mac aes b))|].
  econstructor; [|exact IH]. intros rest. by rewrite receive_with_out, Hr.
Qed.
Lemma send_frame m (a : RLPxConnection.t) (b : RLPxConnection.t) : wf_message m → in_sync (RLPxConnection.state a) (RLPxConnection.state b) →
  RLPxConnection.established b || is_hello m = true →
  ∃ a' frame b', RLPxConnection.send m a = Ok (a', frame) ∧ in_sync (RLPxConnection.state a') (RLPxConnection.state b') ∧
    RLPxConnection.established b' = true ∧ ∀ rest, RLPxConnection.receive b (frame ++ rest) = Ok (b', rest, received m).
Proof.
  intros Hm Hs Hh. destruct (rlpx_message_decodes m Hm) as (id & data & He & Hid & Hz & Hl & Hd).
  destruct (frame_roundtrip (u8_encode id ++ data) _ _ Hl Hs) as (st & Hr & Hs').
  destruct (frame_write (u8_encode id ++ data) (RLPxConnection.state a)) as [sa frame] eqn:Hw. cbn [fst snd] in *.
  exists (RLPxConnection.mk _ sa (RLPxConnection.established a)), frame, (RLPxConnection.mk _ st true). split_and!; try done.
  - unfold RLPxConnection.send. by rewrite He, bind_Ok_l, Hw.
  - intros rest. unfold RLPxConnection.receive. rewrite Hr, bind_Ok_l. rewrite (codec_roundtrip u8_encode u8_decode (is_uint 8)); [|done|].
    + rewrite Hz, Hd. destruct (RLPxConnection.established b), m as [| [[]] | | |]; cbn in *; done.
    + rewrite zlen_app in Hl. pose proof (zlen_nonneg data). unfold isize_max. lia.
Qed.
Lemma flight_send m ca ca' frame b bytes ms e : flight (RLPxConnection.state ca) b bytes ms e → wf_message m → e || is_hello m = true →
  RLPxConnection.send m ca = Ok (ca', frame) → flight (RLPxConnection.state ca') b (bytes ++ frame) (ms ++ [m]) true.
Proof.
  intros Hf Hm He Hs. induction Hf as [b Hb|b b' f bytes m' ms e Hr Hf IH].
  - destruct (send_frame m ca b Hm Hb He) as (a' & f & b' & Hs' & Hsync & He' & Hr). rewrite Hs in Hs'. simplify_eq.
    rewrite <-(app_nil_r f). cbn [app]. apply flight_cons with b'; [done|]. rewrite <-He'. by constructor.
  - rewrite <-app_assoc. cbn [app]. apply flight_cons with b'; auto.
Qed.

(** Receiving [n] messages. *)
Fixpoint receive_all (n : nat) (c : RLPxConnection.t) (stream : list Z) : pres (RLPxConnection.t * list Z * list Message.t) :=
  match n with
  | O => Ok (c, stream, [])
  | S n =>
    '(c, stream, m) ← RLPxConnection.receive c stream;
    '(c, stream, ms) ← receive_all n c stream;
    Ok (c, stream, m :: ms)
  end.
(** What was sent and has not been received is on its way, and [c] can receive all of it. *)
Definition delivers (c : RLPxConnection.t) (stream : list Z) (sent got : list Message.t) : Prop :=
  ∃ pending c', map received sent = got ++ pending ∧ receive_all (length pending) c stream = Ok (c', [], pending).

Definition link (a b : RLPxConnection.t) (stream : list Z) (sent got : list Message.t) : Prop :=
  ∃ before pending e, sent = before ++ pending ∧ got = map received before ∧
    flight (RLPxConnection.state a) b stream pending e ∧ (e = true ∨ sent = []).

Lemma flight_delivers a b stream ms e : flight a b stream ms e → ∃ c, receive_all (length ms) b stream = Ok (c, [], map received ms).
Proof.
  induction 1 as [b Hb|b b' frame bytes m ms e Hr Hf [c IH]]; [by exists b|]. exists c. cbn [length receive_all map].
  by rewrite Hr, bind_Ok_l, IH, bind_Ok_l.
Qed.
Lemma link_delivers a b stream sent got : link a b stream sent got → delivers b stream sent got.
Proof.
  intros (before & pending & e & -> & -> & Hf & _). destruct (flight_delivers _ _ _ _ _ Hf) as [c Hc].
  exists (map received pending), c. by rewrite length_map, map_app.
Qed.
Lemma link_send m a a' frame b stream sent got : wf_message m → (sent = [] → is_hello m = true) → RLPxConnection.send m a = Ok (a', frame) →
  link a b stream sent got → link a' b (stream ++ frame) (sent ++ [m]) got.
Proof.
  intros Hm Hh Hs (before & pending & e & -> & -> & Hf & He). exists before, (pending ++ [m]), true.
  split_and!; [by rewrite app_assoc|done| |by left]. eapply flight_send; try done. destruct He as [->|He]; [done|]. by rewrite Hh, orb_true_r.
Qed.
Lemma link_receive a b stream sent got b' stream' m : link a b stream sent got → RLPxConnection.receive b stream = Ok (b', stream', m) →
  link a b' stream' sent (got ++ [m]).
Proof.
  intros (before & pending & e & -> & -> & Hf & He) Hr. destruct Hf as [b Hb|b b1 frame bytes m1 ms e Hr1 Hf].
  - by unfold RLPxConnection.receive, frame_read in Hr.
  - rewrite Hr1 in Hr. simplify_eq. exists (before ++ [m1]), ms, e. rewrite <-app_assoc, map_app. split_and!; try done.
Qed.
Lemma link_same_out a a' b stream sent got : same_out (RLPxConnection.state a) (RLPxConnection.state a') → link a b stream sent got → link a' b stream sent got.
Proof. intros Hs (x & y & e & H1' & H2' & Hf & He). exists x, y, e. split_and!; try done. by eapply flight_same_out. Qed.
Lemma link_with_out mac aes a b stream sent got : link a b stream sent got → link a (with_out mac aes b) stream sent got.
Proof. intros (x & y & e & H1' & H2' & Hf & He). exists x, y, e. split_and!; try done. by apply flight_with_out. Qed.

Definition linked (s : Channel.t) : Prop :=
  link (Channel.here s) (Channel.there s) (Channel.out s) (Channel.sent_here s) (Channel.got_there s) ∧
  link (Channel.there s) (Channel.here s) (Channel.back s) (Channel.sent_there s) (Channel.got_here s).
Lemma linked_step s s' : channel_step s s' → linked s → linked s'.
Proof.
  destruct 1 as [a b ab ba sa sb ga gb m a' f Hm Hh Hs|a b ab ba sa sb ga gb m b' f Hm Hh Hs
    |a b ab ba sa sb ga gb b' ab' m Hr|a b ab ba sa sb ga gb a' ba' m Hr]; intros [L1 L2]; cbn in *; split; cbn.
  - by eapply link_send.
  - apply send_with_out in Hs as (mac & aes & ->). by apply link_with_out.
  - apply send_with_out in Hs as (mac & aes & ->). by apply link_with_out.
  - by eapply link_send.
  - by eapply link_receive.
  - apply receive_same_out in Hr. by eapply link_same_out.
  - apply receive_same_out in Hr. by eapply link_same_out.
  - by eapply link_receive.
Qed.
Lemma linked_start a b : in_sync a b → in_sync b a → linked (Channel.start a b).
Proof. intros Hab Hba. split; exists [], [], false; split_and!; try (by right); try done; by apply (flight_nil _ (RLPxConnection.new _)). Qed.
Lemma linked_reachable s s' : rtc channel_step s s' → linked s → linked s'.
Proof. induction 1; eauto using linked_step. Qed.
End Channels.

(** ** The handshake *)
#[export] Typeclasses Opaque Signature_encode Signature_decode.
#[export] Instance Signature_codec `{Profile} : Codec Signature_encode Signature_decode (is_array 65) := array_laws 65.

Section Handshakes.
Context `{Profile} `{LawfulCiphers}.

Lemma struct_rlp_pos l : 0 < zlen (struct_rlp l).
Proof. destruct (struct_rlp_head l) as (b & t & -> & _). rewrite zlen_cons. pose proof (zlen_nonneg t). lia. Qed.
Lemma exchange_same a b : ecdh_xchng a (public_key b) = ecdh_xchng b (public_key a).
Proof. unfold ecdh_xchng. by rewrite exchange_law. Qed.

(** What is sealed for the holder of a key, the holder opens. *)
Lemma seal_opens sk msk iv message : length iv = 16%nat → 0 < zlen message < 65000 →
  ∃ sealed, RLPxLocalClient.seal (public_key sk) msk iv message = Ok sealed ∧ length (take 2 sealed) = 2%nat ∧
    RLPxLocalClient.unseal sk (drop 2 sealed) (take 2 sealed) = Ok message.
Proof.
  intros Hiv Hm. unfold RLPxLocalClient.seal. rewrite (proj2 (Z.ltb_lt _ _)) by lia. rewrite bind_Ok_l.
  set (size := to_be 2 _). destruct (kdf_law (ecdh_xchng msk (public_key sk)) 32) as (o & Ho & Hl).
  unfold kdf at 1. rewrite Ho. cbn [unwrap]. rewrite bind_Ok_l.
  destruct (aes128_law (take 16 o) iv) as (f & Hf & Hff); [rewrite length_take; lia|done|].
  rewrite Hf. cbn [unwrap]. rewrite bind_Ok_l. destruct (point_law (public_key msk)) as (id & Hp & [_ Hid] & _ & Hpk). rewrite Hp.
  set (mac := sha256_hmac _ _ _). eexists. split; [done|]. assert (length size = 2%nat) as Hs by apply to_be_length.
  destruct (take_exact 2 size ((4 :: id) ++ iv ++ f message ++ mac) Hs) as [-> ->]. split; [done|].
  unfold RLPxLocalClient.unseal. destruct (Hff message) as [Hback Hlen]. assert (length mac = 32%nat) as Hmac by apply hmac_law.
  assert (length (4 :: id) = 65%nat) as Hk by (cbn; unfold zlen in Hid; lia).
  rewrite (proj2 (Z.ltb_lt _ _)); [|unfold zlen in *; rewrite !length_app, Hk, Hiv, Hlen, Hmac; lia]. cbn [negb].
  destruct (take_exact 65 (4 :: id) (iv ++ f message ++ mac) Hk) as [-> ->].
  destruct (take_exact 16 iv (f message ++ mac) Hiv) as [-> ->]. rewrite Hpk. cbn [unwrap]. rewrite bind_Ok_l.
  replace (length (f message ++ mac) - 32)%nat with (length (f message)) by (rewrite length_app; lia).
  destruct (take_exact _ (f message) mac eq_refl) as [-> ->]. rewrite <-exchange_same. unfold kdf. rewrite Ho. cbn [unwrap]. rewrite bind_Ok_l.
  rewrite bool_decide_eq_true_2 by done. rewrite Hf. cbn [unwrap]. by rewrite bind_Ok_l, Hback.
Qed.

Definition wf_ack (a : AckMessage.t) : Prop :=
  is_array 64 (AckMessage.ephemeral_pubkey a) ∧ is_array 32 (AckMessage.nonce a) ∧ is_uint 8 (AckMessage.version a).
Definition wf_auth (a : AuthMessage.t) : Prop :=
  is_array 65 (AuthMessage.signature a) ∧ is_array 64 (AuthMessage.node_id a) ∧ is_array 32 (AuthMessage.nonce a) ∧ is_uint 8 (AuthMessage.version a).
Lemma ack_decodes a padding : wf_ack a → zlen (AckMessage.encode a) <= isize_max →
  AckMessage.decode_unfinished (AckMessage.encode a ++ padding) = Ok (a, padding).
Proof.
  intros (Hp & Hn & Hv). unfold AckMessage.encode, AckMessage.decode_unfinished. encode_fields. intros Hmax. apply unwrapped_ok.
  decode_fields. by destruct a.
Qed.
Lemma auth_decodes a padding : wf_auth a → zlen (AuthMessage.encode a) <= isize_max →
  AuthMessage.decode_unfinished (AuthMessage.encode a ++ padding) = Ok (a, padding).
Proof.
  intros (Hs & Hp & Hn & Hv). unfold AuthMessage.encode, AuthMessage.decode_unfinished. encode_fields. intros Hmax. apply unwrapped_ok.
  decode_fields. by destruct a.
Qed.
Lemma auth_size a : wf_auth a → 0 < zlen (AuthMessage.encode a) <= 200.
Proof.
  intros (Hs & Hp & Hn & Hv). unfold AuthMessage.encode. encode_fields.
  assert (zlen (u8_encode (AuthMessage.version a)) <= 2) by (by apply (uint_size 1); [lia|]).
  assert (zlen (H256_encode (AuthMessage.nonce a)) <= 33) by (by apply (array_size 32)).
  pose proof (H512_size (AuthMessage.node_id a) Hp).
  assert (zlen (Signature_encode (AuthMessage.signature a)) = 67).
  { unfold Signature_encode, bytes_encode. rewrite (proj2 Hs). change ((65 =? 1) && _) with false. cbv iota. by rewrite zlen_app, (proj2 Hs). }
  split.
  - apply struct_rlp_pos.
  - etrans; [apply struct_rlp_size|]; cbn [concat]; zlen_simpl; unfold isize_max; lia.
Qed.

(** The other end of a handshake, as RLPx describes it: its secrets come from its own
    ephemeral key and the initiator's ephemeral public key. *)
Definition responder (ephemeral_key : SecretKey) (initiator : PublicKey) (nonce initiator_nonce auth ack : list Z) : RLPxState.t :=
  let secret := ecdh_xchng ephemeral_key initiator in
  let shared_secret := keccak (secret ++ keccak (nonce ++ initiator_nonce)) in
  let aes_key := keccak (secret ++ shared_secret) in
  RLPxState.new aes_key (keccak (secret ++ aes_key)) nonce ack initiator_nonce auth.

Lemma secrets_agree c key nonce version id : id2pubkey id = Some (public_key key) →
  RLPxLocalClient.derive_secrets c (AckMessage.mk id nonce version) =
  let secret := ecdh_xchng key (public_key (RLPxLocalClient.ephemeral_key c)) in
  let shared_secret := keccak (secret ++ keccak (nonce ++ RLPxLocalClient.nonce c)) in
  let aes_key := keccak (secret ++ shared_secret) in
  Ok (aes_key, keccak (secret ++ aes_key)).
Proof.
  intros Hid. unfold RLPxLocalClient.derive_secrets, AckMessage.get_ephemeral_pubkey. cbn [AckMessage.ephemeral_pubkey AckMessage.nonce].
  rewrite Hid. cbn [unwrap]. rewrite bind_Ok_l. destruct (pubkey_id (public_key (RLPxLocalClient.ephemeral_key c))) as (i & -> & _).
  rewrite bind_Ok_l. by rewrite (exchange_same (RLPxLocalClient.ephemeral_key c)).
Qed.
Lemma auth_sent c sk rsk padding_length msk iv : length iv = 16%nat → is_array 32 (RLPxLocalClient.nonce c) → 0 <= padding_length <= 300 →
  ∃ auth a zeros, RLPxLocalClient.encode_auth_message sk (public_key rsk) padding_length msk iv c =
      Ok (RLPxLocalClient.mk _ (RLPxLocalClient.nonce c) (RLPxLocalClient.ephemeral_key c) (Some auth), auth) ∧
    RLPxLocalClient.unseal rsk (drop 2 auth) (take 2 auth) = Ok (AuthMessage.encode a ++ zeros) ∧
    AuthMessage.decode_unfinished (AuthMessage.encode a ++ zeros) = Ok (a, zeros) ∧
    id2pubkey (AuthMessage.node_id a) = Some (public_key sk) ∧ AuthMessage.nonce a = RLPxLocalClient.nonce c.
Proof.
  intros Hiv Hn Hpad. unfold RLPxLocalClient.encode_auth_message. destruct (pubkey_id (public_key sk)) as (id & -> & Hid & _ & Hpk). rewrite bind_Ok_l.
  unfold RLPxLocalClient.sign_shared_secret. set (d := xor _ _).
  destruct (sign_law (RLPxLocalClient.ephemeral_key c) d) as (s & r & Hs & [Hs1 Hs2] & Hr).
  { unfold d, xor. rewrite length_zip_with. unfold ecdh_xchng. rewrite length_take, secret_law. destruct Hn as [_ Hn]. unfold zlen in Hn. lia. }
  rewrite Hs. cbn [unwrap]. rewrite !bind_Ok_l. rewrite (proj2 (Z.eqb_eq _ _)) by done. rewrite bind_Ok_l.
  set (a := AuthMessage.new (s ++ [r]) id (RLPxLocalClient.nonce c)).
  assert (wf_auth a) as Ha.
  { split_and!; try done. split; [|cbn; rewrite zlen_app, Hs2; done]. by apply Forall_app; split; [|constructor]. }
  pose proof (auth_size a Ha) as Hz. rewrite resize_prefix by lia. set (zeros := replicate _ 0).
  destruct (seal_opens rsk msk iv (AuthMessage.encode a ++ zeros)) as (auth & -> & _ & Hu); [done| |].
  { rewrite zlen_app. assert (zlen zeros = padding_length) as -> by (unfold zeros, zlen; rewrite length_replicate; lia). lia. }
  exists auth, a, zeros. rewrite bind_Ok_l. split_and!; try done. apply auth_decodes; [done|unfold isize_max; lia].
Qed.
Lemma ack_received c sk auth key nonce version id padding rmsk riv : length riv = 16%nat → RLPxLocalClient.auth_message c = Some auth →
  id2pubkey id = Some (public_key key) → wf_ack (AckMessage.mk id nonce version) → zlen (AckMessage.encode (AckMessage.mk id nonce version) ++ padding) < 65000 →
  ∃ ack, RLPxLocalClient.seal (public_key sk) rmsk riv (AckMessage.encode (AckMessage.mk id nonce version) ++ padding) = Ok ack ∧
    let st := responder key (public_key (RLPxLocalClient.ephemeral_key c)) nonce (RLPxLocalClient.nonce c) auth ack in
    ∃ st', RLPxLocalClient.decode_ack_message c sk (drop 2 ack) (take 2 ack) = Ok st' ∧ in_sync st' st ∧ in_sync st st'.
Proof.
  intros Hiv Hauth Hid Hwf Hl. set (a := AckMessage.mk id nonce version) in *.
  assert (0 < zlen (AckMessage.encode a)) as Hpos.
  { unfold AckMessage.encode. encode_fields. apply struct_rlp_pos. }
  pose proof (zlen_nonneg padding). rewrite zlen_app in Hl.
  destruct (seal_opens sk rmsk riv (AckMessage.encode a ++ padding)) as (ack & Hs & _ & Hu); [done|rewrite zlen_app; lia|].
  exists ack. split; [done|]. cbv zeta. unfold RLPxLocalClient.decode_ack_message. rewrite Hauth, Hu, bind_Ok_l.
  rewrite ack_decodes by (done || unfold isize_max; lia). unfold a. rewrite (secrets_agree c key) by done. cbv zeta. rewrite bind_Ok_l.
  eexists. split; [done|]. rewrite take_drop. done.
Qed.
End Handshakes.

(** ** The theorems *)

(** C16: over two connections that share their secrets every message arrives: whatever
    either end sends and receives in whatever order, starting with a hello, what an end has
    received is a prefix of what the other sent, and the rest is on its way and is received
    message by message without a panic.  Two messages change on the way, because of how they
    are encoded: a pong arrives as a ping, and a disconnect without a reason with the reason
    192 ([received]). *)
Theorem channel_delivers (P : Profile) (C : Ciphers) (L : LawfulCiphers) (a b : RLPxState.t) (s : Channel.t) :
  in_sync a b → in_sync b a → rtc channel_step (Channel.start a b) s →
  delivers (Channel.there s) (Channel.out s) (Channel.sent_here s) (Channel.got_there s) ∧
  delivers (Channel.here s) (Channel.back s) (Channel.sent_there s) (Channel.got_here s).
Proof.
  intros Hab Hba Hs. destruct (linked_reachable _ _ Hs (linked_start a b Hab Hba)) as [L1 L2].
  split; by eapply link_delivers.
Qed.

(** C17: the handshake gives both ends the same connection: the initiator's first message
    opens with the other's static key and names the initiator's key and nonce, and when the
    other end answers with its sealed acknowledgement, the initiator's state is in step, in both
    directions, with the state that the other end derives from its own keys. *)
Theorem handshake_agrees (P : Profile) (C : Ciphers) (L : LawfulCiphers) (nonce : list Z) (ephemeral static remote : SecretKey)
    (padding_length : Z) (message_key : SecretKey) (iv : list Z) :
  is_array 32 nonce → length iv = 16%nat → 0 <= padding_length <= 300 →
  ∃ client auth a zeros, RLPxLocalClient.encode_auth_message static (public_key remote) padding_length message_key iv
      (RLPxLocalClient.new nonce ephemeral) = Ok (client, auth) ∧
    RLPxLocalClient.unseal remote (drop 2 auth) (take 2 auth) = Ok (AuthMessage.encode a ++ zeros) ∧
    AuthMessage.decode_unfinished (AuthMessage.encode a ++ zeros) = Ok (a, zeros) ∧
    id2pubkey (AuthMessage.node_id a) = Some (public_key static) ∧ AuthMessage.nonce a = nonce ∧
    ∀ key remote_nonce id padding remote_message_key remote_iv, length remote_iv = 16%nat → id2pubkey id = Some (public_key key) →
      wf_ack (AckMessage.mk id remote_nonce 5) → zlen (AckMessage.encode (AckMessage.mk id remote_nonce 5) ++ padding) < 65000 →
      ∃ ack state, RLPxLocalClient.seal (public_key static) remote_message_key remote_iv
          (AckMessage.encode (AckMessage.mk id remote_nonce 5) ++ padding) = Ok ack ∧
        RLPxLocalClient.decode_ack_message client static (drop 2 ack) (take 2 ack) = Ok state ∧
        in_sync state (responder key (public_key ephemeral) remote_nonce nonce auth ack) ∧
        in_sync (responder key (public_key ephemeral) remote_nonce nonce auth ack) state.
Proof.
  intros Hn Hiv Hp. destruct (auth_sent (RLPxLocalClient.new nonce ephemeral) static remote padding_length message_key iv Hiv Hn Hp)
    as (auth & a & zeros & He & Hu & Hd & Hid & Hno).
  eexists _, auth, a, zeros. split_and!; try done. intros key rn id padding rmk riv Hriv Hkey Hwf Hl.
  destruct (ack_received (RLPxLocalClient.mk _ nonce ephemeral (Some auth)) static auth key rn 5 id padding rmk riv) as (ack & Hs & st & Hst & H12 & H21); try done.
  by exists ack, st.
Qed.

(** ** Ciphers to run the code with *)
Definition mask : list Z → list Z := map (Z.lxor 85).
Definition last_bytes (l : list Z) : list Z := resize_zero (rev l) 32.
Definition toy_id (k : bool) : list Z := replicate 63 0 ++ [if k then 1 else 0].
Definition toy_point (id : list Z) : option bool :=
  if bool_decide (id = toy_id true) then Some true else if bool_decide (id = toy_id false) then Some false else None.
#[local] Instance toy_ciphers : Ciphers := {|
  PublicKey := bool; SecretKey := bool; public_key := id; to_encoded_point k := 4 :: toy_id k;
  from_sec1_bytes l := toy_point (tail l); from_untagged_bytes := toy_point;
  diffie_hellman a b := replicate 31 0 ++ [if xorb a b then 1 else 0];
  sign_prehash_recoverable _ _ := Some (replicate 64 7, 1); sha256_digest := last_bytes;
  hmac_sha256 k d := last_bytes (k ++ d); concat_kdf s n := Some (resize_zero s (Z.of_nat n));
  aes128_ctr _ _ := Some mask; Ctr := nat; ctr_new _ _ := 0%nat;
  apply_keystream c l := ((c + length l)%nat, mask l); aes256_encrypt _ l := l; keccak := last_bytes;
  max_compress_len n := 32 + n + n / 6; snappy_compress l _ := Some l; snappy_decompress := Some
|}.
Lemma mask_twice l : mask (mask l) = l ∧ length (mask l) = length l.
Proof.
  unfold mask. split; [|by rewrite length_map]. rewrite map_map. rewrite <-(map_id l) at 2. apply map_ext. intros x.
  by rewrite <-Z.lxor_assoc, Z.lxor_nilpotent, Z.lxor_0_l.
Qed.
Lemma last_bytes_length l : length (last_bytes l) = 32%nat.
Proof. pose proof (length_resize (rev l) 32). unfold last_bytes, zlen in *. lia. Qed.
#[local] Instance toy_lawful : LawfulCiphers.
Proof.
  split; cbn [apply_keystream keccak snappy_compress snappy_decompress to_encoded_point from_untagged_bytes from_sec1_bytes diffie_hellman
    public_key aes128_ctr concat_kdf hmac_sha256 sign_prehash_recoverable toy_ciphers].
  - intros c l. destruct (mask_twice l) as [H1 H2]. cbn. by rewrite H1, H2.
  - apply last_bytes_length.
  - intros l Hl. exists l. split_and!; try done. pose proof (zlen_nonneg l). pose proof (Z.div_pos (zlen l) 6). lia.
  - intros k. exists (toy_id k). split_and!; [done|by destruct k; by_decide|by destruct k|by destruct k].
  - intros [] []; done.
  - intros key iv _ _. exists mask. split; [done|]. apply mask_twice.
  - intros l n. eexists. split; [done|]. pose proof (length_resize l (Z.of_nat n)). unfold zlen in *. lia.
  - intros. apply last_bytes_length.
  - done.
  - intros k d _. eexists _, _. split_and!; try done; by_decide.
Qed.

#[local] Instance lab_profile : Profile := dev_profile.
Definition lab_state : RLPxState.t := RLPxState.new (replicate 32 1) (replicate 32 2) (replicate 32 3) [1] (replicate 32 4) [2].
Definition lab_peer : RLPxState.t := RLPxState.new (replicate 32 1) (replicate 32 2) (replicate 32 4) [2] (replicate 32 3) [1].
Definition lab_hello : Message.t := Message.Hello (HelloMessage.new SUPPORTED_CAPABILITIES true).

Lemma channel_delivers_witness : ∃ a bytes b, RLPxConnection.send lab_hello (RLPxConnection.new lab_state) = Ok (a, bytes) ∧
  RLPxConnection.receive (RLPxConnection.new lab_peer) bytes = Ok (b, [], lab_hello) ∧
  delivers b [] [lab_hello] [lab_hello] ∧ delivers a [] [] [].
Proof.
  eexists _, _, _. split; [vm_compute; reflexivity|]. split; [vm_compute; reflexivity|].
  refine (channel_delivers lab_profile toy_ciphers toy_lawful lab_state lab_peer (Channel.mk _ _ _ [] [] [lab_hello] [] [] [lab_hello]) _ _ _).
  - done.
  - done.
  - eapply rtc_l; [eapply (send_here _ _ [] [] [] [] [] [] lab_hello); [by_decide|done|vm_compute; reflexivity]|].
    eapply rtc_l; [|apply rtc_refl]. eapply (receive_there _ _ _ _ _ _ _ []). vm_compute; reflexivity.
Defined.

Lemma handshake_agrees_witness : ∃ client auth ack state,
  RLPxLocalClient.encode_auth_message true (public_key false) 100 true (replicate 16 9)
    (RLPxLocalClient.new (replicate 32 3) true) = Ok (client, auth) ∧
  RLPxLocalClient.seal (public_key true) false (replicate 16 8) (AckMessage.encode (AckMessage.mk (toy_id false) (replicate 32 4) 5) ++ [0]) = Ok ack ∧
  RLPxLocalClient.decode_ack_message client true (drop 2 ack) (take 2 ack) = Ok state ∧
  in_sync state (responder false (public_key true) (replicate 32 4) (replicate 32 3) auth ack).
Proof.
  destruct (handshake_agrees lab_profile toy_ciphers toy_lawful (replicate 32 3) true true false 100 true (replicate 16 9))
    as (c & auth & a & z & He & _ & _ & _ & _ & Hack); [by_decide|done|lia|].
  destruct (Hack false (replicate 32 4) (toy_id false) [0] false (replicate 16 8)) as (ack & st & Hs & Hd & Hsync & _);
    [done|vm_compute; reflexivity|split_and!; by_decide|vm_compute; reflexivity|].
  exists c, auth, ack, st. done.
Defined.
