(* ===== verification/MlirProgram.v ===== *)
(** * Programs of the MLIR virtual machine

    Model of [crates/evm_mlir/src/program.rs]: opcodes, operations, the parser of byte code and
    its inverse.  A [BigUint] is a non-negative [Z]; an index into the code is a [Z]. *)

From S2P Require Import Prelude U256 Effects.

Module Opcode.
Inductive t :=
  | STOP | ADD | MUL | SUB | DIV | SDIV | MOD | SMOD | ADDMOD | MULMOD | EXP | SIGNEXTEND | LT | GT | SLT
  | SGT | EQ | ISZERO | AND | OR | XOR | NOT | BYTE | SHL | SHR | SAR | KECCAK256 | ADDRESS | BALANCE
  | ORIGIN | CALLER | CALLVALUE | CALLDATALOAD | CALLDATASIZE | CALLDATACOPY | CODESIZE | CODECOPY | GASPRICE
  | EXTCODESIZE | EXTCODECOPY | RETURNDATASIZE | RETURNDATACOPY | EXTCODEHASH | BLOCKHASH | COINBASE
  | TIMESTAMP | NUMBER | PREVRANDAO | GASLIMIT | CHAINID | SELFBALANCE | BASEFEE | BLOBHASH | BLOBBASEFEE
  | POP | MLOAD | MSTORE | MSTORE8 | SLOAD | SSTORE | JUMP | JUMPI | PC | MSIZE | GAS | JUMPDEST | TLOAD
  | TSTORE | MCOPY | PUSH0 | PUSH1 | PUSH2 | PUSH3 | PUSH4 | PUSH5 | PUSH6 | PUSH7 | PUSH8 | PUSH9 | PUSH10
  | PUSH11 | PUSH12 | PUSH13 | PUSH14 | PUSH15 | PUSH16 | PUSH17 | PUSH18 | PUSH19 | PUSH20 | PUSH21 | PUSH22
  | PUSH23 | PUSH24 | PUSH25 | PUSH26 | PUSH27 | PUSH28 | PUSH29 | PUSH30 | PUSH31 | PUSH32 | DUP1 | DUP2
  | DUP3 | DUP4 | DUP5 | DUP6 | DUP7 | DUP8 | DUP9 | DUP10 | DUP11 | DUP12 | DUP13 | DUP14 | DUP15 | DUP16
  | SWAP1 | SWAP2 | SWAP3 | SWAP4 | SWAP5 | SWAP6 | SWAP7 | SWAP8 | SWAP9 | SWAP10 | SWAP11 | SWAP12 | SWAP13
  | SWAP14 | SWAP15 | SWAP16 | LOG0 | LOG1 | LOG2 | LOG3 | LOG4 | CREATE | CALL | CALLCODE | RETURN
  | DELEGATECALL | CREATE2 | STATICCALL | REVERT | INVALID | SELFDESTRUCT.
Definition as_u8 (self : t) : Z :=
  match self with
  | STOP => 0x00 | ADD => 0x01 | MUL => 0x02 | SUB => 0x03 | DIV => 0x04 | SDIV => 0x05 | MOD => 0x06
  | SMOD => 0x07 | ADDMOD => 0x08 | MULMOD => 0x09 | EXP => 0x0a | SIGNEXTEND => 0x0b | LT => 0x10
  | GT => 0x11 | SLT => 0x12 | SGT => 0x13 | EQ => 0x14 | ISZERO => 0x15 | AND => 0x16 | OR => 0x17
  | XOR => 0x18 | NOT => 0x19 | BYTE => 0x1a | SHL => 0x1b | SHR => 0x1c | SAR => 0x1d | KECCAK256 => 0x20
  | ADDRESS => 0x30 | BALANCE => 0x31 | ORIGIN => 0x32 | CALLER => 0x33 | CALLVALUE => 0x34
  | CALLDATALOAD => 0x35 | CALLDATASIZE => 0x36 | CALLDATACOPY => 0x37 | CODESIZE => 0x38 | CODECOPY => 0x39
  | GASPRICE => 0x3a | EXTCODESIZE => 0x3b | EXTCODECOPY => 0x3c | RETURNDATASIZE => 0x3d
  | RETURNDATACOPY => 0x3e | EXTCODEHASH => 0x3f | BLOCKHASH => 0x40 | COINBASE => 0x41 | TIMESTAMP => 0x42
  | NUMBER => 0x43 | PREVRANDAO => 0x44 | GASLIMIT => 0x45 | CHAINID => 0x46 | SELFBALANCE => 0x47
  | BASEFEE => 0x48 | BLOBHASH => 0x49 | BLOBBASEFEE => 0x4a | POP => 0x50 | MLOAD => 0x51 | MSTORE => 0x52
  | MSTORE8 => 0x53 | SLOAD => 0x54 | SSTORE => 0x55 | JUMP => 0x56 | JUMPI => 0x57 | PC => 0x58
  | MSIZE => 0x59 | GAS => 0x5a | JUMPDEST => 0x5b | TLOAD => 0x5c | TSTORE => 0x5d | MCOPY => 0x5e
  | PUSH0 => 0x5f | PUSH1 => 0x60 | PUSH2 => 0x61 | PUSH3 => 0x62 | PUSH4 => 0x63 | PUSH5 => 0x64
  | PUSH6 => 0x65 | PUSH7 => 0x66 | PUSH8 => 0x67 | PUSH9 => 0x68 | PUSH10 => 0x69 | PUSH11 => 0x6a
  | PUSH12 => 0x6b | PUSH13 => 0x6c | PUSH14 => 0x6d | PUSH15 => 0x6e | PUSH16 => 0x6f | PUSH17 => 0x70
  | PUSH18 => 0x71 | PUSH19 => 0x72 | PUSH20 => 0x73 | PUSH21 => 0x74 | PUSH22 => 0x75 | PUSH23 => 0x76
  | PUSH24 => 0x77 | PUSH25 => 0x78 | PUSH26 => 0x79 | PUSH27 => 0x7a | PUSH28 => 0x7b | PUSH29 => 0x7c
  | PUSH30 => 0x7d | PUSH31 => 0x7e | PUSH32 => 0x7f | DUP1 => 0x80 | DUP2 => 0x81 | DUP3 => 0x82
  | DUP4 => 0x83 | DUP5 => 0x84 | DUP6 => 0x85 | DUP7 => 0x86 | DUP8 => 0x87 | DUP9 => 0x88 | DUP10 => 0x89
  | DUP11 => 0x8a | DUP12 => 0x8b | DUP13 => 0x8c | DUP14 => 0x8d | DUP15 => 0x8e | DUP16 => 0x8f
  | SWAP1 => 0x90 | SWAP2 => 0x91 | SWAP3 => 0x92 | SWAP4 => 0x93 | SWAP5 => 0x94 | SWAP6 => 0x95
  | SWAP7 => 0x96 | SWAP8 => 0x97 | SWAP9 => 0x98 | SWAP10 => 0x99 | SWAP11 => 0x9a | SWAP12 => 0x9b
  | SWAP13 => 0x9c | SWAP14 => 0x9d | SWAP15 => 0x9e | SWAP16 => 0x9f | LOG0 => 0xa0 | LOG1 => 0xa1
  | LOG2 => 0xa2 | LOG3 => 0xa3 | LOG4 => 0xa4 | CREATE => 0xf0 | CALL => 0xf1 | CALLCODE => 0xf2
  | RETURN => 0xf3 | DELEGATECALL => 0xf4 | CREATE2 => 0xf5 | STATICCALL => 0xfa | REVERT => 0xfd
  | INVALID => 0xfe | SELFDESTRUCT => 0xff
  end.
(** The opcodes in the order in which [try_from] compares them. *)
Definition tried : list t :=
  [STOP; ADD; MUL; SUB; DIV; SDIV; MOD; SMOD; ADDMOD; MULMOD; EXP; SIGNEXTEND; LT; GT; SLT; SGT; EQ; ISZERO;
  AND; OR; XOR; NOT; BYTE; SHL; SHR; SAR; KECCAK256; ADDRESS; BALANCE; ORIGIN; CALLER; CALLVALUE;
  CALLDATALOAD; CALLDATASIZE; CALLDATACOPY; CODESIZE; CODECOPY; GASPRICE; EXTCODESIZE; EXTCODECOPY;
  RETURNDATASIZE; RETURNDATACOPY; EXTCODEHASH; BLOCKHASH; COINBASE; TIMESTAMP; NUMBER; PREVRANDAO; GASLIMIT;
  CHAINID; SELFBALANCE; BASEFEE; BLOBHASH; BLOBBASEFEE; POP; MLOAD; MSTORE; MSTORE8; SLOAD; SSTORE; JUMP;
  JUMPI; PC; MSIZE; GAS; JUMPDEST; TLOAD; TSTORE; MCOPY; PUSH0; PUSH1; PUSH2; PUSH3; PUSH4; PUSH5; PUSH6;
  PUSH7; PUSH8; PUSH9; PUSH10; PUSH11; PUSH12; PUSH13; PUSH14; PUSH15; PUSH16; PUSH17; PUSH18; PUSH19;
  PUSH20; PUSH21; PUSH22; PUSH23; PUSH24; PUSH25; PUSH26; PUSH27; PUSH28; PUSH29; PUSH30; PUSH31; PUSH32;
  DUP1; DUP2; DUP3; DUP4; DUP5; DUP6; DUP7; DUP8; DUP9; DUP10; DUP11; DUP12; DUP13; DUP14; DUP15; DUP16;
  SWAP1; SWAP2; SWAP3; SWAP4; SWAP5; SWAP6; SWAP7; SWAP8; SWAP9; SWAP10; SWAP11; SWAP12; SWAP13; SWAP14;
  SWAP15; SWAP16; LOG0; LOG1; LOG2; LOG3; LOG4; CREATE; CALL; CALLCODE; RETURN; DELEGATECALL; CREATE2;
  STATICCALL; REVERT; SELFDESTRUCT].
(** An unknown byte is the error. *)
Definition try_from (opcode : Z) : res Z t :=
  match find (λ o, opcode =? as_u8 o) tried with Some o => Ok o | None => Err opcode end.
End Opcode.

Module Operation.
Inductive t :=
  | Stop | Add | Mul | Sub | Div | Sdiv | Mod | SMod | Addmod | Mulmod | Exp | SignExtend | Lt | Gt | Slt
  | Sgt | Eq | IsZero | And | Or | Xor | Not | Byte | Shl | Shr | Sar | Keccak256 | Address | Balance
  | Origin | Caller | Callvalue | CalldataLoad | CallDataSize | CallDataCopy | Codesize | Codecopy | Gasprice
  | ExtcodeSize | ExtcodeCopy | ReturnDataSize | ReturnDataCopy | ExtcodeHash | BlockHash | Coinbase
  | Timestamp | Number | Prevrandao | Gaslimit | Chainid | SelfBalance | Basefee | BlobHash | BlobBaseFee
  | Pop | Mload | Mstore | Mstore8 | Sload | Sstore | Jump | Jumpi | PC (pc : Z) | Msize | Gas
  | Jumpdest (pc : Z) | Tload | Tstore | Mcopy | Push0 | Push (n x : Z) | Dup (n : Z) | Swap (n : Z)
  | Log (n : Z) | Create | Call | CallCode | Return | DelegateCall | Create2 | StaticCall | Revert | Invalid
  | SelfDestruct.
Section Bytes.
Context `{Profile}.
(** The shortest big-endian form; zero is one byte. *)
Definition to_bytes_be (x : Z) : list Z := if x =? 0 then [0] else to_be (Z.to_nat (Z.log2 x / 8 + 1)) x.
Definition byte_add (a b : Z) : pres Z := checked 8 (a + b).
Definition byte_sub (a b : Z) : pres Z := checked 8 (a - b).
Definition push_bytecode (n x : Z) : pres (list Z) :=
  let len := 1 + n in
  opcode ← byte_add (Opcode.as_u8 Opcode.PUSH0) n;
  let opcode_bytes := opcode :: replicate (Z.to_nat n) 0 in
  let bytes := to_bytes_be x in
  if len <? zlen bytes then Panic else Ok (take (Z.to_nat (len - zlen bytes)) opcode_bytes ++ bytes).
Definition to_bytecode (self : t) : pres (list Z) :=
  match self with
  | Stop => Ok [Opcode.as_u8 Opcode.STOP] | Add => Ok [Opcode.as_u8 Opcode.ADD] | Mul => Ok [Opcode.as_u8 Opcode.MUL]
  | Sub => Ok [Opcode.as_u8 Opcode.SUB] | Div => Ok [Opcode.as_u8 Opcode.DIV] | Sdiv => Ok [Opcode.as_u8 Opcode.SDIV]
  | Mod => Ok [Opcode.as_u8 Opcode.MOD] | SMod => Ok [Opcode.as_u8 Opcode.SMOD] | Addmod => Ok [Opcode.as_u8 Opcode.ADDMOD]
  | Mulmod => Ok [Opcode.as_u8 Opcode.MULMOD] | Exp => Ok [Opcode.as_u8 Opcode.EXP]
  | SignExtend => Ok [Opcode.as_u8 Opcode.SIGNEXTEND] | Lt => Ok [Opcode.as_u8 Opcode.LT] | Gt => Ok [Opcode.as_u8 Opcode.GT]
  | Slt => Ok [Opcode.as_u8 Opcode.SLT] | Sgt => Ok [Opcode.as_u8 Opcode.SGT] | Eq => Ok [Opcode.as_u8 Opcode.EQ]
  | IsZero => Ok [Opcode.as_u8 Opcode.ISZERO] | And => Ok [Opcode.as_u8 Opcode.AND] | Or => Ok [Opcode.as_u8 Opcode.OR]
  | Xor => Ok [Opcode.as_u8 Opcode.XOR] | Not => Ok [Opcode.as_u8 Opcode.NOT] | Byte => Ok [Opcode.as_u8 Opcode.BYTE]
  | Shl => Ok [Opcode.as_u8 Opcode.SHL] | Shr => Ok [Opcode.as_u8 Opcode.SHR] | Sar => Ok [Opcode.as_u8 Opcode.SAR]
  | Keccak256 => Ok [Opcode.as_u8 Opcode.KECCAK256] | Address => Ok [Opcode.as_u8 Opcode.ADDRESS]
  | Balance => Ok [Opcode.as_u8 Opcode.BALANCE] | Origin => Ok [Opcode.as_u8 Opcode.ORIGIN]
  | Caller => Ok [Opcode.as_u8 Opcode.CALLER] | Callvalue => Ok [Opcode.as_u8 Opcode.CALLVALUE]
  | CalldataLoad => Ok [Opcode.as_u8 Opcode.CALLDATALOAD] | CallDataSize => Ok [Opcode.as_u8 Opcode.CALLDATASIZE]
  | CallDataCopy => Ok [Opcode.as_u8 Opcode.CALLDATACOPY] | Codesize => Ok [Opcode.as_u8 Opcode.CODESIZE]
  | Codecopy => Ok [Opcode.as_u8 Opcode.CODECOPY] | Gasprice => Ok [Opcode.as_u8 Opcode.GASPRICE]
  | ExtcodeCopy => Ok [Opcode.as_u8 Opcode.EXTCODECOPY] | ReturnDataSize => Ok [Opcode.as_u8 Opcode.RETURNDATASIZE]
  | ReturnDataCopy => Ok [Opcode.as_u8 Opcode.RETURNDATACOPY] | ExtcodeHash => Ok [Opcode.as_u8 Opcode.EXTCODEHASH]
  | BlockHash => Ok [Opcode.as_u8 Opcode.BLOCKHASH] | ExtcodeSize => Ok [Opcode.as_u8 Opcode.EXTCODESIZE]
  | Coinbase => Ok [Opcode.as_u8 Opcode.COINBASE] | Timestamp => Ok [Opcode.as_u8 Opcode.TIMESTAMP]
  | Number => Ok [Opcode.as_u8 Opcode.NUMBER] | Prevrandao => Ok [Opcode.as_u8 Opcode.PREVRANDAO]
  | Gaslimit => Ok [Opcode.as_u8 Opcode.GASLIMIT] | Chainid => Ok [Opcode.as_u8 Opcode.CHAINID]
  | SelfBalance => Ok [Opcode.as_u8 Opcode.SELFBALANCE] | Basefee => Ok [Opcode.as_u8 Opcode.BASEFEE]
  | BlobHash => Ok [Opcode.as_u8 Opcode.BLOBHASH] | BlobBaseFee => Ok [Opcode.as_u8 Opcode.BLOBBASEFEE]
  | Pop => Ok [Opcode.as_u8 Opcode.POP] | Mload => Ok [Opcode.as_u8 Opcode.MLOAD] | Mstore => Ok [Opcode.as_u8 Opcode.MSTORE]
  | Mstore8 => Ok [Opcode.as_u8 Opcode.MSTORE8] | Sload => Ok [Opcode.as_u8 Opcode.SLOAD]
  | Sstore => Ok [Opcode.as_u8 Opcode.SSTORE] | Jump => Ok [Opcode.as_u8 Opcode.JUMP] | Jumpi => Ok [Opcode.as_u8 Opcode.JUMPI]
  | PC _ => Ok [Opcode.as_u8 Opcode.PC] | Msize => Ok [Opcode.as_u8 Opcode.MSIZE] | Gas => Ok [Opcode.as_u8 Opcode.GAS]
  | Jumpdest _ => Ok [Opcode.as_u8 Opcode.JUMPDEST] | Tload => Ok [Opcode.as_u8 Opcode.TLOAD]
  | Tstore => Ok [Opcode.as_u8 Opcode.TSTORE] | Mcopy => Ok [Opcode.as_u8 Opcode.MCOPY] | Push0 => Ok [Opcode.as_u8 Opcode.PUSH0]
  | Push n x => push_bytecode n x | Dup n => b ← byte_add (Opcode.as_u8 Opcode.DUP1) n; b ← byte_sub b 1; Ok [b]
  | Swap n => b ← byte_add (Opcode.as_u8 Opcode.SWAP1) n; b ← byte_sub b 1; Ok [b]
  | Log n => b ← byte_add (Opcode.as_u8 Opcode.LOG0) n; Ok [b] | Create => Ok [Opcode.as_u8 Opcode.CREATE]
  | Call => Ok [Opcode.as_u8 Opcode.CALL] | CallCode => Ok [Opcode.as_u8 Opcode.CALLCODE]
  | Return => Ok [Opcode.as_u8 Opcode.RETURN] | DelegateCall => Ok [Opcode.as_u8 Opcode.DELEGATECALL]
  | Create2 => Ok [Opcode.as_u8 Opcode.CREATE2] | StaticCall => Ok [Opcode.as_u8 Opcode.STATICCALL]
  | Revert => Ok [Opcode.as_u8 Opcode.REVERT] | Invalid => Ok [Opcode.as_u8 Opcode.INVALID]
  | SelfDestruct => Ok [Opcode.as_u8 Opcode.SELFDESTRUCT]
  end.
End Bytes.
End Operation.

Record Program := mkProgram { operations : list Operation.t; code_size : Z }.
Section Parsing.
Context `{Profile}.

(** The arms of [PUSH1] to [PUSH32]: what is left of the data, when the code ends in it, is
    taken for all of it. *)
Definition parse_push (bytecode : list Z) (pc n : Z) : pres (Operation.t * Z) :=
  let pc := pc + 1 in
  x ← slice bytecode pc (Z.min (zlen bytecode) (pc + n));
  Ok (Operation.Push n (of_be x), pc + n).
Definition parse_operation (bytecode : list Z) (pc : Z) : res Z (Operation.t * Z) :=
  b ← index bytecode pc;
  opcode ← Opcode.try_from b;
  let simple op := Ok (op, pc + 1) in
  match opcode with
  | Opcode.STOP => simple Operation.Stop | Opcode.ADD => simple Operation.Add | Opcode.MUL => simple Operation.Mul
  | Opcode.SUB => simple Operation.Sub | Opcode.DIV => simple Operation.Div | Opcode.SDIV => simple Operation.Sdiv
  | Opcode.MOD => simple Operation.Mod | Opcode.SMOD => simple Operation.SMod | Opcode.ADDMOD => simple Operation.Addmod
  | Opcode.MULMOD => simple Operation.Mulmod | Opcode.EXP => simple Operation.Exp
  | Opcode.SIGNEXTEND => simple Operation.SignExtend | Opcode.LT => simple Operation.Lt | Opcode.GT => simple Operation.Gt
  | Opcode.SLT => simple Operation.Slt | Opcode.SGT => simple Operation.Sgt | Opcode.EQ => simple Operation.Eq
  | Opcode.ISZERO => simple Operation.IsZero | Opcode.AND => simple Operation.And | Opcode.OR => simple Operation.Or
  | Opcode.XOR => simple Operation.Xor | Opcode.NOT => simple Operation.Not | Opcode.BYTE => simple Operation.Byte
  | Opcode.SHL => simple Operation.Shl | Opcode.SHR => simple Operation.Shr | Opcode.SAR => simple Operation.Sar
  | Opcode.KECCAK256 => simple Operation.Keccak256 | Opcode.ADDRESS => simple Operation.Address
  | Opcode.BALANCE => simple Operation.Balance | Opcode.ORIGIN => simple Operation.Origin
  | Opcode.CALLER => simple Operation.Caller | Opcode.CALLVALUE => simple Operation.Callvalue
  | Opcode.CALLDATALOAD => simple Operation.CalldataLoad | Opcode.CALLDATASIZE => simple Operation.CallDataSize
  | Opcode.CALLDATACOPY => simple Operation.CallDataCopy | Opcode.CODESIZE => simple Operation.Codesize
  | Opcode.CODECOPY => simple Operation.Codecopy | Opcode.GASPRICE => simple Operation.Gasprice
  | Opcode.EXTCODESIZE => simple Operation.ExtcodeSize | Opcode.EXTCODECOPY => simple Operation.ExtcodeCopy
  | Opcode.RETURNDATASIZE => simple Operation.ReturnDataSize | Opcode.RETURNDATACOPY => simple Operation.ReturnDataCopy
  | Opcode.EXTCODEHASH => simple Operation.ExtcodeHash | Opcode.BLOCKHASH => simple Operation.BlockHash
  | Opcode.COINBASE => simple Operation.Coinbase | Opcode.TIMESTAMP => simple Operation.Timestamp
  | Opcode.NUMBER => simple Operation.Number | Opcode.PREVRANDAO => simple Operation.Prevrandao
  | Opcode.GASLIMIT => simple Operation.Gaslimit | Opcode.CHAINID => simple Operation.Chainid
  | Opcode.SELFBALANCE => simple Operation.SelfBalance | Opcode.BASEFEE => simple Operation.Basefee
  | Opcode.BLOBHASH => simple Operation.BlobHash | Opcode.BLOBBASEFEE => simple Operation.BlobBaseFee
  | Opcode.POP => simple Operation.Pop | Opcode.MLOAD => simple Operation.Mload | Opcode.MSTORE => simple Operation.Mstore
  | Opcode.MSTORE8 => simple Operation.Mstore8 | Opcode.SLOAD => simple Operation.Sload
  | Opcode.SSTORE => simple Operation.Sstore | Opcode.JUMP => simple Operation.Jump | Opcode.JUMPI => simple Operation.Jumpi
  | Opcode.PC => simple (Operation.PC pc) | Opcode.MSIZE => simple Operation.Msize | Opcode.GAS => simple Operation.Gas
  | Opcode.JUMPDEST => simple (Operation.Jumpdest pc) | Opcode.TLOAD => simple Operation.Tload
  | Opcode.TSTORE => simple Operation.Tstore | Opcode.MCOPY => simple Operation.Mcopy | Opcode.PUSH0 => simple Operation.Push0
  | Opcode.PUSH1 => no_err (parse_push bytecode pc 1) | Opcode.PUSH2 => no_err (parse_push bytecode pc 2)
  | Opcode.PUSH3 => no_err (parse_push bytecode pc 3) | Opcode.PUSH4 => no_err (parse_push bytecode pc 4)
  | Opcode.PUSH5 => no_err (parse_push bytecode pc 5) | Opcode.PUSH6 => no_err (parse_push bytecode pc 6)
  | Opcode.PUSH7 => no_err (parse_push bytecode pc 7) | Opcode.PUSH8 => no_err (parse_push bytecode pc 8)
  | Opcode.PUSH9 => no_err (parse_push bytecode pc 9) | Opcode.PUSH10 => no_err (parse_push bytecode pc 10)
  | Opcode.PUSH11 => no_err (parse_push bytecode pc 11) | Opcode.PUSH12 => no_err (parse_push bytecode pc 12)
  | Opcode.PUSH13 => no_err (parse_push bytecode pc 13) | Opcode.PUSH14 => no_err (parse_push bytecode pc 14)
  | Opcode.PUSH15 => no_err (parse_push bytecode pc 15) | Opcode.PUSH16 => no_err (parse_push bytecode pc 16)
  | Opcode.PUSH17 => no_err (parse_push bytecode pc 17) | Opcode.PUSH18 => no_err (parse_push bytecode pc 18)
  | Opcode.PUSH19 => no_err (parse_push bytecode pc 19) | Opcode.PUSH20 => no_err (parse_push bytecode pc 20)
  | Opcode.PUSH21 => no_err (parse_push bytecode pc 21) | Opcode.PUSH22 => no_err (parse_push bytecode pc 22)
  | Opcode.PUSH23 => no_err (parse_push bytecode pc 23) | Opcode.PUSH24 => no_err (parse_push bytecode pc 24)
  | Opcode.PUSH25 => no_err (parse_push bytecode pc 25) | Opcode.PUSH26 => no_err (parse_push bytecode pc 26)
  | Opcode.PUSH27 => no_err (parse_push bytecode pc 27) | Opcode.PUSH28 => no_err (parse_push bytecode pc 28)
  | Opcode.PUSH29 => no_err (parse_push bytecode pc 29) | Opcode.PUSH30 => no_err (parse_push bytecode pc 30)
  | Opcode.PUSH31 => no_err (parse_push bytecode pc 31) | Opcode.PUSH32 => no_err (parse_push bytecode pc 32)
  | Opcode.DUP1 => simple (Operation.Dup 1) | Opcode.DUP2 => simple (Operation.Dup 2) | Opcode.DUP3 => simple (Operation.Dup 3)
  | Opcode.DUP4 => simple (Operation.Dup 4) | Opcode.DUP5 => simple (Operation.Dup 5) | Opcode.DUP6 => simple (Operation.Dup 6)
  | Opcode.DUP7 => simple (Operation.Dup 7) | Opcode.DUP8 => simple (Operation.Dup 8) | Opcode.DUP9 => simple (Operation.Dup 9)
  | Opcode.DUP10 => simple (Operation.Dup 10) | Opcode.DUP11 => simple (Operation.Dup 11)
  | Opcode.DUP12 => simple (Operation.Dup 12) | Opcode.DUP13 => simple (Operation.Dup 13)
  | Opcode.DUP14 => simple (Operation.Dup 14) | Opcode.DUP15 => simple (Operation.Dup 15)
  | Opcode.DUP16 => simple (Operation.Dup 16) | Opcode.SWAP1 => simple (Operation.Swap 1)
  | Opcode.SWAP2 => simple (Operation.Swap 2) | Opcode.SWAP3 => simple (Operation.Swap 3)
  | Opcode.SWAP4 => simple (Operation.Swap 4) | Opcode.SWAP5 => simple (Operation.Swap 5)
  | Opcode.SWAP6 => simple (Operation.Swap 6) | Opcode.SWAP7 => simple (Operation.Swap 7)
  | Opcode.SWAP8 => simple (Operation.Swap 8) | Opcode.SWAP9 => simple (Operation.Swap 9)
  | Opcode.SWAP10 => simple (Operation.Swap 10) | Opcode.SWAP11 => simple (Operation.Swap 11)
  | Opcode.SWAP12 => simple (Operation.Swap 12) | Opcode.SWAP13 => simple (Operation.Swap 13)
  | Opcode.SWAP14 => simple (Operation.Swap 14) | Opcode.SWAP15 => simple (Operation.Swap 15)
  | Opcode.SWAP16 => simple (Operation.Swap 16) | Opcode.LOG0 => simple (Operation.Log 0)
  | Opcode.LOG1 => simple (Operation.Log 1) | Opcode.LOG2 => simple (Operation.Log 2) | Opcode.LOG3 => simple (Operation.Log 3)
  | Opcode.LOG4 => simple (Operation.Log 4) | Opcode.CREATE => simple Operation.Create | Opcode.CALL => simple Operation.Call
  | Opcode.CALLCODE => simple Operation.CallCode | Opcode.RETURN => simple Operation.Return
  | Opcode.DELEGATECALL => simple Operation.DelegateCall | Opcode.CREATE2 => simple Operation.Create2
  | Opcode.STATICCALL => simple Operation.StaticCall | Opcode.REVERT => simple Operation.Revert
  | Opcode.INVALID => simple Operation.Invalid | Opcode.SELFDESTRUCT => simple Operation.SelfDestruct
  end.

(** The sum of [u32]s. *)
Definition operation_size (op : Operation.t) : Z := match op with Operation.Push size _ => size + 1 | _ => 1 end.
Fixpoint sum_u32 (acc : Z) (l : list Z) : pres Z :=
  match l with [] => Ok acc | x :: l => acc ← checked 32 (acc + x); sum_u32 acc l end.
Definition get_codesize (operations : list Operation.t) : pres Z := sum_u32 0 (map operation_size operations).
Definition from_operations (operations : list Operation.t) : pres Program :=
  code_size ← get_codesize operations; Ok (mkProgram operations code_size).

(** The loop of both parsers: the operations, with an [Invalid] for every byte that is no
    opcode when [keep], and those bytes.  Every round reads a byte. *)
Fixpoint parse_loop (keep : bool) (fuel : nat) (bytecode : list Z) (pc : Z) : pres (list Operation.t * list Z) :=
  if zlen bytecode <=? pc then Ok ([], [])
  else
    match fuel with
    | O => OutOfFuel
    | S fuel =>
      match parse_operation bytecode pc with
      | Ok (op, new_pc) => '(ops, failed) ← parse_loop keep fuel bytecode new_pc; Ok (op :: ops, failed)
      | Err e => '(ops, failed) ← parse_loop keep fuel bytecode (pc + 1);
               Ok (if keep then Operation.Invalid :: ops else ops, e :: failed)
      | Panic => Panic
      | OutOfFuel => OutOfFuel
      end
    end.
Definition from_bytecode_checked (bytecode : list Z) : res (list Z) Program :=
  '(operations, failed_opcodes) ← no_err (parse_loop false (length bytecode) bytecode 0);
  code_size ← no_err (get_codesize operations);
  match failed_opcodes with
  | [] => Ok (mkProgram operations code_size)
  | _ => Err failed_opcodes
  end.
Definition from_bytecode (bytecode : list Z) : pres Program :=
  '(operations, _) ← parse_loop true (length bytecode) bytecode 0;
  from_operations operations.
Fixpoint concat_bytecode (l : list Operation.t) : pres (list Z) :=
  match l with [] => Ok [] | op :: l => b ← Operation.to_bytecode op; r ← concat_bytecode l; Ok (b ++ r) end.
Definition to_bytecode (self : Program) : pres (list Z) := concat_bytecode (operations self).
End Parsing.
