(* ===== verification/MlirProgramLaws.v ===== *)
(** * Programs: jump destinations and round trips

    The parser of byte code finds the instructions of the yellow paper: its jump
    destinations are those outside of pushed data, and complete programs of known opcodes
    print back to themselves. *)

From S2P Require Import Prelude U256 Effects MlirProgram.

(** ** The instructions of a code *)

(** The yellow paper's N: the data of a push is no instruction. *)
Definition next_instruction (i b : Z) : Z := if (0x60 <=? b) && (b <=? 0x7f) then i + (b - 0x5f) + 1 else i + 1.
Inductive instruction_at (code : list Z) (start : Z) : Z → Prop :=
  | instruction_first : instruction_at code start start
  | instruction_next i b : instruction_at code start i → index (E:=never) code i = Ok b → instruction_at code start (next_instruction i b).
Definition defined (b : Z) : Prop := ∃ o, o ≠ Opcode.INVALID ∧ Opcode.as_u8 o = b.

Lemma next_instruction_gt i b : i < next_instruction i b.
Proof. unfold next_instruction. destruct (Z.leb_spec 0x60 b), (Z.leb_spec b 0x7f); cbn; lia. Qed.
Lemma instruction_step code start i :
  instruction_at code start i ↔ i = start ∨ ∃ b, index (E:=never) code start = Ok b ∧ instruction_at code (next_instruction start b) i.
Proof.
  split.
  - induction 1 as [|i b Hi IH Hb]; [by left|]. right. destruct IH as [->|(b' & Hb' & Hi')].
    + exists b. split; [done|constructor].
    + exists b'. split; [done|]. by econstructor.
  - intros [->|(b & Hb & Hi)]; [constructor|]. induction Hi; [econstructor; [constructor|done]|by econstructor].
Qed.

Lemma find_opcode b o : find (λ o, b =? Opcode.as_u8 o) Opcode.tried = Some o → Opcode.as_u8 o = b ∧ o ≠ Opcode.INVALID.
Proof.
  intros Hf. apply find_some in Hf as [Hin He]. apply Z.eqb_eq in He. split; [done|]. intros ->.
  unfold Opcode.tried in Hin. cbn in Hin. repeat (destruct Hin as [Hin|Hin]; [discriminate|]). done.
Qed.
Lemma try_from_defined b : defined b ↔ ∃ o, Opcode.try_from b = Ok o.
Proof.
  unfold Opcode.try_from. split.
  - intros (o & Ho & <-). destruct o; try done; vm_compute; eauto.
  - intros [o Ho]. destruct (find _ _) as [o'|] eqn:Hf; [|done]. simplify_eq. apply find_opcode in Hf as [<- Hne]. by exists o.
Qed.

Section Parsing.
Context `{Profile}.

Lemma byte_in_range {E} (l : list Z) i b : index (E:=E) l i = Ok b → 0 <= i < zlen l ∧ index (E:=never) l i = Ok b.
Proof.
  unfold index, unwrap, zlen. destruct (Z.leb_spec 0 i); [|done]. destruct (l !! Z.to_nat i) eqn:Hl; [|done]. intros Hb. simplify_eq.
  apply lookup_lt_Some in Hl. split; [lia|done].
Qed.
Lemma index_zdrop {E} (l : list Z) i b : index (E:=E) l i = Ok b → zdrop i l = b :: zdrop (i + 1) l.
Proof.
  unfold index, unwrap, zdrop. destruct (Z.leb_spec 0 i); [|done]. destruct (l !! Z.to_nat i) eqn:Hl; [|done]. intros Hb. simplify_eq.
  rewrite (drop_S _ _ _ Hl). do 2 f_equal. lia.
Qed.
Lemma index_total {E} (l : list Z) i : 0 <= i < zlen l → ∃ b, index (E:=E) l i = Ok b.
Proof.
  unfold index, unwrap, zlen. intros Hi. rewrite (proj2 (Z.leb_le _ _)) by lia.
  destruct (lookup_lt_is_Some_2 l (Z.to_nat i)) as [b ->]; [lia|]. by exists b.
Qed.

(** A push writes the bytes that it was read from. *)
Lemma to_bytes_be_spec x n : (0 < n)%nat → 0 <= x < 256 ^ Z.of_nat n →
  of_be (Operation.to_bytes_be x) = x ∧ bytes_ok (Operation.to_bytes_be x) ∧ (1 <= length (Operation.to_bytes_be x) <= n)%nat.
Proof.
  intros Hn Hx. unfold Operation.to_bytes_be. destruct (Z.eqb_spec x 0) as [->|Hne]; [by split_and!; [done|repeat constructor|cbn; lia|cbn; lia]|].
  assert (Z.log2 x < 8 * Z.of_nat n) as Hlog by (apply Z.log2_lt_pow2; [lia|]; rewrite Z.pow_mul_r by lia; change (2 ^ 8) with 256; lia).
  assert (0 < Z.log2 x / 8 + 1 <= Z.of_nat n ∧ Z.log2 x < 8 * (Z.log2 x / 8 + 1)) as [Hm Hl] by (pose proof (Z.log2_nonneg x); divlia).
  set (m := Z.log2 x / 8 + 1) in *.
  split_and!; [|apply to_be_bytes|rewrite to_be_length; lia|rewrite to_be_length; lia].
  apply of_be_to_be_small. rewrite Z2Nat.id by lia. change 256 with (2 ^ 8). rewrite <-Z.pow_mul_r by lia.
  split; [lia|]. apply Z.log2_lt_pow2; lia.
Qed.
Lemma push_bytecode_of_be n l : 1 <= n <= 32 → zlen l = n → bytes_ok l → Operation.push_bytecode n (of_be l) = Ok (0x5f + n :: l).
Proof.
  intros Hn Hl Hb. unfold Operation.push_bytecode, Operation.byte_add, checked, in_width. cbn [Opcode.as_u8].
  rewrite (proj2 (Z.leb_le _ _)) by lia. rewrite (proj2 (Z.ltb_lt (0x5f + n) (2 ^ 8))) by lia. cbn [andb]. rewrite bind_Ok_l.
  pose proof (of_be_range l Hb) as Hr. rewrite Hl in Hr.
  destruct (to_bytes_be_spec (of_be l) (Z.to_nat n)) as (Ho & Hob & Hlen); [lia|rewrite Z2Nat.id by lia; lia|].
  set (k := Operation.to_bytes_be (of_be l)) in *. unfold zlen in *. rewrite (proj2 (Z.ltb_ge _ _)) by lia. f_equal.
  replace (Z.to_nat (1 + n - Z.of_nat (length k))) with (S (Z.to_nat n - length k)) by lia. cbn [take app]. f_equal.
  rewrite take_replicate, Nat.min_l by lia. apply of_be_inj; [|done| |].
  - apply Forall_app. split; [|done]. apply Forall_replicate. done.
  - rewrite length_app, length_replicate. lia.
  - by rewrite of_be_zeros.
Qed.

(** One round of the loop. *)
Lemma parse_push_ok code pc n : 1 <= n <= 32 → 0 <= pc < zlen code → index (E:=never) code pc = Ok (0x5f + n) →
  ∃ x, parse_push code pc n = Ok (Operation.Push n x, pc + 1 + n) ∧
    (pc + 1 + n <= zlen code → bytes_ok code → Operation.push_bytecode n x = Ok (ztake (n + 1) (zdrop pc code))).
Proof.
  intros Hn Hpc Hb. unfold parse_push. rewrite slice_ok by lia. rewrite bind_Ok_l. eexists. split; [done|]. intros Hl Hok.
  rewrite Z.min_r by lia. replace (pc + 1 + n - (pc + 1)) with n by lia.
  assert (zlen (ztake n (zdrop (pc + 1) code)) = n) as Hz.
  { unfold zlen, ztake, zdrop in *. rewrite length_take, length_drop. lia. }
  rewrite push_bytecode_of_be; [|done|done|]. 2: { apply Forall_take, Forall_drop, Hok. }
  f_equal. rewrite (index_zdrop _ _ _ Hb). unfold ztake. replace (Z.to_nat (n + 1)) with (S (Z.to_nat n)) by lia. done.
Qed.
(** What a round reads, as a predicate. *)
Definition reads (code : list Z) (pc b : Z) (r : res Z (Operation.t * Z)) : Prop :=
  ∃ op, r = Ok (op, next_instruction pc b) ∧ (∀ i, op = Operation.Jumpdest i ↔ b = 0x5b ∧ i = pc) ∧
    operation_size op = next_instruction pc b - pc ∧
    (next_instruction pc b <= zlen code → bytes_ok code → Operation.to_bytecode op = Ok (ztake (next_instruction pc b - pc) (zdrop pc code))).
Lemma simple_reads code pc b op : index (E:=Z) code pc = Ok b → (0x60 <=? b) && (b <=? 0x7f) = false →
  (∀ i, op = Operation.Jumpdest i ↔ b = 0x5b ∧ i = pc) → operation_size op = 1 → Operation.to_bytecode op = Ok [b] →
  reads code pc b (Ok (op, pc + 1)).
Proof.
  intros Hb Hp Hj Hs Ht. exists op. unfold next_instruction. rewrite Hp. replace (pc + 1 - pc) with 1 by lia. split_and!; try done. intros _ _. by rewrite (index_zdrop _ _ _ Hb).
Qed.
Lemma push_reads code pc n : index (E:=Z) code pc = Ok (0x5f + n) → 1 <= n <= 32 → reads code pc (0x5f + n) (no_err (parse_push code pc n)).
Proof.
  intros Hb Hn. apply byte_in_range in Hb as [Hpc Hb]. destruct (parse_push_ok code pc n Hn Hpc Hb) as (x & -> & Ht). unfold reads, next_instruction.
  rewrite (proj2 (Z.leb_le _ _)), (proj2 (Z.leb_le (0x5f + n) _)) by lia. cbn [andb]. replace (pc + (95 + n - 95) + 1) with (pc + 1 + n) by lia.
  exists (Operation.Push n x). replace (pc + 1 + n - pc) with (n + 1) by lia.
  split; [done|split; [intros i; split; [done|lia]|split; [done|]]]. intros Hl Hok. by apply Ht.
Qed.
Lemma parse_operation_ok code pc b : index (E:=Z) code pc = Ok b → defined b → reads code pc b (parse_operation code pc).
Proof.
  intros Hb Hd. apply try_from_defined in Hd as [o Ho]. unfold parse_operation. rewrite Hb, !bind_Ok_l, Ho, bind_Ok_l.
  unfold Opcode.try_from in Ho. destruct (find _ _) as [o'|] eqn:Hf; [|done]. simplify_eq. apply find_opcode in Hf as [<- Hne].
  destruct o; try done; cbv beta iota;
    first [match goal with |- reads _ _ _ (no_err (parse_push _ _ ?n)) => apply (push_reads code pc n Hb); lia end
          |apply simple_reads; [exact Hb|reflexivity|intros i; split; [intros [=]; by subst|intros [[=] ->]; reflexivity]|reflexivity|reflexivity]].
Qed.
Lemma parse_operation_undefined code pc b : index (E:=Z) code pc = Ok b → ¬ defined b → parse_operation code pc = Err b.
Proof.
  intros Hb Hd. rewrite try_from_defined in Hd. unfold parse_operation. rewrite Hb, bind_Ok_l. unfold Opcode.try_from in *.
  destruct (find _ _) as [o|]; [|done]. exfalso. apply Hd. by exists o.
Qed.
Lemma undefined_next pc b : ¬ defined b → next_instruction pc b = pc + 1 ∧ b ≠ 0x5b.
Proof.
  intros Hd. unfold next_instruction. destruct ((0x60 <=? b) && (b <=? 0x7f)) eqn:Hr.
  - exfalso. apply Hd, try_from_defined. bool_prop.
    assert (Forall (λ b, is_Some (find (λ o, b =? Opcode.as_u8 o) Opcode.tried)) (seqZ 0x60 32)) as Hall by (apply (bool_decide_unpack _); vm_compute; exact I).
    rewrite Forall_forall in Hall. destruct (Hall b) as [o Ho]; [apply elem_of_seqZ; lia|]. exists o. unfold Opcode.try_from. by rewrite Ho.
  - split; [done|]. intros ->. apply Hd. by exists Opcode.JUMPDEST.
Qed.

(** ** The loop *)
Definition total_size (ops : list Operation.t) : Z := foldr Z.add 0 (map operation_size ops).
(** Every instruction of [code] from [pc] on is there to its last byte. *)
Definition complete (code : list Z) (pc : Z) : Prop :=
  ∀ i b, instruction_at code pc i → index (E:=never) code i = Ok b → next_instruction i b <= zlen code.
Definition parsed (keep : bool) (code : list Z) (pc : Z) (ops : list Operation.t) (failed : list Z) : Prop :=
  (∀ b, b ∈ failed ↔ ∃ i, instruction_at code pc i ∧ index (E:=never) code i = Ok b ∧ ¬ defined b) ∧
  (∀ i, Operation.Jumpdest i ∈ ops ↔ instruction_at code pc i ∧ index (E:=never) code i = Ok 0x5b) ∧
  Forall (λ x, 0 <= x) (map operation_size ops) ∧
  (pc <= zlen code + 32 → total_size ops <= zlen code + 32 - pc) ∧
  (bytes_ok code → failed = [] → complete code pc → concat_bytecode ops = Ok (zdrop pc code) ∧ total_size ops = Z.max 0 (zlen code - pc)).

Lemma instructions_after code pc b i : index (E:=never) code pc = Ok b →
  instruction_at code pc i ↔ i = pc ∨ instruction_at code (next_instruction pc b) i.
Proof.
  intros Hb. rewrite (instruction_step code pc i). split.
  - intros [Hi|(b' & Hb' & Hi)]; [by left|]. right. congruence.
  - intros [Hi|Hi]; [by left|]. right. by exists b.
Qed.
Lemma instructions_end code pc i b : zlen code <= pc → instruction_at code pc i → index (E:=never) code i = Ok b → False.
Proof.
  intros Hpc Hi Hb. apply byte_in_range in Hb as [Hb _]. cut (pc <= i); [lia|]. clear Hb. induction Hi as [|j c Hj IH]; [lia|].
  pose proof (next_instruction_gt j c). lia.
Qed.
Lemma parsed_end keep code pc : zlen code <= pc → parsed keep code pc [] [].
Proof.
  intros Hpc. split_and!.
  - intros b. split; [by intros ?%elem_of_nil|]. intros (i & Hi & Hb & _). exfalso. by eapply (instructions_end code pc).
  - intros b. split; [by intros ?%elem_of_nil|]. intros (Hi & Hb). exfalso. by eapply (instructions_end code pc).
  - constructor.
  - cbn. lia.
  - intros _ _ _. split; [|cbn; lia]. cbn. unfold zdrop. rewrite drop_ge; [done|unfold zlen in Hpc; lia].
Qed.
Lemma parse_loop_ok keep code fuel : ∀ pc, 0 <= pc → zlen code - pc <= Z.of_nat fuel →
  ∃ ops failed, parse_loop keep fuel code pc = Ok (ops, failed) ∧ parsed keep code pc ops failed.
Proof.
  induction fuel as [|fuel IH]; intros pc Hpc Hf.
  { cbn [parse_loop]. rewrite (proj2 (Z.leb_le _ _)) by lia. exists [], []. split; [done|]. apply parsed_end. lia. }
  cbn [parse_loop]. destruct (Z.leb_spec (zlen code) pc) as [Hend|Hin]; [exists [], []; split; [done|by apply parsed_end]|].
  destruct (index_total (E:=Z) code pc) as [b Hb]; [lia|]. pose proof Hb as [_ Hbn]%byte_in_range.
  pose proof (next_instruction_gt pc b) as Hnext. destruct (IH (next_instruction pc b)) as (ops & failed & Hloop & Hpar); [lia|lia|].
  assert (complete code pc → next_instruction pc b <= zlen code) as Hbound by (intros Hc; eapply Hc; [constructor|done]).
  assert (complete code pc → complete code (next_instruction pc b)) as Hcomp.
  { intros Hc i c Hi Hc'. apply (Hc i c); [|done]. rewrite (instructions_after code pc b i) by done. by right. }
  destruct Hpar as (Hfail & Hjump & Hpos & Hsize & Hprint). pose proof (parse_operation_ok code pc b Hb) as Hop.
  pose proof (parse_operation_undefined code pc b Hb) as Hund. pose proof (undefined_next pc b) as Hnu.
  destruct (find (λ o, b =? Opcode.as_u8 o) Opcode.tried) as [o|] eqn:Ho.
  - assert (defined b) as Hd by (apply try_from_defined; exists o; unfold Opcode.try_from; by rewrite Ho).
    destruct (Hop Hd) as (op & -> & Hj & Hs & Ht). rewrite Hloop, bind_Ok_l. exists (op :: ops), failed. split; [done|].
    split_and!.
    + intros c. rewrite Hfail. split; intros (i & Hi & Hic & Hnd); exists i.
      * rewrite (instructions_after code pc b i) by done. auto.
      * rewrite (instructions_after code pc b i) in Hi by done. destruct Hi as [->|Hi]; [|done]. exfalso. apply Hnd. congruence.
    + intros i. rewrite elem_of_cons, Hjump, (instructions_after code pc b i) by done.
      assert (Operation.Jumpdest i = op ↔ b = 91 ∧ i = pc) as -> by (rewrite <-Hj; by split).
      split; [intros [[-> ->]|[??]]; auto|]. intros [[->|Hi] Hx]; [left|right; done]. split; congruence.
    + cbn. constructor; [lia|done].
    + cbn. fold (total_size ops). rewrite Hs. intros. assert (next_instruction pc b <= pc + 33).
      { unfold next_instruction. destruct (Z.leb_spec 0x60 b), (Z.leb_spec b 0x7f); cbn; lia. }
      lia.
    + intros Hok Hnil Hc. destruct (Hprint Hok Hnil (Hcomp Hc)) as [Hcat Htot]. specialize (Hbound Hc). cbn [concat_bytecode].
      rewrite (Ht Hbound Hok), bind_Ok_l, Hcat, bind_Ok_l. split; [|cbn; fold (total_size ops); lia].
      f_equal. unfold ztake, zdrop. rewrite <-(take_drop (Z.to_nat (next_instruction pc b - pc)) (drop (Z.to_nat pc) code)) at 2.
      rewrite drop_drop. do 3 f_equal. lia.
  - assert (¬ defined b) as Hd.
    { intros [o' Hd]%try_from_defined. unfold Opcode.try_from in Hd. by rewrite Ho in Hd. }
    destruct (Hnu Hd) as [Hn Hne]. rewrite (Hund Hd). rewrite <-Hn, Hloop, bind_Ok_l. eexists _, (b :: failed). split; [done|].
    split_and!.
    + intros c. rewrite elem_of_cons, Hfail. split.
      * intros [->|(i & Hi & Hic & Hnd)]; [exists pc; split; [constructor|done]|]. exists i. rewrite (instructions_after code pc b i) by done. auto.
      * intros (i & Hi & Hic & Hnd). rewrite (instructions_after code pc b i) in Hi by done. destruct Hi as [->|Hi]; [|right; by exists i]. left. congruence.
    + intros i. assert (Operation.Jumpdest i ∈ (if keep then Operation.Invalid :: ops else ops) ↔ Operation.Jumpdest i ∈ ops) as ->.
      { destruct keep; [|done]. rewrite elem_of_cons. split; [by intros [?|?]|by right]. }
      rewrite Hjump, (instructions_after code pc b i) by done. split; [intros [??]; auto|]. intros [[->|Hi] Hx]; [exfalso; apply Hne; congruence|done].
    + destruct keep; [|done]. cbn. constructor; [lia|done].
    + intros. assert (total_size (if keep then Operation.Invalid :: ops else ops) <= 1 + total_size ops) by (destruct keep; cbn; fold (total_size ops); lia). lia.
    + done.
Qed.

Lemma sum_u32_ok l : ∀ acc, 0 <= acc → Forall (λ x, 0 <= x) l → acc + foldr Z.add 0 l < 2 ^ 32 → sum_u32 acc l = Ok (acc + foldr Z.add 0 l).
Proof.
  induction l as [|x l IH]; intros acc Ha Hl Hs; cbn in *; [f_equal; lia|]. apply Forall_cons in Hl as [Hx Hl].
  assert (0 <= foldr Z.add 0 l) by (clear -Hl; induction Hl; cbn; lia).
  unfold checked, in_width. rewrite (proj2 (Z.leb_le _ _)), (proj2 (Z.ltb_lt _ _)) by lia. cbn [andb]. rewrite bind_Ok_l, IH by (done || lia). f_equal. lia.
Qed.
Lemma from_operations_ok ops : Forall (λ x, 0 <= x) (map operation_size ops) → total_size ops < 2 ^ 32 → from_operations ops = Ok (mkProgram ops (total_size ops)).
Proof. intros Hp Hs. unfold from_operations, get_codesize. by rewrite sum_u32_ok. Qed.
End Parsing.

(** C22: the parser of the MLIR machine never panics on a code shorter than [2^32 - 32], and
    the jump destinations of its program are those of the yellow paper: the bytes [0x5b] at
    which an instruction starts, never those inside the data of a push. *)
Theorem jump_destinations_correct (P : Profile) (code : list Z) :
  zlen code < 2 ^ 32 - 32 →
  ∃ p, from_bytecode code = Ok p ∧
    ∀ i, Operation.Jumpdest i ∈ operations p ↔ instruction_at code 0 i ∧ index (E:=never) code i = Ok 0x5b.
Proof.
  intros Hz. pose proof (zlen_nonneg code). destruct (parse_loop_ok true code (length code) 0) as (ops & failed & Hl & _ & Hj & Hp & Hs & _); [lia|unfold zlen; lia|].
  exists (mkProgram ops (total_size ops)). split; [|done]. unfold from_bytecode. rewrite Hl, bind_Ok_l. apply from_operations_ok; [done|lia].
Qed.

(** The checked parser of the MLIR machine accepts exactly the codes all of whose
    instructions are known opcodes, and reports the bytes of the others; a code that it
    accepts and whose last push has all of its data is printed back as it was, with its
    size. *)
Theorem program_roundtrip (P : Profile) (code : list Z) :
  zlen code < 2 ^ 32 - 32 →
  (∀ failed, from_bytecode_checked code = Err failed →
     failed ≠ [] ∧ ∀ b, b ∈ failed ↔ ∃ i, instruction_at code 0 i ∧ index (E:=never) code i = Ok b ∧ ¬ defined b) ∧
  ((∀ i b, instruction_at code 0 i → index (E:=never) code i = Ok b → defined b) →
   ∃ p, from_bytecode_checked code = Ok p ∧
     (bytes_ok code → complete code 0 → to_bytecode p = Ok code ∧ code_size p = zlen code)).
Proof.
  intros Hz. pose proof (zlen_nonneg code). destruct (parse_loop_ok false code (length code) 0) as (ops & failed & Hl & Hf & _ & Hp & Hs & Hprint); [lia|unfold zlen; lia|].
  unfold from_bytecode_checked, get_codesize. rewrite Hl. cbn [no_err map_err]. rewrite bind_Ok_l, sum_u32_ok by (done || fold (total_size ops); lia).
  cbn [no_err map_err]. rewrite bind_Ok_l. change (0 + foldr Z.add 0 (map operation_size ops)) with (total_size ops). split.
  - intros l Hl'. destruct failed as [|b failed]; [done|]. injection Hl' as <-. by split.
  - intros Hdef. assert (failed = []) as ->.
    { destruct failed as [|b failed]; [done|]. destruct (Hf b) as [(i & Hi & Hb & Hnd) _]; [left|]. exfalso. apply Hnd. by eapply Hdef. }
    eexists. split; [done|]. intros Hok Hc. destruct (Hprint Hok eq_refl Hc) as [Hcat Htot]. split; [exact Hcat|]. cbn. lia.
Qed.

(** A push whose data ends with the code is padded on the left, where the data of the
    machine's memory would be padded on the right; and bytes that are no opcode are
    replaced. *)
Lemma truncated_push : from_bytecode (H:=dev_profile) [0x61; 1] = Ok (mkProgram [Operation.Push 2 1] 3) ∧
  to_bytecode (H:=dev_profile) (mkProgram [Operation.Push 2 1] 3) = Ok [0x61; 0; 1].
Proof. by vm_compute. Qed.
Lemma unknown_byte_replaced : (p ← from_bytecode (H:=dev_profile) [0x00; 0x0c]; to_bytecode (H:=dev_profile) p) = Ok [0x00; 0xfe].
Proof. by vm_compute. Qed.

Lemma jump_destinations_correct_witness : ∃ p, from_bytecode (H:=dev_profile) [0x60; 0x5b; 0x5b] = Ok p ∧ Operation.Jumpdest 2 ∈ operations p.
Proof.
  destruct (jump_destinations_correct dev_profile [0x60; 0x5b; 0x5b]) as (p & Hp & Hj); [reflexivity|]. exists p. split; [exact Hp|].
  apply Hj. split; [|reflexivity]. apply (instruction_next _ _ 0 0x60); [constructor|reflexivity].
Defined.
Lemma sample_instructions i : instruction_at [0x60; 1; 0x00] 0 i → i = 0 ∨ i = 2 ∨ 3 <= i.
Proof.
  induction 1 as [|i b Hi IH Hb]; [by left|]. pose proof (next_instruction_gt i b).
  destruct IH as [->|[->|IH]]; [injection Hb as <-; right; left; reflexivity|right; right; lia|right; right; lia].
Qed.
Lemma program_roundtrip_witness : ∃ p, from_bytecode_checked (H:=dev_profile) [0x60; 1; 0x00] = Ok p ∧
  to_bytecode (H:=dev_profile) p = Ok [0x60; 1; 0x00] ∧ code_size p = 3.
Proof.
  assert (∀ i b, instruction_at [0x60; 1; 0x00] 0 i → index (E:=never) [0x60; 1; 0x00] i = Ok b → (i = 0 ∧ b = 0x60) ∨ (i = 2 ∧ b = 0)) as Hall.
  { intros i b Hi Hb. destruct (sample_instructions i Hi) as [->|[->|Hlarge]]; [injection Hb as <-; auto|injection Hb as <-; auto|].
    apply byte_in_range in Hb as [Hb _]. change (zlen [0x60; 1; 0x00]) with 3 in Hb. lia. }
  destruct (program_roundtrip dev_profile [0x60; 1; 0x00]) as [_ Hp]; [reflexivity|]. destruct Hp as (p & Hp & Hprint).
  { intros i b Hi Hb. destruct (Hall i b Hi Hb) as [[_ ->]|[_ ->]]; [by exists Opcode.PUSH1|by exists Opcode.STOP]. }
  exists p. split; [exact Hp|]. apply Hprint; [repeat constructor; done|].
  intros i b Hi Hb. destruct (Hall i b Hi Hb) as [[-> ->]|[-> ->]]; by vm_compute.
Defined.
