(* ===== verification/MlirState.v ===== *)
(** * State of the MLIR virtual machine

    Model of [crates/evm_mlir/src]: account status and slots ([state.rs]), the in-memory
    database ([db.rs]) and the journal of a transaction ([journal.rs]).

    Addresses and hashes are byte lists.  The journal holds a mutable reference to the
    database, which moves to the journal of a callee and back: here the database itself, or
    [None] while it is lent.  A [HashMap] that is turned into a list is listed in an order
    that is an argument. *)

From stdpp Require Import gmap.
From S2P Require Import Prelude U256 Effects.

(** The hash of the empty code. *)
Definition EMPTY_CODE_HASH : list Z :=
  [0xc5; 0xd2; 0x46; 0x01; 0x86; 0xf7; 0x23; 0x3c; 0x92; 0x7e; 0x7d; 0xb2; 0xdc; 0xc7; 0x03; 0xc0;
   0xe5; 0x00; 0xb6; 0x53; 0xca; 0x82; 0x27; 0x3b; 0x7b; 0xfa; 0xd8; 0x04; 0x5d; 0x85; 0xa4; 0x70].
Definition zero_hash : list Z := replicate 32 0.
Definition is_code_hash (hash : list Z) : bool := negb (bool_decide (hash = zero_hash) || bool_decide (hash = EMPTY_CODE_HASH)).

(** ** state.rs *)
Module AccountStatus.
Definition Loaded : Z := 0.
Definition Created : Z := 1.
Definition SelfDestructed : Z := 2.
Definition Touched : Z := 4.
Definition LoadedAsNotExisting : Z := 8.
Definition Cold : Z := 16.
(** [contains], [|=] and [&= !] of the [bitflags] crate; the complement is cut to the flags
    that exist. *)
Definition contains (self flag : Z) : bool := Z.land self flag =? flag.
Definition insert (self flag : Z) : Z := Z.lor self flag.
Definition remove (self flag : Z) : Z := Z.land self (Z.land (Z.lnot flag) 31).
End AccountStatus.
Module EvmStorageSlot.
Record t := mk { original_value : Z; present_value : Z; is_cold : bool }.
Definition from (value : Z) : t := mk value value true.
End EvmStorageSlot.
Module AccountInfo.
Record t := mk { balance : Z; nonce : Z; code_hash : list Z; code : option (list Z) }.
Definition default : t := mk 0 0 zero_hash None.
Definition is_empty (self : t) : bool := (balance self =? 0) && (nonce self =? 0) && bool_decide (code_hash self = EMPTY_CODE_HASH).
Definition has_code (self : t) : bool := is_code_hash (code_hash self).
End AccountInfo.
Module Account.
Record t := mk { info : AccountInfo.t; storage : gmap Z EvmStorageSlot.t; status : Z }.
Definition is_selfdestructed (self : t) : bool := AccountStatus.contains (status self) AccountStatus.SelfDestructed.
Definition is_created (self : t) : bool := AccountStatus.contains (status self) AccountStatus.Created.
Definition is_touched (self : t) : bool := AccountStatus.contains (status self) AccountStatus.Touched.
Definition from (info : AccountInfo.t) : t := mk info ∅ AccountStatus.Loaded.
End Account.

(** ** db.rs *)
Module DbAccount.
Record t := mk { nonce : Z; balance : Z; storage : gmap Z Z; bytecode_hash : list Z; status : Z }.
Definition empty : t := mk 0 0 ∅ EMPTY_CODE_HASH AccountStatus.Created.
Definition info (self : t) : AccountInfo.t := AccountInfo.mk (balance self) (nonce self) (bytecode_hash self) None.
End DbAccount.

Module Db.
Record t := mk { accounts : gmap (list Z) DbAccount.t; contracts : gmap (list Z) (list Z); block_hashes : gmap Z (list Z) }.
Definition new : t := mk ∅ ∅ ∅.
Definition insert_block_hash (number : Z) (hash : list Z) (self : t) : t :=
  mk (accounts self) (contracts self) (<[number := hash]> (block_hashes self)).
(** [entry(address).or_insert(empty)] and a change of the account. *)
Definition upsert (address : list Z) (f : DbAccount.t → DbAccount.t) (self : t) : t :=
  mk (<[address := f (default DbAccount.empty (accounts self !! address))]> (accounts self)) (contracts self) (block_hashes self).
Definition set_account (address : list Z) (nonce balance : Z) (storage : gmap Z Z) : t → t :=
  upsert address (λ a, DbAccount.mk nonce balance storage (DbAccount.bytecode_hash a) (DbAccount.status a)).
Definition set_balance (address : list Z) (balance : Z) : t → t :=
  upsert address (λ a, DbAccount.mk (DbAccount.nonce a) balance (DbAccount.storage a) (DbAccount.bytecode_hash a) (DbAccount.status a)).
Definition get_balance (address : list Z) (self : t) : option Z := DbAccount.balance <$> accounts self !! address.
Definition address_is_created (address : list Z) (self : t) : bool :=
  match accounts self !! address with Some acc => AccountStatus.contains (DbAccount.status acc) AccountStatus.Created | None => false end.
Definition set_status (address : list Z) (status : Z) : t → t :=
  upsert address (λ a, DbAccount.mk (DbAccount.nonce a) (DbAccount.balance a) (DbAccount.storage a) (DbAccount.bytecode_hash a) status).
Definition insert_contract (keccak : list Z → list Z) (address bytecode : list Z) (balance : Z) (self : t) : t :=
  let hash := keccak bytecode in
  mk (<[address := DbAccount.mk 1 balance ∅ hash AccountStatus.Created]> (accounts self)) (<[hash := bytecode]> (contracts self)) (block_hashes self).
Definition with_contract (keccak : list Z → list Z) (address bytecode : list Z) : t → t := insert_contract keccak address bytecode 0.
Definition write_storage (address : list Z) (key value : Z) : t → t :=
  upsert address (λ a, DbAccount.mk (DbAccount.nonce a) (DbAccount.balance a) (<[key := value]> (DbAccount.storage a)) (DbAccount.bytecode_hash a) (DbAccount.status a)).
Definition read_storage (address : list Z) (key : Z) (self : t) : Z :=
  default 0 (accounts self !! address ≫= λ account, DbAccount.storage account !! key).
Definition into_state (self : t) : gmap (list Z) Account.t :=
  (λ a, Account.mk (DbAccount.info a) (EvmStorageSlot.from <$> DbAccount.storage a) (DbAccount.status a)) <$> accounts self.
Definition store_contract (account : AccountInfo.t) (self : t) : t :=
  if negb (AccountInfo.has_code account) then self
  else
    match AccountInfo.code account, contracts self !! AccountInfo.code_hash account with
    | Some code, None => mk (accounts self) (<[AccountInfo.code_hash account := code]> (contracts self)) (block_hashes self)
    | _, _ => self
    end.
Definition commit_account (address : list Z) (account : Account.t) (self : t) : t :=
  let not_modified := negb (Account.is_touched account) && negb (Account.is_created account) && negb (Account.is_selfdestructed account) in
  let created_and_destroyed := Account.is_created account && Account.is_selfdestructed account in
  if created_and_destroyed || not_modified then self
  else
    let self := if Account.is_created account then store_contract (Account.info account) self else self in
    upsert address (λ a, DbAccount.mk (AccountInfo.nonce (Account.info account)) (AccountInfo.balance (Account.info account))
      ((EvmStorageSlot.present_value <$> Account.storage account) ∪ DbAccount.storage a)
      (AccountInfo.code_hash (Account.info account)) AccountStatus.Cold) self.
(** The changes in the order of the iteration. *)
Definition commit (changes : list (list Z * Account.t)) (self : t) : t :=
  foldl (λ self '(address, account), commit_account address account self) self changes.

(** [impl Database for Db]: no operation fails. *)
Definition basic (address : list Z) (self : t) : option AccountInfo.t := DbAccount.info <$> accounts self !! address.
Definition code_by_hash (code_hash : list Z) (self : t) : list Z := default [] (contracts self !! code_hash).
Definition storage (address : list Z) (index : Z) (self : t) : Z := read_storage address index self.
Definition block_hash (number : Z) (self : t) : list Z := default zero_hash (block_hashes self !! number).
Definition code_by_address (address : list Z) (self : t) : list Z :=
  match basic address self with
  | Some acc => match AccountInfo.code acc with Some code => code | None => code_by_hash (AccountInfo.code_hash acc) self end
  | None => []
  end.
End Db.

(** ** journal.rs *)
Module JournalStorageSlot.
Record t := mk { original_value : Z; present_value : Z }.
Definition default : t := mk 0 0.
Definition from (value : Z) : t := mk value value.
End JournalStorageSlot.
Module JournalAccount.
Record t := mk { nonce : Z; balance : Z; storage : gmap Z JournalStorageSlot.t; bytecode_hash : list Z; status : Z }.
Definition default : t := mk 0 0 ∅ zero_hash AccountStatus.Loaded.
Definition has_code (self : t) : bool := is_code_hash (bytecode_hash self).
Definition new_created (balance : Z) : t := mk 0 balance ∅ EMPTY_CODE_HASH AccountStatus.Created.
Definition from (info : AccountInfo.t) : t :=
  mk (AccountInfo.nonce info) (AccountInfo.balance info) ∅ (AccountInfo.code_hash info) AccountStatus.Cold.
Definition info (acc : t) : AccountInfo.t := AccountInfo.mk (balance acc) (nonce acc) (bytecode_hash acc) None.
Definition with_status (f : Z → Z) (acc : t) : t := mk (nonce acc) (balance acc) (storage acc) (bytecode_hash acc) (f (status acc)).
Definition touch (acc : t) : t := with_status (λ s, AccountStatus.insert s AccountStatus.Touched) acc.
Definition warm (acc : t) : t := with_status (λ s, AccountStatus.remove s AccountStatus.Cold) acc.
Definition with_balance (b : Z) (acc : t) : t := mk (nonce acc) b (storage acc) (bytecode_hash acc) (status acc).
Definition with_nonce (n : Z) (acc : t) : t := mk n (balance acc) (storage acc) (bytecode_hash acc) (status acc).
Definition with_storage (s : gmap Z JournalStorageSlot.t) (acc : t) : t := mk (nonce acc) (balance acc) s (bytecode_hash acc) (status acc).
End JournalAccount.

Definition AccessList := list (list Z * list Z).
Module Journal.
Record t := mk {
  accounts : gmap (list Z) JournalAccount.t; contracts : gmap (list Z) (list Z); block_hashes : gmap Z (list Z); db : option Db.t
}.
Definition with_accounts (accounts : gmap (list Z) JournalAccount.t) (self : t) : t :=
  mk accounts (contracts self) (block_hashes self) (db self).
Definition new (db : Db.t) : t := mk ∅ ∅ ∅ (Some db).
Definition get_prefetch_accounts (prefetch_accounts : AccessList) : gmap (list Z) JournalAccount.t :=
  foldl (λ accounts '(address, storage),
    let account := default JournalAccount.default (accounts !! address) in
    <[address := JournalAccount.with_storage
        (foldl (λ m key, <[key := JournalStorageSlot.default]> m) (JournalAccount.storage account) storage) account]> accounts) ∅ prefetch_accounts.
Definition with_prefetch (accounts : AccessList) (self : t) : t := with_accounts (get_prefetch_accounts accounts) self.

(** The account, from the journal or fetched into it. *)
Definition _get_account (address : list Z) (self : t) : t * option JournalAccount.t :=
  match db self with
  | None => (self, None)
  | Some db =>
    match accounts self !! address with
    | Some acc => (self, Some acc)
    | None =>
      match Db.basic address db with
      | None => (self, None)
      | Some info =>
        let acc := JournalAccount.with_status (λ _, AccountStatus.Loaded) (JournalAccount.from info) in
        (with_accounts (<[address := acc]> (accounts self)) self, Some acc)
      end
    end
  end.
(** [if let Some(acc) = self._get_account_mut(address)]. *)
Definition update_account (address : list Z) (f : JournalAccount.t → JournalAccount.t) (self : t) : t :=
  let '(self, acc) := _get_account address self in
  match acc with Some acc => with_accounts (<[address := f acc]> (accounts self)) self | None => self end.
Definition _fetch_storage_from_db (address : list Z) (key : Z) (self : t) : JournalStorageSlot.t :=
  JournalStorageSlot.from (match db self with Some db => Db.storage address key db | None => 0 end).

Definition new_account (address : list Z) (balance : Z) (self : t) : t :=
  with_accounts (<[address := JournalAccount.new_created balance]> (accounts self)) self.
Definition add_account_as_warm (address : list Z) (self : t) : t :=
  let account := default (JournalAccount.new_created 0) (accounts self !! address) in
  with_accounts (<[address := JournalAccount.warm account]> (accounts self)) self.
Definition new_contract (keccak : list Z → list Z) (address bytecode : list Z) (balance : Z) (self : t) : t :=
  let hash := keccak bytecode in
  let account := JournalAccount.mk 1 balance ∅ hash AccountStatus.Created in
  mk (<[address := account]> (accounts self)) (<[hash := bytecode]> (contracts self)) (block_hashes self) (db self).
Definition set_balance (address : list Z) (balance : Z) : t → t :=
  update_account address (λ acc, JournalAccount.touch (JournalAccount.with_balance balance acc)).
Definition set_nonce (address : list Z) (nonce : Z) : t → t :=
  update_account address (λ acc, JournalAccount.touch (JournalAccount.with_nonce nonce acc)).
Definition set_status (address : list Z) (status : Z) : t → t :=
  update_account address (JournalAccount.with_status (λ s, AccountStatus.insert s status)).
Definition get_account (address : list Z) (self : t) : t * option AccountInfo.t :=
  let '(self, acc) := _get_account address self in (self, JournalAccount.info <$> acc).
Definition code_by_address (address : list Z) (self : t) : t * list Z :=
  let '(self, acc) := _get_account address self in
  match acc with
  | None => (self, [])
  | Some acc =>
    let acc := JournalAccount.warm acc in
    let self := with_accounts (<[address := acc]> (accounts self)) self in
    if negb (JournalAccount.has_code acc) then (self, [])
    else
      let hash := JournalAccount.bytecode_hash acc in
      (self, default (match db self with Some db => Db.code_by_hash hash db | None => [] end) (contracts self !! hash))
  end.

Definition account_is_warm (address : list Z) (self : t) : bool :=
  match accounts self !! address with Some acc => negb (AccountStatus.contains (JournalAccount.status acc) AccountStatus.Cold) | None => false end.
Definition prefetch_account (address : list Z) (self : t) : t := (_get_account address self).1.
Definition prefetch_account_keys (address : list Z) (keys : list Z) (self : t) : pres t :=
  let '(self, acc) := _get_account address self in
  match acc with
  | None => Ok self
  | Some _ =>
    let slots := foldl (λ m key, <[key := _fetch_storage_from_db address key self]> m) ∅ keys in
    let '(self, acc) := _get_account address self in
    acc ← unwrap acc;
    Ok (with_accounts (<[address := JournalAccount.with_storage (slots ∪ JournalAccount.storage acc) acc]> (accounts self)) self)
  end.
Definition key_is_warm (address : list Z) (key : Z) (self : t) : bool :=
  bool_decide (is_Some (accounts self !! address ≫= λ acc, JournalAccount.storage acc !! key)).

(** The slot of a key, from the journal or the database. *)
Definition slot_of (address : list Z) (key : Z) (acc : JournalAccount.t) (self : t) : JournalStorageSlot.t :=
  default (_fetch_storage_from_db address key self) (JournalAccount.storage acc !! key).
Definition read_storage (address : list Z) (key : Z) (self : t) : t * option JournalStorageSlot.t :=
  let '(self, acc) := _get_account address self in
  match acc with
  | None => (self, None)
  | Some acc =>
    let slot := slot_of address key acc self in
    (with_accounts (<[address := JournalAccount.with_storage (<[key := slot]> (JournalAccount.storage acc)) acc]> (accounts self)) self, Some slot)
  end.
Definition write_storage (address : list Z) (key value : Z) (self : t) : pres t :=
  let '(self, acc) := _get_account address self in
  acc ← unwrap acc;
  let slot := JournalStorageSlot.mk (JournalStorageSlot.original_value (slot_of address key acc self)) value in
  Ok (with_accounts (<[address := JournalAccount.touch (JournalAccount.with_storage (<[key := slot]> (JournalAccount.storage acc)) acc)]> (accounts self)) self).

Definition get_block_hash (number : Z) (self : t) : t * list Z :=
  match block_hashes self !! number with
  | Some hash => (self, hash)
  | None =>
    let hash := match db self with Some db => Db.block_hash number db | None => zero_hash end in
    (mk (accounts self) (contracts self) (<[number := hash]> (block_hashes self)) (db self), hash)
  end.

Definition state_account (contracts : gmap (list Z) (list Z)) (acc : JournalAccount.t) : Account.t :=
  let code := if JournalAccount.has_code acc then contracts !! JournalAccount.bytecode_hash acc else None in
  let storage := (λ slot, EvmStorageSlot.mk (JournalStorageSlot.original_value slot) (JournalStorageSlot.present_value slot) false) <$> JournalAccount.storage acc in
  Account.mk (AccountInfo.mk (JournalAccount.balance acc) (JournalAccount.nonce acc) (JournalAccount.bytecode_hash acc) code) storage (JournalAccount.status acc).
Definition into_state (self : t) : gmap (list Z) Account.t := state_account (contracts self) <$> accounts self.
(** The journal without the database, and the copy that takes it. *)
Definition eject_base (self : t) : t * t :=
  (mk (accounts self) (contracts self) (block_hashes self) None, mk (accounts self) (contracts self) (block_hashes self) (db self)).
Definition extend_from_successful (other self : t) : t := mk (accounts other) (contracts other) (block_hashes other) (db other).
Definition extend_from_reverted (other self : t) : t := mk (accounts self) (contracts self) (block_hashes self) (db other).
End Journal.
