(* ===== verification/MlirStateLaws.v ===== *)
(** * The journal against the database

    What the journal of a transaction says of accounts and slots (its view), the invariant
    that ties the journal to the database under it, what every operation does to both, and
    the commit of the journal. *)

From stdpp Require Import gmap.
From S2P Require Import Prelude U256 Effects MlirState.

#[local] Set Default Proof Using "All".

(** ** Views *)

(** Nonce, balance and code hash of an account. *)
Definition db_view (d : Db.t) (a : list Z) : option (Z * Z * list Z) :=
  (λ x, (DbAccount.nonce x, DbAccount.balance x, DbAccount.bytecode_hash x)) <$> Db.accounts d !! a.
Definition acc_view (x : JournalAccount.t) : Z * Z * list Z := (JournalAccount.nonce x, JournalAccount.balance x, JournalAccount.bytecode_hash x).
Definition view (d : Db.t) (j : Journal.t) (a : list Z) : option (Z * Z * list Z) :=
  match Journal.accounts j !! a with Some x => Some (acc_view x) | None => db_view d a end.
Definition storage_view (d : Db.t) (j : Journal.t) (a : list Z) (k : Z) : Z :=
  match Journal.accounts j !! a ≫= λ x, JournalAccount.storage x !! k with
  | Some slot => JournalStorageSlot.present_value slot
  | None => Db.read_storage a k d
  end.

(** ** The invariant *)

Definition touched (x : JournalAccount.t) : bool := AccountStatus.contains (JournalAccount.status x) AccountStatus.Touched.
Definition created (x : JournalAccount.t) : bool := AccountStatus.contains (JournalAccount.status x) AccountStatus.Created.
Definition destroyed (x : JournalAccount.t) : bool := AccountStatus.contains (JournalAccount.status x) AccountStatus.SelfDestructed.
(** An account of the journal is marked created exactly when the database does not have it;
    its slots know their original values; and what was not marked as touched is as in the
    database. *)
Record account_ok (d : Db.t) (a : list Z) (x : JournalAccount.t) : Prop := {
  ok_created : created x = bool_decide (Db.accounts d !! a = None);
  ok_original k slot : JournalAccount.storage x !! k = Some slot → JournalStorageSlot.original_value slot = Db.read_storage a k d;
  ok_present k slot : touched x = false → JournalAccount.storage x !! k = Some slot → JournalStorageSlot.present_value slot = Db.read_storage a k d;
  ok_untouched : created x = false → touched x = false → db_view d a = Some (acc_view x)
}.
Record journal_ok (d : Db.t) (j : Journal.t) : Prop := {
  ok_db : Journal.db j = Some d;
  ok_accounts a x : Journal.accounts j !! a = Some x → account_ok d a x
}.

(** ** Flags *)
Lemma contains_bit s i : 0 <= i → AccountStatus.contains s (2 ^ i) = Z.testbit s i.
Proof.
  intros Hi. unfold AccountStatus.contains. destruct (Z.testbit s i) eqn:Hb.
  - apply Z.eqb_eq, Z.bits_inj'. intros n Hn. rewrite Z.land_spec, Z.pow2_bits_eqb by done.
    destruct (Z.eqb_spec i n) as [->|]; [by rewrite Hb|by rewrite andb_false_r].
  - apply Z.eqb_neq. intros He. apply (f_equal (λ z, Z.testbit z i)) in He. by rewrite Z.land_spec, Hb, Z.pow2_bits_true in He.
Qed.
Lemma created_bit x : created x = Z.testbit (JournalAccount.status x) 0.
Proof. apply (contains_bit _ 0). lia. Qed.
Lemma destroyed_bit x : destroyed x = Z.testbit (JournalAccount.status x) 1.
Proof. apply (contains_bit _ 1). lia. Qed.
Lemma touched_bit x : touched x = Z.testbit (JournalAccount.status x) 2.
Proof. apply (contains_bit _ 2). lia. Qed.
Lemma created_status f x : created (JournalAccount.with_status f x) = AccountStatus.contains (f (JournalAccount.status x)) AccountStatus.Created.
Proof. done. Qed.

Lemma touch_flags x : created (JournalAccount.touch x) = created x ∧ touched (JournalAccount.touch x) = true ∧ destroyed (JournalAccount.touch x) = destroyed x.
Proof.
  rewrite !created_bit, !touched_bit, !destroyed_bit. cbn [JournalAccount.touch JournalAccount.with_status JournalAccount.status].
  unfold AccountStatus.insert. rewrite !Z.lor_spec. change (Z.testbit AccountStatus.Touched 0) with false. change (Z.testbit AccountStatus.Touched 1) with false.
  change (Z.testbit AccountStatus.Touched 2) with true. by rewrite !orb_false_r, orb_true_r.
Qed.
Lemma warm_flags x : created (JournalAccount.warm x) = created x ∧ touched (JournalAccount.warm x) = touched x ∧ destroyed (JournalAccount.warm x) = destroyed x.
Proof.
  rewrite !created_bit, !touched_bit, !destroyed_bit. cbn [JournalAccount.warm JournalAccount.with_status JournalAccount.status].
  unfold AccountStatus.remove. rewrite !Z.land_spec. change (Z.land (Z.lnot AccountStatus.Cold) 31) with 15. by rewrite !andb_true_r.
Qed.

(** ** Accounts that agree with the database *)
Section Accounts.
Context (d : Db.t) (a : list Z).

Lemma loaded_ok x : Db.basic a d = Some x → account_ok d a (JournalAccount.with_status (λ _, AccountStatus.Loaded) (JournalAccount.from x)) ∧
  db_view d a = Some (AccountInfo.nonce x, AccountInfo.balance x, AccountInfo.code_hash x).
Proof.
  unfold Db.basic, db_view. intros Hb. destruct (Db.accounts d !! a) as [y|] eqn:Ha; [|done]. cbn in Hb. simplify_eq. split; [|done]. split; try done.
  - rewrite bool_decide_eq_false_2 by congruence. done.
  - intros _ _. unfold db_view. by rewrite Ha.
Qed.
Lemma new_created_ok b : Db.accounts d !! a = None → account_ok d a (JournalAccount.new_created b).
Proof. intros Ha. split; try done. by rewrite bool_decide_eq_true_2. Qed.
Lemma warm_ok x : account_ok d a x → account_ok d a (JournalAccount.warm x).
Proof. intros [Hc Ho Hp Hu]. destruct (warm_flags x) as (Ec & Et & _). split; rewrite ?Ec, ?Et; done. Qed.
Lemma destroy_ok x : account_ok d a x → account_ok d a (JournalAccount.with_status (λ t, AccountStatus.insert t AccountStatus.SelfDestructed) x).
Proof.
  assert (∀ i, i ≠ 1 → Z.testbit (AccountStatus.insert (JournalAccount.status x) AccountStatus.SelfDestructed) i = Z.testbit (JournalAccount.status x) i) as Hb.
  { intros i Hi. unfold AccountStatus.insert. rewrite Z.lor_spec. change AccountStatus.SelfDestructed with (2 ^ 1).
    rewrite Z.pow2_bits_eqb by lia. rewrite (proj2 (Z.eqb_neq _ _)) by lia. by rewrite orb_false_r. }
  set (y := JournalAccount.with_status _ x). assert (created y = created x) as Ec by (rewrite !created_bit; by apply Hb).
  assert (touched y = touched x) as Et by (rewrite !touched_bit; by apply Hb).
  intros [Hc Ho Hp Hu]. split; rewrite ?Ec, ?Et; done.
Qed.
(** A changed account is marked as touched; a slot keeps its original value. *)
Lemma touch_ok x y : account_ok d a x → JournalAccount.status y = JournalAccount.status x →
  (∀ k slot, JournalAccount.storage y !! k = Some slot → JournalStorageSlot.original_value slot = Db.read_storage a k d) →
  account_ok d a (JournalAccount.touch y).
Proof.
  intros [Hc Ho Hp Hu] Hs Hk. destruct (touch_flags y) as (Ec & Et & _). split; rewrite ?Et; try done.
  rewrite Ec, <-Hc, !created_bit. by rewrite Hs.
Qed.
Lemma read_slot_ok x k : account_ok d a x → ∀ j, Journal.db j = Some d →
  account_ok d a (JournalAccount.with_storage (<[k := Journal.slot_of a k x j]> (JournalAccount.storage x)) x) ∧
  JournalStorageSlot.original_value (Journal.slot_of a k x j) = Db.read_storage a k d.
Proof.
  intros [Hc Ho Hp Hu] j Hj. assert (JournalStorageSlot.original_value (Journal.slot_of a k x j) = Db.read_storage a k d) as Hor.
  { unfold Journal.slot_of, Journal._fetch_storage_from_db. rewrite Hj. destruct (JournalAccount.storage x !! k) eqn:E; cbn; [by eapply Ho|done]. }
  split; [|done]. split; try done.
  - intros k' slot. cbn. intros [[<- <-]|[_ Hl]]%lookup_insert_Some; [done|by eapply Ho].
  - intros k' slot Ht. cbn. intros [[<- <-]|[_ Hl]]%lookup_insert_Some; [|by eapply Hp].
    unfold Journal.slot_of, Journal._fetch_storage_from_db. rewrite Hj. destruct (JournalAccount.storage x !! k) eqn:E; cbn; [by eapply Hp|done].
Qed.
End Accounts.

(** ** The journal as a map *)

(** The state that the journal stands for: accounts, slots, and code by hash. *)
Record world := mkWorld { account_at : list Z → option (Z * Z * list Z); slot_at : list Z → Z → Z; code_at : list Z → list Z }.
Definition world_of (d : Db.t) : world := mkWorld (db_view d) (λ a k, Db.read_storage a k d) (λ h, Db.code_by_hash h d).
Definition code_view (d : Db.t) (j : Journal.t) (h : list Z) : list Z := default (Db.code_by_hash h d) (Journal.contracts j !! h).
Record represents (d : Db.t) (j : Journal.t) (w : world) : Prop := {
  rep_ok : journal_ok d j;
  rep_account a : view d j a = account_at w a;
  rep_slot a k : storage_view d j a k = slot_at w a k;
  rep_code h : code_view d j h = code_at w h
}.
Definition set_account_at (a : list Z) (x : option (Z * Z * list Z)) (w : world) : world :=
  mkWorld (λ b, if decide (b = a) then x else account_at w b) (slot_at w) (code_at w).
Definition set_slot_at (a : list Z) (k v : Z) (w : world) : world :=
  mkWorld (account_at w) (λ b l, if decide (b = a ∧ l = k) then v else slot_at w b l) (code_at w).
(** A new account has no slots. *)
Definition clear_slots (a : list Z) (w : world) : world :=
  mkWorld (account_at w) (λ b l, if decide (b = a) then 0 else slot_at w b l) (code_at w).
Definition set_code_at (h c : list Z) (w : world) : world :=
  mkWorld (account_at w) (slot_at w) (λ g, if decide (g = h) then c else code_at w g).

(** The second journal has at least the accounts of the first. *)
Definition grows (j j' : Journal.t) : Prop := ∀ b, is_Some (Journal.accounts j !! b) → is_Some (Journal.accounts j' !! b).

Lemma grows_refl j : grows j j.
Proof. by intros b. Qed.
Lemma journal_grows_trans j1 j2 j3 : grows j1 j2 → grows j2 j3 → grows j1 j3.
Proof. intros H1 H2 b Hb. auto. Qed.
Lemma insert_grows j a x : grows j (Journal.with_accounts (<[a := x]> (Journal.accounts j)) j).
Proof. intros b Hb. cbn. destruct (decide (b = a)) as [->|Hne]; [by rewrite lookup_insert_eq|by rewrite lookup_insert_ne]. Qed.

Section Operations.
Context (d : Db.t).
Lemma represents_ext j w w' : represents d j w → (∀ a, account_at w a = account_at w' a) → (∀ a k, slot_at w a k = slot_at w' a k) →
  (∀ h, code_at w h = code_at w' h) → represents d j w'.
Proof. intros [] Ha Hk Hh. split; [done|intros; rewrite <-Ha; auto|intros; rewrite <-Hk; auto|intros; rewrite <-Hh; auto]. Qed.
Lemma represents_new : represents d (Journal.new d) (world_of d).
Proof. by split. Qed.

(** An account of the journal is replaced. *)
Lemma replace_represents j w w' a x : represents d j w → account_ok d a x → account_at w' a = Some (acc_view x) →
  (∀ k, match JournalAccount.storage x !! k with Some slot => JournalStorageSlot.present_value slot | None => Db.read_storage a k d end = slot_at w' a k) →
  (∀ b, b ≠ a → account_at w' b = account_at w b ∧ ∀ k, slot_at w' b k = slot_at w b k) → (∀ h, code_at w' h = code_at w h) →
  represents d (Journal.with_accounts (<[a := x]> (Journal.accounts j)) j) w'.
Proof.
  intros [[Hdb Hj] Ha Hk Hh] Hx Hv Hs Ho Hc. split; [split; [done|]| | |intros h; by rewrite Hc, <-Hh].
  - cbn. intros a' y [[<- <-]|[_ Hl]]%lookup_insert_Some; [done|by apply Hj].
  - intros b. unfold view. cbn. destruct (decide (b = a)) as [->|Hne]; [by rewrite lookup_insert_eq|]. rewrite lookup_insert_ne by done.
    destruct (Ho b Hne) as [-> _]. apply Ha.
  - intros b k. unfold storage_view. cbn. destruct (decide (b = a)) as [->|Hne]; [rewrite lookup_insert_eq; apply Hs|]. rewrite lookup_insert_ne by done.
    destruct (Ho b Hne) as [_ ->]. apply Hk.
Qed.
Lemma insert_account_represents j w a x : represents d j w → account_ok d a x →
  (∀ k, match JournalAccount.storage x !! k with Some slot => JournalStorageSlot.present_value slot | None => Db.read_storage a k d end = slot_at w a k) →
  represents d (Journal.with_accounts (<[a := x]> (Journal.accounts j)) j) (set_account_at a (Some (acc_view x)) w).
Proof.
  intros Hr Hx Hs. apply (replace_represents j w); try done; cbn; [by rewrite decide_True|]. intros b Hb. by rewrite decide_False.
Qed.
Lemma account_slots j w a x : represents d j w → Journal.accounts j !! a = Some x → ∀ k,
  match JournalAccount.storage x !! k with Some slot => JournalStorageSlot.present_value slot | None => Db.read_storage a k d end = slot_at w a k.
Proof. intros Hr Ha k. rewrite <-(rep_slot _ _ _ Hr). unfold storage_view. by rewrite Ha. Qed.
Lemma account_here j w a x : represents d j w → Journal.accounts j !! a = Some x → account_at w a = Some (acc_view x).
Proof. intros Hr Ha. rewrite <-(rep_account _ _ _ Hr). unfold view. by rewrite Ha. Qed.
Lemma insert_same j w a x y : represents d j w → account_ok d a y → Journal.accounts j !! a = Some x → acc_view y = acc_view x →
  JournalAccount.storage y = JournalAccount.storage x → represents d (Journal.with_accounts (<[a := y]> (Journal.accounts j)) j) w.
Proof.
  intros Hr Hy Ha Hv Hs. eapply represents_ext; [apply (insert_account_represents j w a y Hr Hy)|..]; try done.
  - intros k. rewrite Hs. by eapply account_slots.
  - intros b. cbn. destruct (decide (b = a)) as [->|]; [|done]. rewrite Hv. symmetry. by eapply account_here.
Qed.

Lemma get_account_represents j w a : represents d j w → let '(j', x) := Journal._get_account a j in
  represents d j' w ∧ grows j j' ∧ Journal.accounts j' !! a = x ∧ acc_view <$> x = account_at w a.
Proof.
  intros Hr. pose proof Hr as [[Hdb Hj] Hv Hk Hh]. unfold Journal._get_account. rewrite Hdb. destruct (Journal.accounts j !! a) as [x|] eqn:Ha.
  { split_and!; [done|apply grows_refl|done|]. rewrite <-Hv. unfold view. by rewrite Ha. }
  destruct (Db.basic a d) as [i|] eqn:Hb.
  - destruct (loaded_ok d a i Hb) as [Hok Hi]. split_and!; [|apply insert_grows|apply lookup_insert_eq|by rewrite <-Hv; unfold view; rewrite Ha, Hi].
    eapply represents_ext; [apply (insert_account_represents j w a _ Hr Hok)|..]; try done.
    + intros k. cbn. rewrite lookup_empty, <-Hk. unfold storage_view. by rewrite Ha.
    + intros b. cbn. destruct (decide (b = a)) as [->|]; [|done]. rewrite <-Hv. unfold view. by rewrite Ha, Hi.
  - split_and!; [done|apply grows_refl|done|]. rewrite <-Hv. unfold view, db_view. rewrite Ha. unfold Db.basic in Hb. by destruct (Db.accounts d !! a).
Qed.
Lemma absent_in_db j w a : represents d j w → account_at w a = None → Db.accounts d !! a = None ∧ Journal.accounts j !! a = None.
Proof.
  intros [_ Hv _ _] Hn. rewrite <-Hv in Hn. unfold view, db_view in Hn. destruct (Journal.accounts j !! a); [done|]. by destruct (Db.accounts d !! a).
Qed.

(** A change of nonce or balance, if the account exists. *)
Lemma update_represents j w a f g : represents d j w → (∀ x, account_ok d a x → account_ok d a (f x)) →
  (∀ x, JournalAccount.storage (f x) = JournalAccount.storage x) → (∀ x, acc_view (f x) = g (acc_view x)) →
  represents d (Journal.update_account a f j) (set_account_at a (g <$> account_at w a) w) ∧ grows j (Journal.update_account a f j).
Proof.
  intros Hr Hf Hs Hg. unfold Journal.update_account. pose proof (get_account_represents j w a Hr) as Hget.
  destruct (Journal._get_account a j) as [j' x]. destruct Hget as (Hr' & Hgr & Ha & Hx). destruct x as [x|].
  - rewrite <-Hx. cbn [fmap option_fmap option_map]. rewrite <-Hg. split.
    + apply insert_account_represents; [done|apply Hf; eapply ok_accounts; [apply Hr'|done]|]. intros k. rewrite Hs. by eapply account_slots.
    + intros b Hb. by apply insert_grows, Hgr.
  - split; [|done]. eapply represents_ext; [exact Hr'|..]; try done. intros b. cbn. destruct (decide (b = a)) as [->|]; [|done]. by rewrite <-Hx.
Qed.
Definition with_balance_at (b : Z) (x : Z * Z * list Z) : Z * Z * list Z := let '(n, _, h) := x in (n, b, h).
Definition with_nonce_at (n : Z) (x : Z * Z * list Z) : Z * Z * list Z := let '(_, b, h) := x in (n, b, h).
Lemma set_balance_represents j w a b : represents d j w →
  represents d (Journal.set_balance a b j) (set_account_at a (with_balance_at b <$> account_at w a) w) ∧ grows j (Journal.set_balance a b j).
Proof.
  intros Hr. apply update_represents; try done. intros x Hx. by apply (touch_ok d a x); [|done|apply Hx].
Qed.
Lemma set_nonce_represents j w a n : represents d j w →
  represents d (Journal.set_nonce a n j) (set_account_at a (with_nonce_at n <$> account_at w a) w) ∧ grows j (Journal.set_nonce a n j).
Proof.
  intros Hr. apply update_represents; try done. intros x Hx. by apply (touch_ok d a x); [|done|apply Hx].
Qed.
Lemma set_destroyed_represents j w a : represents d j w →
  represents d (Journal.set_status a AccountStatus.SelfDestructed j) w ∧ grows j (Journal.set_status a AccountStatus.SelfDestructed j).
Proof.
  intros Hr. destruct (update_represents j w a (JournalAccount.with_status (λ s, AccountStatus.insert s AccountStatus.SelfDestructed)) id Hr) as [Hr' Hg]; try done.
  { intros x Hx. by apply destroy_ok. }
  split; [|done]. eapply represents_ext; [exact Hr'|..]; try done. intros b. cbn. destruct (decide (b = a)) as [->|]; [|done]. by destruct (account_at w a).
Qed.
Lemma read_represents j w a k : represents d j w → let '(j', slot) := Journal.read_storage a k j in
  represents d j' w ∧ grows j j' ∧ JournalStorageSlot.present_value <$> slot = (λ _, slot_at w a k) <$> account_at w a ∧
  JournalStorageSlot.original_value <$> slot = (λ _, Db.read_storage a k d) <$> account_at w a.
Proof.
  intros Hr. unfold Journal.read_storage. pose proof (get_account_represents j w a Hr) as Hget. destruct (Journal._get_account a j) as [j' x].
  destruct Hget as (Hr' & Hgr & Ha & Hx). rewrite <-Hx. destruct x as [x|]; [|done].
  pose proof (ok_accounts d j' (rep_ok _ _ _ Hr') a x Ha) as Hok. destruct (read_slot_ok d a x k Hok j' (ok_db _ _ (rep_ok _ _ _ Hr'))) as [Hok' Hor].
  assert (JournalStorageSlot.present_value (Journal.slot_of a k x j') = slot_at w a k) as Hp.
  { rewrite <-(account_slots j' w a x Hr' Ha k). unfold Journal.slot_of, Journal._fetch_storage_from_db. rewrite (ok_db _ _ (rep_ok _ _ _ Hr')).
    by destruct (JournalAccount.storage x !! k). }
  split_and!; [|apply (journal_grows_trans _ _ _ Hgr), insert_grows|cbn; by rewrite Hp|cbn; by rewrite Hor].
  eapply represents_ext; [apply (insert_account_represents j' w a _ Hr' Hok')|..]; try done.
  - intros l. cbn. destruct (decide (l = k)) as [->|Hne]; [by rewrite lookup_insert_eq|]. rewrite lookup_insert_ne by done. by eapply account_slots.
  - intros b. cbn. destruct (decide (b = a)) as [->|]; [|done]. by rewrite <-Hx.
Qed.
Lemma write_represents j w a k v : represents d j w →
  match account_at w a with
  | Some _ => ∃ j', Journal.write_storage a k v j = Ok j' ∧ represents d j' (set_slot_at a k v w) ∧ grows j j'
  | None => Journal.write_storage a k v j = Panic
  end.
Proof.
  intros Hr. unfold Journal.write_storage. pose proof (get_account_represents j w a Hr) as Hget. destruct (Journal._get_account a j) as [j' x].
  destruct Hget as (Hr' & Hgr & Ha & Hx). rewrite <-Hx. destruct x as [x|]; [|done]. cbn [fmap option_fmap option_map unwrap]. rewrite bind_Ok_l.
  eexists. split; [done|]. pose proof (ok_accounts d j' (rep_ok _ _ _ Hr') a x Ha) as Hok.
  destruct (read_slot_ok d a x k Hok j' (ok_db _ _ (rep_ok _ _ _ Hr'))) as [_ Hor]. split; [|apply (journal_grows_trans _ _ _ Hgr), insert_grows].
  apply (replace_represents j' w); [done| | | | |done].
  - apply (touch_ok d a x); [done|done|]. cbn. intros l slot [[<- <-]|[_ Hl]]%lookup_insert_Some; [done|by eapply ok_original].
  - cbn. by rewrite <-Hx.
  - intros l. cbn. destruct (decide (l = k)) as [->|Hne]; [rewrite lookup_insert_eq, decide_True by done; done|].
    rewrite lookup_insert_ne, decide_False by naive_solver. by eapply account_slots.
  - intros b Hb. split; [done|]. intros l. cbn. rewrite decide_False by naive_solver. done.
Qed.

(** Accounts that the database does not have. *)
Lemma db_slots_absent a k : Db.accounts d !! a = None → Db.read_storage a k d = 0.
Proof. unfold Db.read_storage. by intros ->. Qed.
Lemma new_account_represents j w a b : represents d j w → Db.accounts d !! a = None →
  represents d (Journal.new_account a b j) (clear_slots a (set_account_at a (Some (0, b, EMPTY_CODE_HASH)) w)) ∧ grows j (Journal.new_account a b j).
Proof.
  intros Hr Ha. split; [|apply insert_grows]. apply (replace_represents j w); [done|by apply new_created_ok|cbn; by rewrite decide_True| |  |done].
  - intros k. cbn. rewrite lookup_empty, decide_True by done. by apply db_slots_absent.
  - intros c Hc. cbn. split; [|intros k]; by rewrite decide_False.
Qed.
Lemma new_contract_represents keccak j w a code b : represents d j w → Db.accounts d !! a = None →
  represents d (Journal.new_contract keccak a code b j)
    (set_code_at (keccak code) code (clear_slots a (set_account_at a (Some (1, b, keccak code)) w))) ∧ grows j (Journal.new_contract keccak a code b j).
Proof.
  intros Hr Ha. split; [|exact (insert_grows j a (JournalAccount.mk 1 b ∅ (keccak code) AccountStatus.Created))].
  assert (represents d (Journal.with_accounts (<[a := JournalAccount.mk 1 b ∅ (keccak code) AccountStatus.Created]> (Journal.accounts j)) j)
    (clear_slots a (set_account_at a (Some (1, b, keccak code)) w))) as [Hok Hv Hs Hh].
  { apply (replace_represents j w); [done| |cbn; by rewrite decide_True| | |done].
    - split; [by rewrite bool_decide_eq_true_2|done..].
    - intros k. cbn. rewrite lookup_empty, decide_True by done. by apply db_slots_absent.
    - intros c Hc. cbn. split; [|intros k]; by rewrite decide_False. }
  split; [|exact Hv|exact Hs|].
  - split; [exact (ok_db _ _ Hok)|exact (ok_accounts _ _ Hok)].
  - intros h. unfold code_view in *. cbn. destruct (decide (h = keccak code)) as [->|Hne]; [by rewrite lookup_insert_eq|]. rewrite lookup_insert_ne by done. apply Hh.
Qed.
(** Marking an account as warm: one that does not exist is created. *)
Definition warm_account (x : option (Z * Z * list Z)) : option (Z * Z * list Z) := Some (default (0, 0, EMPTY_CODE_HASH) x).
Lemma add_warm_represents j w a : represents d j w → is_Some (Journal.accounts j !! a) ∨ Db.accounts d !! a = None →
  represents d (Journal.add_account_as_warm a j) (set_account_at a (warm_account (account_at w a)) w) ∧ grows j (Journal.add_account_as_warm a j).
Proof.
  intros Hr Ha. split; [|apply insert_grows]. unfold Journal.add_account_as_warm. destruct (Journal.accounts j !! a) as [x|] eqn:Hx; cbn [default].
  - rewrite (account_here j w a x Hr Hx). apply (insert_account_represents j w a (JournalAccount.warm x)); [done| |].
    + apply warm_ok. eapply ok_accounts; [apply Hr|done].
    + exact (account_slots j w a x Hr Hx).
  - destruct Ha as [[? [=]]|Ha]. assert (account_at w a = None) as ->.
    { rewrite <-(rep_account _ _ _ Hr). unfold view, db_view. by rewrite Hx, Ha. }
    apply (insert_account_represents j w a (JournalAccount.warm (JournalAccount.new_created 0))); [done|by apply warm_ok, new_created_ok|].
    intros k. cbn. rewrite lookup_empty, <-(rep_slot _ _ _ Hr). unfold storage_view. by rewrite Hx.
Qed.
Lemma code_represents j w a : represents d j w → let '(j', code) := Journal.code_by_address a j in
  represents d j' w ∧ grows j j' ∧ (account_at w a = None ∨ is_Some (Journal.accounts j' !! a)) ∧
  code = match account_at w a with Some (_, _, h) => if is_code_hash h then code_at w h else [] | None => [] end.
Proof.
  intros Hr. unfold Journal.code_by_address. pose proof (get_account_represents j w a Hr) as Hget. destruct (Journal._get_account a j) as [j' x].
  destruct Hget as (Hr' & Hgr & Ha & Hx). rewrite <-Hx. destruct x as [x|]; [|by split_and!; auto]. cbn [fmap option_fmap option_map acc_view].
  assert (represents d (Journal.with_accounts (<[a := JournalAccount.warm x]> (Journal.accounts j')) j') w) as Hr2.
  { apply (insert_same j' w a x); try done. apply warm_ok. eapply ok_accounts; [apply Hr'|done]. }
  unfold JournalAccount.has_code. cbn [JournalAccount.warm JournalAccount.with_status JournalAccount.bytecode_hash].
  destruct (is_code_hash (JournalAccount.bytecode_hash x)); cbn [negb]; split_and!; try done;
    try (apply (journal_grows_trans _ _ _ Hgr), insert_grows); try (right; cbn; by rewrite lookup_insert_eq).
  cbn. rewrite (ok_db _ _ (rep_ok _ _ _ Hr')). rewrite <-(rep_code _ _ _ Hr'). done.
Qed.
Lemma block_hash_represents j w n : represents d j w → represents d (Journal.get_block_hash n j).1 w ∧ grows j (Journal.get_block_hash n j).1.
Proof.
  intros [[Hdb Hj] Hv Hk Hh]. unfold Journal.get_block_hash. destruct (Journal.block_hashes j !! n); (split; [split; [split; [exact Hdb|exact Hj]|exact Hv|exact Hk|exact Hh]|exact (grows_refl j)]).
Qed.
End Operations.

(** ** Commit *)

(** What a commit makes of an account. *)
Definition committed (account : Account.t) (old : option DbAccount.t) : option DbAccount.t :=
  if Account.is_created account && Account.is_selfdestructed account
     || negb (Account.is_touched account) && negb (Account.is_created account) && negb (Account.is_selfdestructed account) then old
  else Some (DbAccount.mk (AccountInfo.nonce (Account.info account)) (AccountInfo.balance (Account.info account))
    ((EvmStorageSlot.present_value <$> Account.storage account) ∪ DbAccount.storage (default DbAccount.empty old))
    (AccountInfo.code_hash (Account.info account)) AccountStatus.Cold).
Lemma store_contract_accounts i d : Db.accounts (Db.store_contract i d) = Db.accounts d.
Proof. unfold Db.store_contract. case_match; [done|]. by repeat case_match. Qed.
Lemma commit_account_accounts a x d b :
  Db.accounts (Db.commit_account a x d) !! b = if decide (b = a) then committed x (Db.accounts d !! a) else Db.accounts d !! b.
Proof.
  unfold Db.commit_account, committed. case_match; [by case_match; subst|].
  set (d' := if Account.is_created x then _ else d). assert (Db.accounts d' = Db.accounts d) as Hd by (unfold d'; case_match; [apply store_contract_accounts|done]).
  unfold Db.upsert. cbn. rewrite Hd. case_match; subst; [by rewrite lookup_insert_eq|by rewrite lookup_insert_ne].
Qed.
Lemma commit_accounts l : ∀ d, NoDup l.*1 → ∀ a,
  Db.accounts (Db.commit l d) !! a = match (list_to_map l : gmap (list Z) Account.t) !! a with Some x => committed x (Db.accounts d !! a) | None => Db.accounts d !! a end.
Proof.
  induction l as [|[b x] l IH]; intros d Hnd a; [done|]. cbn in Hnd. apply NoDup_cons in Hnd as [Hb Hnd]. cbn [Db.commit foldl].
  change (foldl _ _ l) with (Db.commit l (Db.commit_account b x d)). rewrite IH by done. cbn. rewrite !commit_account_accounts.
  destruct (decide (a = b)) as [->|Hne]; [|by rewrite lookup_insert_ne by done].
  rewrite lookup_insert_eq. by rewrite (not_elem_of_list_to_map_1 l b Hb).
Qed.
(** The codes that a commit stores: those of the accounts that were created and not
    destroyed. *)
Definition stores (changes : list (list Z * Account.t)) (h code : list Z) : Prop := ∃ a x, (a, x) ∈ changes ∧
  Account.is_created x = true ∧ Account.is_selfdestructed x = false ∧
  AccountInfo.has_code (Account.info x) = true ∧ AccountInfo.code_hash (Account.info x) = h ∧ AccountInfo.code (Account.info x) = Some code.
Lemma commit_account_contracts a x d : Db.contracts (Db.commit_account a x d) =
  if Account.is_created x && negb (Account.is_selfdestructed x) then Db.contracts (Db.store_contract (Account.info x) d) else Db.contracts d.
Proof.
  unfold Db.commit_account. destruct (Account.is_created x), (Account.is_selfdestructed x), (Account.is_touched x); done.
Qed.
Lemma commit_account_hashes a x d : Db.block_hashes (Db.commit_account a x d) = Db.block_hashes d.
Proof.
  unfold Db.commit_account, Db.store_contract. case_match; [done|]. cbn. by repeat case_match.
Qed.
Lemma store_contract_lookup i d h : Db.contracts (Db.store_contract i d) !! h =
  match Db.contracts d !! h with
  | Some c => Some c
  | None => if AccountInfo.has_code i && bool_decide (AccountInfo.code_hash i = h) then AccountInfo.code i else None
  end.
Proof.
  unfold Db.store_contract. destruct (AccountInfo.has_code i); cbn [negb andb]; [|by case_match].
  case_bool_decide as Hh.
  - subst h. destruct (AccountInfo.code i) as [c|] eqn:Hc; [|by case_match].
    destruct (Db.contracts d !! AccountInfo.code_hash i) eqn:Hd; [done|]. cbn. by rewrite lookup_insert_eq.
  - destruct (AccountInfo.code i) as [c|]; [|by case_match].
    destruct (Db.contracts d !! AccountInfo.code_hash i) eqn:Hd; [by case_match|]. cbn. rewrite lookup_insert_ne by done. by case_match.
Qed.
Lemma commit_contracts l : ∀ d h,
  (∀ c, Db.contracts d !! h = Some c → Db.contracts (Db.commit l d) !! h = Some c) ∧
  (∀ c, stores l h c → is_Some (Db.contracts (Db.commit l d) !! h)) ∧
  (∀ c, Db.contracts (Db.commit l d) !! h = Some c → Db.contracts d !! h = Some c ∨ stores l h c).
Proof.
  induction l as [|[a x] l IH]; intros d h.
  { split_and!; [done| |by left]. by intros c (? & ? & ?%not_elem_of_nil & _). }
  cbn [Db.commit foldl]. change (foldl _ _ l) with (Db.commit l (Db.commit_account a x d)).
  destruct (IH (Db.commit_account a x d) h) as (Hkeep & Hnew & Hfrom).
  pose proof (commit_account_contracts a x d) as Hca. split_and!.
  - intros c Hc. apply Hkeep. rewrite Hca. case_match; [|done]. by rewrite store_contract_lookup, Hc.
  - intros c (b & y & [[= -> ->]|Hin]%elem_of_cons & Hy); [|apply (Hnew c); by exists b, y].
    destruct Hy as (H1 & H2 & H3 & H4 & H5). rewrite H1, H2 in Hca. cbn in Hca.
    assert (is_Some (Db.contracts (Db.commit_account a x d) !! h)) as [c' Hc'].
    { rewrite Hca, store_contract_lookup, H3, bool_decide_true, H5 by done. cbn. by case_match. }
    exists c'. by apply Hkeep.
  - intros c [Hc|(b & y & Hin & Hy)]%Hfrom; [|right; exists b, y; split; [by right|done]].
    rewrite Hca in Hc. destruct (Account.is_created x) eqn:H1, (Account.is_selfdestructed x) eqn:H2; cbn in Hc; try (by left).
    rewrite store_contract_lookup in Hc. destruct (Db.contracts d !! h); [by left|]. right.
    destruct (AccountInfo.has_code (Account.info x)) eqn:H3; [|done]. cbn in Hc. case_bool_decide; [|done].
    exists a, x. split; [by left|done].
Qed.
Lemma commit_hashes l : ∀ d, Db.block_hashes (Db.commit l d) = Db.block_hashes d.
Proof.
  induction l as [|[a x] l IH]; intros d; [done|]. cbn [Db.commit foldl]. change (foldl _ _ l) with (Db.commit l (Db.commit_account a x d)).
  by rewrite IH, commit_account_hashes.
Qed.

Lemma commit_into_state d j l a : l ≡ₚ map_to_list (Journal.into_state j) →
  Db.accounts (Db.commit l d) !! a =
  match Journal.accounts j !! a with Some x => committed (Journal.state_account (Journal.contracts j) x) (Db.accounts d !! a) | None => Db.accounts d !! a end.
Proof.
  intros Hl. assert (NoDup l.*1) as Hnd by (rewrite Hl; apply NoDup_fst_map_to_list).
  rewrite commit_accounts by done. rewrite (list_to_map_proper _ _ Hnd Hl), list_to_map_to_list. unfold Journal.into_state. rewrite lookup_fmap.
  by destruct (Journal.accounts j !! a).
Qed.
Definition gone (j : Journal.t) (a : list Z) : Prop := ∃ x, Journal.accounts j !! a = Some x ∧ created x = true ∧ destroyed x = true.

(** The database after the commit of a journal holds the state that the journal stands for;
    accounts that were created and destroyed in the same transaction are not there. *)
Lemma commit_represents d j w l a : represents d j w → l ≡ₚ map_to_list (Journal.into_state j) →
  (¬ gone j a → db_view (Db.commit l d) a = account_at w a ∧ ∀ k, Db.read_storage a k (Db.commit l d) = slot_at w a k) ∧
  (gone j a → db_view (Db.commit l d) a = None).
Proof.
  intros Hr Hl. pose proof (commit_into_state d j l a Hl) as Hc. unfold db_view, Db.read_storage. rewrite Hc.
  destruct (Journal.accounts j !! a) as [x|] eqn:Hx.
  - pose proof (ok_accounts d j (rep_ok _ _ _ Hr) a x Hx) as [Kc Ko Kp Ku].
    pose proof (account_here d j w a x Hr Hx) as Hv. pose proof (account_slots d j w a x Hr Hx) as Hs.
    unfold committed. change (Account.is_created (Journal.state_account _ x)) with (created x).
    change (Account.is_selfdestructed (Journal.state_account _ x)) with (destroyed x). change (Account.is_touched (Journal.state_account _ x)) with (touched x).
    split.
    + intros Hg. destruct (created x && destroyed x) eqn:Hcd; [exfalso; apply Hg; exists x; bool_prop; done|]. cbn [orb].
      destruct (negb (touched x) && negb (created x) && negb (destroyed x)) eqn:Hskip.
      * bool_prop. unfold db_view in Ku. rewrite Ku, Hv by done. split; [done|]. intros k. rewrite <-Hs.
        destruct (JournalAccount.storage x !! k) eqn:Ek; [by erewrite Kp|done].
      * rewrite Hv. split; [done|]. intros k. cbn. rewrite <-Hs. rewrite lookup_union, !lookup_fmap.
        destruct (JournalAccount.storage x !! k) eqn:Ek; cbn; [by rewrite union_Some_l|].
        rewrite left_id by apply _. unfold Db.read_storage. by destruct (Db.accounts d !! a).
    + intros (y & Hy & H1 & H2). simplify_eq. rewrite H1, H2. cbn. rewrite H1 in Kc. symmetry in Kc. apply bool_decide_eq_true_1 in Kc. by rewrite Kc.
  - split; [|by intros (y & Hy & _); rewrite Hx in Hy]. intros _. rewrite <-(rep_account _ _ _ Hr). unfold view. rewrite Hx. split; [done|].
    intros k. rewrite <-(rep_slot _ _ _ Hr). unfold storage_view. by rewrite Hx.
Qed.
