(* ===== verification/MlirPrecompiles.v ===== *)
(** * Precompiled contracts of the MLIR virtual machine

    Model of [crates/evm_mlir/src/precompiles.rs].  Each contract works on the consumed gas
    (the state of the monad) and gives the output or a [PrecompileError].  Curves, hashes and
    the recovery of signers are code of other crates and arguments (class [Crypto]);
    arbitrary-precision integers are [Z]. *)

From S2P Require Import Prelude U256 Effects.

Inductive PrecompileError := InvalidCalldata | NotEnoughGas | Secp256k1Error | InvalidEcPoint.

(** The operations of the crates: signature recovery gives the uncompressed public key;
    [Fe] is the base field of alt_bn128, [Fe2] its extension, [G1] and [G2] the groups, [Gt]
    the target of the pairing. *)
Class Crypto := {
  recover_ecdsa : list Z → Z → list Z → option (list Z);
  crypto_sha256 : list Z → list Z;
  crypto_ripemd160 : list Z → list Z;
  crypto_keccak : list Z → list Z;
  Fe : Type; fe_from_bytes : list Z → option Fe; fe_is_zero : Fe → bool; fe_to_bytes : Fe → list Z;
  Fe2 : Type; fe2_from_bytes : list Z → option Fe2; fe2_is_zero : Fe2 → bool;
  G1 : Type; g1_from_affine : Fe → Fe → option G1; g1_x : G1 → Fe; g1_y : G1 → Fe; g1_add : G1 → G1 → G1; g1_mul : G1 → Z → G1;
  G2 : Type; g2_from_affine : Fe2 → Fe2 → option G2;
  Gt : Type; gt_one : Gt; gt_mul : Gt → Gt → Gt; gt_is_one : Gt → bool; pairing : G1 → G2 → option Gt
}.

(** ** constants.rs and utils/misc.rs *)
Section Costs.
Context `{Profile} {E : Type}.
Definition words_cost (len cost : Z) : res E Z := n ← uadd len 31; umul (n / 32) cost.
Definition identity_dynamic_cost (len : Z) : res E Z := words_cost len 3.
Definition sha2_256_dynamic_cost (len : Z) : res E Z := words_cost len 12.
Definition ripemd_160_dynamic_cost (len : Z) : res E Z := words_cost len 120.
Definition ecpairing_dynamic_cost (len : Z) : res E Z := umul 34000 (len / 192).
End Costs.
Definition blake2_gas_cost (rounds : Z) : Z := rounds.
Definition left_pad (calldata : list Z) (target_len : Z) : list Z :=
  if zlen calldata <? target_len then replicate (Z.to_nat (target_len - zlen calldata)) 0 ++ calldata else calldata.
Definition right_pad (calldata : list Z) (target_len : Z) : list Z :=
  if zlen calldata <? target_len then calldata ++ replicate (Z.to_nat (target_len - zlen calldata)) 0 else calldata.

Definition contract := stm Z PrecompileError (list Z).
Section Contracts.
Context `{Profile} `{Crypto}.
Local Abbreviation run A := (stm Z PrecompileError A).

(** [*consumed_gas += cost]. *)
Definition consume (cost : Z) : run unit := λ consumed_gas,
  match uadd consumed_gas cost with Ok g => (g, Ok tt) | Err e => (consumed_gas, Err e) | Panic => (consumed_gas, Panic) | OutOfFuel => (consumed_gas, OutOfFuel) end.
Definition fail {A} (e : PrecompileError) : run A := lift (Err e).
Definition of_option {A} (e : PrecompileError) (o : option A) : run A := lift (ok_or e o).

Definition ecrecover (calldata : list Z) (gas_limit : Z) : contract :=
  if gas_limit <? 3000 then fail NotEnoughGas
  else
    let calldata := right_pad calldata 128 in
    hash ← lift (slice calldata 0 32);
    v ← lift (index calldata 63);
    sig ← lift (slice calldata 64 128);
    public_address ← of_option Secp256k1Error (recover_ecdsa hash (v - 27) sig);
    _ ← consume 3000;
    mret (replicate 12 0 ++ drop 12 (crypto_keccak (drop 1 public_address))).
Definition hash_contract (static_cost : Z) (dynamic_cost : Z → res PrecompileError Z) (hash : list Z → list Z) (calldata : list Z) (gas_limit : Z) : contract :=
  dynamic ← lift (dynamic_cost (zlen calldata));
  gas_cost ← lift (uadd static_cost dynamic);
  if gas_limit <? gas_cost then fail NotEnoughGas
  else
    _ ← consume gas_cost;
    mret (hash calldata).
Definition sha2_256 : list Z → Z → contract := hash_contract 60 sha2_256_dynamic_cost crypto_sha256.
Definition ripemd_160 : list Z → Z → contract := hash_contract 600 ripemd_160_dynamic_cost (λ l, replicate 12 0 ++ crypto_ripemd160 l).
Definition identity : list Z → Z → contract := hash_contract 15 identity_dynamic_cost (λ l, l).

(** The bits of a number, 0 for zero. *)
Definition big_bits (x : Z) : Z := if x =? 0 then 0 else Z.log2 x + 1.
(** [modpow]: the power by repeated squaring. *)
Fixpoint modpow_pos (b : Z) (e : positive) (m : Z) : Z :=
  match e with
  | xH => b mod m
  | xO e => let r := modpow_pos b e m in (r * r) mod m
  | xI e => let r := modpow_pos b e m in (r * r * b) mod m
  end.
Definition modpow (b e m : Z) : Z := match e with Z0 => 1 mod m | Zpos e => modpow_pos b e m | Zneg _ => 0 end.
Definition big_bytes (x : Z) : list Z := if x =? 0 then [0] else to_be (Z.to_nat (Z.log2 x / 8 + 1)) x.
Definition modexp_iterations (e_size e : Z) : res PrecompileError Z :=
  if (e_size <=? 32) && negb (e =? 0) then usub (big_bits e) 1
  else if 32 <? e_size then
    a ← umul 8 (e_size - 32); b ← uadd a (Z.max (big_bits e) 1); usub b 1
  else Ok 0.
Definition modexp_cost (b_size e_size m_size e : Z) : res PrecompileError Z :=
  let max_length := Z.max b_size m_size in
  l ← uadd max_length 7;
  let words := l / 8 in
  multiplication_complexity ← umul words words;
  iteration_count ← modexp_iterations e_size e;
  product ← umul multiplication_complexity (Z.max iteration_count 1);
  Ok (Z.max (product / 3) 200).
Definition size_of (bytes : list Z) : run Z := of_option InvalidCalldata (U256.try_into_usize (of_be bytes)).
Definition modexp (calldata : list Z) (gas_limit : Z) : contract :=
  if bool_decide (calldata = []) then
    _ ← consume 200; mret []
  else
    let calldata := right_pad calldata 96 in
    b_bytes ← lift (slice calldata 0 32);
    b_size ← size_of b_bytes;
    e_bytes ← lift (slice calldata 32 64);
    e_size ← size_of e_bytes;
    m_bytes ← lift (slice calldata 64 96);
    m_size ← size_of m_bytes;
    if (b_size =? 0) && (m_size =? 0) then
      _ ← consume 200; mret []
    else
      b_end ← lift (uadd 96 b_size);
      e_end ← lift (uadd b_end e_size);
      params_len ← lift (uadd e_end m_size);
      if zlen calldata <? params_len then fail InvalidCalldata
      else
        b ← lift (slice calldata 96 b_end);
        e ← lift (slice calldata b_end e_end);
        m ← lift (slice calldata e_end params_len);
        let b := of_be b in
        let e := of_be e in
        let m := of_be m in
        gas_cost ← lift (modexp_cost b_size e_size m_size e);
        if gas_limit <? gas_cost then fail NotEnoughGas
        else
          _ ← consume gas_cost;
          let result := if m =? 0 then 0 else if e =? 0 then 1 mod m else modpow b e m in
          let result := left_pad (big_bytes result) m_size in
          lift (slice result 0 m_size).

(** Two coordinates of a padded input; the lengths are right. *)
Definition element (calldata : list Z) (a b : Z) : run Fe :=
  bytes ← lift (slice calldata a b); lift (unwrap (fe_from_bytes bytes)).
Definition point_bytes (p : G1) : list Z := fe_to_bytes (g1_x p) ++ fe_to_bytes (g1_y p).
Definition ecadd (calldata : list Z) (gas_limit : Z) : contract :=
  if gas_limit <? 150 then fail NotEnoughGas
  else
    let calldata := right_pad calldata 128 in
    x1 ← element calldata 0 32;
    y1 ← element calldata 32 64;
    x2 ← element calldata 64 96;
    y2 ← element calldata 96 128;
    match fe_is_zero x1 && fe_is_zero y1, fe_is_zero x2 && fe_is_zero y2 with
    | true, true => _ ← consume 150; mret (replicate 64 0)
    | true, false =>
      match g1_from_affine x2 y2 with Some p2 => _ ← consume 150; mret (point_bytes p2) | None => fail InvalidEcPoint end
    | false, true =>
      match g1_from_affine x1 y1 with Some p1 => _ ← consume 150; mret (point_bytes p1) | None => fail InvalidEcPoint end
    | false, false =>
      match g1_from_affine x1 y1, g1_from_affine x2 y2 with
      | Some p1, Some p2 => _ ← consume 150; mret (point_bytes (g1_add p1 p2))
      | _, _ => fail InvalidEcPoint
      end
    end.
Definition ecmul (calldata : list Z) (gas_limit : Z) : contract :=
  if gas_limit <? 6000 then fail NotEnoughGas
  else
    let calldata := right_pad calldata 96 in
    x1 ← element calldata 0 32;
    y1 ← element calldata 32 64;
    s ← lift (slice calldata 64 96);
    let s := of_be s in
    if fe_is_zero x1 && fe_is_zero y1 then _ ← consume 6000; mret (replicate 64 0)
    else if (s =? 0) && bool_decide (is_Some (g1_from_affine x1 y1)) then _ ← consume 6000; mret (replicate 64 0)
    else
      match g1_from_affine x1 y1 with
      | Some p1 => _ ← consume 6000; mret (point_bytes (g1_mul p1 s))
      | None => fail InvalidEcPoint
      end.
(** One chunk of 192 bytes: two coordinates, and two of the extension whose halves are
    swapped. *)
Definition pairing_round (calldata : list Z) (start : Z) (mul : Gt) : run Gt :=
  g1_x ← element calldata start (start + 32);
  g1_y ← element calldata (start + 32) (start + 64);
  x_hi ← lift (slice calldata (start + 96) (start + 128));
  x_lo ← lift (slice calldata (start + 64) (start + 96));
  y_hi ← lift (slice calldata (start + 160) (start + 192));
  y_lo ← lift (slice calldata (start + 128) (start + 160));
  match fe2_from_bytes (x_hi ++ x_lo), fe2_from_bytes (y_hi ++ y_lo) with
  | Some g2_x, Some g2_y =>
    if fe_is_zero g1_x && fe_is_zero g1_y || fe2_is_zero g2_x && fe2_is_zero g2_y then mret mul
    else
      match g1_from_affine g1_x g1_y, g2_from_affine g2_x g2_y with
      | Some p1, Some p2 => match pairing p1 p2 with Some pairing_result => mret (gt_mul mul pairing_result) | None => fail InvalidEcPoint end
      | _, _ => fail InvalidEcPoint
      end
  | _, _ => fail InvalidEcPoint
  end.
Fixpoint pairing_rounds (calldata : list Z) (start : Z) (rounds : nat) (mul : Gt) : run Gt :=
  match rounds with
  | O => mret mul
  | S rounds => mul ← pairing_round calldata start mul; pairing_rounds calldata (start + 192) rounds mul
  end.
Definition ecpairing (calldata : list Z) (gas_limit : Z) : contract :=
  if negb (zlen calldata mod 192 =? 0) then fail InvalidCalldata
  else
    dynamic ← lift (ecpairing_dynamic_cost (zlen calldata));
    gas_cost ← lift (uadd 45000 dynamic);
    if gas_limit <? gas_cost then fail NotEnoughGas
    else
      mul ← pairing_rounds calldata 0 (Z.to_nat (zlen calldata / 192)) gt_one;
      _ ← consume gas_cost;
      mret (replicate 31 0 ++ [if gt_is_one mul then 1 else 0]).

(** ** BLAKE2 *)
Definition SIGMA : list (list nat) :=
  [[0; 1; 2; 3; 4; 5; 6; 7; 8; 9; 10; 11; 12; 13; 14; 15]; [14; 10; 4; 8; 9; 15; 13; 6; 1; 12; 0; 2; 11; 7; 5; 3];
   [11; 8; 12; 0; 5; 2; 15; 13; 10; 14; 3; 6; 7; 1; 9; 4]; [7; 9; 3; 1; 13; 12; 11; 14; 2; 6; 5; 10; 4; 0; 15; 8];
   [9; 0; 5; 7; 2; 4; 10; 15; 14; 1; 11; 12; 6; 8; 3; 13]; [2; 12; 6; 10; 0; 11; 8; 3; 4; 13; 7; 5; 15; 14; 1; 9];
   [12; 5; 1; 15; 14; 13; 4; 10; 0; 7; 6; 3; 9; 2; 8; 11]; [13; 11; 7; 14; 12; 1; 3; 9; 5; 0; 15; 4; 8; 6; 2; 10];
   [6; 15; 14; 9; 11; 3; 0; 8; 12; 2; 13; 7; 1; 4; 10; 5]; [10; 2; 8; 4; 7; 6; 1; 5; 15; 11; 9; 14; 3; 12; 13; 0]]%nat.
Definition IV : list Z :=
  [0x6a09e667f3bcc908; 0xbb67ae8584caa73b; 0x3c6ef372fe94f82b; 0xa54ff53a5f1d36f1;
   0x510e527fade682d1; 0x9b05688c2b3e6c1f; 0x1f83d9abfb41bd6b; 0x5be0cd19137e2179].
Definition wrapping_add (a b : Z) : Z := (a + b) mod 2 ^ 64.
Definition rotate_right (x n : Z) : Z := Z.lor (Z.shiftr x n) (Z.shiftl x (64 - n) mod 2 ^ 64).
(** Reads of the work vector, whose indices are in range. *)
Definition at_index (l : list Z) (i : nat) : Z := nth i l 0.
Definition g (a b c d : nat) (x y : Z) (v : list Z) : list Z :=
  let v := <[a := wrapping_add (wrapping_add (at_index v a) (at_index v b)) x]> v in
  let v := <[d := rotate_right (Z.lxor (at_index v d) (at_index v a)) 32]> v in
  let v := <[c := wrapping_add (at_index v c) (at_index v d)]> v in
  let v := <[b := rotate_right (Z.lxor (at_index v b) (at_index v c)) 24]> v in
  let v := <[a := wrapping_add (wrapping_add (at_index v a) (at_index v b)) y]> v in
  let v := <[d := rotate_right (Z.lxor (at_index v d) (at_index v a)) 16]> v in
  let v := <[c := wrapping_add (at_index v c) (at_index v d)]> v in
  <[b := rotate_right (Z.lxor (at_index v b) (at_index v c)) 63]> v.
Definition blake_round (m : list Z) (i : nat) (v : list Z) : list Z :=
  let s := nth (i mod 10) SIGMA [] in
  let word k := at_index m (nth k s 0%nat) in
  let v := g 0 4 8 12 (word 0%nat) (word 1%nat) v in
  let v := g 1 5 9 13 (word 2%nat) (word 3%nat) v in
  let v := g 2 6 10 14 (word 4%nat) (word 5%nat) v in
  let v := g 3 7 11 15 (word 6%nat) (word 7%nat) v in
  let v := g 0 5 10 15 (word 8%nat) (word 9%nat) v in
  let v := g 1 6 11 12 (word 10%nat) (word 11%nat) v in
  let v := g 2 7 8 13 (word 12%nat) (word 13%nat) v in
  g 3 4 9 14 (word 14%nat) (word 15%nat) v.
Fixpoint blake_rounds (m : list Z) (i rounds : nat) (v : list Z) : list Z :=
  match rounds with O => v | S rounds => blake_rounds m (S i) rounds (blake_round m i v) end.
Definition blake2f_compress (rounds : Z) (h m t : list Z) (f : bool) : list Z :=
  let v := h ++ IV in
  let v := <[12%nat := Z.lxor (at_index v 12) (at_index t 0)]> v in
  let v := <[13%nat := Z.lxor (at_index v 13) (at_index t 1)]> v in
  let v := if f then <[14%nat := 2 ^ 64 - 1 - at_index v 14]> v else v in
  let v := blake_rounds m 0 (Z.to_nat rounds) v in
  zip_with Z.lxor (zip_with Z.lxor h (take 8 v)) (drop 8 v).
(** [n] words of 8 bytes, the lowest byte first. *)
Fixpoint le_words (calldata : list Z) (start : Z) (n : nat) : res PrecompileError (list Z) :=
  match n with
  | O => Ok []
  | S n => w ← slice calldata start (start + 8); ws ← le_words calldata (start + 8) n; Ok (of_be (reverse w) :: ws)
  end.
Definition blake2f (calldata : list Z) (gas_limit : Z) : contract :=
  if negb (zlen calldata =? 213) then fail InvalidCalldata
  else
    rounds ← lift (slice calldata 0 4);
    let rounds := of_be rounds in
    let needed_gas := blake2_gas_cost rounds in
    if gas_limit <? needed_gas then fail NotEnoughGas
    else
      f ← lift (index calldata 212);
      if 1 <? f then fail InvalidCalldata
      else
        h ← lift (le_words calldata 4 8);
        m ← lift (le_words calldata 68 16);
        t ← lift (le_words calldata 196 2);
        let h := blake2f_compress rounds h m t (f =? 1) in
        _ ← consume needed_gas;
        mret (concat (map (λ num, reverse (to_be 8 num)) h)).

(** ** Dispatch *)
Definition from_low_u64 (n : Z) : list Z := replicate 12 0 ++ to_be 8 n.
Definition is_precompile (callee_address : list Z) : bool :=
  let addr_as_u64 := of_be (drop 12 callee_address) in
  bool_decide (take 12 callee_address = replicate 12 0) && (1 <=? addr_as_u64) && (addr_as_u64 <? 10).
(** The outcome is the return code (1 success, 0 revert) and the output; a failure costs all
    the gas that was sent. *)
Definition execute_precompile (callee_address calldata : list Z) (gas_to_send consumed_gas : Z) : pres (Z * Z * list Z) :=
  let callee_is n := bool_decide (callee_address = from_low_u64 n) in
  let '(consumed_gas, result) :=
    (if callee_is 1 then ecrecover calldata gas_to_send
     else if callee_is 4 then identity calldata gas_to_send
     else if callee_is 2 then sha2_256 calldata gas_to_send
     else if callee_is 3 then ripemd_160 calldata gas_to_send
     else if callee_is 5 then modexp calldata gas_to_send
     else if callee_is 6 then ecadd calldata gas_to_send
     else if callee_is 7 then ecmul calldata gas_to_send
     else if callee_is 8 then ecpairing calldata gas_to_send
     else if callee_is 9 then blake2f calldata gas_to_send
     else lift Panic) consumed_gas in
  match result with
  | Ok res => Ok (consumed_gas, 1, res)
  | Err _ => consumed_gas ← uadd consumed_gas gas_to_send; Ok (consumed_gas, 0, [])
  | Panic => Panic
  | OutOfFuel => OutOfFuel
  end.
End Contracts.
