(* ===== verification/MlirPrecompilesLaws.v ===== *)
(** * Precompiled contracts

    Modular exponentiation gives the power, at the price of EIP-2565. *)

From S2P Require Import Prelude U256 Effects MlirPrecompiles.

(** ** Numbers *)
Lemma modpow_pos_spec b e m : 0 < m → modpow_pos b e m = b ^ Zpos e mod m.
Proof.
  intros Hm. assert (∀ x, (x mod m * (x mod m)) mod m = (x * x) mod m) as Hsq by (intros x; symmetry; apply Z.mul_mod; lia).
  induction e as [e IH|e IH|]; cbn [modpow_pos]; rewrite ?IH.
  - replace (b ^ Zpos e~1) with (b ^ Zpos e * b ^ Zpos e * b) by (rewrite (Pos2Z.inj_xI e), (Z.mul_comm 2), Z.pow_add_r, Z.pow_1_r, Z.pow_mul_r, Z.pow_2_r by lia; done).
    rewrite <-(Z.mul_mod_idemp_l (_ * _) b), Hsq by lia. by rewrite Z.mul_mod_idemp_l by lia.
  - rewrite Hsq. f_equal. rewrite (Pos2Z.inj_xO e), (Z.mul_comm 2), Z.pow_mul_r, Z.pow_2_r by lia. done.
  - by rewrite Z.pow_1_r.
Qed.
Lemma modpow_spec b e m : 0 < m → 0 <= e → modpow b e m = b ^ e mod m.
Proof. intros Hm He. destruct e as [|e|e]; [done|by apply modpow_pos_spec|lia]. Qed.
Lemma big_bytes_spec x : 0 <= x → of_be (big_bytes x) = x ∧ bytes_ok (big_bytes x) ∧ 0 < zlen (big_bytes x) ∧ (0 < x → 256 ^ (zlen (big_bytes x) - 1) <= x).
Proof.
  intros Hx. unfold big_bytes. destruct (Z.eqb_spec x 0) as [->|Hne]; [repeat split; [repeat constructor; lia|lia]|].
  pose proof (Z.log2_nonneg x). pose proof (Z.log2_spec x ltac:(lia)). set (n := Z.log2 x / 8 + 1).
  assert (0 < n) by (unfold n; divlia). rewrite to_be_zlen, Z2Nat.id by lia. split_and!; [|apply to_be_bytes|lia|].
  - rewrite of_be_to_be_small; [done|]. rewrite Z2Nat.id by lia. split; [lia|]. eapply Z.lt_le_trans; [apply H0|].
    change 256 with (2 ^ 8). rewrite <-Z.pow_mul_r by lia. apply Z.pow_le_mono_r; unfold n; divlia.
  - intros _. etransitivity; [|apply H0]. change 256 with (2 ^ 8). rewrite <-Z.pow_mul_r by lia. apply Z.pow_le_mono_r; unfold n; divlia.
Qed.
(** The result, padded on the left to the size of the modulus. *)
Lemma padded_result x n : 0 <= n → 0 <= x → (x < 256 ^ n) →
  slice (E:=PrecompileError) (left_pad (big_bytes x) n) 0 n = Ok (to_be (Z.to_nat n) x).
Proof.
  intros Hn Hx Hb. destruct (big_bytes_spec x Hx) as (Hv & Hok & Hpos & Hlow). unfold left_pad. destruct (Z.ltb_spec (zlen (big_bytes x)) n) as [Hlt|Hge].
  - rewrite slice_ok; [|lia|rewrite zlen_app, zlen_replicate; lia]. rewrite zdrop_0, ztake_all by (rewrite zlen_app, zlen_replicate; lia). f_equal.
    apply of_be_inj; [apply Forall_app; split; [apply Forall_replicate; done|done]|apply to_be_bytes| |].
    + rewrite length_app, length_replicate, to_be_length. unfold zlen in *. lia.
    + by rewrite of_be_zeros, Hv, of_be_to_be_small by (rewrite Z2Nat.id by lia; lia).
  - rewrite slice_ok by lia. rewrite zdrop_0, Z.sub_0_r. f_equal. destruct (Z.eqb_spec n (zlen (big_bytes x))) as [->|Hne].
    + rewrite ztake_all by lia. transitivity (to_be (length (big_bytes x)) (of_be (big_bytes x))); [by rewrite to_be_of_be|]. unfold zlen. by rewrite Nat2Z.id, Hv.
    + assert (n = 0 ∧ x = 0) as [-> ->].
      { destruct (Z.eqb_spec x 0) as [->|Hx0]; [change (zlen (big_bytes 0)) with 1 in *; lia|]. exfalso. specialize (Hlow ltac:(lia)).
        assert (256 ^ n <= 256 ^ (zlen (big_bytes x) - 1)) by (apply Z.pow_le_mono_r; lia). lia. }
      done.
Qed.

(** ** Gas *)

(** The bits of a number: Python's [bit_length]. *)
Definition bit_length (x : Z) : Z := if x =? 0 then 0 else Z.log2 x + 1.
(** The 32 bytes of an exponent of more than 32 bytes whose bits are counted. The formula
    of EIP-2565 masks the last ones; EIP-198, which it amends, and the clients of the
    network take the first ones. *)
Inductive reading := LastBytes | FirstBytes.
Definition exponent_part (r : reading) (e_size e : Z) : Z :=
  match r with
  | LastBytes => Z.land e (2 ^ 256 - 1)
  | FirstBytes => Z.shiftr e (8 * (e_size - 32))
  end.
(** [calculate_iteration_count] and [calculate_gas_cost] of EIP-2565. *)
Definition eip2565_iterations (r : reading) (e_size e : Z) : Z :=
  if e_size <=? 32 then if e =? 0 then 0 else bit_length e - 1
  else 8 * (e_size - 32) + (bit_length (exponent_part r e_size e) - 1).
Definition priced (b_size m_size iterations : Z) : Z :=
  let words := (Z.max b_size m_size + 7) / 8 in Z.max 200 (words * words * Z.max 1 iterations / 3).
Definition eip2565_gas (r : reading) (b_size e_size m_size e : Z) : Z := priced b_size m_size (eip2565_iterations r e_size e).
(** What the contract charges: it counts the bits of the whole exponent. *)
Definition whole_iterations (e_size e : Z) : Z :=
  if e_size <=? 32 then if e =? 0 then 0 else bit_length e - 1
  else 8 * (e_size - 32) + (Z.max 1 (bit_length e) - 1).
Definition charged_gas (b_size e_size m_size e : Z) : Z := priced b_size m_size (whole_iterations e_size e).

Lemma bit_length_mono x y : 0 <= x <= y → bit_length x <= bit_length y.
Proof.
  intros Hxy. unfold bit_length. pose proof (Z.log2_nonneg y). pose proof (Z.log2_le_mono x y ltac:(lia)).
  destruct (Z.eqb_spec x 0), (Z.eqb_spec y 0); lia.
Qed.
Lemma exponent_part_le r e_size e : 32 <= e_size → 0 <= e → 0 <= exponent_part r e_size e <= e.
Proof.
  intros Hs He. destruct r; cbn [exponent_part].
  - change (2 ^ 256 - 1) with (Z.ones 256). rewrite Z.land_ones by lia. divlia.
  - rewrite Z.shiftr_div_pow2 by lia. assert (0 < 2 ^ (8 * (e_size - 32))) by lia.
    split; [by apply Z.div_pos|]. apply Z.div_le_upper_bound; [done|]. nia.
Qed.
Lemma priced_mono b_size m_size i j : i <= j → 0 <= Z.max b_size m_size → priced b_size m_size i <= priced b_size m_size j.
Proof.
  intros Hij Hm. unfold priced. cbv zeta. assert (0 <= (Z.max b_size m_size + 7) / 8) by divlia.
  apply Z.max_le_compat_l, Z.div_le_mono; [lia|]. apply Z.mul_le_mono_nonneg_l; [nia|lia].
Qed.
(** The charge is never below the price of the EIP, and is the price for exponents of at
    most 32 bytes. *)
Lemma charged_at_least r b_size e_size m_size e : 0 <= m_size → 0 <= e →
  eip2565_gas r b_size e_size m_size e <= charged_gas b_size e_size m_size e ∧
  (e_size <= 32 → charged_gas b_size e_size m_size e = eip2565_gas r b_size e_size m_size e).
Proof.
  intros Hm He. unfold eip2565_gas, charged_gas, eip2565_iterations, whole_iterations. split.
  - apply priced_mono; [|lia]. destruct (Z.leb_spec e_size 32); [lia|].
    pose proof (bit_length_mono _ _ (exponent_part_le r e_size e ltac:(lia) He)). lia.
  - intros Hs. by rewrite (proj2 (Z.leb_le _ _) Hs).
Qed.
Lemma modexp_cost_spec `{Profile} b_size e_size m_size e : 0 <= b_size <= 2 ^ 20 → 0 <= e_size <= 2 ^ 20 → 0 <= m_size <= 2 ^ 20 → 0 <= e < 256 ^ e_size →
  modexp_cost b_size e_size m_size e = Ok (charged_gas b_size e_size m_size e).
Proof.
  intros Hb He Hm Hx. unfold modexp_cost. assert (modexp_iterations e_size e = Ok (whole_iterations e_size e) ∧ 0 <= whole_iterations e_size e <= 2 ^ 24) as [Hi Hr].
  { assert (e = 0 ∨ 0 < e ∧ Z.log2 e < 8 * e_size) as He0.
    { destruct (Z.eqb_spec e 0) as [->|]; [by left|]. right. split; [lia|]. apply Z.log2_lt_pow2; [lia|]. rewrite Z.pow_mul_r by lia. apply Hx. }
    pose proof (Z.log2_nonneg e). unfold modexp_iterations, whole_iterations, bit_length, big_bits, uadd, usub, umul.
    destruct (Z.leb_spec e_size 32); cbn [andb].
    - rewrite (proj2 (Z.ltb_ge 32 e_size)) by lia. destruct (Z.eqb_spec e 0); cbn [negb]; [split; [done|lia]|]. rewrite checked_in by lia. split; [f_equal; lia|lia].
    - rewrite (proj2 (Z.ltb_lt 32 e_size)) by lia. rewrite checked_in, bind_Ok_l by lia. destruct (Z.eqb_spec e 0) as [->|].
      + change (Z.log2 0) with 0. rewrite checked_in, bind_Ok_l, checked_in by lia. split; [f_equal; lia|lia].
      + rewrite checked_in, bind_Ok_l, checked_in by lia. split; [f_equal; lia|lia]. }
  unfold uadd, umul. rewrite checked_in, bind_Ok_l by lia. set (words := (_ + 7) / 8). assert (0 <= words <= 2 ^ 18) as Hw by (unfold words; divlia).
  rewrite checked_in, bind_Ok_l by nia. rewrite Hi, bind_Ok_l, checked_in, bind_Ok_l by nia. unfold charged_gas, priced. fold words. by rewrite Z.max_comm, (Z.max_comm _ 1).
Qed.

(** ** Modular exponentiation *)
Section Modexp.
Context `{Profile}.

(** A part in the middle of a list. *)
Lemma slice_part {E A} (p l s : list A) a b : a = zlen p → b = zlen p + zlen l → slice (E:=E) (p ++ l ++ s) a b = Ok l.
Proof.
  intros -> ->. pose proof (zlen_nonneg p). pose proof (zlen_nonneg l). pose proof (zlen_nonneg s).
  rewrite slice_ok by (rewrite ?zlen_app; lia). by rewrite zdrop_app_exact, ztake_app_exact by lia.
Qed.
Lemma size_of_spec (n : Z) g : 0 <= n < 2 ^ 64 → size_of (to_be 32 n) g = (g, Ok n).
Proof.
  intros Hn. unfold size_of, of_option, lift. rewrite of_be_to_be_small by lia. unfold U256.try_into_usize. by rewrite (proj2 (Z.ltb_lt _ _)) by lia.
Qed.
Definition modexp_input (b e m rest : list Z) : list Z := to_be 32 (zlen b) ++ to_be 32 (zlen e) ++ to_be 32 (zlen m) ++ b ++ e ++ m ++ rest.

Definition modexp_header (b e m : list Z) : list Z := to_be 32 (zlen b) ++ to_be 32 (zlen e) ++ to_be 32 (zlen m).
Lemma input_split b e m rest : modexp_input b e m rest = modexp_header b e m ++ b ++ e ++ m ++ rest ∧ zlen (modexp_header b e m) = 96.
Proof. unfold modexp_input, modexp_header. by rewrite <-!app_assoc, !zlen_app, !to_be_zlen. Qed.
(** The six parts of the input. *)
Lemma input_slices b e m rest : let input := modexp_input b e m rest in let sl := slice (E:=PrecompileError) input in
  let b_end := 96 + zlen b in let e_end := b_end + zlen e in
  sl 0 32 = Ok (to_be 32 (zlen b)) ∧ sl 32 64 = Ok (to_be 32 (zlen e)) ∧ sl 64 96 = Ok (to_be 32 (zlen m)) ∧
  sl 96 b_end = Ok b ∧ sl b_end e_end = Ok e ∧ sl e_end (e_end + zlen m) = Ok m.
Proof.
  destruct (input_split b e m rest) as [Hi Hh]. cbv zeta. split_and!.
  - apply (slice_part []); [done|by rewrite to_be_zlen].
  - apply (slice_part (to_be 32 (zlen b))); by rewrite !to_be_zlen.
  - unfold modexp_input. rewrite (app_assoc (to_be 32 (zlen b))). apply slice_part; by rewrite !zlen_app, !to_be_zlen.
  - rewrite Hi. apply slice_part; lia.
  - rewrite Hi, (app_assoc _ b). apply slice_part; rewrite zlen_app; lia.
  - rewrite Hi, (app_assoc _ b), (app_assoc _ e). apply slice_part; rewrite !zlen_app; lia.
Qed.

(** C23: the input of modular exponentiation is the sizes of three numbers and the numbers.
    For numbers of up to a megabyte (not base and modulus both empty) the precompiled
    contract gives the power modulo the third number in as many bytes as the modulus has,
    zero when the modulus is zero. It charges the gas of EIP-2565 when the exponent has at
    most 32 bytes, and at least that much for longer ones; without the gas it charges
    nothing. *)
Theorem modexp_correct b e m rest gas_limit consumed :
  bytes_ok b → bytes_ok e → bytes_ok m → zlen b <= 2 ^ 20 → zlen e <= 2 ^ 20 → zlen m <= 2 ^ 20 → 0 < zlen b + zlen m →
  let cost := charged_gas (zlen b) (zlen e) (zlen m) (of_be e) in
  0 <= consumed → consumed + cost < 2 ^ 64 →
  (∀ r, eip2565_gas r (zlen b) (zlen e) (zlen m) (of_be e) <= cost ∧
    (zlen e <= 32 → cost = eip2565_gas r (zlen b) (zlen e) (zlen m) (of_be e))) ∧
  modexp (modexp_input b e m rest) gas_limit consumed =
  if gas_limit <? cost then (consumed, Err NotEnoughGas)
  else (consumed + cost, Ok (to_be (length m) (if of_be m =? 0 then 0 else of_be b ^ of_be e mod of_be m))).
Proof.
  intros Hb He Hm Lb Le Lm Hpos cost Hc Hlim. pose proof (zlen_nonneg b). pose proof (zlen_nonneg e). pose proof (zlen_nonneg m). pose proof (zlen_nonneg rest).
  pose proof (of_be_range b Hb). pose proof (of_be_range e He). pose proof (of_be_range m Hm).
  split; [intros r; apply charged_at_least; lia|].
  destruct (input_split b e m rest) as [Hsplit Hheader]. destruct (input_slices b e m rest) as (S1 & S2 & S3 & S4 & S5 & S6).
  set (input := modexp_input b e m rest) in *. assert (zlen input = 96 + zlen b + zlen e + zlen m + zlen rest) as Hlen by (rewrite Hsplit, !zlen_app; lia).
  unfold modexp. rewrite bool_decide_eq_false_2 by (intros Hn; rewrite Hn in Hlen; change (zlen (@nil Z)) with 0 in Hlen; lia).
  assert (right_pad input 96 = input) as -> by (unfold right_pad; by rewrite (proj2 (Z.ltb_ge _ _)) by lia). rewrite S1, S2, S3.
  do 3 (erewrite stm_bind_Ok by done; erewrite stm_bind_Ok by (apply size_of_spec; lia)).
  replace ((zlen b =? 0) && (zlen m =? 0)) with false by (destruct (Z.eqb_spec (zlen b) 0); cbn [andb]; [symmetry; apply Z.eqb_neq; lia|done]).
  unfold uadd. rewrite (checked_in _ (96 + zlen b)) by lia. erewrite stm_bind_Ok by done. rewrite (checked_in _ (96 + zlen b + zlen e)) by lia.
  erewrite stm_bind_Ok by done. rewrite (checked_in _ (96 + zlen b + zlen e + zlen m)) by lia. erewrite stm_bind_Ok by done.
  rewrite (proj2 (Z.ltb_ge (zlen input) _)), S4, S5, S6 by lia. do 3 erewrite stm_bind_Ok by done. rewrite modexp_cost_spec by lia. fold cost.
  erewrite stm_bind_Ok by done. destruct (Z.ltb_spec gas_limit cost); [done|].
  erewrite stm_bind_Ok by (unfold consume, uadd; rewrite checked_in by (unfold cost, charged_gas, priced in *; lia); done).
  unfold lift. set (x := if of_be m =? 0 then 0 else _). assert (x = if of_be m =? 0 then 0 else of_be b ^ of_be e mod of_be m) as ->.
  { unfold x. destruct (Z.eqb_spec (of_be m) 0); [done|]. destruct (Z.eqb_spec (of_be e) 0) as [->|]; [done|]. apply modpow_spec; lia. }
  set (x := if of_be m =? 0 then 0 else _). rewrite padded_result; [unfold zlen; by rewrite Nat2Z.id|lia|..].
  - unfold x. case_match; [lia|]. apply Z.mod_pos_bound. bool_prop. lia.
  - unfold x. destruct (Z.eqb_spec (of_be m) 0); [lia|]. pose proof (Z.mod_pos_bound (of_be b ^ of_be e) (of_be m)). lia.
Qed.
End Modexp.

(** ** Concrete inputs *)

Lemma modexp_correct_witness :
  modexp (H := dev_profile) (modexp_input [8] [9] [0; 10] []) 1000 7 = (207, Ok [0; 8]).
Proof.
  refine (eq_trans (proj2 (modexp_correct (H := dev_profile) [8] [9] [0; 10] [] 1000 7 _ _ _ _ _ _ _ _ _)) _);
    [repeat constructor; lia|repeat constructor; lia|repeat constructor; lia|vm_compute; congruence..|reflexivity].
Defined.
(** For an exponent of 33 bytes the contract charges more than either reading of the EIP. *)
Lemma modexp_overcharges : let e := 2 ^ 264 - 1 in
  eip2565_gas LastBytes 32 33 32 e = 1402 ∧ eip2565_gas FirstBytes 32 33 32 e = 1402 ∧ charged_gas 32 33 32 e = 1445 ∧
  modexp_cost (H := dev_profile) 32 33 32 e = Ok 1445.
Proof. by vm_compute. Qed.
(** The test of the repository with a base of 256 bytes. *)
Lemma modexp_variable_gas_cost :
  modexp (H := dev_profile) (modexp_input (to_be 256 8) [6] [10] []) 100000000 0 = (682, Ok [4]).
Proof. vm_compute. reflexivity. Qed.
(** Sizes near the end of the address range overflow. *)
Lemma modexp_size_panics :
  modexp (H := dev_profile) (to_be 32 (2 ^ 64 - 1) ++ to_be 32 1 ++ to_be 32 1 ++ [0]) 100000000 0 = (0, Panic).
Proof. vm_compute. reflexivity. Qed.
