(* ===== verification/MlirSyscall.v ===== *)
(** * The MLIR virtual machine around its generated code

    Model of [crates/evm_mlir/src]: the environment of a transaction ([env.rs]), the results of
    execution ([result.rs]), the syscalls of the generated code with calls, creations and
    self-destruction ([syscall.rs]), and the execution of transactions ([lib.rs]).

    The code generator and the machine code that it gives are arguments (class [Machine]):
    [compile] of a program and [execute] of what was compiled on a context.  A [U256] of two
    halves is its value; a syscall that returns a pointer returns what it points at. *)

From stdpp Require Import gmap.
From S2P Require Import Prelude U256 Exponential Effects MlirProgram MlirState MlirPrecompiles.

(** ** env.rs *)
Record CfgEnv := mkCfgEnv { chain_id : Z }.
Module BlockEnv.
Record t := mk {
  number : Z; coinbase : list Z; timestamp : Z; basefee : Z; prevrandao : option (list Z); excess_blob_gas : option Z; blob_gasprice : option Z
}.
Section BlockEnv.
Context `{Profile}.
(** Word for word the function of [levm]. *)
Definition fake_exponential : Z → Z → Z → pres Z := fake_exponential_u128.
Definition calc_blob_gasprice (excess_blob_gas : Z) : pres Z := fake_exponential 1 excess_blob_gas 3338477.
Definition set_blob_base_fee (excess_blob_gas : Z) (self : t) : pres t :=
  price ← calc_blob_gasprice excess_blob_gas;
  Ok (mk (number self) (coinbase self) (timestamp self) (basefee self) (prevrandao self) (Some excess_blob_gas) (Some price)).
End BlockEnv.
End BlockEnv.
Inductive TransactTo := TransactCall (address : list Z) | TransactCreate.
Module TxEnv.
Record t := mk {
  caller : list Z; gas_limit : Z; gas_price : Z; transact_to : TransactTo; value : Z; data : list Z; access_list : AccessList;
  blob_hashes : list (list Z); max_fee_per_blob_gas : option Z
}.
Definition get_address (self : t) : list Z := match transact_to self with TransactCall addr => addr | TransactCreate => caller self end.
Definition with_gas_limit (g : Z) (self : t) : t :=
  mk (caller self) g (gas_price self) (transact_to self) (value self) (data self) (access_list self) (blob_hashes self) (max_fee_per_blob_gas self).
End TxEnv.

(** ** result.rs *)
Inductive InvalidTransaction :=
  | PriorityFeeGreaterThanMaxFee | GasPriceLessThanBasefee | CallerGasLimitMoreThanBlock | CallGasCostMoreThanGasLimit
  | RejectCallerWithCode | LackOfFundForMaxFee (fee balance : Z) | OverflowPaymentInTransaction | NonceOverflowInTransaction
  | NonceTooHigh (tx state : Z) | NonceTooLow (tx state : Z) | CreateInitCodeSizeLimit | InvalidChainId | AccessListNotSupported
  | MaxFeePerBlobGasNotSupported | BlobVersionedHashesNotSupported | BlobGasPriceGreaterThanMax | EmptyBlobs
  | BlobCreateTransaction | TooManyBlobs (max have : Z) | BlobVersionNotSupported | EofCrateShouldHaveToAddress.
Inductive OutOfGasError := OogBasic | OogMemoryLimit | OogMemory | OogInvalidOperand | OogRecursiveCreate.
Inductive HaltReason :=
  | OutOfGas (e : OutOfGasError) | OpcodeNotFound | InvalidFEOpcode | InvalidJump | NotActivated | StackUnderflow | StackOverflow
  | OutOfOffset | CreateCollision | HaltPrecompileError | NonceOverflow | CreateContractSizeLimit | CreateContractStartingWithEF
  | HaltCreateInitCodeSizeLimit | OverflowPayment | StateChangeDuringStaticCall | CallNotAllowedInsideStatic | OutOfFunds | CallTooDeep.
Inductive SuccessReason := SuccessStop | SuccessReturn | SuccessSelfDestruct | SuccessEofReturnContract.
Inductive Output := OutputCall (data : list Z) | OutputCreate (data : list Z) (address : option (list Z)).
Definition output_data (self : Output) : list Z := match self with OutputCall data | OutputCreate data _ => data end.
Inductive EVMError := TransactionError (e : InvalidTransaction) | HeaderPrevrandaoNotSet | HeaderExcessBlobGasNotSet | DatabaseError | CustomError (e : string) | EvmPrecompileError (e : string).
Record LogData := mkLogData { topics : list Z; log_data : list Z }.
Record Log := mkLog { log_address : list Z; log_contents : LogData }.
Module ExecutionResult.
Inductive t :=
  | Success (reason : SuccessReason) (gas_used gas_refunded : Z) (logs : list Log) (output : Output)
  | Revert (gas_used : Z) (output : list Z)
  | Halt (reason : HaltReason) (gas_used : Z).
Definition is_success (self : t) : bool := match self with Success _ _ _ _ _ => true | _ => false end.
Definition is_revert (self : t) : bool := match self with Revert _ _ => true | _ => false end.
Definition is_halt (self : t) : bool := match self with Halt _ _ => true | _ => false end.
Definition into_output (self : t) : option (list Z) :=
  match self with Success _ _ _ _ output => Some (output_data output) | Revert _ output => Some output | Halt _ _ => None end.
(** None when the output is empty, too. *)
Definition output (self : t) : option (list Z) :=
  match into_output self with Some (b :: l) => Some (b :: l) | _ => None end.
Definition logs (self : t) : list Log := match self with Success _ _ _ logs _ => logs | _ => [] end.
Definition gas_used (self : t) : Z := match self with Success _ g _ _ _ | Revert g _ | Halt _ g => g end.
Definition gas_refunded (self : t) : Z := match self with Success _ _ g _ _ => g | _ => 0 end.
End ExecutionResult.
Record ResultAndState := mkResultAndState { result : ExecutionResult.t; state : gmap (list Z) Account.t }.

(** ** env.rs: validation and the intrinsic cost *)
Definition MAX_CODE_SIZE : Z := 0x6000.
Module Env.
Record t := mk { cfg : CfgEnv; block : BlockEnv.t; tx : TxEnv.t }.
Definition with_tx (tx : TxEnv.t) (self : t) : t := mk (cfg self) (block self) tx.
Section Env.
Context `{Profile}.
Definition is_create (self : t) : bool := match TxEnv.transact_to (tx self) with TransactCreate => true | TransactCall _ => false end.
Definition validate_blobs (max : Z) (self : t) : res InvalidTransaction unit :=
  price ← unwrap (BlockEnv.blob_gasprice (block self));
  if max <? price then Err BlobGasPriceGreaterThanMax
  else if bool_decide (TxEnv.blob_hashes (tx self) = []) then Err EmptyBlobs
  else if is_create self then Err BlobCreateTransaction
  else if existsb (λ blob, negb (nth 0 blob 0 =? 1)) (TxEnv.blob_hashes (tx self)) then Err BlobVersionNotSupported
  else
    let num_blobs := zlen (TxEnv.blob_hashes (tx self)) in
    if 1 <? num_blobs then Err (TooManyBlobs 1 num_blobs) else Ok tt.
Definition validate_transaction (self : t) : res InvalidTransaction unit :=
  if is_create self && (2 * MAX_CODE_SIZE <? zlen (TxEnv.data (tx self))) then Err CreateInitCodeSizeLimit
  else match TxEnv.max_fee_per_blob_gas (tx self) with Some max => validate_blobs max self | None => Ok tt end.

Fixpoint sum_costs {E} (acc : Z) (l : list Z) : res E Z := match l with [] => Ok acc | x :: l => acc ← uadd acc x; sum_costs acc l end.
Definition init_code_cost {E} (init_code_length : Z) : res E Z :=
  if 2 * MAX_CODE_SIZE <? init_code_length then Panic else Ok (2 * (Z.min (2 ^ 64 - 1) (init_code_length + 31) / 32)).
Fixpoint access_list_cost {E} (acc : Z) (access_list : AccessList) : res E Z :=
  match access_list with
  | [] => Ok acc
  | (_, keys) :: l => acc ← uadd acc 2400; k ← umul (zlen keys) 1900; acc ← uadd acc k; access_list_cost acc l
  end.
Definition calculate_intrinsic_cost {E} (self : t) : res E Z :=
  data_cost ← sum_costs 0 (map (λ byte, if byte =? 0 then 4 else 16) (TxEnv.data (tx self)));
  create_cost ← (if is_create self then c ← init_code_cost (zlen (TxEnv.data (tx self))); uadd 32000 c else Ok 0);
  access_list_cost ← access_list_cost 0 (TxEnv.access_list (tx self));
  a ← uadd 21000 data_cost; b ← uadd a create_cost; uadd b access_list_cost.
Definition consume_intrinsic_cost (self : t) : res InvalidTransaction (t * Z) :=
  intrinsic_cost ← calculate_intrinsic_cost self;
  let gas_limit := TxEnv.gas_limit (tx self) in
  if intrinsic_cost <=? gas_limit then Ok (with_tx (TxEnv.with_gas_limit (gas_limit - intrinsic_cost) (tx self)) self, intrinsic_cost)
  else Err CallGasCostMoreThanGasLimit.
End Env.
End Env.

(** ** syscall.rs: the context *)
Definition address_of (value : Z) : list Z := to_be 20 value.
Module ExitStatusCode.
Inductive t := Return | Stop | Revert | Error | Default.
Definition from_u8 (value : Z) : t :=
  if value =? 0 then Return else if value =? 1 then Stop else if value =? 2 then Revert else if value =? 3 then Error else Default.
End ExitStatusCode.
Module InnerContext.
Record t := mk {
  memory : list Z; return_data : option (Z * Z); program : list Z; gas_remaining : option Z; gas_refund : Z;
  exit_status : option ExitStatusCode.t; logs : list LogData
}.
Definition default : t := mk [] None [] None 0 None [].
Definition with_memory (m : list Z) (self : t) : t :=
  mk m (return_data self) (program self) (gas_remaining self) (gas_refund self) (exit_status self) (logs self).
Definition with_program (p : list Z) (self : t) : t :=
  mk (memory self) (return_data self) p (gas_remaining self) (gas_refund self) (exit_status self) (logs self).
Definition with_result (r : option (Z * Z)) (g : option Z) (e : option ExitStatusCode.t) (self : t) : t :=
  mk (memory self) r (program self) g (gas_refund self) e (logs self).
Definition with_refund (g : Z) (self : t) : t :=
  mk (memory self) (return_data self) (program self) (gas_remaining self) g (exit_status self) (logs self).
Definition with_logs (l : list LogData) (self : t) : t :=
  mk (memory self) (return_data self) (program self) (gas_remaining self) (gas_refund self) (exit_status self) l.
End InnerContext.
(** [resize_memory_if_necessary], a write into a range of the memory, [set_value_to_memory]. *)
Definition resize_memory (offset data_size : Z) (memory : list Z) : list Z :=
  if zlen memory <? offset + data_size then memory ++ replicate (Z.to_nat (offset + data_size - zlen memory)) 0 else memory.
Definition write_range (offset : Z) (data memory : list Z) : pres (list Z) :=
  if zlen memory <? offset + zlen data then Panic else Ok (ztake offset memory ++ data ++ zdrop (offset + zlen data) memory).
Definition set_value_to_memory (memory_offset value_offset size : Z) (value memory : list Z) : pres (list Z) :=
  if zlen value <=? value_offset then write_range memory_offset (replicate (Z.to_nat size) 0) memory
  else
    let value_memory_end := Z.min (zlen value) (value_offset + size) in
    let value_memory_size := value_memory_end - value_offset in
    part ← slice value value_offset value_memory_end;
    memory ← write_range memory_offset part memory;
    write_range (memory_offset + value_memory_size) (replicate (Z.to_nat (size - value_memory_size)) 0) memory.
Module CallFrame.
Record t := mk { caller : list Z; ctx_is_static : bool; last_call_return_data : list Z }.
Definition new (caller : list Z) : t := mk caller false [].
End CallFrame.
Module SyscallContext.
Record t := mk {
  env : Env.t; journal : Journal.t; call_frame : CallFrame.t; inner_context : InnerContext.t; halt_reason : option HaltReason;
  initial_gas : Z; transient_storage : gmap (list Z * Z) Z
}.
Definition new (env : Env.t) (journal : Journal.t) (call_frame : CallFrame.t) (initial_gas : Z) : t :=
  mk env journal call_frame InnerContext.default None initial_gas ∅.
Definition with_journal (j : Journal.t) (self : t) : t :=
  mk (env self) j (call_frame self) (inner_context self) (halt_reason self) (initial_gas self) (transient_storage self).
Definition with_inner (i : InnerContext.t) (self : t) : t :=
  mk (env self) (journal self) (call_frame self) i (halt_reason self) (initial_gas self) (transient_storage self).
Definition with_halt (r : HaltReason) (self : t) : t :=
  mk (env self) (journal self) (call_frame self) (inner_context self) (Some r) (initial_gas self) (transient_storage self).
Definition with_return_data (l : list Z) (self : t) : t :=
  mk (env self) (journal self) (CallFrame.mk (CallFrame.caller (call_frame self)) (CallFrame.ctx_is_static (call_frame self)) l)
    (inner_context self) (halt_reason self) (initial_gas self) (transient_storage self).
Definition with_transient (s : gmap (list Z * Z) Z) (self : t) : t :=
  mk (env self) (journal self) (call_frame self) (inner_context self) (halt_reason self) (initial_gas self) s.
Definition address (self : t) : list Z := TxEnv.get_address (Env.tx (env self)).

Definition return_values (self : t) : list Z :=
  let '(offset, size) := default (0, 0) (InnerContext.return_data (inner_context self)) in
  let memory := InnerContext.memory (inner_context self) in
  if zlen memory <? offset + size then [] else ztake size (zdrop offset memory).
Definition logs (self : t) : list Log := map (mkLog (address self)) (InnerContext.logs (inner_context self)).
Definition GAS_REFUND_DENOMINATOR : Z := 5.
Definition get_result (self : t) : ResultAndState :=
  let gas_remaining := default 0 (InnerContext.gas_remaining (inner_context self)) in
  let gas_used := Z.max 0 (initial_gas self - gas_remaining) in
  let gas_refunded := Z.min (InnerContext.gas_refund (inner_context self)) (gas_used / GAS_REFUND_DENOMINATOR) in
  let exit_status := default ExitStatusCode.Default (InnerContext.exit_status (inner_context self)) in
  let return_values := return_values self in
  let halt_reason := default OpcodeNotFound (halt_reason self) in
  let result := match exit_status with
    | ExitStatusCode.Return => ExecutionResult.Success SuccessReturn gas_used gas_refunded (logs self) (OutputCall return_values)
    | ExitStatusCode.Stop => ExecutionResult.Success SuccessStop gas_used gas_refunded (logs self) (OutputCall return_values)
    | ExitStatusCode.Revert => ExecutionResult.Revert gas_used return_values
    | ExitStatusCode.Error | ExitStatusCode.Default => ExecutionResult.Halt halt_reason gas_used
    end in
  mkResultAndState result (Journal.into_state (journal self)).
End SyscallContext.

(** The generated code. *)
Class Machine := {
  Module_t : Type;
  compile : Program → option Module_t;
  execute : Module_t → SyscallContext.t → Z → SyscallContext.t;
  (** Whether memory of this size can be had. *)
  try_reserve : Z → bool
}.

(** ** utils/misc.rs: addresses of contracts *)
Definition encode_rlp_u64 (number : Z) : list Z :=
  if number =? 0 then [0x80]
  else if number <=? 0x7f then [number]
  else let bytes := big_bytes number in 0x80 + zlen bytes :: bytes.
(** The length is written with all of its eight bytes. *)
Definition contract_address_preimage (address : list Z) (nonce : Z) : list Z :=
  let encoded_nonce := encode_rlp_u64 nonce in
  [0xd5] ++ to_be 8 (zlen encoded_nonce) ++ [0x94] ++ address ++ encoded_nonce.
Definition compute_contract_address `{Crypto} (address : list Z) (nonce : Z) : list Z :=
  drop 12 (crypto_keccak (contract_address_preimage address nonce)).
Definition compute_contract_address2 `{Crypto} (address : list Z) (salt : Z) (initialization_code : list Z) : list Z :=
  drop 12 (crypto_keccak ([0xff] ++ address ++ to_be 32 salt ++ crypto_keccak initialization_code)).

Inductive CallType := Call | StaticCall | DelegateCall | CallCode.
Definition call_type_try_from (call_type : Z) : option CallType :=
  if call_type =? 0 then Some Call else if call_type =? 1 then Some StaticCall
  else if call_type =? 2 then Some DelegateCall else if call_type =? 3 then Some CallCode else None.
Definition REVERT_RETURN_CODE : Z := 0.
Definition SUCCESS_RETURN_CODE : Z := 1.
Definition HALT_RETURN_CODE : Z := 2.

(** ** syscall.rs: the syscalls *)
Definition syscall A := stm SyscallContext.t never A.
Section Syscalls.
Context `{Profile} `{Crypto} `{Machine}.
Import SyscallContext.

Definition gets {A} (f : SyscallContext.t → A) : syscall A := λ c, (c, Ok (f c)).
Definition modify (f : SyscallContext.t → SyscallContext.t) : syscall unit := λ c, (f c, Ok tt).
Definition on_journal {A} (f : Journal.t → Journal.t * A) : syscall A := λ c, let '(j, a) := f (journal c) in (with_journal j c, Ok a).
Definition change_journal (f : Journal.t → Journal.t) : syscall unit := modify (λ c, with_journal (f (journal c)) c).
Definition change_inner (f : InnerContext.t → InnerContext.t) : syscall unit := modify (λ c, with_inner (f (inner_context c)) c).
Definition memory_of (c : SyscallContext.t) : list Z := InnerContext.memory (inner_context c).
Definition change_memory (f : list Z → pres (list Z)) : syscall unit :=
  m ← gets memory_of; m ← lift (f m); change_inner (InnerContext.with_memory m).
Definition this_address : syscall (list Z) := gets address.

Definition write_result (offset bytes_len remaining_gas execution_result : Z) : syscall unit :=
  change_inner (InnerContext.with_result (Some (offset, bytes_len)) (Some remaining_gas) (Some (ExitStatusCode.from_u8 execution_result))).
Definition get_return_data_size : syscall Z := gets (λ c, zlen (CallFrame.last_call_return_data (call_frame c)) mod 2 ^ 32).
Definition copy_return_data_into_memory (dest_offset offset size : Z) : syscall unit :=
  data ← gets (λ c, CallFrame.last_call_return_data (call_frame c));
  change_memory (λ m, set_value_to_memory dest_offset offset size data (resize_memory dest_offset size m)).

(** How the part of [call] that runs another contract ends: the call returns at once, or
    goes on with a return code and data. *)
Inductive call_end := Returned (consumed_gas return_code : Z) | Finished (consumed_gas return_code : Z) (return_data : list Z).
Definition halt (r : HaltReason) (consumed_gas : Z) : syscall call_end :=
  _ ← modify (with_halt r); mret (Returned consumed_gas HALT_RETURN_CODE).

(** The gas of access, with the account marked as warm. *)
Definition access_gas (callee_address : list Z) : syscall Z :=
  is_cold ← gets (λ c, negb (Journal.account_is_warm callee_address (journal c)));
  if is_cold : bool then _ ← change_journal (Journal.add_account_as_warm callee_address); mret 2600
  else mret 100.
(** The transfer of the value: the consumed gas and the stipend, or the early return. *)
Definition transfer (caller_address callee_address : list Z) (caller_account callee_account : AccountInfo.t)
    (value available_gas consumed_gas : Z) : syscall (Z * Z + call_end) :=
  if value =? 0 then mret (inl (consumed_gas, 0))
  else if AccountInfo.balance caller_account <? value then mret (inr (Returned consumed_gas REVERT_RETURN_CODE))
  else
    consumed_gas ← lift (uadd consumed_gas 9000);
    consumed_gas ← lift (if AccountInfo.is_empty callee_account then uadd consumed_gas 25000 else Ok consumed_gas);
    if available_gas <? consumed_gas then r ← halt (OutOfGas OogBasic) consumed_gas; mret (inr r)
    else
      rest ← lift (U256.sub (AccountInfo.balance caller_account) value);
      _ ← change_journal (Journal.set_balance caller_address rest);
      sum ← lift (U256.add (AccountInfo.balance callee_account) value);
      _ ← change_journal (Journal.set_balance callee_address sum);
      mret (inl (consumed_gas, 2300)).
(** The run of a program in a context of its own, which takes the journal; what comes back
    is the result, and the journal goes back with [extend]. *)
Definition run_subcontext (program : Program) (env : Env.t) (frame : CallFrame.t) (gas : Z) (prepare : SyscallContext.t → SyscallContext.t) :
    syscall (SyscallContext.t * ExecutionResult.t) :=
  module ← lift (unwrap (compile program));
  ejected ← on_journal Journal.eject_base;
  let context := execute module (prepare (SyscallContext.new env ejected frame gas)) (TxEnv.gas_limit (Env.tx env)) in
  mret (context, result (get_result context)).
Definition call_env (call_type : CallType) (callee_address : list Z) (value gas : Z) (data : list Z) (c : SyscallContext.t) : Env.t * list Z :=
  let this := address c in
  let tx := Env.tx (env c) in
  let '(new_frame_caller, new_value, transact_to) :=
    match call_type with
    | Call | StaticCall => (this, value, callee_address)
    | CallCode => (this, value, this)
    | DelegateCall => (CallFrame.caller (call_frame c), TxEnv.value tx, this)
    end in
  (Env.with_tx (TxEnv.mk (TxEnv.caller tx) gas (TxEnv.gas_price tx) (TransactCall transact_to) new_value data (TxEnv.access_list tx)
     (TxEnv.blob_hashes tx) (TxEnv.max_fee_per_blob_gas tx)) (env c), new_frame_caller).
Definition call_contract (callee_address : list Z) (value gas_to_send args_offset args_size available_gas : Z) (call_type : Z) : syscall call_end :=
  call_type ← lift (unwrap (call_type_try_from call_type));
  callee_account ← on_journal (Journal.get_account callee_address);
  match callee_account with
  | None => mret (Returned 0 REVERT_RETURN_CODE)
  | Some callee_account =>
    consumed_gas ← access_gas callee_address;
    caller_address ← this_address;
    caller_account ← on_journal (Journal.get_account caller_address);
    paid ← transfer caller_address callee_address (default AccountInfo.default caller_account) callee_account value available_gas consumed_gas;
    match paid with
    | inr r => mret r
    | inl (consumed_gas, stipend) =>
      let remaining_gas := Z.max 0 (available_gas - consumed_gas) in
      let gas_to_send := Z.min (remaining_gas / 64) gas_to_send in
      consumed_gas ← lift (uadd consumed_gas gas_to_send);
      gas_to_send ← lift (uadd gas_to_send stipend);
      memory ← gets memory_of;
      data ← lift (slice memory args_offset (args_offset + args_size));
      new_env ← gets (call_env call_type callee_address value gas_to_send data);
      bytecode ← on_journal (Journal.code_by_address callee_address);
      program ← lift (from_bytecode bytecode);
      is_static ← gets (λ c, CallFrame.ctx_is_static (call_frame c) || match call_type with StaticCall => true | _ => false end);
      '(context, result) ← run_subcontext program new_env.1 (CallFrame.mk new_env.2 is_static []) gas_to_send (λ c, c);
      unused_gas ← lift (usub gas_to_send (ExecutionResult.gas_used result));
      consumed_gas ← lift (usub consumed_gas unused_gas);
      consumed_gas ← lift (usub consumed_gas (ExecutionResult.gas_refunded result));
      return_code ←
        (if ExecutionResult.is_success result
         then _ ← change_journal (Journal.extend_from_successful (journal context)); mret SUCCESS_RETURN_CODE
         else _ ← change_journal (Journal.extend_from_reverted (journal context)); mret REVERT_RETURN_CODE);
      mret (Finished consumed_gas return_code (default [] (ExecutionResult.into_output result)))
    end
  end.
(** The consumed gas and the return code. *)
Definition call (gas_to_send call_to_address value_to_transfer args_offset args_size ret_offset ret_size available_gas consumed_gas call_type : Z) :
    syscall (Z * Z) :=
  let callee_address := address_of call_to_address in
  memory ← gets memory_of;
  if zlen memory <? args_offset + args_size then _ ← modify (with_halt OutOfOffset); mret (consumed_gas, HALT_RETURN_CODE)
  else
    calldata ← lift (slice memory args_offset (args_offset + args_size));
    ended ←
      (if is_precompile callee_address
       then '(consumed_gas, code, data) ← lift (execute_precompile callee_address calldata gas_to_send 100); mret (Finished consumed_gas code data)
       else call_contract callee_address value_to_transfer gas_to_send args_offset args_size available_gas call_type);
    match ended with
    | Returned consumed_gas return_code => mret (consumed_gas, return_code)
    | Finished consumed_gas return_code return_data =>
      _ ← modify (with_return_data return_data);
      _ ← (if return_code =? SUCCESS_RETURN_CODE
           then change_memory (λ m, set_value_to_memory ret_offset 0 ret_size return_data (resize_memory ret_offset ret_size m))
           else mret tt);
      mret (consumed_gas, return_code)
    end.

Definition store_in_selfbalance_ptr : syscall Z :=
  to ← gets (λ c, TxEnv.transact_to (Env.tx (env c)));
  match to with
  | TransactCall address => account ← on_journal (Journal.get_account address); mret (AccountInfo.balance (default AccountInfo.default account))
  | TransactCreate => mret 0
  end.
Definition keccak256_hasher (offset size : Z) : syscall Z :=
  _ ← change_memory (λ m, Ok (resize_memory offset size m));
  memory ← gets memory_of;
  data ← lift (slice memory offset (offset + size));
  mret (of_be (crypto_keccak data)).
Definition store_in_callvalue_ptr : syscall Z := gets (λ c, TxEnv.value (Env.tx (env c))).
Definition store_in_blobbasefee_ptr : syscall Z := gets (λ c, default 0 (BlockEnv.blob_gasprice (Env.block (env c)))).
Definition get_gaslimit : syscall Z := gets (λ c, TxEnv.gas_limit (Env.tx (env c))).
Definition store_in_caller_ptr : syscall Z := gets (λ c, of_be (CallFrame.caller (call_frame c))).
Definition store_in_gasprice_ptr : syscall Z := gets (λ c, TxEnv.gas_price (Env.tx (env c))).
Definition get_chainid : syscall Z := gets (λ c, chain_id (Env.cfg (env c))).
Definition get_calldata_ptr : syscall (list Z) := gets (λ c, TxEnv.data (Env.tx (env c))).
Definition get_calldata_size_syscall : syscall Z := gets (λ c, zlen (TxEnv.data (Env.tx (env c))) mod 2 ^ 32).
Definition get_origin : syscall Z := gets (λ c, of_be (TxEnv.caller (Env.tx (env c)))).
(** None is the null pointer. *)
Definition extend_memory (new_size : Z) : syscall (option (list Z)) :=
  memory ← gets memory_of;
  if new_size <=? zlen memory then mret (Some memory)
  else if try_reserve new_size then
    _ ← change_memory (λ m, Ok (resize_memory 0 new_size m)); memory ← gets memory_of; mret (Some memory)
  else mret None.
Definition copy_code_to_memory (code_offset size dest_offset : Z) : syscall unit :=
  code ← gets (λ c, InnerContext.program (inner_context c));
  change_memory (λ m, set_value_to_memory dest_offset code_offset size code (resize_memory dest_offset size m)).

(** The value and the gas. *)
Definition read_storage (stg_key : Z) : syscall (Z * Z) :=
  address ← this_address;
  is_cold ← gets (λ c, negb (Journal.key_is_warm address stg_key (journal c)));
  slot ← on_journal (Journal.read_storage address stg_key);
  mret (JournalStorageSlot.present_value (default JournalStorageSlot.default slot), if is_cold : bool then 2100 else 100).
(** Gas cost and refund of a write of [value] over [current], when the transaction started
    with [original]. *)
Definition sstore_gas_cost (original current value : Z) (is_cold : bool) : Z :=
  (if (original =? 0) && (current =? 0) && negb (current =? value) then 20000
   else if (original =? current) && negb (current =? value) then 2900
   else 100) + (if is_cold then 2100 else 0).
Definition sstore_gas_refund (original current value : Z) : Z :=
  let reset_non_zero_to_zero := negb (original =? 0) && negb (current =? 0) && (value =? 0) in
  let undo_reset_to_zero := negb (original =? 0) && (current =? 0) && negb (value =? 0) in
  let undo_reset_to_zero_into_original := undo_reset_to_zero && (value =? original) in
  let reset_back_to_zero := (original =? 0) && negb (current =? 0) && (value =? 0) in
  let reset_to_original := negb (current =? value) && (original =? value) in
  if reset_non_zero_to_zero then 4800
  else if undo_reset_to_zero_into_original then -2000
  else if undo_reset_to_zero then -4800
  else if reset_back_to_zero then 19900
  else if reset_to_original then 2800
  else 0.
Definition add_refund (gas_refund : Z) : syscall unit :=
  old ← gets (λ c, InnerContext.gas_refund (inner_context c));
  new ← lift (if 0 <? gas_refund then uadd old gas_refund else Ok (Z.max 0 (old - Z.abs gas_refund)));
  change_inner (InnerContext.with_refund new).
Definition write_storage (stg_key stg_value : Z) : syscall Z :=
  to ← gets (λ c, TxEnv.transact_to (Env.tx (env c)));
  match to with
  | TransactCreate => mret 0
  | TransactCall address =>
    is_cold ← gets (λ c, negb (Journal.key_is_warm address stg_key (journal c)));
    slot ← on_journal (Journal.read_storage address stg_key);
    j ← gets journal;
    j ← lift (Journal.write_storage address stg_key stg_value j);
    _ ← change_journal (λ _, j);
    let '(original, current) := match slot with
      | Some slot => (JournalStorageSlot.original_value slot, JournalStorageSlot.present_value slot)
      | None => (stg_value, stg_value)
      end in
    _ ← add_refund (sstore_gas_refund original current stg_value);
    mret (sstore_gas_cost original current stg_value is_cold)
  end.

(** [create_log], and [append_log] with up to four topics. *)
Definition create_log (offset size : Z) (topics : list Z) : syscall unit :=
  _ ← change_memory (λ m, Ok (resize_memory offset size m));
  memory ← gets memory_of;
  data ← lift (slice memory offset (offset + size));
  change_inner (λ i, InnerContext.with_logs (InnerContext.logs i ++ [mkLogData topics data]) i).
Definition append_log (offset size : Z) : syscall unit := create_log offset size [].
Definition append_log_with_one_topic (offset size topic : Z) : syscall unit := create_log offset size [topic].
Definition append_log_with_two_topics (offset size topic1 topic2 : Z) : syscall unit := create_log offset size [topic1; topic2].
Definition append_log_with_three_topics (offset size topic1 topic2 topic3 : Z) : syscall unit := create_log offset size [topic1; topic2; topic3].
Definition append_log_with_four_topics (offset size topic1 topic2 topic3 topic4 : Z) : syscall unit :=
  create_log offset size [topic1; topic2; topic3; topic4].

Definition get_block_number : syscall Z := gets (λ c, BlockEnv.number (Env.block (env c))).
Definition get_block_hash (number : Z) : syscall Z :=
  block_number ← get_block_number;
  if (number <? Z.max 0 (block_number - 256)) || (block_number <=? number) then mret 0
  else hash ← on_journal (Journal.get_block_hash number); mret (of_be hash).
(** The size of the code and the gas. *)
Definition get_codesize_from_address (address : Z) : syscall (Z * Z) :=
  let address := address_of address in
  is_cold ← gets (λ c, negb (Journal.account_is_warm address (journal c)));
  code ← on_journal (Journal.code_by_address address);
  if is_cold : bool then _ ← change_journal (Journal.add_account_as_warm address); mret (zlen code, 2600)
  else mret (zlen code, 100).
(** The pointer is to a copy that is gone when the syscall returns. *)
Definition get_address_ptr : syscall (list Z) := this_address.
Definition get_prevrandao : syscall Z := gets (λ c, of_be (default zero_hash (BlockEnv.prevrandao (Env.block (env c))))).
Definition get_coinbase_ptr : syscall (list Z) := gets (λ c, BlockEnv.coinbase (Env.block (env c))).
Definition store_in_timestamp_ptr : syscall Z := gets (λ c, BlockEnv.timestamp (Env.block (env c))).
Definition store_in_basefee_ptr : syscall Z := gets (λ c, BlockEnv.basefee (Env.block (env c))).
(** The balance and the gas. *)
Definition store_in_balance (address : Z) : syscall (Z * Z) :=
  if negb (address / 2 ^ 160 =? 0) then mret (0, 2600)
  else
    let address := address_of address in
    is_cold ← gets (λ c, negb (Journal.account_is_warm address (journal c)));
    account ← on_journal (Journal.get_account address);
    let balance := match account with Some a => AccountInfo.balance a | None => 0 end in
    if is_cold : bool then _ ← change_journal (Journal.add_account_as_warm address); mret (balance, 2600)
    else mret (balance, 100).
Definition get_blob_hash_at_index (index : Z) : syscall Z :=
  if negb (index / 2 ^ 128 =? 0) then mret 0
  else
    hashes ← gets (λ c, TxEnv.blob_hashes (Env.tx (env c)));
    if 2 ^ 64 <=? index then mret 0
    else mret (match hashes !! Z.to_nat index with Some x => of_be x | None => 0 end).
Definition copy_ext_code_to_memory (address_value code_offset size dest_offset : Z) : syscall Z :=
  let address := address_of address_value in
  code ← on_journal (Journal.code_by_address address);
  let code_offset := Z.min code_offset (zlen code) in
  _ ← change_memory (λ m, set_value_to_memory dest_offset code_offset size code (resize_memory dest_offset size m));
  is_cold ← gets (λ c, negb (Journal.account_is_warm address (journal c)));
  if is_cold : bool then _ ← change_journal (Journal.add_account_as_warm address); mret 2600
  else mret 100.
(** The hash and the gas; the test for cold is inverted. *)
Definition get_code_hash (address : Z) : syscall (Z * Z) :=
  let address := address_of address in
  is_cold ← gets (λ c, Journal.account_is_warm address (journal c));
  let gas_cost := if is_cold : bool then 2600 else 100 in
  account ← on_journal (Journal.get_account address);
  match account with
  | Some account_info => mret (of_be (AccountInfo.code_hash account_info), gas_cost)
  | None => _ ← change_journal (Journal.add_account_as_warm address); mret (0, gas_cost)
  end.

(** What a creation leaves in [value] and [remaining_gas], and the return code. *)
Definition created_end := (Z * Z * Z)%type.
Definition halt_create (r : HaltReason) (value remaining_gas : Z) : syscall created_end :=
  _ ← modify (with_halt r); mret (value, remaining_gas, HALT_RETURN_CODE).
(** The address of the new contract and the cost of its hash, or the early return. *)
Definition destination (sender_address : list Z) (sender_account : AccountInfo.t) (initialization_bytecode : list Z) (minimum_word_size : Z)
    (salt : option Z) : pres (option (list Z * Z)) :=
  match salt with
  | Some s => hash_cost ← umul minimum_word_size 6; Ok (Some (compute_contract_address2 sender_address s initialization_bytecode, hash_cost))
  | None =>
    if 2 ^ 64 <=? AccountInfo.nonce sender_account + 1 then Ok None
    else Ok (Some (compute_contract_address sender_address (AccountInfo.nonce sender_account), 0))
  end.
Definition creation_cost (minimum_word_size code_size hash_cost : Z) (result : ExecutionResult.t) : pres Z :=
  init_code_cost ← umul minimum_word_size 2;
  code_deposit_cost ← umul code_size 200;
  a ← uadd init_code_cost code_deposit_cost;
  b ← uadd a hash_cost;
  c ← uadd b (ExecutionResult.gas_used result);
  usub c (ExecutionResult.gas_refunded result).
Definition create_aux (size offset value remaining_gas : Z) (salt : option Z) : syscall created_end :=
  let minimum_word_size := (size + 31) / 32 in
  sender_address ← this_address;
  if 2 * MAX_CODE_SIZE <? size then halt_create CreateContractSizeLimit value remaining_gas
  else
    _ ← change_memory (λ m, Ok (resize_memory offset size m));
    memory ← gets memory_of;
    initialization_bytecode ← lift (slice memory offset (offset + size));
    program ← lift (from_bytecode initialization_bytecode);
    code ← lift (to_bytecode program);
    this_program ← gets (λ c, InnerContext.program (inner_context c));
    if bool_decide (this_program = code) then halt_create (OutOfGas OogRecursiveCreate) value remaining_gas
    else
      sender_account ← on_journal (Journal.get_account sender_address);
      sender_account ← lift (unwrap sender_account);
      dest ← lift (destination sender_address sender_account initialization_bytecode minimum_word_size salt);
      match dest with
      | None => halt_create NonceOverflow value remaining_gas
      | Some (dest_addr, hash_cost) =>
        existing ← on_journal (Journal.get_account dest_addr);
        if bool_decide (is_Some existing) then halt_create CreateCollision value remaining_gas
        else
          _ ← change_journal (Journal.add_account_as_warm dest_addr);
          new_env ← gets (λ c,
            let tx := Env.tx (env c) in
            Env.with_tx (TxEnv.mk (TxEnv.caller tx) remaining_gas (TxEnv.gas_price tx) (TransactCall dest_addr) (TxEnv.value tx) (TxEnv.data tx)
              (TxEnv.access_list tx) (TxEnv.blob_hashes tx) (TxEnv.max_fee_per_blob_gas tx)) (env c));
          '(context, result) ← run_subcontext program new_env (CallFrame.new sender_address) remaining_gas
            (λ c, with_inner (InnerContext.with_program code (inner_context c)) (with_journal (Journal.new_account dest_addr value (journal c)) c));
          let program_len := zlen code mod 2 ^ 32 in
          let bytecode := default [] (ExecutionResult.output result) in
          _ ← change_journal (Journal.extend_from_successful (journal context));
          remaining_gas ← lift (creation_cost minimum_word_size (zlen bytecode) hash_cost result);
          if AccountInfo.balance sender_account <? value then
            _ ← write_result offset program_len remaining_gas SUCCESS_RETURN_CODE;
            mret (0, remaining_gas, SUCCESS_RETURN_CODE)
          else
            _ ← change_journal (Journal.new_contract crypto_keccak dest_addr bytecode value);
            if 2 ^ 64 <=? AccountInfo.nonce sender_account + 1 then halt_create NonceOverflow value remaining_gas
            else
              _ ← change_journal (Journal.set_nonce sender_address (AccountInfo.nonce sender_account + 1));
              _ ← change_journal (Journal.set_balance sender_address (AccountInfo.balance sender_account - value));
              _ ← write_result offset program_len remaining_gas SUCCESS_RETURN_CODE;
              mret (of_be dest_addr, remaining_gas, SUCCESS_RETURN_CODE)
      end.
Definition create (size offset value remaining_gas : Z) : syscall created_end := create_aux size offset value remaining_gas None.
Definition create2 (size offset value remaining_gas salt : Z) : syscall created_end := create_aux size offset value remaining_gas (Some salt).

Definition selfdestruct (receiver_address : Z) : syscall Z :=
  sender_address ← this_address;
  let receiver_address := address_of receiver_address in
  sender ← on_journal (Journal.get_account sender_address);
  let sender_balance := AccountInfo.balance (default AccountInfo.default sender) in
  receiver ← on_journal (Journal.get_account receiver_address);
  receiver_is_empty ←
    match receiver with
    | Some receiver =>
      sum ← lift (U256.add (AccountInfo.balance receiver) sender_balance);
      _ ← change_journal (Journal.set_balance receiver_address sum);
      mret (AccountInfo.is_empty receiver)
    | None => _ ← change_journal (Journal.new_account receiver_address sender_balance); mret true
    end;
  _ ← change_journal (Journal.set_balance sender_address 0);
  sender ← on_journal (Journal.get_account sender_address);
  _ ← (if bool_decide (is_Some sender) then change_journal (Journal.set_status sender_address AccountStatus.SelfDestructed) else mret tt);
  mret (if negb (sender_balance =? 0) && receiver_is_empty then 25000 else 0).

Definition read_transient_storage (stg_key : Z) : syscall Z :=
  address ← this_address; gets (λ c, default 0 (transient_storage c !! (address, stg_key))).
Definition write_transient_storage (stg_key stg_value : Z) : syscall unit :=
  address ← this_address; modify (λ c, with_transient (<[(address, stg_key) := stg_value]> (transient_storage c)) c).
End Syscalls.

(** ** lib.rs *)
Module Evm.
Record t := mk { env : Env.t; db : Db.t }.
Section Evm.
Context `{Profile} `{Crypto} `{Machine}.
Definition validate_transaction (self : t) : res EVMError (t * Z) :=
  _ ← map_err TransactionError (Env.validate_transaction (env self));
  '(env, initial_gas_consumed) ← map_err TransactionError (Env.consume_intrinsic_cost (env self));
  Ok (mk env (db self), initial_gas_consumed).
Definition create_syscall_context (initial_gas : Z) (self : t) : SyscallContext.t :=
  let call_frame := CallFrame.new (TxEnv.caller (Env.tx (env self))) in
  let journal := Journal.with_prefetch (TxEnv.access_list (Env.tx (env self))) (Journal.new (db self)) in
  SyscallContext.new (env self) journal call_frame initial_gas.
Definition run_program (program : Program) (initial_gas_consumed : Z) (self : t) : res EVMError ResultAndState :=
  module ← unwrap (compile program);
  let gas_limit := TxEnv.gas_limit (Env.tx (env self)) in
  initial_gas ← uadd gas_limit initial_gas_consumed;
  let context := create_syscall_context initial_gas self in
  code ← no_err (to_bytecode program);
  let context := SyscallContext.with_inner (InnerContext.with_program code (SyscallContext.inner_context context)) context in
  Ok (SyscallContext.get_result (execute module context gas_limit)).
Definition call (initial_gas_consumed : Z) (self : t) : res EVMError ResultAndState :=
  let bytecode := Db.code_by_address (TxEnv.get_address (Env.tx (env self))) (db self) in
  program ← no_err (from_bytecode bytecode);
  run_program program initial_gas_consumed self.
Definition create (initial_gas_consumed : Z) (self : t) : res EVMError ResultAndState :=
  let gas_limit := TxEnv.gas_limit (Env.tx (env self)) in
  let program := TxEnv.data (Env.tx (env self)) in
  initial_gas ← uadd gas_limit initial_gas_consumed;
  let context := create_syscall_context initial_gas self in
  let context := SyscallContext.with_inner (InnerContext.with_memory program (SyscallContext.inner_context context)) context in
  match MlirSyscall.create (zlen program mod 2 ^ 32) 0 (TxEnv.value (Env.tx (env self))) gas_limit context with
  | (context, Ok (_, remaining_gas, _)) =>
    let inner := SyscallContext.inner_context context in
    Ok (SyscallContext.get_result (SyscallContext.with_inner
      (InnerContext.with_result (InnerContext.return_data inner) (Some (Z.max 0 (gas_limit - remaining_gas))) (InnerContext.exit_status inner) inner) context))
  | (_, Err e) => match e with end
  | (_, Panic) => Panic
  | (_, OutOfFuel) => OutOfFuel
  end.
(** The transaction's environment is changed by the validation; the database is not. *)
Definition transact (self : t) : res EVMError (t * ResultAndState) :=
  '(self, initial_gas_consumed) ← validate_transaction self;
  result ←
    match TxEnv.transact_to (Env.tx (env self)) with
    | TransactCall _ => call initial_gas_consumed self
    | TransactCreate => create initial_gas_consumed self
    end;
  Ok (self, result).
(** [changes] is the state in the order in which it is iterated over. *)
Definition transact_commit (order : gmap (list Z) Account.t → list (list Z * Account.t)) (self : t) : res EVMError (t * ExecutionResult.t) :=
  '(self, r) ← transact self;
  Ok (mk (env self) (Db.commit (order (state r)) (db self)), result r).
End Evm.
End Evm.
