(* ===== verification/MlirSyscallLaws.v ===== *)
(** * Transactions on the MLIR virtual machine

    What the generated code can do to a context: write into its memory and make syscalls,
    some of which run further code.  Every such run keeps the journal in step with the
    database; a call that does not succeed changes nothing; storage is charged as the EIPs
    say; and the commit of a transaction leaves the state that the transaction returned. *)

From stdpp Require Import gmap relations.
From S2P Require Import Prelude U256 Effects MlirProgram MlirState MlirStateLaws MlirPrecompiles MlirSyscall.

(** ** The syscalls as data *)
Inductive sys :=
  | SysWriteResult (offset bytes_len remaining_gas execution_result : Z) | SysReturnDataSize
  | SysCopyReturnData (dest_offset offset size : Z)
  | SysCall (gas_to_send call_to_address value args_offset args_size ret_offset ret_size available_gas consumed_gas call_type : Z)
  | SysSelfBalance | SysKeccak (offset size : Z) | SysCallValue | SysBlobBaseFee | SysGasLimit | SysCaller | SysGasPrice | SysChainId
  | SysCalldata | SysCalldataSize | SysOrigin | SysExtendMemory (new_size : Z) | SysCopyCode (code_offset size dest_offset : Z)
  | SysReadStorage (key : Z) | SysWriteStorage (key value : Z)
  | SysLog (offset size : Z) (topics : list Z) | SysBlockNumber | SysBlockHash (number : Z) | SysCodeSize (address : Z)
  | SysAddress | SysPrevrandao | SysCoinbase | SysTimestamp | SysBaseFee | SysBalance (address : Z) | SysBlobHash (index : Z)
  | SysCopyExtCode (address code_offset size dest_offset : Z) | SysCodeHash (address : Z)
  | SysCreate (size offset value remaining_gas : Z) | SysCreate2 (size offset value remaining_gas salt : Z)
  | SysSelfdestruct (receiver : Z) | SysReadTransient (key : Z) | SysWriteTransient (key value : Z).

Section Runs.
Context `{Profile} `{Crypto} `{M : Machine}.

Definition run_sys (s : sys) : syscall unit :=
  let drop {A} (m : syscall A) : syscall unit := _ ← m; mret tt in
  match s with
  | SysWriteResult o l g r => write_result o l g r
  | SysReturnDataSize => drop get_return_data_size
  | SysCopyReturnData a b c => copy_return_data_into_memory a b c
  | SysCall g t v ao az ro rz av cg ty => drop (call g t v ao az ro rz av cg ty)
  | SysSelfBalance => drop store_in_selfbalance_ptr
  | SysKeccak o z => drop (keccak256_hasher o z)
  | SysCallValue => drop store_in_callvalue_ptr
  | SysBlobBaseFee => drop store_in_blobbasefee_ptr
  | SysGasLimit => drop get_gaslimit
  | SysCaller => drop store_in_caller_ptr
  | SysGasPrice => drop store_in_gasprice_ptr
  | SysChainId => drop get_chainid
  | SysCalldata => drop get_calldata_ptr
  | SysCalldataSize => drop get_calldata_size_syscall
  | SysOrigin => drop get_origin
  | SysExtendMemory z => drop (extend_memory z)
  | SysCopyCode o z t => copy_code_to_memory o z t
  | SysReadStorage k => drop (read_storage k)
  | SysWriteStorage k v => drop (write_storage k v)
  | SysLog o z topics => create_log o z topics
  | SysBlockNumber => drop get_block_number
  | SysBlockHash n => drop (get_block_hash n)
  | SysCodeSize a => drop (get_codesize_from_address a)
  | SysAddress => drop get_address_ptr
  | SysPrevrandao => drop get_prevrandao
  | SysCoinbase => drop get_coinbase_ptr
  | SysTimestamp => drop store_in_timestamp_ptr
  | SysBaseFee => drop store_in_basefee_ptr
  | SysBalance a => drop (store_in_balance a)
  | SysBlobHash i => drop (get_blob_hash_at_index i)
  | SysCopyExtCode a o z t => drop (copy_ext_code_to_memory a o z t)
  | SysCodeHash a => drop (get_code_hash a)
  | SysCreate z o v g => drop (create z o v g)
  | SysCreate2 z o v g s => drop (create2 z o v g s)
  | SysSelfdestruct r => drop (selfdestruct r)
  | SysReadTransient k => drop (read_transient_storage k)
  | SysWriteTransient k v => write_transient_storage k v
  end.
End Runs.

(** ** Runs of generated code *)
Section Lawful.
Context `{Profile} `{Crypto} `{M : Machine}.

(** The same machine with other executions. *)
Definition with_execute (ex : Module_t → SyscallContext.t → Z → SyscallContext.t) : Machine :=
  Build_Machine (Module_t (Machine := M)) (compile (Machine := M)) ex (try_reserve (Machine := M)).
(** Generated code reaches a context only by writing memory and by syscalls; the code that
    a syscall executes is generated code, too.  (For one syscall only the executions that it
    makes matter, so that [ex] may be anything on other contexts.) *)
Inductive runs : SyscallContext.t → SyscallContext.t → Prop :=
  | runs_done c : runs c c
  | runs_memory c m c' : runs (SyscallContext.with_inner (InnerContext.with_memory m (SyscallContext.inner_context c)) c) c' → runs c c'
  | runs_syscall c ex s c1 c' : (∀ m sub g, runs sub (ex m sub g)) → run_sys (M := with_execute ex) s c = (c1, Ok tt) → runs c1 c' → runs c c'.
End Lawful.
Class LawfulMachine `{Profile} `{Crypto} `{Machine} := lawful : ∀ m c g, runs c (execute m c g).

(** ** What a run keeps *)
Section Kept.
Context `{Profile} `{Crypto} (d : Db.t).

Record kept (c c' : SyscallContext.t) : Prop := {
  kept_journal : journal_ok d (SyscallContext.journal c');
  kept_grows : grows (SyscallContext.journal c) (SyscallContext.journal c');
  kept_env : SyscallContext.env c' = SyscallContext.env c;
  kept_caller : CallFrame.caller (SyscallContext.call_frame c') = CallFrame.caller (SyscallContext.call_frame c);
  kept_initial : SyscallContext.initial_gas c' = SyscallContext.initial_gas c
}.
Lemma kept_refl c : journal_ok d (SyscallContext.journal c) → kept c c.
Proof. intros. split; [done|apply grows_refl|done..]. Qed.
Lemma kept_trans c1 c2 c3 : kept c1 c2 → kept c2 c3 → kept c1 c3.
Proof. intros [] []. split; [done|by eapply journal_grows_trans|congruence..]. Qed.

(** The operations of the journal. *)
Definition world_of_journal (j : Journal.t) : world := mkWorld (view d j) (storage_view d j) (code_view d j).
Lemma journal_represents j : journal_ok d j → represents d j (world_of_journal j).
Proof. by split. Qed.
Lemma ok_get a j : journal_ok d j → journal_ok d (Journal.get_account a j).1 ∧ grows j (Journal.get_account a j).1.
Proof.
  intros Hj. pose proof (get_account_represents d j _ a (journal_represents j Hj)) as Hg. unfold Journal.get_account.
  destruct (Journal._get_account a j). destruct Hg as (Hr & Hg & _). split; [apply Hr|done].
Qed.
Lemma ok_set_balance a b j : journal_ok d j → journal_ok d (Journal.set_balance a b j) ∧ grows j (Journal.set_balance a b j).
Proof. intros Hj. destruct (set_balance_represents d j _ a b (journal_represents j Hj)) as [Hr Hg]. split; [apply Hr|done]. Qed.
Lemma ok_set_nonce a b j : journal_ok d j → journal_ok d (Journal.set_nonce a b j) ∧ grows j (Journal.set_nonce a b j).
Proof. intros Hj. destruct (set_nonce_represents d j _ a b (journal_represents j Hj)) as [Hr Hg]. split; [apply Hr|done]. Qed.
Lemma ok_destroy a j : journal_ok d j → journal_ok d (Journal.set_status a AccountStatus.SelfDestructed j) ∧ grows j (Journal.set_status a AccountStatus.SelfDestructed j).
Proof. intros Hj. destruct (set_destroyed_represents d j _ a (journal_represents j Hj)) as [Hr Hg]. split; [apply Hr|done]. Qed.
Lemma ok_read a k j : journal_ok d j → journal_ok d (Journal.read_storage a k j).1 ∧ grows j (Journal.read_storage a k j).1.
Proof.
  intros Hj. pose proof (read_represents d j _ a k (journal_represents j Hj)) as Hg. destruct (Journal.read_storage a k j).
  destruct Hg as (Hr & Hg & _). split; [apply Hr|done].
Qed.
Lemma ok_code a j : journal_ok d j → journal_ok d (Journal.code_by_address a j).1 ∧ grows j (Journal.code_by_address a j).1.
Proof.
  intros Hj. pose proof (code_represents d j _ a (journal_represents j Hj)) as Hg. destruct (Journal.code_by_address a j).
  destruct Hg as (Hr & Hg & _). split; [apply Hr|done].
Qed.
Lemma ok_block_hash n j : journal_ok d j → journal_ok d (Journal.get_block_hash n j).1 ∧ grows j (Journal.get_block_hash n j).1.
Proof. intros Hj. destruct (block_hash_represents d j _ n (journal_represents j Hj)) as [Hr Hg]. split; [apply Hr|done]. Qed.
Lemma ok_write a k v j j' : journal_ok d j → Journal.write_storage a k v j = Ok j' → journal_ok d j' ∧ grows j j'.
Proof.
  intros Hj Hw. pose proof (write_represents d j _ a k v (journal_represents j Hj)) as Hr. destruct (account_at _ a).
  - destruct Hr as (j1 & Hj1 & Hr & Hg). rewrite Hw in Hj1. simplify_eq. split; [apply Hr|done].
  - by rewrite Hr in Hw.
Qed.
Lemma ok_warm a j : journal_ok d j → is_Some (Journal.accounts j !! a) ∨ Db.accounts d !! a = None →
  journal_ok d (Journal.add_account_as_warm a j) ∧ grows j (Journal.add_account_as_warm a j).
Proof. intros Hj Ha. destruct (add_warm_represents d j _ a (journal_represents j Hj) Ha) as [Hr Hg]. split; [apply Hr|done]. Qed.

(** An account is known when the journal has it or the database does not. *)
Definition known (j : Journal.t) (a : list Z) : Prop := is_Some (Journal.accounts j !! a) ∨ Db.accounts d !! a = None.
Lemma known_grows j j' K : grows j j' → Forall (known j) K → Forall (known j') K.
Proof. intros Hg HK. eapply Forall_impl; [exact HK|]. intros a [Ha|Ha]; [left; auto|by right]. Qed.
(** A computation that keeps whatever context it ends in, from contexts that know [K]. *)
Definition keeps {A} (K : list (list Z)) (m : syscall A) : Prop := ∀ c c' a,
  journal_ok d (SyscallContext.journal c) → Forall (known (SyscallContext.journal c)) K → m c = (c', Ok a) → kept c c'.

Lemma keeps_mbind {A B} K (m : syscall A) (f : A → syscall B) : keeps K m → (∀ a, keeps K (f a)) → keeps K (m ≫= f).
Proof.
  intros Hm Hf c c' b Hc HK Hr. apply stm_bind_inv in Hr as (c1 & a & H1 & H2). pose proof (Hm _ _ _ Hc HK H1) as Hk.
  eapply kept_trans; [exact Hk|]. eapply Hf; [apply Hk|eapply known_grows; [apply Hk|exact HK]|exact H2].
Qed.
Lemma keeps_mret {A} K (a : A) : keeps K (mret a).
Proof. intros c c' b Hc _ [= <- <-]. by apply kept_refl. Qed.
Lemma keeps_lifted {A} K (r : pres A) : keeps K (lift r).
Proof. intros c c' b Hc _ [= <- _]. by apply kept_refl. Qed.
Lemma keeps_gets {A} K (f : SyscallContext.t → A) : keeps K (gets f).
Proof. intros c c' b Hc _ [= <- _]. by apply kept_refl. Qed.
Lemma keeps_inner K f : keeps K (change_inner f).
Proof. intros c c' b Hc _ [= <- _]. split; [done|apply grows_refl|done..]. Qed.
Lemma keeps_modify K f : (∀ c, SyscallContext.journal (f c) = SyscallContext.journal c ∧ SyscallContext.env (f c) = SyscallContext.env c ∧
  CallFrame.caller (SyscallContext.call_frame (f c)) = CallFrame.caller (SyscallContext.call_frame c) ∧ SyscallContext.initial_gas (f c) = SyscallContext.initial_gas c) →
  keeps K (modify f).
Proof. intros Hf c c' b Hc _ [= <- _]. destruct (Hf c) as (Hj & He & Hcl & Hi). split; rewrite ?Hj; [done|apply grows_refl|done..]. Qed.
Lemma keeps_memory K f : keeps K (change_memory f).
Proof. apply keeps_mbind; [apply keeps_gets|intros m]. apply keeps_mbind; [apply keeps_lifted|intros m']. apply keeps_inner. Qed.
Lemma keeps_change_journal K f : (∀ j, journal_ok d j → journal_ok d (f j) ∧ grows j (f j)) → keeps K (change_journal f).
Proof. intros Hf c c' b Hc _ [= <- _]. destruct (Hf _ Hc). by split. Qed.
Lemma keeps_on_journal {A} K (f : Journal.t → Journal.t * A) : (∀ j, journal_ok d j → journal_ok d (f j).1 ∧ grows j (f j).1) → keeps K (on_journal f).
Proof.
  intros Hf c c' b Hc _. unfold on_journal. pose proof (Hf _ Hc) as Hj. destruct (f (SyscallContext.journal c)) as [j a]. intros [= <- _].
  destruct Hj. by split.
Qed.
Lemma keeps_warm K a : a ∈ K → keeps K (change_journal (Journal.add_account_as_warm a)).
Proof. intros Ha c c' b Hc HK [= <- _]. rewrite Forall_forall in HK. destruct (ok_warm a _ Hc (HK a Ha)). by split. Qed.

Lemma ok_new_account a b j : Db.accounts d !! a = None → journal_ok d j → journal_ok d (Journal.new_account a b j) ∧ grows j (Journal.new_account a b j).
Proof. intros Ha Hj. destruct (new_account_represents d j _ a b (journal_represents j Hj) Ha) as [Hr Hg]. split; [apply Hr|done]. Qed.
Lemma ok_new_contract keccak a code b j : Db.accounts d !! a = None → journal_ok d j →
  journal_ok d (Journal.new_contract keccak a code b j) ∧ grows j (Journal.new_contract keccak a code b j).
Proof. intros Ha Hj. destruct (new_contract_represents d keccak j _ a code b (journal_represents j Hj) Ha) as [Hr Hg]. split; [apply Hr|done]. Qed.
Lemma keeps_update {B} K (f : Journal.t → pres Journal.t) (g : unit → syscall B) :
  (∀ j j', journal_ok d j → f j = Ok j' → journal_ok d j' ∧ grows j j') → (∀ u, keeps K (g u)) →
  keeps K (j ← gets SyscallContext.journal; j ← lift (f j); change_journal (λ _, j) ≫= g).
Proof.
  intros Hf Hg c c' b Hc HK Hr. apply stm_bind_inv in Hr as (? & j & [= <- <-] & Hr). apply stm_bind_inv in Hr as (? & j' & [= <- Hj'] & Hr).
  destruct (Hf _ _ Hc Hj') as [Hok Hgr]. apply stm_bind_inv in Hr as (c1 & u & [= <- _] & Hr).
  assert (kept c (SyscallContext.with_journal j' c)) as Hk by by split. eapply kept_trans; [exact Hk|].
  eapply Hg; [apply Hk| |exact Hr]. eapply known_grows; [apply Hk|done].
Qed.

(** What a read of an account tells. *)
Lemma get_known a j : journal_ok d j → let '(j', i) := Journal.get_account a j in
  match i with Some _ => is_Some (Journal.accounts j' !! a) | None => Db.accounts d !! a = None end.
Proof.
  intros Hj. pose proof (get_account_represents d j _ a (journal_represents j Hj)) as Hg. unfold Journal.get_account.
  destruct (Journal._get_account a j) as [j' x]. destruct Hg as (Hr & _ & Ha & Hx). destruct x as [x|]; cbn; [by exists x|].
  symmetry in Hx. by apply (absent_in_db d j') in Hx as [? _].
Qed.
Lemma code_known a j : journal_ok d j → known (Journal.code_by_address a j).1 a.
Proof.
  intros Hj. pose proof (code_represents d j _ a (journal_represents j Hj)) as Hg. destruct (Journal.code_by_address a j) as [j' code].
  destruct Hg as (Hr & _ & [Ha|Ha] & _); [right|by left]. by apply (absent_in_db d j') in Ha as [? _].
Qed.
Lemma keeps_get {B} K a (f : option AccountInfo.t → syscall B) :
  (∀ i, keeps (a :: K) (f (Some i))) → (Db.accounts d !! a = None → keeps (a :: K) (f None)) → keeps K (on_journal (Journal.get_account a) ≫= f).
Proof.
  intros Hs Hn c c' b Hc HK Hr. apply stm_bind_inv in Hr as (c1 & i & H1 & H2).
  pose proof (keeps_on_journal K _ (ok_get a) _ _ _ Hc HK H1) as Hk. eapply kept_trans; [exact Hk|].
  pose proof (get_known a _ Hc) as Ha. unfold on_journal in H1. destruct (Journal.get_account a (SyscallContext.journal c)) as [j' i'] eqn:E. injection H1 as <- ->.
  assert (Forall (known j') K) as HK' by (eapply known_grows; [apply Hk|done]).
  destruct i as [i|]; [eapply (Hs i)|eapply (Hn Ha)]; try exact H2; try apply Hk; (constructor; [|done]); [by left|by right].
Qed.
Lemma keeps_code {B} K a (f : list Z → syscall B) : (∀ code, keeps (a :: K) (f code)) → keeps K (on_journal (Journal.code_by_address a) ≫= f).
Proof.
  intros Hs c c' b Hc HK Hr. apply stm_bind_inv in Hr as (c1 & i & H1 & H2).
  pose proof (keeps_on_journal K _ (ok_code a) _ _ _ Hc HK H1) as Hk. eapply kept_trans; [exact Hk|].
  pose proof (code_known a _ Hc) as Ha. unfold on_journal in H1. destruct (Journal.code_by_address a (SyscallContext.journal c)) as [j' i'] eqn:E. injection H1 as <- ->.
  eapply Hs; [apply Hk| |exact H2]. constructor; [done|]. eapply known_grows; [apply Hk|done].
Qed.
End Kept.
#[local] Ltac keeps_step :=
  first
    [ apply keeps_mret | apply keeps_lifted | apply keeps_gets | apply keeps_inner | apply keeps_memory
    | apply keeps_modify; intros ?; done
    | apply keeps_warm; set_solver
    | apply keeps_change_journal; intros ? ?; first [apply ok_set_balance; done | apply ok_set_nonce; done | apply ok_destroy; done]
    | apply keeps_on_journal; intros ? ?; first [apply ok_get; done | apply ok_read; done | apply ok_code; done | apply ok_block_hash; done]
    | apply keeps_get; [intros ?|intros ?] | apply keeps_code; intros ?
    | apply keeps_mbind; [|intros ?] | case_match ].
#[local] Ltac keeps_all := repeat keeps_step.

(** ** The syscalls *)
Section Syscalls.
Context `{Profile} `{Crypto} `{M : Machine} (d : Db.t).

(** While a callee has the database, the caller's journal is without it. *)
Definition lent (j : Journal.t) : Journal.t := (Journal.eject_base j).1.
Definition resumes {A} (K : list (list Z)) (sub : SyscallContext.t) (m : syscall A) : Prop := ∀ c j c' a,
  journal_ok d j → Forall (known d j) K → journal_ok d (SyscallContext.journal sub) → grows j (SyscallContext.journal sub) →
  SyscallContext.journal c = lent j → m c = (c', Ok a) → kept d (SyscallContext.with_journal j c) c'.
Lemma resumes_lift {A B} K sub (r : pres A) (f : A → syscall B) : (∀ a, resumes K sub (f a)) → resumes K sub (lift r ≫= f).
Proof. intros Hf c j c' b Hj HK Hs Hg Hc Hr. apply stm_bind_inv in Hr as (c1 & a & [= <- _] & H2). by eapply Hf. Qed.
Lemma resumes_assoc {A B C} K sub (m : syscall A) (f : A → syscall B) (g : B → syscall C) :
  resumes K sub (m ≫= λ a, f a ≫= g) → resumes K sub ((m ≫= f) ≫= g).
Proof.
  intros Hm c j c' b Hj HK Hs Hg Hc Hr. eapply Hm; try done. unfold mbind, stm_mbind in *. destruct (m c) as [c1 [a| | |]]; try done.
Qed.
Lemma resumes_ret {A B} K sub (a : A) (f : A → syscall B) : resumes K sub (f a) → resumes K sub (mret a ≫= f).
Proof. done. Qed.
Lemma resumes_successful {B} K sub (f : unit → syscall B) : (∀ u, keeps d K (f u)) →
  resumes K sub (change_journal (Journal.extend_from_successful (SyscallContext.journal sub)) ≫= f).
Proof.
  intros Hf c j c' b Hj HK Hs Hg Hc Hr. apply stm_bind_inv in Hr as (c1 & u & [= <- _] & H2).
  assert (kept d (SyscallContext.with_journal j c) (SyscallContext.with_journal (Journal.extend_from_successful (SyscallContext.journal sub) (SyscallContext.journal c)) c)) as Hk.
  { split; try done. cbn. split; [apply Hs|exact (ok_accounts _ _ Hs)]. }
  eapply kept_trans; [exact Hk|]. eapply Hf; [apply Hk| |exact H2]. eapply known_grows; [apply Hk|done].
Qed.
Lemma resumes_reverted {B} K sub (f : unit → syscall B) : (∀ u, keeps d K (f u)) →
  resumes K sub (change_journal (Journal.extend_from_reverted (SyscallContext.journal sub)) ≫= f).
Proof.
  intros Hf c j c' b Hj HK Hs Hg Hc Hr. apply stm_bind_inv in Hr as (c1 & u & [= <- _] & H2).
  assert (kept d (SyscallContext.with_journal j c) (SyscallContext.with_journal (Journal.extend_from_reverted (SyscallContext.journal sub) (SyscallContext.journal c)) c)) as Hk.
  { split; try done; cbn; rewrite Hc; [|by intros ? ?]. split; [apply Hs|exact (ok_accounts _ _ Hj)]. }
  eapply kept_trans; [exact Hk|]. eapply Hf; [apply Hk| |exact H2]. eapply known_grows; [apply Hk|done].
Qed.

(** The executions that the syscalls make keep their contexts. *)
Definition executes_ok : Prop := ∀ m c g, journal_ok d (SyscallContext.journal c) → kept d c (execute m c g).
Context (Hex : executes_ok).
#[local] Set Default Proof Using "Type*".

Lemma keeps_sub {B} K program env frame gas prepare (f : SyscallContext.t * ExecutionResult.t → syscall B) :
  (∀ c, journal_ok d (SyscallContext.journal c) → Forall (known d (SyscallContext.journal c)) K →
    journal_ok d (SyscallContext.journal (prepare c)) ∧ grows (SyscallContext.journal c) (SyscallContext.journal (prepare c))) →
  (∀ sub r, resumes K sub (f (sub, r))) → keeps d K (run_subcontext program env frame gas prepare ≫= f).
Proof.
  intros Hp Hf c c' b Hj HK Hr. apply stm_bind_inv in Hr as (c1 & [sub r] & H1 & H2). unfold run_subcontext in H1.
  apply stm_bind_inv in H1 as (c2 & m & [= <- _] & H1). apply stm_bind_inv in H1 as (c3 & ej & H3 & H1). injection H3 as <- <-. injection H1 as <- <- <-.
  match type of H2 with f (execute _ ?p _, _) _ = _ => set (q := p) in * end.
  destruct (Hp (SyscallContext.new env (Journal.eject_base (SyscallContext.journal c)).2 frame gas)) as [Hq Hg].
  { split; [apply Hj|exact (ok_accounts _ _ Hj)]. }
  { exact HK. }
  assert (SyscallContext.with_journal (SyscallContext.journal c) (SyscallContext.with_journal (lent (SyscallContext.journal c)) c) = c) as <- by (by destruct c).
  assert (kept d q (execute m q (TxEnv.gas_limit (Env.tx env)))) as Hk by (by apply Hex).
  eapply (Hf _ _ _ (SyscallContext.journal c)); [done|done|apply Hk| |done|exact H2].
  eapply journal_grows_trans; [exact Hg|apply Hk].
Qed.

#[local] Opaque keeps.
Lemma keeps_transfer K a b x y v g c : keeps d K (transfer a b x y v g c).
Proof. unfold transfer, halt. keeps_all. Qed.
Lemma keeps_call_contract a v g ao az av ty : keeps d [] (call_contract a v g ao az av ty).
Proof.
  unfold call_contract. apply keeps_mbind; [keeps_all|intros call_type]. apply keeps_get; [intros i|intros _; keeps_all].
  apply keeps_mbind; [unfold access_gas; keeps_all|intros g1]. do 2 (apply keeps_mbind; [keeps_all|intros ?]).
  apply keeps_mbind; [apply keeps_transfer|intros [[g2 st]|r]]; [|keeps_all].
  do 5 (apply keeps_mbind; [keeps_all|intros ?]). apply keeps_mbind; [keeps_all|intros code]. apply keeps_mbind; [keeps_all|intros p].
  apply keeps_mbind; [keeps_all|intros is_static]. apply keeps_sub; [intros c Hc _; split; [done|apply grows_refl]|intros sub r].
  do 3 (apply resumes_lift; intros ?). case_match; apply resumes_assoc; [apply resumes_successful|apply resumes_reverted]; intros ?; keeps_all.
Qed.
Lemma keeps_call g a v ao az ro rz av cg ty : keeps d [] (call g a v ao az ro rz av cg ty).
Proof.
  unfold call. apply keeps_mbind; [keeps_all|intros m]. case_match; [keeps_all|]. apply keeps_mbind; [keeps_all|intros data].
  apply keeps_mbind; [case_match; [keeps_all|apply keeps_call_contract]|intros [|]]; keeps_all.
Qed.
Lemma keeps_sstore k v : keeps d [] (write_storage k v).
Proof.
  unfold write_storage, add_refund. apply keeps_mbind; [keeps_all|intros [a|]]; [|keeps_all].
  do 2 (apply keeps_mbind; [keeps_all|intros ?]). apply keeps_update; [intros j j' Hj Hw; by eapply ok_write|intros ?; keeps_all].
Qed.
Lemma keeps_create_aux z o v g s : keeps d [] (create_aux z o v g s).
Proof.
  unfold create_aux, halt_create. apply keeps_mbind; [keeps_all|intros sender]. case_match; [keeps_all|].
  do 5 (apply keeps_mbind; [keeps_all|intros ?]). apply keeps_mbind; [keeps_all|intros code]. case_match; [keeps_all|].
  apply keeps_mbind; [keeps_all|intros sa]. do 2 (apply keeps_mbind; [keeps_all|intros ?]). case_match; [|keeps_all].
  case_match. apply keeps_get; [intros i; rewrite bool_decide_eq_true_2 by done; keeps_all|intros Ha].
  rewrite bool_decide_eq_false_2 by (by intros [? [=]]). do 2 (apply keeps_mbind; [keeps_all|intros ?]).
  apply keeps_sub; [intros c Hc _; by apply ok_new_account|intros sub r]. apply resumes_successful. intros _.
  apply keeps_mbind; [keeps_all|intros cost]. unfold write_result. case_match; [keeps_all|].
  apply keeps_mbind; [|intros ?; keeps_all]. apply keeps_change_journal. intros j Hj. by apply ok_new_contract.
Qed.
Lemma keeps_selfdestruct r : keeps d [] (selfdestruct r).
Proof.
  unfold selfdestruct. do 2 (apply keeps_mbind; [keeps_all|intros ?]). apply keeps_get; [intros i; keeps_all|intros Ha].
  apply keeps_mbind; [|intros ?; keeps_all]. apply keeps_mbind; [|intros ?; keeps_all]. apply keeps_change_journal. intros j Hj. by apply ok_new_account.
Qed.
Lemma keeps_sys s : keeps d [] (run_sys s).
Proof.
  destruct s; cbn [run_sys]; try (apply keeps_mbind; [|intros ?; apply keeps_mret]).
  all: try first [apply keeps_call | apply keeps_create_aux | apply keeps_selfdestruct | apply keeps_sstore].
  all: unfold store_in_balance, get_blob_hash_at_index; keeps_all.
Qed.
End Syscalls.

#[local] Transparent keeps.
(** Runs of generated code keep the journal in step with the database. *)
Lemma runs_kept `{Profile} `{Crypto} `{M : Machine} d c c' : runs c c' → journal_ok d (SyscallContext.journal c) → kept d c c'.
Proof.
  induction 1 as [c|c m c' _ IH|c ex s c1 c' _ IHex Hs _ IH]; intros Hj.
  - by apply kept_refl.
  - destruct (IH Hj) as []. by split.
  - assert (kept d c c1) as Hk by (apply (keeps_sys (M := with_execute ex) d IHex s c c1 tt Hj); [constructor|done]).
    eapply kept_trans; [exact Hk|]. apply IH, Hk.
Qed.
Lemma execute_kept `{LawfulMachine} d m c g : journal_ok d (SyscallContext.journal c) → kept d c (execute m c g).
Proof. apply runs_kept, lawful. Qed.

(** ** Transactions *)
Section Transactions.
Context `{LawfulMachine}.
#[local] Set Default Proof Using "Type*".

Lemma validate_transaction_keeps self self' g : Evm.validate_transaction self = Ok (self', g) →
  Evm.db self' = Evm.db self ∧ TxEnv.access_list (Env.tx (Evm.env self')) = TxEnv.access_list (Env.tx (Evm.env self)).
Proof.
  unfold Evm.validate_transaction. destruct (map_err _ (Env.validate_transaction _)); try done. rewrite bind_Ok_l.
  destruct (Env.consume_intrinsic_cost (Evm.env self)) as [[e c]| | |] eqn:He; try done. intros [= <- <-]. split; [done|].
  unfold Env.consume_intrinsic_cost in He. destruct (Env.calculate_intrinsic_cost _); try done. rewrite bind_Ok_l in He. case_match; [|done]. by injection He as <- <-.
Qed.
Lemma start_ok g self : TxEnv.access_list (Env.tx (Evm.env self)) = [] →
  journal_ok (Evm.db self) (SyscallContext.journal (Evm.create_syscall_context g self)).
Proof. intros Ha. unfold Evm.create_syscall_context. cbn. rewrite Ha. by split. Qed.

(** The state of a transaction is that of a journal in step with the database. *)
Lemma transact_journal self self' r : TxEnv.access_list (Env.tx (Evm.env self)) = [] → Evm.transact self = Ok (self', r) →
  Evm.db self' = Evm.db self ∧ ∃ j, journal_ok (Evm.db self) j ∧ state r = Journal.into_state j.
Proof.
  intros Ha. unfold Evm.transact. destruct (Evm.validate_transaction self) as [[s g]| | |] eqn:Hv; try done. rewrite bind_Ok_l.
  destruct (validate_transaction_keeps _ _ _ Hv) as [Hdb Hal]. rewrite Ha in Hal. rewrite <-Hdb. clear Hv.
  set (run := match TxEnv.transact_to (Env.tx (Evm.env s)) with TransactCall _ => Evm.call g s | TransactCreate => Evm.create g s end).
  destruct run as [x| | |] eqn:Hr; try done. rewrite bind_Ok_l. intros [= <- <-]. split; [done|]. unfold run in Hr. case_match.
  - unfold Evm.call, Evm.run_program in Hr. res_inv. eexists. split; [|done]. apply execute_kept. cbn. by apply (start_ok 0).
  - unfold Evm.create in Hr. res_inv.
    match goal with Hc : _ = (_, Ok _) |- _ => unshelve (epose proof (keeps_create_aux (Evm.db s) (λ m c g, execute_kept _ m c g) _ _ _ _ None _ _ _ _ _ Hc) as Hk) end; [|constructor|by eexists; split; [apply Hk|]].
    cbn. by apply (start_ok 0).
Qed.

(** The commit of a journal, account by account. *)
Definition commit_shows (d after : Db.t) (changes : gmap (list Z) Account.t) : Prop := ∀ a,
  match changes !! a with
  | None => Db.accounts after !! a = Db.accounts d !! a
  | Some x =>
    (∀ k slot, Account.storage x !! k = Some slot → EvmStorageSlot.original_value slot = Db.read_storage a k d) ∧
    if Account.is_created x && Account.is_selfdestructed x then Db.accounts after !! a = None
    else
      db_view after a = Some (AccountInfo.nonce (Account.info x), AccountInfo.balance (Account.info x), AccountInfo.code_hash (Account.info x)) ∧
      ∀ k, Db.read_storage a k after =
        match Account.storage x !! k with Some slot => EvmStorageSlot.present_value slot | None => Db.read_storage a k d end
  end.
Lemma journal_commit_shows d j l : journal_ok d j → l ≡ₚ map_to_list (Journal.into_state j) → commit_shows d (Db.commit l d) (Journal.into_state j).
Proof.
  intros Hj Hl a. pose proof (commit_into_state d j l a Hl) as Hc. pose proof (commit_represents d j _ l a (journal_represents d j Hj) Hl) as [Hkeep Hgone].
  unfold Journal.into_state. rewrite lookup_fmap. destruct (Journal.accounts j !! a) as [x|] eqn:Hx; cbn [fmap option_fmap option_map]; [|exact Hc].
  pose proof (ok_accounts d j Hj a x Hx) as Hok. set (y := Journal.state_account (Journal.contracts j) x).
  assert (∀ k, Account.storage y !! k = (λ slot, EvmStorageSlot.mk (JournalStorageSlot.original_value slot) (JournalStorageSlot.present_value slot) false) <$> JournalAccount.storage x !! k) as Hst
    by (intros k; apply lookup_fmap).
  split.
  { intros k slot. rewrite Hst. destruct (JournalAccount.storage x !! k) eqn:Hk; [|done]. intros [= <-]. by apply (ok_original d a x Hok). }
  change (Account.is_created y) with (created x). change (Account.is_selfdestructed y) with (destroyed x).
  destruct (created x && destroyed x) eqn:Hcd.
  - bool_prop. assert (db_view (Db.commit l d) a = None) as Hn by (apply Hgone; by exists x). unfold db_view in Hn. by destruct (Db.accounts (Db.commit l d) !! a).
  - destruct Hkeep as [Hv Hs]; [intros (z & Hz & Hc1 & Hc2); rewrite Hx in Hz; simplify_eq; by rewrite Hc1, Hc2 in Hcd|].
    rewrite Hv. cbn. unfold view, storage_view in *. rewrite Hx. split; [done|]. intros k. rewrite Hs. cbn. unfold storage_view. rewrite Hx, Hst. cbn.
    by destruct (JournalAccount.storage x !! k).
Qed.

(** The table of codes after a commit: the old codes, and those of the accounts that were
    created and not destroyed (the first one, should two have one hash). *)
Definition created_code (changes : gmap (list Z) Account.t) (h code : list Z) : Prop := ∃ a x, changes !! a = Some x ∧
  Account.is_created x = true ∧ Account.is_selfdestructed x = false ∧
  AccountInfo.has_code (Account.info x) = true ∧ AccountInfo.code_hash (Account.info x) = h ∧ AccountInfo.code (Account.info x) = Some code.
Definition commit_shows_codes (d after : Db.t) (changes : gmap (list Z) Account.t) : Prop := ∀ h,
  match Db.contracts d !! h with
  | Some code => Db.contracts after !! h = Some code
  | None =>
    (∀ code, created_code changes h code → is_Some (Db.contracts after !! h)) ∧
    ∀ code, Db.contracts after !! h = Some code → created_code changes h code
  end.
Lemma journal_commit_codes d changes l : l ≡ₚ map_to_list changes → commit_shows_codes d (Db.commit l d) changes.
Proof.
  intros Hl h. destruct (commit_contracts l d h) as (Hkeep & Hnew & Hfrom).
  assert (∀ code, created_code changes h code ↔ stores l h code) as Hiff.
  { intros code. unfold created_code, stores. setoid_rewrite Hl. by setoid_rewrite elem_of_map_to_list. }
  destruct (Db.contracts d !! h) as [code|]; [by apply Hkeep|]. split.
  - intros code Hc. apply (Hnew code), Hiff, Hc.
  - intros code Hc. apply Hiff. by destruct (Hfrom code Hc).
Qed.

(** C19: the commit of a transaction without an access list (whatever its generated code
    does) leaves the database that the returned state describes: accounts that the state
    does not mention are untouched; accounts that were created and destroyed in it are
    absent; every other account has the nonce, the balance, the code hash and the slots of
    the state, and its other slots as before.  The original values that the state tells are
    those before the transaction.  The codes of the accounts that were created and not
    destroyed are stored under their hashes, older codes and the block hashes stay as they
    were, and no other code appears. *)
Theorem commit_agrees order self self' r : (∀ s, order s ≡ₚ map_to_list s) → TxEnv.access_list (Env.tx (Evm.env self)) = [] →
  Evm.transact self = Ok (self', r) →
  let after := Db.commit (order (state r)) (Evm.db self) in
  Evm.transact_commit order self = Ok (Evm.mk (Evm.env self') after, result r) ∧ commit_shows (Evm.db self) after (state r) ∧
  commit_shows_codes (Evm.db self) after (state r) ∧ Db.block_hashes after = Db.block_hashes (Evm.db self).
Proof.
  intros Ho Ha Ht. destruct (transact_journal _ _ _ Ha Ht) as (Hdb & j & Hj & Hst). cbv zeta. split_and!.
  - unfold Evm.transact_commit. rewrite Ht, bind_Ok_l, Hdb. done.
  - rewrite Hst. apply journal_commit_shows; [done|apply Ho].
  - apply journal_commit_codes, Ho.
  - apply commit_hashes.
Qed.
End Transactions.

(** ** Calls that do not succeed *)
Section FailedCalls.
Context `{LawfulMachine} (d : Db.t) (w : world).
#[local] Set Default Proof Using "Type*".

(** The state that the context stands for is [w], and the rest is as it was. *)
Record stays (c c' : SyscallContext.t) : Prop := {
  stays_world : represents d (SyscallContext.journal c') w;
  stays_inner : SyscallContext.inner_context c' = SyscallContext.inner_context c;
  stays_env : SyscallContext.env c' = SyscallContext.env c;
  stays_transient : SyscallContext.transient_storage c' = SyscallContext.transient_storage c
}.
Lemma stays_refl c : represents d (SyscallContext.journal c) w → stays c c.
Proof. by split. Qed.
Lemma stays_trans c1 c2 c3 : stays c1 c2 → stays c2 c3 → stays c1 c3.
Proof. intros [] []. split; congruence. Qed.
Lemma stays_journal c j : represents d j w → stays c (SyscallContext.with_journal j c).
Proof. by split. Qed.

Lemma get_stays a c c' i : represents d (SyscallContext.journal c) w → on_journal (Journal.get_account a) c = (c', Ok i) →
  stays c c' ∧ (is_Some i → is_Some (Journal.accounts (SyscallContext.journal c') !! a) ∧ is_Some (account_at w a)).
Proof.
  intros Hr. pose proof (get_account_represents d _ w a Hr) as Hg. unfold on_journal, Journal.get_account. destruct (Journal._get_account a _) as [j x].
  destruct Hg as (Hr' & _ & Ha & Hx). intros [= <- <-]. split; [by apply stays_journal|]. intros [i Hi]. cbn. rewrite Ha, <-Hx. by destruct x.
Qed.
Lemma access_stays a c c' g : represents d (SyscallContext.journal c) w → is_Some (Journal.accounts (SyscallContext.journal c) !! a) → is_Some (account_at w a) →
  access_gas a c = (c', Ok g) → stays c c'.
Proof.
  intros Hr Ha [x Hx]. unfold access_gas. intros Hc. apply stm_bind_inv in Hc as (? & cold & [= <- _] & Hc). destruct cold; [|injection Hc as <- _; by apply stays_refl].
  injection Hc as <- _. apply stays_journal. eapply represents_ext; [apply (add_warm_represents d _ w a Hr); by left|..]; try done.
  intros b. cbn. destruct (decide (b = a)) as [->|]; [|done]. by rewrite Hx.
Qed.
Lemma code_stays a c c' code : represents d (SyscallContext.journal c) w → on_journal (Journal.code_by_address a) c = (c', Ok code) → stays c c'.
Proof.
  intros Hr. pose proof (code_represents d _ w a Hr) as Hg. unfold on_journal. destruct (Journal.code_by_address a _) as [j x]. intros [= <- _].
  apply stays_journal, Hg.
Qed.
(** A sub-context gets the database, and gives it back. *)
Lemma sub_lends p e f g c c' sub r : represents d (SyscallContext.journal c) w →
  run_subcontext p e f g (λ c, c) c = (c', Ok (sub, r)) →
  c' = SyscallContext.with_journal (lent (SyscallContext.journal c)) c ∧ Journal.db (SyscallContext.journal sub) = Some d.
Proof.
  intros Hr Hc. unfold run_subcontext in Hc. apply stm_bind_inv in Hc as (? & m & [= <- _] & Hc). apply stm_bind_inv in Hc as (? & j & [= <- <-] & Hc).
  injection Hc as <- <- _. split; [done|]. eapply ok_db, kept_journal, execute_kept. cbn. pose proof (rep_ok _ _ _ Hr) as Hj.
  split; [apply Hj|exact (ok_accounts _ _ Hj)].
Qed.
Lemma returned_represents j j' : Journal.db j' = Some d → represents d j w → represents d (Journal.extend_from_reverted j' (lent j)) w.
Proof. intros Hdb [Hj Ha Hs Hh]. split; [split; [done|exact (ok_accounts _ _ Hj)]|exact Ha|exact Hs|exact Hh]. Qed.
Definition failed (e : call_end) : Prop := match e with Returned _ code | Finished _ code _ => code ≠ SUCCESS_RETURN_CODE end.
Lemma call_contract_failed a g ao az av ty c c' e : represents d (SyscallContext.journal c) w →
  call_contract a 0 g ao az av ty c = (c', Ok e) → failed e → stays c c'.
Proof.
  intros Hr Hc Hf. unfold call_contract in Hc. apply stm_bind_inv in Hc as (? & call_type & [= <- _] & Hc).
  apply stm_bind_inv in Hc as (c1 & account & H1' & Hc). destruct (get_stays _ _ _ _ Hr H1') as [Hs1 Ha].
  destruct account as [account|]; [|by injection Hc as <- _]. destruct (Ha (mk_is_Some _ _ eq_refl)) as [Hj Hw].
  eapply stays_trans; [exact Hs1|]. apply stm_bind_inv in Hc as (c2 & gas & H2' & Hc). pose proof (access_stays _ _ _ _ (stays_world _ _ Hs1) Hj Hw H2') as Hs2.
  eapply stays_trans; [exact Hs2|]. apply stm_bind_inv in Hc as (? & this & [= <- _] & Hc).
  apply stm_bind_inv in Hc as (c3 & caller & H3' & Hc). destruct (get_stays _ _ _ _ (stays_world _ _ Hs2) H3') as [Hs3 _].
  eapply stays_trans; [exact Hs3|]. apply stm_bind_inv in Hc as (? & paid & [= <- <-] & Hc). cbv zeta in Hc.
  apply stm_bind_inv in Hc as (? & consumed & [= <- _] & Hc). apply stm_bind_inv in Hc as (? & send & [= <- _] & Hc).
  apply stm_bind_inv in Hc as (? & memory & [= <- _] & Hc). apply stm_bind_inv in Hc as (? & data & [= <- _] & Hc).
  apply stm_bind_inv in Hc as (? & env & [= <- _] & Hc). apply stm_bind_inv in Hc as (c4 & code & H4' & Hc).
  pose proof (code_stays _ _ _ _ (stays_world _ _ Hs3) H4') as Hs4. eapply stays_trans; [exact Hs4|].
  apply stm_bind_inv in Hc as (? & program & [= <- _] & Hc). apply stm_bind_inv in Hc as (? & static & [= <- _] & Hc).
  apply stm_bind_inv in Hc as (c5 & [sub result] & H5' & Hc). destruct (sub_lends _ _ _ _ _ _ _ _ (stays_world _ _ Hs4) H5') as [-> Hdb].
  apply stm_bind_inv in Hc as (? & unused & [= <- _] & Hc). apply stm_bind_inv in Hc as (? & consumed2 & [= <- _] & Hc).
  apply stm_bind_inv in Hc as (? & consumed3 & [= <- _] & Hc). destruct (ExecutionResult.is_success result).
  - apply stm_bind_inv in Hc as (? & code2 & [= <- <-] & Hc). injection Hc as <- <-. by destruct Hf.
  - apply stm_bind_inv in Hc as (? & code2 & [= <- <-] & Hc). injection Hc as <- <-. split; try done. cbn. apply (returned_represents _ _ Hdb), Hs4.
Qed.

(** C20: a call without value that does not succeed (the callee reverts or halts, the account
    does not exist, the arguments are out of range) leaves no trace in the caller: accounts,
    slots and code are the same, and so are its memory, its logs and refund, and its
    transient storage. *)
Theorem failed_call_changes_nothing g t ao az ro rz av cg ty c c' consumed code : represents d (SyscallContext.journal c) w →
  call g t 0 ao az ro rz av cg ty c = (c', Ok (consumed, code)) → code ≠ SUCCESS_RETURN_CODE → stays c c'.
Proof.
  intros Hr Hc Hf. unfold call in Hc. apply stm_bind_inv in Hc as (? & m & [= <- _] & Hc). case_match; [by injection Hc as <- _ _|].
  apply stm_bind_inv in Hc as (? & data & [= <- _] & Hc). apply stm_bind_inv in Hc as (c1 & ended & He & Hc).
  assert (failed ended → stays c c1) as Hs.
  { destruct (is_precompile (address_of t)); [|by apply (call_contract_failed _ _ _ _ _ _ _ _ _ Hr He)]. apply stm_bind_inv in He as (? & [[? ?] ?] & [= <- _] & He).
    injection He as <- _. intros _. by apply stays_refl. }
  destruct ended as [x y|x y z]; [injection Hc as <- _ <-; by apply Hs|]. apply stm_bind_inv in Hc as (? & u & [= <- _] & Hc).
  destruct (Z.eqb_spec y SUCCESS_RETURN_CODE) as [->|Hy].
  - apply stm_bind_inv in Hc as (? & ? & _ & Hc). by injection Hc as _ _ <-.
  - injection Hc as <- _ _. destruct (Hs Hy). by split.
Qed.
End FailedCalls.

(** ** Gas of storage *)

#[local] Ltac eqb_cases := repeat match goal with |- context [?a =? ?b] => destruct (Z.eqb_spec a b) end; cbn [andb orb negb]; lia.
(** The charge for a write as EIP-2200 puts it, with the constants of EIP-2929 (a warm access
    costs 100, a cold one 2100) and EIP-3529 (4800 are refunded for a slot that is cleared). *)
Definition eip_cost (original current value : Z) : Z :=
  if current =? value then 100
  else if original =? current then if original =? 0 then 20000 else 2900
  else 100.
Definition eip_refund (original current value : Z) : Z :=
  if current =? value then 0
  else if original =? current then if negb (original =? 0) && (value =? 0) then 4800 else 0
  else
    (if original =? 0 then 0 else if current =? 0 then -4800 else if value =? 0 then 4800 else 0) +
    (if original =? value then if original =? 0 then 19900 else 2800 else 0).
Lemma cost_is_eip original current value cold :
  sstore_gas_cost original current value cold = eip_cost original current value + (if cold then 2100 else 0).
Proof. unfold sstore_gas_cost, eip_cost. destruct cold; eqb_cases. Qed.
Lemma refund_is_eip original current value : sstore_gas_refund original current value = eip_refund original current value.
Proof. unfold sstore_gas_refund, eip_refund. eqb_cases. Qed.
Lemma eip_refund_max original current value : eip_refund original current value <= 19900.
Proof. unfold eip_refund. eqb_cases. Qed.
(** What it costs in all to bring a slot from its original value to another. *)
Definition net_cost (original value : Z) : Z :=
  if original =? value then 0 else if original =? 0 then 19900 else if value =? 0 then -2000 else 2800.
Lemma eip_net original current value :
  eip_cost original current value - 100 - eip_refund original current value = net_cost original value - net_cost original current.
Proof. unfold eip_cost, eip_refund, net_cost. eqb_cases. Qed.
(** The refund that was given for a slot that is zero now is at least what would be taken back. *)
Definition owed (original value : Z) : Z := if negb (original =? 0) && (value =? 0) then 4800 else 0.
Lemma owed_nonneg original value : 0 <= owed original value.
Proof. unfold owed. by case_match. Qed.
Lemma eip_owed original current value : owed original value <= owed original current + eip_refund original current value.
Proof. unfold owed, eip_refund. eqb_cases. Qed.

Lemma last_cons {A} (l : list A) : ∀ x d, List.last (x :: l) d = List.last l x.
Proof. induction l as [|y l IH]; intros x d; [done|]. change (List.last (y :: l) d = List.last (y :: l) x). by rewrite !IH. Qed.
Section Storage.
Context `{Profile} (d : Db.t) (a : list Z) (k : Z).
Definition refund_of (c : SyscallContext.t) : Z := InnerContext.gas_refund (SyscallContext.inner_context c).
Definition runs_as (c : SyscallContext.t) : Prop := TxEnv.transact_to (Env.tx (SyscallContext.env c)) = TransactCall a.
Lemma add_refund_spec r c c' u : add_refund r c = (c', Ok u) → 0 <= refund_of c → refund_of c + r < 2 ^ 64 →
  c' = SyscallContext.with_inner (InnerContext.with_refund (Z.max 0 (refund_of c + r)) (SyscallContext.inner_context c)) c.
Proof.
  intros Hc Hr Hb. unfold add_refund in Hc. apply stm_bind_inv in Hc as (? & old & [= <- <-] & Hc). apply stm_bind_inv in Hc as (? & new & Hn & Hc).
  injection Hn as <- Hn. injection Hc as <- _. fold (refund_of c) in Hn. destruct (Z.ltb_spec 0 r).
  - unfold uadd in Hn. rewrite checked_in in Hn by lia. injection Hn as <-. by rewrite Z.max_r by lia.
  - injection Hn as <-. do 2 f_equal. lia.
Qed.
Lemma written_is_warm v j j' : Journal.write_storage a k v j = Ok j' → Journal.key_is_warm a k j' = true.
Proof.
  unfold Journal.write_storage. destruct (Journal._get_account a j) as [j1 x]. destruct x as [x|]; [|done]. cbn. intros [= <-].
  unfold Journal.key_is_warm. cbn. rewrite lookup_insert_eq. cbn. rewrite lookup_insert_eq. by apply bool_decide_eq_true_2.
Qed.
(** A write: the slot is set, the gas is that of the EIPs for the value before the
    transaction and the present value, and the refund follows. *)
Lemma write_storage_spec w v c c' g : represents d (SyscallContext.journal c) w → runs_as c → write_storage k v c = (c', Ok g) →
  0 <= refund_of c → refund_of c + 19900 < 2 ^ 64 →
  let o := Db.read_storage a k d in let cur := slot_at w a k in
  represents d (SyscallContext.journal c') (set_slot_at a k v w) ∧ runs_as c' ∧ Journal.key_is_warm a k (SyscallContext.journal c') = true ∧
  g = eip_cost o cur v + (if Journal.key_is_warm a k (SyscallContext.journal c) then 0 else 2100) ∧
  refund_of c' = Z.max 0 (refund_of c + eip_refund o cur v).
Proof.
  intros Hr Ha Hc H0 Hb. unfold write_storage in Hc. apply stm_bind_inv in Hc as (? & to & [= <- <-] & Hc). rewrite Ha in Hc.
  apply stm_bind_inv in Hc as (? & cold & [= <- <-] & Hc). apply stm_bind_inv in Hc as (c1 & slot & Hread & Hc).
  unfold on_journal in Hread. pose proof (read_represents d _ w a k Hr) as Hs. destruct (Journal.read_storage a k _) as [j1 s1] eqn:Ej. destruct Hs as (Hr1 & _ & Hp & Ho).
  injection Hread as <- <-. apply stm_bind_inv in Hc as (? & j & [= <- <-] & Hc). apply stm_bind_inv in Hc as (? & j2 & [= <- Hw] & Hc).
  pose proof (write_represents d _ w a k v Hr1) as Hwr. destruct (account_at w a) as [x|] eqn:Hx; [|change (Journal.write_storage a k v j1 = Ok j2) in Hw; congruence].
  destruct Hwr as (j3 & Hj3 & Hr3 & _). change (Journal.write_storage a k v j1 = Ok j2) in Hw. rewrite Hw in Hj3. injection Hj3 as <-.
  apply stm_bind_inv in Hc as (? & u & [= <- _] & Hc). destruct s1 as [s1|]; [|done]. cbn in Hp, Ho. injection Hp as Hp. injection Ho as Ho. rewrite Hp, Ho in Hc. cbv zeta in *.
  apply stm_bind_inv in Hc as (c2 & u2 & Hf & Hc). injection Hc as <- <-. rewrite refund_is_eip in Hf.
  apply add_refund_spec in Hf as ->; [|done|unfold refund_of in *; cbn; pose proof (eip_refund_max (Db.read_storage a k d) (slot_at w a k) v); lia].
  rewrite cost_is_eip. split_and!; [done|exact Ha| |by destruct (Journal.key_is_warm _ _ _)|done].
  eapply written_is_warm, Hw.
Qed.

(** Writes to one slot, and the sum of what they cost. *)
Fixpoint write_all (vs : list Z) : syscall Z :=
  match vs with [] => mret 0 | v :: vs => g ← write_storage k v; rest ← write_all vs; mret (g + rest) end.
Lemma write_all_spec vs : ∀ w c c' total, represents d (SyscallContext.journal c) w → runs_as c → write_all vs c = (c', Ok total) →
  let o := Db.read_storage a k d in
  owed o (slot_at w a k) <= refund_of c → refund_of c + 19900 * zlen vs < 2 ^ 64 →
  (∃ w', represents d (SyscallContext.journal c') w' ∧ slot_at w' a k = List.last vs (slot_at w a k)) ∧
  total - (refund_of c' - refund_of c) =
    100 * zlen vs + net_cost o (List.last vs (slot_at w a k)) - net_cost o (slot_at w a k) +
    (if bool_decide (vs = []) || Journal.key_is_warm a k (SyscallContext.journal c) then 0 else 2100).
Proof.
  induction vs as [|v vs IH]; intros w c c' total Hr Ha Hc o Ho Hb.
  { injection Hc as <- <-. split; [by exists w|]. change (zlen (@nil Z)) with 0. rewrite bool_decide_eq_true_2 by done. cbn [List.last orb]. lia. }
  cbn [write_all] in Hc. apply stm_bind_inv in Hc as (c1 & g & Hw & Hc). apply stm_bind_inv in Hc as (c2 & rest & Hc & Hs). injection Hs as <- <-.
  rewrite zlen_cons in *. pose proof (zlen_nonneg vs). pose proof (owed_nonneg o (slot_at w a k)).
  destruct (write_storage_spec w v c c1 g Hr Ha Hw) as (Hr1 & Ha1 & Hwarm & -> & Hf); [lia|lia|].
  pose proof (eip_owed o (slot_at w a k) v) as Hnext. pose proof (eip_refund_max o (slot_at w a k) v). fold o in Hf.
  pose proof (owed_nonneg o v). rewrite Z.max_r in Hf by lia.
  assert (slot_at (set_slot_at a k v w) a k = v) as Hv by (cbn; by rewrite decide_True).
  destruct (IH _ c1 c2 rest Hr1 Ha1 Hc) as [Hw' Heq]; [rewrite Hv; fold o; lia|lia|]. rewrite Hv in Hw', Heq. fold o in Heq. rewrite Hwarm, orb_true_r in Heq.
  rewrite last_cons.
  split; [done|]. pose proof (eip_net o (slot_at w a k) v). rewrite bool_decide_eq_false_2 by done. cbn [orb]. fold o. lia.
Qed.

(** C21: writes to one slot of the running contract, starting from its value before the
    transaction: whatever values come in between, the gas charged less the refund given is
    100 for each write, 2100 if the slot was cold, and the net cost of its last value: nothing
    for the original value, 19900 for a slot that was empty, 2800 for a change, and 2000 are
    gained for a slot that is cleared.  The counter of refunds is never cut off at zero. *)
Theorem storage_net_gas vs w c c' total : represents d (SyscallContext.journal c) w → runs_as c →
  slot_at w a k = Db.read_storage a k d → vs ≠ [] → 0 <= refund_of c → refund_of c + 19900 * zlen vs < 2 ^ 64 →
  write_all vs c = (c', Ok total) →
  (∃ w', represents d (SyscallContext.journal c') w' ∧ slot_at w' a k = List.last vs 0) ∧
  total - (refund_of c' - refund_of c) =
    100 * zlen vs + (if Journal.key_is_warm a k (SyscallContext.journal c) then 0 else 2100) + net_cost (Db.read_storage a k d) (List.last vs 0).
Proof.
  intros Hr Ha Hs Hne H0 Hb Hc. destruct (write_all_spec vs w c c' total Hr Ha Hc) as [Hw Ht]; [|done|].
  { rewrite Hs. unfold owed. by destruct (Z.eqb_spec (Db.read_storage a k d) 0). }
  rewrite bool_decide_eq_false_2 in Ht by done. cbn [orb] in Ht. destruct vs as [|v vs]; [done|]. rewrite !last_cons in *. split; [done|].
  rewrite Ht, Hs. replace (net_cost (Db.read_storage a k d) (Db.read_storage a k d)) with 0 by (unfold net_cost; by rewrite Z.eqb_refl). lia.
Qed.
End Storage.

(** ** A machine to try the theorems on *)

(** Code that makes the syscalls of a script, up to the first that fails; callees do
    nothing. *)
Section Scripts.
Context `{Profile} `{Crypto}.
Definition idle : Machine := Build_Machine unit (λ _, Some tt) (λ _ c _, c) (λ _, true).
Fixpoint run_script (l : list sys) (c : SyscallContext.t) : SyscallContext.t :=
  match l with
  | [] => c
  | s :: l => match run_sys (M := idle) s c with (c1, Ok _) => run_script l c1 | _ => c end
  end.
Definition scripted (l : list sys) : Machine := Build_Machine unit (λ _, Some tt) (λ _ c _, run_script l c) (λ _, true).
Lemma run_script_runs l0 l : ∀ c, runs (M := scripted l0) c (run_script l c).
Proof.
  induction l as [|s l IH]; intros c; cbn [run_script]; [constructor|].
  destruct (run_sys (M := idle) s c) as [c1 [[]| | |]] eqn:Hs; try constructor.
  apply (runs_syscall (M := scripted l0) c (λ _ c _, c) s c1); [constructor|exact Hs|apply IH].
Qed.
#[export] Instance scripted_lawful l : @LawfulMachine _ _ (scripted l).
Proof. intros m c g. apply run_script_runs. Qed.
End Scripts.
(** Primitives that do nothing, for computations that do not use them. *)
Definition unit_crypto : Crypto := Build_Crypto (λ _ _ _, None) (λ l, l) (λ l, l) (λ l, replicate 12 0 ++ take 20 l)
  unit (λ _, None) (λ _, true) (λ _, []) unit (λ _, None) (λ _, true) unit (λ _ _, None) (λ _, tt) (λ _, tt) (λ _ _, tt) (λ _ _, tt)
  unit (λ _ _, None) unit tt (λ _ _, tt) (λ _, true) (λ _ _, None).
Module Sample.
Definition alice : list Z := replicate 18 0 ++ [1; 1].
Definition contract : list Z := replicate 18 0 ++ [1; 2].
(** A contract whose slot 7 holds 5. *)
Definition database : Db.t :=
  Db.mk {[ alice := DbAccount.mk 3 1000 ∅ EMPTY_CODE_HASH 0; contract := DbAccount.mk 1 50 {[7 := 5]} (replicate 32 9) 0 ]} {[ replicate 32 9 := [0x00] ]} ∅.
Definition transaction : Env.t :=
  Env.mk (mkCfgEnv 1) (BlockEnv.mk 10 alice 0 1 None None None) (TxEnv.mk alice 100000 1 (TransactCall contract) 0 [] [] [] None).
Definition evm : Evm.t := Evm.mk transaction database.
(** Slot 7 is set to zero, slot 8 to 6. *)
Definition script : list sys := [SysWriteStorage 7 0; SysWriteStorage 8 6; SysWriteResult 0 0 70000 0].
(** Alice creates a contract whose code is three zeros. *)
Definition creation : Evm.t :=
  Evm.mk (Env.mk (mkCfgEnv 1) (BlockEnv.mk 10 alice 0 1 None None None) (TxEnv.mk alice 100000 1 TransactCreate 0 [0] [] [] None)) database.
Definition creating : list sys := [SysExtendMemory 32; SysWriteResult 0 3 70000 0].
(** The code of a callee that sets slot 7 of itself and reverts, and a call to it (or to
    Alice) from the contract. *)
Definition reverting : list sys := [SysWriteStorage 7 0; SysWriteResult 0 0 0 2].
Definition caller_context : SyscallContext.t := SyscallContext.new transaction (Journal.new database) (CallFrame.new alice) 100000.
Definition order : gmap (list Z) Account.t → list (list Z * Account.t) := map_to_list.
End Sample.
#[local] Instance sample_profile : Profile := dev_profile.
#[local] Instance sample_crypto : Crypto := unit_crypto.
Lemma commit_agrees_witness :
  (∃ self' r,
    Evm.transact (H1 := scripted Sample.script) Sample.evm = Ok (self', r) ∧
    result r = ExecutionResult.Success SuccessReturn 30000 4800 [] (OutputCall []) ∧
    commit_shows Sample.database (Db.commit (Sample.order (state r)) Sample.database) (state r)) ∧
  ∃ self' r, Evm.transact (H1 := scripted Sample.creating) Sample.creation = Ok (self', r) ∧
    commit_shows_codes Sample.database (Db.commit (Sample.order (state r)) Sample.database) (state r) ∧
    created_code (state r) (replicate 15 0) [0; 0; 0].
Proof.
  split.
  - set (M := scripted Sample.script). destruct (Evm.transact (H1 := M) Sample.evm) as [[self' r]| | |] eqn:Ht; [|vm_compute in Ht; discriminate..].
    destruct (commit_agrees Sample.order Sample.evm self' r) as (_ & Hs & _); [done|reflexivity|exact Ht|].
    exists self', r. split; [reflexivity|]. split; [|exact Hs].
    assert (match Evm.transact (H1 := M) Sample.evm with Ok (_, r) => result r = ExecutionResult.Success SuccessReturn 30000 4800 [] (OutputCall []) | _ => False end) as Hr by (vm_compute; reflexivity).
    rewrite Ht in Hr. exact Hr.
  - set (M := scripted Sample.creating). destruct (Evm.transact (H1 := M) Sample.creation) as [[self' r]| | |] eqn:Ht; [|vm_compute in Ht; discriminate..].
    destruct (commit_agrees Sample.order Sample.creation self' r) as (_ & _ & Hs & _); [done|reflexivity|exact Ht|].
    exists self', r. split; [reflexivity|]. split; [exact Hs|]. clear Hs.
    exists ([213; 0; 0; 0; 0; 0; 0; 0; 1; 148] ++ replicate 10 0).
    vm_compute in Ht. injection Ht as _ <-. eexists. by vm_compute.
Defined.
Lemma failed_call_changes_nothing_witness : ∃ c', call (H1 := scripted Sample.reverting) 1000 258 0 0 0 0 0 64000 0 0 Sample.caller_context = (c', Ok (1098, REVERT_RETURN_CODE)) ∧
  stays Sample.database (world_of Sample.database) Sample.caller_context c'.
Proof.
  destruct (call (H1 := scripted Sample.reverting) 1000 258 0 0 0 0 0 64000 0 0 Sample.caller_context) as [c' r] eqn:Hc.
  assert ((call (H1 := scripted Sample.reverting) 1000 258 0 0 0 0 0 64000 0 0 Sample.caller_context).2 = Ok (1098, REVERT_RETURN_CODE)) as Hr by (vm_compute; reflexivity).
  rewrite Hc in Hr. cbn in Hr. subst r. exists c'. split; [reflexivity|].
  apply (failed_call_changes_nothing (H1 := scripted Sample.reverting) _ _ 1000 258 0 0 0 0 64000 0 0 _ _ 1098 REVERT_RETURN_CODE); [apply represents_new|exact Hc|done].
Defined.
(** With a value, the transfer is kept although the call reverts. *)
Lemma reverted_call_keeps_value :
  let '(c', r) := call (H1 := scripted Sample.reverting) 1000 257 10 0 0 0 0 64000 0 0 Sample.caller_context in
  r = Ok (9957, REVERT_RETURN_CODE) ∧ view Sample.database (SyscallContext.journal c') Sample.contract = Some (1, 40, replicate 32 9) ∧
  view Sample.database (SyscallContext.journal c') Sample.alice = Some (3, 1010, EMPTY_CODE_HASH).
Proof. vm_compute. auto. Qed.
Lemma storage_net_gas_witness : ∃ c', write_all 7 [0; 9; 0; 5; 3] Sample.caller_context = (c', Ok 8200) ∧
  refund_of c' = 2800.
Proof.
  destruct (write_all 7 [0; 9; 0; 5; 3] Sample.caller_context) as [c' r] eqn:Hc.
  assert ((write_all 7 [0; 9; 0; 5; 3] Sample.caller_context).2 = Ok 8200) as Hr by (vm_compute; reflexivity).
  rewrite Hc in Hr. cbn in Hr. subst r. exists c'. split; [reflexivity|].
  destruct (storage_net_gas Sample.database Sample.contract 7 [0; 9; 0; 5; 3] (world_of Sample.database) Sample.caller_context c' 8200) as [_ Ht];
    [apply represents_new|reflexivity|vm_compute; reflexivity|done|vm_compute; discriminate|vm_compute; reflexivity|exact Hc|].
  change (refund_of Sample.caller_context) with 0 in Ht.
  assert (100 * zlen [0; 9; 0; 5; 3] + (if Journal.key_is_warm Sample.contract 7 (SyscallContext.journal Sample.caller_context) then 0 else 2100)
    + net_cost (Db.read_storage Sample.contract 7 Sample.database) (List.last [0; 9; 0; 5; 3] 0) = 5400) as He by (vm_compute; reflexivity).
  rewrite He in Ht. lia.
Defined.
